(* ===== verification/_CoqProject ===== *)
-Q . S2P
Prelude.v
GoLib.v
GoFloat.v
GoJson.v
Binlog.v
DhtTable.v
DhtWire.v
DhtStore.v
DhtNode.v
Frames.v
ConnLedger.v
ExitSession.v
ExitAuth.v
ExitPolicy.v
ExitUdp.v
ExitPeers.v
ExitHandler.v
ExitUdpTunnel.v
ExitEndpoints.v
RateLimit.v
ControlExits.v
ControlPick.v
TlsHello.v
ControlProxy.v
ControlApi.v
ClientSession.v
ClientDialer.v
ClientDial.v
ClientCidr.v
ClientRoute.v
ClientSocks.v
ClientUdp.v
ClientRouter.v
ArbiterSigning.v
ArbiterPolicy.v
ArbiterManifest.v
ClientDiscovery.v
ClientManifest.v
ClientKey.v
ClientTopup.v
ClientMirror.v
Effects.v
ArbiterStore.v
ArbiterSessions.v
ArbiterLogin.v
ArbiterExpiry.v
ArbiterFrame.v
ArbiterNodes.v
ArbiterClubs.v
ArbiterAccounts.v
