(* ===== verification/Prelude.v ===== *)
(** * Verification of the tunnelcat server

    The repository is a tunnelling system in Go. A client (src/snc/core) opens
    connections through an exit node (src/snc-exit), over HTTP or, when TCP is blocked,
    over UDP datagrams ("SNCU"). Control nodes (src/snc-control) stand between them: they
    choose an exit for each client, watch the exits' health, and serve manifests, client
    binaries and cached logins. The arbiter (src/snc-arbiter) issues sessions against the
    account service Camerlengo, signs lists of nodes and policies, and limits requests.
    An exit asks the arbiter about sessions, and may forward a connection through another
    exit. Nodes find relays and exchange manifests over a Kademlia-like DHT (src/dht).
    Every program writes a binary log (src/binlog).

    This library models the exit, the control node, the client's connections, dialer pool,
    SOCKS server, router and discovery, the arbiter's sessions, nodes, clubs, signed
    documents, manifests and rate limits, the DHT and the binary log as executable definitions, and proves the
    properties that make them correct.

    ** Conventions

    A Go byte is a [Z], a []byte and a Go string are lists of bytes ([bs] gives those
    of a literal). Machine integers are [Z] with their wrap-around written out ([u8] ..
    [u64], [int64]); float64 is IEEE 754 binary64 (GoFloat). Code that returns an error or
    can panic returns [res]; indexing and slicing out of range is [Panic]. A clock reading
    is an argument in nanoseconds. Maps are [gmap], objects shared by pointer live on an
    explicit heap. A method that holds a mutex is one step; one that releases it while it
    waits is one step per critical section, and the step relations allow any interleaving.
    The arbiter's handlers, which meet only in the database, are programs over atomic SQL
    statements (Effects). Dials, HTTP exchanges, random draws and socket reads are inputs,
    so a theorem about a handler is about every outcome they can have. Cryptography and
    full Unicode case mapping are classes whose laws state what the code relies on, each
    with a small instance that the examples compute with. JSON is such a class where a
    component only decodes its own files or one reply; where one program signs what
    another verifies (the arbiter's lists and manifests) it is encoding/json itself, with
    the text of floats as the only parameter (GoJson).

    ** Files

    - Prelude: results, slices, integers, big-endian fields, tactics.
    - GoLib: what the code uses of Go's library: hex, base64, varints, strconv, strings,
      net addresses, math/rand; the classes [Unicode], [Aead], [Ed25519], [Blake2b].
      GoFloat: float64 on top of the standard library's specification of IEEE 754.
      GoJson: encoding/json: UTF-8, printing, parsing, fields of structs.
    - Binlog (src/binlog/binlog.go): record encoding, CRC-16, the scanning decoder.
    - DhtTable, DhtWire, DhtStore, DhtNode (src/dht): identifiers and routing table;
      packet encryption; relay entries, their store and the table of complete mirrors;
      the node with all its message handlers, timers and files. [DhtNode.Node.step] is
      one event of a node's life, [reachable] its closure.
    - Frames: the codecs of both sides. Module [Client] is src/snc/core (tunnel.go,
      udp_relay.go, udp_assoc.go), Module [Exit] is src/snc-exit (handler.go,
      udp_tunnel.go).
    - ConnLedger: the abstract ledger of connections, which says who owns each open
      connection, and the heap-based pool that both session pools of the exit instantiate.
    - src/snc-exit: ExitSession (sessions.go), ExitAuth (auth.go), ExitPolicy (the signed
      lists), ExitUdp (udp_sessions.go), ExitPeers (peers.go, peer_conn.go, arbiter.go,
      cidr_cache.go, whitelist_probe.go), ExitHandler (handleTunnel; each forwarding stage
      is one definition, [open_connection] composes them), ExitUdpTunnel (udp_tunnel.go and
      the UDP relay endpoints), ExitEndpoints (manifests, peer endpoints, request routing).
    - src/snc-control: ControlExits (exits.go, exit_health.go, probe_sites.go: the registry
      and its operations), ControlPick (what is proved of them), TlsHello (the two readers
      of TLS hellos), ControlProxy (handler.go, quic_demux.go, udp_reflector.go), ControlApi
      (the HTTP API, caches, mirrors, self-update and watchdog).
    - src/snc/core: ClientSession (session.go: a tunnelled connection, and its uploads
      composed with the exit's reordering), ClientDialer (the health window of a dialer and
      dialer_pool.go), ClientDial (session renewal, POSTs and dial probes of tunnel.go),
      ClientCidr (cidr.go), ClientRoute (dns_cache.go, bypass.go, watchdog.go), ClientSocks
      (socks5.go), ClientUdp (udp_assoc.go), ClientRouter (router.go), ClientDiscovery
      (discovery.go), ClientKey (key.go, club_discovery.go), ClientTopup
      (manifest_topup.go), ClientMirror (mirror.go, mirror_transport.go); the last three
      hold the arbiter's side of their exchanges too (keyenc.go, manifest_topup_api.go,
      content_manifest.go).
    - src/snc-arbiter: RateLimit (ratelimit.go); Effects, the programs and their
      interleavings; ArbiterStore (db.go, db_keys.go: the tables; users, sessions, keys,
      settings); ArbiterSessions (sessions.go, auth.go, the login endpoints); ArbiterLogin
      and ArbiterExpiry, what is proved of them; ArbiterFrame, what the statements of a
      request may change, and specifications under interference; ArbiterNodes (the nodes of
      db.go, their endpoints in handler.go and admin_node_api.go, load_factor.go, stats_archive.go);
      ArbiterClubs (db_clubs.go, club_manifest_api.go, admin_clubs.go, my_club.go);
      ArbiterAccounts (signup.go, get_key.go, admin_keygen.go, captcha.go: sign-up, password
      resets, the issue of keys); ArbiterSigning (signing.go and the payloads signed
      elsewhere), ArbiterManifest (signed lists and the endpoints that serve them).
    - ArbiterPolicy and ClientManifest compose programs: the arbiter's policy lists with
      the exit's parsers, its manifests with the client's Discoverer.

    ** What is proved

    - Routing at the exit (ExitHandler): forbidden targets are refused without effect;
      every peer contacted is registered, outside the client's country and contacted only
      when forwarding is allowed (the test for the exit itself does not work);
      recognised torrents leave only through peers that allow them; an exit in the client's
      country is a last resort.
    - Ownership (ConnLedger, ExitSession, ExitUdp, ExitHandler, ExitUdpTunnel,
      ControlProxy): every step of a pool refines the ledger, no request leaks a connection
      or a socket, a dead exit's connections are closed.
    - Delivery (ClientSession, ExitSession, Frames, ExitUdpTunnel): end to end the target
      gets a prefix of what the application wrote; downloads come back unchanged; every
      codec reads back what the other side wrote and no decoder panics.
    - Choice (ControlPick, ControlProxy, ClientDialer, ClientUdp, ClientRouter): a client
      gets the best exit, health verdicts follow the rule of two equal outcomes, hosts and
      UDP flows stay on their control, picks return members of the pool, the router uses
      the controls its policy names and keeps a path to each.
    - Signed documents (ArbiterSigning, ArbiterPolicy, ClientManifest): signatures cannot
      be moved between kinds of documents, exits and clients read back what the arbiter
      signed, and a client uses only controls of a manifest the arbiter issued. Keys and
      club manifests survive the way to the client (ClientKey).
    - Content (ClientMirror): a directory the arbiter publishes reaches an undisturbed
      client, and a client that calls its copy complete has those files, as long as no
      earlier run failed or was superseded and runs do not overlap.
    - Nodes and clubs (ArbiterNodes, ArbiterClubs), in every interleaving: only a node's own
      token moves its heartbeat, its traffic is counted across restarts (on SQLite; two
      heartbeats at once break it on Postgres), memberships are
      granted by administrators or earned by enough recommendations, and a club's key goes
      to members only.
    - Accounts (ArbiterAccounts), in every interleaving and whatever Camerlengo answers: a
      password is asked for only by the holder of the user's reset token or for an account
      whose creation was answered without an error, and tokens are mailed only to their users; a captcha is solved by its sum; a key names the live
      controls of its region first.
    - Routing at the client and the control (ClientRoute, ClientSocks, ClientCidr, TlsHello,
      ControlProxy): the bypass manager approves only what a signed list names, and which
      connections go around the tunnel is stated exactly; the CIDR search is a scan, both
      hello readers find the same name, and the control routes by what its one read holds.
    - Trust (ArbiterLogin, ExitAuth, ExitPolicy, ExitPeers, ExitEndpoints, ControlApi,
      RateLimit): in every interleaving each session is vouched for by an accepted password
      or a signed key; verdicts are read from replies of the arbiter (error replies too);
      lists in force were signed; the binary served was announced with its hash; the limits
      hold up to the skew of the clock readings.
    - Time (ArbiterExpiry, ClientDial, ClientSession, ClientTopup, ControlApi): logins,
      renewals, stream loops and top-ups end, sessions expire as stated, the watchdog fires
      when it must.
    - DHT: the routing table and relay store invariants over all reachable worlds, gossip
      never goes back, Closest and Add, packet round trip.
    - Binary log: resynchronisation, round trip, rejection of corrupted records.
    - Some theorems state what the code does against its comments or intent, e.g. that a
      failed COUNT statement makes a new user an administrator, that a refused password can
      be renewed for ever, that an empty reply of Camerlengo opens an account to anyone, that
      clients refuse every manifest with a torrent magnet, that an error reply of the arbiter
      admits a session, that an empty write stalls an upload, or that re-probing a suspect DHT
      contact has no effect.

    ** Bounds and fuel

    Loops recurse on their data. [Session.drain] has the number of buffered frames as
    fuel and the record scanner the buffer's length; the theorems show that neither runs
    out. The arbiter's login loop has thirteen attempts, which [login_terminates] shows to
    be enough; the client's renewal loop recurses on the logins it makes, of which
    [refreshToken_terminates] needs 2284. A varint has at most ten bytes, a group of an
    IPv6 address four digits. Hypotheses on sizes are those at which a length field or a
    counter would wrap (2^16, 2^32, 2^63), a cooldown is at most the hour after which the
    limiter's map is swept.

    ** Not modelled

    Goroutine scheduling below the critical sections, TLS, HTTP and SQL engines, log
    output, metrics, start-up, the exit's reverse proxy to the arbiter, the token bucket,
    writing the disk caches of the policy lists, two runs of the content mirror that overlap on
    the same files, signalling and QUIC plumbing of the control node, platform code, android-core but for its hello reader, SNC_SDK,
    generated events. Of the arbiter the tables of statistics, downloads, subscriptions and
    rules, the reminders and renewals of keys, deployment over SSH and the HTML pages are
    left out: they are reports, or sequences of calls of other services with few decisions
    of their own. The hole punching of holepunch.go, the retransmissions of udp_relay.go and
    the exit's node proxy and statistics are left out because what they promise depends on
    the timing of real sockets. *)

From stdpp Require Import base list gmap strings fin_maps sorting.
From Stdlib Require Import ZArith Lia.

#[global] Open Scope Z_scope.

(** ** Bytes, strings and slices

    A Go [byte] is a [Z] in [0, 256); a [[]byte] and a Go [string] are both
    the list of their bytes. *)

Abbreviation bytes := (list Z).
Abbreviation gostring := (list Z).
Abbreviation lenZ l := (Z.of_nat (length l)).

Definition byte_ok (b : Z) : Prop := 0 <= b < 256.
Abbreviation bytes_ok l := (Forall byte_ok l).

#[export] Instance byte_ok_dec b : Decision (byte_ok b).
Proof. unfold byte_ok. apply _. Defined.

(** The bytes of a literal. *)
Definition bs (s : string) : bytes :=
  map (fun a => Z.of_N (Ascii.N_of_ascii a)) (String.list_ascii_of_string s).

(** ** Outcomes of Go code: a value, an error value, or a run-time panic. *)

Inductive res (A : Type) : Type :=
| Ok (a : A)
| Err (msg : string)
| Panic.
Arguments Ok {A} _.
Arguments Err {A} _.
Arguments Panic {A}.

#[export] Instance res_ret : MRet res := fun _ a => Ok a.
#[export] Instance res_bind : MBind res := fun _ _ f m =>
  match m with Ok a => f a | Err e => Err e | Panic => Panic end.

Definition res_ok {A} (r : res A) : option A :=
  match r with Ok a => Some a | _ => None end.

Definition no_panic {A} (r : res A) : Prop := r <> Panic.

(** [b[i]] and [b[lo:hi]] with Go's bounds checks. *)
Definition go_index (b : bytes) (i : Z) : res Z :=
  if decide (0 <= i < lenZ b) then Ok (nth (Z.to_nat i) b 0) else Panic.

Definition go_slice {A} (b : list A) (lo hi : Z) : res (list A) :=
  if decide (0 <= lo /\ lo <= hi /\ hi <= lenZ b)
  then Ok (take (Z.to_nat (hi - lo)) (drop (Z.to_nat lo) b)) else Panic.

(** ** Machine integers *)

Definition u8 (z : Z) : Z := z mod 2 ^ 8.
Definition u16 (z : Z) : Z := z mod 2 ^ 16.
Definition u32 (z : Z) : Z := z mod 2 ^ 32.
Definition u64 (z : Z) : Z := z mod 2 ^ 64.

(** Conversion to the 64-bit signed [int]. *)
Definition int64 (z : Z) : Z := (z + 2 ^ 63) mod 2 ^ 64 - 2 ^ 63.

Lemma int64_id z : - 2 ^ 63 <= z < 2 ^ 63 -> int64 z = z.
Proof. intros H. unfold int64. rewrite Z.mod_small; lia. Qed.

(** Durations are nanoseconds, as in package time. *)
Definition second : Z := 1000000000.
Definition millisecond : Z := 1000000.
Definition minute : Z := 60 * second.
Definition hour : Z := 60 * minute.

(** [time.Unix(ts, 0)] in nanoseconds since 1970, and [t.Unix()]: package time counts
    64-bit seconds from the year 1, and wraps. *)
Definition unixToInternal : Z := 62135596800.
Definition time_Unix (ts : Z) : Z := (int64 (ts + unixToInternal) - unixToInternal) * second.
Definition time_seconds (t : Z) : Z := int64 (t / second).

Lemma time_seconds_Unix ts : - 2 ^ 63 <= ts < 2 ^ 63 -> time_seconds (time_Unix ts) = ts.
Proof.
  intros H. unfold time_seconds, time_Unix. rewrite Z.div_mul by (unfold second; lia).
  unfold int64.
  replace ((ts + unixToInternal + 2 ^ 63) mod 2 ^ 64 - 2 ^ 63 - unixToInternal + 2 ^ 63)
    with ((ts + unixToInternal + 2 ^ 63) mod 2 ^ 64 - unixToInternal) by lia.
  rewrite Zminus_mod_idemp_l. replace (ts + unixToInternal + 2 ^ 63 - unixToInternal) with (ts + 2 ^ 63) by lia.
  rewrite Z.mod_small; lia.
Qed.

(** ** Big-endian integers (encoding/binary.BigEndian) *)

Fixpoint be_put (n : nat) (v : Z) : bytes :=
  match n with
  | O => []
  | S n' => (v / 256 ^ Z.of_nat n') mod 256 :: be_put n' v
  end.

Definition be_get (l : bytes) : Z := fold_left (fun a b => a * 256 + b) l 0.

Lemma length_be_put n v : length (be_put n v) = n.
Proof. induction n; simpl; auto. Qed.

Lemma be_put_ok n v : bytes_ok (be_put n v).
Proof.
  induction n; simpl; constructor; auto.
  unfold byte_ok. apply Z.mod_pos_bound. lia.
Qed.

Lemma be_fold_app l a : fold_left (fun a b => a * 256 + b) l a = a * 256 ^ lenZ l + be_get l.
Proof.
  revert a. induction l as [|x l IH]; intros a; simpl.
  - unfold be_get. simpl. lia.
  - change (be_get (x :: l)) with (fold_left (fun a b => a * 256 + b) l (0 * 256 + x)). rewrite !IH.
    replace (Z.of_nat (S (length l))) with (Z.succ (lenZ l)) by lia.
    rewrite Z.pow_succ_r by lia. ring.
Qed.

Lemma be_get_cons x l : be_get (x :: l) = x * 256 ^ lenZ l + be_get l.
Proof. unfold be_get at 1. simpl. apply be_fold_app. Qed.

Lemma be_get_put n v : be_get (be_put n v) = v mod 256 ^ Z.of_nat n.
Proof.
  induction n as [|n IH]; simpl be_put.
  - simpl. rewrite Z.mod_1_r. reflexivity.
  - rewrite be_get_cons, length_be_put, IH.
    replace (Z.of_nat (S n)) with (Z.of_nat n + 1) by lia.
    rewrite Z.pow_add_r, Z.pow_1_r by lia.
    rewrite Z.rem_mul_r by lia. lia.
Qed.

Lemma be_get_bound l : bytes_ok l -> 0 <= be_get l < 256 ^ lenZ l.
Proof.
  induction 1 as [|x l Hx Hl IH]; [unfold be_get; simpl; lia|].
  rewrite be_get_cons. simpl length.
  replace (Z.of_nat (S (length l))) with (Z.succ (lenZ l)) by lia.
  rewrite Z.pow_succ_r by lia. unfold byte_ok in Hx. nia.
Qed.

Lemma be_put_get l : bytes_ok l -> be_put (length l) (be_get l) = l.
Proof.
  induction 1 as [|x l Hx Hl IH]; [reflexivity|].
  pose proof (be_get_bound l Hl) as Hb. unfold byte_ok in Hx.
  simpl length. cbn [be_put]. rewrite be_get_cons. f_equal.
  - rewrite Z.div_add_l by lia. rewrite Z.div_small by lia. rewrite Z.mod_small; lia.
  - transitivity (be_put (length l) (be_get l)); [clear IH Hx | exact IH].
    enough (forall n v w, (n <= length l)%nat -> be_put n (v * 256 ^ lenZ l + w) = be_put n w) as E
      by (apply E; lia).
    induction n as [|n IHn]; intros v w Hn; simpl; [reflexivity|].
    rewrite IHn by lia. f_equal.
    replace (lenZ l) with (Z.of_nat n + (1 + (lenZ l - Z.of_nat n - 1))) by lia.
    rewrite !Z.pow_add_r by lia.
    replace (v * (256 ^ Z.of_nat n * (256 ^ 1 * 256 ^ (lenZ l - Z.of_nat n - 1))) + w)
      with ((v * 256 ^ (lenZ l - Z.of_nat n - 1) * 256) * 256 ^ Z.of_nat n + w) by ring.
    rewrite Z.div_add_l by lia. rewrite Z.add_comm, Z.mod_add by lia. reflexivity.
Qed.

(** ** Bits *)

Lemma land_shiftl_low a b s : 0 <= s -> 0 <= a < 2 ^ s -> Z.land a (Z.shiftl b s) = 0.
Proof.
  intros Hs Ha. apply Z.bits_inj'. intros n Hn.
  rewrite Z.land_spec, Z.bits_0. destruct (Z.ltb_spec n s).
  - rewrite Z.shiftl_spec_low by lia. apply andb_false_r.
  - assert (Z.testbit a n = false) as ->; [|reflexivity].
    destruct (Z.eq_dec a 0) as [->|]; [apply Z.bits_0|].
    apply Z.bits_above_log2; [lia|]. apply Z.log2_lt_pow2; [lia|].
    eapply Z.lt_le_trans; [apply Ha|]. apply Z.pow_le_mono_r; lia.
Qed.

Lemma lor_shiftl_add a b s :
  0 <= s -> 0 <= a < 2 ^ s -> Z.lor a (Z.shiftl b s) = a + b * 2 ^ s.
Proof.
  intros Hs Ha. rewrite <- Z.add_nocarry_lor by (by apply land_shiftl_low).
  by rewrite Z.shiftl_mul_pow2.
Qed.

Lemma lxor_bound a b n : 0 <= n -> 0 <= a < 2 ^ n -> 0 <= b < 2 ^ n -> 0 <= Z.lxor a b < 2 ^ n.
Proof.
  intros Hn Ha Hb. assert (0 <= Z.lxor a b) by (apply Z.lxor_nonneg; lia).
  split; [done|]. destruct (Z.eq_dec (Z.lxor a b) 0) as [->|Hne]; [lia|].
  apply Z.log2_lt_pow2; [lia|]. eapply Z.le_lt_trans; [apply Z.log2_lxor; lia|].
  apply Z.max_lub_lt.
  - destruct (Z.eq_dec a 0) as [->|]; [|apply Z.log2_lt_pow2; lia].
    destruct (Z.eq_dec b 0) as [->|]; [by rewrite Z.lxor_0_l in Hne|].
    simpl. enough (0 < 2 ^ n) by (assert (0 <= Z.log2 b < n);
      [split; [apply Z.log2_nonneg | apply Z.log2_lt_pow2; lia] | lia]). lia.
  - destruct (Z.eq_dec b 0) as [->|]; [|apply Z.log2_lt_pow2; lia].
    destruct (Z.eq_dec a 0) as [->|]; [by rewrite Z.lxor_0_l in Hne|].
    assert (0 <= Z.log2 a < n) by (split; [apply Z.log2_nonneg | apply Z.log2_lt_pow2; lia]).
    simpl. lia.
Qed.

(** A decidable fact about all 256 byte values, by computation. *)
Lemma byte_forall (P : Z -> bool) :
  forallb P (map Z.of_nat (seq 0 256)) = true -> forall b, byte_ok b -> P b = true.
Proof.
  intros HP b Hb. unfold byte_ok in Hb. rewrite forallb_forall in HP. apply HP.
  apply in_map_iff. exists (Z.to_nat b). split; [lia|]. apply in_seq. lia.
Qed.

(** ** Lists *)

(** Equal concatenations, up to association and nil. *)
Ltac solve_app := repeat (progress (cbn [app]; rewrite <- ?app_assoc, ?app_nil_r)); reflexivity.

(** Induction by two elements, for decoders that read pairs. *)
Lemma list_ind2 {A} (P : list A -> Prop) :
  P [] -> (forall x, P [x]) -> (forall x y l, P l -> P (x :: y :: l)) -> forall l, P l.
Proof.
  intros H0 H1 H2. fix F 1. intros [|x [|y l]]; [exact H0 | apply H1 | apply H2, F].
Qed.

(** A function is injective on a list whose images do not repeat. *)
Lemma NoDup_fmap_inj {A B} (f : A -> B) l x y : NoDup (f <$> l) -> x ∈ l -> y ∈ l -> f x = f y -> x = y.
Proof.
  induction l as [|z l IH]; intros Hnd Hx Hy E; [by apply not_elem_of_nil in Hx|].
  cbn in Hnd. apply NoDup_cons in Hnd as [Hz Hnd]. apply elem_of_cons in Hx as [->|Hx], Hy as [->|Hy]; auto.
  - destruct Hz. rewrite E. by apply list_elem_of_fmap_2.
  - destruct Hz. rewrite <- E. by apply list_elem_of_fmap_2.
Qed.

Lemma take_app_exact {A} (l1 l2 : list A) : take (length l1) (l1 ++ l2) = l1.
Proof. by rewrite take_app_length. Qed.

Lemma drop_app_exact {A} (l1 l2 : list A) : drop (length l1) (l1 ++ l2) = l2.
Proof. by rewrite drop_app_length. Qed.

Lemma go_slice_app {A} (a b c : list A) lo hi :
  lo = lenZ a -> hi = lo + lenZ b -> go_slice (a ++ b ++ c) lo hi = Ok b.
Proof.
  intros -> ->. unfold go_slice. rewrite decide_True by (rewrite !length_app; lia).
  rewrite Nat2Z.id, drop_app_exact.
  replace (Z.to_nat (lenZ a + lenZ b - lenZ a)) with (length b) by lia.
  by rewrite take_app_exact.
Qed.

Lemma go_slice_ok {A} (l : list A) lo hi :
  0 <= lo -> lo <= hi -> hi <= lenZ l -> exists r, go_slice l lo hi = Ok r /\ lenZ r = hi - lo.
Proof.
  intros. unfold go_slice. rewrite decide_True by lia. eexists. split; [done|].
  rewrite length_take, length_drop. lia.
Qed.

Lemma go_index_ok b i : 0 <= i < lenZ b -> exists x, go_index b i = Ok x /\ b !! Z.to_nat i = Some x.
Proof.
  intros. unfold go_index. rewrite decide_True by lia. eexists. split; [done|].
  destruct (lookup_lt_is_Some_2 b (Z.to_nat i)) as [x Hx]; [lia|].
  rewrite Hx. f_equal. by rewrite (nth_lookup_Some _ _ _ _ Hx).
Qed.

Lemma go_index_app (a : bytes) x c i : i = lenZ a -> go_index (a ++ x :: c) i = Ok x.
Proof.
  intros ->. unfold go_index. rewrite decide_True by (rewrite length_app; simpl; lia).
  rewrite Nat2Z.id, app_nth2, Nat.sub_diag by lia. done.
Qed.

Lemma go_slice_Forall {A} (P : A -> Prop) l lo hi r :
  go_slice l lo hi = Ok r -> Forall P l -> Forall P r.
Proof. unfold go_slice. case_decide; [|done]. intros [= <-] HP. by apply Forall_take, Forall_drop. Qed.

Lemma go_slice_prefix {A} (a b : list A) hi : hi = lenZ a -> go_slice (a ++ b) 0 hi = Ok a.
Proof. intros ->. apply (go_slice_app [] a b); simpl; lia. Qed.

Lemma go_slice_suffix {A} (a b : list A) lo hi :
  lo = lenZ a -> hi = lenZ (a ++ b) -> go_slice (a ++ b) lo hi = Ok b.
Proof.
  intros -> ->. pose proof (go_slice_app a b [] (lenZ a) (lenZ (a ++ b))) as E.
  rewrite app_nil_r in E. apply E; [done|]. rewrite length_app. lia.
Qed.

Lemma go_index_lookup b i x : 0 <= i -> b !! Z.to_nat i = Some x -> go_index b i = Ok x.
Proof.
  intros Hi Hx. pose proof (lookup_lt_Some _ _ _ Hx). unfold go_index. rewrite decide_True by lia.
  by rewrite (nth_lookup_Some _ _ _ _ Hx).
Qed.

(** Reading a slice out of a buffer given by its parts. *)
Lemma go_slice_at {A} (a b c l : list A) lo hi :
  l = a ++ b ++ c -> lo = lenZ a -> hi = lo + lenZ b -> go_slice l lo hi = Ok b.
Proof. intros ->. apply go_slice_app. Qed.

Ltac split_buf := repeat (progress (cbn [app]; rewrite <- ?app_assoc)); reflexivity.
Ltac solve_len :=
  change (256 ^ Z.of_nat 4) with (2 ^ 32); change (256 ^ Z.of_nat 2) with (2 ^ 16);
  rewrite ?length_app, ?length_be_put; cbn [length]; lia.
