(* ===== verification/GoLib.v ===== *)
(** * Models of the Go standard-library functions the sources call

    [encoding/hex], [encoding/base64] (RawURLEncoding) and the varints of
    [encoding/binary], with their round trips. *)

From stdpp Require Import base list gmap strings fin_maps.
From Stdlib Require Import ZArith Znumtheory Lia DecimalString DecimalZ DecimalPos.
From S2P Require Import Prelude.

(** ** encoding/hex *)
Module Hex.

Definition digit (v : Z) : Z := if v <? 10 then 48 + v else 87 + v.

Definition undigit (c : Z) : option Z :=
  if (48 <=? c) && (c <=? 57) then Some (c - 48)
  else if (97 <=? c) && (c <=? 102) then Some (c - 87)
  else if (65 <=? c) && (c <=? 70) then Some (c - 55)
  else None.

(** [hex.EncodeToString] *)
Fixpoint encode (l : bytes) : gostring :=
  match l with
  | [] => []
  | b :: l => digit (b / 16) :: digit (b mod 16) :: encode l
  end.

(** [hex.DecodeString]: [None] is the error result. *)
Fixpoint decode (s : gostring) : option bytes :=
  match s with
  | [] => Some []
  | [_] => None
  | h :: l :: s => h ← undigit h; l ← undigit l; r ← decode s; Some (h * 16 + l :: r)
  end.

Lemma undigit_digit v : 0 <= v < 16 -> undigit (digit v) = Some v.
Proof.
  intros Hv. unfold digit, undigit.
  repeat (case_match; try lia); f_equal; lia.
Qed.

Lemma decode_encode l : bytes_ok l -> decode (encode l) = Some l.
Proof.
  induction 1 as [|b l Hb Hl IH]; [done|]. unfold byte_ok in Hb. simpl.
  assert (0 <= b / 16 < 16) by (split; [apply Z.div_pos | apply Z.div_lt_upper_bound]; lia).
  rewrite !undigit_digit by (done || apply Z.mod_pos_bound; lia); simpl.
  rewrite IH. simpl. f_equal. f_equal. rewrite (Z.div_mod b 16) at 3 by lia. lia.
Qed.

Lemma length_encode l : length (encode l) = (2 * length l)%nat.
Proof. induction l; simpl; lia. Qed.

Lemma length_decode s r : decode s = Some r -> length s = (2 * length r)%nat.
Proof.
  revert r. induction s as [|h|h l s IH] using list_ind2; intros r; simpl.
  - by intros [= <-].
  - done.
  - destruct (undigit h), (undigit l); simpl; try done.
    destruct (decode s) as [r'|] eqn:E; simpl; [|done]. intros [= <-].
    simpl. rewrite (IH r' eq_refl). lia.
Qed.

Lemma encode_inj l1 l2 : bytes_ok l1 -> bytes_ok l2 -> encode l1 = encode l2 -> l1 = l2.
Proof.
  intros H1 H2 E. apply decode_encode in H1, H2. rewrite E in H1. congruence.
Qed.

Lemma decode_ok s r : decode s = Some r -> bytes_ok r.
Proof.
  assert (forall c v, undigit c = Some v -> 0 <= v < 16) as Hd.
  { intros c v. unfold undigit. repeat case_match; intros [= <-]; lia. }
  revert r. induction s as [|h|h l s IH] using list_ind2; intros r; simpl.
  - intros [= <-]. constructor.
  - done.
  - destruct (undigit h) eqn:E1, (undigit l) eqn:E2; simpl; try done.
    destruct (decode s) as [r'|] eqn:E; simpl; [|done]. intros [= <-].
    apply Hd in E1, E2. constructor; [unfold byte_ok; lia | by apply IH].
Qed.
End Hex.

(** ** encoding/base64, RawURLEncoding *)
Module Base64.

Definition sextet (c : Z) : option Z :=
  if (65 <=? c) && (c <=? 90) then Some (c - 65)
  else if (97 <=? c) && (c <=? 122) then Some (c - 71)
  else if (48 <=? c) && (c <=? 57) then Some (c + 4)
  else if c =? 45 then Some 62
  else if c =? 95 then Some 63
  else None.

Definition is_newline (c : Z) : bool := (c =? 10) || (c =? 13).

(** Four sextets give three bytes; a final group of two or three gives one
    or two (the unused low bits are not checked), of one is an error. *)
Fixpoint quanta (l : list Z) : option bytes :=
  match l with
  | [] => Some []
  | [_] => None
  | [a; b] => Some [u8 (a * 4 + b / 16)]
  | [a; b; c] => Some [u8 (a * 4 + b / 16); u8 (b * 16 + c / 4)]
  | a :: b :: c :: d :: l =>
      r ← quanta l;
      Some (u8 (a * 4 + b / 16) :: u8 (b * 16 + c / 4) :: u8 (c * 64 + d) :: r)
  end.

(** [base64.RawURLEncoding.DecodeString]: newline characters are skipped. *)
Definition decode (s : gostring) : option bytes :=
  vs ← mapM sextet (List.filter (fun c => negb (is_newline c)) s); quanta vs.

(** The URL alphabet, and [base64.RawURLEncoding.EncodeToString]. *)
Definition alphabet (v : Z) : Z :=
  if v <? 26 then v + 65 else if v <? 52 then v + 71 else if v <? 62 then v - 4
  else if v =? 62 then 45 else 95.

Fixpoint sextets (l : bytes) : list Z :=
  match l with
  | [] => []
  | [a] => [a / 4; a mod 4 * 16]
  | [a; b] => [a / 4; a mod 4 * 16 + b / 16; b mod 16 * 4]
  | a :: b :: c :: l => a / 4 :: a mod 4 * 16 + b / 16 :: b mod 16 * 4 + c / 64 :: c mod 64 :: sextets l
  end.
Definition encode (l : bytes) : gostring := map alphabet (sextets l).

Lemma bytes3_ind (P : bytes -> Prop) :
  P [] -> (forall a, P [a]) -> (forall a b, P [a; b]) ->
  (forall a b c l, P l -> P (a :: b :: c :: l)) -> forall l, P l.
Proof.
  intros H0 H1 H2 H3. fix IH 1. intros [|a [|b [|c l]]]; [done | apply H1 | apply H2 |].
  apply H3, IH.
Qed.

Lemma sextets_range l : bytes_ok l -> Forall (fun v => 0 <= v < 64) (sextets l).
Proof.
  induction l as [|a|a b|a b c l IH] using bytes3_ind; intros Hl; cbn [sextets];
    repeat match goal with H : bytes_ok (_ :: _) |- _ => apply Forall_cons in H as [? H] end;
    unfold byte_ok in *; repeat constructor; try (apply IH; done); Z.div_mod_to_equations; lia.
Qed.

Lemma quanta_sextets l : bytes_ok l -> quanta (sextets l) = Some l.
Proof.
  induction l as [|a|a b|a b c l IH] using bytes3_ind; intros Hl; cbn [sextets quanta];
    repeat match goal with H : bytes_ok (_ :: _) |- _ => apply Forall_cons in H as [? H] end;
    unfold byte_ok, u8 in *; try rewrite (IH ltac:(done)); cbn [mbind option_bind];
    repeat f_equal; change (2 ^ 8) with 256; Z.div_mod_to_equations; lia.
Qed.

Lemma alphabet_ok v : 0 <= v < 64 -> sextet (alphabet v) = Some v /\ is_newline (alphabet v) = false.
Proof.
  intros Hv. unfold alphabet, is_newline, sextet.
  repeat match goal with |- context [if ?b then _ else _] => destruct b eqn:? end;
    split; try lia; f_equal; lia.
Qed.

(** Decoding what was encoded. *)
Lemma b64_decode_encode l : bytes_ok l -> decode (encode l) = Some l.
Proof.
  intros Hl. unfold decode, encode. pose proof (sextets_range l Hl) as Hr.
  assert (forall vs, Forall (fun v => 0 <= v < 64) vs ->
    mapM sextet (List.filter (fun c => negb (is_newline c)) (map alphabet vs)) = Some vs) as ->.
  { induction 1 as [|v vs Hv _ IH]; [done|]. destruct (alphabet_ok v Hv) as [E1 E2].
    cbn [map List.filter]. rewrite E2. cbn [negb mapM]. by rewrite E1, IH. }
  - by apply quanta_sextets.
  - done.
Qed.

Lemma encode_nonempty l : l <> [] -> encode l <> [].
Proof. by destruct l as [|a [|b [|c l]]]. Qed.
End Base64.

(** ** encoding/binary varints *)
Module Varint.

Definition MaxVarintLen64 : nat := 10.

(** [binary.PutUvarint]: ten bytes are enough for a [uint64]. *)
Fixpoint put_loop (fuel : nat) (x : Z) : bytes :=
  match fuel with
  | O => []
  | S f => if x <? 128 then [x] else Z.lor (u8 x) 128 :: put_loop f (Z.shiftr x 7)
  end.
Definition PutUvarint (x : Z) : bytes := put_loop MaxVarintLen64 x.

(** [binary.Uvarint]: the value and the number of bytes read, which is [<= 0]
    when the buffer is too short or the value overflows 64 bits. *)
Fixpoint get_loop (buf : bytes) (i : nat) (x s : Z) : Z * Z :=
  match buf with
  | [] => (0, 0)
  | b :: buf =>
      if (i =? MaxVarintLen64)%nat then (0, - (Z.of_nat i + 1))
      else if b <? 128 then
        if (i =? MaxVarintLen64 - 1)%nat && (1 <? b) then (0, - (Z.of_nat i + 1))
        else (Z.lor x (u64 (Z.shiftl b s)), Z.of_nat i + 1)
      else get_loop buf (S i) (Z.lor x (u64 (Z.shiftl (Z.land b 127) s))) (s + 7)
  end.
Definition Uvarint (buf : bytes) : Z * Z := get_loop buf 0 0 0.

Lemma land127 x : Z.land (Z.lor (u8 x) 128) 127 = x mod 128.
Proof.
  rewrite Z.land_lor_distr_l. change (Z.land 128 127) with 0. rewrite Z.lor_0_r.
  unfold u8. change 127 with (Z.ones 7). rewrite Z.land_ones by lia.
  change (2 ^ 7) with 128. change (2 ^ 8) with 256.
  symmetry. apply Zmod_div_mod; [lia | lia |]. by exists 2.
Qed.

Lemma lor128_range x : 128 <= Z.lor (u8 x) 128 < 256.
Proof.
  pose proof (byte_forall (fun b => (128 <=? Z.lor b 128) && (Z.lor b 128 <? 256))) as F.
  specialize (F ltac:(vm_compute; reflexivity) (u8 x) (Z.mod_pos_bound x 256 ltac:(lia))).
  simpl in F. lia.
Qed.

Lemma lor128_ge x : Z.lor (u8 x) 128 <? 128 = false.
Proof. pose proof (lor128_range x). apply Z.ltb_ge. lia. Qed.

Lemma get_put_loop fuel : forall i v acc s rest,
  s = 7 * Z.of_nat i -> (i + fuel = 10)%nat -> 0 <= v < 2 ^ (64 - s) -> 0 <= acc < 2 ^ s ->
  get_loop (put_loop fuel v ++ rest) i acc s
  = (acc + v * 2 ^ s, Z.of_nat (i + length (put_loop fuel v))).
Proof.
  induction fuel as [|fuel IH]; intros i v acc s rest Hs Hi Hv Hacc.
  { assert (i = 10%nat) by lia. subst. simpl in Hv. lia. }
  assert (i <> 10%nat) by lia. cbn [put_loop].
  assert (Hfit : forall b, 0 <= b <= v -> u64 (Z.shiftl b s) = Z.shiftl b s).
  { intros b Hb. unfold u64. rewrite Z.shiftl_mul_pow2 by lia. apply Z.mod_small.
    split; [apply Z.mul_nonneg_nonneg; lia|].
    replace (2 ^ 64) with (2 ^ (64 - s) * 2 ^ s) by (rewrite <- Z.pow_add_r by lia; f_equal; lia).
    apply Z.mul_lt_mono_pos_r; lia. }
  destruct (Z.ltb_spec v 128) as [Hlt|Hge]; cbn [app get_loop length].
  - rewrite (proj2 (Nat.eqb_neq i MaxVarintLen64)) by done.
    rewrite (proj2 (Z.ltb_lt v 128)) by done.
    replace ((i =? MaxVarintLen64 - 1)%nat && (1 <? v)) with false.
    2:{ symmetry. destruct (Nat.eqb_spec i (MaxVarintLen64 - 1)) as [->|]; [|done].
        simpl. subst s. simpl in Hv. apply Z.ltb_ge. lia. }
    rewrite Hfit by lia. rewrite lor_shiftl_add by lia. f_equal. lia.
  - rewrite (proj2 (Nat.eqb_neq i MaxVarintLen64)) by done.
    rewrite lor128_ge, land127.
    assert (0 <= v mod 128 < 128) by (apply Z.mod_pos_bound; lia).
    rewrite Hfit by (split; [lia | apply Z.mod_le; lia]).
    rewrite lor_shiftl_add by lia.
    rewrite Z.shiftr_div_pow2 by lia. change (2 ^ 7) with 128.
    assert (2 ^ (s + 7) = 2 ^ s * 128) as Ep by (rewrite Z.pow_add_r by lia; reflexivity).
    assert (s + 7 <= 64) as Hs7.
    { destruct (Z.le_gt_cases (s + 7) 64); [done|]. exfalso.
      assert (2 ^ (64 - s) <= 2 ^ 6) by (apply Z.pow_le_mono_r; lia). lia. }
    rewrite IH; [| lia | lia | | ].
    + f_equal; [|lia]. rewrite Ep. rewrite (Z.div_mod v 128) at 3 by lia. ring.
    + split; [apply Z.div_pos; lia|]. apply Z.div_lt_upper_bound; [lia|].
      replace (128 * 2 ^ (64 - (s + 7))) with (2 ^ (64 - s)); [lia|].
      change 128 with (2 ^ 7). rewrite <- Z.pow_add_r by lia. f_equal. lia.
    + rewrite Ep. nia.
Qed.

Lemma Uvarint_Put x rest :
  0 <= x < 2 ^ 64 -> Uvarint (PutUvarint x ++ rest) = (x, lenZ (PutUvarint x)).
Proof.
  intros Hx. unfold Uvarint, PutUvarint.
  rewrite (get_put_loop MaxVarintLen64 0 x 0 0 rest) by (reflexivity || lia).
  f_equal. lia.
Qed.

Lemma put_loop_ok fuel x : 0 <= x -> bytes_ok (put_loop fuel x).
Proof.
  revert x. induction fuel as [|fuel IH]; intros x Hx; simpl; [constructor|].
  destruct (Z.ltb_spec x 128).
  - repeat constructor; lia.
  - constructor; [|apply IH; apply Z.shiftr_nonneg; lia].
    pose proof (lor128_range x). unfold byte_ok. lia.
Qed.

Lemma length_put_loop fuel x : (0 < fuel)%nat -> (1 <= length (put_loop fuel x))%nat.
Proof. destruct fuel; [lia|]. intros _. simpl. case_match; simpl; lia. Qed.

(** A successful read consumes at least one and at most ten bytes of the buffer. *)
Lemma get_loop_consumed buf : forall i x s v n,
  get_loop buf i x s = (v, n) -> 0 < n -> Z.of_nat i < n <= Z.of_nat i + lenZ buf.
Proof.
  induction buf as [|b buf IH]; intros i x s v n; cbn [get_loop length]; [intros [= <- <-]; lia|].
  repeat case_match; intros H' Hn; try (injection H' as <- <-; lia).
  apply IH in H'; lia.
Qed.

Lemma Uvarint_consumed buf v n : Uvarint buf = (v, n) -> 0 < n -> n <= lenZ buf.
Proof. intros H Hn. apply get_loop_consumed in H; [|done]. simpl in H. lia. Qed.

Lemma get_loop_nonneg buf : forall i x s, 0 <= x -> 0 <= fst (get_loop buf i x s).
Proof.
  assert (forall z, 0 <= u64 z) as Hu by (intros; unfold u64; apply Z.mod_pos_bound; lia).
  induction buf as [|b buf IH]; intros i x s Hx; cbn [get_loop]; [done|].
  repeat case_match; simpl; try lia.
  - apply Z.lor_nonneg. split; [done | apply Hu].
  - apply IH, Z.lor_nonneg. split; [done | apply Hu].
Qed.

Lemma u64_bound z : 0 <= u64 z < 2 ^ 64.
Proof. unfold u64. apply Z.mod_pos_bound. lia. Qed.
End Varint.

(** ** strconv *)
Module Strconv.

(** [fmt.Sprintf("%d", z)] and [strconv.Itoa]. *)
Definition itoa (z : Z) : gostring := bs (DecimalString.NilZero.string_of_int (Z.to_int z)).

Lemma bs_inj s t : bs s = bs t -> s = t.
Proof.
  unfold bs. intros E. rewrite <- (String.string_of_list_ascii_of_string s),
    <- (String.string_of_list_ascii_of_string t). f_equal.
  revert E. generalize (String.list_ascii_of_string s), (String.list_ascii_of_string t).
  induction l as [|a l IH]; intros [|b l']; simpl; try done. intros [= Ea El].
  f_equal; [|by apply IH]. apply N2Z.inj in Ea.
  by rewrite <- (Ascii.ascii_N_embedding a), Ea, Ascii.ascii_N_embedding.
Qed.

Lemma itoa_inj x y : itoa x = itoa y -> x = y.
Proof.
  assert (forall z, Z.to_int z <> Decimal.Pos Decimal.Nil /\ Z.to_int z <> Decimal.Neg Decimal.Nil) as Hn.
  { intros [|p|p]; simpl; split; try done; intros [= E]; by apply (DecimalPos.Unsigned.to_uint_nonnil p). }
  intros E%bs_inj. destruct (Hn x) as [Hx Hx'], (Hn y) as [Hy Hy'].
  apply (f_equal DecimalString.NilZero.int_of_string) in E.
  rewrite !DecimalString.NilZero.isi in E by done. injection E as E.
  by rewrite <- (DecimalZ.of_to x), E, DecimalZ.of_to.
Qed.

(** Only digits and the minus sign. *)
Definition num_char (c : Z) : Prop := c = 45 \/ 48 <= c <= 57.

Lemma itoa_chars z : Forall num_char (itoa z).
Proof.
  assert (forall d, Forall num_char (bs (DecimalString.NilEmpty.string_of_uint d))) as Hd.
  { induction d; simpl; constructor; (done || (right; vm_compute; split; congruence)). }
  assert (forall d, Forall num_char (bs (DecimalString.NilZero.string_of_uint d))) as Hz.
  { intros []; simpl; try apply Hd; try (constructor; [right; vm_compute; split; congruence | apply Hd || constructor]). }
  unfold itoa. destruct (Z.to_int z); simpl; [apply Hz|]. constructor; [by left | apply Hz].
Qed.

End Strconv.

(** [io.ReadAll(io.LimitReader(r, limit))]: the first [limit] bytes of what [r] yields. *)
Definition LimitReader (limit : Z) (data : bytes) : bytes :=
  if lenZ data <=? limit then data else take (Z.to_nat limit) data.

Lemma LimitReader_fits limit data : lenZ data <= limit -> LimitReader limit data = data.
Proof. intros H. unfold LimitReader. by rewrite (proj2 (Z.leb_le _ _)). Qed.

Lemma LimitReader_take limit data : LimitReader limit data = take (Z.to_nat limit) data.
Proof. unfold LimitReader. destruct (Z.leb_spec (lenZ data) limit); [|done]. rewrite take_ge; [done|lia]. Qed.

(** ** strings: case mapping

    On ASCII strings case is mapped byte by byte; on others through the Unicode
    tables, which stay abstract. *)
Class Unicode := {
  unicode_lower : gostring -> gostring;
  unicode_upper : gostring -> gostring;
  unicode_fold : gostring -> gostring -> bool;
  unicode_trim : gostring -> gostring;
  unicode_fields : gostring -> list gostring }.

Module Strings.
Definition is_ascii (s : gostring) : bool := forallb (fun c => c <? 128) s.
Definition lower_byte (c : Z) : Z := if (65 <=? c) && (c <=? 90) then c + 32 else c.
Definition upper_byte (c : Z) : Z := if (97 <=? c) && (c <=? 122) then c - 32 else c.

Definition ToLower {U : Unicode} (s : gostring) : gostring :=
  if is_ascii s then map lower_byte s else unicode_lower s.
Definition ToUpper {U : Unicode} (s : gostring) : gostring :=
  if is_ascii s then map upper_byte s else unicode_upper s.
Definition EqualFold {U : Unicode} (s t : gostring) : bool :=
  if is_ascii s && is_ascii t then bool_decide (map lower_byte s = map lower_byte t) else unicode_fold s t.

Definition HasPrefix (s p : gostring) : bool := bool_decide (take (length p) s = p).
Definition HasSuffix (s p : gostring) : bool :=
  (length p <=? length s)%nat && bool_decide (drop (length s - length p) s = p).
Definition TrimPrefix (s p : gostring) : gostring := if HasPrefix s p then drop (length p) s else s.

Definition is_space (c : Z) : bool := (c =? 32) || ((9 <=? c) && (c <=? 13)).
Fixpoint trim_left (s : gostring) : gostring :=
  match s with c :: s' => if is_space c then trim_left s' else s | [] => [] end.
Definition TrimSpace {U : Unicode} (s : gostring) : gostring :=
  if is_ascii s then rev (trim_left (rev (trim_left s))) else unicode_trim s.

(** The parts of [s] between the bytes that satisfy [sep]. *)
Fixpoint split_by (sep : Z -> bool) (s : gostring) : list gostring :=
  match s with
  | [] => [[]]
  | c :: s =>
      if sep c then [] :: split_by sep s
      else match split_by sep s with w :: ws => (c :: w) :: ws | [] => [[c]] end
  end.
Definition Fields {U : Unicode} (s : gostring) : list gostring :=
  if is_ascii s then List.filter (fun w => negb (bool_decide (w = []))) (split_by is_space s) else unicode_fields s.
Definition TrimSuffix (s p : gostring) : gostring := if HasSuffix s p then take (length s - length p) s else s.

(** [s <= t] on strings: bytewise lexicographic. *)
Fixpoint le (s t : gostring) : bool :=
  match s, t with
  | [], _ => true
  | _ :: _, [] => false
  | a :: s, b :: t => (a <? b) || ((a =? b) && le s t)
  end.

Lemma le_refl s : le s s = true.
Proof. induction s as [|a s IH]; [done|]. cbn. by rewrite Z.eqb_refl, IH, orb_true_r. Qed.

Lemma le_trans s t u : le s t = true -> le t u = true -> le s u = true.
Proof.
  revert t u. induction s as [|a s IH]; [done|]. intros [|b t]; [done|]. intros [|c u]; [done|]. cbn.
  rewrite !orb_true_iff, !andb_true_iff, !Z.ltb_lt, !Z.eqb_eq.
  intros [?|[? ?]] [?|[? ?]]; first [left; lia | right; split; [lia|eauto]].
Qed.

Lemma le_total s t : le s t = false -> le t s = true.
Proof.
  revert t. induction s as [|a s IH]; [done|]. intros [|b t]; [done|]. cbn.
  rewrite orb_false_iff, orb_true_iff, andb_false_iff, andb_true_iff, Z.ltb_ge, Z.eqb_neq, Z.ltb_lt, Z.eqb_eq.
  intros [? [?|?]]; [left; lia|]. destruct (decide (b < a)); [by left|right; split; [lia|auto]].
Qed.

Lemma HasSuffix_spec s p : HasSuffix s p = true <-> exists q, s = q ++ p.
Proof.
  unfold HasSuffix. rewrite andb_true_iff, Nat.leb_le, bool_decide_eq_true. split.
  - intros [Hl E]. exists (take (length s - length p) s). by rewrite <- E at 2; rewrite take_drop.
  - intros [q ->]. rewrite length_app. split; [lia|]. by rewrite Nat.add_sub, drop_app_exact.
Qed.

Lemma TrimSuffix_app s p : TrimSuffix (s ++ p) p = s.
Proof.
  unfold TrimSuffix. rewrite (proj2 (HasSuffix_spec (s ++ p) p) (ex_intro _ s eq_refl)).
  by rewrite length_app, Nat.add_sub, take_app_length.
Qed.
End Strings.

#[export] Instance ascii_only : Unicode :=
  {| unicode_lower s := s; unicode_upper s := s; unicode_fold s t := bool_decide (s = t);
     unicode_trim s := s; unicode_fields s := [s] |}.

(** [strconv.Atoi] on a 64-bit platform. *)
Fixpoint atoi_digits (s : gostring) (n : Z) : option Z :=
  match s with
  | [] => Some n
  | c :: s => if (48 <=? c) && (c <=? 57) then atoi_digits s (n * 10 + (c - 48)) else None
  end.
Definition Atoi (s : gostring) : option Z :=
  let '(sign, ds) := match s with 45 :: ds => (-1, ds) | 43 :: ds => (1, ds) | _ => (1, s) end in
  if decide (ds = []) then None
  else n ← atoi_digits ds 0;
    if bool_decide (- 2 ^ 63 <= sign * n) && bool_decide (sign * n < 2 ^ 63) then Some (sign * n) else None.

(** ** net: host:port strings and textual IP addresses *)
Module Net.

(** [strings.IndexByte] and [strings.LastIndexByte]. *)
Definition index_byte (c : Z) (s : gostring) : option nat := fst <$> list_find (fun b => b = c) s.
Definition last_index_byte (c : Z) (s : gostring) : option nat :=
  (fun i => (length s - 1 - i)%nat) <$> index_byte c (rev s).

Definition colon : Z := 58.
Definition dot : Z := 46.
Definition lbrack : Z := 91.
Definition rbrack : Z := 93.
Definition percent : Z := 37.

(** [net.SplitHostPort] *)
Definition SplitHostPort (hp : gostring) : res (gostring * gostring) :=
  match last_index_byte colon hp with
  | None => Err "missing port in address"
  | Some i =>
      hjk ←
        (if decide (hp !! 0%nat = Some lbrack) then
           match index_byte rbrack hp with
           | None => Err "missing ']' in address"
           | Some e =>
               if decide (S e = length hp) then Err "missing port in address"
               else if decide (S e = i) then Ok (take (e - 1) (drop 1 hp), 1%nat, S e)
               else if decide (hp !! S e = Some colon) then Err "too many colons in address"
               else Err "missing port in address"
           end
         else
           let host := take i hp in
           if index_byte colon host then Err "too many colons in address"
           else Ok (host, 0%nat, 0%nat));
      let '(host, j, k) := hjk in
      if index_byte lbrack (drop j hp) then Err "unexpected '[' in address"
      else if index_byte rbrack (drop k hp) then Err "unexpected ']' in address"
      else Ok (host, drop (S i) hp)
  end.

(** The four octets of a dotted address ([netip.parseIPv4Fields]): [val] and
    [dig] are the value and the digits read of the current octet. *)
Fixpoint ipv4_fields (s : gostring) (first : bool) (val : Z) (dig : nat) (out : bytes) : option bytes :=
  match s with
  | [] => if (length out <? 3)%nat then None else Some (out ++ [val])
  | c :: s' =>
      if (48 <=? c) && (c <=? 57) then
        if (dig =? 1)%nat && (val =? 0) then None
        else let val := val * 10 + (c - 48) in
             if 255 <? val then None else ipv4_fields s' false val (S dig) out
      else if c =? dot then
        if first || (length s' =? 0)%nat || (dig =? 0)%nat then None
        else if (length out =? 3)%nat then None
        else ipv4_fields s' false 0 0 (out ++ [val])
      else None
  end.
Definition parse_ipv4 (s : gostring) : option bytes := ipv4_fields s true 0 0 [].

(** A run of at most four hex digits; the rest starts at the first other byte. *)
Fixpoint hex_group (s : gostring) (off : nat) (acc : Z) : option (nat * Z * gostring) :=
  match s with
  | [] => Some (off, acc, [])
  | c :: s' =>
      match Hex.undigit c with
      | None => Some (off, acc, s)
      | Some v => if (3 <? off)%nat then None else hex_group s' (S off) (acc * 16 + v)
      end
  end.

(** The group loop of [netip.parseIPv6]; at most eight groups are read. *)
Fixpoint ipv6_groups (n : nat) (s : gostring) (out : bytes) (ell : option nat)
  : option (gostring * bytes * option nat) :=
  match n with
  | O => Some (s, out, ell)
  | S n =>
      match hex_group s 0 0 with
      | None => None
      | Some (off, acc, rest) =>
          if (off =? 0)%nat then None
          else if decide (head rest = Some dot) then
            if (if ell then false else negb (length out =? 12)%nat) then None
            else if (16 <? length out + 4)%nat then None
            else v4 ← parse_ipv4 s; Some ([], out ++ v4, ell)
          else
            let out := out ++ [acc / 256; acc mod 256] in
            match rest with
            | [] => Some ([], out, ell)
            | c :: rest =>
                if negb (c =? colon) then None
                else match rest with
                     | [] => None
                     | c2 :: rest2 =>
                         if c2 =? colon then
                           if ell then None
                           else match rest2 with
                                | [] => Some ([], out, Some (length out))
                                | _ => ipv6_groups n rest2 out (Some (length out))
                                end
                         else ipv6_groups n rest out ell
                     end
            end
      end
  end.

Definition parse_ipv6 (s : gostring) : option bytes :=
  match s with
  | 58 :: 58 :: [] => Some (replicate 16 0)
  | _ =>
      let '(s, ell) := match s with 58 :: 58 :: s => (s, Some 0%nat) | _ => (s, None) end in
      match ipv6_groups 8 s [] ell with
      | None => None
      | Some (s, out, ell) =>
          if negb (length s =? 0)%nat then None
          else if (length out <? 16)%nat then
            match ell with
            | None => None
            | Some e => Some (take e out ++ replicate (16 - length out) 0 ++ drop e out)
            end
          else if ell then None else Some out
      end
  end.

Definition v4_prefix : bytes := replicate 10 0 ++ [255; 255].

(** [net.ParseIP]: the 16-byte form, or [None]; an address with a zone is refused. *)
Definition ParseIP (s : gostring) : option bytes :=
  match List.filter (fun c => (c =? dot) || (c =? colon) || (c =? percent)) s with
  | c :: _ =>
      if c =? dot then ip ← parse_ipv4 s; Some (v4_prefix ++ ip)
      else if c =? colon then if index_byte percent s then None else parse_ipv6 s
      else None
  | [] => None
  end.

(** [IP.IsUnspecified]: 0.0.0.0 or ::. *)
Definition IsUnspecified (ip : bytes) : bool :=
  bool_decide (ip = v4_prefix ++ replicate 4 0) || bool_decide (ip = replicate 16 0).

(** [IP.IsLoopback] and [IP.IsLinkLocalUnicast] on the 16-byte form. *)
Definition to4 (ip : bytes) : option bytes :=
  if (length ip =? 4)%nat then Some ip
  else if (length ip =? 16)%nat && bool_decide (take 12 ip = v4_prefix) then Some (drop 12 ip)
  else None.
Definition IsLoopback (ip : bytes) : bool :=
  match to4 ip with
  | Some ip4 => bool_decide (ip4 !! 0%nat = Some 127)
  | None => bool_decide (ip = replicate 15 0 ++ [1])
  end.
Definition IsLinkLocalUnicast (ip : bytes) : bool :=
  match to4 ip with
  | Some ip4 => bool_decide (ip4 !! 0%nat = Some 169) && bool_decide (ip4 !! 1%nat = Some 254)
  | None => bool_decide (length ip = 16%nat) && bool_decide (ip !! 0%nat = Some 0xfe)
            && match ip !! 1%nat with Some b => Z.land b 0xc0 =? 0x80 | None => false end
  end.

(** [net.ParseCIDR]: the masked address and the mask. *)
Fixpoint dtoi (s : gostring) (n : Z) : option Z :=
  match s with
  | [] => Some n
  | c :: s =>
      if (48 <=? c) && (c <=? 57) then
        let n := n * 10 + (c - 48) in if 0xFFFFFF <=? n then None else dtoi s n
      else None
  end.
(** [net.CIDRMask] of [ones] bits in [len] bytes. *)
Fixpoint cidr_mask (len : nat) (ones : Z) : bytes :=
  match len with
  | O => []
  | S len => (if 8 <=? ones then 255 else if ones <=? 0 then 0 else 256 - 2 ^ (8 - ones)) :: cidr_mask len (ones - 8)
  end.
Record IPNet := MkIPNet { net_ip : bytes; net_mask : bytes }.
Definition ParseCIDR (s : gostring) : option IPNet :=
  i ← index_byte 47 s;
  let addr := take i s in
  let mask := drop (S i) s in
  ip16 ← ParseIP addr;
  let is4 := match List.filter (fun c => (c =? dot) || (c =? colon)) addr with c :: _ => c =? dot | [] => false end in
  let ip := if is4 then drop 12 ip16 else ip16 in
  if decide (mask = []) then None
  else n ← dtoi mask 0;
    if lenZ ip * 8 <? n then None
    else let m := cidr_mask (length ip) n in Some (MkIPNet (zip_with Z.land ip m) m).
(** [IPNet.Contains] *)
Definition Contains (n : IPNet) (ip : bytes) : bool :=
  let nn := match to4 (net_ip n) with Some x => x | None => net_ip n end in
  let m := if (length nn =? 4)%nat && (length (net_mask n) =? 16)%nat then drop 12 (net_mask n) else net_mask n in
  let x := match to4 ip with Some x => x | None => ip end in
  bool_decide (length x = length nn) && bool_decide (zip_with Z.land nn m = zip_with Z.land x m).

Example cidr_examples :
  (n ← ParseCIDR (bs "10.1.0.0/16"); ip ← ParseIP (bs "10.1.200.3"); Some (Contains n ip)) = Some true
  /\ (n ← ParseCIDR (bs "10.1.0.0/16"); ip ← ParseIP (bs "10.2.0.1"); Some (Contains n ip)) = Some false
  /\ (n ← ParseCIDR (bs "10.128.0.0/9"); ip ← ParseIP (bs "10.129.2.1"); Some (Contains n ip)) = Some true
  /\ (n ← ParseCIDR (bs "2001:db8::/32"); ip ← ParseIP (bs "2001:db8:1::2"); Some (Contains n ip)) = Some true
  /\ (n ← ParseCIDR (bs "2001:db8::/32"); ip ← ParseIP (bs "10.0.0.1"); Some (Contains n ip)) = Some false
  /\ ParseCIDR (bs "10.0.0.0/33") = None /\ ParseCIDR (bs "10.0.0.0") = None /\ ParseCIDR (bs "10.0.0.0/") = None
  /\ (IsLoopback <$> ParseIP (bs "127.3.2.1")) = Some true /\ (IsLoopback <$> ParseIP (bs "::1")) = Some true
  /\ (IsLinkLocalUnicast <$> ParseIP (bs "169.254.169.254")) = Some true
  /\ (IsLinkLocalUnicast <$> ParseIP (bs "fe80::1")) = Some true
  /\ (IsLoopback <$> ParseIP (bs "0.0.0.0")) = Some false.
Proof. vm_compute. repeat split; reflexivity. Qed.

Example parse_examples :
  ParseIP (bs "10.0.0.1") = Some (v4_prefix ++ [10; 0; 0; 1])
  /\ ParseIP (bs "10.0.0.01") = None /\ ParseIP (bs "256.0.0.1") = None
  /\ ParseIP (bs "1.2.3") = None /\ ParseIP (bs "1..2.3") = None
  /\ ParseIP (bs "::") = Some (replicate 16 0)
  /\ ParseIP (bs "2001:db8::1") = Some ([32; 1; 13; 184] ++ replicate 11 0 ++ [1])
  /\ ParseIP (bs "::ffff:1.2.3.4") = Some (v4_prefix ++ [1; 2; 3; 4])
  /\ ParseIP (bs "fe80::1%eth0") = None /\ ParseIP (bs "1:2:3:4:5:6:7:8:9") = None
  /\ ParseIP (bs "1:2:3:4:5:6:7::") = Some [0;1;0;2;0;3;0;4;0;5;0;6;0;7;0;0]
  /\ ParseIP (bs "example.com") = None
  /\ SplitHostPort (bs "10.0.0.1:443") = Ok (bs "10.0.0.1", bs "443")
  /\ SplitHostPort (bs "[::1]:443") = Ok (bs "::1", bs "443")
  /\ SplitHostPort (bs "::1:443") = Err "too many colons in address"
  /\ SplitHostPort (bs "[::1]") = Err "missing port in address"
  /\ SplitHostPort (bs "host") = Err "missing port in address".
Proof. vm_compute. repeat split; reflexivity. Qed.

(** *** Parsed addresses are well-formed *)

Lemma bytes_ok_app a b : bytes_ok a -> bytes_ok b -> bytes_ok (a ++ b).
Proof. intros. by apply Forall_app. Qed.

Lemma ipv4_fields_shape s first val dig out ip :
  0 <= val <= 255 -> bytes_ok out -> (length out <= 3)%nat ->
  ipv4_fields s first val dig out = Some ip -> length ip = 4%nat /\ bytes_ok ip.
Proof.
  revert first val dig out. induction s as [|c s IH]; intros first val dig out Hv Ho Hl; cbn [ipv4_fields].
  - destruct (Nat.ltb_spec (length out) 3); [done|]. intros [= <-]. rewrite length_app. split; [cbn; lia|].
    apply bytes_ok_app; [done|]. repeat constructor; unfold byte_ok; lia.
  - destruct ((48 <=? c) && (c <=? 57)) eqn:Ec.
    + destruct ((dig =? 1)%nat && (val =? 0)); [discriminate|]. cbv zeta. destruct (Z.ltb_spec 255 (val * 10 + (c - 48))); [done|].
      apply andb_true_iff in Ec as [?%Z.leb_le ?%Z.leb_le]. apply IH; [lia|done|done].
    + destruct (c =? dot); [|done]. destruct (_ || _ || _); [done|]. destruct (Nat.eqb_spec (length out) 3); [done|].
      apply IH; [lia|apply bytes_ok_app; [done|]; repeat constructor; unfold byte_ok; lia|rewrite length_app; cbn; lia].
Qed.
Lemma parse_ipv4_shape s ip : parse_ipv4 s = Some ip -> length ip = 4%nat /\ bytes_ok ip.
Proof. apply ipv4_fields_shape; [lia|constructor|cbn; lia]. Qed.

Lemma hex_group_bound s off acc off' acc' rest :
  (off <= 4)%nat -> 0 <= acc < 16 ^ Z.of_nat off -> hex_group s off acc = Some (off', acc', rest) -> 0 <= acc' < 65536.
Proof.
  assert (forall off acc, (off <= 4)%nat -> 0 <= acc < 16 ^ Z.of_nat off -> 0 <= acc < 65536) as Hw.
  { intros o a Ho Ha. assert (16 ^ Z.of_nat o <= 16 ^ 4) by (apply Z.pow_le_mono_r; lia). lia. }
  revert off acc. induction s as [|c s IH]; intros off acc Ho Ha; cbn [hex_group]; [intros [= <- <- <-]; eauto|].
  destruct (Hex.undigit c) as [v|] eqn:Ev; [|intros [= <- <- <-]; eauto].
  destruct (Nat.ltb_spec 3 off); [done|]. apply IH; [lia|].
  assert (0 <= v < 16).
  { unfold Hex.undigit in Ev. repeat case_match; simplify_eq; rewrite ?andb_true_iff, ?Z.leb_le in *; lia. }
  rewrite Nat2Z.inj_succ, Z.pow_succ_r by lia. nia.
Qed.

Lemma ipv6_groups_shape n s out ell s' out' ell' :
  bytes_ok out -> (length out + 2 * n <= 16)%nat -> (match ell with Some e => (e <= length out)%nat | None => True end) ->
  ipv6_groups n s out ell = Some (s', out', ell') ->
  bytes_ok out' /\ (length out' <= 16)%nat /\ (match ell' with Some e => (e <= length out')%nat | None => True end).
Proof.
  revert s out ell. induction n as [|n IH]; intros s out ell Ho Hl He; cbn [ipv6_groups]; [intros [= <- <- <-]; repeat split; [done|lia|done]|].
  destruct (hex_group s 0 0) as [[[off acc] rest]|] eqn:Eg; [|done].
  apply hex_group_bound in Eg; [|lia|cbn; lia]. destruct (off =? 0)%nat; [done|].
  destruct (decide (head rest = Some dot)).
  - destruct (if ell is Some _ then _ else _); [done|]. destruct (Nat.ltb_spec 16 (length out + 4)); [done|].
    destruct (parse_ipv4 s) as [v4|] eqn:E4; [|done]. cbn. intros [= <- <- <-]. apply parse_ipv4_shape in E4 as [L4 B4].
    rewrite length_app, L4. split; [by apply bytes_ok_app|]. split; [lia|]. destruct ell; [lia|done].
  - set (out2 := out ++ [acc / 256; acc mod 256]). cbv zeta.
    assert (bytes_ok out2) as Ho2.
    { apply bytes_ok_app; [done|]. pose proof (Z.mod_pos_bound acc 256 ltac:(lia)).
      assert (0 <= acc / 256 < 256) by (split; [apply Z.div_le_lower_bound|apply Z.div_lt_upper_bound]; lia).
      repeat constructor; unfold byte_ok; lia. }
    assert (length out2 = length out + 2)%nat as Hl2 by (unfold out2; rewrite length_app; cbn; lia).
    assert (match ell with Some e => (e <= length out2)%nat | None => True end) as He2 by (destruct ell; [lia|done]).
    destruct rest as [|c rest]; [intros [= <- <- <-]; repeat split; [done|lia|done]|].
    destruct (negb _); [done|]. destruct rest as [|c2 rest2]; [done|].
    destruct (c2 =? colon); [|apply IH; [done|lia|done]].
    destruct ell; [done|]. destruct rest2; [intros [= <- <- <-]; repeat split; [done|lia|lia]|]. apply IH; [done|lia|lia].
Qed.

Lemma bytes_ok_zeros n : bytes_ok (replicate n 0).
Proof. apply Forall_replicate. unfold byte_ok. lia. Qed.

Lemma parse_ipv6_shape s ip : parse_ipv6 s = Some ip -> length ip = 16%nat /\ bytes_ok ip.
Proof.
  assert (forall s ell, (match ell with Some e => (e <= 0)%nat | None => True end) ->
    match ipv6_groups 8 s [] ell with
      | None => None
      | Some (s, out, ell) =>
          if negb (length s =? 0)%nat then None
          else if (length out <? 16)%nat then
            match ell with None => None | Some e => Some (take e out ++ replicate (16 - length out) 0 ++ drop e out) end
          else if ell is Some _ then None else Some out
      end = Some ip -> length ip = 16%nat /\ bytes_ok ip) as H.
  { intros s0 ell He. destruct (ipv6_groups 8 s0 [] ell) as [[[s1 out] ell']|] eqn:E; [|done].
    apply ipv6_groups_shape in E as (Ho & Hl & He'); [|constructor|cbn; lia|done].
    destruct (negb _); [done|]. destruct (Nat.ltb_spec (length out) 16).
    - destruct ell' as [e|]; [|done]. intros [= <-]. rewrite !length_app, length_take, length_replicate, length_drop. split; [lia|].
      apply bytes_ok_app; [by apply Forall_take|]. apply bytes_ok_app; [apply bytes_ok_zeros|by apply Forall_drop].
    - destruct ell'; [done|]. intros [= <-]. split; [lia|done]. }
  unfold parse_ipv6.
  destruct s as [|c s]; [by apply (H [] None)|].
  destruct (decide (c = 58)) as [->|Hc].
  - destruct s as [|c2 s]; [by apply (H [58] None)|]. destruct (decide (c2 = 58)) as [->|Hc2].
    + destruct s as [|c3 s]; [intros [= <-]; split; [done|apply (bytes_ok_zeros 16)]|]. apply (H (c3 :: s) (Some 0%nat)). cbn. lia.
    + intros E. apply (H (58 :: c2 :: s) None); [done|]. rewrite <- E. by repeat (case_match; try done).
  - intros E. apply (H (c :: s) None); [done|]. rewrite <- E. by repeat (case_match; try done).
Qed.

Lemma ParseIP_shape s ip :
  ParseIP s = Some ip -> length ip = 16%nat /\ bytes_ok ip.
Proof.
  unfold ParseIP. destruct (List.filter _ s) as [|c l]; [done|]. destruct (c =? dot).
  - destruct (parse_ipv4 s) as [x|] eqn:E; [|done]. cbn [mbind option_bind]. intros [= <-]. apply parse_ipv4_shape in E as [L B].
    split; [by cbn; rewrite L|].
    change (bytes_ok (v4_prefix ++ x)). apply bytes_ok_app; [|done]. repeat constructor; unfold byte_ok; lia.
  - destruct (c =? colon); [|done]. destruct (index_byte percent s); [done|]. apply parse_ipv6_shape.
Qed.

(** A parsed network is an address of 4 or 16 bytes under a prefix mask. *)
Lemma ParseCIDR_shape s n :
  ParseCIDR s = Some n ->
  exists ip k, (length ip = 4%nat \/ length ip = 16%nat) /\ bytes_ok ip /\ 0 <= k <= lenZ ip * 8
    /\ net_mask n = cidr_mask (length ip) k /\ net_ip n = zip_with Z.land ip (cidr_mask (length ip) k).
Proof.
  unfold ParseCIDR. destruct (index_byte 47 s) as [i|]; [|done]. cbn [mbind option_bind].
  destruct (ParseIP (take i s)) as [ip16|] eqn:Eip; [|done]. cbn [mbind option_bind]. apply ParseIP_shape in Eip as [L B].
  match goal with |- context [lenZ ?i] => set (ip := i) end. assert ((length ip = 4%nat \/ length ip = 16%nat) /\ bytes_ok ip) as [Hl Hb].
  { unfold ip. match goal with |- context [if ?b then _ else _] => destruct b end; [|by split; [right|]].
    rewrite length_drop, L. split; [by left|by apply Forall_drop]. }
  clearbody ip. case_decide; [done|]. destruct (dtoi (drop (S i) s) 0) as [k|] eqn:Ek; [|done]. cbn [mbind option_bind].
  assert (forall t n k, 0 <= n -> dtoi t n = Some k -> 0 <= k) as Hd.
  { clear. intros t. induction t as [|c t IH]; intros n k Hn; cbn [dtoi]; [by intros [= <-]|].
    destruct ((48 <=? c) && (c <=? 57)) eqn:Ec; [|done]. cbv zeta. case_match; [done|].
    apply andb_true_iff in Ec as [?%Z.leb_le ?%Z.leb_le]. apply IH. lia. }
  apply Hd in Ek; [|lia]. destruct (Z.ltb_spec (lenZ ip * 8) k); [done|]. intros [= <-]. exists ip, k. cbn. repeat split; auto.
Qed.


(** [net.IP.String]: dotted decimal, or groups with the first longest run of at least
    two zero groups as "::". *)
Definition join (sep : gostring) (l : list gostring) : gostring :=
  match l with [] => [] | x :: l => x ++ concat ((fun y => sep ++ y) <$> l) end.
Fixpoint hex_digits (fuel : nat) (n : Z) : gostring :=
  match fuel with
  | O => []
  | S f => (if n <? 16 then [] else hex_digits f (n / 16))
             ++ [let d := n mod 16 in if d <? 10 then 48 + d else 87 + d]
  end.
Fixpoint groups16 (ip : bytes) : list Z :=
  match ip with a :: b :: ip => (a * 256 + b) :: groups16 ip | _ => [] end.
Fixpoint zero_run (l : list Z) : nat := match l with 0 :: l => S (zero_run l) | _ => O end.
Fixpoint best_run (i : nat) (l : list Z) (best : nat * nat) : nat * nat :=
  match l with
  | [] => best
  | x :: l' =>
      let n := zero_run (x :: l') in
      best_run (S i) l' (if (2 <=? n)%nat && (snd best <? n)%nat then (i, n) else best)
  end.
Definition IP_String (ip : bytes) : gostring :=
  match to4 ip with
  | Some ip4 => join [dot] (Strconv.itoa <$> ip4)
  | None =>
      let g := groups16 ip in
      let '(i, n) := best_run 0 g (0, 0)%nat in
      let hs := hex_digits 4 <$> g in
      if (n =? 0)%nat then join [colon] hs
      else join [colon] (take i hs) ++ [colon; colon] ++ join [colon] (drop (i + n) hs)
  end.
(** [net.JoinHostPort], and [UDPAddr.String] of an address without a zone. *)
Definition JoinHostPort (host port : gostring) : gostring :=
  if index_byte colon host then [lbrack] ++ host ++ [rbrack; colon] ++ port else host ++ [colon] ++ port.
Definition UDPAddr_String (ip : bytes) (port : Z) : gostring := JoinHostPort (IP_String ip) (Strconv.itoa port).

Example IP_String_v4 : IP_String [127; 0; 0; 1] = bs "127.0.0.1".
Proof. vm_compute. reflexivity. Qed.
Example IP_String_v6 : UDPAddr_String (0x20 :: 0x01 :: 0x0d :: 0xb8 :: replicate 11 0 ++ [1]) 53 = bs "[2001:db8::1]:53".
Proof. vm_compute. reflexivity. Qed.
End Net.

(** ** golang.org/x/crypto/chacha20poly1305

    The cipher is a third-party package: a key, nonce and plaintext determine
    the sealed bytes, 16 longer than the plaintext, and opening them with the
    same key and nonce gives the plaintext back. *)
Class Aead := {
  aead_seal : forall (key nonce plain : bytes), bytes;
  aead_open : forall (key nonce ct : bytes), option bytes;
  aead_open_seal : forall k n p, aead_open k n (aead_seal k n p) = Some p;
  aead_length_seal : forall k n p, length (aead_seal k n p) = (length p + 16)%nat;
  aead_open_length : forall k n c p, aead_open k n c = Some p -> length c = (length p + 16)%nat;
  aead_open_bytes : forall k n c p, bytes_ok c -> aead_open k n c = Some p -> bytes_ok p;
  aead_seal_bytes : forall k n p, bytes_ok k -> bytes_ok n -> bytes_ok p -> bytes_ok (aead_seal k n p) }.

(** A keyed toy cipher with these laws, on which the examples run. *)
Definition toy_tag (key nonce : bytes) : bytes := take 16 (key ++ nonce ++ replicate 16 0).
Definition toy_open (key nonce ct : bytes) : option bytes :=
  if decide (16 <= length ct /\ drop (length ct - 16) ct = toy_tag key nonce)%nat
  then Some (take (length ct - 16) ct) else None.

Lemma length_toy_tag k n : length (toy_tag k n) = 16%nat.
Proof. unfold toy_tag. rewrite length_take, !length_app, length_replicate. lia. Qed.

Lemma toy_open_seal k n p : toy_open k n (p ++ toy_tag k n) = Some p.
Proof.
  unfold toy_open. rewrite length_app, length_toy_tag, Nat.add_sub, drop_app_exact, take_app_exact.
  rewrite decide_True; [done|]. split; [lia | done].
Qed.

Lemma toy_length_seal (k n p : bytes) : length (p ++ toy_tag k n) = (length p + 16)%nat.
Proof. by rewrite length_app, length_toy_tag. Qed.

Lemma toy_open_length k n c p : toy_open k n c = Some p -> length c = (length p + 16)%nat.
Proof. unfold toy_open. case_decide as H; [|done]. intros [= <-]. rewrite length_take. lia. Qed.

Lemma toy_open_bytes k n c p : bytes_ok c -> toy_open k n c = Some p -> bytes_ok p.
Proof. intros Hc. unfold toy_open. case_decide; [|done]. intros [= <-]. by apply Forall_take. Qed.

Lemma toy_seal_bytes (k n p : bytes) : bytes_ok k -> bytes_ok n -> bytes_ok p -> bytes_ok (p ++ toy_tag k n).
Proof.
  intros Hk Hn Hp. apply Forall_app_2; [done|]. apply Forall_take, Forall_app_2, Forall_app_2; [done..|].
  by apply Forall_replicate.
Qed.

#[export] Instance toy_aead : Aead :=
  {| aead_seal k n p := p ++ toy_tag k n; aead_open := toy_open; aead_open_seal := toy_open_seal;
     aead_length_seal := toy_length_seal; aead_open_length := toy_open_length;
     aead_open_bytes := toy_open_bytes; aead_seal_bytes := toy_seal_bytes |}.

(** ** crypto/ed25519

    Verification is a predicate of the public key, the message and the signature. *)
Class Ed25519 := { ed25519_verify : forall (pub msg sig : bytes), bool }.

(** The examples accept the signature that repeats the public key. *)
#[export] Instance toy_ed25519 : Ed25519 :=
  {| ed25519_verify pub msg sig := bool_decide (sig = pub ++ pub) |}.

(** ** golang.org/x/crypto/blake2b *)
Class Blake2b := {
  blake2b_256 : bytes -> bytes;
  blake2b_length : forall m, length (blake2b_256 m) = 32%nat;
  blake2b_bytes : forall m, bytes_ok m -> bytes_ok (blake2b_256 m) }.

Lemma length_toy_hash (m : bytes) : length (take 32 (m ++ replicate 32 0)) = 32%nat.
Proof. rewrite length_take, length_app, length_replicate. lia. Qed.

Lemma toy_hash_bytes (m : bytes) : bytes_ok m -> bytes_ok (take 32 (m ++ replicate 32 0)).
Proof. intros H. apply Forall_take, Forall_app_2; [done|]. by apply Forall_replicate. Qed.

#[export] Instance toy_blake2b : Blake2b :=
  {| blake2b_256 m := take 32 (m ++ replicate 32 0); blake2b_length := length_toy_hash; blake2b_bytes := toy_hash_bytes |}.

(** ** path/filepath

    An absolute path is the list of its elements; [Join] is filepath.Join onto such a path. *)
Module Filepath.
Definition push (p : list gostring) (el : gostring) : list gostring :=
  if decide (el = [] \/ el = bs ".") then p else if decide (el = bs "..") then removelast p else p ++ [el].
Definition elements (s : gostring) : list gostring := Strings.split_by (fun c => c =? 47) s.
Definition Join (p : list gostring) (s : gostring) : list gostring := foldl push p (elements s).

(** A relative path that names what it says. *)
Definition clean_element (el : gostring) : Prop := el <> [] /\ el <> bs "." /\ el <> bs "..".
Lemma Join_clean p s : Forall clean_element (elements s) -> Join p s = p ++ elements s.
Proof.
  unfold Join. generalize (elements s). intros l H. revert p. induction H as [|el l (H1 & H2 & H3) _ IH]; intros p; cbn [foldl].
  - by rewrite app_nil_r.
  - rewrite IH. unfold push. rewrite !decide_False by tauto. by rewrite <- app_assoc.
Qed.

(** The elements determine the path. *)
Fixpoint slashes (l : list gostring) : gostring :=
  match l with [] => [] | el :: l => match l with [] => el | _ => el ++ 47 :: slashes l end end.
Lemma elements_ne s : elements s <> [].
Proof. unfold elements. induction s as [|c s IH]; cbn; [done|]. destruct (c =? 47); [done|]. by destruct (Strings.split_by _ s). Qed.
Lemma slashes_elements s : slashes (elements s) = s.
Proof.
  unfold elements. induction s as [|c s IH]; [done|]. cbn. pose proof (elements_ne s) as Hne. unfold elements in Hne.
  destruct (Z.eqb_spec c 47) as [->|].
  - destruct (Strings.split_by _ s) as [|x l] eqn:E; [done|]. cbn [slashes app]. by rewrite <- IH.
  - destruct (Strings.split_by _ s) as [|x l] eqn:E; [done|]. destruct l; cbn [slashes] in *; by rewrite <- IH.
Qed.
#[export] Instance elements_inj : Inj (=) (=) elements.
Proof. intros s t E. by rewrite <- (slashes_elements s), E, slashes_elements. Qed.
End Filepath.

(** ** encoding/binary.BigEndian on a slice from an offset: a short slice panics. *)
Definition go_uint (n : Z) (data : bytes) (o : Z) : res Z :=
  s ← go_slice data o (o + n); Ok (be_get s).

Lemma go_uint_ok n data o : 0 <= n -> 0 <= o -> o + n <= lenZ data ->
  bytes_ok data -> exists v, go_uint n data o = Ok v /\ 0 <= v < 256 ^ n.
Proof.
  intros Hn Ho Hl Hb. unfold go_uint. destruct (go_slice_ok data o (o + n)) as (s & E & Hs); [lia..|].
  rewrite E. cbn [mbind res_bind]. eexists. split; [done|].
  pose proof (be_get_bound s (go_slice_Forall _ _ _ _ _ E Hb)) as Hg.
  replace n with (lenZ s) by lia. done.
Qed.

Lemma go_uint_app n (a c : bytes) v o :
  o = lenZ a -> 0 <= v < 256 ^ Z.of_nat n -> go_uint (Z.of_nat n) (a ++ be_put n v ++ c) o = Ok v.
Proof.
  intros -> Hv. unfold go_uint. rewrite go_slice_app by (rewrite ?length_be_put; lia).
  cbn [mbind res_bind]. by rewrite be_get_put, Z.mod_small.
Qed.

Lemma go_uint_at n (a c l : bytes) v o :
  l = a ++ be_put n v ++ c -> o = lenZ a -> 0 <= v < 256 ^ Z.of_nat n ->
  go_uint (Z.of_nat n) l o = Ok v.
Proof. intros ->. apply go_uint_app. Qed.

(** * math/rand *)
Module Rand.

(** ** math/rand Shuffle: Fisher-Yates over [n - 1 .. 1]; [rnd i] is the draw at [i]. *)
Section shuffle.
Context {A : Type}.

Definition swap (i j : nat) (l : list A) : list A :=
  match l !! i, l !! j with
  | Some x, Some y => <[i := y]> (<[j := x]> l)
  | _, _ => l
  end.

Fixpoint fisher_yates (rnd : nat -> nat) (i : nat) (l : list A) : list A :=
  match i with
  | O => l
  | S i' => fisher_yates rnd i' (swap i (rnd i mod S i)%nat l)
  end.

Definition rand_Shuffle (rnd : nat -> nat) (l : list A) : list A := fisher_yates rnd (length l - 1) l.

Lemma swap_perm i j l : swap i j l ≡ₚ l.
Proof.
  unfold swap. destruct (l !! i) as [x|] eqn:Ei, (l !! j) as [y|] eqn:Ej; try done.
  apply Permutation_inj. rewrite !length_insert. split; [done|].
  pose proof (lookup_lt_Some _ _ _ Ei). pose proof (lookup_lt_Some _ _ _ Ej).
  exists (fun k => if decide (k = i) then j else if decide (k = j) then i else k). split.
  - intros k1 k2. repeat case_decide; congruence.
  - intros k. destruct (decide (k = i)) as [->|Hi].
    { rewrite list_lookup_insert_eq by (by rewrite length_insert). done. }
    rewrite list_lookup_insert_ne by congruence. destruct (decide (k = j)) as [->|Hj].
    { by rewrite list_lookup_insert_eq. }
    by rewrite list_lookup_insert_ne by congruence.
Qed.

Lemma shuffle_perm rnd l : rand_Shuffle rnd l ≡ₚ l.
Proof.
  unfold rand_Shuffle. generalize (length l - 1)%nat. intros n. revert l.
  induction n as [|n IH]; intros l; [done|]. cbn [fisher_yates]. by rewrite IH, swap_perm.
Qed.

(** [l[rand.Intn(len(l))]]; Intn panics on zero. *)
Definition rand_pick (draw : nat) (l : list A) : res A :=
  match l !! (draw mod length l)%nat with Some x => Ok x | None => Panic end.

Lemma rand_pick_ok draw l : l <> [] -> exists x, rand_pick draw l = Ok x /\ x ∈ l.
Proof.
  intros Hl. unfold rand_pick. destruct (lookup_lt_is_Some_2 l (draw mod length l)%nat) as [x Hx].
  { apply Nat.mod_upper_bound. by destruct l. }
  exists x. rewrite Hx. split; [done|]. by eapply list_elem_of_lookup_2.
Qed.
End shuffle.

(** [for k, v := range m]: the order is unspecified, [order] stands for it. *)
Definition range_map {A} (order : nat -> nat) (m : gmap gostring A) : list (gostring * A) :=
  rand_Shuffle order (map_to_list m).

Lemma elem_of_range_map {A} (order : nat -> nat) (m : gmap gostring A) k v : (k, v) ∈ range_map order m <-> m !! k = Some v.
Proof. unfold range_map. rewrite shuffle_perm. apply elem_of_map_to_list. Qed.

Lemma NoDup_range_map {A} (order : nat -> nat) (m : gmap gostring A) : NoDup (range_map order m).*1.
Proof. unfold range_map. rewrite shuffle_perm. apply NoDup_fst_map_to_list. Qed.

End Rand.
