(* ===== verification/GoFloat.v ===== *)
(** * float64

    Go's float64 is IEEE 754 binary64 with rounding to nearest, ties to even: the
    Standard Library's [spec_float] at precision 53 and maximal exponent 1024, so the
    definitions compute. No multiplication is fused with an addition (amd64). A NaN has
    no payload. [fvalid] says that a value is one of the 2^64 - 2^53 + 3 that exist;
    every operation keeps it. *)

From stdpp Require Import base list.
From Stdlib Require Import ZArith Lia.
From Stdlib Require Import Floats.SpecFloat.
From S2P Require Import Prelude.

Module Float.

Definition float64 := spec_float.
Definition fadd : float64 -> float64 -> float64 := SFadd 53 1024.
Definition fsub : float64 -> float64 -> float64 := SFsub 53 1024.
Definition fmul : float64 -> float64 -> float64 := SFmul 53 1024.
Definition fdiv : float64 -> float64 -> float64 := SFdiv 53 1024.
Definition flt (x y : float64) : bool := SFltb x y.
Definition fle (x y : float64) : bool := SFleb x y.
Definition feq (x y : float64) : bool := SFeqb x y.

(** Conversion of an integer, and the constant [n / d] for exactly representable [n] and [d]. *)
Definition of_Z (z : Z) : float64 := binary_normalize 53 1024 z 0 false.
Definition fconst (n d : Z) : float64 := fdiv (of_Z n) (of_Z d).
Definition f0 : float64 := S754_zero false.
Definition f1 : float64 := of_Z 1.

#[global] Arguments fadd : simpl never.
#[global] Arguments fsub : simpl never.
#[global] Arguments fmul : simpl never.
#[global] Arguments fdiv : simpl never.
#[global] Arguments of_Z : simpl never.
#[global] Arguments fconst : simpl never.

(** time.Duration.Seconds and Milliseconds. *)
Definition Seconds (d : Z) : float64 :=
  fadd (of_Z (Z.quot d second)) (fdiv (of_Z (Z.rem d second)) (of_Z second)).
Definition Milliseconds (d : Z) : Z := Z.quot d millisecond.

Definition fvalid (x : float64) : Prop := valid_binary 53 1024 x = true.

#[export] Instance fvalid_dec x : Decision (fvalid x).
Proof. unfold fvalid. apply _. Defined.
#[export] Instance float64_eq_dec : EqDecision float64.
Proof. unfold EqDecision. solve_decision. Defined.

(** ** Order *)

Lemma flt_trans x y z : flt x y = true -> flt y z = true -> flt x z = true.
Proof.
  unfold flt, SFltb.
  destruct x as [|[]| |[] mx ex], y as [|[]| |[] my ey], z as [|[]| |[] mz ez]; cbn [SFcompare]; try done;
    destruct (Z.compare_spec ex ey), (Z.compare_spec ey ez), (Z.compare_spec ex ez); try done; try lia;
    change (Pos.compare_cont Eq mx my) with (mx ?= my)%positive;
    change (Pos.compare_cont Eq my mz) with (my ?= mz)%positive;
    change (Pos.compare_cont Eq mx mz) with (mx ?= mz)%positive;
    destruct (Pos.compare_spec mx my), (Pos.compare_spec my mz), (Pos.compare_spec mx mz); done || lia.
Qed.

Lemma flt_irrefl x : flt x x = false.
Proof.
  unfold flt, SFltb. destruct x as [|[]| |[] m e]; cbn [SFcompare]; try done;
    rewrite Z.compare_refl; change (Pos.compare_cont Eq m m) with (m ?= m)%positive;
    by rewrite Pos.compare_refl.
Qed.

(** A number that is not NaN lies on one side of any two that are ordered. *)
Lemma flt_or x y z : y <> S754_nan -> flt x z = true -> flt x y = true \/ flt y z = true.
Proof.
  intros Hy. unfold flt, SFltb.
  destruct x as [|[]| |[] mx ex], y as [|[]| |[] my ey], z as [|[]| |[] mz ez]; cbn [SFcompare]; try done; auto;
    destruct (Z.compare_spec ex ey), (Z.compare_spec ey ez), (Z.compare_spec ex ez); try done; try lia; auto;
    change (Pos.compare_cont Eq mx my) with (mx ?= my)%positive;
    change (Pos.compare_cont Eq my mz) with (my ?= mz)%positive;
    change (Pos.compare_cont Eq mx mz) with (mx ?= mz)%positive;
    destruct (Pos.compare_spec mx my), (Pos.compare_spec my mz), (Pos.compare_spec mx mz); auto; done || lia.
Qed.

Lemma flt_fle x y : flt x y = true -> fle x y = true.
Proof. unfold flt, SFltb, fle, SFleb. by destruct (SFcompare x y) as [[]|]. Qed.

(** A positive value is not equal to zero. *)
Lemma fpos_neq0 x : flt f0 x = true -> feq x f0 = false.
Proof. unfold flt, feq, SFltb, SFeqb. by destruct x as [|[]| |[] m e]. Qed.

(** ** Digits and shifts *)

Lemma digits2_log2 p : Z.pos (digits2_pos p) = Z.log2 (Z.pos p) + 1.
Proof.
  induction p as [p IH|p IH|]; cbn [digits2_pos]; [| |done]; rewrite Pos2Z.inj_succ, IH.
  - change (Z.pos p~1) with (2 * Z.pos p + 1). rewrite Z.log2_succ_double by lia. lia.
  - change (Z.pos p~0) with (2 * Z.pos p). rewrite Z.log2_double by lia. lia.
Qed.

Lemma Zdigits2_bounds m : 0 < m -> 1 <= Zdigits2 m /\ 2 ^ (Zdigits2 m - 1) <= m < 2 ^ Zdigits2 m.
Proof.
  intros Hm. destruct m as [|p|p]; try lia. cbn [Zdigits2]. rewrite digits2_log2.
  pose proof (Z.log2_nonneg (Z.pos p)). pose proof (Z.log2_spec (Z.pos p) ltac:(lia)).
  replace (Z.log2 (Z.pos p) + 1 - 1) with (Z.log2 (Z.pos p)) by lia.
  rewrite <- Z.add_1_r in *. lia.
Qed.

Lemma Zdigits2_unique m d : 0 < d -> 2 ^ (d - 1) <= m < 2 ^ d -> Zdigits2 m = d.
Proof.
  intros Hd Hm. assert (0 < 2 ^ (d - 1)) by lia.
  destruct (Zdigits2_bounds m ltac:(lia)) as (H1 & H2 & H3).
  assert (Zdigits2 m - 1 < d) by (apply (Z.pow_lt_mono_r_iff 2); lia).
  assert (d - 1 < Zdigits2 m) by (apply (Z.pow_lt_mono_r_iff 2); lia). lia.
Qed.

Lemma shr_1_m r : 0 <= shr_m r -> shr_m (shr_1 r) = shr_m r / 2.
Proof.
  destruct r as [m rr s]. cbn [shr_m]. intros Hm.
  destruct m as [|[p|p|]|p]; cbn [shr_1 shr_m]; try done; try lia.
  - change (Z.pos p~1) with (2 * Z.pos p + 1). Z.div_mod_to_equations. lia.
  - change (Z.pos p~0) with (2 * Z.pos p). Z.div_mod_to_equations. lia.
Qed.

Lemma iter_shr_m n : forall r, 0 <= shr_m r ->
  shr_m (iter_pos shr_1 n r) = shr_m r / 2 ^ Z.pos n /\ 0 <= shr_m (iter_pos shr_1 n r).
Proof.
  assert (forall m a b, 0 <= m -> 0 <= a -> 0 <= b -> m / 2 ^ a / 2 ^ b = m / 2 ^ (a + b)) as Hdd.
  { intros. rewrite Z.div_div, <- Z.pow_add_r by lia. done. }
  induction n as [n IH|n IH|]; intros r Hr; cbn [iter_pos].
  - assert (0 <= shr_m (shr_1 r)) as H1 by (rewrite shr_1_m by done; apply Z.div_pos; lia).
    destruct (IH _ H1) as (E2 & H2). destruct (IH _ H2) as (E3 & H3). split; [|done].
    rewrite E3, E2, shr_1_m, Hdd by (done || lia || (apply Z.div_pos; lia)).
    change (shr_m r / 2) with (shr_m r / 2 ^ 1). rewrite Hdd by lia. do 2 f_equal. lia.
  - destruct (IH _ Hr) as (E2 & H2). destruct (IH _ H2) as (E3 & H3). split; [|done].
    rewrite E3, E2, Hdd by lia. f_equal. f_equal. lia.
  - rewrite shr_1_m by done. split; [done|]. apply Z.div_pos; lia.
Qed.

(** ** Rounding keeps [fvalid]

    [fexp] gives the exponent at which a number with that many binary digits is stored. *)

Abbreviation fexp64 := (fexp 53 1024).

Lemma fexp64_eq d : fexp64 d = Z.max (d - 53) (-1074).
Proof. done. Qed.

(** The mantissa and exponent of [shr_fexp]. *)
Lemma shr_fexp_spec M E l :
  0 <= M -> E <= fexp64 (Zdigits2 M + E) ->
  exists mrs, shr_fexp 53 1024 M E l = (mrs, fexp64 (Zdigits2 M + E)) /\
    shr_m mrs = M / 2 ^ (fexp64 (Zdigits2 M + E) - E).
Proof.
  intros HM HE. unfold shr_fexp, shr.
  assert (shr_m (shr_record_of_loc M l) = M) as Hm by (destruct l as [|[]]; reflexivity).
  destruct (fexp64 (Zdigits2 M + E) - E) as [|n|n] eqn:En; [| |lia].
  - eexists. split; [f_equal; lia|]. by rewrite Hm, Z.div_1_r.
  - eexists. split; [f_equal; lia|].
    destruct (iter_shr_m n (shr_record_of_loc M l) ltac:(lia)) as [-> _]. by rewrite Hm.
Qed.

Lemma round_nearest_even_cases m l : round_nearest_even m l = m \/ round_nearest_even m l = m + 1.
Proof. destruct l as [|[]]; cbn; auto. destruct (Z.even m); auto. Qed.

Lemma Zdigits2_div m n : 0 <= n < Zdigits2 m -> 0 < m -> Zdigits2 (m / 2 ^ n) = Zdigits2 m - n.
Proof.
  intros Hn Hm. destruct (Zdigits2_bounds m Hm) as (H1 & H2 & H3). apply Zdigits2_unique; [lia|].
  replace (2 ^ (Zdigits2 m - n - 1)) with (2 ^ (Zdigits2 m - 1) / 2 ^ n).
  2:{ rewrite <- Z.pow_sub_r by lia. f_equal. lia. }
  split; [apply Z.div_le_mono; lia|].
  apply Z.div_lt_upper_bound; [lia|]. rewrite <- Z.pow_add_r by lia.
  by replace (n + (Zdigits2 m - n)) with (Zdigits2 m) by lia.
Qed.

(** After the first shift the mantissa is stored at its own exponent, also when it is
    rounded up: at most one more shift is needed. *)
Lemma rounded_canonical M E e1 m1 r :
  0 <= M -> E <= e1 -> e1 = fexp64 (Zdigits2 M + E) -> m1 = M / 2 ^ (e1 - E) ->
  r = m1 \/ r = m1 + 1 -> 0 < r ->
  fexp64 (Zdigits2 r + e1) = e1 \/
  (fexp64 (Zdigits2 r + e1) = e1 + 1 /\ fexp64 (Zdigits2 (r / 2) + (e1 + 1)) = e1 + 1 /\ 0 < r / 2).
Proof.
  intros HM HE He1d Hm1d Hr Hpos. rewrite !fexp64_eq in *.
  destruct (Z.eq_dec m1 0) as [E0|Hm1].
  - assert (e1 = -1074) as He1.
    { destruct (Z.eq_dec M 0) as [->|]; [cbn [Zdigits2] in *; lia|].
      destruct (Zdigits2_bounds M ltac:(lia)) as (H1 & H2 & H3).
      destruct (Z.le_gt_cases (Zdigits2 M) (e1 - E)); [lia|].
      pose proof (Zdigits2_div M (e1 - E) ltac:(lia) ltac:(lia)) as Hd.
      rewrite <- Hm1d, E0 in Hd. cbn in Hd. lia. }
    assert (r = 1) as -> by lia. left. cbn [Zdigits2 digits2_pos]. lia.
  - assert (0 < M) by (destruct (Z.eq_dec M 0) as [->|]; [by rewrite Z.div_0_l in Hm1d by lia|lia]).
    assert (0 < m1) by (enough (0 <= m1) by lia; rewrite Hm1d; apply Z.div_pos; lia).
    assert (e1 - E < Zdigits2 M) as Hlt.
    { destruct (Z.lt_ge_cases (e1 - E) (Zdigits2 M)); [done|]. exfalso. apply Hm1. rewrite Hm1d. apply Z.div_small.
      destruct (Zdigits2_bounds M ltac:(lia)) as (? & ? & ?).
      split; [lia|]. eapply Z.lt_le_trans; [done|]. apply Z.pow_le_mono_r; lia. }
    assert (Zdigits2 m1 = Zdigits2 M - (e1 - E)) as Hd by (rewrite Hm1d; apply Zdigits2_div; lia).
    destruct (Zdigits2_bounds m1 ltac:(lia)) as (B1 & B2 & B3).
    destruct Hr as [-> | ->]; [left; lia|].
    destruct (Z.eq_dec (m1 + 1) (2 ^ Zdigits2 m1)) as [Ep|Hne].
    2:{ left. rewrite (Zdigits2_unique (m1 + 1) (Zdigits2 m1)); lia. }
    assert (Zdigits2 (m1 + 1) = Zdigits2 m1 + 1) as Hd'.
    { apply Zdigits2_unique; [lia|]. rewrite Ep. replace (Zdigits2 m1 + 1 - 1) with (Zdigits2 m1) by lia.
      split; [lia|]. apply Z.pow_lt_mono_r; lia. }
    destruct (Z.eq_dec (Z.max (Zdigits2 (m1 + 1) + e1 - 53) (-1074)) e1) as [|Hne]; [by left|]. right.
    replace ((m1 + 1) / 2) with ((m1 + 1) / 2 ^ 1) by done.
    rewrite (Zdigits2_div (m1 + 1) 1) by lia. split; [lia|]. split; [lia|].
    rewrite Ep. replace (2 ^ Zdigits2 m1) with (2 ^ (Zdigits2 m1 - 1) * 2 ^ 1)
      by (rewrite <- Z.pow_add_r by lia; f_equal; lia).
    rewrite Z.div_mul by lia. lia.
Qed.

(** The outcome of rounding a non-negative mantissa: zero, infinity, or a canonical pair. *)
Lemma round_aux_spec s M E l :
  0 <= M -> E <= fexp64 (Zdigits2 M + E) ->
  let e1 := fexp64 (Zdigits2 M + E) in
  let m1 := M / 2 ^ (e1 - E) in
  exists r m e, (r = m1 \/ r = m1 + 1) /\
    (m = r /\ e = e1 \/ m = r / 2 /\ e = e1 + 1 /\ 0 < m) /\
    (0 < m -> fexp64 (Zdigits2 m + e) = e) /\ 0 <= m /\
    binary_round_aux 53 1024 s M E l =
      match m with
      | Z0 => S754_zero s
      | Zpos p => if e <=? 971 then S754_finite s p e else S754_infinity s
      | _ => S754_nan
      end.
Proof.
  intros HM HE e1 m1. destruct (shr_fexp_spec M E l HM HE) as (mrs & E1 & Em). fold e1 in E1, Em. fold m1 in Em.
  unfold binary_round_aux. rewrite E1, Em.
  set (r := round_nearest_even m1 (loc_of_shr_record mrs)).
  assert (r = m1 \/ r = m1 + 1) as Hr by apply round_nearest_even_cases.
  assert (0 <= m1) by (apply Z.div_pos; lia).
  assert (-1074 <= e1) by (unfold e1; rewrite fexp64_eq; lia).
  destruct (Z.eq_dec r 0) as [E0|Hr0].
  - exists r, 0, e1. rewrite E0. repeat split; auto; try lia.
    unfold shr_fexp. cbn [Zdigits2]. unfold shr.
    replace (fexp64 (0 + e1)) with (Z.max (e1 - 53) (-1074)) by (rewrite fexp64_eq; f_equal; lia).
    destruct (Z.max (e1 - 53) (-1074) - e1) eqn:?; [done|lia|done].
  - destruct (rounded_canonical M E e1 m1 r HM HE eq_refl eq_refl Hr ltac:(lia)) as [Hc|(Hc & Hc' & Hp)].
    + exists r, r, e1. repeat split; auto; [lia|].
      destruct (shr_fexp_spec r e1 loc_Exact ltac:(lia) ltac:(lia)) as (mrs2 & E2 & Em2).
      rewrite E2, Em2, Hc, Z.sub_diag, Z.div_1_r. done.
    + exists r, (r / 2), (e1 + 1). split; [done|]. split; [auto|]. split; [done|]. split; [lia|].
      destruct (shr_fexp_spec r e1 loc_Exact ltac:(lia) ltac:(lia)) as (mrs2 & E2 & Em2).
      rewrite E2, Em2, Hc. replace (e1 + 1 - e1) with 1 by lia. done.
Qed.

Lemma round_aux_valid s M E l :
  0 <= M -> E <= fexp64 (Zdigits2 M + E) -> fvalid (binary_round_aux 53 1024 s M E l).
Proof.
  intros HM HE. destruct (round_aux_spec s M E l HM HE) as (r & m & e & _ & _ & Hc & Hm & ->).
  destruct m as [|p|p]; [done| |done]. destruct (Z.leb_spec e 971) as [He|He]; [|done].
  unfold fvalid, valid_binary, bounded, canonical_mantissa.
  specialize (Hc ltac:(lia)). cbn [Zdigits2] in Hc. rewrite Hc, Z.eqb_refl. cbn [andb].
  by apply Z.leb_le.
Qed.

(** Rounding never goes below a representable number: [m * 2^e] is one, and
    [M * 2^E] is not smaller. *)
Lemma round_aux_ge m e M E :
  fvalid (S754_finite false m e) -> 0 < M -> E <= e -> Z.pos m * 2 ^ (e - E) <= M ->
  E <= fexp64 (Zdigits2 M + E) ->
  fle (S754_finite false m e) (binary_round_aux 53 1024 false M E loc_Exact) = true.
Proof.
  intros Hv HM HEe Hge HE. unfold fvalid, valid_binary, bounded, canonical_mantissa in Hv.
  apply andb_prop in Hv as [Hc Hmax]. apply Z.eqb_eq in Hc.
  change (Z.pos (digits2_pos m)) with (Zdigits2 (Z.pos m)) in Hc.
  destruct (Zdigits2_bounds (Z.pos m) ltac:(lia)) as (A1 & A2 & A3).
  destruct (Zdigits2_bounds M HM) as (B1 & B2 & B3).
  assert (Zdigits2 (Z.pos m) + (e - E) <= Zdigits2 M) as Hd.
  { enough (Zdigits2 (Z.pos m) + (e - E) - 1 < Zdigits2 M) by lia.
    apply (Z.pow_lt_mono_r_iff 2); [lia|lia|].
    replace (2 ^ (Zdigits2 (Z.pos m) + (e - E) - 1)) with (2 ^ (Zdigits2 (Z.pos m) - 1) * 2 ^ (e - E))
      by (rewrite <- Z.pow_add_r by lia; f_equal; lia). nia. }
  destruct (round_aux_spec false M E loc_Exact ltac:(lia) HE) as (r & q & e' & Hr & Hq & Hcq & Hq0 & ->).
  set (e1 := fexp64 (Zdigits2 M + E)) in *. rewrite fexp64_eq in *.
  assert (e <= e1) as He1 by (unfold e1; rewrite fexp64_eq; lia).
  assert (0 < M / 2 ^ (e1 - E)) as Hm1.
  { apply Z.div_str_pos. split; [lia|]. transitivity (2 ^ (Zdigits2 M - 1)); [|lia].
    apply Z.pow_le_mono_r; [lia|]. unfold e1. rewrite fexp64_eq. lia. }
  destruct (Z.eq_dec e e1) as [Ee|Hne].
  - assert (Z.pos m <= M / 2 ^ (e1 - E)) as Hle.
    { apply Z.div_le_lower_bound; [lia|]. rewrite <- Ee. lia. }
    unfold fle, SFleb. destruct q as [|p|p]; [lia| |lia]. destruct (Z.leb_spec e' 971); [|done].
    cbn [SFcompare]. destruct (Z.compare_spec e e'); [|done|lia].
    change (Pos.compare_cont Eq m p) with (m ?= p)%positive. destruct (Pos.compare_spec m p); done || lia.
  - unfold fle, SFleb. destruct q as [|p|p]; [lia| |lia]. destruct (Z.leb_spec e' 971); [|done].
    cbn [SFcompare]. destruct (Z.compare_spec e e'); done || lia.
Qed.

(** ** The operations keep [fvalid] *)

Lemma fvalid_finite s m e : fvalid (S754_finite s m e) <-> fexp64 (Zdigits2 (Z.pos m) + e) = e /\ e <= 971.
Proof.
  unfold fvalid, valid_binary, bounded, canonical_mantissa. cbn [Zdigits2].
  by rewrite andb_true_iff, Z.eqb_eq, Z.leb_le.
Qed.

Lemma Zdigits2_mul_lower m n : 0 < m -> 0 < n -> Zdigits2 m + Zdigits2 n - 1 <= Zdigits2 (m * n).
Proof.
  intros Hm Hn. destruct (Zdigits2_bounds m Hm) as (A1 & A2 & _), (Zdigits2_bounds n Hn) as (B1 & B2 & _).
  destruct (Zdigits2_bounds (m * n) ltac:(nia)) as (C1 & _ & C3).
  enough (Zdigits2 m - 1 + (Zdigits2 n - 1) < Zdigits2 (m * n)) by lia.
  apply (Z.pow_lt_mono_r_iff 2); [lia|lia|]. rewrite Z.pow_add_r by lia. nia.
Qed.

Lemma fvalid_mul x y : fvalid x -> fvalid y -> fvalid (fmul x y).
Proof.
  intros Hx Hy. destruct x as [| | |sx mx ex], y as [| | |sy my ey]; try done.
  apply fvalid_finite in Hx as [Hx _], Hy as [Hy _]. unfold fmul, SFmul. apply round_aux_valid; [lia|].
  pose proof (Zdigits2_mul_lower (Z.pos mx) (Z.pos my) ltac:(lia) ltac:(lia)) as Hd.
  change (Z.pos mx * Z.pos my) with (Z.pos (mx * my)) in Hd.
  destruct (Zdigits2_bounds (Z.pos mx) ltac:(lia)) as (? & _), (Zdigits2_bounds (Z.pos my) ltac:(lia)) as (? & _).
  rewrite fexp64_eq in *. lia.
Qed.

Lemma fvalid_div x y : fvalid x -> fvalid y -> fvalid (fdiv x y).
Proof.
  intros Hx Hy. destruct x as [| | |sx mx ex], y as [| | |sy my ey]; try done.
  unfold fdiv, SFdiv, SFdiv_core_binary.
  set (d1 := Zdigits2 (Z.pos mx)). set (d2 := Zdigits2 (Z.pos my)).
  remember (Z.min (fexp64 (d1 + ex - (d2 + ey))) (ex - ey)) as e' eqn:Ee.
  remember (ex - ey - e') as s eqn:Es. assert (0 <= s) as Hs by lia.
  replace (match s with Z0 => Z.pos mx | Z.pos _ => Z.shiftl (Z.pos mx) s | Z.neg _ => 0 end)
    with (Z.pos mx * 2 ^ s) by (destruct s; [lia|by rewrite Z.shiftl_mul_pow2|lia]).
  destruct (Z.div_eucl (Z.pos mx * 2 ^ s) (Z.pos my)) as [q r] eqn:Eq.
  assert (q = Z.pos mx * 2 ^ s / Z.pos my) as Eqd by (unfold Z.div; by rewrite Eq).
  assert (0 <= q) by (rewrite Eqd; apply Z.div_pos; lia).
  apply round_aux_valid; [done|]. rewrite fexp64_eq in *.
  destruct (Zdigits2_bounds (Z.pos mx) ltac:(lia)) as (A1 & A2 & A3).
  destruct (Zdigits2_bounds (Z.pos my) ltac:(lia)) as (B1 & B2 & B3). fold d1 in A1, A2, A3. fold d2 in B1, B2, B3.
  destruct (Z.le_gt_cases (d1 + s) d2) as [Hle|Hgt]; [lia|].
  destruct (Z.eq_dec q 0) as [->|Hq0].
  { exfalso. symmetry in Eqd. apply Z.div_small_iff in Eqd; [|lia].
    assert (Z.pos my < 2 ^ d2) by lia. enough (2 ^ d2 <= Z.pos mx * 2 ^ s) by lia.
    transitivity (2 ^ (d1 - 1) * 2 ^ s); [|apply Z.mul_le_mono_nonneg_r; lia].
    rewrite <- Z.pow_add_r by lia. apply Z.pow_le_mono_r; lia. }
  enough (d1 + s - d2 <= Zdigits2 q) by lia.
  destruct (Zdigits2_bounds q ltac:(lia)) as (C1 & C2 & C3).
  enough (d1 + s - 1 < d2 + Zdigits2 q) by lia.
  apply (Z.pow_lt_mono_r_iff 2); [lia|lia|]. rewrite (Z.pow_add_r 2 d2) by lia.
  assert (Z.pos mx * 2 ^ s < Z.pos my * (q + 1)) as Hlt by (rewrite Eqd; apply Z.mul_succ_div_gt; lia).
  apply Z.le_lt_trans with (Z.pos mx * 2 ^ s); [|nia].
  replace (2 ^ (d1 + s - 1)) with (2 ^ (d1 - 1) * 2 ^ s) by (rewrite <- Z.pow_add_r by lia; f_equal; lia). nia.
Qed.

Lemma iter_xO m d : Z.pos (Pos.iter xO m d) = Z.pos m * 2 ^ Z.pos d.
Proof.
  induction d as [|d IH] using Pos.peano_ind; [cbn; lia|].
  rewrite Pos.iter_succ. change (Z.pos (Pos.iter xO m d)~0) with (2 * Z.pos (Pos.iter xO m d)).
  rewrite IH, Pos2Z.inj_succ, Z.pow_succ_r by lia. lia.
Qed.

Lemma fvalid_round s m e : fvalid (binary_round 53 1024 s m e).
Proof.
  unfold binary_round, shl_align. change (Z.pos (digits2_pos m)) with (Zdigits2 (Z.pos m)).
  destruct (fexp64 (Zdigits2 (Z.pos m) + e) - e) as [|p|p] eqn:E; try (apply round_aux_valid; lia).
  apply round_aux_valid; [lia|]. rewrite iter_xO.
  replace (Zdigits2 (Z.pos m * 2 ^ Z.pos p)) with (Zdigits2 (Z.pos m) + Z.pos p).
  { rewrite !fexp64_eq in *. lia. }
  symmetry. destruct (Zdigits2_bounds (Z.pos m) ltac:(lia)) as (A1 & A2 & A3).
  apply Zdigits2_unique; [lia|].
  replace (Zdigits2 (Z.pos m) + Z.pos p - 1) with (Zdigits2 (Z.pos m) - 1 + Z.pos p) by lia.
  rewrite !Z.pow_add_r by lia. nia.
Qed.

Lemma fvalid_normalize m e b : fvalid (binary_normalize 53 1024 m e b).
Proof. destruct m; [done|apply fvalid_round..]. Qed.

Lemma fvalid_of_Z z : fvalid (of_Z z).
Proof. apply fvalid_normalize. Qed.

Lemma fvalid_add x y : fvalid x -> fvalid y -> fvalid (fadd x y).
Proof.
  intros Hx Hy. destruct x as [[]|[]| |[] mx ex], y as [[]|[]| |[] my ey]; try done; apply fvalid_normalize.
Qed.

Create HintDb float.
#[export] Hint Resolve fvalid_mul fvalid_div fvalid_add fvalid_of_Z : float.

Lemma fvalid_const n d : fvalid (fconst n d).
Proof. unfold fconst. auto with float. Qed.

Lemma fvalid_Seconds d : fvalid (Seconds d).
Proof. unfold Seconds. auto with float. Qed.
#[export] Hint Resolve fvalid_const fvalid_Seconds : float.

Lemma fvalid_f0 : fvalid f0.
Proof. done. Qed.
Lemma fvalid_f1 : fvalid f1.
Proof. done. Qed.
#[export] Hint Resolve fvalid_f0 fvalid_f1 : float.

(** A positive number is not above its product with a constant that is at least one. *)
Lemma fle_mul x mc :
  fvalid x -> flt f0 x = true -> 2 ^ 52 <= Z.pos mc < 2 ^ 53 -> fle x (fmul x (S754_finite false mc (-52))) = true.
Proof.
  intros Hv Hpos Hc. destruct x as [|[]| |[] m e]; try done.
  pose proof Hv as Hv'. apply fvalid_finite in Hv' as [Hcan _]. unfold fmul, SFmul. cbn [xorb].
  assert (Zdigits2 (Z.pos mc) = 53) as Hd by (apply Zdigits2_unique; lia).
  pose proof (Zdigits2_mul_lower (Z.pos m) (Z.pos mc) ltac:(lia) ltac:(lia)) as Hl.
  change (Z.pos m * Z.pos mc) with (Z.pos (m * mc)) in Hl. rewrite fexp64_eq in *.
  apply round_aux_ge; [done|lia|lia| |rewrite fexp64_eq; lia].
  replace (e - (e + -52)) with 52 by lia. change (Z.pos (m * mc)) with (Z.pos m * Z.pos mc). nia.
Qed.

(** ** The smallest positive value of a list, as the code's loops compute it

    The loops keep zero for "none yet". *)

Section best.
Context {A : Type} (rtt : A -> float64).

Definition better (best : float64) (x : A) : float64 :=
  if flt f0 (rtt x) && (feq best f0 || flt (rtt x) best) then rtt x else best.
Definition min_positive (l : list A) : float64 := fold_left better l f0.

Lemma min_positive_fold l : forall b, b = f0 \/ flt f0 b = true ->
  (fold_left better l b = b \/
   exists x, x ∈ l /\ fold_left better l b = rtt x /\ flt f0 (rtt x) = true /\ (b = f0 \/ flt (rtt x) b = true)) /\
  (forall x, x ∈ l -> flt f0 (rtt x) = true ->
     flt f0 (fold_left better l b) = true /\ flt (rtt x) (fold_left better l b) = false).
Proof.
  induction l as [|x l IH]; intros b Hb; cbn [fold_left].
  { split; [by left|]. intros x Hx. by apply not_elem_of_nil in Hx. }
  assert (better b x = b /\ (flt f0 (rtt x) = true -> flt f0 b = true /\ flt (rtt x) b = false) \/
    better b x = rtt x /\ flt f0 (rtt x) = true /\ (b = f0 \/ flt (rtt x) b = true)) as Hbx.
  { unfold better. destruct (flt f0 (rtt x)) eqn:E; [|by left]. cbn [andb].
    destruct Hb as [->|Hb]; [right; by auto|]. rewrite (fpos_neq0 _ Hb). cbn [orb].
    destruct (flt (rtt x) b) eqn:E2; [right|left]; auto. }
  destruct (IH (better b x)) as (I1 & I2).
  { destruct Hbx as [[-> _]|(-> & H & _)]; auto. }
  split.
  - destruct I1 as [->|(y & Hy & -> & Hy0 & Hyb)].
    + destruct Hbx as [[-> _]|(-> & H & H')]; [by left|]. right. exists x. rewrite elem_of_cons. auto.
    + right. exists y. rewrite elem_of_cons. repeat split; auto.
      destruct Hbx as [[E _]|(E & H & [H'|H'])]; rewrite E in Hyb; auto.
      destruct Hyb as [Hyb|Hyb]; [by rewrite Hyb in H|]. right. by eapply flt_trans.
  - intros y [->|Hy]%elem_of_cons Hy0; [|by apply I2].
    assert (flt f0 (better b x) = true /\ flt (rtt x) (better b x) = false) as [Hpos Hnot].
    { destruct Hbx as [[-> H]|(-> & H & _)]; [by apply H|]. by rewrite flt_irrefl. }
    destruct I1 as [E1|(z & Hz & E1 & Hz0 & [Hzb|Hzb])]; rewrite E1; [done|by rewrite Hzb in Hpos|].
    split; [done|]. destruct (flt (rtt x) (rtt z)) eqn:E; [|done].
    by rewrite (flt_trans _ _ _ E Hzb) in Hnot.
Qed.

(** Zero when no value is positive, else a positive value that none is below. *)
Lemma min_positive_spec l :
  (min_positive l = f0 /\ forall x, x ∈ l -> flt f0 (rtt x) = false) \/
  (flt f0 (min_positive l) = true /\ (exists x, x ∈ l /\ min_positive l = rtt x) /\
   forall x, x ∈ l -> flt f0 (rtt x) = true -> flt (rtt x) (min_positive l) = false).
Proof.
  destruct (min_positive_fold l f0 (or_introl eq_refl)) as ([E|(x & Hx & E & H0 & _)] & Hmin);
    fold (min_positive l) in *.
  - left. split; [done|]. intros x Hx. destruct (flt f0 (rtt x)) eqn:E0; [|done].
    destruct (Hmin x Hx E0) as [H _]. by rewrite E in H.
  - right. rewrite E. repeat split; eauto.
    intros y Hy Hy0. rewrite <- E. by apply Hmin.
Qed.
End best.

End Float.
