(* ===== verification/GoJson.v ===== *)
(** * encoding/json

    The part of Go's encoding/json the programs use: JSON values, [Marshal] (compact, with
    HTML escaping, strings coerced to UTF-8) and [Unmarshal] of a whole text (the scanner's
    grammar, its nesting limit of 10000, strings with escapes and surrogate pairs). A number
    is its literal. [Unmarshal_Marshal] is the round trip for well-formed values.

    Decoding into a struct follows the library: a key selects a field by its exact name, else
    by its name under case folding; unknown keys are skipped; null leaves a field alone, or
    resets a slice, map or pointer; a repeated key decodes into the value already there; any
    mismatch of types makes the whole call fail. Elements of a slice that a shorter repetition
    had cut off start afresh when a third one is longer. The text of a float64 is a class. *)

From stdpp Require Import base list gmap strings fin_maps sorting.
From Stdlib Require Import ZArith Lia.
From Stdlib Require Import Floats.SpecFloat.
From Stdlib Require DecimalString DecimalPos DecimalN DecimalFacts.
From S2P Require Import Prelude GoLib GoFloat.

Module Json.

(** ** Values *)

#[local] Unset Elimination Schemes.
Inductive json :=
| JNull
| JBool (b : bool)
| JNum (lit : gostring)
| JStr (s : gostring)
| JArr (l : list json)
| JObj (kvs : list (gostring * json)).
#[local] Set Elimination Schemes.

Section ind.
Context (P : json -> Prop) (Hnull : P JNull) (Hbool : forall b, P (JBool b)) (Hnum : forall s, P (JNum s))
  (Hstr : forall s, P (JStr s)) (Harr : forall l, Forall P l -> P (JArr l))
  (Hobj : forall kvs, Forall (fun kv => P (snd kv)) kvs -> P (JObj kvs)).

Fixpoint json_ind (j : json) : P j :=
  match j with
  | JNull => Hnull
  | JBool b => Hbool b
  | JNum s => Hnum s
  | JStr s => Hstr s
  | JArr l =>
      Harr l ((fix go l : Forall P l :=
        match l with [] => Forall_nil_2 _ | x :: l => Forall_cons_2 _ _ _ (json_ind x) (go l) end) l)
  | JObj kvs =>
      Hobj kvs ((fix go l : Forall (fun kv => P (snd kv)) l :=
        match l with [] => Forall_nil_2 _ | kv :: l => Forall_cons_2 _ _ _ (json_ind (snd kv)) (go l) end) kvs)
  end.
End ind.

(** ** unicode/utf8

    [chunks] cuts a string into its runes, [None] for a byte that begins none. *)

Definition between (lo c hi : Z) : bool := (lo <=? c) && (c <=? hi).
Definition cont (c : Z) : bool := between 128 c 191.
Definition two (a b : Z) : bool := between 194 a 223 && cont b.
Definition three (a b c : Z) : bool :=
  between 224 a 239 && between (if a =? 224 then 160 else 128) b (if a =? 237 then 159 else 191) && cont c.
Definition four (a b c d : Z) : bool :=
  between 240 a 244 && between (if a =? 240 then 144 else 128) b (if a =? 244 then 143 else 191) && cont c && cont d.

Fixpoint chunks (s : bytes) : list (option bytes) :=
  match s with
  | [] => []
  | a :: s1 =>
      if a <? 128 then Some [a] :: chunks s1
      else match s1 with
      | b :: s2 =>
          if two a b then Some [a; b] :: chunks s2
          else match s2 with
          | c :: s3 =>
              if three a b c then Some [a; b; c] :: chunks s3
              else match s3 with
              | d :: s4 => if four a b c d then Some [a; b; c; d] :: chunks s4 else None :: chunks s1
              | [] => None :: chunks s1
              end
          | [] => None :: chunks s1
          end
      | [] => None :: chunks s1
      end
  end.

(** [utf8.ValidString], and the encoding of one rune: the bytes of the replacement
    character stand for a surrogate half. *)
Definition utf8_valid (s : bytes) : bool := forallb (fun c => match c with Some _ => true | None => false end) (chunks s).
Definition fffd : bytes := [239; 191; 189].
Definition encode_rune (r : Z) : bytes :=
  if r <? 128 then [r]
  else if r <? 2048 then [192 + r / 64; 128 + r mod 64]
  else if between 55296 r 57343 then fffd
  else if r <? 65536 then [224 + r / 4096; 128 + r / 64 mod 64; 128 + r mod 64]
  else [240 + r / 262144; 128 + r / 4096 mod 64; 128 + r / 64 mod 64; 128 + r mod 64].

(** ** Printing *)

Definition quote_byte : Z := 34.
Definition backslash : Z := 92.

(** [appendString] for one ASCII byte: the letter after the backslash when there is a short
    form, the byte itself when it is safe, else \u00XX. *)
Definition short_escape (c : Z) : option Z :=
  if c =? 34 then Some 34 else if c =? 92 then Some 92 else if c =? 8 then Some 98 else if c =? 12 then Some 102
  else if c =? 10 then Some 110 else if c =? 13 then Some 114 else if c =? 9 then Some 116 else None.
Definition html_safe (c : Z) : bool :=
  (32 <=? c) && negb ((c =? 34) || (c =? 92) || (c =? 60) || (c =? 62) || (c =? 38)).
Definition escape_ascii (c : Z) : bytes :=
  if html_safe c then [c]
  else match short_escape c with
       | Some e => [backslash; e]
       | None => bs "\u00" ++ [Hex.digit (c / 16); Hex.digit (c mod 16)]
       end.
Definition escape_chunk (c : option bytes) : bytes :=
  match c with
  | None => bs "\ufffd"
  | Some b =>
      match b with
      | [a] => escape_ascii a
      | _ => if decide (b = [226; 128; 168]) then bs "\u2028"
             else if decide (b = [226; 128; 169]) then bs "\u2029" else b
      end
  end.
Definition quote (s : gostring) : bytes :=
  quote_byte :: concat (escape_chunk <$> chunks s) ++ [quote_byte].

Fixpoint commas (l : list bytes) : bytes :=
  match l with
  | [] => []
  | x :: l => match l with [] => x | _ => x ++ 44 :: commas l end
  end.

Fixpoint Marshal (j : json) : bytes :=
  match j with
  | JNull => bs "null"
  | JBool b => if b then bs "true" else bs "false"
  | JNum lit => lit
  | JStr s => quote s
  | JArr l => 91 :: commas (map Marshal l) ++ [93]
  | JObj kvs => 123 :: commas (map (fun kv => quote (fst kv) ++ 58 :: Marshal (snd kv)) kvs) ++ [125]
  end.

(** ** Parsing *)

Definition is_digit (c : Z) : bool := between 48 c 57.
Definition ws (c : Z) : bool := (c =? 32) || (c =? 9) || (c =? 13) || (c =? 10).
Fixpoint skip_ws (s : bytes) : bytes :=
  match s with c :: s' => if ws c then skip_ws s' else s | [] => [] end.

(** The digits at the head of [s]. *)
Fixpoint digits (s : bytes) : bytes * bytes :=
  match s with
  | c :: s' => if is_digit c then let '(d, r) := digits s' in (c :: d, r) else ([], s)
  | [] => ([], [])
  end.
Definition digits1 (s : bytes) : option (bytes * bytes) :=
  match digits s with ([], _) => None | (d, r) => Some (d, r) end.

(** A number: sign, integer part without leading zeros, fraction, exponent. *)
Definition num_int (s : bytes) : option (bytes * bytes) :=
  match s with
  | c :: s' => if c =? 48 then Some ([c], s') else digits1 s
  | [] => None
  end.
Definition num_frac (s : bytes) : option (bytes * bytes) :=
  match s with
  | c :: s' => if c =? 46 then '(d, r) ← digits1 s'; Some (c :: d, r) else Some ([], s)
  | [] => Some ([], [])
  end.
Definition num_exp (s : bytes) : option (bytes * bytes) :=
  match s with
  | c :: s' =>
      if (c =? 101) || (c =? 69) then
        match s' with
        | g :: s'' =>
            if (g =? 43) || (g =? 45) then '(d, r) ← digits1 s''; Some (c :: g :: d, r)
            else '(d, r) ← digits1 s'; Some (c :: d, r)
        | [] => None
        end
      else Some ([], s)
  | [] => Some ([], [])
  end.
Definition number (s : bytes) : option (bytes * bytes) :=
  let '(sg, s) := match s with c :: s' => if c =? 45 then ([c], s') else ([], s) | [] => ([], s) end in
  '(i, s) ← num_int s; '(f, s) ← num_frac s; '(e, s) ← num_exp s;
  Some (sg ++ i ++ f ++ e, s).

(** The scanner's pass over a string after its opening quote: the raw body and the rest. *)
Definition is_hex (c : Z) : bool := match Hex.undigit c with Some _ => true | None => false end.
Definition simple_escape (c : Z) : bool :=
  existsb (Z.eqb c) [98; 102; 110; 114; 116; 92; 47; 34].
Fixpoint scan_string (s : bytes) : option (bytes * bytes) :=
  match s with
  | [] => None
  | c :: s1 =>
      if c =? quote_byte then Some ([], s1)
      else if c =? backslash then
        match s1 with
        | e :: s2 =>
            if simple_escape e then '(b, r) ← scan_string s2; Some (c :: e :: b, r)
            else if e =? 117 then
              match s2 with
              | w :: x :: y :: z :: s3 =>
                  if is_hex w && is_hex x && is_hex y && is_hex z
                  then '(b, r) ← scan_string s3; Some (c :: e :: w :: x :: y :: z :: b, r) else None
              | _ => None
              end
            else None
        | [] => None
        end
      else if c <? 32 then None
      else '(b, r) ← scan_string s1; Some (c :: b, r)
  end.

(** [unquoteBytes] on the runes of the body; [skip] counts the runes an escape consumed. *)
Definition hex4 (l : list (option bytes)) : option Z :=
  match l with
  | Some [w] :: Some [x] :: Some [y] :: Some [z] :: _ =>
      w ← Hex.undigit w; x ← Hex.undigit x; y ← Hex.undigit y; z ← Hex.undigit z;
      Some (4096 * w + 256 * x + 16 * y + z)
  | _ => None
  end.
Definition getu4 (l : list (option bytes)) : option Z :=
  match l with
  | Some [b] :: Some [u] :: l => if (b =? backslash) && (u =? 117) then hex4 l else None
  | _ => None
  end.
Definition is_surrogate (r : Z) : bool := between 55296 r 57343.
Definition utf16_DecodeRune (r1 r2 : Z) : option Z :=
  if between 55296 r1 56319 && between 56320 r2 57343
  then Some (Z.lor (Z.shiftl (r1 - 55296) 10) (r2 - 56320) + 65536) else None.
Definition unescape (l : list (option bytes)) : bytes * nat :=
  match l with
  | Some [e] :: l' =>
      if e =? 117 then
        match hex4 l' with
        | None => ([], 0%nat)
        | Some rr =>
            if is_surrogate rr then
              match getu4 (drop 4 l') ≫= utf16_DecodeRune rr with
              | Some r => (encode_rune r, 11%nat)
              | None => (fffd, 5%nat)
              end
            else (encode_rune rr, 5%nat)
        end
      else ([if e =? 98 then 8 else if e =? 102 then 12 else if e =? 110 then 10
             else if e =? 114 then 13 else if e =? 116 then 9 else e], 1%nat)
  | _ => ([], 0%nat)
  end.
Fixpoint unquote (skip : nat) (l : list (option bytes)) : bytes :=
  match l with
  | [] => []
  | c :: l' =>
      match skip with
      | S k => unquote k l'
      | O =>
          match c with
          | None => fffd ++ unquote 0 l'
          | Some b =>
              if decide (b = [backslash]) then let '(out, k) := unescape l' in out ++ unquote k l'
              else b ++ unquote 0 l'
          end
      end
  end.
Definition parse_string (s : bytes) : option (gostring * bytes) :=
  '(body, r) ← scan_string s; Some (unquote 0 (chunks body), r).

(** Values. [depth] is the nesting still allowed; the fuel bounds the number of calls. *)
Definition maxNestingDepth : Z := 10000.
Definition literal (lit : gostring) (v : json) (s : bytes) : option (json * bytes) :=
  if Strings.HasPrefix s lit then Some (v, drop (length lit) s) else None.
Definition scalar (c : Z) (s : bytes) : option (json * bytes) :=
  if c =? quote_byte then '(x, r) ← parse_string (tail s); Some (JStr x, r)
  else if c =? 110 then literal (bs "null") JNull s
  else if c =? 116 then literal (bs "true") (JBool true) s
  else if c =? 102 then literal (bs "false") (JBool false) s
  else '(lit, r) ← number s; Some (JNum lit, r).
(** After an element: a comma, or the bracket that closes. *)
Definition next (close : Z) (s : bytes) : option (bool * bytes) :=
  match skip_ws s with
  | c :: s => if c =? close then Some (false, s) else if c =? 44 then Some (true, s) else None
  | [] => None
  end.
Definition closes (close : Z) (s : bytes) : option bytes :=
  match skip_ws s with c :: s => if c =? close then Some s else None | [] => None end.
(** A key and its colon. *)
Definition parse_key (s : bytes) : option (gostring * bytes) :=
  match skip_ws s with
  | c :: s =>
      if c =? quote_byte then
        '(k, s) ← parse_string s; s ← closes 58 s; Some (k, s)
      else None
  | [] => None
  end.

Fixpoint parse_value (fuel : nat) (depth : Z) (s : bytes) : option (json * bytes) :=
  match fuel with
  | O => None
  | S n =>
      match skip_ws s with
      | [] => None
      | c :: s' =>
          if c =? 91 then
            if depth <=? 0 then None
            else match closes 93 s' with
                 | Some r => Some (JArr [], r)
                 | None => '(l, r) ← parse_elems n (depth - 1) s'; Some (JArr l, r)
                 end
          else if c =? 123 then
            if depth <=? 0 then None
            else match closes 125 s' with
                 | Some r => Some (JObj [], r)
                 | None => '(l, r) ← parse_members n (depth - 1) s'; Some (JObj l, r)
                 end
          else scalar c (c :: s')
      end
  end
with parse_elems (fuel : nat) (depth : Z) (s : bytes) : option (list json * bytes) :=
  match fuel with
  | O => None
  | S n =>
      '(v, s) ← parse_value n depth s;
      '(more, s) ← next 93 s;
      if (more : bool) then '(l, s) ← parse_elems n depth s; Some (v :: l, s) else Some ([v], s)
  end
with parse_members (fuel : nat) (depth : Z) (s : bytes) : option (list (gostring * json) * bytes) :=
  match fuel with
  | O => None
  | S n =>
      '(k, s) ← parse_key s;
      '(v, s) ← parse_value n depth s;
      '(more, s) ← next 125 s;
      if (more : bool) then '(l, s) ← parse_members n depth s; Some ((k, v) :: l, s) else Some ([(k, v)], s)
  end.

Definition Parse (s : bytes) : option json :=
  '(v, r) ← parse_value (S (2 * length s)) maxNestingDepth s;
  if skip_ws r is [] then Some v else None.

(** ** Strings come back *)

Definition rune_ok (c : bytes) : bool :=
  match c with
  | [a] => between 0 a 127
  | [a; b] => two a b
  | [a; b; c] => three a b c
  | [a; b; c; d] => four a b c d
  | _ => false
  end.

Ltac bytewise := unfold is_digit, two, three, four, cont, between in *; cbn [andb] in *; lia.

Lemma chunks_cons c t : rune_ok c = true -> chunks (c ++ t) = Some c :: chunks t.
Proof.
  destruct c as [|a [|b [|c [|d [|]]]]]; cbn [rune_ok]; try done; intros H; cbn [app chunks].
  - destruct (Z.ltb_spec a 128); [done|bytewise].
  - destruct (Z.ltb_spec a 128); [bytewise|]. by rewrite H.
  - destruct (Z.ltb_spec a 128); [bytewise|]. replace (two a b) with false by bytewise. by rewrite H.
  - destruct (Z.ltb_spec a 128); [bytewise|]. replace (two a b) with false by bytewise.
    replace (three a b c) with false by bytewise. by rewrite H.
Qed.

Lemma chunks_runes s : bytes_ok s -> utf8_valid s = true ->
  exists cs, chunks s = Some <$> cs /\ s = concat cs /\ Forall (fun c => rune_ok c = true) cs.
Proof.
  remember (length s) as n eqn:En. revert s En. induction (lt_wf n) as [n _ IH]. intros s -> Hb Hv.
  assert (forall c t, s = c ++ t -> rune_ok c = true ->
    exists cs, chunks s = Some <$> cs /\ s = concat cs /\ Forall (fun c => rune_ok c = true) cs) as Step.
  { intros c t -> Hc. assert (0 < length c)%nat by (by destruct c; [|cbn; lia]).
    apply Forall_app in Hb as [_ Hb]. unfold utf8_valid in Hv. rewrite chunks_cons in Hv by done.
    destruct (IH (length t) ltac:(rewrite length_app; lia) t eq_refl Hb Hv) as (cs & E1 & E2 & E3).
    exists (c :: cs). rewrite chunks_cons by done. by rewrite E1, fmap_cons, E2 at 1; auto. }
  destruct s as [|a s1]; [by exists []|].
  assert (byte_ok a) as [Ha1 Ha2] by (by inversion Hb).
  unfold utf8_valid in Hv. cbn [chunks] in Hv. destruct (Z.ltb_spec a 128).
  { apply (Step [a] s1); [done|]. cbn. bytewise. }
  destruct s1 as [|b s2]; [done|]. destruct (two a b) eqn:E2; [by apply (Step [a; b] s2)|].
  destruct s2 as [|c s3]; [done|]. destruct (three a b c) eqn:E3; [by apply (Step [a; b; c] s3)|].
  destruct s3 as [|d s4]; [done|]. destruct (four a b c d) eqn:E4; [by apply (Step [a; b; c; d] s4)|done].
Qed.

(** The bytes that are escaped. *)
Lemma unsafe_cases a : between 0 a 127 = true -> html_safe a = false ->
  a ∈ ([34; 92; 60; 62; 38] ++ seqZ 0 32).
Proof. unfold between, html_safe. intros. rewrite elem_of_app, elem_of_seqZ, !elem_of_cons. lia. Qed.

Ltac each_elem := apply Forall_forall; repeat (apply Forall_cons_2; [reflexivity|]); apply Forall_nil_2.

Lemma scan_plain c t : c <> quote_byte -> c <> backslash -> 32 <= c ->
  scan_string (c :: t) = '(b, r) ← scan_string t; Some (c :: b, r).
Proof. unfold quote_byte, backslash. intros. cbn [scan_string]. unfold quote_byte, backslash. destruct (Z.eqb_spec c 34), (Z.eqb_spec c 92), (Z.ltb_spec c 32); lia || done. Qed.

Lemma rune_high c : rune_ok c = true -> length c <> 1%nat -> Forall (fun b => 128 <= b) c.
Proof.
  unfold rune_ok. repeat (case_match; try done); subst; intros H _; repeat constructor; revert H;
    unfold two, three, four, cont, between; try (by intros; lia);
    try (destruct (_ =? 224), (_ =? 237); lia); try (destruct (_ =? 240), (_ =? 244); lia).
Qed.

Lemma scan_escape c t : rune_ok c = true ->
  scan_string (escape_chunk (Some c) ++ t) = '(b, r) ← scan_string t; Some (escape_chunk (Some c) ++ b, r).
Proof.
  intros H. unfold escape_chunk.
  destruct c as [|a [|b [|c [|d [|]]]]]; cbn [rune_ok] in H; try done.
  - unfold escape_ascii. destruct (html_safe a) eqn:Es.
    + cbn [app]. unfold html_safe in Es. apply scan_plain; unfold quote_byte, backslash; lia.
    + apply unsafe_cases in Es; [|done]. clear H. revert a Es. each_elem.
  - case_decide; [done|]. case_decide; [done|]. cbn [app]. 
    apply (rune_high [a; b]) in H; [|done]; rewrite !Forall_cons in H.
    rewrite !scan_plain by (unfold quote_byte, backslash; lia). by destruct (scan_string t) as [[]|].
  - case_decide; [reflexivity|]. case_decide; [reflexivity|]. cbn [app]. 
    apply (rune_high [a; b; c]) in H; [|done]; rewrite !Forall_cons in H.
    rewrite !scan_plain by (unfold quote_byte, backslash; lia). by destruct (scan_string t) as [[]|].
  - case_decide; [done|]. case_decide; [done|]. cbn [app]. 
    apply (rune_high [a; b; c; d]) in H; [|done]; rewrite !Forall_cons in H.
    rewrite !scan_plain by (unfold quote_byte, backslash; lia). by destruct (scan_string t) as [[]|].
Qed.

Lemma unquote_escape c t : rune_ok c = true ->
  unquote 0 (chunks (escape_chunk (Some c) ++ t)) = c ++ unquote 0 (chunks t).
Proof.
  intros H.
  assert (forall b, rune_ok b = true -> b <> [backslash] -> unquote 0 (chunks (b ++ t)) = b ++ unquote 0 (chunks t)) as Plain.
  { intros b Hb Hn. rewrite chunks_cons by done. cbn [unquote]. by rewrite decide_False. }
  unfold escape_chunk. destruct c as [|a [|b [|c [|d [|]]]]]; try done.
  - unfold escape_ascii. destruct (html_safe a) eqn:Es.
    + apply Plain; [done|]. intros [= ->]. done.
    + apply unsafe_cases in Es; [|done]. clear H. revert a Es. each_elem.
  - case_decide; [done|]. case_decide; [done|]. by apply Plain.
  - case_decide as E; [rewrite E; reflexivity|]. case_decide as E'; [rewrite E'; reflexivity|]. by apply Plain.
  - case_decide; [done|]. case_decide; [done|]. by apply Plain.
Qed.

Definition string_ok (s : gostring) : Prop := bytes_ok s /\ utf8_valid s = true.

Lemma quote_string s t : string_ok s -> parse_string (tail (quote s) ++ t) = Some (s, t).
Proof.
  intros [Hb Hv]. destruct (chunks_runes s Hb Hv) as (cs & E & -> & Hcs). unfold quote, parse_string. cbn [tail].
  rewrite E. clear E Hb Hv.
  assert (forall u, scan_string (concat (escape_chunk <$> (Some <$> cs)) ++ quote_byte :: u)
     = Some (concat (escape_chunk <$> (Some <$> cs)), u)) as Hs.
  { intros u. induction Hcs as [|c cs Hc _ IH]; [done|]. cbn [fmap list_fmap concat].
    rewrite <- app_assoc, scan_escape by done. by rewrite IH. }
  rewrite <- app_assoc. cbn [app]. rewrite Hs. cbn [mbind option_bind]. f_equal. f_equal. clear Hs.
  induction Hcs as [|c cs Hc _ IH]; [done|]. cbn [fmap list_fmap concat]. by rewrite unquote_escape, IH.
Qed.

(** ** Values come back *)

Definition num_ok (lit : gostring) : Prop := number lit = Some (lit, []).

#[local] Unset Elimination Schemes.
Inductive json_ok : Z -> json -> Prop :=
| ok_null d : json_ok d JNull
| ok_bool d b : json_ok d (JBool b)
| ok_num d lit : num_ok lit -> json_ok d (JNum lit)
| ok_str d s : string_ok s -> json_ok d (JStr s)
| ok_arr d l : 0 < d -> Forall (json_ok (d - 1)) l -> json_ok d (JArr l)
| ok_obj d kvs : 0 < d -> Forall (fun kv => string_ok (fst kv) /\ json_ok (d - 1) (snd kv)) kvs -> json_ok d (JObj kvs).
#[local] Set Elimination Schemes.

(** What can follow a value inside a printed text, and the newline after it. *)
Definition delim (r : bytes) : Prop :=
  match r with [] => True | c :: _ => c = 44 \/ c = 93 \/ c = 125 \/ c = 10 end.

Lemma digits_app s r d b : delim r -> digits s = (d, b) -> digits (s ++ r) = (d, b ++ r).
Proof.
  intros Hr. revert d b. induction s as [|c s IH]; intros d b; cbn [digits app].
  - intros [= <- <-]. destruct r as [|x r]; [done|]. cbn [digits]. cbn in Hr.
    replace (is_digit x) with false by bytewise. done.
  - destruct (is_digit c); [|by intros [= <- <-]]. destruct (digits s) as [d' b']. intros [= <- <-].
    by rewrite (IH d' b').
Qed.

Lemma digits1_app s r p : delim r -> digits1 s = Some p -> digits1 (s ++ r) = Some (p.1, p.2 ++ r).
Proof.
  intros Hr. unfold digits1. destruct (digits s) as [d b] eqn:E. rewrite (digits_app s r d b) by done.
  destruct d; [done|]. by intros [= <-].
Qed.

Lemma num_int_app s r p : delim r -> num_int s = Some p -> num_int (s ++ r) = Some (p.1, p.2 ++ r).
Proof.
  intros Hr. unfold num_int. destruct s as [|c s]; [done|]. cbn [app].
  destruct (c =? 48); [by intros [= <-]|]. apply (digits1_app (c :: s) r p Hr).
Qed.

Lemma num_frac_app s r p : delim r -> num_frac s = Some p -> num_frac (s ++ r) = Some (p.1, p.2 ++ r).
Proof.
  intros Hr. unfold num_frac. destruct s as [|c s]; cbn [app].
  - intros [= <-]. destruct r as [|x r]; [done|]. cbn in Hr. cbn. by replace (x =? 46) with false by lia.
  - destruct (c =? 46); [|by intros [= <-]]. destruct (digits1 s) as [[d b]|] eqn:E; [|done].
    intros [= <-]. by rewrite (digits1_app s r (d, b)).
Qed.

Lemma num_exp_app s r p : delim r -> num_exp s = Some p -> num_exp (s ++ r) = Some (p.1, p.2 ++ r).
Proof.
  intros Hr. unfold num_exp. destruct s as [|c s]; cbn [app].
  - intros [= <-]. destruct r as [|x r]; [done|]. cbn in Hr.
    by replace ((x =? 101) || (x =? 69)) with false by lia.
  - destruct ((c =? 101) || (c =? 69)); [|by intros [= <-]].
    destruct s as [|g s]; [done|]. cbn [app].
    destruct ((g =? 43) || (g =? 45)).
    + destruct (digits1 s) as [[d b]|] eqn:E; [|done]. intros [= <-]. by rewrite (digits1_app s r (d, b)).
    + destruct (digits1 (g :: s)) as [[d b]|] eqn:E; [|done]. intros [= <-].
      change (g :: s ++ r) with ((g :: s) ++ r). by rewrite (digits1_app _ r (d, b)).
Qed.

Lemma number_app lit r : num_ok lit -> delim r -> number (lit ++ r) = Some (lit, r).
Proof.
  intros H Hr. unfold num_ok, number in *. destruct lit as [|c s]; [done|]. cbn [app].
  assert (forall sg s0 lit, (('(i, s) ← num_int s0; '(f, s) ← num_frac s; '(e, s) ← num_exp s; Some (sg ++ i ++ f ++ e, s))
    : option (bytes * bytes)) = Some (lit, []) ->
    ('(i, s) ← num_int (s0 ++ r); '(f, s) ← num_frac s; '(e, s) ← num_exp s; Some (sg ++ i ++ f ++ e, s))
    = Some (lit, r)) as Go.
  { clear H. intros sg s0 lit. destruct (num_int s0) as [[i s1]|] eqn:E1; [|done]. rewrite (num_int_app _ r _ Hr E1).
    cbn [mbind option_bind fst snd].
    destruct (num_frac s1) as [[f s2]|] eqn:E2; [|done]. rewrite (num_frac_app _ r _ Hr E2).
    cbn [mbind option_bind fst snd].
    destruct (num_exp s2) as [[e s3]|] eqn:E3; [|done]. rewrite (num_exp_app _ r _ Hr E3).
    cbn [mbind option_bind fst snd]. by intros [= <- ->]. }
  destruct (c =? 45); [by apply Go|]. by apply (Go [] (c :: s)).
Qed.

Lemma number_head lit : num_ok lit -> exists c s, lit = c :: s /\ (c = 45 \/ is_digit c = true).
Proof.
  unfold num_ok, number. destruct lit as [|c s]; [done|]. intros H. exists c, s. split; [done|].
  destruct (Z.eqb_spec c 45); [by left|]. right. unfold num_int in H.
  destruct (Z.eqb_spec c 48); [by subst|]. unfold digits1 in H. cbn [digits] in H. by destruct (is_digit c).
Qed.

(** The first byte of a printed value: which parser takes over. *)
Lemma Marshal_head d j : json_ok d j ->
  exists c s, Marshal j = c :: s /\ ws c = false /\ c <> 93 /\ c <> 125 /\
    match j with JArr _ => c = 91 | JObj _ => c = 123 | _ => c <> 91 /\ c <> 123 end.
Proof.
  assert (forall c, c = 45 \/ is_digit c = true -> ws c = false /\ c <> 93 /\ c <> 125 /\ c <> 91 /\ c <> 123) as Hd.
  { unfold ws. intros c [->|]; [done|]. bytewise. }
  intros H. inversion H as [| d' b | d' lit Hn | | |]; subst; try (do 2 eexists; split; [reflexivity | done]).
  - destruct b; do 2 eexists; (split; [reflexivity | done]).
  - destruct (number_head lit Hn) as (c & s & -> & Hc). exists c, s. apply Hd in Hc. cbn. tauto.
Qed.

Lemma skip_ws_head c s : ws c = false -> skip_ws (c :: s) = c :: s.
Proof. intros H. cbn. by rewrite H. Qed.

Lemma closes_head x c s : ws c = false -> c <> x -> closes x (c :: s) = None.
Proof. intros H Hn. unfold closes. rewrite skip_ws_head by done. by apply Z.eqb_neq in Hn as ->. Qed.

(** Scalars. *)
Lemma scalar_Marshal d j r : json_ok d j -> delim r ->
  match j with JArr _ | JObj _ => True | _ => exists c s, Marshal j = c :: s /\ scalar c (c :: s ++ r) = Some (j, r) end.
Proof.
  intros H Hr. inversion H as [| d' b | d' lit Hn | d' s Hs | |]; subst; try done.
  - do 2 eexists. split; [reflexivity|]. unfold scalar, literal. cbn -[drop]. done.
  - destruct b; (do 2 eexists; split; [reflexivity|]; unfold scalar, literal; cbn -[drop]; done).
  - destruct (number_head lit Hn) as (c & s & -> & Hc). exists c, s. split; [done|]. unfold scalar.
    rewrite (proj2 (Z.eqb_neq c quote_byte)) by (unfold quote_byte; bytewise).
    rewrite !(proj2 (Z.eqb_neq c _)) by bytewise.
    change (c :: s ++ r) with ((c :: s) ++ r). by rewrite (number_app (c :: s) r Hn Hr).
  - do 2 eexists. split; [reflexivity|]. unfold scalar. cbn [tail]. rewrite Z.eqb_refl.
    pose proof (quote_string s r Hs) as E. unfold quote in E. cbn [tail] in E. by rewrite E.
Qed.

Fixpoint weight (j : json) : nat :=
  match j with
  | JArr l => S (list_sum (map (fun x => S (weight x)) l))
  | JObj kvs => S (list_sum (map (fun kv => S (weight (snd kv))) kvs))
  | _ => 1%nat
  end.

Definition comes_back (j : json) : Prop :=
  forall d n r, json_ok d j -> delim r -> (weight j <= n)%nat -> parse_value n d (Marshal j ++ r) = Some (j, r).

Lemma elems_back l d n r : l <> [] -> Forall comes_back l -> Forall (json_ok d) l ->
  (list_sum (map (fun x => S (weight x)) l) <= n)%nat ->
  parse_elems n d (commas (map Marshal l) ++ 93 :: r) = Some (l, r).
Proof.
  intros Hne HI. revert n. induction HI as [|x l Hx HI IH]; [done|]. intros n [Ox Ol]%Forall_cons_1 Hn.
  cbn [map list_sum foldr] in Hn. destruct n as [|n]; [lia|]. cbn [parse_elems].
  destruct l as [|y l].
  - cbn [map commas]. rewrite Hx by (done || (by right; left) || lia). done.
  - change (commas (map Marshal (x :: y :: l))) with (Marshal x ++ 44 :: commas (map Marshal (y :: l))).
    rewrite <- app_assoc. cbn [app]. rewrite Hx by (done || (by left) || (cbn in Hn; lia)). cbn [mbind option_bind].
    change (next 93 (44 :: ?s)) with (Some (true, s)). cbn [mbind option_bind].
    rewrite IH by (done || (cbn in Hn |- *; lia)). done.
Qed.

Lemma parse_key_quote k s : string_ok k -> parse_key (quote k ++ 58 :: s) = Some (k, s).
Proof.
  intros H. unfold parse_key. pose proof (quote_string k (58 :: s) H) as E. unfold quote in *. cbn [tail app] in *.
  rewrite skip_ws_head by done. rewrite Z.eqb_refl, E. done.
Qed.

Abbreviation member := (fun kv : gostring * json => quote (fst kv) ++ 58 :: Marshal (snd kv)).

Lemma members_back l d n r : l <> [] -> Forall (fun kv => comes_back (snd kv)) l ->
  Forall (fun kv => string_ok (fst kv) /\ json_ok d (snd kv)) l ->
  (list_sum (map (fun kv => S (weight (snd kv))) l) <= n)%nat ->
  parse_members n d (commas (map member l) ++ 125 :: r) = Some (l, r).
Proof.
  intros Hne HI. revert n. induction HI as [|[k x] l Hx HI IH]; [done|]. intros n [[Ok Ox] Ol]%Forall_cons_1 Hn.
  cbn [map list_sum foldr fst snd] in Hn, Hx, Ok, Ox. destruct n as [|n]; [lia|]. cbn [parse_members].
  destruct l as [|y l].
  - cbn [map commas fst snd]. rewrite <- app_assoc. cbn [app]. rewrite parse_key_quote by done. cbn [mbind option_bind].
    rewrite Hx by (done || (by right; right; left) || lia). done.
  - change (commas (map member ((k, x) :: y :: l)))
      with ((quote k ++ 58 :: Marshal x) ++ 44 :: commas (map member (y :: l))).
    rewrite <- !app_assoc. cbn [app]. rewrite parse_key_quote by done. cbn [mbind option_bind app].
    rewrite Hx by (done || (by left) || (cbn in Hn; lia)). cbn [mbind option_bind].
    change (next 125 (44 :: ?s)) with (Some (true, s)). cbn [mbind option_bind].
    rewrite IH by (done || (cbn in Hn |- *; lia)). done.
Qed.

Lemma value_back j : comes_back j.
Proof.
  induction j as [|b|lit|s|l IH|kvs IH]; intros d n r H Hr Hw; (destruct n as [|n]; [cbn in Hw; lia|]).
  1-4: destruct (Marshal_head d _ H) as (c & t & E & Hws & _ & _ & H1 & H2);
    destruct (scalar_Marshal d _ r H Hr) as (c' & t' & E' & Es); rewrite E in E' |- *;
    injection E' as <- <-; cbn [parse_value app]; rewrite skip_ws_head by done;
    by rewrite (proj2 (Z.eqb_neq c 91) H1), (proj2 (Z.eqb_neq c 123) H2).
  - inversion H as [| | | |d' l' Hd Hl|]; subst. cbn [Marshal app parse_value]. rewrite skip_ws_head by done.
    cbn [Z.eqb]. change (91 =? 91) with true. cbn iota. rewrite (proj2 (Z.leb_gt d 0)) by lia.
    rewrite <- app_assoc. cbn [app]. destruct l as [|x l]; [done|].
    assert (closes 93 (commas (map Marshal (x :: l)) ++ 93 :: r) = None) as ->.
    { apply Forall_cons_1 in Hl as [Hx _]. destruct (Marshal_head _ _ Hx) as (c & t & E & Hws & Hc & _).
      cbn [map commas]. rewrite E. destruct l; apply closes_head; done. }
    rewrite elems_back by (done || (cbn in Hw |- *; lia)). done.
  - inversion H as [| | | | |d' l' Hd Hl]; subst. cbn [Marshal app parse_value]. rewrite skip_ws_head by done.
    change (123 =? 91) with false. change (123 =? 123) with true. cbn iota. rewrite (proj2 (Z.leb_gt d 0)) by lia.
    rewrite <- app_assoc. cbn [app]. destruct kvs as [|[k x] l]; [done|].
    assert (closes 125 (commas (map member ((k, x) :: l)) ++ 125 :: r) = None) as ->.
    { unfold quote. cbn [map commas fst snd]. destruct l; apply closes_head; done. }
    rewrite members_back by (done || (cbn in Hw |- *; lia)). done.
Qed.

Lemma commas_length l : (list_sum (map (fun x => S (length x)) l) <= S (length (commas l)))%nat.
Proof.
  induction l as [|x l IH]; [cbn; lia|]. cbn [map list_sum foldr commas].
  destruct l as [|y l]; [cbn; lia|]. rewrite length_app. cbn [length]. cbn [map list_sum foldr] in *. lia.
Qed.

Lemma weight_length d j : json_ok d j -> (weight j <= 2 * length (Marshal j))%nat.
Proof.
  revert d. induction j as [|b|lit|s|l IH|kvs IH]; intros d H; try (cbn; lia).
  - cbn. destruct b; cbn; lia.
  - destruct (Marshal_head _ _ H) as (c & t & E & _). rewrite E. cbn. lia.
  - inversion H as [| | | |d' l' Hd Hl|]; subst. cbn [weight Marshal]. cbn [length]. rewrite length_app. cbn [length].
    pose proof (commas_length (map Marshal l)) as Hc. rewrite map_map in Hc.
    enough (list_sum (map (fun x => S (weight x)) l) <= 2 * list_sum (map (fun x => S (length (Marshal x))) l))%nat by lia.
    clear Hc H. induction Hl as [|x l Hx Hl IHl]; [cbn; lia|]. apply Forall_cons_1 in IH as [Ix IH].
    specialize (Ix _ Hx). specialize (IHl IH). unfold list_sum in *. cbn [map foldr] in *. lia.
  - inversion H as [| | | | |d' l' Hd Hl]; subst. cbn [weight Marshal]. cbn [length]. rewrite length_app. cbn [length].
    pose proof (commas_length (map member kvs)) as Hc. rewrite map_map in Hc.
    enough (list_sum (map (fun kv => S (weight (snd kv))) kvs) <= 2 * list_sum (map (fun kv => S (length (member kv))) kvs))%nat by lia.
    clear Hc H. induction Hl as [|[k x] l [Hk Hx] Hl IHl]; [cbn; lia|]. apply Forall_cons_1 in IH as [Ix IH].
    cbn [snd] in Ix. specialize (Ix _ Hx). specialize (IHl IH). unfold list_sum in *.
    cbn [map foldr fst snd] in *. rewrite length_app. cbn [length]. lia.
Qed.

(** What [Marshal] prints, [Parse] reads back. *)
Lemma Unmarshal_Marshal j : json_ok maxNestingDepth j -> Parse (Marshal j) = Some j.
Proof.
  intros H. unfold Parse. pose proof (weight_length _ _ H).
  rewrite <- (app_nil_r (Marshal j)) at 2. rewrite value_back by (done || lia). done.
Qed.

Lemma Marshal_inj i j : json_ok maxNestingDepth i -> json_ok maxNestingDepth j -> Marshal i = Marshal j -> i = j.
Proof. intros Hi Hj E. apply (inj Some). by rewrite <- (Unmarshal_Marshal i), E, Unmarshal_Marshal. Qed.

(** [json.Encoder] ends a value with a newline. *)
Lemma parse_line j : json_ok maxNestingDepth j ->
  parse_value (S (2 * length (Marshal j ++ [10]))) maxNestingDepth (Marshal j ++ [10]) = Some (j, [10]).
Proof. intros H. pose proof (weight_length _ _ H). rewrite value_back; [done..| |rewrite length_app; lia]. cbn. tauto. Qed.

(** ** What is printed is bytes *)

Definition plain (c : Z) : Prop := 0 <= c < 128.
Lemma plain_bytes s : Forall plain s -> bytes_ok s.
Proof. intros H. eapply Forall_impl; [exact H|]. unfold plain, byte_ok. lia. Qed.

Lemma digits_plain s d r : digits s = (d, r) -> Forall plain d.
Proof.
  revert d r. induction s as [|c s IH]; intros d r; cbn [digits]; [by intros [= <- <-]; constructor|].
  destruct (is_digit c) eqn:Hc; [|by intros [= <- <-]; constructor]. destruct (digits s) as [d' r'].
  intros [= <- <-]. constructor; [unfold plain; bytewise|]. by eapply IH.
Qed.
Lemma digits1_plain s d r : digits1 s = Some (d, r) -> Forall plain d.
Proof. unfold digits1. destruct (digits s) as [[|c d'] r'] eqn:E; [done|]. intros [= <- <-]. by eapply digits_plain. Qed.

Lemma num_parts_plain t i s1 f s2 e s3 : num_int t = Some (i, s1) -> num_frac s1 = Some (f, s2) -> num_exp s2 = Some (e, s3) ->
  Forall plain (i ++ f ++ e).
Proof.
  intros Ei Ef Ee. apply Forall_app_2, Forall_app_2.
  - unfold num_int in Ei. destruct t as [|c t]; [done|]. destruct (c =? 48) eqn:Hc; [|by eapply digits1_plain].
    injection Ei as <- <-. constructor; [unfold plain; lia|constructor].
  - unfold num_frac in Ef. destruct s1 as [|c s1]; [by injection Ef as <- <-; constructor|].
    destruct (c =? 46) eqn:Hc; [|by injection Ef as <- <-; constructor]. destruct (digits1 s1) as [[d s4]|] eqn:Ed; [|done].
    injection Ef as <- <-. constructor; [unfold plain; lia|]. by eapply digits1_plain.
  - unfold num_exp in Ee. destruct s2 as [|c s2]; [by injection Ee as <- <-; constructor|].
    destruct ((c =? 101) || (c =? 69)) eqn:Hc; [|by injection Ee as <- <-; constructor]. destruct s2 as [|g s2]; [done|].
    destruct ((g =? 43) || (g =? 45)) eqn:Hg;
      [destruct (digits1 s2) as [[d s4]|] eqn:Ed | destruct (digits1 (g :: s2)) as [[d s4]|] eqn:Ed];
      try done; injection Ee as <- <-; repeat (constructor; [unfold plain; lia|]); by eapply digits1_plain.
Qed.

Lemma number_plain s x r : number s = Some (x, r) -> Forall plain x.
Proof.
  unfold number. destruct (match s with c :: s' => if c =? 45 then ([c], s') else ([], s) | [] => ([], s) end) as [sg t] eqn:Es.
  assert (Forall plain sg) as Hs.
  { destruct s as [|c s]; [by injection Es as <- <-; constructor|]. destruct (c =? 45) eqn:Hc; injection Es as <- <-; [|constructor].
    constructor; [unfold plain; lia|constructor]. }
  destruct (num_int t) as [[i s1]|] eqn:Ei; [|done]. cbn [mbind option_bind].
  destruct (num_frac s1) as [[f s2]|] eqn:Ef; [|done]. cbn [mbind option_bind].
  destruct (num_exp s2) as [[e s3]|] eqn:Ee; [|done]. cbn [mbind option_bind]. intros [= <- <-].
  apply Forall_app_2; [done|]. by eapply num_parts_plain.
Qed.

Lemma rune_bytes c : rune_ok c = true -> bytes_ok c.
Proof.
  unfold rune_ok. repeat (case_match; try done); subst; intros H; repeat constructor; revert H;
    unfold two, three, four, cont, between, byte_ok; try lia;
    try (destruct (_ =? 224), (_ =? 237); lia); try (destruct (_ =? 240), (_ =? 244); lia).
Qed.

Lemma escape_bytes c : rune_ok c = true -> bytes_ok (escape_chunk (Some c)).
Proof.
  intros H. pose proof (rune_bytes c H) as Hb. cbn [escape_chunk]. destruct c as [|a [|b c]]; [done| |].
  - cbn [rune_ok] in H. unfold escape_ascii. destruct (html_safe a); [done|]. destruct (short_escape a) as [e|] eqn:E.
    + unfold short_escape in E. repeat (case_match; [injection E as <-; by apply (bool_decide_unpack _)|]). done.
    + apply Forall_app_2; [by apply (bool_decide_unpack _)|]. unfold between in H.
      apply Forall_cons_2; [|apply Forall_cons_2; [|apply Forall_nil_2]]; unfold byte_ok, Hex.digit; case_match; Z.div_mod_to_equations; lia.
  - case_decide; [by apply (bool_decide_unpack _)|]. case_decide; [by apply (bool_decide_unpack _) | done].
Qed.

Lemma quote_bytes s : string_ok s -> bytes_ok (quote s).
Proof.
  intros [Hb Hv]. destruct (chunks_runes s Hb Hv) as (cs & E & _ & Hcs). unfold quote. rewrite E.
  constructor; [by apply (bool_decide_unpack _)|]. apply Forall_app_2; [|by apply (bool_decide_unpack _)].
  clear E. induction Hcs as [|c cs Hc _ IH]; [constructor|]. cbn [fmap list_fmap concat].
  apply Forall_app_2; [by apply escape_bytes | exact IH].
Qed.

Lemma commas_bytes l : Forall (fun s => bytes_ok s) l -> bytes_ok (commas l).
Proof.
  induction 1 as [|x l Hx _ IH]; [constructor|]. cbn [commas]. destruct l; [done|].
  apply Forall_app_2; [done|]. constructor; [by unfold byte_ok | exact IH].
Qed.

Lemma Marshal_bytes d j : json_ok d j -> bytes_ok (Marshal j).
Proof.
  revert d. induction j as [|b|lit|s|l IH|kvs IH]; intros d H; cbn [Marshal].
  - by apply (bool_decide_unpack _).
  - destruct b; by apply (bool_decide_unpack _).
  - inversion H; subst. by eapply plain_bytes, number_plain.
  - inversion H; subst. by apply quote_bytes.
  - inversion H as [| | | |d' l' _ Hl|]; subst. constructor; [by unfold byte_ok|].
    apply Forall_app_2; [|by apply (bool_decide_unpack _)]. apply commas_bytes, Forall_map. clear H.
    induction Hl as [|x l Hx _ IHl]; [constructor|]. apply Forall_cons_1 in IH as [Ix IH]. constructor; [by eapply Ix | by apply IHl].
  - inversion H as [| | | | |d' l' _ Hl]; subst. constructor; [by unfold byte_ok|].
    apply Forall_app_2; [|by apply (bool_decide_unpack _)]. apply commas_bytes, Forall_map. clear H.
    induction Hl as [|[k x] l [Hk Hx] _ IHl]; [constructor|]. apply Forall_cons_1 in IH as [Ix IH]. constructor; [|by apply IHl].
    cbn [fst snd] in *. apply Forall_app_2; [by apply quote_bytes|]. constructor; [by unfold byte_ok | by eapply Ix].
Qed.

(** ** What is parsed is well-formed

    Strings come out as UTF-8 whatever bytes went in, numbers as literals of the grammar. *)

Definition rune_chunk (c : option bytes) : Prop := match c with Some b => rune_ok b = true | None => True end.

Lemma chunks_rune s : bytes_ok s -> Forall rune_chunk (chunks s).
Proof.
  remember (length s) as n eqn:En. revert s En. induction (lt_wf n) as [n _ IH]. intros s -> Hb.
  assert (forall t, (length t < length s)%nat -> bytes_ok t -> Forall rune_chunk (chunks t)) as Rec by eauto.
  destruct s as [|a s1]; [constructor|]. apply Forall_cons_1 in Hb as [[Ha1 Ha2] Hb1].
  assert (Forall rune_chunk (chunks s1)) as H1 by (apply Rec; [cbn; lia|done]).
  cbn [chunks]. destruct (Z.ltb_spec a 128); [constructor; [cbn; bytewise | done]|].
  destruct s1 as [|b s2]; [by constructor|]. apply Forall_cons_1 in Hb1 as [_ Hb2].
  destruct (two a b) eqn:E2; [constructor; [done | apply Rec; [cbn; lia|done]]|].
  destruct s2 as [|c s3]; [by constructor|]. apply Forall_cons_1 in Hb2 as [_ Hb3].
  destruct (three a b c) eqn:E3; [constructor; [done | apply Rec; [cbn; lia|done]]|].
  destruct s3 as [|d s4]; [by constructor|]. apply Forall_cons_1 in Hb3 as [_ Hb4].
  destruct (four a b c d) eqn:E4; [constructor; [done | apply Rec; [cbn; lia|done]] | by constructor].
Qed.

(** A string made of runes. *)
Definition runes (s : bytes) : Prop := exists cs, s = concat cs /\ Forall (fun c => rune_ok c = true) cs.

Lemma runes_nil : runes [].
Proof. by exists []. Qed.
Lemma runes_one c : rune_ok c = true -> runes c.
Proof. intros H. exists [c]. split; [cbn; by rewrite app_nil_r | by repeat constructor]. Qed.
Lemma runes_app a b : runes a -> runes b -> runes (a ++ b).
Proof. intros (x & -> & Hx) (y & -> & Hy). exists (x ++ y). split; [by rewrite concat_app | by apply Forall_app]. Qed.

Lemma runes_ok s : runes s -> string_ok s.
Proof.
  intros (cs & -> & H). split.
  - induction H as [|c cs Hc _ IH]; [constructor|]. cbn. apply Forall_app_2; [by apply rune_bytes | done].
  - unfold utf8_valid. induction H as [|c cs Hc _ IH]; [done|]. cbn [concat]. rewrite chunks_cons by done. done.
Qed.

Lemma encode_rune_ok r : 0 <= r < 1114112 -> is_surrogate r = false -> rune_ok (encode_rune r) = true.
Proof.
  intros Hr Hs. unfold encode_rune. unfold is_surrogate in Hs. rewrite Hs. unfold between in Hs.
  destruct (Z.ltb_spec r 128); [cbn; bytewise|].
  destruct (Z.ltb_spec r 2048); [cbn [rune_ok]; unfold two, cont, between; Z.div_mod_to_equations; lia|].
  destruct (Z.ltb_spec r 65536); cbn [rune_ok].
  - unfold three, cont, between. destruct (Z.eqb_spec (224 + r / 4096) 224), (Z.eqb_spec (224 + r / 4096) 237);
      Z.div_mod_to_equations; lia.
  - unfold four, cont, between. destruct (Z.eqb_spec (240 + r / 262144) 240), (Z.eqb_spec (240 + r / 262144) 244);
      Z.div_mod_to_equations; lia.
Qed.

Lemma undigit_range c v : Hex.undigit c = Some v -> 0 <= v < 16.
Proof. unfold Hex.undigit. repeat case_match; intros [= <-]; lia. Qed.

Lemma hex4_range l r : hex4 l = Some r -> 0 <= r < 65536.
Proof.
  unfold hex4. destruct l as [|[[|w []]|] [|[[|x []]|] [|[[|y []]|] [|[[|z []]|] l]]]]; try done.
  destruct (Hex.undigit w) eqn:E1; [|done]. destruct (Hex.undigit x) eqn:E2; [|done].
  destruct (Hex.undigit y) eqn:E3; [|done]. destruct (Hex.undigit z) eqn:E4; [|done]. cbn. intros [= <-].
  apply undigit_range in E1, E2, E3, E4. lia.
Qed.

Lemma utf16_range a b r : utf16_DecodeRune a b = Some r -> 65536 <= r < 1114112.
Proof.
  unfold utf16_DecodeRune, between. destruct (_ && _) eqn:E; [|done]. intros [= <-].
  rewrite Z.lor_comm, lor_shiftl_add; rewrite ?Z.shiftl_mul_pow2 by lia; change (2 ^ 10) with 1024; lia.
Qed.

Lemma unescape_runes l : Forall rune_chunk l -> runes (unescape l).1.
Proof.
  intros Hl. unfold unescape. destruct l as [|[[|e [|]]|] l']; try apply runes_nil.
  apply Forall_cons_1 in Hl as [He _]. destruct (e =? 117).
  - destruct (hex4 l') as [rr|] eqn:E; [|apply runes_nil]. apply hex4_range in E. destruct (is_surrogate rr) eqn:Es.
    + destruct (getu4 (drop 4 l') ≫= utf16_DecodeRune rr) as [r|] eqn:Ed; [|by apply runes_one].
      destruct (getu4 (drop 4 l')) as [r1|]; [|done]. apply utf16_range in Ed. apply runes_one, encode_rune_ok; [lia|].
      unfold is_surrogate, between. lia.
    + apply runes_one, encode_rune_ok; [lia|done].
  - cbn [fst]. apply runes_one. cbn in He |- *. repeat case_match; done.
Qed.

Lemma unquote_runes l : Forall rune_chunk l -> forall k, runes (unquote k l).
Proof.
  induction 1 as [|c l Hc Hl IH]; intros k; [apply runes_nil|]. cbn [unquote]. destruct k as [|k]; [|apply IH].
  destruct c as [b|]; [|apply runes_app; [by apply runes_one | apply IH]].
  case_decide; [|by apply runes_app; [apply runes_one | apply IH]].
  pose proof (unescape_runes l Hl) as Hu. destruct (unescape l) as [out k]. by apply runes_app; [|apply IH].
Qed.

Lemma scan_string_bytes s : forall b r, scan_string s = Some (b, r) -> bytes_ok s -> bytes_ok b /\ bytes_ok r.
Proof.
  remember (length s) as n eqn:En. revert s En. induction (lt_wf n) as [n _ IH]. intros s -> b r E Hs.
  assert (forall pre t, s = pre ++ t -> pre <> [] -> ('(b, r) ← scan_string t; Some (pre ++ b, r)) = Some (b, r) ->
    bytes_ok b /\ bytes_ok r) as Rec.
  { intros pre t -> Hp E'. destruct (scan_string t) as [[b' r']|] eqn:Et; [|done]. injection E' as <- <-.
    apply Forall_app in Hs as [Hp' Ht].
    destruct (IH (length t)) with (s := t) (b := b') (r := r') as [? ?]; [|done..|].
    - rewrite length_app. destruct pre; [done|]. cbn. lia.
    - split; [by apply Forall_app_2 | done]. }
  destruct s as [|c s1]; [done|]. cbn [scan_string] in E.
  destruct (c =? quote_byte); [injection E as <- <-; split; [constructor | by inversion Hs]|].
  destruct (c =? backslash).
  - destruct s1 as [|e s2]; [done|]. destruct (simple_escape e); [by apply (Rec [c; e] s2)|].
    destruct (e =? 117); [|done]. destruct s2 as [|w [|x [|y [|z s3]]]]; try done.
    destruct (is_hex w && _ && _ && _); [|done]. by apply (Rec [c; e; w; x; y; z] s3).
  - destruct (c <? 32); [done|]. by apply (Rec [c] s1).
Qed.

Lemma parse_string_ok s x r : parse_string s = Some (x, r) -> bytes_ok s -> string_ok x /\ bytes_ok r.
Proof.
  unfold parse_string. destruct (scan_string s) as [[b r']|] eqn:E; [|done]. intros [= <- <-] Hs.
  apply scan_string_bytes in E as [Hb Hr]; [|done]. split; [|done]. by apply runes_ok, unquote_runes, chunks_rune.
Qed.

(** Numbers. *)
Definition stops (t : bytes) : Prop := match t with [] => True | c :: _ => is_digit c = false end.

Lemma digits_spec s d r : digits s = (d, r) -> s = d ++ r /\ forall t, stops t -> digits (d ++ t) = (d, t).
Proof.
  revert d r. induction s as [|c s IH]; intros d r; cbn [digits].
  - intros [= <- <-]. split; [done|]. intros t Ht. cbn. destruct t as [|x t]; [done|]. cbn in *. by rewrite Ht.
  - destruct (is_digit c) eqn:Ec.
    + destruct (digits s) as [d' r'] eqn:E. intros [= <- <-]. destruct (IH d' r' eq_refl) as [-> H].
      split; [done|]. intros t Ht. cbn [app digits]. by rewrite Ec, H.
    + intros [= <- <-]. split; [done|]. intros t Ht. cbn. destruct t as [|x t]; [done|]. cbn in *. by rewrite Ht.
Qed.

Lemma digits1_spec s d r : digits1 s = Some (d, r) -> s = d ++ r /\ forall t, stops t -> digits1 (d ++ t) = Some (d, t).
Proof.
  unfold digits1. destruct (digits s) as [d' r'] eqn:E. apply digits_spec in E as [-> H].
  destruct d' as [|x d']; [done|]. intros [= <- <-]. split; [done|]. intros t Ht. by rewrite H.
Qed.

Lemma num_int_spec s i r : num_int s = Some (i, r) -> s = i ++ r /\ forall t, stops t -> num_int (i ++ t) = Some (i, t).
Proof.
  unfold num_int. destruct s as [|c s]; [done|]. destruct (c =? 48) eqn:Ec.
  - intros [= <- <-]. split; [done|]. intros t _. cbn [app]. by rewrite Ec.
  - intros E. destruct (digits1_spec _ _ _ E) as [E' H]. split; [done|]. intros t Ht.
    destruct i as [|x i]; [exfalso; unfold digits1 in E; destruct (digits (c :: s)) as [[] ?]; done|].
    injection E' as -> _. cbn [app]. rewrite Ec. apply (H t Ht).
Qed.

(** What can stand after the integer part, and after the fraction. *)
Definition after_int (t : bytes) : Prop := match t with [] => True | c :: _ => c = 46 \/ c = 101 \/ c = 69 end.
Definition after_frac (t : bytes) : Prop := match t with [] => True | c :: _ => c = 101 \/ c = 69 end.

Lemma num_frac_spec s f r : num_frac s = Some (f, r) ->
  s = f ++ r /\ (f = [] \/ exists f', f = 46 :: f') /\ forall t, after_frac t -> num_frac (f ++ t) = Some (f, t).
Proof.
  assert (forall t, after_frac t -> num_frac t = Some ([], t)) as H0.
  { intros [|x t]; [done|]. cbn. intros Hx. by replace (x =? 46) with false by lia. }
  unfold num_frac at 1. destruct s as [|c s]; [intros [= <- <-]; split_and!; eauto|].
  destruct (Z.eqb_spec c 46) as [->|]; [|intros [= <- <-]; split_and!; eauto].
  destruct (digits1 s) as [[d r']|] eqn:E; [|done]. intros [= <- <-]. apply digits1_spec in E as [-> H].
  split_and!; [done | eauto |]. intros t Ht. cbn [app num_frac]. change (46 =? 46) with true. cbn iota.
  rewrite H; [done|]. destruct t as [|x t]; [done|]. cbn in *. unfold is_digit, between. lia.
Qed.

Lemma num_exp_spec s e r : num_exp s = Some (e, r) -> s = e ++ r /\ after_frac e /\ num_exp e = Some (e, []).
Proof.
  unfold num_exp at 1. destruct s as [|c s]; [by intros [= <- <-]|].
  destruct ((c =? 101) || (c =? 69)) eqn:Ec; [|by intros [= <- <-]]. destruct s as [|g s]; [done|].
  assert (after_frac (c :: g :: s)) as Ha by (cbn; lia).
  destruct ((g =? 43) || (g =? 45)) eqn:Eg.
  - destruct (digits1 s) as [[d r']|] eqn:E; [|done]. intros [= <- <-]. apply digits1_spec in E as [-> H].
    split_and!; [done..|]. unfold num_exp. rewrite Ec, Eg. specialize (H [] I). rewrite app_nil_r in H. by rewrite H.
  - destruct (digits1 (g :: s)) as [[d r']|] eqn:E; [|done]. intros [= <- <-].
    assert (exists d', d = g :: d') as [d' ->].
    { unfold digits1 in E. destruct (digits (g :: s)) as [[|x d0] r0] eqn:Ed; [done|]. injection E as <- <-.
      apply digits_spec in Ed as [[= <- _] _]. eauto. }
    apply digits1_spec in E as [E' H]. split_and!; [by rewrite E' | done |].
    unfold num_exp. rewrite Ec, Eg. specialize (H [] I). rewrite app_nil_r in H. by rewrite H.
Qed.

Lemma number_lit s lit r : number s = Some (lit, r) -> s = lit ++ r /\ num_ok lit.
Proof.
  unfold number.
  assert (forall sg s0, (sg = [] /\ match s0 with c :: _ => c <> 45 | [] => True end) \/ sg = [45] ->
    (('(i, s) ← num_int s0; '(f, s) ← num_frac s; '(e, s) ← num_exp s; Some (sg ++ i ++ f ++ e, s)) : option (bytes * bytes)) = Some (lit, r) ->
    sg ++ s0 = lit ++ r /\ num_ok lit) as Go.
  { intros sg s0 Hsg. destruct (num_int s0) as [[i s1]|] eqn:E1; [|done]. cbn [mbind option_bind].
    destruct (num_frac s1) as [[f s2]|] eqn:E2; [|done]. cbn [mbind option_bind].
    destruct (num_exp s2) as [[e s3]|] eqn:E3; [|done]. cbn [mbind option_bind]. intros [= <- <-].
    apply num_int_spec in E1 as [-> H1]. apply num_frac_spec in E2 as (-> & Hf & H2). apply num_exp_spec in E3 as (-> & He & H3).
    split; [by rewrite <- !app_assoc|]. unfold num_ok, number.
    assert (num_int (i ++ f ++ e) = Some (i, f ++ e)) as Hi.
    { apply H1. destruct Hf as [->|[f' ->]]; [|done]. destruct e as [|x e]; [done|]. cbn in *. unfold is_digit, between. lia. }
    destruct Hsg as [[-> Hc]| ->].
    - assert (exists x y, i ++ f ++ e = x :: y /\ x <> 45) as (x & y & Ex & Hx).
      { destruct i as [|x i]; [exfalso|exists x, (i ++ f ++ e); split; [done|]; done].
        specialize (H1 [] I). done. }
      cbn [app]. rewrite Ex in Hi |- *. rewrite (proj2 (Z.eqb_neq x 45)) by done. rewrite Hi. cbn [mbind option_bind].
      rewrite H2 by done. cbn [mbind option_bind]. rewrite H3. cbn [mbind option_bind app]. by rewrite <- Ex.
    - cbn [app]. change (45 =? 45) with true. cbn iota. rewrite Hi. cbn [mbind option_bind].
      rewrite H2 by done. cbn [mbind option_bind]. rewrite H3. done. }
  destruct s as [|c s]; [apply (Go [] []); auto|]. destruct (Z.eqb_spec c 45) as [->|].
  - apply (Go [45] s); auto.
  - apply (Go [] (c :: s)); auto.
Qed.

Lemma skip_ws_bytes s : bytes_ok s -> bytes_ok (skip_ws s).
Proof. induction 1 as [|c s Hc Hs IH]; cbn [skip_ws]; [constructor|]. destruct (ws c); [done | by constructor]. Qed.

Lemma closes_bytes x s r : closes x s = Some r -> bytes_ok s -> bytes_ok r.
Proof.
  unfold closes. intros E Hs%skip_ws_bytes. destruct (skip_ws s) as [|c t]; [done|]. destruct (c =? x); [|done].
  injection E as <-. by inversion Hs.
Qed.

Lemma next_bytes x s m r : next x s = Some (m, r) -> bytes_ok s -> bytes_ok r.
Proof.
  unfold next. intros E Hs%skip_ws_bytes. destruct (skip_ws s) as [|c t]; [done|].
  assert (bytes_ok t) by (by inversion Hs). destruct (c =? x); [by injection E as <- <-|]. destruct (c =? 44); [|done].
  by injection E as <- <-.
Qed.

Lemma parse_key_ok s k r : parse_key s = Some (k, r) -> bytes_ok s -> string_ok k /\ bytes_ok r.
Proof.
  unfold parse_key. intros E Hs%skip_ws_bytes. destruct (skip_ws s) as [|c t]; [done|].
  assert (bytes_ok t) as Ht by (by inversion Hs). destruct (c =? quote_byte); [|done].
  destruct (parse_string t) as [[x u]|] eqn:Ep; [|done]. apply parse_string_ok in Ep as [Hx Hu]; [|done]. cbn in E.
  destruct (closes 58 u) as [v|] eqn:Ec; [|done]. injection E as <- <-. split; [done|]. by eapply closes_bytes.
Qed.

Lemma scalar_ok c s d j r : scalar c s = Some (j, r) -> bytes_ok s -> json_ok d j /\ bytes_ok r.
Proof.
  intros E Hs. unfold scalar in E.
  assert (forall lit v, literal lit v s = Some (j, r) -> j = v /\ bytes_ok r) as Hl.
  { unfold literal. intros lit v. destruct (Strings.HasPrefix s lit); [|done]. intros [= <- <-].
    split; [done | by apply Forall_drop]. }
  destruct (c =? quote_byte).
  { destruct (parse_string (tail s)) as [[x u]|] eqn:Ep; [|done]. injection E as <- <-.
    apply parse_string_ok in Ep as [Hx Hu]; [|by destruct s; [|inversion Hs]]. split; [by constructor | done]. }
  destruct (c =? 110); [apply Hl in E as [-> ?]; split; [constructor|done]|].
  destruct (c =? 116); [apply Hl in E as [-> ?]; split; [constructor|done]|].
  destruct (c =? 102); [apply Hl in E as [-> ?]; split; [constructor|done]|].
  destruct (number s) as [[lit u]|] eqn:En; [|done]. injection E as <- <-. apply number_lit in En as [-> Hn].
  apply Forall_app in Hs as [_ Hu]. split; [by constructor | done].
Qed.

Lemma parse_ok n :
  (forall d s j r, parse_value n d s = Some (j, r) -> bytes_ok s -> json_ok d j /\ bytes_ok r) /\
  (forall d s l r, parse_elems n d s = Some (l, r) -> bytes_ok s -> Forall (json_ok d) l /\ bytes_ok r) /\
  (forall d s l r, parse_members n d s = Some (l, r) -> bytes_ok s ->
     Forall (fun kv => string_ok (fst kv) /\ json_ok d (snd kv)) l /\ bytes_ok r).
Proof.
  induction n as [|n (IHv & IHe & IHm)]; [done|]. split_and!.
  - intros d s j r E Hs%skip_ws_bytes. cbn [parse_value] in E. destruct (skip_ws s) as [|c t]; [done|].
    assert (bytes_ok t) as Ht by (by inversion Hs).
    destruct (c =? 91); [|destruct (c =? 123)].
    + destruct (Z.leb_spec d 0); [done|]. destruct (closes 93 t) as [u|] eqn:Ec.
      { injection E as <- <-. split; [by constructor | by eapply closes_bytes]. }
      destruct (parse_elems n (d - 1) t) as [[l u]|] eqn:El; [|done]. injection E as <- <-.
      apply IHe in El as [? ?]; [|done]. split; [by constructor | done].
    + destruct (Z.leb_spec d 0); [done|]. destruct (closes 125 t) as [u|] eqn:Ec.
      { injection E as <- <-. split; [by constructor | by eapply closes_bytes]. }
      destruct (parse_members n (d - 1) t) as [[l u]|] eqn:El; [|done]. injection E as <- <-.
      apply IHm in El as [? ?]; [|done]. split; [by constructor | done].
    + by eapply scalar_ok.
  - intros d s l r E Hs. cbn [parse_elems] in E. destruct (parse_value n d s) as [[v t]|] eqn:Ev; [|done].
    apply IHv in Ev as [Hv Ht]; [|done]. cbn [mbind option_bind] in E. destruct (next 93 t) as [[m u]|] eqn:En; [|done].
    apply next_bytes in En; [|done]. cbn [mbind option_bind] in E. destruct m; [|injection E as <- <-; by repeat constructor].
    destruct (parse_elems n d u) as [[l' u']|] eqn:El; [|done]. injection E as <- <-. apply IHe in El as [? ?]; [|done].
    split; [by constructor | done].
  - intros d s l r E Hs. cbn [parse_members] in E. destruct (parse_key s) as [[k t]|] eqn:Ek; [|done].
    apply parse_key_ok in Ek as [Hk Ht]; [|done]. cbn [mbind option_bind] in E.
    destruct (parse_value n d t) as [[v t']|] eqn:Ev; [|done]. apply IHv in Ev as [Hv Ht']; [|done].
    cbn [mbind option_bind] in E. destruct (next 125 t') as [[m u]|] eqn:En; [|done].
    apply next_bytes in En; [|done]. cbn [mbind option_bind] in E. destruct m; [|injection E as <- <-; split; [constructor; [done|constructor] | done]].
    destruct (parse_members n d u) as [[l' u']|] eqn:El; [|done]. injection E as <- <-. apply IHm in El as [? ?]; [|done].
    split; [by constructor | done].
Qed.

(** Whatever the bytes, a text that parses gives a well-formed value. *)
Lemma Parse_ok data j : bytes_ok data -> Parse data = Some j -> json_ok maxNestingDepth j.
Proof.
  intros Hd. unfold Parse. destruct (parse_value _ _ _) as [[v r]|] eqn:E; [|done]. cbn [mbind option_bind].
  destruct (skip_ws r); [|done]. intros [= <-]. by apply (proj1 (parse_ok _)) in E as [? _].
Qed.

(** ** Integers come back *)

Definition dec (d : Decimal.uint) : gostring := bs (DecimalString.NilEmpty.string_of_uint d).
Lemma dec_digits d : Forall (fun c => is_digit c = true) (dec d).
Proof. induction d; constructor; done. Qed.
Ltac dec_step d :=
  first [ progress change (dec (Decimal.D0 d)) with (48 :: dec d) | progress change (dec (Decimal.D1 d)) with (49 :: dec d)
  | progress change (dec (Decimal.D2 d)) with (50 :: dec d) | progress change (dec (Decimal.D3 d)) with (51 :: dec d)
  | progress change (dec (Decimal.D4 d)) with (52 :: dec d) | progress change (dec (Decimal.D5 d)) with (53 :: dec d)
  | progress change (dec (Decimal.D6 d)) with (54 :: dec d) | progress change (dec (Decimal.D7 d)) with (55 :: dec d)
  | progress change (dec (Decimal.D8 d)) with (56 :: dec d) | progress change (dec (Decimal.D9 d)) with (57 :: dec d) ].
Lemma atoi_cons c s n : is_digit c = true -> atoi_digits (c :: s) n = atoi_digits s (n * 10 + (c - 48)).
Proof. intros H. cbn [atoi_digits]. unfold is_digit, between in H. by rewrite H. Qed.
Lemma dec_acc d : forall acc, atoi_digits (dec d) (Z.pos acc) = Some (Z.pos (Pos.of_uint_acc d acc)).
Proof.
  induction d as [|d IH|d IH|d IH|d IH|d IH|d IH|d IH|d IH|d IH|d IH]; intros acc; [done|..];
    cbn [Pos.of_uint_acc]; rewrite <- IH; dec_step d; rewrite atoi_cons by done; f_equal; lia.
Qed.

(** The digits of a positive number: no leading zero, and Atoi's loop reads them back. *)
Lemma dec_pos p : exists c s, dec (Pos.to_uint p) = c :: s /\ c <> 48 /\ atoi_digits (c :: s) 0 = Some (Z.pos p).
Proof.
  pose proof (DecimalN.Unsigned.to_of (Pos.to_uint p)) as Hn.
  pose proof (DecimalPos.Unsigned.of_to p) as Hp.
  change (N.of_uint (Pos.to_uint p)) with (Pos.of_uint (Pos.to_uint p)) in Hn. rewrite Hp in Hn.
  change (N.to_uint (N.pos p)) with (Pos.to_uint p) in Hn.
  destruct (Pos.to_uint p) as [|d|d|d|d|d|d|d|d|d|d] eqn:E; [by apply DecimalPos.Unsigned.to_uint_nonnil in E| |..].
  { exfalso. unfold Decimal.unorm in Hn. cbn [Decimal.nzhead] in Hn. destruct (Decimal.nzhead d) eqn:Ez; try done.
    - injection Hn as ->. done.
    - by apply DecimalFacts.nzhead_nonzero in Ez. }
  all: cbn [Pos.of_uint] in Hp; injection Hp as Hp; do 2 eexists; (split; [dec_step d; reflexivity|]);
    (split; [done|]); rewrite atoi_cons by done; rewrite <- Hp, <- dec_acc; done.
Qed.

Lemma dec_itoa z : Strconv.itoa z =
  match z with Z0 => [48] | Zpos p => dec (Pos.to_uint p) | Zneg p => 45 :: dec (Pos.to_uint p) end.
Proof.
  assert (forall d, d <> Decimal.Nil -> DecimalString.NilZero.string_of_uint d = DecimalString.NilEmpty.string_of_uint d) as Hz by (by intros []).
  destruct z as [|p|p]; [done|..]; unfold Strconv.itoa, dec; cbn [Z.to_int DecimalString.NilZero.string_of_int];
    rewrite Hz by apply DecimalPos.Unsigned.to_uint_nonnil; done.
Qed.

Lemma digits_all s : Forall (fun c => is_digit c = true) s -> digits s = (s, []).
Proof. induction 1 as [|c s Hc _ IH]; [done|]. cbn [digits]. by rewrite Hc, IH. Qed.

Lemma num_ok_digits c s sg : c <> 48 -> Forall (fun c => is_digit c = true) (c :: s) ->
  sg = [] \/ sg = [45] -> num_ok (sg ++ c :: s).
Proof.
  intros Hc H Hs. assert (is_digit c = true) by (by inversion H).
  assert (num_int (c :: s) = Some (c :: s, [])) as E.
  { unfold num_int. rewrite (proj2 (Z.eqb_neq c 48)) by done. unfold digits1. by rewrite digits_all. }
  unfold num_ok, number. destruct Hs as [-> | ->]; cbn [app].
  - replace (c =? 45) with false by bytewise. rewrite E. cbn. by rewrite app_nil_r.
  - change (45 =? 45) with true. cbn iota. rewrite E. cbn. by rewrite app_nil_r.
Qed.

Lemma itoa_num_ok z : num_ok (Strconv.itoa z).
Proof.
  rewrite dec_itoa. destruct z as [|p|p]; [done|..]; pose proof (dec_digits (Pos.to_uint p)) as Hd;
    destruct (dec_pos p) as (c & s & E & Hc & _); rewrite E in *.
  - apply (num_ok_digits c s []); auto.
  - apply (num_ok_digits c s [45]); auto.
Qed.

Lemma Atoi_itoa z : - 2 ^ 63 <= z < 2 ^ 63 -> Atoi (Strconv.itoa z) = Some z.
Proof.
  intros Hz. rewrite dec_itoa. destruct z as [|p|p]; [done|..];
    pose proof (dec_digits (Pos.to_uint p)) as Hd; destruct (dec_pos p) as (c & s & E & Hc & Ha); rewrite E in *.
  - unfold Atoi. assert (is_digit c = true) by (by inversion Hd).
    assert ((match c :: s with 45 :: ds => (-1, ds) | 43 :: ds => (1, ds) | _ => (1, c :: s) end) = (1, c :: s)) as ->.
    { destruct (decide (c = 45)) as [->|]; [done|]. destruct (decide (c = 43)) as [->|]; [done|].
      destruct c as [|q|]; try done. by repeat (destruct q as [q|q|]; try done). }
    cbn iota. rewrite decide_False by done. rewrite Ha. cbn [mbind option_bind].
    rewrite Z.mul_1_l, !bool_decide_eq_true_2 by lia. done.
  - unfold Atoi. rewrite decide_False by done. rewrite Ha. cbn [mbind option_bind].
    rewrite !bool_decide_eq_true_2 by lia. done.
Qed.

(** ** Structs, slices and maps *)

(** [foldName]: keys are compared in upper case; U+017F and U+212A fold to S and K. *)
Fixpoint fold_name (s : gostring) : gostring :=
  match s with
  | [] => []
  | a :: s1 =>
      if a <? 128 then Strings.upper_byte a :: fold_name s1
      else match s1 with
           | b :: s2 =>
               if (a =? 197) && (b =? 191) then 83 :: fold_name s2
               else match s2 with
                    | c :: s3 => if (a =? 226) && (b =? 132) && (c =? 170) then 75 :: fold_name s3 else a :: fold_name s1
                    | [] => a :: fold_name s1
                    end
           | [] => a :: fold_name s1
           end
  end.

Abbreviation names l := (bs <$> (l : list string)).
(** The field of a struct with these field names that a key selects. *)
Definition selects (names : list gostring) (key : gostring) : option gostring :=
  match List.find (fun n => bool_decide (n = key)) names with
  | Some n => Some n
  | None => List.find (fun n => bool_decide (fold_name n = fold_name key)) names
  end.
(** Decoding of the members of an object into one field, which holds [a]. *)
Fixpoint pick {A} (names : list gostring) (name : string) (dec : json -> A -> option A) (a : A) (kvs : list (gostring * json)) : option A :=
  match kvs with
  | [] => Some a
  | (k, v) :: kvs =>
      if bool_decide (selects names k = Some (bs name)) then a ← dec v a; pick names name dec a kvs
      else pick names name dec a kvs
  end.
(** A struct, decoded field by field. *)
Definition dec_struct {S} (dec : list (gostring * json) -> S -> option S) (j : json) (s : S) : option S :=
  match j with JNull => Some s | JObj kvs => dec kvs s | _ => None end.

Definition dec_str (j : json) (old : gostring) : option gostring :=
  match j with JNull => Some old | JStr s => Some s | _ => None end.
Definition dec_bool (j : json) (old : bool) : option bool :=
  match j with JNull => Some old | JBool b => Some b | _ => None end.
Definition dec_int64 (j : json) (old : Z) : option Z :=
  match j with JNull => Some old | JNum lit => Atoi lit | _ => None end.
(** A pointer to a bool. *)
Definition dec_pbool (j : json) (old : option bool) : option (option bool) :=
  match j with JNull => Some None | JBool b => Some (Some b) | _ => None end.
(** A slice; [None] is nil. *)
Fixpoint dec_elems {A} (dec : json -> A -> option A) (zero : A) (old : list A) (l : list json) : option (list A) :=
  match l with
  | [] => Some []
  | j :: l => a ← dec j (default zero (head old)); r ← dec_elems dec zero (tail old) l; Some (a :: r)
  end.
Definition dec_slice {A} (dec : json -> A -> option A) (zero : A) (j : json) (old : option (list A)) : option (option (list A)) :=
  match j with
  | JNull => Some None
  | JArr l => Some <$> dec_elems dec zero (default [] old) l
  | _ => None
  end.
(** A slice that is nil when it is empty. *)
Definition dec_list {A} (dec : json -> A -> option A) (zero : A) (j : json) (old : list A) : option (list A) :=
  default [] <$> dec_slice dec zero j (Some old).
(** A map with string keys; a nil map is an empty one. *)
Fixpoint dec_entries {A} (dec : json -> A -> option A) (zero : A) (kvs : list (gostring * json)) (m : gmap gostring A) :
    option (gmap gostring A) :=
  match kvs with
  | [] => Some m
  | (k, v) :: kvs => a ← dec v zero; dec_entries dec zero kvs (<[k := a]> m)
  end.
Definition dec_map {A} (dec : json -> A -> option A) (zero : A) (j : json) (old : gmap gostring A) : option (gmap gostring A) :=
  match j with JNull => Some ∅ | JObj kvs => dec_entries dec zero kvs old | _ => None end.

Definition enc_int64 (z : Z) : json := JNum (Strconv.itoa z).
Definition enc_slice {A} (enc : A -> json) (l : option (list A)) : json :=
  match l with None => JNull | Some l => JArr (enc <$> l) end.
(** A map is printed with its keys sorted. *)
Definition key_le {A} (x y : gostring * A) : Prop := Strings.le (fst x) (fst y) = true.
#[export] Instance key_le_dec {A} (x y : gostring * A) : Decision (key_le x y).
Proof. unfold key_le. apply _. Defined.
Definition sorted_entries {A} (m : gmap gostring A) : list (gostring * A) := merge_sort key_le (map_to_list m).
Definition enc_map {A} (enc : A -> json) (m : gmap gostring A) : json :=
  JObj ((fun kv => (fst kv, enc (snd kv))) <$> sorted_entries m).

(** One member of a struct; an omitempty field is left out when it is empty. *)
Definition field (name : string) (v : json) : list (gostring * json) := [(bs name, v)].
Definition omitempty (empty : bool) (name : string) (v : json) : list (gostring * json) :=
  if empty then [] else field name v.

(** [json.Unmarshal] into a value of decoder [dec] that holds [zero]; [Decode] of a decoder
    reads the first value of its input. *)
Definition Unmarshal {A} (dec : json -> A -> option A) (zero : A) (data : bytes) : option A :=
  j ← Parse data; dec j zero.
Definition Decode {A} (dec : json -> A -> option A) (zero : A) (data : bytes) : option A :=
  '(j, _) ← parse_value (S (2 * length data)) maxNestingDepth data; dec j zero.

(** [Decode] behind [http.MaxBytesReader]: the value must end within the first [limit] bytes. *)
Definition DecodeLimited {A} (limit : Z) (dec : json -> A -> option A) (zero : A) (data : bytes) : option A :=
  '(j, rest) ← parse_value (S (2 * length data)) maxNestingDepth data;
  if lenZ data - lenZ rest <=? limit then dec j zero else None.

(** *** float64 *)

Definition finite (f : Float.float64) : bool :=
  valid_binary 53 1024 f && match f with S754_zero _ | S754_finite _ _ _ => true | _ => false end.

(** strconv's conversions of a float64, as encoding/json uses them. *)
Class FloatText := {
  float_text : Float.float64 -> gostring;
  parse_float : gostring -> option Float.float64;
  float_text_ok : forall f, finite f = true -> num_ok (float_text f);
  parse_float_text : forall f, finite f = true -> parse_float (float_text f) = Some f;
  parse_float_valid : forall s f, parse_float s = Some f -> Float.fvalid f }.

Definition dec_float {FT : FloatText} (j : json) (old : Float.float64) : option Float.float64 :=
  match j with JNull => Some old | JNum lit => parse_float lit | _ => None end.

(** *** Round trips *)

Lemma Unmarshal_printed {A} (dec : json -> A -> option A) zero j :
  json_ok maxNestingDepth j -> Unmarshal dec zero (Marshal j) = dec j zero.
Proof. intros H. unfold Unmarshal. by rewrite Unmarshal_Marshal. Qed.

Lemma Decode_line {A} (dec : json -> A -> option A) zero j :
  json_ok maxNestingDepth j -> Decode dec zero (Marshal j ++ [10]) = dec j zero.
Proof. intros H. unfold Decode. by rewrite parse_line. Qed.

Lemma DecodeLimited_printed {A} limit (dec : json -> A -> option A) zero j :
  json_ok maxNestingDepth j ->
  DecodeLimited limit dec zero (Marshal j) = if lenZ (Marshal j) <=? limit then dec j zero else None.
Proof.
  intros H. unfold DecodeLimited. pose proof (weight_length _ _ H). rewrite <- (app_nil_r (Marshal j)) at 2.
  rewrite value_back by (done || lia). cbn [mbind option_bind length]. by rewrite Z.sub_0_r.
Qed.

Lemma dec_elems_enc {A} (dec : json -> A -> option A) (enc : A -> json) (zero : A) l :
  Forall (fun a => dec (enc a) zero = Some a) l -> dec_elems dec zero [] (enc <$> l) = Some l.
Proof. induction 1 as [|a l Ha _ IH]; [done|]. cbn [fmap list_fmap dec_elems head tail default]. rewrite Ha. cbn. by rewrite IH. Qed.

Lemma dec_slice_arr {A} (dec : json -> A -> option A) zero l old :
  dec_slice dec zero (JArr l) (Some old) = Some <$> dec_elems dec zero old l.
Proof. reflexivity. Qed.

Lemma dec_slice_enc {A} (dec : json -> A -> option A) (enc : A -> json) (zero : A) l :
  Forall (fun a => dec (enc a) zero = Some a) (default [] l) -> dec_slice dec zero (enc_slice enc l) None = Some l.
Proof. intros H. destruct l as [l|]; [|done]. cbn [enc_slice dec_slice default]. by rewrite dec_elems_enc. Qed.

(** A slice, decoded into an empty one. *)
Lemma dec_list_fmap {A B} (dec : json -> A -> option A) (enc : B -> json) (f : B -> A) zero l :
  Forall (fun b => dec (enc b) zero = Some (f b)) l -> dec_list dec zero (JArr (enc <$> l)) [] = Some (f <$> l).
Proof.
  intros H. unfold dec_list. rewrite dec_slice_arr. rewrite <- option_fmap_compose.
  enough (dec_elems dec zero [] (enc <$> l) = Some (f <$> l)) as -> by done.
  induction H as [|b l Hb _ IH]; [done|]. cbn [fmap list_fmap dec_elems head tail from_option]. rewrite Hb. cbn [mbind option_bind].
  by rewrite IH.
Qed.
Lemma dec_strings l : dec_list dec_str [] (JArr (JStr <$> l)) [] = Some l.
Proof. rewrite (dec_list_fmap _ _ id) by (by apply Forall_true). by rewrite list_fmap_id. Qed.
Lemma sorted_entries_perm {A} (m : gmap gostring A) : sorted_entries m ≡ₚ map_to_list m.
Proof. apply merge_sort_Permutation. Qed.

Lemma dec_entries_list {A} (dec : json -> A -> option A) (enc : A -> json) (zero : A) (l : list (gostring * A)) m :
  Forall (fun kv => dec (enc (snd kv)) zero = Some (snd kv)) l ->
  dec_entries dec zero ((fun kv => (fst kv, enc (snd kv))) <$> l) m = Some (foldl (fun m kv => <[fst kv := snd kv]> m) m l).
Proof.
  intros H. revert m. induction H as [|[k a] l Ha _ IH]; intros m; [done|]. cbn [fmap list_fmap dec_entries fst snd].
  cbn [snd] in Ha. rewrite Ha. cbn. apply IH.
Qed.

Lemma foldl_insert {A} (l : list (gostring * A)) (m : gmap gostring A) : NoDup l.*1 ->
  foldl (fun m kv => <[fst kv := snd kv]> m) m l = list_to_map l ∪ m.
Proof.
  revert m. induction l as [|[k a] l IH]; intros m; cbn [foldl fmap list_fmap fst snd].
  - intros _. by rewrite list_to_map_nil, (left_id_L ∅ (∪)).
  - intros [Hk Hl]%NoDup_cons. rewrite IH by done.
    rewrite list_to_map_cons, <- insert_union_l. symmetry. apply insert_union_r. by apply not_elem_of_list_to_map_1.
Qed.

Lemma dec_map_enc {A} (dec : json -> A -> option A) (enc : A -> json) (zero : A) (m : gmap gostring A) :
  map_Forall (fun _ a => dec (enc a) zero = Some a) m -> dec_map dec zero (enc_map enc m) ∅ = Some m.
Proof.
  intros H. unfold dec_map, enc_map. rewrite dec_entries_list.
  - rewrite foldl_insert.
    + rewrite (right_id_L ∅ (∪)), (list_to_map_proper _ (map_to_list m)).
      * by rewrite list_to_map_to_list.
      * rewrite sorted_entries_perm. apply NoDup_fst_map_to_list.
      * apply sorted_entries_perm.
    + rewrite sorted_entries_perm. apply NoDup_fst_map_to_list.
  - rewrite sorted_entries_perm. apply map_Forall_to_list in H. eapply Forall_impl; [exact H|]. by intros [].
Qed.

Lemma ok_enc_slice {A} (d : Z) (enc : A -> json) l : 0 < d ->
  Forall (fun a => json_ok (d - 1) (enc a)) (default [] l) -> json_ok d (enc_slice enc l).
Proof. intros Hd H. destruct l as [l|]; [|constructor]. constructor; [done|]. by apply Forall_fmap. Qed.

Lemma ok_enc_map {A} (d : Z) (enc : A -> json) (m : gmap gostring A) : 0 < d ->
  map_Forall (fun k a => string_ok k /\ json_ok (d - 1) (enc a)) m -> json_ok d (enc_map enc m).
Proof.
  intros Hd H. constructor; [done|]. apply Forall_fmap. rewrite sorted_entries_perm.
  apply map_Forall_to_list in H. eapply Forall_impl; [exact H|]. by intros [].
Qed.

Definition int64_ok (z : Z) : Prop := - 2 ^ 63 <= z < 2 ^ 63.

Lemma dec_int64_enc z old : int64_ok z -> dec_int64 (enc_int64 z) old = Some z.
Proof. apply Atoi_itoa. Qed.

Lemma ok_int64 d z : json_ok d (enc_int64 z).
Proof. constructor. apply itoa_num_ok. Qed.

(** *** Printed structs are well-formed *)

#[export] Instance string_ok_dec s : Decision (string_ok s).
Proof. unfold string_ok. apply _. Defined.

Definition member_ok (d : Z) (kv : gostring * json) : Prop := string_ok (fst kv) /\ json_ok (d - 1) (snd kv).

Lemma ok_members d l : 0 < d -> Forall (member_ok d) l -> json_ok d (JObj l).
Proof. intros Hd H. by constructor. Qed.
Lemma ok_field d name v : string_ok (bs name) -> json_ok (d - 1) v -> Forall (member_ok d) (field name v).
Proof. intros. unfold field. constructor; [done|constructor]. Qed.
Lemma ok_omitempty d e name v : string_ok (bs name) -> (e = false -> json_ok (d - 1) v) -> Forall (member_ok d) (omitempty e name v).
Proof. intros Hn Hv. unfold omitempty. destruct e; [constructor|]. apply ok_field; auto. Qed.
Lemma ok_elems {A} d (enc : A -> json) l : 0 < d -> Forall (fun a => json_ok (d - 1) (enc a)) l -> json_ok d (JArr (enc <$> l)).
Proof. intros Hd H. constructor; [done|]. by apply Forall_fmap. Qed.

(** Decoding a printed struct: a field skips the members of the others. *)
Section pick.
Context {A : Type} (names : list gostring) (name : string) (dec : json -> A -> option A).

Lemma pick_nil a : pick names name dec a [] = Some a.
Proof. done. Qed.
Lemma pick_hit k v rest a x : selects names (bs k) = Some (bs name) -> dec v a = Some x ->
  pick names name dec a (field k v ++ rest) = pick names name dec x rest.
Proof. intros H E. cbn [field app pick]. rewrite bool_decide_eq_true_2 by done. by rewrite E. Qed.
Lemma pick_hit_omit e k v rest a x : selects names (bs k) = Some (bs name) ->
  (e = false -> dec v a = Some x) -> (e = true -> x = a) ->
  pick names name dec a (omitempty e k v ++ rest) = pick names name dec x rest.
Proof. intros H E Z. unfold omitempty. destruct e; [by rewrite Z|]. apply pick_hit; auto. Qed.
Lemma pick_skip k v rest a : bool_decide (selects names (bs k) = Some (bs name)) = false ->
  pick names name dec a (field k v ++ rest) = pick names name dec a rest.
Proof. intros H. cbn [field app pick]. by rewrite H. Qed.
Lemma pick_skip_omit e k v rest a : bool_decide (selects names (bs k) = Some (bs name)) = false ->
  pick names name dec a (omitempty e k v ++ rest) = pick names name dec a rest.
Proof. intros H. unfold omitempty. destruct e; [done|]. by apply pick_skip. Qed.
End pick.

(** *** What is decoded from a well-formed value *)

Definition well_formed (j : json) : Prop := exists d, json_ok d j.

Lemma wf_arr l : well_formed (JArr l) -> Forall well_formed l.
Proof. intros (d & H). inversion H as [| | | |d' l' _ Hl|]; subst. eapply Forall_impl; [exact Hl|]. intros. by eexists. Qed.
Lemma wf_obj kvs : well_formed (JObj kvs) -> Forall (fun kv => string_ok kv.1 /\ well_formed kv.2) kvs.
Proof.
  intros (d & H). inversion H as [| | | | |d' l' _ Hl]; subst. eapply Forall_impl; [exact Hl|]. intros kv [? ?]. split; [done|by eexists].
Qed.

(** [P] holds of what [dec] makes of a well-formed value. *)
Definition decodes_to {A} (dec : json -> A -> option A) (P : A -> Prop) : Prop :=
  forall j a x, well_formed j -> P a -> dec j a = Some x -> P x.

Lemma pick_decodes {A} (P : A -> Prop) dec ns nm kvs : decodes_to dec P -> Forall (fun kv => string_ok kv.1 /\ well_formed kv.2) kvs ->
  forall a x, P a -> pick ns nm dec a kvs = Some x -> P x.
Proof.
  intros Hd H. induction H as [|[k v] kvs [_ Hv] _ IH]; intros a x Ha; cbn [pick]; [by intros [= <-]|].
  case_bool_decide; [|by apply IH]. destruct (dec v a) as [a'|] eqn:E; [|done]. cbn [mbind option_bind].
  apply IH. by eapply Hd.
Qed.

Lemma dec_str_ok : decodes_to dec_str string_ok.
Proof. intros j a x (d & Hj) Ha. destruct j; try done; [by intros [= <-]|]. intros [= <-]. by inversion Hj. Qed.

Lemma dec_elems_ok {A} (P : A -> Prop) dec zero l : decodes_to dec P -> P zero -> Forall well_formed l ->
  forall old x, Forall P old -> dec_elems dec zero old l = Some x -> Forall P x.
Proof.
  intros Hd Hz H. induction H as [|j l Hj _ IH]; intros old x Ho; cbn [dec_elems]; [by intros [= <-]|].
  destruct (dec j (default zero (head old))) as [a|] eqn:E; [|done]. cbn [mbind option_bind].
  destruct (dec_elems dec zero (tail old) l) as [r|] eqn:Er; [|done]. intros [= <-]. constructor.
  - apply Hd in E; [done..|]. by destruct Ho.
  - apply IH in Er; [done|]. by destruct Ho.
Qed.
Lemma dec_slice_ok {A} (P : A -> Prop) dec zero : decodes_to dec P -> P zero ->
  decodes_to (dec_slice dec zero) (fun l => Forall P (default [] l)).
Proof.
  intros Hd Hz j a x Hj Ha. destruct j; try done; [intros [= <-]; constructor|]. unfold dec_slice.
  destruct (dec_elems dec zero (default [] a) l) as [r|] eqn:E; [|done]. intros [= <-].
  by eapply dec_elems_ok in E; [|done..|by apply wf_arr|].
Qed.
Lemma dec_map_ok {A} (P : A -> Prop) dec zero : decodes_to dec P -> P zero ->
  decodes_to (dec_map dec zero) (fun m : gmap gostring A => map_Forall (fun k a => string_ok k /\ P a) m).
Proof.
  intros Hd Hz j a x Hj Ha. destruct j as [| | | | |kvs]; try done; [by intros [= <-]|]. cbn [dec_map].
  apply wf_obj in Hj. revert a Ha. induction Hj as [|[k v] kvs [Hk Hv] _ IH]; intros a Ha; cbn [dec_entries]; [by intros [= <-]|].
  destruct (dec v zero) as [y|] eqn:E; [|done]. cbn [mbind option_bind]. apply IH. apply map_Forall_insert_2; [|done].
  split; [done|]. by eapply Hd.
Qed.

(** A text for floats with these laws, on which the examples run: the mantissa and the
    binary exponent. *)
Definition sign_text (s : bool) : gostring := if s then [45] else [].
Definition toy_float_text (f : Float.float64) : gostring :=
  match f with
  | S754_finite s m e => sign_text s ++ Strconv.itoa (Z.pos m) ++ 101 :: Strconv.itoa e
  | S754_zero s => sign_text s ++ [48]
  | _ => [48]
  end.
Definition signed_digits (s : gostring) : option Z :=
  match s with c :: ds => if c =? 45 then Z.opp <$> atoi_digits ds 0 else atoi_digits s 0 | [] => None end.
Definition toy_parse_float (lit : gostring) : option Float.float64 :=
  let '(s, r) := match lit with c :: r => if c =? 45 then (true, r) else (false, lit) | [] => (false, []) end in
  if decide (r = [48]) then Some (S754_zero s)
  else match digits r with
       | (d, _ :: e) =>
           m ← atoi_digits d 0; e ← signed_digits e;
           match m with
           | Zpos m => if decide (Float.fvalid (S754_finite s m e)) then Some (S754_finite s m e) else None
           | _ => None
           end
       | _ => None
       end.

Lemma signed_digits_itoa e : signed_digits (Strconv.itoa e) = Some e.
Proof.
  rewrite dec_itoa. destruct e as [|p|p]; [done|..]; pose proof (dec_digits (Pos.to_uint p)) as Hd;
    destruct (dec_pos p) as (c & s & E & Hc & Ha); rewrite E in *.
  - unfold signed_digits. assert (is_digit c = true) by (by inversion Hd).
    by replace (c =? 45) with false by bytewise.
  - unfold signed_digits. change (45 =? 45) with true. cbn iota. by rewrite Ha.
Qed.

Lemma digits_stop a c r : Forall (fun c => is_digit c = true) a -> is_digit c = false -> digits (a ++ c :: r) = (a, c :: r).
Proof. intros H Hc. induction H as [|x a Hx _ IH]; cbn [app digits]; [by rewrite Hc | by rewrite Hx, IH]. Qed.

Lemma num_exp_itoa e : num_exp (101 :: Strconv.itoa e) = Some (101 :: Strconv.itoa e, []).
Proof.
  rewrite dec_itoa. destruct e as [|p|p]; [done|..]; pose proof (dec_digits (Pos.to_uint p)) as Hd;
    destruct (dec_pos p) as (c & s & E & Hc & _); rewrite E in *; unfold num_exp; change ((101 =? 101) || (101 =? 69)) with true;
    cbn iota.
  - assert (is_digit c = true) by (by inversion Hd). replace ((c =? 43) || (c =? 45)) with false by bytewise.
    unfold digits1. by rewrite digits_all.
  - change ((45 =? 43) || (45 =? 45)) with true. cbn iota. unfold digits1. by rewrite digits_all.
Qed.

Lemma toy_float_text_ok f : finite f = true -> num_ok (toy_float_text f).
Proof.
  intros [_ H]%andb_true_iff. destruct f as [s| | |s m e]; try done; clear H; cbn [toy_float_text]; [by destruct s|].
  rewrite dec_itoa. pose proof (dec_digits (Pos.to_uint m)) as Hd. destruct (dec_pos m) as (c & t & E & Hc & _).
  rewrite E in *. assert (is_digit c = true) by (by inversion Hd).
  assert (num_int ((c :: t) ++ 101 :: Strconv.itoa e) = Some (c :: t, 101 :: Strconv.itoa e)) as Hi.
  { unfold num_int. cbn [app]. rewrite (proj2 (Z.eqb_neq c 48)) by done. unfold digits1.
    change (c :: t ++ ?x) with ((c :: t) ++ x). by rewrite digits_stop. }
  unfold num_ok, number. destruct s; cbn [sign_text app] in *.
  - change (45 =? 45) with true. cbn iota. rewrite Hi. cbn [mbind option_bind]. unfold num_frac. change (101 =? 46) with false.
    cbn iota. cbn [mbind option_bind]. by rewrite num_exp_itoa.
  - replace (c =? 45) with false by bytewise. rewrite Hi. cbn [mbind option_bind]. unfold num_frac. change (101 =? 46) with false.
    cbn iota. cbn [mbind option_bind]. by rewrite num_exp_itoa.
Qed.

Lemma toy_parse_text f : finite f = true -> toy_parse_float (toy_float_text f) = Some f.
Proof.
  intros [Hv H0]%andb_true_iff. destruct f as [s| | |s m e]; try done; clear H0; cbn [toy_float_text]; [by destruct s|].
  rewrite dec_itoa. pose proof (dec_digits (Pos.to_uint m)) as Hd. destruct (dec_pos m) as (c & t & E & Hc & Ha).
  rewrite E in *. assert (is_digit c = true) by (by inversion Hd).
  assert (digits ((c :: t) ++ 101 :: Strconv.itoa e) = (c :: t, 101 :: Strconv.itoa e)) as Hi by (by apply digits_stop).
  assert ((c :: t) ++ 101 :: Strconv.itoa e <> [48]) as Hn by (by intros [= ->]).
  unfold toy_parse_float. destruct s; cbn [sign_text app] in *.
  - change (45 =? 45) with true. cbn iota. rewrite decide_False by done. rewrite Hi, Ha. cbn [mbind option_bind]. rewrite signed_digits_itoa. cbn [mbind option_bind]. by rewrite decide_True.
  - replace (c =? 45) with false by bytewise. rewrite decide_False by done. rewrite Hi, Ha. cbn [mbind option_bind]. rewrite signed_digits_itoa. cbn [mbind option_bind]. by rewrite decide_True.
Qed.

Lemma toy_parse_valid s f : toy_parse_float s = Some f -> Float.fvalid f.
Proof.
  unfold toy_parse_float. destruct (match s with c :: r => _ | [] => _ end) as [sg r]. case_decide; [by intros [= <-]|].
  destruct (digits r) as [d [|c e]]; [done|]. destruct (atoi_digits d 0) as [m|]; [|done]. cbn [mbind option_bind].
  destruct (signed_digits e) as [x|]; [|done]. cbn [mbind option_bind]. destruct m; [done| |done].
  case_decide; [|done]. by intros [= <-].
Qed.

#[export] Instance toy_floats : FloatText :=
  {| float_text := toy_float_text; parse_float := toy_parse_float; float_text_ok := toy_float_text_ok; parse_float_text := toy_parse_text;
     parse_float_valid := toy_parse_valid |}.

End Json.

(** A printed value is well-formed: descends through structs, slices and maps. *)
Ltac json_lit := apply (bool_decide_unpack _); vm_compute; exact I.
Ltac json_ok_step :=
  match goal with
  | |- Json.json_ok _ (Json.JObj _) => apply Json.ok_members; [lia|]
  | |- Json.json_ok _ (Json.JArr _) => apply Json.ok_elems; [lia|]
  | |- Json.json_ok _ (Json.enc_slice _ _) => apply Json.ok_enc_slice; [lia|]
  | |- Json.json_ok _ (Json.enc_map _ _) => apply Json.ok_enc_map; [lia|]
  | |- Json.json_ok _ (Json.enc_int64 _) => apply Json.ok_int64
  | |- Json.json_ok _ (Json.JStr _) => apply Json.ok_str
  | |- Json.json_ok _ (Json.JBool _) => apply Json.ok_bool
  | |- Forall (Json.member_ok _) [] => apply Forall_nil_2
  | |- Forall (Json.member_ok _) (_ ++ _) => apply Forall_app_2
  | |- Forall (Json.member_ok _) (Json.field _ _) => apply Json.ok_field; [json_lit|]
  | |- Forall (Json.member_ok _) (Json.omitempty _ _ _) => apply Json.ok_omitempty; [json_lit | intros ?]
  | |- Json.string_ok (bs _) => json_lit
  end.
Ltac json_ok_solve := repeat json_ok_step.

(** Evaluates the outermost [pick] over the members of a printed struct; [dec] shows what
    the member decodes to, [zero] that an omitted field was empty. *)
Ltac pick_skips :=
  repeat first
    [ rewrite Json.pick_skip by (vm_compute; reflexivity)
    | rewrite Json.pick_skip_omit by (vm_compute; reflexivity) ].
Ltac pick_one ns nm d a kvs dec zero :=
  let E := fresh "E" in
  eassert (Json.pick ns nm d a kvs = Some _) as E;
  [ pick_skips;
    first
      [ erewrite Json.pick_hit; [ | vm_compute; reflexivity | dec ]
      | erewrite Json.pick_hit_omit; [ | vm_compute; reflexivity | intros ?; dec | intros ?; zero ]
      | idtac ];
    pick_skips; reflexivity
  | rewrite E; clear E; cbn [mbind option_bind] ].
Ltac pick_step dec zero :=
  lazymatch goal with
  | |- mbind _ (Json.pick ?ns ?nm ?d ?a ?kvs) = _ => pick_one ns nm d a kvs dec zero
  | |- context [mbind _ (Json.pick ?ns ?nm ?d ?a ?kvs)] => pick_one ns nm d a kvs dec zero
  end.

(** One [pick] of a struct that decoded: the member it read and the rest. *)
Ltac peel_pick E :=
  lazymatch type of E with mbind _ (Json.pick ?ns ?nm ?d ?a ?kvs) = Some _ =>
    let x := fresh "x" in let Ex := fresh "Ex" in destruct (Json.pick ns nm d a kvs) as [x|] eqn:Ex; [|discriminate E];
    cbn [mbind option_bind] in E end.
