(* ===== verification/Binlog.v ===== *)
(** * binlog: the binary log-record framing (src/binlog/binlog.go)

    One record on the wire is
    [2B start magic][tag][uvarint length][payload][2B CRC16][2B end magic].
    The file holds the encoder, the resynchronising decoder and the CRC; the
    theorems show that the decoder terminates without a panic on every buffer,
    recovers records around damage, accepts nothing that is not framed with a
    valid CRC, and that the table-driven CRC is the bitwise one and detects
    every one-byte change. *)

From stdpp Require Import base list gmap strings fin_maps.
From Stdlib Require Import ZArith Lia.
From S2P Require Import Prelude GoLib.

Module Binlog.
Import Varint.

Definition TagGeneric : Z := 0.
Definition TagTunnel : Z := 1.
Definition TagSocks5 : Z := 2.
Definition TagBypass : Z := 3.
Definition TagWildcat : Z := 4.
Definition TagUpload : Z := 5.
Definition TagUpdate : Z := 6.
Definition TagSystem : Z := 7.
Definition TagControlDead : Z := 8.

Definition TagNames : list (Z * gostring) :=
  [(TagGeneric, bs "generic"); (TagTunnel, bs "tunnel"); (TagSocks5, bs "socks5");
   (TagBypass, bs "bypass"); (TagWildcat, bs "wildcat"); (TagUpload, bs "upload");
   (TagUpdate, bs "update"); (TagSystem, bs "system"); (TagControlDead, bs "control-dead")].

Definition startMagic : Z := 0xC5A7.
Definition endMagic : Z := 0x7A5C.
Definition minRecordLen : Z := 2 + 1 + 1 + 2 + 2.

Definition Header : bytes := bs "SNCB" ++ [1].

(** ** CRC-16/CCITT-FALSE *)

(** One round of the table generator's inner loop. *)
Definition crc_round (crc : Z) : Z :=
  if negb (Z.land crc 0x8000 =? 0) then Z.lxor (u16 (Z.shiftl crc 1)) 0x1021
  else u16 (Z.shiftl crc 1).

Definition crc16Table : list Z :=
  map (fun i => Nat.iter 8 crc_round (u16 (Z.shiftl (Z.of_nat i) 8))) (seq 0 256).

Definition crc16_update (crc b : Z) : Z :=
  Z.lxor (u16 (Z.shiftl crc 8))
         (nth (Z.to_nat (Z.lxor (u8 (Z.shiftr crc 8)) b)) crc16Table 0).

Definition crc16 (data : bytes) : Z := fold_left crc16_update data 0xFFFF.

(** ** Encoder *)

Definition AppendRecord (dst : bytes) (tag : Z) (payload : bytes) : bytes :=
  let lenBuf := PutUvarint (u64 (lenZ payload)) in
  let body := [tag] ++ lenBuf ++ payload in
  let crc := crc16 body in
  dst ++ be_put 2 startMagic ++ body ++ be_put 2 crc ++ be_put 2 endMagic.

(** ** Payload format marker *)

Definition FormatText : Z := 0.
Definition FormatStructured : Z := 1.

Definition HasFormatMarker (payload : bytes) : Z * bool :=
  match payload with
  | [] => (0, false)
  | b :: _ => if (b =? FormatText) || (b =? FormatStructured) then (b, true) else (0, false)
  end.

(** ** Decoder *)

Record Record_ := MkRecord { Tag : Z; Payload : bytes }.

Fixpoint find_from (b : bytes) (hi lo i : Z) : Z :=
  match b with
  | x :: t =>
      match t with
      | y :: _ => if (x =? hi) && (y =? lo) then i else find_from t hi lo (i + 1)
      | [] => -1
      end
  | [] => -1
  end.

Definition findMagic (b : bytes) (magic : Z) : Z :=
  find_from b (u8 (Z.shiftr magic 8)) (u8 magic) 0.

Definition decodeOneRecord (b : bytes) : res (option (Z * bytes * Z)) :=
  if lenZ b <? minRecordLen then Ok None else
  tag ← go_index b 2;
  rest ← go_slice b 3 (lenZ b);
  let '(payloadLen, n) := Uvarint rest in
  if n <=? 0 then Ok None else
  let pos := 3 + n in
  let bodyEnd := int64 (pos + int64 payloadLen) in
  if (lenZ b <? payloadLen) || (bodyEnd <? pos) || (lenZ b <? int64 (bodyEnd + 4)) then Ok None else
  gotCRC ← go_slice b bodyEnd (bodyEnd + 2);
  body ← go_slice b 2 bodyEnd;
  if negb (be_get gotCRC =? crc16 body) then Ok None else
  e ← go_slice b (bodyEnd + 2) (bodyEnd + 4);
  if negb (be_get e =? endMagic) then Ok None else
  payload ← go_slice b pos bodyEnd;
  Ok (Some (tag, payload, bodyEnd + 4)).

(** The scanning loop. Every iteration moves [i] forward, so [1 + len(data)]
    iterations always suffice (see [DecodeRecords_total]); running out of fuel
    would be the error below. *)
Fixpoint decode_loop (fuel : nat) (data : bytes) (i : Z) (records : list Record_) (corrupt : Z)
    : res (list Record_ * Z) :=
  match fuel with
  | O => Err "out of fuel"
  | S fuel =>
      if i <? lenZ data then
        rest ← go_slice data i (lenZ data);
        let off := findMagic rest startMagic in
        if off <? 0 then Ok (records, corrupt) else
        let i := i + off in
        rest ← go_slice data i (lenZ data);
        r ← decodeOneRecord rest;
        match r with
        | None => decode_loop fuel data (i + 1) records (corrupt + 1)
        | Some (tag, payload, consumed) =>
            decode_loop fuel data (i + consumed) (records ++ [MkRecord tag payload]) corrupt
        end
      else Ok (records, corrupt)
  end.

Definition DecodeRecords (data : bytes) : res (list Record_ * Z) :=
  decode_loop (S (length data)) data 0 [] 0.

(** The text a record contributes to [Decode]'s output. *)
Definition record_text (r : Record_) : bytes :=
  let '(format, hasMarker) := HasFormatMarker (Payload r) in
  if negb hasMarker then Payload r
  else if format =? FormatText then drop 1 (Payload r)
  else [].

Definition Decode (data : bytes) : res (bytes * Z) :=
  '(records, corrupt) ← DecodeRecords data;
  Ok (concat (map record_text records), corrupt).

Example crc_check : crc16 (bs "123456789") = 0x29B1.
Proof. vm_compute. reflexivity. Qed.

Example roundtrip_check :
  DecodeRecords (AppendRecord (AppendRecord [7; 0xC5] 3 (bs "hello")) 8 [])
  = Ok ([MkRecord 3 (bs "hello"); MkRecord 8 []], 0).
Proof. vm_compute. reflexivity. Qed.

(** ** The CRC: bitwise reference, linearity and error detection *)

Definition is_u16 (c : Z) : Prop := 0 <= c < 2 ^ 16.

(** The textbook bit-by-bit CRC the table is generated from. *)
Definition crc16_bitwise (data : bytes) : Z :=
  fold_left (fun c b => Nat.iter 8 crc_round (Z.lxor c (Z.shiftl b 8))) data 0xFFFF.

Lemma land_bit15 c : negb (Z.land c 0x8000 =? 0) = Z.testbit c 15.
Proof.
  change 0x8000 with (2 ^ 15).
  assert (Z.land c (2 ^ 15) = if Z.testbit c 15 then 2 ^ 15 else 0) as ->.
  { apply Z.bits_inj'. intros n Hn. rewrite Z.land_spec, Z.pow2_bits_eqb by lia.
    destruct (Z.eqb_spec 15 n) as [<-|Hne].
    - rewrite andb_true_r. by destruct (Z.testbit c 15).
    - rewrite andb_false_r. destruct (Z.testbit c 15); [|by rewrite Z.bits_0].
      rewrite Z.pow2_bits_eqb by lia. by destruct (Z.eqb_spec 15 n). }
  by destruct (Z.testbit c 15).
Qed.

Lemma u16_land z : u16 z = Z.land z (Z.ones 16).
Proof. unfold u16. by rewrite Z.land_ones. Qed.

Lemma u16_bound z : is_u16 (u16 z).
Proof. unfold is_u16, u16. apply Z.mod_pos_bound. lia. Qed.

Lemma u16_lxor a b : u16 (Z.lxor a b) = Z.lxor (u16 a) (u16 b).
Proof.
  rewrite !u16_land. apply Z.bits_inj'. intros n Hn.
  rewrite ?Z.land_spec, ?Z.lxor_spec, ?Z.land_spec.
  by destruct (Z.testbit a n), (Z.testbit b n), (Z.testbit (Z.ones 16) n).
Qed.

Lemma crc_round_eq c :
  crc_round c = Z.lxor (u16 (Z.shiftl c 1)) (if Z.testbit c 15 then 0x1021 else 0).
Proof. unfold crc_round. rewrite land_bit15. destruct (Z.testbit c 15); by rewrite ?Z.lxor_0_r. Qed.

Lemma crc_round_u16 c : is_u16 (crc_round c).
Proof.
  rewrite crc_round_eq. apply lxor_bound; [lia | apply u16_bound |].
  destruct (Z.testbit c 15); lia.
Qed.

Lemma crc_round_lxor a b : crc_round (Z.lxor a b) = Z.lxor (crc_round a) (crc_round b).
Proof.
  rewrite !crc_round_eq, Z.shiftl_lxor, u16_lxor, Z.lxor_spec.
  apply Z.bits_inj'. intros n Hn. rewrite !Z.lxor_spec.
  destruct (Z.testbit a 15), (Z.testbit b 15); simpl; rewrite ?Z.bits_0;
    repeat match goal with |- context [Z.testbit ?x n] => destruct (Z.testbit x n) end; done.
Qed.

Lemma crc_iter_lxor k a b :
  Nat.iter k crc_round (Z.lxor a b) = Z.lxor (Nat.iter k crc_round a) (Nat.iter k crc_round b).
Proof. induction k; simpl; [done|]. by rewrite IHk, crc_round_lxor. Qed.

Lemma crc_iter_u16 k c : is_u16 c -> is_u16 (Nat.iter k crc_round c).
Proof. intros Hc. destruct k; simpl; [done | apply crc_round_u16]. Qed.

Lemma crc_iter8_low b : byte_ok b -> Nat.iter 8 crc_round b = Z.shiftl b 8.
Proof.
  intros Hb. apply Z.eqb_eq.
  apply (byte_forall (fun b => Nat.iter 8 crc_round b =? Z.shiftl b 8)); [|done].
  vm_compute. reflexivity.
Qed.

Lemma crc16Table_nth i :
  byte_ok i -> nth (Z.to_nat i) crc16Table 0 = Nat.iter 8 crc_round (Z.shiftl i 8).
Proof.
  intros Hi. apply Z.eqb_eq.
  apply (byte_forall (fun i => nth (Z.to_nat i) crc16Table 0 =? Nat.iter 8 crc_round (Z.shiftl i 8)));
    [|done].
  vm_compute. reflexivity.
Qed.

Lemma u16_split c : is_u16 c ->
  exists hi lo, byte_ok hi /\ byte_ok lo /\ c = Z.lxor (Z.shiftl hi 8) lo /\
    u8 (Z.shiftr c 8) = hi /\ u16 (Z.shiftl c 8) = Z.shiftl lo 8.
Proof.
  intros Hc. unfold is_u16 in Hc. exists (c / 256), (c mod 256).
  assert (0 <= c mod 256 < 256) by (apply Z.mod_pos_bound; lia).
  assert (0 <= c / 256 < 256) by (split; [apply Z.div_pos | apply Z.div_lt_upper_bound]; lia).
  split_and!; try done.
  - rewrite Z.lxor_comm, <- Z.add_nocarry_lxor by (apply land_shiftl_low; lia).
    rewrite Z.shiftl_mul_pow2 by lia. change (2 ^ 8) with 256.
    rewrite (Z.div_mod c 256) at 1; lia.
  - unfold u8. rewrite Z.shiftr_div_pow2 by lia. change (2 ^ 8) with 256. apply Z.mod_small. lia.
  - unfold u16. rewrite !Z.shiftl_mul_pow2 by lia. change (2 ^ 8) with 256.
    change (2 ^ 16) with (256 * 256). by rewrite Z.mul_mod_distr_r by lia.
Qed.

Lemma crc16_update_bitwise c b :
  is_u16 c -> byte_ok b -> crc16_update c b = Nat.iter 8 crc_round (Z.lxor c (Z.shiftl b 8)).
Proof.
  intros Hc Hb. destruct (u16_split c Hc) as (hi & lo & Hhi & Hlo & Ec & Ehi & Elo).
  unfold crc16_update. rewrite Ehi, Elo.
  rewrite crc16Table_nth by (apply (lxor_bound _ _ 8); [lia | done | done]).
  rewrite Ec. replace (Z.lxor (Z.lxor (Z.shiftl hi 8) lo) (Z.shiftl b 8))
    with (Z.lxor lo (Z.shiftl (Z.lxor hi b) 8)).
  - rewrite crc_iter_lxor, (crc_iter8_low lo) by done. reflexivity.
  - rewrite Z.shiftl_lxor, (Z.lxor_comm (Z.shiftl hi 8) lo), Z.lxor_assoc. done.
Qed.

Lemma crc16_update_u16 c b : is_u16 c -> byte_ok b -> is_u16 (crc16_update c b).
Proof.
  intros Hc Hb. rewrite crc16_update_bitwise by done. simpl. apply crc_round_u16.
Qed.

Lemma crc_fold_u16 l c : is_u16 c -> bytes_ok l -> is_u16 (fold_left crc16_update l c).
Proof.
  revert c. induction l as [|b l IH]; intros c Hc Hl; simpl; [done|].
  apply Forall_cons_1 in Hl as [Hb Hl]. apply IH; [by apply crc16_update_u16 | done].
Qed.

Lemma crc16_u16 l : bytes_ok l -> is_u16 (crc16 l).
Proof. intros. apply crc_fold_u16; [unfold is_u16; lia | done]. Qed.

Lemma crc16_bitwise_eq l : bytes_ok l -> crc16 l = crc16_bitwise l.
Proof.
  unfold crc16, crc16_bitwise.
  assert (Hc : is_u16 0xFFFF) by (unfold is_u16; lia). revert Hc. generalize 0xFFFF.
  induction l as [|b l IH]; intros c Hc Hl; simpl; [done|].
  apply Forall_cons_1 in Hl as [Hb Hl].
  rewrite crc16_update_bitwise by done. apply IH; [|done]. simpl. apply crc_round_u16.
Qed.

Lemma crc_round_zero c : is_u16 c -> crc_round c = 0 -> c = 0.
Proof.
  intros Hc. rewrite crc_round_eq. intros H0. apply Z.lxor_eq in H0.
  destruct (Z.testbit c 15) eqn:E.
  - apply (f_equal (fun z => Z.testbit z 0)) in H0. rewrite u16_land, Z.land_spec in H0.
    rewrite Z.shiftl_spec_low in H0 by lia. discriminate H0.
  - unfold u16 in H0. rewrite Z.shiftl_mul_pow2 in H0 by lia.
    assert (c < 2 ^ 15).
    { destruct (Z.lt_ge_cases c (2 ^ 15)) as [|Hge]; [done|]. exfalso. unfold is_u16 in Hc.
      assert (Z.log2 c = 15) as El by (apply (Z.log2_unique c 15); lia).
      pose proof (Z.bit_log2 c ltac:(lia)) as Hb. rewrite El in Hb. congruence. }
    rewrite Z.mod_small in H0 by (unfold is_u16 in Hc; lia). lia.
Qed.

Lemma crc_iter_zero k c : is_u16 c -> Nat.iter k crc_round c = 0 -> c = 0.
Proof.
  intros Hc. induction k as [|k IH]; simpl; [done|]. intros H0.
  apply IH. apply crc_round_zero; [by apply crc_iter_u16 | done].
Qed.

Lemma crc16_update_inj c1 c2 b1 b2 :
  is_u16 c1 -> is_u16 c2 -> byte_ok b1 -> byte_ok b2 ->
  crc16_update c1 b1 = crc16_update c2 b2 -> Z.lxor c1 (Z.shiftl b1 8) = Z.lxor c2 (Z.shiftl b2 8).
Proof.
  intros Hc1 Hc2 Hb1 Hb2. rewrite !crc16_update_bitwise by done. intros E.
  apply Z.lxor_eq, (crc_iter_zero 8).
  - assert (forall b, byte_ok b -> is_u16 (Z.shiftl b 8)) as Hs.
    { intros b Hb. unfold byte_ok in Hb. unfold is_u16. rewrite Z.shiftl_mul_pow2; lia. }
    repeat apply lxor_bound; try lia; try done; by apply Hs.
  - rewrite (crc_iter_lxor 8), E. apply Z.lxor_nilpotent.
Qed.

Lemma crc_fold_inj l c1 c2 :
  is_u16 c1 -> is_u16 c2 -> bytes_ok l ->
  fold_left crc16_update l c1 = fold_left crc16_update l c2 -> c1 = c2.
Proof.
  revert c1 c2. induction l as [|b l IH]; intros c1 c2 H1 H2 Hl; simpl; [done|].
  apply Forall_cons_1 in Hl as [Hb Hl]. intros E.
  apply IH in E; try done; [|by apply crc16_update_u16..].
  apply crc16_update_inj in E; try done.
  apply (f_equal (fun z => Z.lxor z (Z.shiftl b 8))) in E.
  by rewrite !Z.lxor_assoc, !Z.lxor_nilpotent, !Z.lxor_0_r in E.
Qed.

(** Two bodies that differ in exactly one byte have different CRCs. *)
Lemma crc16_one_byte l r x y :
  bytes_ok l -> bytes_ok r -> byte_ok x -> byte_ok y -> x <> y ->
  crc16 (l ++ x :: r) <> crc16 (l ++ y :: r).
Proof.
  intros Hl Hr Hx Hy Hne E. unfold crc16 in E. rewrite !fold_left_app in E. simpl in E.
  assert (Hu : is_u16 (fold_left crc16_update l 0xFFFF)) by by apply crc16_u16.
  apply crc_fold_inj in E; try done; [|by apply crc16_update_u16..].
  apply crc16_update_inj in E; try done. apply Hne.
  assert (forall a, Z.shiftr (Z.shiftl a 8) 8 = a) as Hs.
  { intros a. rewrite Z.shiftr_shiftl_l, Z.shiftl_0_r; lia || done. }
  rewrite <- (Hs x), <- (Hs y). f_equal.
  apply (f_equal (Z.lxor (fold_left crc16_update l 0xFFFF))) in E.
  by rewrite <- !Z.lxor_assoc, !Z.lxor_nilpotent, !Z.lxor_0_l in E.
Qed.

(** ** The decoder, on suffixes of the buffer *)

Lemma find_from_step a z l hi lo i :
  find_from (a :: z :: l) hi lo i
  = if (a =? hi) && (z =? lo) then i else find_from (z :: l) hi lo (i + 1).
Proof. reflexivity. Qed.

Lemma find_from_shift b hi lo i :
  find_from b hi lo i = if find_from b hi lo 0 <? 0 then -1 else find_from b hi lo 0 + i.
Proof.
  assert (forall b i, 0 <= i -> find_from b hi lo i = -1 \/ i <= find_from b hi lo i) as Hge.
  { clear. induction b as [|x b IH]; intros i Hi; [by left|]. cbn [find_from].
    destruct b as [|y b]; [by left|]. case_match; [right; lia|].
    destruct (IH (i + 1)); [lia | by left | right; lia]. }
  revert i. induction b as [|x b IH]; intros i; [done|]. cbn [find_from].
  destruct b as [|y b]; [done|]. destruct ((x =? hi) && (y =? lo)); [simpl; lia|].
  rewrite (IH (i + 1)), (IH (0 + 1)).
  destruct (Hge (y :: b) 0) as [E|E]; [lia | rewrite E; done |].
  destruct (Z.ltb_spec (find_from (y :: b) hi lo 0) 0); [done|].
  destruct (Z.ltb_spec (find_from (y :: b) hi lo 0 + (0 + 1)) 0); lia.
Qed.

Lemma find_from_bound b hi lo i :
  find_from b hi lo i = -1 \/ i <= find_from b hi lo i < i + lenZ b.
Proof.
  revert i. induction b as [|x b IH]; intros i; [by left|]. cbn [find_from].
  destruct b as [|y b]; [by left|]. case_match; [right; simpl; lia|].
  destruct (IH (i + 1)) as [|]; [by left | right; simpl in *; lia].
Qed.

Lemma findMagic_bound b m : findMagic b m = -1 \/ 0 <= findMagic b m < lenZ b.
Proof. unfold findMagic. destruct (find_from_bound b (u8 (Z.shiftr m 8)) (u8 m) 0); [by left | right; lia]. Qed.

(** What [findMagic] finds is the magic. *)
Lemma findMagic_spec b m off :
  findMagic b m = off -> 0 <= off ->
  exists pre post, b = pre ++ u8 (Z.shiftr m 8) :: u8 m :: post /\ lenZ pre = off.
Proof.
  unfold findMagic. revert off. induction b as [|x b IH]; intros off E Hoff; [simpl in E; lia|].
  cbn [find_from] in E. destruct b as [|y b]; [simpl in E; lia|].
  destruct ((x =? _) && (y =? _)) eqn:Exy.
  - apply andb_true_iff in Exy as [Ex%Z.eqb_eq Ey%Z.eqb_eq]. subst.
    exists [], b. split; [done | simpl; lia].
  - rewrite find_from_shift in E. case_match; [lia|].
    destruct (IH _ eq_refl ltac:(lia)) as (pre & post & Eb & El).
    exists (x :: pre), post. rewrite Eb. split; [done | simpl; lia].
Qed.

Lemma findMagic_here x y post m :
  x = u8 (Z.shiftr m 8) -> y = u8 m -> findMagic (x :: y :: post) m = 0.
Proof. intros -> ->. unfold findMagic. simpl. by rewrite !Z.eqb_refl. Qed.

(** Junk in which the magic does not start is skipped. *)
Lemma findMagic_skip junk x post m :
  findMagic (junk ++ [x]) m = -1 -> findMagic (junk ++ x :: post) m
  = if findMagic (x :: post) m <? 0 then -1 else lenZ junk + findMagic (x :: post) m.
Proof.
  unfold findMagic. set (hi := u8 (Z.shiftr m 8)). set (lo := u8 m).
  induction junk as [|a junk IH]; intros E.
  - cbn [app length]. destruct (find_from_bound (x :: post) hi lo 0) as [->|Hb]; [done|].
    destruct (Z.ltb_spec (find_from (x :: post) hi lo 0) 0); lia.
  - assert (exists z tl, junk ++ [x] = z :: tl /\ (exists tl', junk ++ x :: post = z :: tl')) as
      (z & tl & Ez & tl' & Ez') by (destruct junk; simpl; eauto 10).
    cbn [app] in E |- *. rewrite Ez, find_from_step in E. rewrite Ez', find_from_step.
    rewrite <- Ez in E. rewrite <- Ez'.
    destruct ((a =? hi) && (z =? lo)); [lia|].
    rewrite find_from_shift in E. rewrite find_from_shift.
    destruct (find_from_bound (junk ++ [x]) hi lo 0) as [E'|E'];
      [| destruct (Z.ltb_spec (find_from (junk ++ [x]) hi lo 0) 0); lia].
    rewrite (IH E').
    destruct (find_from_bound (x :: post) hi lo 0) as [Hm|Hb]; [rewrite Hm; reflexivity|].
    rewrite (proj2 (Z.ltb_ge (find_from (x :: post) hi lo 0) 0)) by lia.
    rewrite (proj2 (Z.ltb_ge (lenZ junk + find_from (x :: post) hi lo 0) 0)) by lia.
    cbn [length]. lia.
Qed.

(** A buffer length a Go slice can have on a 64-bit machine. *)
Definition len_ok (b : bytes) : Prop := lenZ b < 2 ^ 61.

Lemma split_at {A} (l : list A) n :
  0 <= n <= lenZ l -> exists a c, l = a ++ c /\ lenZ a = n.
Proof.
  intros Hn. exists (take (Z.to_nat n) l), (drop (Z.to_nat n) l).
  rewrite take_drop. split; [done|]. rewrite length_take. lia.
Qed.

(** The bytes [decodeOneRecord] reads, in order, and what it concludes. *)
Lemma decodeOneRecord_frame m1 m2 tag lenb p crc e post :
  len_ok (m1 :: m2 :: tag :: lenb ++ p ++ crc ++ e ++ post) ->
  length crc = 2%nat -> length e = 2%nat ->
  Uvarint (lenb ++ p ++ crc ++ e ++ post) = (lenZ p, lenZ lenb) -> 0 < lenZ lenb ->
  decodeOneRecord (m1 :: m2 :: tag :: lenb ++ p ++ crc ++ e ++ post)
  = Ok (if negb (be_get crc =? crc16 (tag :: lenb ++ p)) then None
        else if negb (be_get e =? endMagic) then None
        else Some (tag, p, 3 + lenZ lenb + lenZ p + 4)).
Proof.
  intros Hlen Hc He HU Hn. unfold len_ok in Hlen. cbn [length] in Hlen.
  rewrite !length_app in Hlen. unfold decodeOneRecord.
  remember (m1 :: m2 :: tag :: lenb ++ p ++ crc ++ e ++ post) as b eqn:Eb.
  assert (Hb : lenZ b = 3 + lenZ lenb + lenZ p + 4 + lenZ post)
    by (rewrite Eb; cbn [length]; rewrite !length_app; lia).
  rewrite (proj2 (Z.ltb_ge _ _)) by (unfold minRecordLen; lia).
  assert (E1 : go_index b 2 = Ok tag) by (rewrite Eb; apply (go_index_app [m1; m2]); done).
  assert (E2 : go_slice b 3 (lenZ b) = Ok (lenb ++ p ++ crc ++ e ++ post)).
  { replace b with ([m1; m2; tag] ++ (lenb ++ p ++ crc ++ e ++ post) ++ []) at 1
      by (by rewrite app_nil_r).
    apply go_slice_app; [done|]. rewrite Hb, !length_app. simpl. lia. }
  assert (E3 : forall u v w lo hi, b = u ++ v ++ w -> lo = lenZ u -> hi = lo + lenZ v ->
    go_slice b lo hi = Ok v) by (intros u v w lo hi E' ? ?; rewrite E'; by apply go_slice_app).
  rewrite E1, E2. cbn [mbind res_bind]. rewrite HU. cbn iota beta zeta.
  rewrite (proj2 (Z.leb_gt (lenZ lenb) 0)) by lia.
  rewrite (int64_id (lenZ p)) by lia. rewrite !int64_id by (rewrite ?int64_id; lia).
  rewrite Hb, !(proj2 (Z.ltb_ge _ _)) by lia. cbn [orb].
  rewrite (E3 (m1 :: m2 :: tag :: lenb ++ p) crc (e ++ post) (3 + lenZ lenb + lenZ p) (3 + lenZ lenb + lenZ p + 2));
    [| rewrite Eb; solve_app | cbn [length]; rewrite ?length_app; lia..].
  rewrite (E3 [m1; m2] (tag :: lenb ++ p) (crc ++ e ++ post) 2 (3 + lenZ lenb + lenZ p));
    [| rewrite Eb; solve_app | cbn [length]; rewrite ?length_app; lia..].
  rewrite (E3 (m1 :: m2 :: tag :: lenb ++ p ++ crc) e post (3 + lenZ lenb + lenZ p + 2) (3 + lenZ lenb + lenZ p + 4));
    [| rewrite Eb; solve_app | cbn [length]; rewrite ?length_app; lia..].
  rewrite (E3 (m1 :: m2 :: tag :: lenb) p (crc ++ e ++ post) (3 + lenZ lenb) (3 + lenZ lenb + lenZ p));
    [| rewrite Eb; solve_app | cbn [length]; rewrite ?length_app; lia..].
  cbn [mbind res_bind]. by repeat destruct (negb _).
Qed.

(** [b] carries a well-formed frame for [tag] and [p] at its front, of [c] bytes. *)
Definition framed (b : bytes) (tag : Z) (p : bytes) (c : Z) : Prop :=
  exists m1 m2 lenb crc e post,
    b = m1 :: m2 :: tag :: lenb ++ p ++ crc ++ e ++ post /\
    length crc = 2%nat /\ length e = 2%nat /\
    Uvarint (lenb ++ p ++ crc ++ e ++ post) = (lenZ p, lenZ lenb) /\
    be_get crc = crc16 (tag :: lenb ++ p) /\ be_get e = endMagic /\
    c = 3 + lenZ lenb + lenZ p + 4 /\ 0 < lenZ lenb.

Lemma decodeOneRecord_total b :
  len_ok b -> exists r, decodeOneRecord b = Ok r /\
    forall tag p c, r = Some (tag, p, c) -> framed b tag p c.
Proof.
  intros Hlen.
  destruct (Z.ltb_spec (lenZ b) minRecordLen) as [Hs|Hmin].
  { exists None. split; [|done]. unfold decodeOneRecord. by rewrite (proj2 (Z.ltb_lt _ _)). }
  destruct b as [|m1 [|m2 [|tag rest]]]; [unfold minRecordLen in Hmin; simpl in Hmin; lia..|].
  assert (E1 : go_index (m1 :: m2 :: tag :: rest) 2 = Ok tag) by (by apply (go_index_app [m1; m2])).
  assert (E2 : go_slice (m1 :: m2 :: tag :: rest) 3 (lenZ (m1 :: m2 :: tag :: rest)) = Ok rest).
  { replace (m1 :: m2 :: tag :: rest) with ([m1; m2; tag] ++ rest ++ []) at 1
      by (by rewrite app_nil_r). apply go_slice_app; [done|]. cbn [length]. lia. }
  destruct (Uvarint rest) as [pl n] eqn:HU.
  set (chk := (n <=? 0) || ((lenZ (m1 :: m2 :: tag :: rest) <? pl)
    || (int64 (3 + n + int64 pl) <? 3 + n)
    || (lenZ (m1 :: m2 :: tag :: rest) <? int64 (int64 (3 + n + int64 pl) + 4)))).
  destruct chk eqn:Hchk; unfold chk in Hchk; clear chk.
  { exists None. split; [|done]. unfold decodeOneRecord.
    rewrite (proj2 (Z.ltb_ge _ _)) by done. rewrite E1, E2. cbn [mbind res_bind]. rewrite HU.
    destruct (n <=? 0); [done|]. cbn [orb] in Hchk. by rewrite Hchk. }
  apply orb_false_iff in Hchk as [Hn [[H1 H2]%orb_false_iff H3]%orb_false_iff].
  apply Z.leb_gt in Hn. apply Z.ltb_ge in H1, H2, H3.
  pose proof (Uvarint_consumed _ _ _ HU Hn) as Hn'.
  assert (0 <= pl) as Hpl by (pose proof (get_loop_nonneg rest 0 0 0 ltac:(lia)) as G;
    unfold Uvarint in HU; rewrite HU in G; done).
  unfold len_ok in Hlen. cbn [length] in *.
  rewrite (int64_id pl) in H2, H3 by lia. rewrite int64_id in H2 by lia.
  rewrite (int64_id (3 + n + pl)) in H3 by lia. rewrite int64_id in H3 by lia.
  destruct (split_at rest n) as (lenb & r1 & -> & Hl); [lia|].
  rewrite length_app in *.
  destruct (split_at r1 pl) as (p & r2 & -> & Hp); [lia|]. rewrite length_app in *.
  destruct (split_at r2 2) as (crc & r3 & -> & Hc); [lia|]. rewrite length_app in *.
  destruct (split_at r3 2) as (e & post & -> & He); [lia|]. rewrite length_app in *.
  subst n pl.
  rewrite (decodeOneRecord_frame m1 m2 tag lenb p crc e post);
    [| unfold len_ok; cbn [length]; rewrite !length_app; lia | lia | lia | done | lia].
  eexists. split; [reflexivity|]. intros tag' p' c'.
  destruct (Z.eqb_spec (be_get crc) (crc16 (tag :: lenb ++ p))); [|done].
  destruct (Z.eqb_spec (be_get e) endMagic); [|done]. simpl. intros [= <- <- <-].
  exists m1, m2, lenb, crc, e, post. split_and!; try done; lia.
Qed.

(** The loop as a function of the bytes still to be scanned. *)
Fixpoint scan (fuel : nat) (rest : bytes) : res (list Record_ * Z) :=
  match fuel with
  | O => Err "out of fuel"
  | S fuel =>
      if 0 <? lenZ rest then
        let off := findMagic rest startMagic in
        if off <? 0 then Ok ([], 0) else
        let rest := drop (Z.to_nat off) rest in
        r ← decodeOneRecord rest;
        match r with
        | None => '(rs, c) ← scan fuel (drop 1 rest); Ok (rs, 1 + c)
        | Some (t, p, n) => '(rs, c) ← scan fuel (drop (Z.to_nat n) rest); Ok (MkRecord t p :: rs, c)
        end
      else Ok ([], 0)
  end.

Lemma len_ok_drop b n : len_ok b -> len_ok (drop n b).
Proof. unfold len_ok. rewrite length_drop. lia. Qed.

Lemma framed_bound b t p c : framed b t p c -> 8 <= c <= lenZ b.
Proof.
  intros (m1 & m2 & lenb & crc & e & post & -> & Hc & He & _ & _ & _ & -> & Hl).
  cbn [length]. rewrite !length_app. lia.
Qed.

Lemma drop_suffix (b : bytes) n :
  0 <= n <= lenZ b -> exists pre, b = pre ++ drop (Z.to_nat n) b /\ lenZ pre = n.
Proof.
  intros Hn. exists (take (Z.to_nat n) b). rewrite take_drop. split; [done|].
  rewrite length_take. lia.
Qed.

Lemma decode_loop_scan fuel : forall pre rest recs c,
  len_ok rest ->
  decode_loop fuel (pre ++ rest) (lenZ pre) recs c
  = ('(rs, c') ← scan fuel rest; Ok (recs ++ rs, c + c')).
Proof.
  induction fuel as [|fuel IH]; intros pre rest recs c Hlen; [done|]. cbn [decode_loop scan].
  replace (lenZ pre <? lenZ (pre ++ rest)) with (0 <? lenZ rest).
  2:{ rewrite length_app. apply Bool.eq_iff_eq_true. rewrite !Z.ltb_lt. lia. }
  destruct (Z.ltb_spec 0 (lenZ rest)); [| cbn [mbind res_bind]; by rewrite app_nil_r, Z.add_0_r].
  rewrite go_slice_suffix by done. cbn [mbind res_bind].
  destruct (findMagic_bound rest startMagic) as [->|Hoff];
    [cbn; by rewrite app_nil_r, Z.add_0_r|].
  rewrite (proj2 (Z.ltb_ge _ _)) by lia.
  destruct (drop_suffix rest (findMagic rest startMagic)) as (p1 & E1 & L1); [lia|].
  set (rest1 := drop (Z.to_nat (findMagic rest startMagic)) rest) in *.
  assert (Hlen1 : len_ok rest1) by (by apply len_ok_drop).
  replace (lenZ pre + findMagic rest startMagic) with (lenZ (pre ++ p1))
    by (rewrite length_app; lia).
  assert (Ed : pre ++ rest = (pre ++ p1) ++ rest1) by (rewrite <- app_assoc; by rewrite <- E1).
  rewrite Ed, go_slice_suffix by done. cbn [mbind res_bind].
  destruct (decodeOneRecord_total rest1 Hlen1) as (r & Er & Hr). rewrite Er. cbn [mbind res_bind].
  assert (Hstep : forall n recs' c', 0 <= n <= lenZ rest1 ->
    decode_loop fuel ((pre ++ p1) ++ rest1) (lenZ (pre ++ p1) + n) recs' c'
    = ('(rs, c'') ← scan fuel (drop (Z.to_nat n) rest1); Ok (recs' ++ rs, c' + c''))).
  { intros n recs' c' Hn. destruct (drop_suffix rest1 n Hn) as (p2 & E2 & L2).
    rewrite E2 at 1. rewrite app_assoc.
    replace (lenZ (pre ++ p1) + n) with (lenZ ((pre ++ p1) ++ p2)) by (rewrite length_app; lia).
    apply IH. by apply len_ok_drop. }
  destruct r as [[[t p] n]|].
  - pose proof (framed_bound _ _ _ _ (Hr _ _ _ eq_refl)). rewrite Hstep by lia.
    destruct (scan fuel _) as [[rs c']| |]; [|done..]. cbn [mbind res_bind]. by rewrite <- app_assoc.
  - rewrite Hstep.
    + destruct (scan fuel _) as [[rs c']| |]; [|done..]. cbn [mbind res_bind].
      f_equal. f_equal. lia.
    + assert (lenZ rest = lenZ p1 + lenZ rest1) by (rewrite E1, length_app; lia). lia.
Qed.

Lemma scan_total fuel : forall rest,
  len_ok rest -> (length rest < fuel)%nat ->
  exists rs c, scan fuel rest = Ok (rs, c) /\ 0 <= c /\ c + lenZ rs <= lenZ rest /\
    Forall (fun r => exists pre b n, rest = pre ++ b /\ framed b (Tag r) (Payload r) n) rs.
Proof.
  induction fuel as [|fuel IH]; intros rest Hlen Hf; [lia|]. cbn [scan].
  destruct (Z.ltb_spec 0 (lenZ rest)) as [Hpos|]; [| exists [], 0; split_and!; [done|lia|simpl; lia|done]].
  destruct (findMagic_bound rest startMagic) as [->|Hoff];
    [exists [], 0; split_and!; [done|lia|simpl; lia|done]|].
  rewrite (proj2 (Z.ltb_ge _ _)) by lia.
  destruct (drop_suffix rest (findMagic rest startMagic)) as (p1 & E1 & L1); [lia|].
  set (rest1 := drop (Z.to_nat (findMagic rest startMagic)) rest) in *.
  assert (Hlen1 : len_ok rest1) by (by apply len_ok_drop).
  assert (Hl1 : lenZ rest = lenZ p1 + lenZ rest1) by (rewrite E1, length_app; lia).
  destruct (decodeOneRecord_total rest1 Hlen1) as (r & Er & Hr). rewrite Er. cbn [mbind res_bind].
  assert (Hstep : forall n, 0 < n <= lenZ rest1 -> exists rs c,
    scan fuel (drop (Z.to_nat n) rest1) = Ok (rs, c) /\ 0 <= c /\ c + lenZ rs + n <= lenZ rest /\
    Forall (fun r => exists pre b n, rest = pre ++ b /\ framed b (Tag r) (Payload r) n) rs).
  { intros n Hn. destruct (drop_suffix rest1 n) as (p2 & E2 & L2); [lia|].
    destruct (IH (drop (Z.to_nat n) rest1)) as (rs & c & Es & Hc & Hle & Hrs);
      [by apply len_ok_drop | rewrite length_drop; lia |].
    exists rs, c. rewrite length_drop in Hle. split_and!; [done | done | lia |].
    eapply Forall_impl; [exact Hrs|]. intros x (pre & b & k & Eb & Fb).
    exists (p1 ++ p2 ++ pre), b, k. split; [|done].
    rewrite E1, E2, Eb, <- !app_assoc. done. }
  destruct r as [[[t p] n]|].
  - specialize (Hr _ _ _ eq_refl). pose proof (framed_bound _ _ _ _ Hr) as Hn.
    destruct (Hstep n) as (rs & c & -> & Hc & Hle & Hrs); [lia|].
    exists (MkRecord t p :: rs), c. cbn [length]. split_and!; [done | done | lia |].
    constructor; [|done]. by exists p1, rest1, n.
  - destruct (Hstep 1) as (rs & c & Es & Hc & Hle & Hrs); [lia|].
    change (Z.to_nat 1) with 1%nat in Es. rewrite Es.
    exists rs, (1 + c). split_and!; [done | lia | lia | done].
Qed.

Lemma scan_fuel f1 : forall f2 rest,
  len_ok rest -> (length rest < f1)%nat -> (length rest < f2)%nat -> scan f1 rest = scan f2 rest.
Proof.
  induction f1 as [|f1 IH]; intros [|f2] rest Hlen H1 H2; [lia..|]. cbn [scan].
  destruct (Z.ltb_spec 0 (lenZ rest)) as [Hpos|]; [|done].
  destruct (findMagic_bound rest startMagic) as [->|Hoff]; [done|].
  rewrite (proj2 (Z.ltb_ge _ _)) by lia.
  set (rest1 := drop (Z.to_nat (findMagic rest startMagic)) rest) in *.
  assert (Hlen1 : len_ok rest1) by (by apply len_ok_drop).
  assert (Hl1 : (0 < length rest1 <= length rest)%nat) by (unfold rest1; rewrite length_drop; lia).
  destruct (decodeOneRecord_total rest1 Hlen1) as (r & Er & Hr). rewrite Er. cbn [mbind res_bind].
  destruct r as [[[t p] n]|].
  - pose proof (framed_bound _ _ _ _ (Hr _ _ _ eq_refl)).
    rewrite (IH f2); [done | by apply len_ok_drop | rewrite length_drop; lia..].
  - rewrite (IH f2); [done | by apply len_ok_drop | rewrite length_drop; lia..].
Qed.

Lemma DecodeRecords_scan data : len_ok data -> DecodeRecords data = scan (S (length data)) data.
Proof.
  intros Hlen. unfold DecodeRecords.
  rewrite (decode_loop_scan _ [] data [] 0 Hlen : decode_loop _ data 0 [] 0 = _).
  destruct (scan_total (S (length data)) data Hlen ltac:(lia)) as (rs & c & -> & _). done.
Qed.

(** ** Round trip *)

Definition record_ok (r : Record_) : Prop := byte_ok (Tag r) /\ bytes_ok (Payload r).

(** A stream of records, as successive [AppendRecord] calls build it. *)
Definition encode_records (rs : list Record_) : bytes :=
  fold_left (fun dst r => AppendRecord dst (Tag r) (Payload r)) rs [].

Definition frame (r : Record_) : bytes := AppendRecord [] (Tag r) (Payload r).

Lemma AppendRecord_app dst t p : AppendRecord dst t p = dst ++ AppendRecord [] t p.
Proof. reflexivity. Qed.

Lemma encode_records_frames rs : encode_records rs = concat (map frame rs).
Proof.
  unfold encode_records.
  enough (forall dst, fold_left (fun dst r => AppendRecord dst (Tag r) (Payload r)) rs dst
    = dst ++ concat (map frame rs)) as H by apply (H []).
  induction rs as [|r rs IH]; intros dst; simpl; [by rewrite app_nil_r|].
  rewrite IH, AppendRecord_app, <- app_assoc. done.
Qed.

Lemma frame_eq t p :
  frame (MkRecord t p) = 0xC5 :: 0xA7 :: t :: PutUvarint (u64 (lenZ p)) ++ p
    ++ be_put 2 (crc16 (t :: PutUvarint (u64 (lenZ p)) ++ p)) ++ be_put 2 endMagic ++ [].
Proof. unfold frame, AppendRecord. solve_app. Qed.

Lemma PutUvarint_pos x : 0 < lenZ (PutUvarint x).
Proof. pose proof (length_put_loop MaxVarintLen64 x). unfold PutUvarint, MaxVarintLen64 in *. lia. Qed.

Lemma body_ok t p : byte_ok t -> bytes_ok p -> bytes_ok (t :: PutUvarint (u64 (lenZ p)) ++ p).
Proof.
  intros Ht Hp. constructor; [done|]. apply Forall_app. split; [|done].
  apply put_loop_ok, u64_bound.
Qed.

Lemma decodeOneRecord_body t t' p p' rest :
  length p' = length p -> bytes_ok p -> byte_ok t ->
  len_ok (frame (MkRecord t p) ++ rest) ->
  decodeOneRecord (0xC5 :: 0xA7 :: t' :: PutUvarint (u64 (lenZ p)) ++ p'
    ++ be_put 2 (crc16 (t :: PutUvarint (u64 (lenZ p)) ++ p)) ++ be_put 2 endMagic ++ rest)
  = Ok (if crc16 (t :: PutUvarint (u64 (lenZ p)) ++ p) =? crc16 (t' :: PutUvarint (u64 (lenZ p)) ++ p')
        then Some (t', p', lenZ (frame (MkRecord t p))) else None).
Proof.
  intros Hp Hok Ht Hlen. rewrite frame_eq in Hlen. unfold len_ok in Hlen. cbn [app length] in Hlen.
  rewrite !length_app, ?length_be_put in Hlen.
  rewrite decodeOneRecord_frame.
  - rewrite !be_get_put. change (256 ^ Z.of_nat 2) with (2 ^ 16).
    rewrite (Z.mod_small (crc16 _)) by (by apply crc16_u16, body_ok).
    rewrite (Z.mod_small endMagic) by (unfold endMagic; lia). rewrite Z.eqb_refl.
    destruct (crc16 _ =? crc16 _); cbn [negb]; [|done]. do 3 f_equal.
    rewrite frame_eq. cbn [length]. rewrite !length_app, !length_be_put. simpl. lia.
  - unfold len_ok. cbn [length]. rewrite !length_app, ?length_be_put. lia.
  - apply length_be_put.
  - apply length_be_put.
  - assert (u64 (lenZ p) = lenZ p) as -> by (unfold u64; apply Z.mod_small; lia).
    rewrite Uvarint_Put by lia. by rewrite Hp.
  - apply PutUvarint_pos.
Qed.

Lemma decodeOneRecord_encoded t p rest :
  byte_ok t -> bytes_ok p -> len_ok (frame (MkRecord t p) ++ rest) ->
  decodeOneRecord (frame (MkRecord t p) ++ rest) = Ok (Some (t, p, lenZ (frame (MkRecord t p)))).
Proof.
  intros Ht Hp Hlen. pose proof (decodeOneRecord_body t t p p rest eq_refl Hp Ht Hlen) as E.
  rewrite Z.eqb_refl in E. rewrite <- E. f_equal. rewrite frame_eq. solve_app.
Qed.

Lemma frame_head r rest : exists tl, frame r ++ rest = 0xC5 :: 0xA7 :: tl.
Proof. destruct r as [t p]. rewrite frame_eq. simpl. eauto. Qed.

(** Scanning past junk that does not start a record, then one record. *)
Lemma scan_junk_frame fuel junk r rest :
  record_ok r -> len_ok (junk ++ frame r ++ rest) ->
  findMagic (junk ++ [0xC5]) startMagic = -1 ->
  scan (S fuel) (junk ++ frame r ++ rest)
  = ('(rs, c) ← scan fuel rest; Ok (r :: rs, c)).
Proof.
  intros [Ht Hp] Hlen Hj. destruct r as [t p]. simpl in Ht, Hp.
  destruct (frame_head (MkRecord t p) rest) as [tl Etl].
  assert (Hf : findMagic (junk ++ frame (MkRecord t p) ++ rest) startMagic = lenZ junk).
  { rewrite Etl, findMagic_skip by done. rewrite findMagic_here by done. simpl. lia. }
  cbn [scan]. rewrite Hf.
  rewrite (proj2 (Z.ltb_lt 0 _)) by (rewrite Etl, length_app; simpl; lia).
  rewrite (proj2 (Z.ltb_ge _ _)) by lia. rewrite Nat2Z.id, drop_app_exact.
  rewrite decodeOneRecord_encoded; [| done | done |].
  - cbn [mbind res_bind]. rewrite Nat2Z.id, drop_app_exact. done.
  - unfold len_ok in *. rewrite length_app in Hlen. lia.
Qed.

Lemma no_magic_single : findMagic ([] ++ [0xC5]) startMagic = -1.
Proof. reflexivity. Qed.

Lemma scan_frames rs : forall fuel rest,
  Forall record_ok rs -> len_ok (concat (map frame rs) ++ rest) ->
  scan (length rs + fuel) (concat (map frame rs) ++ rest)
  = ('(rs', c) ← scan fuel rest; Ok (rs ++ rs', c)).
Proof.
  induction rs as [|r rs IH]; intros fuel rest Hok Hlen; cbn [length map concat Nat.add app].
  { destruct (scan fuel rest) as [[? ?]| |]; done. }
  apply Forall_cons_1 in Hok as [Hr Hrs]. cbn [map concat] in Hlen. rewrite <- app_assoc in *.
  rewrite (scan_junk_frame _ [] r _ Hr Hlen no_magic_single : scan (S _) (frame r ++ _) = _).
  rewrite IH; [| done | unfold len_ok in *; rewrite length_app in Hlen; lia].
  by destruct (scan fuel rest) as [[? ?]| |].
Qed.

Lemma length_frame_pos r : (1 <= length (frame r))%nat.
Proof. destruct (frame_head r []) as [tl E]. rewrite app_nil_r in E. rewrite E. simpl. lia. Qed.

Lemma length_frames rs : (length rs <= length (concat (map frame rs)))%nat.
Proof.
  induction rs as [|r rs IH]; simpl; [lia|]. rewrite length_app. pose proof (length_frame_pos r). lia.
Qed.

Lemma DecodeRecords_junk_frames junk r rs tail rs' c :
  Forall record_ok (r :: rs) -> len_ok (junk ++ concat (map frame (r :: rs)) ++ tail) ->
  findMagic (junk ++ [0xC5]) startMagic = -1 ->
  DecodeRecords tail = Ok (rs', c) ->
  DecodeRecords (junk ++ concat (map frame (r :: rs)) ++ tail) = Ok ((r :: rs) ++ rs', c).
Proof.
  intros Hok Hlen Hj Ht. pose proof Hlen as Hlen'. unfold len_ok in Hlen'.
  rewrite !length_app in Hlen'.
  assert (Htl : len_ok tail) by (unfold len_ok; lia).
  rewrite DecodeRecords_scan in Ht by done. rewrite DecodeRecords_scan by done.
  apply Forall_cons_1 in Hok as [Hr Hrs]. cbn [map concat] in *. rewrite <- app_assoc in *.
  rewrite length_app in Hlen'.
  pose proof (length_frames rs) as Hl. pose proof (length_frame_pos r) as Hl'.
  rewrite (scan_fuel _ (S (length rs + S (length junk + length (concat (map frame rs)) + length tail
    + length (frame r))))) by (done || (rewrite !length_app; lia)).
  rewrite scan_junk_frame by done.
  rewrite scan_frames; [| done | unfold len_ok; rewrite length_app; lia].
  rewrite (scan_fuel _ (S (length tail))) by (done || lia). by rewrite Ht.
Qed.

(** A log line as the client's writers emit it: a text line with the format
    marker, a structured event, or a line of the era before the marker (whose
    first byte is printable, so neither 0 nor 1). *)
Inductive entry :=
| EText (tag : Z) (line : bytes)
| EStructured (tag : Z) (event : bytes)
| ELegacy (tag : Z) (c : Z) (line : bytes).

Definition entry_record (e : entry) : Record_ :=
  match e with
  | EText t l => MkRecord t (FormatText :: l)
  | EStructured t ev => MkRecord t (FormatStructured :: ev)
  | ELegacy t c l => MkRecord t (c :: l)
  end.

(** The plain text an entry stands for. *)
Definition entry_text (e : entry) : bytes :=
  match e with EText _ l => l | EStructured _ _ => [] | ELegacy _ c l => c :: l end.

Definition entry_ok (e : entry) : Prop :=
  record_ok (entry_record e) /\ match e with ELegacy _ c _ => 2 <= c | _ => True end.

Lemma record_text_entry e : entry_ok e -> record_text (entry_record e) = entry_text e.
Proof.
  intros [_ Hc]. destruct e as [t l|t ev|t c l]; [done..|].
  unfold record_text, HasFormatMarker. cbn [entry_record Payload].
  rewrite (proj2 (Z.eqb_neq c FormatText)), (proj2 (Z.eqb_neq c FormatStructured))
    by (unfold FormatText, FormatStructured; lia). done.
Qed.

(** ** Properties *)

(** [DecodeRecords] terminates without panicking on every buffer a Go slice can
    hold (the fuel of the model suffices); the records and the corrupt count
    never exceed the buffer; and every record returned is a frame that really
    occurs in the buffer, with its length, its CRC and its end magic intact. *)
Theorem DecodeRecords_total data :
  len_ok data ->
  exists rs c, DecodeRecords data = Ok (rs, c) /\ 0 <= c /\ c + lenZ rs <= lenZ data /\
    Forall (fun r => exists pre b n, data = pre ++ b /\ framed b (Tag r) (Payload r) n) rs.
Proof.
  intros Hlen. rewrite DecodeRecords_scan by done. apply scan_total; [done | lia].
Qed.

Lemma DecodeRecords_total_witness :
  exists rs c, DecodeRecords [0xC5; 0xA7; 1; 2; 3; 0xC5; 0xA7; 9; 9; 9] = Ok (rs, c) /\ c = 2 /\ rs = [].
Proof.
  destruct (DecodeRecords_total [0xC5; 0xA7; 1; 2; 3; 0xC5; 0xA7; 9; 9; 9]) as (rs & c & E & _).
  { unfold len_ok. simpl. lia. }
  exists rs, c. split; [exact E|]. vm_compute in E. injection E as <- <-. done.
Defined.

(** Resynchronisation and round trip: whatever junk precedes a stream of encoded
    records (for instance the tail of a record the ring buffer overwrote), as
    long as no start magic begins in it, the decoder returns exactly those
    records and then what it returns for the bytes after them, and counts no
    corruption of its own. *)
Theorem DecodeRecords_resync junk r rs tail rs' c :
  Forall record_ok (r :: rs) ->
  len_ok (junk ++ encode_records (r :: rs) ++ tail) ->
  findMagic (junk ++ [0xC5]) startMagic = -1 ->
  DecodeRecords tail = Ok (rs', c) ->
  DecodeRecords (junk ++ encode_records (r :: rs) ++ tail) = Ok ((r :: rs) ++ rs', c).
Proof. rewrite encode_records_frames. apply DecodeRecords_junk_frames. Qed.

Lemma DecodeRecords_resync_witness :
  DecodeRecords ([0x5C; 1; 0xC5] ++ encode_records [MkRecord 1 (bs "abc"); MkRecord 2 []] ++ [0xC5; 0xA7])
  = Ok ([MkRecord 1 (bs "abc"); MkRecord 2 []], 1).
Proof.
  apply (DecodeRecords_resync [0x5C; 1; 0xC5] (MkRecord 1 (bs "abc")) [MkRecord 2 []] [0xC5; 0xA7] [] 1).
  - repeat constructor; cbn; lia.
  - vm_compute. reflexivity.
  - reflexivity.
  - reflexivity.
Defined.

(** The table-driven [crc16] computes the bit-by-bit CRC-16/CCITT-FALSE. *)
Theorem crc16_table_correct data : bytes_ok data -> crc16 data = crc16_bitwise data.
Proof. apply crc16_bitwise_eq. Qed.

Lemma crc16_table_correct_witness : crc16 (bs "123456789") = crc16_bitwise (bs "123456789") /\
  crc16_bitwise (bs "123456789") = 0x29B1.
Proof.
  split; [apply (crc16_table_correct (bs "123456789")); repeat constructor; cbn; lia
         | vm_compute; reflexivity].
Defined.

(** A record whose tag or any one payload byte was changed after it was written
    is rejected by the decoder: the CRC catches it, whatever follows in the
    buffer. *)
Theorem corrupt_byte_rejected tag p1 x p2 tag' y rest :
  byte_ok tag -> byte_ok tag' -> bytes_ok (p1 ++ x :: p2) -> byte_ok y ->
  (tag' <> tag /\ y = x \/ tag' = tag /\ y <> x) ->
  let p := p1 ++ x :: p2 in
  let lenb := PutUvarint (u64 (lenZ p)) in
  len_ok (AppendRecord [] tag p ++ rest) ->
  decodeOneRecord (be_put 2 startMagic ++ (tag' :: lenb ++ p1 ++ y :: p2)
     ++ be_put 2 (crc16 (tag :: lenb ++ p)) ++ be_put 2 endMagic ++ rest) = Ok None.
Proof.
  intros Ht Ht' Hp Hy Hne p lenb Hlen.
  pose proof (decodeOneRecord_body tag tag' p (p1 ++ y :: p2) rest) as E.
  rewrite (proj2 (Z.eqb_neq _ _)) in E.
  - rewrite <- E; [f_equal; fold lenb; solve_app | unfold p; rewrite !length_app; done | done | done | done].
  - pose proof (body_ok tag p Ht Hp) as Hb. fold lenb in Hb |- *.
    apply Forall_cons_1 in Hb as [_ [Hl _]%Forall_app].
    apply Forall_app in Hp as [Hp1 [Hx Hp2]%Forall_cons_1].
    destruct Hne as [[Hne ->]|[-> Hne]].
    + apply (crc16_one_byte [] (lenb ++ p)); try done.
      apply Forall_app. split; [done|]. apply Forall_app. split; [done | by constructor].
    + unfold p. rewrite !app_assoc, !app_comm_cons. apply crc16_one_byte; try done.
      constructor; [done|]. apply Forall_app. by split.
Qed.

Lemma corrupt_byte_rejected_witness :
  decodeOneRecord (be_put 2 startMagic ++ (7 :: [5] ++ [104] ++ 0 :: bs "llo")
     ++ be_put 2 (crc16 (7 :: [5] ++ bs "hello")) ++ be_put 2 endMagic ++ []) = Ok None.
Proof.
  apply (corrupt_byte_rejected 7 [104] 101 (bs "llo") 7 0 []).
  - unfold byte_ok. lia.
  - unfold byte_ok. lia.
  - repeat constructor; cbn; lia.
  - unfold byte_ok. lia.
  - right. split; [done | lia].
  - vm_compute. reflexivity.
Defined.

(** [Decode] gives back the text of a log stream byte for byte: marked lines
    without their marker, lines from before the marker in full, and structured
    events left out; nothing is counted corrupt. *)
Theorem Decode_text e es :
  Forall entry_ok (e :: es) ->
  len_ok (encode_records (map entry_record (e :: es))) ->
  Decode (encode_records (map entry_record (e :: es))) = Ok (concat (map entry_text (e :: es)), 0).
Proof.
  intros Hok Hlen. unfold Decode. rewrite encode_records_frames in *.
  pose proof (DecodeRecords_junk_frames [] (entry_record e) (map entry_record es) [] [] 0) as E.
  rewrite app_nil_r in E. cbn [app] in E. cbn [map] in *. rewrite E, app_nil_r; try done.
  - cbn [mbind res_bind]. change (entry_record e :: map entry_record es) with (map entry_record (e :: es)).
    rewrite map_map. rewrite (map_ext_Forall _ entry_text); [done|].
    eapply Forall_impl; [exact Hok|]. intros. by apply record_text_entry.
  - change (Forall record_ok (entry_record <$> (e :: es))). rewrite Forall_fmap. eapply Forall_impl; [exact Hok|]. by intros ? [? _].
Qed.

Lemma Decode_text_witness :
  Decode (encode_records (map entry_record [EText 1 (bs "a"); EStructured 7 [1; 2]; ELegacy 2 50 (bs "b")]))
  = Ok (bs "a2b", 0).
Proof.
  apply (Decode_text (EText 1 (bs "a")) [EStructured 7 [1; 2]; ELegacy 2 50 (bs "b")]).
  - repeat constructor; cbn; unfold FormatText, FormatStructured, byte_ok; lia.
  - vm_compute. reflexivity.
Defined.
End Binlog.
