(* ===== verification/DhtTable.v ===== *)
(** * dht: node identifiers and the Kademlia routing table (src/dht/dht.go)

    [ID]s are 32-byte arrays under the XOR metric; a [RoutingTable] is an array
    of 256 buckets of at most [K] contacts. The mutexes of the source make every
    method atomic, so each method is one function on the table. *)

From stdpp Require Import base list gmap strings fin_maps sorting.
From Stdlib Require Import ZArith Lia.
From S2P Require Import Prelude GoLib.

Module Dht.

Definition K : nat := 8.
Definition IDBits : nat := 256.
Definition IDBytes : nat := 32.
Definition RelayTTL : Z := 2 * minute.
Definition maxMissedPings : Z := 4.

Definition MsgPing : Z := 0x01.
Definition MsgPong : Z := 0x02.
Definition MsgFindNode : Z := 0x03.
Definition MsgNodes : Z := 0x04.
Definition MsgAnnounce : Z := 0x05.
Definition MsgAck : Z := 0x06.
Definition MsgGetRelays : Z := 0x07.
Definition MsgRelayList : Z := 0x08.
Definition MsgManifestHave : Z := 0x09.
Definition MsgManifestWant : Z := 0x0A.
Definition MsgManifest : Z := 0x0B.
Definition MsgHolePunch : Z := 0x0C.
Definition MsgContentHave : Z := 0x0D.
Definition MsgContentWant : Z := 0x0E.
Definition MsgContent : Z := 0x0F.
Definition MsgMirrorPunch : Z := 0x10.

(** ** Identifiers *)

(** A value of the array type [[32]byte]. *)
Abbreviation ID := (list Z).
Definition id_ok (id : ID) : Prop := length id = IDBytes /\ bytes_ok id.

#[export] Instance id_ok_dec id : Decision (id_ok id).
Proof. unfold id_ok. apply _. Defined.

Definition zeroID : ID := replicate IDBytes 0.

Definition ParseID (s : gostring) : res ID :=
  match Hex.decode s with
  | Some b => if decide (length b = IDBytes) then Ok b else Err "dht: bad id"
  | None => Err "dht: bad id"
  end.

Definition ID_String (id : ID) : gostring := Hex.encode id.

Definition XOR (a b : ID) : ID := zip_with Z.lxor a b.

(** [bits.LeadingZeros8] *)
Definition LeadingZeros8 (b : Z) : Z := if b =? 0 then 8 else 7 - Z.log2 b.

Fixpoint bucket_index_from (d : ID) (i : Z) : Z :=
  match d with
  | [] => Z.of_nat IDBits - 1
  | b :: d => if negb (b =? 0) then i * 8 + LeadingZeros8 b else bucket_index_from d (i + 1)
  end.
Definition BucketIndex (d : ID) : Z := bucket_index_from d 0.

Fixpoint lex_less (da db : ID) : bool :=
  match da, db with
  | x :: da, y :: db => if negb (x =? y) then x <? y else lex_less da db
  | _, _ => false
  end.

Definition Closer (a b target : ID) : bool := lex_less (XOR a target) (XOR b target).

(** ** Contacts and buckets *)

Record Contact := MkContact {
  cID : ID;
  cAddr : gostring;
  cLastSeen : Z;
  cMissedPings : Z;
  cSuspect : bool }.

#[export] Instance Contact_eq_dec : EqDecision Contact.
Proof. solve_decision. Defined.

Abbreviation bucket := (list Contact).

(** Position of the first contact with identifier [id]. *)
Definition find_id (id : ID) (b : bucket) : option nat :=
  fst <$> list_find (fun e => cID e = id) b.

Definition bucket_add (c : Contact) (b : bucket) : bucket :=
  match find_id (cID c) b with
  | Some i => <[i := c]> b
  | None => (if (K <=? length b)%nat then drop 1 b else b) ++ [c]
  end.

(** [append(b[:i], b[i+1:]...)] *)
Definition cut_at {A} (i : nat) (b : list A) : list A := take i b ++ drop (S i) b.

Definition bucket_remove (id : ID) (b : bucket) : bucket :=
  match find_id id b with
  | Some i => cut_at i b
  | None => b
  end.

Definition set_missed (m : Z) (s : bool) (c : Contact) : Contact :=
  MkContact (cID c) (cAddr c) (cLastSeen c) m s.

Definition bucket_markMissed (id : ID) (b : bucket) : bucket :=
  match find_id id b with
  | Some i =>
      let b' := alter (fun c => set_missed (cMissedPings c + 1) true c) i b in
      match b' !! i with
      | Some c => if maxMissedPings <=? cMissedPings c then cut_at i b' else b'
      | None => b'
      end
  | None => b
  end.

Definition bucket_resetMissed (id : ID) (b : bucket) : bucket :=
  match find_id id b with
  | Some i => alter (set_missed 0 false) i b
  | None => b
  end.

(** ** The routing table *)

Record RoutingTable := MkRT { rt_self : ID; rt_buckets : list bucket }.

Definition NewRoutingTable (self : ID) : RoutingTable := MkRT self (replicate IDBits []).

Definition rt_update (f : bucket -> bucket) (id : ID) (rt : RoutingTable) : RoutingTable :=
  let idx := BucketIndex (XOR (rt_self rt) id) in
  MkRT (rt_self rt) (alter f (Z.to_nat idx) (rt_buckets rt)).

Definition rt_Add (c : Contact) (rt : RoutingTable) : RoutingTable :=
  if decide (cID c = rt_self rt) then rt else rt_update (bucket_add c) (cID c) rt.
Definition rt_Remove (id : ID) (rt : RoutingTable) : RoutingTable :=
  rt_update (bucket_remove id) id rt.
Definition rt_MarkMissed (id : ID) (rt : RoutingTable) : RoutingTable :=
  rt_update (bucket_markMissed id) id rt.
Definition rt_ResetMissed (id : ID) (rt : RoutingTable) : RoutingTable :=
  rt_update (bucket_resetMissed id) id rt.

Definition rt_All (rt : RoutingTable) : list Contact := concat (rt_buckets rt).
Definition rt_SuspectContacts (rt : RoutingTable) : list Contact :=
  List.filter cSuspect (rt_All rt).
Definition rt_Size (rt : RoutingTable) : Z := fold_left (fun n b => n + lenZ b) (rt_buckets rt) 0.

(** The order [Closest] sorts by: the first eight bytes of the distance, big-endian. *)
Definition dist64 (target : ID) (c : Contact) : Z := be_get (take 8 (XOR (cID c) target)).
Definition closest_less (target : ID) (a b : Contact) : bool := dist64 target a <? dist64 target b.

(** [sort.Slice] is an unstable sort: any sorted permutation may come out. *)
Class GoSort := {
  sort_slice : forall {A}, (A -> A -> bool) -> list A -> list A;
  sort_slice_perm : forall A (less : A -> A -> bool) l, sort_slice less l ≡ₚ l;
  sort_slice_sorted : forall A (key : A -> Z) l,
    StronglySorted (fun x y => key x <= key y) (sort_slice (fun x y => key x <? key y) l) }.

Definition rt_Closest `{GoSort} (target : ID) (n : nat) (rt : RoutingTable) : list Contact :=
  let all := List.filter (fun c => negb (cSuspect c)) (rt_All rt) in
  take n (sort_slice (closest_less target) all).

(** Merge sort is one such sort; it is the instance the examples run. *)
Definition not_above {A} (less : A -> A -> bool) (x y : A) : Prop := less y x = false.
#[export] Instance not_above_dec {A} (less : A -> A -> bool) x y : Decision (not_above less x y).
Proof. unfold not_above. apply _. Defined.

Definition merge_sort_slice {A} (less : A -> A -> bool) (l : list A) : list A :=
  merge_sort (not_above less) l.

#[export, program] Instance merge_GoSort : GoSort := {| sort_slice := @merge_sort_slice |}.
Next Obligation. intros. apply merge_sort_Permutation. Qed.
Next Obligation.
  intros A key l. unfold merge_sort_slice.
  assert (HS : StronglySorted (not_above (fun x y => key x <? key y))
    (merge_sort (not_above (fun x y => key x <? key y)) l)).
  { apply StronglySorted_merge_sort.
    - intros x y z Hxy%Z.ltb_ge Hyz%Z.ltb_ge. apply Z.ltb_ge. lia.
    - intros x y. unfold not_above. rewrite !Z.ltb_ge. lia. }
  revert HS. generalize (merge_sort (not_above (fun x y => key x <? key y)) l). intros l'.
  induction 1 as [|x l' Hl' IH Hx]; constructor; [done|].
  eapply Forall_impl; [exact Hx|]. intros y Hy%Z.ltb_ge. done.
Qed.

(** ** The XOR metric *)

Lemma XOR_ok a b : id_ok a -> id_ok b -> id_ok (XOR a b).
Proof.
  intros [La Ha] [Lb Hb]. split; [unfold XOR; rewrite length_zip_with; lia|].
  clear La Lb. revert b Hb. induction Ha as [|x a Hx Ha IH]; intros [|y b] Hb; simpl; try constructor.
  - apply Forall_cons_1 in Hb as [Hy _]. apply (lxor_bound _ _ 8); [lia | done | done].
  - apply Forall_cons_1 in Hb as [_ Hb]. by apply IH.
Qed.

Lemma XOR_comm a b : XOR a b = XOR b a.
Proof. unfold XOR. revert b. induction a as [|x a IH]; intros [|y b]; simpl; [done..|]. by rewrite Z.lxor_comm, IH. Qed.

Lemma XOR_cancel a b c : length a = length c -> length b = length c -> XOR a c = XOR b c -> a = b.
Proof.
  revert b c. induction a as [|x a IH]; intros [|y b] [|z c]; simpl; try lia; [done|].
  intros La Lb [= E E']. f_equal; [|apply (IH b c); [lia | lia | done]].
  apply (f_equal (fun v => Z.lxor v z)) in E.
  by rewrite !Z.lxor_assoc, !Z.lxor_nilpotent, !Z.lxor_0_r in E.
Qed.

Lemma leading_zeros_bound b : byte_ok b -> b <> 0 -> 0 <= LeadingZeros8 b < 8.
Proof.
  unfold byte_ok, LeadingZeros8. intros Hb Hne. rewrite (proj2 (Z.eqb_neq b 0)) by done.
  pose proof (Z.log2_nonneg b). assert (Z.log2 b < 8) by (apply Z.log2_lt_pow2; lia). lia.
Qed.

(** The bucket of a non-zero distance is the number of its leading zero bits. *)
Lemma bucket_index_log2 d i :
  bytes_ok d -> 0 < be_get d -> bucket_index_from d i = (i + lenZ d) * 8 - 1 - Z.log2 (be_get d).
Proof.
  revert i. induction d as [|b d IH]; intros i Hd Hpos; [unfold be_get in Hpos; simpl in Hpos; lia|].
  apply Forall_cons_1 in Hd as [Hb Hd]. pose proof (be_get_bound d Hd) as Hg.
  rewrite be_get_cons in *. cbn [bucket_index_from length].
  destruct (Z.eqb_spec b 0) as [->|Hne]; simpl negb; cbn iota.
  - rewrite IH by (done || lia). rewrite Z.mul_0_l, Z.add_0_l. lia.
  - unfold LeadingZeros8, byte_ok in *. rewrite (proj2 (Z.eqb_neq b 0)) by done.
    assert (Z.log2 (b * 256 ^ lenZ d + be_get d) = Z.log2 b + 8 * lenZ d) as ->; [|lia].
    change 256 with (2 ^ 8) in Hg |- *. rewrite <- Z.pow_mul_r in Hg |- * by lia.
    pose proof (Z.log2_nonneg b). pose proof (Z.log2_spec b ltac:(lia)) as [Hlo Hhi].
    apply Z.log2_unique; [lia|].
    replace (Z.succ (Z.log2 b + 8 * lenZ d)) with (Z.succ (Z.log2 b) + 8 * lenZ d) by lia.
    rewrite !Z.pow_add_r by lia. set (q := 2 ^ (8 * lenZ d)) in *. nia.
Qed.

Lemma BucketIndex_bound d : id_ok d -> 0 <= BucketIndex d < Z.of_nat IDBits.
Proof.
  intros [Hl Hd]. unfold BucketIndex.
  assert (forall i, 0 <= i -> (i + lenZ d) * 8 <= 256 -> 0 <= bucket_index_from d i < 256) as H.
  { clear Hl. induction Hd as [|b d Hb Hd IH]; intros i Hi Hle; [cbn [bucket_index_from]; unfold IDBits; lia|].
    cbn [bucket_index_from length] in *. destruct (Z.eqb_spec b 0) as [->|Hne]; simpl negb; cbn iota.
    - apply IH; lia.
    - pose proof (leading_zeros_bound b Hb Hne). lia. }
  apply H; [lia|]. rewrite Hl. done.
Qed.

Lemma lex_less_be a b : bytes_ok a -> bytes_ok b -> length a = length b ->
  lex_less a b = (be_get a <? be_get b).
Proof.
  intros Ha. revert b. induction Ha as [|x a Hx Ha IH]; intros [|y b] Hb Hl; try done.
  apply Forall_cons_1 in Hb as [Hy Hb]. simpl in Hl. injection Hl as Hl.
  pose proof (be_get_bound a Ha). pose proof (be_get_bound b Hb).
  rewrite !be_get_cons, Hl. cbn [lex_less]. rewrite <- Hl in *.
  destruct (Z.eqb_spec x y) as [->|Hne]; simpl negb; cbn iota.
  - rewrite IH by done. apply Bool.eq_iff_eq_true. rewrite !Z.ltb_lt. lia.
  - apply Bool.eq_iff_eq_true. rewrite !Z.ltb_lt. unfold byte_ok in *.
    set (q := 256 ^ lenZ a) in *. split; nia.
Qed.

(** ** Well-formed tables *)

Definition contact_wf (self : ID) (idx : nat) (c : Contact) : Prop :=
  id_ok (cID c) /\ cID c <> self /\ BucketIndex (XOR self (cID c)) = Z.of_nat idx.

Record bucket_wf (self : ID) (idx : nat) (b : bucket) : Prop := {
  bwf_len : (length b <= K)%nat;
  bwf_nodup : NoDup (cID <$> b);
  bwf_contacts : Forall (contact_wf self idx) b }.

Record rt_wf (rt : RoutingTable) : Prop := {
  rwf_self : id_ok (rt_self rt);
  rwf_len : length (rt_buckets rt) = IDBits;
  rwf_buckets : forall i b, rt_buckets rt !! i = Some b -> bucket_wf (rt_self rt) i b }.

Lemma find_id_Some id b i :
  find_id id b = Some i -> exists c, b !! i = Some c /\ cID c = id.
Proof.
  unfold find_id. destruct (list_find _ b) as [[j c]|] eqn:E; simpl; [|done]. intros [= <-].
  apply list_find_Some in E as (E & Hc & _). eauto.
Qed.

Lemma find_id_None id b : find_id id b = None -> id ∉ cID <$> b.
Proof.
  unfold find_id. destruct (list_find _ b) as [[j c]|] eqn:E; simpl; [done|]. intros _.
  apply list_find_None in E. intros (c & -> & Hc)%list_elem_of_fmap.
  rewrite Forall_forall in E. by apply (E c Hc).
Qed.

Lemma cut_at_delete {A} i (b : list A) : cut_at i b = delete i b.
Proof. unfold cut_at. by rewrite delete_take_drop. Qed.

Lemma cut_at_sublist {A} i (b : list A) : sublist (cut_at i b) b.
Proof. rewrite cut_at_delete. apply sublist_delete. Qed.

Lemma bucket_wf_sublist self idx b b' : sublist b' b -> bucket_wf self idx b -> bucket_wf self idx b'.
Proof.
  intros Hs [Hl Hn Hc]. split.
  - apply sublist_length in Hs. lia.
  - eapply sublist_NoDup; [exact Hn|]. by apply fmap_sublist.
  - rewrite Forall_forall in Hc |- *. intros c Hin. apply Hc. by eapply elem_of_sublist.
Qed.

Lemma bucket_wf_snoc self idx b c :
  bucket_wf self idx b -> (length b < K)%nat -> contact_wf self idx c -> cID c ∉ cID <$> b ->
  bucket_wf self idx (b ++ [c]).
Proof.
  intros [Hl Hn Hc] Hlt Hcw Hnin. split.
  - rewrite length_app. simpl. lia.
  - rewrite fmap_app. apply NoDup_app. split_and!; [done | | apply NoDup_singleton].
    intros x Hx ->%list_elem_of_singleton. done.
  - apply Forall_app. split; [done|]. constructor; [done | constructor].
Qed.

Lemma bucket_wf_fmap_id self idx b b' :
  bucket_wf self idx b -> cID <$> b' = cID <$> b -> bucket_wf self idx b'.
Proof.
  intros [Hl Hn Hc] E. split.
  - apply (f_equal length) in E. rewrite !length_fmap in E. lia.
  - by rewrite E.
  - assert (Forall (fun id => id_ok id /\ id <> self /\ BucketIndex (XOR self id) = Z.of_nat idx)
      (cID <$> b)) as H by (apply Forall_fmap; exact Hc).
    rewrite <- E in H. apply Forall_fmap in H. exact H.
Qed.

Lemma bucket_add_wf self idx c b :
  bucket_wf self idx b -> contact_wf self idx c -> bucket_wf self idx (bucket_add c b).
Proof.
  intros Hb Hc. unfold bucket_add. destruct (find_id (cID c) b) as [i|] eqn:E.
  - apply find_id_Some in E as (e & Hi & He). apply (bucket_wf_fmap_id _ _ b); [done|].
    rewrite list_fmap_insert. apply list_insert_id. by rewrite list_lookup_fmap, Hi, <- He.
  - apply find_id_None in E. destruct (Nat.leb_spec K (length b)).
    + apply bucket_wf_snoc; [| | done |].
      * eapply bucket_wf_sublist; [apply sublist_drop | done].
      * rewrite length_drop. pose proof (bwf_len _ _ _ Hb). unfold K in *. lia.
      * intros Hin. apply E. rewrite fmap_drop in Hin. eapply elem_of_sublist; [exact Hin|].
        apply sublist_drop.
    + by apply bucket_wf_snoc.
Qed.

Lemma bucket_remove_wf self idx id b : bucket_wf self idx b -> bucket_wf self idx (bucket_remove id b).
Proof.
  intros Hb. unfold bucket_remove. destruct (find_id id b); [|done].
  eapply bucket_wf_sublist; [apply cut_at_sublist | done].
Qed.

Lemma alter_set_missed_ids (f : Contact -> Contact) (i : nat) (b : bucket) :
  (forall c, cID (f c) = cID c) -> cID <$> alter f i b = cID <$> b.
Proof.
  intros Hf. apply list_eq. intros j. rewrite !list_lookup_fmap, list_lookup_alter.
  case_decide; [subst|done]. destruct (b !! j); simpl; [by rewrite Hf | done].
Qed.

Lemma bucket_resetMissed_wf self idx id b :
  bucket_wf self idx b -> bucket_wf self idx (bucket_resetMissed id b).
Proof.
  intros Hb. unfold bucket_resetMissed. destruct (find_id id b); [|done].
  apply (bucket_wf_fmap_id _ _ b); [done|]. by apply alter_set_missed_ids.
Qed.

Lemma bucket_markMissed_wf self idx id b :
  bucket_wf self idx b -> bucket_wf self idx (bucket_markMissed id b).
Proof.
  intros Hb. unfold bucket_markMissed. destruct (find_id id b) as [i|]; [|done].
  set (b' := alter _ i b).
  assert (bucket_wf self idx b') as Hb'
    by (apply (bucket_wf_fmap_id _ _ b); [done | by apply alter_set_missed_ids]).
  destruct (b' !! i); [|done]. destruct (_ <=? _); [|done].
  eapply bucket_wf_sublist; [apply cut_at_sublist | done].
Qed.

Lemma rt_update_wf f id rt :
  rt_wf rt -> id_ok id ->
  (forall idx b, BucketIndex (XOR (rt_self rt) id) = Z.of_nat idx ->
     bucket_wf (rt_self rt) idx b -> bucket_wf (rt_self rt) idx (f b)) ->
  rt_wf (rt_update f id rt).
Proof.
  intros [Hs Hl Hb] Hid Hf. split; simpl; [done | by rewrite length_alter |].
  pose proof (BucketIndex_bound _ (XOR_ok _ _ Hs Hid)) as Hidx.
  intros i b. rewrite list_lookup_alter. case_decide as Hi; [|apply Hb]. rewrite Hi.
  destruct (rt_buckets rt !! i) as [b0|] eqn:E; simpl; [|done]. intros [= <-].
  apply Hf; [lia | by apply Hb].
Qed.

Lemma rt_Add_wf c rt : rt_wf rt -> id_ok (cID c) -> rt_wf (rt_Add c rt).
Proof.
  intros Hrt Hc. unfold rt_Add. case_decide as Hne; [done|]. apply rt_update_wf; [done..|].
  intros idx b Hidx Hb. apply bucket_add_wf; [done|]. by split_and!.
Qed.

Lemma rt_Remove_wf id rt : rt_wf rt -> id_ok id -> rt_wf (rt_Remove id rt).
Proof. intros. apply rt_update_wf; [done..|]. intros. by apply bucket_remove_wf. Qed.

Lemma rt_MarkMissed_wf id rt : rt_wf rt -> id_ok id -> rt_wf (rt_MarkMissed id rt).
Proof. intros. apply rt_update_wf; [done..|]. intros. by apply bucket_markMissed_wf. Qed.

Lemma rt_ResetMissed_wf id rt : rt_wf rt -> id_ok id -> rt_wf (rt_ResetMissed id rt).
Proof. intros. apply rt_update_wf; [done..|]. intros. by apply bucket_resetMissed_wf. Qed.

Lemma NewRoutingTable_wf self : id_ok self -> rt_wf (NewRoutingTable self).
Proof.
  intros Hs. split; cbn [rt_self rt_buckets NewRoutingTable]; [done | by rewrite length_replicate |].
  intros i b [-> _]%lookup_replicate. split; [simpl; lia | constructor | constructor].
Qed.

Create HintDb rt_wf.
#[export] Hint Resolve rt_Add_wf rt_Remove_wf rt_MarkMissed_wf rt_ResetMissed_wf NewRoutingTable_wf : rt_wf.

(** Every contact of a well-formed table is a foreign node, listed once. *)
Lemma rt_wf_contact rt c : rt_wf rt -> c ∈ rt_All rt -> id_ok (cID c) /\ cID c <> rt_self rt.
Proof.
  intros Hrt Hc. unfold rt_All in Hc. apply list_elem_of_In, in_concat in Hc as (b & Hb & Hc).
  apply list_elem_of_In, list_elem_of_lookup in Hb as [i Hi].
  pose proof (bwf_contacts _ _ _ (rwf_buckets _ Hrt _ _ Hi)) as Hf.
  rewrite Forall_forall in Hf. destruct (Hf c) as (? & ? & _); [by apply list_elem_of_In | done].
Qed.

Lemma rt_Size_All rt : rt_Size rt = lenZ (rt_All rt).
Proof.
  unfold rt_Size, rt_All.
  enough (forall n, fold_left (fun n b => n + lenZ b) (rt_buckets rt) n = n + lenZ (concat (rt_buckets rt)))
    as E by (rewrite E; lia).
  induction (rt_buckets rt) as [|b bs IH]; intros n; simpl; [lia|].
  rewrite IH, length_app. lia.
Qed.

Lemma rt_Size_bound rt : rt_wf rt -> 0 <= rt_Size rt <= Z.of_nat K * Z.of_nat IDBits.
Proof.
  intros Hrt. rewrite rt_Size_All. split; [lia|].
  assert (forall bs : list bucket, Forall (fun b => (length b <= K)%nat) bs ->
    (length (concat bs) <= K * length bs)%nat) as H.
  { unfold K. induction 1; simpl; [lia|]. rewrite length_app. lia. }
  unfold rt_All. pose proof (H (rt_buckets rt)) as H'. rewrite (rwf_len _ Hrt) in H'.
  enough (length (concat (rt_buckets rt)) <= K * IDBits)%nat by lia.
  apply H'. apply Forall_lookup. intros i b Hi. apply (rwf_buckets _ Hrt _ _ Hi).
Qed.

(** ** Membership, bucket by bucket *)

(** The bucket an identifier belongs to. *)
Definition rt_bucket (rt : RoutingTable) (id : ID) : bucket :=
  default [] (rt_buckets rt !! Z.to_nat (BucketIndex (XOR (rt_self rt) id))).

Lemma rt_All_bucket rt c : rt_wf rt -> c ∈ rt_All rt <-> c ∈ rt_bucket rt (cID c).
Proof.
  intros Hrt. unfold rt_All, rt_bucket. split.
  - intros (b & Hb & Hc)%list_elem_of_In%in_concat.
    apply list_elem_of_In, list_elem_of_lookup in Hb as [i Hi]. apply list_elem_of_In in Hc.
    pose proof (bwf_contacts _ _ _ (rwf_buckets _ Hrt _ _ Hi)) as Hf. rewrite Forall_forall in Hf.
    destruct (Hf c Hc) as (_ & _ & ->). by rewrite Nat2Z.id, Hi.
  - destruct (rt_buckets rt !! _) as [b|] eqn:E; simpl; [|by intros ?%not_elem_of_nil].
    intros Hc. apply list_elem_of_In, in_concat. exists b.
    split; apply list_elem_of_In; [by eapply list_elem_of_lookup_2 | done].
Qed.

Lemma rt_update_bucket f id id' rt :
  rt_wf rt -> id_ok id -> id_ok id' ->
  rt_bucket (rt_update f id rt) id'
  = if decide (BucketIndex (XOR (rt_self rt) id) = BucketIndex (XOR (rt_self rt) id'))
    then f (rt_bucket rt id') else rt_bucket rt id'.
Proof.
  intros Hrt H H'. unfold rt_bucket, rt_update. cbn [rt_self rt_buckets].
  pose proof (BucketIndex_bound _ (XOR_ok _ _ (rwf_self _ Hrt) H)).
  pose proof (BucketIndex_bound _ (XOR_ok _ _ (rwf_self _ Hrt) H')).
  rewrite list_lookup_alter. case_decide as E.
  - rewrite decide_True by lia. rewrite E.
    destruct (lookup_lt_is_Some_2 (rt_buckets rt) (Z.to_nat (BucketIndex (XOR (rt_self rt) id'))))
      as [b Hb]; [rewrite (rwf_len _ Hrt); unfold IDBits in *; lia|]. by rewrite Hb.
  - by rewrite decide_False by (intros E'; apply E; lia).
Qed.

Lemma bucket_add_elem c b : c ∈ bucket_add c b.
Proof.
  unfold bucket_add. destruct (find_id _ _) as [i|] eqn:E.
  - apply find_id_Some in E as (e & Hi & _). eapply list_elem_of_lookup_2 with (i := i).
    apply list_lookup_insert_eq. by eapply lookup_lt_Some.
  - apply elem_of_app. right. by apply list_elem_of_singleton.
Qed.

Lemma bucket_add_inv c c' b : c' ∈ bucket_add c b -> c' = c \/ c' ∈ b.
Proof.
  unfold bucket_add. destruct (find_id _ _) as [i|] eqn:E.
  - intros [j Hj]%list_elem_of_lookup. destruct (decide (i = j)) as [->|Hne].
    + left. apply find_id_Some in E as (e & Hi & _).
      rewrite list_lookup_insert_eq in Hj by (by eapply lookup_lt_Some). congruence.
    + rewrite list_lookup_insert_ne in Hj by done. right. by eapply list_elem_of_lookup_2.
  - intros [Hin|Hin]%elem_of_app; [|left; by apply list_elem_of_singleton].
    right. destruct (_ <=? _)%nat; [|done]. eapply elem_of_sublist; [exact Hin | apply sublist_drop].
Qed.

Lemma bucket_add_keeps c c' b :
  c' ∈ b -> cID c' <> cID c ->
  c' ∈ bucket_add c b \/ ((K <= length b)%nat /\ head b = Some c' /\ cID c ∉ cID <$> b).
Proof.
  intros Hin Hne. unfold bucket_add. destruct (find_id _ _) as [i|] eqn:E.
  - left. apply list_elem_of_lookup in Hin as [j Hj].
    destruct (decide (i = j)) as [->|Hij].
    + apply find_id_Some in E as (e & Hi & He). congruence.
    + eapply list_elem_of_lookup_2 with (i := j). by rewrite list_lookup_insert_ne.
  - apply find_id_None in E. destruct (Nat.leb_spec K (length b)); [|left; apply elem_of_app; by left].
    destruct b as [|e b]; [by apply not_elem_of_nil in Hin|].
    apply elem_of_cons in Hin as [->|Hin]; [by right|]. left. simpl.
    apply elem_of_app. by left.
Qed.

Lemma NoDup_ids_find b i c id :
  NoDup (cID <$> b) -> b !! i = Some c -> cID c = id -> find_id id b = Some i.
Proof.
  intros Hn Hi Hc. destruct (find_id id b) as [j|] eqn:E.
  - apply find_id_Some in E as (e & Hj & He). f_equal.
    eapply (NoDup_lookup _ _ _ id Hn); rewrite list_lookup_fmap; [by rewrite Hj, <- He | by rewrite Hi, <- Hc].
  - apply find_id_None in E. exfalso. apply E. apply list_elem_of_fmap. exists c.
    split; [done | by eapply list_elem_of_lookup_2].
Qed.

(** One missed ping: the counter grows and the contact is suspect, or it is dropped. *)
Lemma bucket_markMissed_spec b i c :
  NoDup (cID <$> b) -> b !! i = Some c ->
  bucket_markMissed (cID c) b
  = if maxMissedPings <=? cMissedPings c + 1 then cut_at i b
    else <[i := set_missed (cMissedPings c + 1) true c]> b.
Proof.
  intros Hn Hi. unfold bucket_markMissed. rewrite (NoDup_ids_find b i c) by done.
  assert (alter (fun c => set_missed (cMissedPings c + 1) true c) i b
    = <[i := set_missed (cMissedPings c + 1) true c]> b) as ->.
  { apply list_eq. intros j. rewrite list_lookup_alter. pose proof (lookup_lt_Some _ _ _ Hi).
    case_decide as Hij; [subst j; by rewrite Hi, list_lookup_insert_eq|].
    by rewrite list_lookup_insert_ne. }
  rewrite list_lookup_insert_eq by (by eapply lookup_lt_Some). cbn [cMissedPings set_missed].
  destruct (_ <=? _); [|done]. rewrite !cut_at_delete.
  apply list_eq. intros j. destruct (Nat.lt_ge_cases j i).
  - rewrite !list_lookup_delete_lt by done. by rewrite list_lookup_insert_ne by lia.
  - rewrite !list_lookup_delete_ge by done. by rewrite list_lookup_insert_ne by lia.
Qed.

(** ** Distinct identifiers across the whole table *)

Lemma NoDup_concat_ids (bs : list bucket) (key : ID -> nat) :
  (forall i b, bs !! i = Some b -> NoDup (cID <$> b)) ->
  (forall i b c, bs !! i = Some b -> c ∈ b -> key (cID c) = i) ->
  NoDup (cID <$> concat bs).
Proof.
  revert key. induction bs as [|b bs IH]; intros key Hn Hk; simpl; [constructor|].
  rewrite fmap_app. apply NoDup_app. split_and!.
  - by apply (Hn 0%nat).
  - intros id (c & -> & Hc)%list_elem_of_fmap (c' & E & Hc')%list_elem_of_fmap.
    apply list_elem_of_In, in_concat in Hc' as (b' & Hb' & Hc').
    apply list_elem_of_In, list_elem_of_lookup in Hb' as [i Hi]. apply list_elem_of_In in Hc'.
    pose proof (Hk (S i) b' c' Hi Hc') as E1. pose proof (Hk 0%nat b c eq_refl Hc) as E2.
    rewrite E in E2. lia.
  - apply (IH (fun id => pred (key id))).
    + intros i b' Hb'. by apply (Hn (S i)).
    + intros i b' c Hb' Hc. by rewrite (Hk (S i) b' c).
Qed.

Lemma rt_wf_nodup rt : rt_wf rt -> NoDup (cID <$> rt_All rt).
Proof.
  intros Hrt. apply (NoDup_concat_ids _ (fun id => Z.to_nat (BucketIndex (XOR (rt_self rt) id)))).
  - intros i b Hi. apply (rwf_buckets _ Hrt _ _ Hi).
  - intros i b c Hi Hc. pose proof (bwf_contacts _ _ _ (rwf_buckets _ Hrt _ _ Hi)) as Hf.
    rewrite Forall_forall in Hf. destruct (Hf c Hc) as (_ & _ & ->). lia.
Qed.

(** ** Behaviour of the table over any history of calls *)

Inductive rt_op :=
| OpAdd (c : Contact)
| OpRemove (id : ID)
| OpMarkMissed (id : ID)
| OpResetMissed (id : ID).

Definition rt_op_ok (o : rt_op) : Prop :=
  match o with
  | OpAdd c => id_ok (cID c)
  | OpRemove id | OpMarkMissed id | OpResetMissed id => id_ok id
  end.

#[export] Instance rt_op_ok_dec o : Decision (rt_op_ok o).
Proof. destruct o; apply _. Defined.

Definition rt_run (o : rt_op) (rt : RoutingTable) : RoutingTable :=
  match o with
  | OpAdd c => rt_Add c rt
  | OpRemove id => rt_Remove id rt
  | OpMarkMissed id => rt_MarkMissed id rt
  | OpResetMissed id => rt_ResetMissed id rt
  end.

Lemma rt_run_wf o rt : rt_op_ok o -> rt_wf rt -> rt_wf (rt_run o rt).
Proof. destruct o; simpl; auto with rt_wf. Qed.

Lemma rt_run_self o rt : rt_self (rt_run o rt) = rt_self rt.
Proof. destruct o; simpl; unfold rt_Add; [case_decide|..]; done. Qed.

Lemma rt_history_wf ops rt : Forall rt_op_ok ops -> rt_wf rt ->
  rt_wf (fold_left (fun t o => rt_run o t) ops rt)
  /\ rt_self (fold_left (fun t o => rt_run o t) ops rt) = rt_self rt.
Proof.
  intros Hops. revert rt. induction Hops as [|o ops Ho _ IH]; intros rt Hrt; [done|].
  simpl. destruct (IH (rt_run o rt)) as [H1 H2]; [by apply rt_run_wf|].
  split; [done|]. by rewrite H2, rt_run_self.
Qed.

(** C11: Whatever sequence of Add, Remove, MarkMissed and ResetMissed calls a
    fresh table receives, it never lists the node itself, never lists an
    identifier twice, keeps every contact in the bucket of its distance, and
    holds at most 8 contacts per bucket and 2048 in all; Size counts All. *)
Theorem rt_history_invariant self ops :
  id_ok self -> Forall rt_op_ok ops ->
  let rt := fold_left (fun t o => rt_run o t) ops (NewRoutingTable self) in
  self ∉ cID <$> rt_All rt
  /\ NoDup (cID <$> rt_All rt)
  /\ (forall i b c, rt_buckets rt !! i = Some b -> c ∈ b ->
        BucketIndex (XOR self (cID c)) = Z.of_nat i)
  /\ (forall i b, rt_buckets rt !! i = Some b -> (length b <= K)%nat)
  /\ rt_Size rt = lenZ (rt_All rt) /\ rt_Size rt <= 2048.
Proof.
  intros Hs Hops rt.
  destruct (rt_history_wf ops (NewRoutingTable self) Hops) as [Hwf Hself]; [by auto with rt_wf|].
  fold rt in Hwf, Hself. cbn [rt_self NewRoutingTable] in Hself.
  split_and!.
  - intros (c & E & Hc)%list_elem_of_fmap. destruct (rt_wf_contact _ _ Hwf Hc). congruence.
  - by apply rt_wf_nodup.
  - intros i b c Hb Hc. pose proof (bwf_contacts _ _ _ (rwf_buckets _ Hwf _ _ Hb)) as Hf.
    rewrite Forall_forall in Hf. destruct (Hf c Hc) as (_ & _ & <-). by rewrite Hself.
  - intros i b Hb. apply (rwf_buckets _ Hwf _ _ Hb).
  - apply rt_Size_All.
  - pose proof (rt_Size_bound _ Hwf). unfold K, IDBits in *. lia.
Qed.

Definition test_id (b : Z) : ID := b :: replicate 31 0.
Definition test_contact (b : Z) : Contact := MkContact (test_id b) (bs "10.0.0.1:4567") 0 0 false.

Lemma rt_history_invariant_witness :
  let ops := [OpAdd (test_contact 1); OpAdd (test_contact 2); OpMarkMissed (test_id 1);
              OpAdd (test_contact 0); OpRemove (test_id 2)] in
  let rt := fold_left (fun t o => rt_run o t) ops (NewRoutingTable (test_id 0)) in
  NoDup (cID <$> rt_All rt) /\ rt_Size rt = 1.
Proof.
  split; [|vm_compute; reflexivity].
  refine (proj1 (proj2 (rt_history_invariant (test_id 0) _ _ _))); apply (bool_decide_eq_true _); vm_compute; reflexivity.
Defined.

(** The bucket index of a non-zero distance is its number of leading zero
    bits: 255 minus the position of the highest differing bit. *)
Theorem BucketIndex_leading_zeros a b :
  id_ok a -> id_ok b -> a <> b ->
  BucketIndex (XOR a b) = 255 - Z.log2 (be_get (XOR a b)).
Proof.
  intros Ha Hb Hne. pose proof (XOR_ok a b Ha Hb) as [Hl Hx].
  unfold BucketIndex. rewrite bucket_index_log2; [rewrite Hl; unfold IDBytes; lia | done |].
  pose proof (be_get_bound _ Hx) as Hg. destruct (Z.eq_dec (be_get (XOR a b)) 0) as [E|]; [|lia].
  destruct Hne. destruct Ha as [La Ha], Hb as [Lb Hb].
  apply (XOR_cancel a b b); [congruence | done |].
  rewrite <- (be_put_get _ Hx), E, Hl.
  assert (XOR b b = replicate (length b) 0) as ->.
  { clear. unfold XOR. induction b as [|x b IH]; simpl; [done|]. by rewrite Z.lxor_nilpotent, IH. }
  by rewrite Lb.
Qed.

Lemma BucketIndex_leading_zeros_witness :
  BucketIndex (XOR (test_id 1) (test_id 2)) = 255 - Z.log2 (be_get (XOR (test_id 1) (test_id 2))).
Proof. apply BucketIndex_leading_zeros; apply (bool_decide_eq_true _); vm_compute; reflexivity. Defined.

(** [Closer a b target] compares the 256-bit XOR distances as integers, and
    is decided by them: two different nodes are never equally close. *)
Theorem Closer_distance a b target :
  id_ok a -> id_ok b -> id_ok target ->
  Closer a b target = (be_get (XOR a target) <? be_get (XOR b target))
  /\ (a <> b -> Closer a b target = negb (Closer b a target)).
Proof.
  intros Ha Hb Ht. pose proof (XOR_ok a target Ha Ht) as [La Hxa].
  pose proof (XOR_ok b target Hb Ht) as [Lb Hxb]. unfold Closer.
  rewrite !lex_less_be by (done || congruence). split; [done|]. intros Hne.
  destruct (Z.ltb_spec (be_get (XOR a target)) (be_get (XOR b target)));
  destruct (Z.ltb_spec (be_get (XOR b target)) (be_get (XOR a target))); try done; [lia|].
  destruct Hne. destruct Ha, Hb, Ht. apply (XOR_cancel a b target); [congruence..|].
  rewrite <- (be_put_get _ Hxa), <- (be_put_get _ Hxb), La, Lb. f_equal. lia.
Qed.

Lemma Closer_distance_witness :
  Closer (test_id 4) (test_id 1) (test_id 5) = true
  /\ (test_id 4 <> test_id 1 -> Closer (test_id 4) (test_id 1) (test_id 5)
                                = negb (Closer (test_id 1) (test_id 4) (test_id 5))).
Proof.
  split; [vm_compute; reflexivity|].
  refine (proj2 (Closer_distance (test_id 4) (test_id 1) (test_id 5) _ _ _));
    apply (bool_decide_eq_true _); vm_compute; reflexivity.
Defined.

(** *** Lookup of the nearest contacts *)

Lemma elem_of_filter_list {A} (f : A -> bool) l x : x ∈ List.filter f l <-> x ∈ l /\ f x = true.
Proof. rewrite !list_elem_of_In. apply filter_In. Qed.

Lemma StronglySorted_take_drop {A} (R : A -> A -> Prop) l n x y :
  StronglySorted R l -> x ∈ take n l -> y ∈ drop n l -> R x y.
Proof.
  intros HS. revert n. induction HS as [|a l HS IH Ha]; intros n.
  - rewrite take_nil. by intros ?%not_elem_of_nil.
  - destruct n as [|n]; [by intros ?%not_elem_of_nil|]. simpl.
    intros [->|Hx]%elem_of_cons Hy; [|by apply (IH n)].
    rewrite Forall_forall in Ha. apply Ha. eapply elem_of_sublist; [exact Hy | apply sublist_drop].
Qed.

Lemma StronglySorted_take {A} (R : A -> A -> Prop) l n : StronglySorted R l -> StronglySorted R (take n l).
Proof.
  intros HS. revert n. induction HS as [|a l HS IH Ha]; intros [|n]; simpl; try constructor; [apply IH|].
  rewrite Forall_forall in Ha |- *. intros y Hy. apply Ha.
  eapply elem_of_sublist; [exact Hy | apply sublist_take].
Qed.

(** Closest returns n contacts (all the live ones when there are fewer), none
    suspect and none repeated, in increasing order of the 64-bit distance prefix,
    and no live contact it leaves out is nearer by that prefix than one it returns. *)
Theorem rt_Closest_spec `{GoSort} target n rt :
  rt_wf rt ->
  let live := List.filter (fun c => negb (cSuspect c)) (rt_All rt) in
  let out := rt_Closest target n rt in
  length out = Nat.min n (length live)
  /\ (forall c, c ∈ out -> c ∈ rt_All rt /\ cSuspect c = false)
  /\ NoDup (cID <$> out)
  /\ StronglySorted (fun a b => dist64 target a <= dist64 target b) out
  /\ (forall c d, c ∈ out -> d ∈ live -> d ∉ out -> dist64 target c <= dist64 target d).
Proof.
  intros Hrt live out.
  pose proof (sort_slice_perm _ (closest_less target) live) as HP.
  pose proof (sort_slice_sorted _ (dist64 target) live) as HS.
  change (fun x y => dist64 target x <? dist64 target y) with (closest_less target) in HS.
  unfold out, rt_Closest. fold live. set (l := sort_slice (closest_less target) live) in *.
  split_and!.
  - by rewrite length_take, (Permutation_length HP).
  - intros c Hc. assert (c ∈ live) as Hl.
    { rewrite <- HP. eapply elem_of_sublist; [exact Hc | apply sublist_take]. }
    apply elem_of_filter_list in Hl as [? ?%negb_true_iff]. done.
  - eapply sublist_NoDup; [|apply fmap_sublist, sublist_take]. rewrite HP.
    eapply sublist_NoDup; [apply (rt_wf_nodup _ Hrt)|]. apply fmap_sublist.
    unfold live. generalize (rt_All rt). induction l0 as [|a l0 IH]; simpl; [constructor|].
    destruct (negb (cSuspect a)); by constructor.
  - by apply StronglySorted_take.
  - intros c d Hc Hd Hnd. rewrite <- HP in Hd. rewrite <- (take_drop n l) in Hd.
    apply elem_of_app in Hd as [Hd|Hd]; [done|].
    exact (StronglySorted_take_drop _ _ _ _ _ HS Hc Hd).
Qed.

Definition test_table : RoutingTable :=
  fold_left (fun t o => rt_run o t)
    [OpAdd (test_contact 1); OpAdd (test_contact 2); OpAdd (test_contact 64); OpMarkMissed (test_id 2)]
    (NewRoutingTable (test_id 0)).

Lemma test_table_wf : rt_wf test_table.
Proof.
  apply rt_history_wf; [apply (bool_decide_eq_true _); vm_compute; reflexivity|].
  apply NewRoutingTable_wf. apply (bool_decide_eq_true _); vm_compute; reflexivity.
Qed.

Lemma rt_Closest_spec_witness :
  rt_Closest (test_id 3) 1 test_table = [test_contact 1]
  /\ NoDup (cID <$> rt_Closest (test_id 3) 1 test_table).
Proof.
  split; [vm_compute; reflexivity|].
  exact (proj1 (proj2 (proj2 (rt_Closest_spec (test_id 3) 1 test_table test_table_wf)))).
Defined.

(** *** Learning and forgetting contacts *)

Lemma rt_Add_elem c d rt :
  rt_wf rt -> id_ok (cID c) -> cID c <> rt_self rt -> id_ok (cID d) ->
  d ∈ rt_All (rt_Add c rt) <->
  d ∈ if decide (BucketIndex (XOR (rt_self rt) (cID c)) = BucketIndex (XOR (rt_self rt) (cID d)))
      then bucket_add c (rt_bucket rt (cID d)) else rt_bucket rt (cID d).
Proof.
  intros Hrt Hc Hne Hd. rewrite (rt_All_bucket _ _ (rt_Add_wf c rt Hrt Hc)).
  unfold rt_Add. rewrite decide_False by done. by rewrite rt_update_bucket.
Qed.

Lemma rt_Add_inv c d rt :
  rt_wf rt -> id_ok (cID c) -> d ∈ rt_All (rt_Add c rt) -> d = c \/ d ∈ rt_All rt.
Proof.
  intros Hrt Hc Hd. pose proof (proj1 (rt_wf_contact _ _ (rt_Add_wf c rt Hrt Hc) Hd)) as Hid.
  destruct (decide (cID c = rt_self rt)) as [E|Hne].
  { unfold rt_Add in Hd. rewrite decide_True in Hd by done. by right. }
  apply rt_Add_elem in Hd; [|done..]. rewrite (rt_All_bucket _ _ Hrt).
  case_decide; [by apply bucket_add_inv | by right].
Qed.

(** After Add c the table lists c; every other contact it held is still there
    unless c's bucket was full and did not list c, in which case exactly the
    oldest contact of that bucket makes room; and nothing else appears. *)
Theorem rt_Add_spec c rt :
  rt_wf rt -> id_ok (cID c) -> cID c <> rt_self rt ->
  c ∈ rt_All (rt_Add c rt)
  /\ (forall d, d ∈ rt_All (rt_Add c rt) -> d = c \/ d ∈ rt_All rt)
  /\ (forall d, d ∈ rt_All rt -> cID d <> cID c -> d ∉ rt_All (rt_Add c rt) ->
        length (rt_bucket rt (cID c)) = K /\ head (rt_bucket rt (cID c)) = Some d
        /\ cID c ∉ cID <$> rt_All rt).
Proof.
  intros Hrt Hc Hne. split_and!.
  - apply rt_Add_elem; [done..|]. rewrite decide_True by done. apply bucket_add_elem.
  - intros d. by apply rt_Add_inv.
  - intros d Hd Hdc Hnd. pose proof (proj1 (rt_wf_contact _ _ Hrt Hd)) as Hid.
    rewrite rt_Add_elem in Hnd by done. apply (rt_All_bucket _ _ Hrt) in Hd as Hd'.
    case_decide as E; [|done].
    assert (rt_bucket rt (cID d) = rt_bucket rt (cID c)) as Eb by (unfold rt_bucket; by rewrite E).
    rewrite Eb in *. destruct (bucket_add_keeps c d _ Hd' Hdc) as [?|(Hk & Hh & Hnin)]; [done|].
    split_and!; [|done|].
    + unfold rt_bucket in Hk |- *. destruct (rt_buckets rt !! _) as [b|] eqn:Eb'; simpl in *; [|unfold K in *; lia].
      pose proof (bwf_len _ _ _ (rwf_buckets _ Hrt _ _ Eb')). lia.
    + intros (e & Ee & He)%list_elem_of_fmap. apply Hnin. apply (rt_All_bucket _ _ Hrt) in He.
      rewrite <- Ee in He. apply list_elem_of_fmap. eauto.
Qed.

Lemma rt_Add_spec_witness :
  test_contact 8 ∈ rt_All (rt_Add (test_contact 8) test_table) /\ rt_Size test_table = 3.
Proof.
  split; [|vm_compute; reflexivity].
  refine (proj1 (rt_Add_spec (test_contact 8) test_table test_table_wf _ _));
    apply (bool_decide_eq_true _); vm_compute; reflexivity.
Defined.

Lemma rt_bucket_wf rt id : rt_wf rt -> id_ok id ->
  bucket_wf (rt_self rt) (Z.to_nat (BucketIndex (XOR (rt_self rt) id))) (rt_bucket rt id).
Proof.
  intros Hrt Hid. unfold rt_bucket. destruct (rt_buckets rt !! _) as [b|] eqn:E; simpl.
  - by apply (rwf_buckets _ Hrt).
  - split; [simpl; unfold K; lia | constructor | constructor].
Qed.

Lemma rt_MarkMissed_step rt c :
  rt_wf rt -> c ∈ rt_All rt ->
  let rt' := rt_MarkMissed (cID c) rt in
  if maxMissedPings <=? cMissedPings c + 1 then cID c ∉ cID <$> rt_All rt'
  else set_missed (cMissedPings c + 1) true c ∈ rt_All rt'.
Proof.
  intros Hrt Hc rt'. pose proof (proj1 (rt_wf_contact _ _ Hrt Hc)) as Hid.
  pose proof (rt_MarkMissed_wf (cID c) rt Hrt Hid) as Hwf. fold rt' in Hwf.
  pose proof (bwf_nodup _ _ _ (rt_bucket_wf rt (cID c) Hrt Hid)) as Hn.
  apply (rt_All_bucket _ _ Hrt) in Hc. apply list_elem_of_lookup in Hc as [i Hi].
  assert (rt_bucket rt' (cID c) = bucket_markMissed (cID c) (rt_bucket rt (cID c))) as Eb.
  { unfold rt', rt_MarkMissed. rewrite rt_update_bucket by done. by rewrite decide_True. }
  rewrite (bucket_markMissed_spec _ i c) in Eb by done. destruct (_ <=? _) eqn:Em.
  - intros (d & Ed & Hd)%list_elem_of_fmap. apply (rt_All_bucket _ _ Hwf) in Hd.
    rewrite <- Ed, Eb, cut_at_delete in Hd. apply list_elem_of_lookup in Hd as [j Hj].
    assert (exists k, k <> i /\ rt_bucket rt (cID c) !! k = Some d) as (k & Hki & Hk).
    { destruct (Nat.lt_ge_cases j i).
      - rewrite list_lookup_delete_lt in Hj by done. exists j. split; [lia | done].
      - rewrite list_lookup_delete_ge in Hj by done. exists (S j). split; [lia | done]. }
    apply Hki. eapply (NoDup_lookup _ _ _ (cID c) Hn); rewrite list_lookup_fmap; [by rewrite Hk, Ed | by rewrite Hi].
  - apply (rt_All_bucket _ _ Hwf). cbn [cID set_missed]. rewrite Eb.
    eapply list_elem_of_lookup_2 with (i := i). apply list_lookup_insert_eq. by eapply lookup_lt_Some.
Qed.

(** A contact that misses n pings in a row stays listed, suspect and with its
    counter advanced by n, while the counter is below maxMissedPings (4), and is
    gone once it would reach it; a fresh contact therefore survives exactly three. *)
Theorem missed_pings_evict rt c n :
  rt_wf rt -> c ∈ rt_All rt -> 0 <= cMissedPings c < maxMissedPings -> (0 < n)%nat ->
  let rt' := Nat.iter n (rt_MarkMissed (cID c)) rt in
  if cMissedPings c + Z.of_nat n <? maxMissedPings
  then set_missed (cMissedPings c + Z.of_nat n) true c ∈ rt_All rt'
  else cID c ∉ cID <$> rt_All rt'.
Proof.
  intros Hrt Hc Hm Hn rt'. pose proof (proj1 (rt_wf_contact _ _ Hrt Hc)) as Hid. unfold rt'. clear rt'.
  assert (forall k, rt_wf (Nat.iter k (rt_MarkMissed (cID c)) rt)) as Hwf.
  { intros k. induction k; simpl; auto with rt_wf. }
  destruct n as [|n]; [lia|]. clear Hn. induction n as [|n IH].
  - pose proof (rt_MarkMissed_step rt c Hrt Hc) as H. cbn zeta in H. simpl Nat.iter.
    change (Z.of_nat 1) with 1.
    destruct (Z.leb_spec maxMissedPings (cMissedPings c + 1)), (Z.ltb_spec (cMissedPings c + 1) maxMissedPings); (done || lia).
  - rewrite Nat.iter_succ. specialize (Hwf (S n)).
    set (t := Nat.iter (S n) (rt_MarkMissed (cID c)) rt) in *.
    destruct (Z.ltb_spec (cMissedPings c + Z.of_nat (S n)) maxMissedPings).
    + pose proof (rt_MarkMissed_step t _ Hwf IH) as H'. cbn [cID cMissedPings set_missed] in H'. cbn zeta in H'.
      replace (cMissedPings c + Z.of_nat (S (S n))) with (cMissedPings c + Z.of_nat (S n) + 1) by lia.
      destruct (Z.leb_spec maxMissedPings (cMissedPings c + Z.of_nat (S n) + 1)),
        (Z.ltb_spec (cMissedPings c + Z.of_nat (S n) + 1) maxMissedPings); (done || lia).
    + destruct (Z.ltb_spec (cMissedPings c + Z.of_nat (S (S n))) maxMissedPings); [lia|].
      intros (d & Ed & Hd)%list_elem_of_fmap. apply IH.
      apply (rt_All_bucket _ _ (rt_MarkMissed_wf _ _ Hwf Hid)) in Hd. rewrite <- Ed in Hd.
      unfold rt_MarkMissed in Hd. rewrite rt_update_bucket, decide_True in Hd by done.
      unfold bucket_markMissed in Hd. destruct (find_id (cID c) (rt_bucket t (cID c))) as [i|] eqn:Ef.
      * apply find_id_Some in Ef as (e & Hi & He). apply list_elem_of_fmap. exists e.
        split; [done|]. apply (rt_All_bucket _ _ Hwf). rewrite He. by eapply list_elem_of_lookup_2.
      * apply list_elem_of_fmap. exists d. split; [done|]. apply (rt_All_bucket _ _ Hwf). by rewrite <- Ed.
Qed.

Lemma missed_pings_evict_witness :
  set_missed 3 true (test_contact 1) ∈ rt_All (Nat.iter 3 (rt_MarkMissed (test_id 1)) test_table)
  /\ test_id 1 ∉ cID <$> rt_All (Nat.iter 4 (rt_MarkMissed (test_id 1)) test_table).
Proof.
  assert (test_contact 1 ∈ rt_All test_table) as H
    by (apply (bool_decide_eq_true _); vm_compute; reflexivity).
  split.
  - exact (missed_pings_evict test_table (test_contact 1) 3 test_table_wf H
      ltac:(vm_compute; split; congruence) ltac:(lia)).
  - exact (missed_pings_evict test_table (test_contact 1) 4 test_table_wf H
      ltac:(vm_compute; split; congruence) ltac:(lia)).
Defined.
End Dht.
