(* ===== verification/DhtWire.v ===== *)
(** * dht: encrypted datagrams and signed relay entries

    [Seal] and [Open] of src/dht/dht_wire.go, and the relay entries of
    src/dht/dht.go with the canonical payload their signature covers. The random
    source is an argument: what each [rand.Read] returned. *)

From stdpp Require Import base list gmap strings fin_maps.
From Stdlib Require Import ZArith Lia.
From S2P Require Import Prelude GoLib DhtTable.

Module Wire.

Definition NonceSize : Z := 12.
Definition MaxTTL : Z := 8.
Definition Overhead : Z := 16.

(** The results of the three reads of the random source in one [Seal] call. *)
Record SealRand := MkRand {
  sr_pad : res Z;
  sr_fill : nat -> res bytes;
  sr_nonce : res bytes }.

Definition rand_ok (r : SealRand) : Prop :=
  exists p n, sr_pad r = Ok p /\ byte_ok p /\ sr_nonce r = Ok n /\ lenZ n = NonceSize
    /\ forall k, exists f, sr_fill r k = Ok f /\ length f = k.

Section wire.
Context {AE : Aead} (key : bytes).

(** [Seal] after the payload is marshalled: [body] is empty for a nil payload. *)
Definition Seal (r : SealRand) (msgType ttl : Z) (body : bytes) : res bytes :=
  let ttl := if ttl =? 0 then MaxTTL else ttl in
  padByte ← sr_pad r;
  let padLen := Z.to_nat (Z.land padByte 0x0F) in
  fill ← (if (0 <? padLen)%nat then sr_fill r padLen else Ok []);
  nonce ← sr_nonce r;
  let plain := [msgType; ttl; u8 (Z.of_nat padLen)] ++ fill ++ body in
  Ok (nonce ++ aead_seal key nonce plain).

Definition Open (pkt : bytes) : res (Z * Z * bytes) :=
  let minLen := NonceSize + 3 + Overhead in
  if lenZ pkt <? minLen then Err "dht-wire: packet too short"
  else
    nonce ← go_slice pkt 0 NonceSize;
    ct ← go_slice pkt NonceSize (lenZ pkt);
    match aead_open key nonce ct with
    | None => Err "dht-wire: auth failed"
    | Some plain =>
        padLen ← go_index plain 2;
        if lenZ plain <? 3 + padLen then Err "dht-wire: invalid pad_len"
        else
          ty ← go_index plain 0;
          ttl ← go_index plain 1;
          body ← go_slice plain (3 + padLen) (lenZ plain);
          Ok (ty, ttl, body)
    end.

Lemma pad_nibble p : 0 <= Z.land p 15 < 16.
Proof.
  change 15 with (Z.ones 4). rewrite Z.land_ones by lia. apply Z.mod_pos_bound. lia.
Qed.

Lemma Open_frame nonce ty ttl pad (fill body : bytes) :
  lenZ nonce = NonceSize -> pad = lenZ fill ->
  Open (nonce ++ aead_seal key nonce ([ty; ttl; pad] ++ fill ++ body)) = Ok (ty, ttl, body).
Proof.
  intros Hn ->. unfold Open, NonceSize, Overhead in *. set (plain := [ty; ttl; lenZ fill] ++ fill ++ body).
  assert (lenZ plain = 3 + lenZ fill + lenZ body) as Hlp
    by (unfold plain; rewrite !length_app; simpl; lia).
  assert (lenZ (nonce ++ aead_seal key nonce plain) = 28 + lenZ plain) as Hl
    by (rewrite length_app, aead_length_seal; lia).
  rewrite (proj2 (Z.ltb_ge _ _)) by lia.
  rewrite go_slice_prefix by lia. cbn [mbind res_bind].
  rewrite go_slice_suffix by (done || lia). cbn [mbind res_bind]. rewrite aead_open_seal.
  rewrite (go_index_lookup plain 2 (lenZ fill)) by done. cbn [mbind res_bind].
  rewrite (proj2 (Z.ltb_ge _ _)) by lia.
  rewrite (go_index_lookup plain 0 ty), (go_index_lookup plain 1 ttl) by done. cbn [mbind res_bind].
  assert (plain = ([ty; ttl; lenZ fill] ++ fill) ++ body) as -> by (unfold plain; by rewrite <- app_assoc).
  rewrite go_slice_suffix; [done | rewrite length_app; simpl; lia | done].
Qed.

Lemma Seal_opens r ty ttl body :
  rand_ok r ->
  exists pkt, Seal r ty ttl body = Ok pkt
    /\ Open pkt = Ok (ty, if ttl =? 0 then MaxTTL else ttl, body)
    /\ lenZ body + 31 <= lenZ pkt <= lenZ body + 46.
Proof.
  intros (p & n & Ep & Hp & En & Hn & Hf). unfold Seal. rewrite Ep, En. cbn [mbind res_bind].
  pose proof (pad_nibble p) as Hnib. set (k := Z.to_nat (Z.land p 15)) in *.
  assert (u8 (Z.of_nat k) = Z.of_nat k) as Eu by (unfold u8; apply Z.mod_small; lia).
  assert (exists f, (if (0 <? k)%nat then sr_fill r k else Ok []) = Ok f /\ length f = k) as (f & Ef & Hlf).
  { destruct (Nat.ltb_spec 0 k); [apply Hf|]. exists []. split; [done | simpl; lia]. }
  rewrite Ef. cbn [mbind res_bind]. eexists. split; [reflexivity|]. split.
  - apply Open_frame; [done | lia].
  - rewrite length_app, aead_length_seal, !length_app. simpl length. unfold NonceSize in *. lia.
Qed.

(** Whatever the random padding and nonce, a sealed message opens to its type,
    its body and its hop count, where a hop count of 0 stands for MaxTTL; the
    datagram is 31 to 46 bytes longer than the body. *)
Theorem Open_Seal r ty ttl body :
  rand_ok r ->
  exists pkt, Seal r ty ttl body = Ok pkt
    /\ Open pkt = Ok (ty, if ttl =? 0 then MaxTTL else ttl, body)
    /\ lenZ body + 31 <= lenZ pkt <= lenZ body + 46.
Proof. apply Seal_opens. Qed.

(** Open is total on arbitrary datagrams: it returns a message or an error
    and never indexes out of range, and what it accepts is 31 bytes longer than
    the body it returns, or more. *)
Theorem Open_total pkt :
  bytes_ok pkt ->
  no_panic (Open pkt)
  /\ (forall ty ttl body, Open pkt = Ok (ty, ttl, body) -> lenZ body + 31 <= lenZ pkt).
Proof.
  intros Hb. unfold Open, NonceSize, Overhead, no_panic.
  destruct (Z.ltb_spec (lenZ pkt) (12 + 3 + 16)); [done|].
  destruct (go_slice_ok pkt 0 12) as (nonce & -> & _); [lia..|]. cbn [mbind res_bind].
  destruct (go_slice_ok pkt 12 (lenZ pkt)) as (ct & Ect & Hlct); [lia..|].
  pose proof (go_slice_Forall _ _ _ _ _ Ect Hb) as Hct. rewrite Ect. cbn [mbind res_bind].
  destruct (aead_open key nonce ct) as [plain|] eqn:E; [|done].
  pose proof (aead_open_bytes _ _ _ _ Hct E) as Hp. apply aead_open_length in E.
  destruct (go_index_ok plain 2) as (pad & -> & Hpad); [lia|]. cbn [mbind res_bind].
  pose proof (Forall_lookup_1 _ _ _ _ Hp Hpad) as Hpb. unfold byte_ok in Hpb.
  destruct (Z.ltb_spec (lenZ plain) (3 + pad)); [done|].
  destruct (go_index_ok plain 0) as (ty & -> & _); [lia|]. cbn [mbind res_bind].
  destruct (go_index_ok plain 1) as (ttl & -> & _); [lia|]. cbn [mbind res_bind].
  destruct (go_slice_ok plain (3 + pad) (lenZ plain)) as (body & -> & Hbody); [lia..|]. cbn [mbind res_bind].
  split; [done|]. intros ty' ttl' body' [= <- <- <-]. lia.
Qed.
End wire.

Definition test_rand : SealRand := MkRand (Ok 0x53) (fun k => Ok (replicate k 7)) (Ok (replicate 12 1)).
Definition test_pkt : bytes :=
  match Seal (replicate 32 9) test_rand 1 0 (bs "{}") with Ok p => p | _ => [] end.

Lemma Open_Seal_witness :
  Open (replicate 32 9) test_pkt = Ok (1, 8, bs "{}")
  /\ exists pkt, Seal (replicate 32 9) test_rand 1 0 (bs "{}") = Ok pkt
    /\ Open (replicate 32 9) pkt = Ok (1, if 0 =? 0 then MaxTTL else 0, bs "{}")
    /\ lenZ (bs "{}") + 31 <= lenZ pkt <= lenZ (bs "{}") + 46.
Proof.
  split; [vm_compute; reflexivity|]. apply (Open_Seal (replicate 32 9) test_rand 1 0 (bs "{}")).
  exists 0x53, (replicate 12 1). split_and!; [done | vm_compute; split; congruence | done | done |].
  intros k. exists (replicate k 7). split; [done | apply length_replicate].
Defined.

Lemma Open_total_witness : no_panic (Open (replicate 32 9) (take 40 test_pkt)).
Proof.
  apply (Open_total (replicate 32 9) (take 40 test_pkt)). apply (bool_decide_eq_true _); vm_compute; reflexivity.
Defined.
End Wire.
