(* ===== verification/DhtStore.v ===== *)
(** * dht: the stores of relay entries and of complete content peers

    Relay entries and their verification (src/dht/dht.go), the relay store
    (src/dht/dht_node.go) and the index of peers that hold the whole content
    (src/dht/dht_content.go). Clocks are arguments: [time.Now().Unix()] in
    seconds for the relay store, [time.Now()] in nanoseconds for the index. *)

From stdpp Require Import base list gmap strings fin_maps.
From Stdlib Require Import ZArith Lia.
From S2P Require Import Prelude GoLib DhtTable.

Module Relay.
Import Dht.

(** ** Relay entries *)

Record RelayEntry := MkRelayEntry {
  NodeID : gostring;
  Addr : gostring;
  CountryCode : gostring;
  TS : Z;
  Sig : gostring }.

#[export] Instance RelayEntry_eq_dec : EqDecision RelayEntry.
Proof. solve_decision. Defined.

Definition bar : Z := 124.

Definition relayEntryPayload (e : RelayEntry) : bytes :=
  NodeID e ++ [bar] ++ Addr e ++ [bar] ++ CountryCode e ++ [bar] ++ Strconv.itoa (TS e).

Definition PublicKeySize : nat := 32.
Definition SignatureSize : nat := 64.

Section relay.
Context {ED : Ed25519}.

Definition VerifyRelayEntry (e : RelayEntry) : res () :=
  if negb (length (NodeID e) =? PublicKeySize * 2)%nat then Err "dht: bad node_id length"
  else match Hex.decode (NodeID e) with
  | None => Err "dht: node_id not hex"
  | Some pub =>
      match Base64.decode (Sig e) with
      | Some sig =>
          if (length sig =? SignatureSize)%nat then
            if ed25519_verify pub (relayEntryPayload e) sig then Ok ()
            else Err "dht: signature verification failed"
          else Err "dht: bad sig encoding"
      | None => Err "dht: bad sig encoding"
      end
  end.

(** ** relayStore *)

Abbreviation relayStore := (gmap gostring RelayEntry).

(** [int64(RelayTTL.Seconds())] *)
Definition RelayTTL_s : Z := RelayTTL / second.

Definition relay_store (now : Z) (e : RelayEntry) (s : relayStore) : res () * relayStore :=
  match VerifyRelayEntry e with
  | Ok _ =>
      let age := int64 (now - TS e) in
      if (RelayTTL_s <? age) || (age <? - RelayTTL_s)
      then (Err "relay-store: stale/future entry", s)
      else match s !! NodeID e with
           | Some existing =>
               if TS e <=? TS existing then (Ok (), s) else (Ok (), <[NodeID e := e]> s)
           | None => (Ok (), <[NodeID e := e]> s)
           end
  | Err _ => (Err "relay-store: invalid sig", s)
  | Panic => (Panic, s)
  end.

(** [all]: the map's iteration order is unspecified, so the result is a set of
    entries, here in the order of [map_to_list]. *)
Definition relay_all (now : Z) (s : relayStore) : list RelayEntry :=
  List.filter (fun e => int64 (now - TS e) <=? RelayTTL_s) (snd <$> map_to_list s).

(** ** The invariant of the store over a history of announcements *)

(** What [store] accepts at time [now]. *)
Definition acceptable (now : Z) (e : RelayEntry) : Prop :=
  VerifyRelayEntry e = Ok () /\ - RelayTTL_s <= int64 (now - TS e) <= RelayTTL_s.

Definition run_store (h : list (Z * RelayEntry)) : relayStore :=
  fold_left (fun s ne => snd (relay_store ne.1 ne.2 s)) h ∅.

Lemma relay_store_cases now e s :
  (acceptable now e /\ fst (relay_store now e s) = Ok () /\
     snd (relay_store now e s) =
       match s !! NodeID e with
       | Some x => if TS e <=? TS x then s else <[NodeID e := e]> s
       | None => <[NodeID e := e]> s
       end)
  \/ (~ acceptable now e /\ (exists m, fst (relay_store now e s) = Err m) /\ snd (relay_store now e s) = s).
Proof.
  unfold relay_store, acceptable. destruct (VerifyRelayEntry e) as [[]|m|] eqn:E.
  - destruct (Z.ltb_spec RelayTTL_s (int64 (now - TS e))); simpl; [right; split_and!; [lia | eauto | done]|].
    destruct (Z.ltb_spec (int64 (now - TS e)) (- RelayTTL_s)); simpl; [right; split_and!; [lia | eauto | done]|].
    left. split_and!; [done | lia.. | |]; destruct (s !! NodeID e); simpl; try done; by destruct (_ <=? _).
  - right. split_and!; [by intros [? _] | eauto | done].
  - exfalso. unfold VerifyRelayEntry in E. repeat case_match; done.
Qed.

(** What the store holds for a node after history [h]: an accepted entry of that
    node, with the largest timestamp of all that were accepted for it. *)
Definition relay_spec (h : list (Z * RelayEntry)) (k : gostring) (o : option RelayEntry) : Prop :=
  match o with
  | Some e => NodeID e = k
      /\ (exists now, (now, e) ∈ h /\ acceptable now e)
      /\ (forall now' e', (now', e') ∈ h -> acceptable now' e' -> NodeID e' = k -> TS e' <= TS e)
  | None => forall now' e', (now', e') ∈ h -> acceptable now' e' -> NodeID e' <> k
  end.

Lemma relay_spec_skip h now e k o :
  relay_spec h k o ->
  (acceptable now e -> NodeID e = k -> exists x, o = Some x /\ TS e <= TS x) ->
  relay_spec (h ++ [(now, e)]) k o.
Proof.
  intros Hs Hnew. assert (forall now' e', (now', e') ∈ h ++ [(now, e)] ->
    (now', e') ∈ h \/ (now' = now /\ e' = e)) as Hin.
  { intros now' e' [Hi|Hi]%elem_of_app; [by left|]. right.
    apply list_elem_of_singleton in Hi. by injection Hi. }
  destruct o as [x|]; simpl in *.
  - destruct Hs as (Hk & (n & Hn & Ha) & Hmax). split_and!; [done| |].
    + exists n. split; [by apply elem_of_app; left | done].
    + intros now' e' [Hi|[-> ->]]%Hin Hacc Hid; [by eapply Hmax|].
      destruct (Hnew Hacc Hid) as (? & [= <-] & ?). done.
  - intros now' e' [Hi|[-> ->]]%Hin Hacc Hid; [by eapply Hs|].
    destruct (Hnew Hacc Hid) as (? & ? & ?). done.
Qed.

Lemma relay_spec_take h now e k o :
  relay_spec h k o -> acceptable now e -> NodeID e = k ->
  (forall x, o = Some x -> TS x <= TS e) -> relay_spec (h ++ [(now, e)]) k (Some e).
Proof.
  intros Hs Hacc Hk Ho. simpl. split_and!; [done| |].
  - exists now. split; [|done]. apply elem_of_app. right. by apply list_elem_of_singleton.
  - intros now' e' [Hi|Hi]%elem_of_app Hacc' Hid.
    + destruct o as [x|]; simpl in Hs; [|by destruct (Hs _ _ Hi Hacc')].
      destruct Hs as (_ & _ & Hmax). specialize (Hmax _ _ Hi Hacc' Hid).
      specialize (Ho x eq_refl). lia.
    + apply list_elem_of_singleton in Hi. injection Hi as -> ->. lia.
Qed.

Lemma relay_spec_step h now e s :
  (forall k, relay_spec h k (s !! k)) ->
  forall k, relay_spec (h ++ [(now, e)]) k (snd (relay_store now e s) !! k).
Proof.
  intros Hs k. destruct (relay_store_cases now e s) as [(Hacc & _ & ->)|(Hacc & _ & ->)].
  - assert (forall o, s !! NodeID e = o -> (forall x, o = Some x -> TS x <= TS e) ->
      relay_spec (h ++ [(now, e)]) k (<[NodeID e := e]> s !! k)) as Hins.
    { intros o Ho Hle. destruct (decide (NodeID e = k)) as [<-|Hne].
      - rewrite lookup_insert_eq. apply (relay_spec_take _ _ _ _ o); [by rewrite <- Ho | done..].
      - rewrite lookup_insert_ne by done. by apply relay_spec_skip. }
    destruct (s !! NodeID e) as [x|] eqn:Ex; [destruct (Z.leb_spec (TS e) (TS x))|].
    + apply relay_spec_skip; [done|]. intros _ <-. eauto.
    + apply (Hins _ eq_refl). intros y [= <-]. lia.
    + by apply (Hins _ eq_refl).
  - by apply relay_spec_skip.
Qed.

Lemma run_store_spec h k : relay_spec h k (run_store h !! k).
Proof.
  revert k. unfold run_store. induction h as [|[now e] h IH] using rev_ind; intros k.
  - simpl fold_left. rewrite lookup_empty. by intros now' e' ?%not_elem_of_nil.
  - rewrite fold_left_app. simpl. by apply relay_spec_step.
Qed.

(** After any sequence of announcements the store holds, for each node, exactly
    an entry whose signature verified and whose timestamp was within two minutes of
    the clock when it arrived, and none accepted for that node is newer; a node
    without an entry never announced one. *)
Theorem relay_store_history h k :
  match run_store h !! k with
  | Some e => NodeID e = k /\ VerifyRelayEntry e = Ok ()
      /\ (exists now, (now, e) ∈ h /\ acceptable now e)
      /\ (forall now' e', (now', e') ∈ h -> acceptable now' e' -> NodeID e' = k -> TS e' <= TS e)
  | None => forall now' e', (now', e') ∈ h -> acceptable now' e' -> NodeID e' <> k
  end.
Proof.
  pose proof (run_store_spec h k) as Hs. destruct (run_store h !! k); simpl in Hs; [|done].
  destruct Hs as (? & (n & ? & Hacc) & ?). split_and!; [done | apply Hacc | eauto | done].
Qed.

Lemma int64_window now ts d :
  0 <= now < 2 ^ 62 -> - 2 ^ 63 <= ts < 2 ^ 63 -> 0 <= d <= 2 ^ 61 ->
  (- d <= int64 (now - ts) <= d) <-> (- d <= now - ts <= d).
Proof.
  intros Hn Ht Hd. unfold int64. split; intros Hw; [|rewrite Z.mod_small; lia].
  assert (now - ts + 2 ^ 63 < 2 * 2 ^ 64) by lia. assert (0 <= now - ts + 2 ^ 63) by lia.
  destruct (Z.lt_ge_cases (now - ts + 2 ^ 63) (2 ^ 64)); [rewrite Z.mod_small in Hw; lia|].
  rewrite <- (Z_mod_plus_full _ (-1)), Z.mod_small in Hw; lia.
Qed.

(** Int64 wrap-around in the age computation never lets an entry through: for any
    int64 timestamp, store accepts exactly the verified entries at most 120 seconds
    older or newer than the clock, and reports an error and leaves the store as it
    was for every other. *)
Theorem relay_store_window now e s :
  0 <= now < 2 ^ 62 -> - 2 ^ 63 <= TS e < 2 ^ 63 ->
  (fst (relay_store now e s) = Ok () <->
     VerifyRelayEntry e = Ok () /\ - 120 <= now - TS e <= 120)
  /\ (fst (relay_store now e s) <> Ok () ->
        (exists m, fst (relay_store now e s) = Err m) /\ snd (relay_store now e s) = s).
Proof.
  intros Hn Ht. pose proof (int64_window now (TS e) 120 Hn Ht) as Hw.
  assert (acceptable now e <-> VerifyRelayEntry e = Ok () /\ - 120 <= now - TS e <= 120) as Ha.
  { unfold acceptable. change RelayTTL_s with 120. rewrite Hw by lia. done. }
  destruct (relay_store_cases now e s) as [(Hacc & E & _)|(Hacc & (m & E) & Es)]; rewrite E.
  - split; [by rewrite <- Ha | done].
  - split; [|eauto]. rewrite <- Ha. split; [done | by intros].
Qed.

(** ** What a signature binds *)

Definition bars (s : bytes) : nat := count_occ Z.eq_dec s bar.

Lemma bars_itoa z : bars (Strconv.itoa z) = 0%nat.
Proof.
  unfold bars. apply count_occ_not_In. intros Hin%list_elem_of_In.
  pose proof (Strconv.itoa_chars z) as Hf. rewrite Forall_forall in Hf.
  destruct (Hf _ Hin) as [E|E]; unfold bar in E; lia.
Qed.

Lemma split_first_bar a a' r r' :
  bars a = 0%nat -> bars a' = 0%nat -> a ++ bar :: r = a' ++ bar :: r' -> a = a' /\ r = r'.
Proof.
  revert a'. induction a as [|x a IH]; intros [|y a']; cbn [app]; intros Ha Ha' E.
  - by injection E.
  - injection E as <- _. by destruct (count_occ_not_In Z.eq_dec (bar :: a') bar) as [_ []]; [|left].
  - injection E as -> _. by destruct (count_occ_not_In Z.eq_dec (bar :: a) bar) as [_ []]; [|left].
  - injection E as -> E. unfold bars in Ha, Ha'. simpl in Ha, Ha'. destruct (Z.eq_dec y bar); [done|].
    destruct (IH a' Ha Ha' E) as [-> ->]. done.
Qed.

(** The bytes a relay signs determine the entry: if an entry whose address and
    country code contain no bar and any entry that verifies have the same signed
    payload, they agree on node, address, country code and timestamp, so a
    signature cannot be moved to an entry with other fields. *)
Theorem relayEntryPayload_binds e e' :
  length (NodeID e) = 64%nat -> bars (Addr e) = 0%nat -> bars (CountryCode e) = 0%nat ->
  VerifyRelayEntry e' = Ok () -> relayEntryPayload e' = relayEntryPayload e ->
  NodeID e' = NodeID e /\ Addr e' = Addr e /\ CountryCode e' = CountryCode e /\ TS e' = TS e.
Proof.
  intros Hl Ha Hc Hv E. assert (length (NodeID e') = 64%nat) as Hl'.
  { unfold VerifyRelayEntry, PublicKeySize in Hv. simpl in Hv.
    destruct (Nat.eqb_spec (length (NodeID e')) 64); [done | by simpl in Hv]. }
  unfold relayEntryPayload in E. apply app_inj_1 in E as [En E]; [|congruence].
  cbn [app] in E. injection E as E.
  assert (bars (Addr e') = 0%nat /\ bars (CountryCode e') = 0%nat) as [Ha' Hc'].
  { apply (f_equal bars) in E. unfold bars in *. rewrite !count_occ_app in E. simpl in E.
    rewrite !count_occ_app in E. simpl in E.
    pose proof (bars_itoa (TS e)). pose proof (bars_itoa (TS e')). unfold bars in *. lia. }
  apply split_first_bar in E as [Ea E]; [|done..]. apply split_first_bar in E as [Ec E]; [|done..].
  apply Strconv.itoa_inj in E. done.
Qed.
End relay.

Definition test_node : gostring := Hex.encode (replicate 32 7).
Definition test_entry (ts : Z) : RelayEntry :=
  MkRelayEntry test_node (bs "10.0.0.1:4567") (bs "DE") ts
    (bs "BwcHBwcHBwcHBwcHBwcHBwcHBwcHBwcHBwcHBwcHBwcHBwcHBwcHBwcHBwcHBwcHBwcHBwcHBwcHBwcHBwcHBw").

Lemma relay_store_window_witness :
  fst (relay_store 1000 (test_entry 900) ∅) = Ok ()
  /\ (fst (relay_store 1000 (test_entry 879) ∅) <> Ok () ->
       (exists m, fst (relay_store 1000 (test_entry 879) ∅) = Err m)
       /\ snd (relay_store 1000 (test_entry 879) ∅) = ∅).
Proof.
  split.
  - apply (relay_store_window 1000 (test_entry 900) ∅); [lia | simpl; lia |].
    split; [vm_compute; reflexivity | simpl; lia].
  - apply (relay_store_window 1000 (test_entry 879) ∅); [lia | simpl; lia].
Defined.

Lemma relayEntryPayload_binds_witness :
  NodeID (test_entry 5) = test_node /\ Addr (test_entry 5) = bs "10.0.0.1:4567"
  /\ CountryCode (test_entry 5) = bs "DE" /\ TS (test_entry 5) = 5.
Proof. apply (relayEntryPayload_binds (test_entry 5) (test_entry 5)); vm_compute; reflexivity. Defined.

(** ** completeStore *)

Record completePeerEntry := MkComplete {
  cp_addr : gostring;
  cp_ts : Z;
  cp_complete : bool;
  cp_lastSeen : Z }.

Abbreviation completeStore := (gmap gostring completePeerEntry).

Definition complete_record (now : Z) (addr : gostring) (ts : Z) (complete : bool)
    (s : completeStore) : completeStore :=
  <[addr := MkComplete addr ts complete now]> s.

Definition peersFor (now : Z) (ts : Z) (s : completeStore) : list gostring :=
  let cutoff := now - RelayTTL in
  cp_addr <$> List.filter (fun e => cp_complete e && (cp_ts e =? ts) && (cutoff <? cp_lastSeen e))
    (snd <$> map_to_list s).

(** One have-announcement as it was received. *)
Record have_msg := MkHave { hv_now : Z; hv_addr : gostring; hv_ts : Z; hv_complete : bool }.

Definition run_record (h : list have_msg) : completeStore :=
  fold_left (fun s m => complete_record (hv_now m) (hv_addr m) (hv_ts m) (hv_complete m) s) h ∅.

(** The last announcement of an address. *)
Definition last_from (a : gostring) (h : list have_msg) : option have_msg :=
  last (List.filter (fun m => bool_decide (hv_addr m = a)) h).

Lemma run_record_lookup h a :
  run_record h !! a =
  (fun m => MkComplete (hv_addr m) (hv_ts m) (hv_complete m) (hv_now m)) <$> last_from a h.
Proof.
  unfold run_record, last_from. induction h as [|m h IH] using rev_ind; [done|].
  rewrite fold_left_app, List.filter_app. simpl. unfold complete_record. case_bool_decide as E.
  - rewrite E, lookup_insert_eq, last_snoc. simpl. by rewrite <- E.
  - by rewrite lookup_insert_ne, app_nil_r.
Qed.

(** The content index answers from the latest announcement of each peer and no
    other: an address is returned for version ts exactly when its last announcement
    named that version as complete less than two minutes ago, and it is returned
    once. *)
Theorem peersFor_spec h now ts :
  (forall a, a ∈ peersFor now ts (run_record h) <->
     exists m, last_from a h = Some m /\ hv_complete m = true /\ hv_ts m = ts
       /\ now - hv_now m < 2 * minute)
  /\ NoDup (peersFor now ts (run_record h)).
Proof.
  set (s := run_record h).
  assert (forall a e, s !! a = Some e -> cp_addr e = a) as Hkey.
  { intros a e. unfold s. rewrite run_record_lookup. destruct (last_from a h) as [m|] eqn:E; [|done].
    intros [= <-]. simpl. unfold last_from in E. apply last_Some_elem_of, elem_of_filter_list in E.
    destruct E as [_ E]. by apply bool_decide_eq_true in E. }
  split.
  - intros a. unfold peersFor. rewrite list_elem_of_fmap. split.
    + intros (e & -> & He). apply elem_of_filter_list in He as [He Hc].
      apply list_elem_of_fmap in He as ([a e'] & -> & He). apply elem_of_map_to_list in He. simpl in *.
      rewrite (Hkey _ _ He). unfold s in He. rewrite run_record_lookup in He.
      destruct (last_from a h) as [m|]; [|done]. injection He as <-. simpl in Hc.
      rewrite !andb_true_iff, Z.eqb_eq, Z.ltb_lt in Hc. unfold RelayTTL in Hc.
      destruct Hc as [[? ?] ?]. exists m. split_and!; [done..|lia].
    + intros (m & Hm & Hc & Hts & Hnow). exists (MkComplete a (hv_ts m) (hv_complete m) (hv_now m)).
      split; [done|]. apply elem_of_filter_list. split.
      * apply list_elem_of_fmap. eexists (a, _). split; [reflexivity|]. apply elem_of_map_to_list.
        pose proof (run_record_lookup h a) as Hr. fold s in Hr. rewrite Hm in Hr. simpl in Hr.
        by rewrite Hr, <- (Hkey _ _ Hr) at 1.
      * simpl. rewrite !andb_true_iff, Z.eqb_eq, Z.ltb_lt. unfold RelayTTL. split_and!; [done..|lia].
  - unfold peersFor. eapply sublist_NoDup; [apply (NoDup_fst_map_to_list s)|].
    assert (forall l : list (gostring * completePeerEntry), Forall (fun p => cp_addr p.2 = p.1) l ->
      forall f : completePeerEntry -> bool, sublist (cp_addr <$> List.filter f (snd <$> l)) (fst <$> l)) as Hsub.
    { intros l Hl f. induction Hl as [|[a e] l Ha Hl IH]; simpl; [constructor|].
      simpl in Ha. destruct (f e); simpl; [rewrite Ha; by constructor | by constructor]. }
    apply Hsub. apply Forall_forall. intros [a e] He. apply elem_of_map_to_list in He. by apply Hkey.
Qed.
End Relay.
