(* ===== verification/DhtNode.v ===== *)
(** * dht: the node (src/dht/dht_node.go, src/dht/dht_content.go)

    A [Node] owns a routing table, a relay store, an index of complete content
    peers, the two gossiped manifests and the pings it waits for. Every entry
    point of the source is a function from the node to the node and the effects
    it has: datagrams sent and callbacks invoked, in order. An UDP address is
    represented by its [String()] form; [net.ResolveUDPAddr], the JSON codec and
    the clock are parameters. *)

From stdpp Require Import base list gmap strings fin_maps.
From Stdlib Require Import ZArith Lia.
From S2P Require Import Prelude GoLib DhtTable DhtWire DhtStore.

Module Node.
Import Dht Relay Wire.

Definition bootstrapAlpha : nat := 3.

(** ** Messages *)

Record ContactJSON := MkCJ { cj_ID : gostring; cj_Addr : gostring }.

Definition ContactToJSON (c : Contact) : ContactJSON := MkCJ (ID_String (cID c)) (cAddr c).

Definition ContactFromJSON (now : Z) (j : ContactJSON) : res Contact :=
  id ← ParseID (cj_ID j); Ok (MkContact id (cj_Addr j) now 0 false).

(** The payload structs of dht_wire.go, and the two persisted files. *)
Inductive payload :=
| PNil
| PFindNode (from : ContactJSON) (target : gostring)
| PNodes (from : ContactJSON) (nodes : list ContactJSON)
| PAnnounce (entry : RelayEntry)
| PRelayList (entries : list RelayEntry)
| PManifestHave (ts : Z)
| PManifest (ts : Z) (raw : bytes)
| PHolePunch (peer control : gostring)
| PContentHave (ts : Z) (complete : bool)
| PContent (ts : Z) (raw : bytes)
| PMirrorPunch (peer : gostring)
| PPeersFile (contacts : list ContactJSON)
| PRelayFile (entries : list RelayEntry).

(** [json.Marshal] of a payload and [json.Unmarshal] into each payload type. A
    [json.RawMessage] is embedded in its compacted form, which is what the
    receiver's [RawMessage] holds; marshalling fails when it is not JSON. *)
Class DhtCodec := {
  compact : bytes -> option bytes;
  marshal : payload -> option bytes;
  unmarshal_find : bytes -> option (ContactJSON * gostring);
  unmarshal_nodes : bytes -> option (ContactJSON * list ContactJSON);
  unmarshal_announce : bytes -> option RelayEntry;
  unmarshal_relays : bytes -> option (list RelayEntry);
  unmarshal_have : bytes -> option Z;
  unmarshal_manifest : bytes -> option (Z * bytes);
  unmarshal_punch : bytes -> option (gostring * gostring);
  unmarshal_chave : bytes -> option (Z * bool);
  unmarshal_content : bytes -> option (Z * bytes);
  unmarshal_mirror : bytes -> option gostring;
  unmarshal_peers : bytes -> option (list ContactJSON);
  unmarshal_relay_file : bytes -> option (list RelayEntry) }.

(** ** State and effects *)

Record Node := MkNode {
  n_id : ID;
  ownAddr : gostring;
  rt : RoutingTable;
  relays : gmap gostring RelayEntry;
  ownEntry : option RelayEntry;
  hasRefresher : bool;
  pendingPings : gmap gostring ID;
  manifestRaw : bytes;
  manifestTS : Z;
  onManifest : bool;
  contentRaw : bytes;
  contentTS : Z;
  contentComplete : bool;
  onContent : bool;
  completePeers : gmap gostring completePeerEntry;
  holePunchHandler : bool;
  mirrorPunchHandler : bool }.

Inductive effect :=
| Send (msgType ttl : Z) (body : bytes) (dst : gostring)
| CallManifest (raw : bytes)
| CallContent (raw : bytes)
| CallHolePunch (peer control : gostring)
| CallMirrorPunch (peer : gostring).

Definition NewNode (id : ID) : Node :=
  MkNode id [] (NewRoutingTable id) ∅ None false ∅ [] 0 false [] 0 false false ∅ false false.

Definition set_rt (t : RoutingTable) (n : Node) : Node :=
  MkNode (n_id n) (ownAddr n) t (relays n) (ownEntry n) (hasRefresher n) (pendingPings n)
    (manifestRaw n) (manifestTS n) (onManifest n) (contentRaw n) (contentTS n) (contentComplete n)
    (onContent n) (completePeers n) (holePunchHandler n) (mirrorPunchHandler n).
Definition set_relays (s : gmap gostring RelayEntry) (n : Node) : Node :=
  MkNode (n_id n) (ownAddr n) (rt n) s (ownEntry n) (hasRefresher n) (pendingPings n)
    (manifestRaw n) (manifestTS n) (onManifest n) (contentRaw n) (contentTS n) (contentComplete n)
    (onContent n) (completePeers n) (holePunchHandler n) (mirrorPunchHandler n).
Definition set_pending (p : gmap gostring ID) (n : Node) : Node :=
  MkNode (n_id n) (ownAddr n) (rt n) (relays n) (ownEntry n) (hasRefresher n) p
    (manifestRaw n) (manifestTS n) (onManifest n) (contentRaw n) (contentTS n) (contentComplete n)
    (onContent n) (completePeers n) (holePunchHandler n) (mirrorPunchHandler n).
Definition set_own (e : option RelayEntry) (n : Node) : Node :=
  MkNode (n_id n) (ownAddr n) (rt n) (relays n) e (hasRefresher n) (pendingPings n)
    (manifestRaw n) (manifestTS n) (onManifest n) (contentRaw n) (contentTS n) (contentComplete n)
    (onContent n) (completePeers n) (holePunchHandler n) (mirrorPunchHandler n).
Definition set_manifest (raw : bytes) (ts : Z) (n : Node) : Node :=
  MkNode (n_id n) (ownAddr n) (rt n) (relays n) (ownEntry n) (hasRefresher n) (pendingPings n)
    raw ts (onManifest n) (contentRaw n) (contentTS n) (contentComplete n)
    (onContent n) (completePeers n) (holePunchHandler n) (mirrorPunchHandler n).
Definition set_content (raw : bytes) (ts : Z) (complete : bool) (n : Node) : Node :=
  MkNode (n_id n) (ownAddr n) (rt n) (relays n) (ownEntry n) (hasRefresher n) (pendingPings n)
    (manifestRaw n) (manifestTS n) (onManifest n) raw ts complete
    (onContent n) (completePeers n) (holePunchHandler n) (mirrorPunchHandler n).
Definition set_complete_peers (s : gmap gostring completePeerEntry) (n : Node) : Node :=
  MkNode (n_id n) (ownAddr n) (rt n) (relays n) (ownEntry n) (hasRefresher n) (pendingPings n)
    (manifestRaw n) (manifestTS n) (onManifest n) (contentRaw n) (contentTS n) (contentComplete n)
    (onContent n) s (holePunchHandler n) (mirrorPunchHandler n).

(** The registration calls: the advertised address, the refresher and the callbacks. *)
Definition configure (addr : gostring) (refresher onM onC hole mirror : bool) (n : Node) : Node :=
  MkNode (n_id n) addr (rt n) (relays n) (ownEntry n) refresher (pendingPings n)
    (manifestRaw n) (manifestTS n) onM (contentRaw n) (contentTS n) (contentComplete n)
    onC (completePeers n) hole mirror.
Definition SetOwnAddr (addr : gostring) (n : Node) : Node :=
  configure addr (hasRefresher n) (onManifest n) (onContent n) (holePunchHandler n) (mirrorPunchHandler n) n.
Definition SetEntryRefresher (f : bool) (n : Node) : Node :=
  configure (ownAddr n) f (onManifest n) (onContent n) (holePunchHandler n) (mirrorPunchHandler n) n.
Definition SetManifestHandler (f : bool) (n : Node) : Node :=
  configure (ownAddr n) (hasRefresher n) f (onContent n) (holePunchHandler n) (mirrorPunchHandler n) n.
Definition SetContentHandler (f : bool) (n : Node) : Node :=
  configure (ownAddr n) (hasRefresher n) (onManifest n) f (holePunchHandler n) (mirrorPunchHandler n) n.
Definition SetHolePunchHandler (f : bool) (n : Node) : Node :=
  configure (ownAddr n) (hasRefresher n) (onManifest n) (onContent n) f (mirrorPunchHandler n) n.
Definition SetMirrorPunchHandler (f : bool) (n : Node) : Node :=
  configure (ownAddr n) (hasRefresher n) (onManifest n) (onContent n) (holePunchHandler n) f n.

Definition SetManifest (raw : bytes) (ts : Z) (n : Node) : Node :=
  if manifestTS n <? ts then set_manifest raw ts n else n.
Definition SetContent (raw : bytes) (ts : Z) (n : Node) : Node :=
  if contentTS n <? ts then set_content raw ts false n else n.
Definition SetContentComplete (ts : Z) (complete : bool) (n : Node) : Node :=
  if ts =? contentTS n then set_content (contentRaw n) (contentTS n) complete n else n.

(** [isValidContactAddr] *)
Definition isValidContactAddr (addr : gostring) : bool :=
  match Net.SplitHostPort addr with
  | Ok (host, _) =>
      match Net.ParseIP host with
      | Some ip => negb (Net.IsUnspecified ip)
      | None => false
      end
  | _ => false
  end.

Section node.
Context {GS : GoSort} {ED : Ed25519} {CD : DhtCodec}.
(** [net.ResolveUDPAddr("udp", _)] and [conn.LocalAddr().String()] *)
Context (resolve : gostring -> option gostring) (localAddr : gostring).

Definition selfAddr (n : Node) : gostring :=
  if decide (ownAddr n <> []) then ownAddr n else localAddr.

(** The body [Seal] encrypts: empty for a nil payload. *)
Definition seal_body (p : payload) : option bytes :=
  match p with PNil => Some [] | _ => marshal p end.

(** [Seal] then [send]: nothing goes out when marshalling fails. *)
Definition seal_send (ty ttl : Z) (p : payload) (dst : gostring) : list effect :=
  match seal_body p with
  | Some body => [Send ty ttl body dst]
  | None => []
  end.

(** The same to a textual address, skipped when it does not resolve. *)
Definition send_to (ty ttl : Z) (p : payload) (addr : gostring) : list effect :=
  match resolve addr with
  | Some dst => seal_send ty ttl p dst
  | None => []
  end.

(** ** Message handlers *)

Definition clearSuspectByAddr (src : gostring) (n : Node) : Node :=
  match pendingPings n !! src with
  | Some id => set_rt (rt_ResetMissed id (rt n)) (set_pending (delete src (pendingPings n)) n)
  | None => n
  end.

Definition handlePing (src : gostring) (n : Node) : Node * list effect :=
  (n, seal_send MsgPong MaxTTL PNil src).

Definition handleFindNode (now : Z) (src : gostring) (raw : bytes) (n : Node) : Node * list effect :=
  match unmarshal_find raw with
  | None => (n, [])
  | Some (from, targetS) =>
      match ParseID targetS with
      | Ok target =>
          let n := match ContactFromJSON now from with
                   | Ok c => set_rt (rt_Add c (rt n)) n
                   | _ => n
                   end in
          let nodes := ContactToJSON <$> rt_Closest target K (rt n) in
          (n, seal_send MsgNodes MaxTTL (PNodes (MkCJ (ID_String (n_id n)) (selfAddr n)) nodes) src)
      | _ => (n, [])
      end
  end.

(** One listed contact of a NODES reply. *)
Definition learn_json (now : Z) (t : RoutingTable) (j : ContactJSON) : RoutingTable :=
  if isValidContactAddr (cj_Addr j) then
    match ContactFromJSON now j with Ok c => rt_Add c t | _ => t end
  else t.

Definition handleNodes (now : Z) (raw : bytes) (n : Node) : Node * list effect :=
  match unmarshal_nodes raw with
  | None => (n, [])
  | Some (from, nodes) =>
      let t := if decide (cj_ID from <> []) then learn_json now (rt n) from else rt n in
      (set_rt (fold_left (learn_json now) nodes t) n, [])
  end.

Definition handleAnnounce (unix : Z) (src : gostring) (raw : bytes) (n : Node) : Node * list effect :=
  match unmarshal_announce raw with
  | None => (n, [])
  | Some e =>
      match relay_store unix e (relays n) with
      | (Ok _, s) => (set_relays s n, seal_send MsgAck MaxTTL PNil src)
      | (_, s) => (set_relays s n, [])
      end
  end.

Definition handleGetRelays (unix : Z) (src : gostring) (n : Node) : Node * list effect :=
  (n, seal_send MsgRelayList MaxTTL (PRelayList (relay_all unix (relays n))) src).

(** The entries loop of handleRelayList and LoadRelays: each is stored or skipped. *)
Definition store_all (unix : Z) (es : list RelayEntry) (s : gmap gostring RelayEntry) :=
  fold_left (fun s e => snd (relay_store unix e s)) es s.

Definition handleRelayList (unix : Z) (raw : bytes) (n : Node) : Node * list effect :=
  match unmarshal_relays raw with
  | None => (n, [])
  | Some es => (set_relays (store_all unix es (relays n)) n, [])
  end.

Definition handleManifestHave (src : gostring) (raw : bytes) (n : Node) : Node * list effect :=
  match unmarshal_have raw with
  | None => (n, [])
  | Some ts =>
      if manifestTS n <? ts then (n, seal_send MsgManifestWant MaxTTL PNil src) else (n, [])
  end.

Definition handleManifestWant (src : gostring) (n : Node) : Node * list effect :=
  if decide (manifestRaw n = []) then (n, [])
  else (n, seal_send MsgManifest MaxTTL (PManifest (manifestTS n) (manifestRaw n)) src).

Definition handleManifestData (raw : bytes) (n : Node) : Node * list effect :=
  match unmarshal_manifest raw with
  | None => (n, [])
  | Some (ts, m) =>
      if ts <=? manifestTS n then (n, [])
      else (n, if onManifest n then [CallManifest m] else [])
  end.

Definition handleHolePunch (raw : bytes) (n : Node) : Node * list effect :=
  if decide (raw = []) then (n, [])
  else match unmarshal_punch raw with
  | None => (n, [])
  | Some (peer, control) =>
      if decide (peer = []) then (n, [])
      else if negb (holePunchHandler n) then (n, [])
      else if decide (control <> [] /\ control = selfAddr n) then (n, [])
      else (n, [CallHolePunch peer control])
  end.

Definition handleContentHave (now : Z) (src : gostring) (raw : bytes) (n : Node) : Node * list effect :=
  match unmarshal_chave raw with
  | None => (n, [])
  | Some (ts, complete) =>
      let n := set_complete_peers (complete_record now src ts complete (completePeers n)) n in
      if contentTS n <? ts then (n, seal_send MsgContentWant MaxTTL PNil src) else (n, [])
  end.

Definition handleContentWant (src : gostring) (n : Node) : Node * list effect :=
  if decide (contentRaw n = []) then (n, [])
  else (n, seal_send MsgContent MaxTTL (PContent (contentTS n) (contentRaw n)) src).

Definition handleContentData (raw : bytes) (n : Node) : Node * list effect :=
  match unmarshal_content raw with
  | None => (n, [])
  | Some (ts, m) =>
      if ts <=? contentTS n then (n, [])
      else (n, if onContent n then [CallContent m] else [])
  end.

Definition handleMirrorPunch (raw : bytes) (n : Node) : Node * list effect :=
  if decide (raw = []) then (n, [])
  else match unmarshal_mirror raw with
  | None => (n, [])
  | Some peer =>
      if decide (peer = []) then (n, [])
      else if negb (mirrorPunchHandler n) then (n, [])
      else (n, [CallMirrorPunch peer])
  end.

(** The dispatch of handlePacket on an opened datagram. *)
Definition dispatch (now : Z) (src : gostring) (ty : Z) (raw : bytes) (n : Node) : Node * list effect :=
  let unix := now / second in
  if ty =? MsgPing then handlePing src n
  else if ty =? MsgPong then (n, [])
  else if ty =? MsgFindNode then handleFindNode now src raw n
  else if ty =? MsgNodes then handleNodes now raw n
  else if ty =? MsgAnnounce then handleAnnounce unix src raw n
  else if ty =? MsgAck then (n, [])
  else if ty =? MsgGetRelays then handleGetRelays unix src n
  else if ty =? MsgRelayList then handleRelayList unix raw n
  else if ty =? MsgManifestHave then handleManifestHave src raw n
  else if ty =? MsgManifestWant then handleManifestWant src n
  else if ty =? MsgManifest then handleManifestData raw n
  else if ty =? MsgHolePunch then handleHolePunch raw n
  else if ty =? MsgMirrorPunch then handleMirrorPunch raw n
  else if ty =? MsgContentHave then handleContentHave now src raw n
  else if ty =? MsgContentWant then handleContentWant src n
  else if ty =? MsgContent then handleContentData raw n
  else (n, []).

Definition handlePacket `{Aead} (key : bytes) (now : Z) (src : gostring) (pkt : bytes) (n : Node)
    : Node * list effect :=
  match Open key pkt with
  | Ok (ty, _, raw) => dispatch now src ty raw (clearSuspectByAddr src n)
  | _ => (n, [])
  end.

(** ** Active operations *)

(** [pingAddr]: a PING goes out and, when a contact of the closest list has this
    address, its reply is awaited; the second result is the timer it starts. *)
Definition pingAddr (addr : gostring) (n : Node) : Node * list effect * option (gostring * ID) :=
  match resolve addr with
  | None => (n, [], None)
  | Some dst =>
      let out := seal_send MsgPing 0 PNil dst in
      match list_find (fun c => cAddr c = addr) (rt_Closest (n_id n) (K * IDBits) (rt n)) with
      | Some (_, c) => (set_pending (<[addr := cID c]> (pendingPings n)) n, out, Some (addr, cID c))
      | None => (n, out, None)
      end
  end.

(** The timer of a ping fires after pingTimeout. *)
Definition pingTimeout (addr : gostring) (id : ID) (n : Node) : Node :=
  match pendingPings n !! addr with
  | Some _ => set_rt (rt_MarkMissed id (rt n)) (set_pending (delete addr (pendingPings n)) n)
  | None => n
  end.

Definition find_payload (target : ID) (n : Node) : payload :=
  PFindNode (MkCJ (ID_String (n_id n)) (selfAddr n)) (ID_String target).

Definition findNode (target : ID) (n : Node) : list effect :=
  c ← rt_Closest target bootstrapAlpha (rt n); send_to MsgFindNode 0 (find_payload target n) (cAddr c).

Definition findNodeDirect (addr : gostring) (target : ID) (n : Node) : list effect :=
  send_to MsgFindNode 0 (find_payload target n) addr.

(** [announce]; [fresh] is what the refresher returns, when there is one. *)
Definition announce (fresh : res RelayEntry) (n : Node) : Node * list effect :=
  let n := if hasRefresher n then match fresh with Ok e => set_own (Some e) n | _ => n end else n in
  match ownEntry n with
  | None => (n, [])
  | Some e =>
      match ParseID (NodeID e) with
      | Ok id => (n, c ← rt_Closest id K (rt n); send_to MsgAnnounce 0 (PAnnounce e) (cAddr c))
      | _ => (n, [])
      end
  end.

Definition SetOwnEntry (e : option RelayEntry) (n : Node) : Node := set_own e n.

Definition getRelays (n : Node) : list effect :=
  c ← rt_Closest (n_id n) K (rt n); send_to MsgGetRelays 0 PNil (cAddr c).

Definition gossipManifestHave (n : Node) : list effect :=
  if manifestTS n =? 0 then []
  else c ← rt_Closest (n_id n) K (rt n); send_to MsgManifestHave MaxTTL (PManifestHave (manifestTS n)) (cAddr c).

Definition gossipContentHave (n : Node) : list effect :=
  if contentTS n =? 0 then []
  else c ← rt_Closest (n_id n) K (rt n);
       send_to MsgContentHave MaxTTL (PContentHave (contentTS n) (contentComplete n)) (cAddr c).

Definition SendHolePunch (relayAddr own control : gostring) : list effect :=
  send_to MsgHolePunch MaxTTL (PHolePunch own control) relayAddr.
Definition SendMirrorPunch (peerAddr own : gostring) : list effect :=
  send_to MsgMirrorPunch MaxTTL (PMirrorPunch own) peerAddr.

(** The ping loop of reprobeSuspects, which pings every suspect contact. *)
Fixpoint ping_all (addrs : list gostring) (n : Node) : Node * list effect * list (gostring * ID) :=
  match addrs with
  | [] => (n, [], [])
  | a :: addrs =>
      let '(n, out, t) := pingAddr a n in
      let '(n, out', ts) := ping_all addrs n in
      (n, out ++ out', match t with Some t => t :: ts | None => ts end)
  end.
Definition reprobeSuspects (n : Node) : Node * list effect * list (gostring * ID) :=
  ping_all (cAddr <$> rt_SuspectContacts (rt n)) n.

(** The contact seen longest ago; the first of several. *)
Definition oldest (c : Contact) (l : list Contact) : Contact :=
  fold_left (fun o c => if cLastSeen c <? cLastSeen o then c else o) l c.
Definition pingStale (n : Node) : Node * list effect * list (gostring * ID) :=
  match rt_All (rt n) with
  | [] => (n, [], [])
  | c :: l => ping_all [cAddr (oldest c l)] n
  end.

(** ** Persistence: the bytes written, and what reading them back adds *)

(** [savePeers]: [None] when nothing is written. *)
Definition savePeers (encryptFn : bytes -> option bytes) (n : Node) : option bytes :=
  plain ← marshal (PPeersFile (ContactToJSON <$> rt_All (rt n))); encryptFn plain.

Definition loadPeers (decryptFn : bytes -> option bytes) (now : Z) (file : option bytes) (n : Node) : Node :=
  match file with
  | None => n
  | Some enc =>
      let plain := match decryptFn enc with Some p => p | None => enc end in
      match unmarshal_peers plain with
      | None => n
      | Some cs =>
          set_rt (fold_left (fun t j => match ContactFromJSON now j with Ok c => rt_Add c t | _ => t end)
                    cs (rt n)) n
      end
  end.

(** [SaveRelays]: [Ok None] when the store is empty and no file is written. *)
Definition SaveRelays (unix : Z) (n : Node) : res (option bytes) :=
  match relay_all unix (relays n) with
  | [] => Ok None
  | es => match marshal (PRelayFile es) with Some b => Ok (Some b) | None => Err "json" end
  end.

(** [LoadRelays]; the file is absent, unreadable or its bytes. *)
Definition LoadRelays (unix : Z) (file : res (option bytes)) (n : Node) : res () * Node :=
  match file with
  | Ok None => (Ok (), n)
  | Ok (Some data) =>
      match unmarshal_relay_file data with
      | None => (Err "json", n)
      | Some es => (Ok (), set_relays (store_all unix es (relays n)) n)
      end
  | _ => (Err "read", n)
  end.

Definition Bootstrap (decryptFn : bytes -> option bytes) (now : Z) (file : option bytes)
    (seeds : list gostring) (n : Node) : Node * list effect :=
  let n := loadPeers decryptFn now file n in
  (n, (s ← seeds; findNodeDirect s (n_id n) n) ++ findNode (n_id n) n).

(** ** Histories of a node

    The environment delivers datagrams, fires ping timers, runs the periodic
    jobs and calls the setters, in any order. *)

Record world := MkWorld { w_node : Node; w_timers : list (gostring * ID) }.

Inductive step : world -> list effect -> world -> Prop :=
| step_recv now src ty raw n ts :
    step (MkWorld n ts) (snd (dispatch now src ty raw (clearSuspectByAddr src n)))
      (MkWorld (fst (dispatch now src ty raw (clearSuspectByAddr src n))) ts)
| step_ping addrs n ts n' out new :
    ping_all addrs n = (n', out, new) ->
    step (MkWorld n ts) out (MkWorld n' (new ++ ts))
| step_timeout addr id n ts ts' :
    ts ≡ₚ (addr, id) :: ts' -> step (MkWorld n ts) [] (MkWorld (pingTimeout addr id n) ts')
| step_announce fresh n ts :
    step (MkWorld n ts) (snd (announce fresh n)) (MkWorld (fst (announce fresh n)) ts)
| step_gossip n ts :
    step (MkWorld n ts) (getRelays n ++ gossipManifestHave n ++ gossipContentHave n) (MkWorld n ts)
| step_set_own e n ts : step (MkWorld n ts) [] (MkWorld (SetOwnEntry e n) ts)
| step_manifest raw t n ts : step (MkWorld n ts) [] (MkWorld (SetManifest raw t n) ts)
| step_content raw t n ts : step (MkWorld n ts) [] (MkWorld (SetContent raw t n) ts)
| step_complete t b n ts : step (MkWorld n ts) [] (MkWorld (SetContentComplete t b n) ts)
| step_configure a b1 b2 b3 b4 b5 n ts :
    step (MkWorld n ts) [] (MkWorld (configure a b1 b2 b3 b4 b5 n) ts)
| step_bootstrap dec now file seeds n ts :
    step (MkWorld n ts) (snd (Bootstrap dec now file seeds n))
      (MkWorld (fst (Bootstrap dec now file seeds n)) ts)
| step_load_relays unix file n ts :
    step (MkWorld n ts) [] (MkWorld (snd (LoadRelays unix file n)) ts).

Inductive reachable (id : ID) : world -> Prop :=
| reach_init : reachable id (MkWorld (NewNode id) [])
| reach_step w out w' : reachable id w -> step w out w' -> reachable id w'.

Record node_wf (n : Node) : Prop := {
  nwf_rt : rt_wf (rt n);
  nwf_self : rt_self (rt n) = n_id n;
  nwf_pending : map_Forall (fun _ id => id_ok id) (pendingPings n);
  nwf_relays : map_Forall (fun k e => NodeID e = k /\ VerifyRelayEntry e = Ok ()) (relays n) }.

Lemma ParseID_ok s id : ParseID s = Ok id -> id_ok id.
Proof.
  unfold ParseID. destruct (Hex.decode s) as [b|] eqn:E; [|done]. case_decide; [|done].
  intros [= <-]. split; [done|]. by eapply Hex.decode_ok.
Qed.

Lemma ContactFromJSON_ok now j c : ContactFromJSON now j = Ok c -> id_ok (cID c).
Proof.
  unfold ContactFromJSON. destruct (ParseID (cj_ID j)) as [id| |] eqn:E; try done.
  intros [= <-]. by eapply ParseID_ok.
Qed.

Lemma rt_Add_self c t : rt_self (rt_Add c t) = rt_self t.
Proof. unfold rt_Add. by case_decide. Qed.

(** A table obtained by adding parsed contacts is as good as the one started from. *)
Definition rt_good (self : ID) (t : RoutingTable) : Prop := rt_wf t /\ rt_self t = self.

Lemma rt_good_add self c t : rt_good self t -> id_ok (cID c) -> rt_good self (rt_Add c t).
Proof. intros [Hw Hs] Hc. split; [by auto with rt_wf | by rewrite rt_Add_self]. Qed.

Lemma rt_good_learn self now l t : rt_good self t -> rt_good self (fold_left (learn_json now) l t).
Proof.
  revert t. induction l as [|j l IH]; intros t Ht; simpl; [done|]. apply IH. unfold learn_json.
  destruct (isValidContactAddr _); [|done]. destruct (ContactFromJSON now j) eqn:E; try done.
  eapply rt_good_add; [done | by eapply ContactFromJSON_ok].
Qed.

Lemma node_wf_rt n t : node_wf n -> rt_good (n_id n) t -> node_wf (set_rt t n).
Proof. intros [H1 H2 H3 H4] [Hw Hs]. by split. Qed.

Lemma node_good n : node_wf n -> rt_good (n_id n) (rt n).
Proof. intros [H1 H2 _ _]. done. Qed.

Lemma relay_store_wf unix e s :
  map_Forall (fun k e => NodeID e = k /\ VerifyRelayEntry e = Ok ()) s ->
  map_Forall (fun k e => NodeID e = k /\ VerifyRelayEntry e = Ok ()) (snd (relay_store unix e s)).
Proof.
  intros Hs. destruct (relay_store_cases unix e s) as [((Hv & _) & _ & ->)|(_ & _ & ->)]; [|done].
  destruct (s !! NodeID e); [destruct (_ <=? _); [done|]|]; by apply map_Forall_insert_2.
Qed.

Lemma store_all_wf unix es s :
  map_Forall (fun k e => NodeID e = k /\ VerifyRelayEntry e = Ok ()) s ->
  map_Forall (fun k e => NodeID e = k /\ VerifyRelayEntry e = Ok ()) (store_all unix es s).
Proof. revert s. induction es as [|e es IH]; intros s Hs; simpl; [done|]. by apply IH, relay_store_wf. Qed.

Lemma node_wf_relays n s :
  node_wf n -> map_Forall (fun k e => NodeID e = k /\ VerifyRelayEntry e = Ok ()) s -> node_wf (set_relays s n).
Proof. intros [H1 H2 H3 H4] Hs. by split. Qed.

Lemma node_wf_pending n p :
  node_wf n -> map_Forall (fun _ id => id_ok id) p -> node_wf (set_pending p n).
Proof. intros [H1 H2 H3 H4] Hs. by split. Qed.

(** Changes of the other fields. *)
Lemma node_wf_same n n' :
  node_wf n -> rt n' = rt n -> n_id n' = n_id n -> pendingPings n' = pendingPings n ->
  relays n' = relays n -> node_wf n'.
Proof. intros [H1 H2 H3 H4] E1 E2 E3 E4. split; rewrite ?E1, ?E2, ?E3, ?E4; done. Qed.

Lemma clearSuspect_wf src n : node_wf n -> node_wf (clearSuspectByAddr src n).
Proof.
  intros Hn. unfold clearSuspectByAddr. destruct (pendingPings n !! src) as [id|] eqn:E; [|done].
  pose proof (map_Forall_lookup_1 _ _ _ _ (nwf_pending _ Hn) E) as Hid.
  apply node_wf_rt; [apply node_wf_pending; [done | by apply map_Forall_delete, Hn]|].
  destruct Hn as [H1 H2 _ _]. simpl. split; [by auto with rt_wf | done].
Qed.

Lemma pingTimeout_wf addr id n : id_ok id -> node_wf n -> node_wf (pingTimeout addr id n).
Proof.
  intros Hid Hn. unfold pingTimeout. destruct (pendingPings n !! addr); [|done].
  apply node_wf_rt; [apply node_wf_pending; [done | by apply map_Forall_delete, Hn]|].
  destruct Hn as [H1 H2 _ _]. simpl. split; [by auto with rt_wf | done].
Qed.

Lemma handleFindNode_wf now src raw n : node_wf n -> node_wf (fst (handleFindNode now src raw n)).
Proof.
  intros Hn. unfold handleFindNode. destruct (unmarshal_find raw) as [[from tgt]|]; [|done].
  destruct (ParseID tgt); try done. simpl. destruct (ContactFromJSON now from) eqn:E; try done.
  apply node_wf_rt; [done|]. apply rt_good_add; [by apply node_good | by eapply ContactFromJSON_ok].
Qed.

Lemma handleNodes_wf now raw n : node_wf n -> node_wf (fst (handleNodes now raw n)).
Proof.
  intros Hn. unfold handleNodes. destruct (unmarshal_nodes raw) as [[from nodes]|]; [|done]. simpl.
  apply node_wf_rt; [done|]. apply rt_good_learn. case_decide; [|by apply node_good].
  apply (rt_good_learn _ now [from]). by apply node_good.
Qed.

(** The handlers that leave the table, the pings and the relays alone. *)
Ltac quiet_handler :=
  repeat case_match; simpl in *; try done; (eapply node_wf_same; [eassumption | done..]).

Lemma dispatch_wf now src ty raw n : node_wf n -> node_wf (fst (dispatch now src ty raw n)).
Proof.
  intros Hn. unfold dispatch.
  repeat match goal with |- context [if ?b then _ else _] => destruct b end; try done.
  - by apply handleFindNode_wf.
  - by apply handleNodes_wf.
  - unfold handleAnnounce. destruct (unmarshal_announce raw) as [e|]; [|done].
    pose proof (relay_store_wf (now / second) e (relays n) (nwf_relays _ Hn)) as Hs.
    destruct (relay_store _ _ _) as [[] s]; simpl in *; by apply node_wf_relays.
  - unfold handleRelayList. destruct (unmarshal_relays raw) as [es|]; [|done]. simpl.
    apply node_wf_relays; [done|]. by apply store_all_wf, Hn.
  - unfold handleManifestHave. quiet_handler.
  - unfold handleManifestWant. quiet_handler.
  - unfold handleManifestData. quiet_handler.
  - unfold handleHolePunch. quiet_handler.
  - unfold handleMirrorPunch. quiet_handler.
  - unfold handleContentHave. quiet_handler.
  - unfold handleContentWant. quiet_handler.
  - unfold handleContentData. quiet_handler.
Qed.

Definition timers_ok (ts : list (gostring * ID)) : Prop := Forall (fun t => id_ok t.2) ts.

Lemma Closest_elem target k t c : c ∈ rt_Closest target k t -> c ∈ rt_All t /\ cSuspect c = false.
Proof.
  intros Hc. unfold rt_Closest in Hc. eapply elem_of_sublist in Hc; [|apply sublist_take].
  rewrite sort_slice_perm in Hc. apply elem_of_filter_list in Hc as [? ?%negb_true_iff]. done.
Qed.

Lemma pingAddr_wf a n n' out t :
  pingAddr a n = (n', out, t) -> node_wf n ->
  node_wf n' /\ match t with Some t => id_ok t.2 | None => True end.
Proof.
  unfold pingAddr. destruct (resolve a); [|by intros [= <- <- <-]].
  destruct (list_find _ _) as [[i c]|] eqn:E; [|by intros [= <- <- <-]]. intros [= <- <- <-] Hn.
  apply list_find_Some in E as (E & _ & _). apply list_elem_of_lookup_2, Closest_elem in E as [Hc _].
  pose proof (proj1 (rt_wf_contact _ _ (nwf_rt _ Hn) Hc)) as Hid. split; [|done].
  apply node_wf_pending; [done|]. apply map_Forall_insert_2; [done | apply Hn].
Qed.

Lemma ping_all_wf addrs n n' out new :
  ping_all addrs n = (n', out, new) -> node_wf n -> node_wf n' /\ timers_ok new.
Proof.
  revert n n' out new. induction addrs as [|a addrs IH]; intros n n' out new; simpl.
  - intros [= <- <- <-] Hn. split; [done | constructor].
  - destruct (pingAddr a n) as [[n1 out1] t] eqn:E1. destruct (ping_all addrs n1) as [[n2 out2] ts] eqn:E2.
    intros [= <- <- <-] Hn. destruct (pingAddr_wf _ _ _ _ _ E1 Hn) as [Hn1 Ht].
    destruct (IH _ _ _ _ E2 Hn1) as [Hn2 Hts]. split; [done|]. destruct t; [by constructor | done].
Qed.

Lemma loadPeers_wf dec now file n : node_wf n -> node_wf (loadPeers dec now file n).
Proof.
  intros Hn. unfold loadPeers. destruct file as [enc|]; [|done].
  destruct (unmarshal_peers _) as [cs|]; [|done]. apply node_wf_rt; [done|].
  pose proof (node_good n Hn) as Hg. revert Hg. generalize (rt n). induction cs as [|j cs IH]; intros t Ht; simpl; [done|].
  apply IH. destruct (ContactFromJSON now j) eqn:E; try done.
  apply rt_good_add; [done | by eapply ContactFromJSON_ok].
Qed.

Lemma step_wf w out w' :
  step w out w' -> node_wf (w_node w) -> timers_ok (w_timers w) -> node_wf (w_node w') /\ timers_ok (w_timers w').
Proof.
  destruct 1 as [| |addr id n ts ts' HP|fresh n ts| | |raw t n ts|raw t n ts|t b n ts| | |unix file n ts];
    simpl; intros Hn Ht; try done.
  - split; [by apply dispatch_wf, clearSuspect_wf | done].
  - destruct (ping_all_wf _ _ _ _ _ H Hn). split; [done | by apply Forall_app].
  - unfold timers_ok in *. rewrite HP in Ht. apply Forall_cons_1 in Ht as [Hid Ht].
    split; [by apply pingTimeout_wf | done].
  - split; [|done]. unfold announce. repeat case_match; simpl in *; try done;
      (eapply node_wf_same; [eassumption | done..]).
  - split; [|done]. eapply node_wf_same; [eassumption | done..].
  - split; [|done]. unfold SetManifest. case_match; [eapply node_wf_same; [eassumption | done..] | done].
  - split; [|done]. unfold SetContent. case_match; [eapply node_wf_same; [eassumption | done..] | done].
  - split; [|done]. unfold SetContentComplete. case_match; [eapply node_wf_same; [eassumption | done..] | done].
  - split; [|done]. eapply node_wf_same; [eassumption | done..].
  - split; [by apply loadPeers_wf | done].
  - split; [|done]. unfold LoadRelays. destruct file as [[data|]| |]; try done.
    destruct (unmarshal_relay_file data); [|done]. simpl. apply node_wf_relays; [done|]. by apply store_all_wf, Hn.
Qed.

Lemma NewNode_wf id : id_ok id -> node_wf (NewNode id).
Proof. intros Hid. split; simpl; [by auto with rt_wf | done | apply map_Forall_empty | apply map_Forall_empty]. Qed.

Lemma reachable_wf id w : id_ok id -> reachable id w -> node_wf (w_node w) /\ timers_ok (w_timers w).
Proof.
  intros Hid. induction 1 as [|w out w' _ [IH1 IH2] Hst].
  - split; [by apply NewNode_wf | constructor].
  - by eapply step_wf.
Qed.

(** C10: Whatever datagrams, timeouts and calls a node goes through, its routing table
    stays well formed (bounded buckets, each contact once and in the bucket of its
    distance, never itself), every relay entry it would hand out is filed under its
    own node and carries a verified signature, and it awaits pings only of
    well-formed identifiers. *)
Theorem node_invariant id w :
  id_ok id -> reachable id w ->
  rt_wf (rt (w_node w)) /\ rt_self (rt (w_node w)) = n_id (w_node w)
  /\ (forall now e, e ∈ relay_all now (relays (w_node w)) ->
        relays (w_node w) !! NodeID e = Some e /\ VerifyRelayEntry e = Ok ())
  /\ map_Forall (fun _ i => id_ok i) (pendingPings (w_node w)).
Proof.
  intros Hid Hr. destruct (reachable_wf id w Hid Hr) as [[H1 H2 H3 H4] _]. split_and!; [done..| |done].
  intros now e. unfold relay_all. intros [He _]%elem_of_filter_list.
  apply list_elem_of_fmap in He as ([k e'] & -> & He). apply elem_of_map_to_list in He.
  destruct (map_Forall_lookup_1 _ _ _ _ H4 He) as [Hk Hv]. simpl in *. by rewrite Hk.
Qed.

(** *** Gossip versions only move forward *)

Definition versions_le (n n' : Node) : Prop :=
  manifestTS n <= manifestTS n' /\ contentTS n <= contentTS n'
  /\ (contentTS n < contentTS n' -> contentComplete n' = false)
  /\ (manifestTS n = manifestTS n' -> manifestRaw n = manifestRaw n').

Lemma versions_same n n' :
  manifestTS n' = manifestTS n -> contentTS n' = contentTS n -> manifestRaw n' = manifestRaw n ->
  versions_le n n'.
Proof. intros E1 E2 E3. unfold versions_le. rewrite E1, E2, E3. split_and!; (lia || done). Qed.

Lemma dispatch_versions now src ty raw n :
  let n' := fst (dispatch now src ty raw (clearSuspectByAddr src n)) in
  manifestTS n' = manifestTS n /\ contentTS n' = contentTS n /\ manifestRaw n' = manifestRaw n.
Proof.
  assert (forall m, let n' := fst (dispatch now src ty raw m) in
    manifestTS n' = manifestTS m /\ contentTS n' = contentTS m /\ manifestRaw n' = manifestRaw m) as Hd.
  { intros m. unfold dispatch, handleFindNode, handleNodes, handleAnnounce, handleRelayList, handleManifestHave,
      handleManifestWant, handleManifestData, handleHolePunch, handleMirrorPunch, handleContentHave,
      handleContentWant, handleContentData. repeat case_match; done. }
  cbn zeta. destruct (Hd (clearSuspectByAddr src n)) as (-> & -> & ->).
  unfold clearSuspectByAddr. by destruct (pendingPings n !! src).
Qed.

Lemma ping_all_versions addrs n n' out new :
  ping_all addrs n = (n', out, new) ->
  manifestTS n' = manifestTS n /\ contentTS n' = contentTS n /\ manifestRaw n' = manifestRaw n.
Proof.
  revert n n' out new. induction addrs as [|a addrs IH]; intros n n' out new; simpl; [by intros [= <- <- <-]|].
  destruct (pingAddr a n) as [[n1 out1] t] eqn:E1. destruct (ping_all addrs n1) as [[n2 out2] ts] eqn:E2.
  intros [= <- <- <-]. destruct (IH _ _ _ _ E2) as (-> & -> & ->).
  unfold pingAddr in E1. repeat case_match; simplify_eq; done.
Qed.

(** No step of the node ever moves the version of the control manifest or of
    the content manifest backwards or replaces the bytes of a version it holds, and
    adopting a newer content version always drops the complete mark. *)
Theorem gossip_monotone w out w' : step w out w' -> versions_le (w_node w) (w_node w').
Proof.
  destruct 1 as [now src ty raw n ts|addrs n ts n' out new E|addr id n ts ts' HP|fresh n ts| | |raw t n ts
    |raw t n ts|t b n ts| |dec now file seeds n ts|unix file n ts]; simpl; try (by apply versions_same).
  - destruct (dispatch_versions now src ty raw n) as (? & ? & ?). by apply versions_same.
  - destruct (ping_all_versions _ _ _ _ _ E) as (? & ? & ?). by apply versions_same.
  - unfold pingTimeout. destruct (pendingPings n !! addr); by apply versions_same.
  - unfold announce. repeat case_match; by apply versions_same.
  - unfold SetManifest, versions_le. destruct (Z.ltb_spec (manifestTS n) t); simpl; split_and!; (lia || done).
  - unfold SetContent, versions_le. destruct (Z.ltb_spec (contentTS n) t); simpl; split_and!; (lia || done).
  - unfold SetContentComplete. destruct (_ =? _); by apply versions_same.
  - unfold loadPeers. repeat case_match; by apply versions_same.
  - unfold LoadRelays. repeat case_match; by apply versions_same.
Qed.

(** *** Replies go to the sender *)

Definition reply_only (src : gostring) (out : list effect) : Prop :=
  (length out <= 1)%nat /\ forall ty ttl body dst, Send ty ttl body dst ∈ out -> dst = src.

Lemma reply_nil src : reply_only src [].
Proof. split; [simpl; lia|]. by intros ???? ?%not_elem_of_nil. Qed.

Lemma reply_seal src ty ttl p : reply_only src (seal_send ty ttl p src).
Proof.
  unfold seal_send. destruct (seal_body p); [|apply reply_nil]. split; [simpl; lia|].
  intros ???? E%list_elem_of_singleton. by injection E.
Qed.

Lemma reply_call src e : (forall ty ttl body dst, e <> Send ty ttl body dst) -> reply_only src [e].
Proof. intros He. split; [simpl; lia|]. intros ???? <-%list_elem_of_singleton. by destruct (He ty ttl body dst). Qed.

Create HintDb reply.
#[local] Hint Resolve reply_nil reply_seal reply_call : reply.

(** A received datagram makes the node send at most one datagram, and only back
    to the address it came from: a spoofed or malicious packet cannot direct
    traffic at a third party or be amplified into several. *)
Theorem handlePacket_reply {AE : Aead} key now src pkt n :
  let out := snd (handlePacket key now src pkt n) in
  (length out <= 1)%nat
  /\ (forall ty ttl body dst, Send ty ttl body dst ∈ out -> dst = src).
Proof.
  cbn zeta. fold (reply_only src (snd (handlePacket key now src pkt n))).
  unfold handlePacket. destruct (Open key pkt) as [[[ty ttl] raw]| |]; try apply reply_nil.
  generalize (clearSuspectByAddr src n). intros m. unfold dispatch.
  repeat match goal with |- context [if ?b then _ else _] => destruct b end; try apply reply_nil.
  all: unfold handlePing, handleFindNode, handleNodes, handleAnnounce, handleGetRelays, handleRelayList,
    handleManifestHave, handleManifestWant, handleManifestData, handleHolePunch, handleMirrorPunch,
    handleContentHave, handleContentWant, handleContentData.
  all: repeat case_match; simpl; auto with reply.
  all: apply reply_call; done.
Qed.

(** *** Contacts learned from replies *)

(** A NODES reply only ever adds contacts whose address is an IP literal with a
    port and not a wildcard address; all other entries of the table were there. *)
Theorem handleNodes_filters now raw n c :
  node_wf n -> c ∈ rt_All (rt (fst (handleNodes now raw n))) ->
  c ∈ rt_All (rt n) \/ isValidContactAddr (cAddr c) = true.
Proof.
  intros Hn. assert (forall t j c, rt_good (n_id n) t -> c ∈ rt_All (learn_json now t j) ->
    c ∈ rt_All t \/ isValidContactAddr (cAddr c) = true) as Hj.
  { intros t j d Ht. unfold learn_json. destruct (isValidContactAddr (cj_Addr j)) eqn:Ev; [|by left].
    destruct (ContactFromJSON now j) as [e| |] eqn:E; try by left.
    pose proof (ContactFromJSON_ok _ _ _ E) as Hid. unfold ContactFromJSON in E.
    destruct (ParseID (cj_ID j)); try done. injection E as <-. intros [->|Hin]%rt_Add_inv; auto. by destruct Ht. }
  assert (forall l t c, rt_good (n_id n) t -> c ∈ rt_All (fold_left (learn_json now) l t) ->
    c ∈ rt_All t \/ isValidContactAddr (cAddr c) = true) as Hl.
  { induction l as [|j l IH]; intros t d Ht; simpl; [by left|]. intros Hd.
    destruct (IH _ d (rt_good_learn _ now [j] t Ht) Hd) as [Hd'|]; [by eapply Hj | by right]. }
  unfold handleNodes. destruct (unmarshal_nodes raw) as [[from nodes]|]; simpl; [|by left].
  pose proof (node_good n Hn) as Hg. case_decide; [|by apply Hl].
  intros Hc. destruct (Hl _ _ c (rt_good_learn _ now [from] _ Hg) Hc); [by eapply Hj | by right].
Qed.

(** *** Re-probing of suspects *)

Lemma pingAddr_inert a n :
  (forall c, c ∈ rt_All (rt n) -> cAddr c = a -> cSuspect c = true) ->
  exists out, pingAddr a n = (n, out, None).
Proof.
  intros Ha. unfold pingAddr. destruct (resolve a); [|eauto].
  destruct (list_find _ _) as [[i c]|] eqn:E; [|eauto].
  apply list_find_Some in E as (E & Ec & _). apply list_elem_of_lookup_2, Closest_elem in E as [Hc Hs].
  rewrite (Ha c Hc Ec) in Hs. done.
Qed.

(** Re-probing has no effect on the node's view of its suspects: the pings go out,
    but as long as no healthy contact shares a suspect's address no reply is
    awaited and no timer is started, so an answer never clears the suspicion and
    silence is never counted. *)
Theorem reprobe_inert n :
  (forall c d, c ∈ rt_SuspectContacts (rt n) -> d ∈ rt_All (rt n) -> cAddr d = cAddr c -> cSuspect d = true) ->
  exists out, reprobeSuspects n = (n, out, []).
Proof.
  intros Hs. unfold reprobeSuspects.
  assert (forall l, (forall c, c ∈ l -> c ∈ rt_SuspectContacts (rt n)) ->
    exists out, ping_all (cAddr <$> l) n = (n, out, [])) as Hl; [|by apply Hl].
  induction l as [|c l IH]; intros Hc; [by exists []|]. rewrite fmap_cons. cbn [ping_all].
  destruct (pingAddr_inert (cAddr c) n) as [out ->].
  { intros d Hd Ed. eapply (Hs c); [|done..]. apply Hc, elem_of_cons. by left. }
  destruct IH as [out' ->]; [|by eauto]. intros d Hd. apply Hc, elem_of_cons. by right.
Qed.

(** *** One round of manifest gossip between two nodes *)

(** Marshalling a version or a manifest and reading it back; a manifest arrives
    in its compacted form. *)
Class DhtCodecLaws := {
  law_have : forall ts, - 2 ^ 63 <= ts < 2 ^ 63 ->
    exists b, marshal (PManifestHave ts) = Some b /\ unmarshal_have b = Some ts;
  law_manifest : forall ts raw c, - 2 ^ 63 <= ts < 2 ^ 63 -> compact raw = Some c ->
    exists b, marshal (PManifest ts raw) = Some b /\ unmarshal_manifest b = Some (ts, c) }.

(** A datagram sealed by one node and received by another from address [src]. *)
Definition deliver {AE : Aead} (key : bytes) (r : SealRand) (now : Z) (src : gostring) (e : effect) (n : Node)
    : Node * list effect :=
  match e with
  | Send ty ttl body _ =>
      match Seal key r ty ttl body with Ok pkt => handlePacket key now src pkt n | _ => (n, []) end
  | _ => (n, [])
  end.

Lemma deliver_dispatch {AE : Aead} key r now src ty ttl body dst n :
  rand_ok r -> deliver key r now src (Send ty ttl body dst) n = dispatch now src ty body (clearSuspectByAddr src n).
Proof.
  intros Hr. destruct (Seal_opens key r ty ttl body Hr) as (pkt & Es & Eo & _).
  simpl. rewrite Es. unfold handlePacket. by rewrite Eo.
Qed.

Lemma clearSuspect_view src n :
  manifestTS (clearSuspectByAddr src n) = manifestTS n
  /\ manifestRaw (clearSuspectByAddr src n) = manifestRaw n
  /\ onManifest (clearSuspectByAddr src n) = onManifest n.
Proof. unfold clearSuspectByAddr. by destruct (pendingPings n !! src). Qed.

Lemma clearSuspect_idem src n : clearSuspectByAddr src (clearSuspectByAddr src n) = clearSuspectByAddr src n.
Proof.
  unfold clearSuspectByAddr at 2 3. destruct (pendingPings n !! src) as [id|] eqn:E.
  - unfold clearSuspectByAddr. cbn [pendingPings set_rt set_pending]. by rewrite lookup_delete_eq.
  - unfold clearSuspectByAddr. by rewrite E.
Qed.

(** Push-pull gossip delivers the newer manifest. When [n1] at address a1 holds
    version ts and [n2] at a2 an older one, then through the encrypted datagrams, with
    any randomness: a1's announcement makes a2 ask a1 for it, the request makes a1 send
    it to a2, and on its arrival a2's handler is called with the manifest (as compacted
    by the encoder). Once a2 has adopted it, the same announcement and the same data
    have no effect. *)
Theorem manifest_gossip {AE : Aead} {CL : DhtCodecLaws} key r now a1 a2 n1 n2 raw :
  rand_ok r -> - 2 ^ 63 <= manifestTS n1 < 2 ^ 63 -> manifestTS n2 < manifestTS n1 ->
  manifestRaw n1 <> [] -> compact (manifestRaw n1) = Some raw -> onManifest n2 = true ->
  exists have want data n1' n2' n2'' n3,
    seal_send MsgManifestHave MaxTTL (PManifestHave (manifestTS n1)) a2 = [have]
    /\ deliver key r now a1 have n2 = (n2', [want])
    /\ deliver key r now a2 want n1 = (n1', [data])
    /\ deliver key r now a1 data n2' = (n2'', [CallManifest raw])
    /\ let adopted := SetManifest raw (manifestTS n1) n2'' in
       manifestTS adopted = manifestTS n1 /\ manifestRaw adopted = raw
       /\ deliver key r now a1 have adopted = (n3, []) /\ deliver key r now a1 data n3 = (n3, []).
Proof.
  intros Hr Hb Hts Hraw Hc Hcb.
  destruct (law_have (manifestTS n1) Hb) as (b1 & Em1 & Eu1).
  destruct (law_manifest (manifestTS n1) (manifestRaw n1) raw Hb Hc) as (b2 & Em2 & Eu2).
  pose proof (clearSuspect_view a1 n2) as (V1 & V2 & V3).
  pose proof (clearSuspect_view a2 n1) as (U1 & U2 & _).
  exists (Send MsgManifestHave MaxTTL b1 a2), (Send MsgManifestWant MaxTTL [] a1),
    (Send MsgManifest MaxTTL b2 a2), (clearSuspectByAddr a2 n1), (clearSuspectByAddr a1 n2),
    (clearSuspectByAddr a1 (clearSuspectByAddr a1 n2)),
    (clearSuspectByAddr a1 (SetManifest raw (manifestTS n1) (clearSuspectByAddr a1 (clearSuspectByAddr a1 n2)))).
  set (m := clearSuspectByAddr a1 n2) in *. pose proof (clearSuspect_view a1 m) as (W1 & W2 & W3).
  set (m2 := clearSuspectByAddr a1 m) in *.
  set (ad := SetManifest raw (manifestTS n1) m2).
  assert (manifestTS ad = manifestTS n1 /\ manifestRaw ad = raw) as [A1 A2].
  { unfold ad, SetManifest. rewrite (proj2 (Z.ltb_lt _ _)) by lia. done. }
  pose proof (clearSuspect_view a1 ad) as (X1 & X2 & X3). set (m3 := clearSuspectByAddr a1 ad) in *.
  pose proof (clearSuspect_idem a1 ad) as E3. fold m3 in E3.
  cbn zeta. fold ad. split_and!.
  - unfold seal_send, seal_body. by rewrite Em1.
  - rewrite deliver_dispatch by done. fold m. cbn [dispatch]. unfold dispatch. simpl. unfold handleManifestHave.
    rewrite Eu1. rewrite (proj2 (Z.ltb_lt _ _)) by lia. done.
  - rewrite deliver_dispatch by done. unfold dispatch. simpl. unfold handleManifestWant.
    rewrite decide_False by (by rewrite U2). unfold seal_send, seal_body. by rewrite U1, U2, Em2.
  - rewrite deliver_dispatch by done. fold m2. unfold dispatch. simpl. unfold handleManifestData. rewrite Eu2.
    rewrite (proj2 (Z.leb_gt _ _)) by lia. by rewrite W3, V3, Hcb.
  - done.
  - done.
  - rewrite deliver_dispatch by done. fold m3. unfold dispatch. simpl. unfold handleManifestHave. rewrite Eu1.
    rewrite (proj2 (Z.ltb_ge _ _)) by lia. done.
  - rewrite deliver_dispatch by done. rewrite E3. unfold dispatch. simpl. unfold handleManifestData. rewrite Eu2.
    rewrite (proj2 (Z.leb_le _ _)) by lia. done.
Qed.
End node.

(** ** A codec and an environment on which the statements run *)

Definition toy_z (ts : Z) : bytes := be_put 8 (ts mod 2 ^ 64).
Definition untoy_z (b : bytes) : Z := int64 (be_get b).

Lemma untoy_toy ts : - 2 ^ 63 <= ts < 2 ^ 63 -> untoy_z (toy_z ts) = ts.
Proof.
  intros Hts. unfold untoy_z, toy_z. rewrite be_get_put. change (256 ^ Z.of_nat 8) with (2 ^ 64).
  rewrite Z.mod_mod by lia. unfold int64. rewrite Zplus_mod_idemp_l. rewrite Z.mod_small; lia.
Qed.

(** Two fixed 64-digit identifiers are enough for the lists of contacts. *)
Definition toy_contact (b : Z) : ContactJSON :=
  MkCJ (ID_String (test_id b)) (bs "10.0.0.1:4567").

#[export] Instance toy_codec : DhtCodec := {|
  compact raw := Some raw;
  marshal p := match p with
    | PManifestHave ts => Some (toy_z ts)
    | PManifest ts raw => Some (toy_z ts ++ raw)
    | _ => Some [] end;
  unmarshal_find _ := None;
  unmarshal_nodes raw := Some (toy_contact 1, toy_contact <$> raw);
  unmarshal_announce _ := None; unmarshal_relays _ := None;
  unmarshal_have raw := Some (untoy_z raw);
  unmarshal_manifest raw := Some (untoy_z (take 8 raw), drop 8 raw);
  unmarshal_punch _ := None; unmarshal_chave _ := None; unmarshal_content _ := None;
  unmarshal_mirror _ := None; unmarshal_peers _ := None; unmarshal_relay_file _ := None |}.

#[export, program] Instance toy_laws : DhtCodecLaws := {}.
Next Obligation. intros ts Hts. eexists. split; [reflexivity|]. simpl. by rewrite untoy_toy. Qed.
Next Obligation.
  intros ts raw c Hts [= <-]. eexists. split; [reflexivity|]. cbn [unmarshal_manifest toy_codec].
  change 8%nat with (length (toy_z ts)) at 1 2. rewrite take_app_exact, drop_app_exact. by rewrite untoy_toy.
Qed.

Definition test_n1 : Node := SetManifest (bs "{v:9}") 9 (NewNode (test_id 1)).
Definition test_n2 : Node := SetManifestHandler true (NewNode (test_id 2)).

Lemma manifest_gossip_witness :
  exists have want data n1' n2' n2'' n3,
    seal_send MsgManifestHave MaxTTL (PManifestHave (manifestTS test_n1)) (bs "b") = [have]
    /\ deliver (bs "l") (replicate 32 9) test_rand 0 (bs "a") have test_n2 = (n2', [want])
    /\ deliver (bs "l") (replicate 32 9) test_rand 0 (bs "b") want test_n1 = (n1', [data])
    /\ deliver (bs "l") (replicate 32 9) test_rand 0 (bs "a") data n2' = (n2'', [CallManifest (bs "{v:9}")])
    /\ let adopted := SetManifest (bs "{v:9}") (manifestTS test_n1) n2'' in
       manifestTS adopted = manifestTS test_n1 /\ manifestRaw adopted = bs "{v:9}"
       /\ deliver (bs "l") (replicate 32 9) test_rand 0 (bs "a") have adopted = (n3, [])
       /\ deliver (bs "l") (replicate 32 9) test_rand 0 (bs "a") data n3 = (n3, []).
Proof.
  apply (manifest_gossip (bs "l") (replicate 32 9) test_rand 0 (bs "a") (bs "b") test_n1 test_n2).
  - exists 0x53, (replicate 12 1). split_and!; [done | vm_compute; split; congruence | done | done |].
    intros k. exists (replicate k 7). split; [done | apply length_replicate].
  - vm_compute. split; congruence.
  - vm_compute. congruence.
  - vm_compute. congruence.
  - reflexivity.
  - reflexivity.
Defined.

Lemma test_id_ok b : byte_ok b -> id_ok (test_id b).
Proof. intros Hb. split; [done|]. constructor; [done|]. by apply Forall_replicate. Qed.

Definition test_node0 : Node :=
  fst (dispatch (bs "l") 5 (bs "10.0.0.9:1") MsgNodes [4; 6]
    (clearSuspectByAddr (bs "10.0.0.9:1") (NewNode (test_id 0)))).
Definition test_world : world := MkWorld test_node0 [].

Lemma test_world_reachable : reachable (fun a => Some a) (bs "l") (test_id 0) test_world.
Proof.
  unfold test_world, test_node0. eapply reach_step; [apply reach_init|].
  exact (step_recv _ _ 5 (bs "10.0.0.9:1") MsgNodes [4; 6] (NewNode (test_id 0)) []).
Qed.

Lemma node_invariant_witness :
  rt_Size (rt test_node0) = 3 /\ rt_wf (rt (w_node test_world)).
Proof.
  split; [vm_compute; reflexivity|].
  apply (node_invariant (fun a => Some a) (bs "l") (test_id 0) test_world); [|exact test_world_reachable].
  apply (bool_decide_eq_true _); vm_compute; reflexivity.
Defined.

Lemma gossip_monotone_witness :
  versions_le (NewNode (test_id 0)) (SetContent (bs "{}") 4 (NewNode (test_id 0))).
Proof.
  exact (gossip_monotone (fun a => Some a) (bs "l") _ _ _
    (step_content (fun a => Some a) (bs "l") (bs "{}") 4 (NewNode (test_id 0)) [])).
Defined.

Lemma handleNodes_filters_witness :
  MkContact (test_id 4) (bs "10.0.0.1:4567") 5 0 false ∈ rt_All (rt (NewNode (test_id 0)))
  \/ isValidContactAddr (bs "10.0.0.1:4567") = true.
Proof.
  refine (handleNodes_filters 5 [4; 6] (NewNode (test_id 0))
    (MkContact (test_id 4) (bs "10.0.0.1:4567") 5 0 false) _ _).
  - apply NewNode_wf. apply (bool_decide_eq_true _); vm_compute; reflexivity.
  - apply (bool_decide_eq_true _); vm_compute; reflexivity.
Defined.

Definition test_suspect : Node := set_rt (rt_MarkMissed (test_id 4) (rt test_node0)) (NewNode (test_id 0)).

Lemma reprobe_inert_witness :
  exists out, reprobeSuspects (fun a => Some a) (set_rt (rt_Remove (test_id 1) (rt_Remove (test_id 6)
    (rt test_suspect))) test_suspect)
  = (set_rt (rt_Remove (test_id 1) (rt_Remove (test_id 6) (rt test_suspect))) test_suspect, out, []).
Proof.
  apply reprobe_inert. intros c d _ Hd _. revert d Hd. rewrite <- Forall_forall.
  apply (bool_decide_eq_true _); vm_compute; reflexivity.
Defined.
End Node.
