(* ===== verification/Frames.v ===== *)
(** * The tunnel's frames, client and exit side

    The plaintexts and encrypted envelopes of src/snc/core/tunnel.go and
    src/snc/core/udp_relay.go (client), src/snc-exit/handler.go and
    src/snc-exit/udp_tunnel.go (exit), and the round trips between the two.
    What the random source returns is an argument. *)

From stdpp Require Import base list gmap strings fin_maps.
From Stdlib Require Import ZArith Lia.
From S2P Require Import Prelude GoLib.

(** ** Client side: src/snc/core *)
Module Client.

Definition frameTypeUpload : Z := 0x00.
Definition frameTypeStreamOpen : Z := 0x01.
Definition NonceSize : Z := 12.
Definition KeySize : nat := 32.

Definition sessionKey {B : Blake2b} (token : gostring) : bytes := blake2b_256 token.

(** [sealFrame]; [nonce] is what the random source returned. *)
Definition sealFrame {A : Aead} (nonce : res bytes) (key plaintext : bytes) : res bytes :=
  if negb (length key =? KeySize)%nat then Err "chacha20poly1305: bad key length"
  else n ← nonce; Ok (n ++ aead_seal key n plaintext).

Definition openFrame {A : Aead} (key data : bytes) : res bytes :=
  if negb (length key =? KeySize)%nat then Err "chacha20poly1305: bad key length"
  else if lenZ data <? NonceSize then Err "frame too short"
  else
    nonce ← go_slice data 0 NonceSize;
    ct ← go_slice data NonceSize (lenZ data);
    match aead_open key nonce ct with
    | Some p => Ok p
    | None => Err "chacha20poly1305: message authentication failed"
    end.

(** [copy(buf[i:], b)] of a decoded conn id into its 16-byte field. *)
Definition conn_field (connIDHex : gostring) : bytes :=
  match Hex.decode connIDHex with
  | Some b => take 16 (b ++ replicate 16 0)
  | None => replicate 16 0
  end.

Definition buildUploadPlain (connIDHex : gostring) (seq : Z) (target : gostring) (payload : bytes) : bytes :=
  [frameTypeUpload] ++ conn_field connIDHex ++ be_put 4 seq ++ be_put 2 (u16 (lenZ target))
    ++ target ++ payload.

Definition buildStreamOpenPlain (connIDHex : gostring) : bytes :=
  [frameTypeStreamOpen] ++ conn_field connIDHex.

Definition parseResponse {A : Aead} (key body : bytes) : res bytes :=
  if decide (body = []) then Ok []
  else
    match openFrame key body with
    | Ok plain =>
        if lenZ plain <? 4 then Err "response frame too short"
        else
          dlen ← go_uint 4 plain 0;
          if dlen =? 0 then Ok []
          else if lenZ plain - 4 <? dlen then Err "response dlen > available"
          else go_slice plain 4 (4 + dlen)
    | Err _ => Err "response decrypt"
    | Panic => Panic
    end.

(** The frames loop of [decodeDatagramBatch]. *)
Fixpoint batch_loop (n : nat) (data : bytes) (o : Z) : res (list bytes) :=
  match n with
  | O => Ok []
  | S n =>
      if lenZ data <? o + 4 then Err "batch truncated at frame"
      else
        flen ← go_uint 4 data o;
        let o := o + 4 in
        if lenZ data <? o + flen then Err "batch frame truncated"
        else
          f ← go_slice data o (o + flen);
          fs ← batch_loop n data (o + flen);
          Ok (f :: fs)
  end.

Definition decodeDatagramBatch (data : bytes) : res (list bytes) :=
  if decide (data = []) then Ok []
  else if lenZ data <? 4 then Err "batch too short"
  else
    n ← go_uint 4 data 0;
    batch_loop (Z.to_nat n) data 4.

(** *** framedDecryptReader: the source bytes left and the decrypted bytes pending *)
Record framedDecryptReader := MkReader { fr_src : bytes; fr_buf : bytes }.

Definition maxFrame : Z := 2 ^ 20.

(** [io.ReadFull]: n bytes, or EOF / unexpected EOF. *)
Definition read_full (n : Z) (src : bytes) : res (bytes * bytes) :=
  if n <=? lenZ src then Ok (take (Z.to_nat n) src, drop (Z.to_nat n) src)
  else if decide (src = []) then Err "EOF" else Err "unexpected EOF".

(** [Read] into a buffer of [cap] bytes: the bytes delivered and the new reader. *)
Definition fr_Read {A : Aead} (key : bytes) (cap : nat) (r : framedDecryptReader)
    : res (bytes * framedDecryptReader) :=
  if decide (fr_buf r <> []) then Ok (take cap (fr_buf r), MkReader (fr_src r) (drop cap (fr_buf r)))
  else
    '(lenBuf, src) ← read_full 4 (fr_src r);
    let frameLen := be_get lenBuf in
    if maxFrame <? frameLen then Err "stream frame too large"
    else
      '(frame, src) ← read_full frameLen src;
      match openFrame key frame with
      | Ok plain => Ok (take cap plain, MkReader src (drop cap plain))
      | Err _ => Err "stream decrypt"
      | Panic => Panic
      end.

(** *** SNCU datagrams (udp_relay.go) *)
Definition udpRelayMagic : Z := 0x534E4355.
Definition udpRelayTypeRequest : Z := 0x01.
Definition udpRelayTypeResponse : Z := 0x02.
Definition udpRelayTypeKeepalive : Z := 0x03.
Definition udpRelayTypePong : Z := 0x04.

Definition udpEncodeRequest (reqID : Z) (path token body : bytes) : bytes :=
  be_put 4 udpRelayMagic ++ be_put 4 reqID ++ [udpRelayTypeRequest]
    ++ be_put 2 (u16 (lenZ path)) ++ path ++ be_put 2 (u16 (lenZ token)) ++ token
    ++ be_put 4 (u32 (lenZ body)) ++ body.

(** [udpDecodeRequest]: [Ok None] is the result with ok = false. *)
Definition udpDecodeRequest (data : bytes) : res (option (bytes * bytes * bytes)) :=
  if lenZ data <? 9 + 2 + 2 + 4 then Ok None
  else
    let o := 9 in
    pLen ← go_uint 2 data o;
    let o := o + 2 in
    if lenZ data <? o + pLen + 2 then Ok None
    else
      path ← go_slice data o (o + pLen);
      let o := o + pLen in
      tLen ← go_uint 2 data o;
      let o := o + 2 in
      if lenZ data <? o + tLen + 4 then Ok None
      else
        token ← go_slice data o (o + tLen);
        let o := o + tLen in
        bLen ← go_uint 4 data o;
        let o := o + 4 in
        if lenZ data <? o + bLen then Ok None
        else body ← go_slice data o (o + bLen); Ok (Some (path, token, body)).

Definition udpEncodeKeepalive (reqID typ : Z) : bytes :=
  be_put 4 udpRelayMagic ++ be_put 4 reqID ++ [typ].

Definition udpEncodeResponse (reqID status : Z) (body : bytes) : bytes :=
  be_put 4 udpRelayMagic ++ be_put 4 reqID ++ [udpRelayTypeResponse]
    ++ be_put 2 (u16 status) ++ be_put 4 (u32 (lenZ body)) ++ body.

Definition udpDecodeResponse (data : bytes) : res (option (Z * bytes)) :=
  if lenZ data <? 4 + 4 + 1 + 2 + 4 then Ok None
  else
    let o := 9 in
    status ← go_uint 2 data o;
    let o := o + 2 in
    bLen ← go_uint 4 data o;
    let o := o + 4 in
    if lenZ data <? o + bLen then Ok None
    else body ← go_slice data o (o + bLen); Ok (Some (status, body)).

(** *** SOCKS5 UDP relay frames (udp_assoc.go) *)

(** [net.IP.To4] on a 4- or 16-byte address, and [To16]. *)
Definition To4 (ip : bytes) : option bytes :=
  if (length ip =? 4)%nat then Some ip
  else if (length ip =? 16)%nat && bool_decide (take 12 ip = Net.v4_prefix) then Some (drop 12 ip)
  else None.
Definition To16 (ip : bytes) : bytes :=
  if (length ip =? 4)%nat then Net.v4_prefix ++ ip
  else if (length ip =? 16)%nat then ip else [].

Definition buildUDPRelayPlain (connIDHex : gostring) (ip : bytes) (port : Z) (body : bytes) : res bytes :=
  match Hex.decode connIDHex with
  | Some raw =>
      if negb (length raw =? 16)%nat then Err "invalid connID"
      else
        let '(family, ipBytes) := match To4 ip with Some ip4 => (0x04, ip4) | None => (0x06, To16 ip) end in
        Ok (raw ++ [family] ++ ipBytes ++ be_put 2 (u16 port) ++ be_put 4 (u32 (lenZ body)) ++ body)
  | None => Err "invalid connID"
  end.
End Client.

(** ** Exit side: src/snc-exit *)
Module Exit.

Definition frameTypeUpload : Z := 0x00.
Definition frameTypeStreamOpen : Z := 0x01.
Definition NonceSize : Z := 12.
Definition minPadding : Z := 512.

Definition sessionKey {B : Blake2b} (token : gostring) : bytes := blake2b_256 token.

Definition sealTunnelData {A : Aead} (nonce : res bytes) (key plain : bytes) : res bytes :=
  if negb (length key =? 32)%nat then Err "chacha20poly1305: bad key length"
  else n ← nonce; Ok (n ++ aead_seal key n plain).

Definition openTunnelFrame {A : Aead} (key data : bytes) : res bytes :=
  if negb (length key =? 32)%nat then Err "chacha20poly1305: bad key length"
  else if lenZ data <? NonceSize then Err "frame too short"
  else
    nonce ← go_slice data 0 NonceSize;
    ct ← go_slice data NonceSize (lenZ data);
    match aead_open key nonce ct with
    | Some p => Ok p
    | None => Err "chacha20poly1305: message authentication failed"
    end.

(** [parseUploadFrame]: connection id, sequence number, target and payload. *)
Definition parseUploadFrame (plain : bytes) : res (gostring * Z * gostring * bytes) :=
  if lenZ plain <? 1 + 16 + 4 + 2 then Err "frame too short"
  else
    ty ← go_index plain 0;
    if negb (ty =? frameTypeUpload) then Err "unexpected type"
    else
      id ← go_slice plain 1 17;
      seq ← go_uint 4 plain 17;
      tgtLen ← go_uint 2 plain 21;
      if lenZ plain - 23 <? tgtLen then Err "target length overflow"
      else
        target ← go_slice plain 23 (23 + tgtLen);
        payload ← go_slice plain (23 + tgtLen) (lenZ plain);
        Ok (Hex.encode id, seq, target, payload).

(** [buildUploadResponse]; [pad] is the random padding the source reads. *)
Definition buildUploadResponse {A : Aead} (nonce : res bytes) (pad : nat -> bytes) (key data : bytes) : res bytes :=
  let dlen := lenZ data in
  let padLen := if minPadding <? dlen then dlen else minPadding in
  let plain := be_put 4 (u32 dlen) ++ data ++ (if dlen <? padLen then pad (Z.to_nat (padLen - dlen)) else []) in
  sealTunnelData nonce key plain.

(** The frames loop of [encodeDatagramBatch]. *)
Fixpoint batch_bytes (frames : list bytes) : bytes :=
  match frames with
  | [] => []
  | f :: frames => be_put 4 (u32 (lenZ f)) ++ f ++ batch_bytes frames
  end.

Definition encodeDatagramBatch (frames : list bytes) : bytes :=
  be_put 4 (u32 (lenZ frames)) ++ batch_bytes frames.

(** [parseUDPRelayFrame]: connection id, destination IP bytes, port and payload. *)
Definition parseUDPRelayFrame (plain : bytes) : res (gostring * bytes * Z * bytes) :=
  if lenZ plain <? 16 + 1 + 4 + 2 + 4 then Err "frame too short"
  else
    id ← go_slice plain 0 16;
    family ← go_index plain 16;
    let o := 17 in
    ipo ←
      (if family =? 0x04 then
         if lenZ plain <? o + 4 then Err "truncated IPv4"
         else ip ← go_slice plain o (o + 4); Ok (ip, o + 4)
       else if family =? 0x06 then
         if lenZ plain <? o + 16 then Err "truncated IPv6"
         else ip ← go_slice plain o (o + 16); Ok (ip, o + 16)
       else Err "unknown family");
    let '(ip, o) := (ipo : bytes * Z) in
    if lenZ plain <? o + 2 + 4 then Err "truncated port/length"
    else
      port ← go_uint 2 plain o;
      let o := o + 2 in
      bLen ← go_uint 4 plain o;
      let o := o + 4 in
      if lenZ plain <? o + bLen then Err "body length overflow"
      else payload ← go_slice plain o (o + bLen); Ok (Hex.encode id, ip, port, payload).

(** *** SNCU datagrams (udp_tunnel.go) *)
Definition udpExitMagic : Z := 0x534E4355.
Definition udpExitTypeRequest : Z := 0x01.
Definition udpExitTypeResponse : Z := 0x02.

Definition udpExitDecodeRequest (data : bytes) : res (option (bytes * bytes * bytes)) :=
  if lenZ data <? 9 + 2 + 2 + 4 then Ok None
  else
    let o := 9 in
    pLen ← go_uint 2 data o;
    let o := o + 2 in
    if lenZ data <? o + pLen + 2 then Ok None
    else
      path ← go_slice data o (o + pLen);
      let o := o + pLen in
      tLen ← go_uint 2 data o;
      let o := o + 2 in
      if lenZ data <? o + tLen + 4 then Ok None
      else
        token ← go_slice data o (o + tLen);
        let o := o + tLen in
        bLen ← go_uint 4 data o;
        let o := o + 4 in
        if lenZ data <? o + bLen then Ok None
        else body ← go_slice data o (o + bLen); Ok (Some (path, token, body)).

Definition udpExitEncodeResponse (reqID status : Z) (body : bytes) : bytes :=
  be_put 4 udpExitMagic ++ be_put 4 reqID ++ [udpExitTypeResponse]
    ++ be_put 2 (u16 status) ++ be_put 4 (u32 (lenZ body)) ++ body.

(** *** streamToClient *)

(** One turn of the loop: the clock when it is tested and after the read, the bytes
    read from the target and how the read ended. *)
Inductive read_end := ReadOk | ReadTimeout | ReadError.
Record stream_read := MkRead { sr_clock : Z; sr_after : Z; sr_data : bytes; sr_end : read_end; sr_nonce : res bytes }.

Definition streamMaxSecs : Z := 30.

(** The bytes written to the response, the byte count reported and whether the
    target ended the stream. [deadline] is the idle deadline. *)
Fixpoint stream_loop {A : Aead} (key : bytes) (deadline total : Z) (turns : list stream_read)
    : bytes * Z * bool :=
  match turns with
  | [] => ([], total, false)
  | t :: turns =>
      if negb (sr_clock t <? deadline) then ([], total, false)
      else
        let cont deadline total :=
          match sr_end t with
          | ReadError => ([], total, true)
          | _ => stream_loop key deadline total turns
          end in
        if decide (sr_data t <> []) then
          let total := total + lenZ (sr_data t) in
          match sealTunnelData (sr_nonce t) key (sr_data t) with
          | Ok ct =>
              let '(out, total, closed) := cont (sr_after t + streamMaxSecs * second) total in
              (be_put 4 (u32 (lenZ ct)) ++ ct ++ out, total, closed)
          | _ => ([], total, true)
          end
        else cont deadline total
  end.
End Exit.

(** ** Encrypted envelopes *)

Lemma open_seal {A : Aead} n key plain :
  length key = 32%nat -> lenZ n = 12 ->
  Client.openFrame key (n ++ aead_seal key n plain) = Ok plain.
Proof.
  intros Hk Hn. unfold Client.openFrame, Client.KeySize, Client.NonceSize. rewrite Hk. simpl negb. cbn iota.
  rewrite (proj2 (Z.ltb_ge _ _)) by (rewrite length_app; lia).
  rewrite go_slice_prefix by done. cbn [mbind res_bind].
  rewrite go_slice_suffix by done. cbn [mbind res_bind]. by rewrite aead_open_seal.
Qed.

Lemma open_exit_client {A : Aead} key data : Exit.openTunnelFrame key data = Client.openFrame key data.
Proof. reflexivity. Qed.

Lemma openFrame_no_panic {A : Aead} key data : no_panic (Client.openFrame key data).
Proof.
  unfold Client.openFrame, Client.NonceSize, no_panic. destruct (negb _); [done|].
  destruct (Z.ltb_spec (lenZ data) 12); [done|].
  destruct (go_slice_ok data 0 12) as (? & -> & _); [lia..|]. cbn [mbind res_bind].
  destruct (go_slice_ok data 12 (lenZ data)) as (? & -> & _); [lia..|]. cbn [mbind res_bind].
  by destruct (aead_open _ _ _).
Qed.

(** ** Upload frames *)

Lemma conn_field_encode id : bytes_ok id -> length id = 16%nat -> Client.conn_field (Hex.encode id) = id.
Proof.
  intros Hb Hl. unfold Client.conn_field. rewrite Hex.decode_encode by done.
  by rewrite <- Hl, take_app_exact.
Qed.

Lemma upload_parse id seq target payload :
  length id = 16%nat -> 0 <= seq < 2 ^ 32 -> lenZ target < 2 ^ 16 ->
  Exit.parseUploadFrame ([0] ++ id ++ be_put 4 seq ++ be_put 2 (u16 (lenZ target)) ++ target ++ payload)
  = Ok (Hex.encode id, seq, target, payload).
Proof.
  intros Hl Hs Ht. assert (u16 (lenZ target) = lenZ target) as -> by (unfold u16; apply Z.mod_small; lia).
  set (p := [0] ++ id ++ _). unfold Exit.parseUploadFrame, Exit.frameTypeUpload.
  assert (lenZ p = 23 + lenZ target + lenZ payload) as Hp by (unfold p; solve_len).
  rewrite (proj2 (Z.ltb_ge _ _)) by lia.
  rewrite (go_index_lookup p 0 0) by done. cbn [mbind res_bind]. simpl (negb (0 =? 0)). cbn iota.
  erewrite (go_slice_at [0] id _ p) by (split_buf || solve_len). cbn [mbind res_bind].
  erewrite (go_uint_at 4 ([0] ++ id) _ p) by (split_buf || solve_len). cbn [mbind res_bind].
  erewrite (go_uint_at 2 ([0] ++ id ++ be_put 4 seq) _ p) by (split_buf || solve_len). cbn [mbind res_bind].
  rewrite (proj2 (Z.ltb_ge _ _)) by lia.
  erewrite (go_slice_at ([0] ++ id ++ be_put 4 seq ++ be_put 2 (lenZ target)) target _ p 23)
    by (split_buf || solve_len). cbn [mbind res_bind].
  erewrite (go_slice_at ([0] ++ id ++ be_put 4 seq ++ be_put 2 (lenZ target) ++ target) payload [] p)
    by (unfold p; solve_app || solve_len). done.
Qed.

(** The exit reads back exactly the upload frame a client built: connection id,
    sequence number, target and payload, for any 16-byte id and any target of less
    than 65536 bytes. *)
Theorem upload_roundtrip id seq target payload :
  bytes_ok id -> length id = 16%nat -> 0 <= seq < 2 ^ 32 -> lenZ target < 2 ^ 16 ->
  Exit.parseUploadFrame (Client.buildUploadPlain (Hex.encode id) seq target payload)
  = Ok (Hex.encode id, seq, target, payload).
Proof.
  intros Hb Hl Hs Ht. unfold Client.buildUploadPlain. rewrite conn_field_encode by done. by apply upload_parse.
Qed.

Lemma upload_roundtrip_witness :
  Exit.parseUploadFrame (Client.buildUploadPlain (Hex.encode (replicate 16 171)) 7 (bs "h:80") (bs "GET"))
  = Ok (Hex.encode (replicate 16 171), 7, bs "h:80", bs "GET").
Proof.
  apply upload_roundtrip; [apply (bool_decide_eq_true _); vm_compute; reflexivity | reflexivity | lia | vm_compute; reflexivity].
Defined.

(** ** Upload responses *)

Lemma sealed_response {A : Aead} n pad key data :
  length key = 32%nat -> lenZ n = 12 -> lenZ data < 2 ^ 32 -> (forall k, length (pad k) = k) ->
  exists resp padding, Exit.buildUploadResponse (Ok n) pad key data = Ok resp
    /\ resp = n ++ aead_seal key n (be_put 4 (lenZ data) ++ data ++ padding)
    /\ lenZ resp = 32 + Z.max 512 (lenZ data).
Proof.
  intros Hk Hn Hd Hp. unfold Exit.buildUploadResponse, Exit.sealTunnelData, Exit.minPadding. rewrite Hk.
  simpl negb. cbn iota. cbn [mbind res_bind]. unfold u32. rewrite (Z.mod_small (lenZ data)) by lia.
  eexists _, _. split; [reflexivity|]. split; [reflexivity|].
  rewrite length_app, aead_length_seal, !length_app, length_be_put.
  destruct (Z.ltb_spec 512 (lenZ data)).
  - rewrite Z.ltb_irrefl. cbn [length]. lia.
  - destruct (Z.ltb_spec (lenZ data) 512); rewrite ?Hp; cbn [length]; lia.
Qed.

Lemma parse_sealed {A : Aead} n key data padding :
  length key = 32%nat -> lenZ n = 12 -> lenZ data < 2 ^ 32 ->
  Client.parseResponse key (n ++ aead_seal key n (be_put 4 (lenZ data) ++ data ++ padding)) = Ok data.
Proof.
  intros Hk Hn Hd. unfold Client.parseResponse. rewrite decide_False.
  2: { intros E. apply (f_equal length) in E. rewrite length_app in E. simpl in E. lia. }
  rewrite open_seal by done. set (p := be_put 4 (lenZ data) ++ data ++ padding).
  rewrite (proj2 (Z.ltb_ge _ _)) by (unfold p; solve_len).
  erewrite (go_uint_at 4 [] _ p) by (split_buf || solve_len). cbn [mbind res_bind].
  destruct (Z.eqb_spec (lenZ data) 0) as [E|Hne].
  - destruct data; [done | simpl in E; lia].
  - rewrite (proj2 (Z.ltb_ge _ _)) by (unfold p; solve_len).
    by erewrite (go_slice_at (be_put 4 (lenZ data)) data _ p) by (split_buf || solve_len).
Qed.

(** The client recovers exactly the data of an upload response, and the padding
    makes every response of up to 512 bytes of data the same 544 bytes on the wire. *)
Theorem response_roundtrip {A : Aead} n pad key data :
  length key = 32%nat -> lenZ n = 12 -> lenZ data < 2 ^ 32 -> (forall k, length (pad k) = k) ->
  exists resp, Exit.buildUploadResponse (Ok n) pad key data = Ok resp
    /\ Client.parseResponse key resp = Ok data
    /\ lenZ resp = 32 + Z.max 512 (lenZ data).
Proof.
  intros Hk Hn Hd Hp. destruct (sealed_response n pad key data Hk Hn Hd Hp) as (resp & padding & E & -> & Hl).
  eexists. split; [exact E|]. split; [|done]. by apply parse_sealed.
Qed.

Lemma response_roundtrip_witness :
  exists resp, Exit.buildUploadResponse (Ok (replicate 12 1)) (fun k => replicate k 0) (replicate 32 9) (bs "ok") = Ok resp
    /\ Client.parseResponse (replicate 32 9) resp = Ok (bs "ok")
    /\ lenZ resp = 32 + Z.max 512 (lenZ (bs "ok")).
Proof.
  apply (response_roundtrip (replicate 12 1) (fun k => replicate k 0) (replicate 32 9) (bs "ok"));
    [reflexivity | reflexivity | vm_compute; reflexivity |]. intros k. apply length_replicate.
Defined.

(** ** Datagram batches *)

Lemma batch_loop_encode (pre : bytes) fs :
  Forall (fun f => lenZ f < 2 ^ 32) fs ->
  Client.batch_loop (length fs) (pre ++ Exit.batch_bytes fs) (lenZ pre) = Ok fs.
Proof.
  intros Hf. revert pre. induction Hf as [|f fs Hf Hfs IH]; intros pre; [done|].
  cbn [length Client.batch_loop Exit.batch_bytes].
  assert (u32 (lenZ f) = lenZ f) as -> by (unfold u32; apply Z.mod_small; lia).
  set (tl := Exit.batch_bytes fs) in *. set (p := pre ++ _).
  rewrite (proj2 (Z.ltb_ge _ _)) by (unfold p; solve_len).
  erewrite (go_uint_at 4 pre _ p) by (split_buf || solve_len). cbn [mbind res_bind].
  rewrite (proj2 (Z.ltb_ge _ _)) by (unfold p; solve_len).
  erewrite (go_slice_at (pre ++ be_put 4 (lenZ f)) f _ p) by (split_buf || solve_len). cbn [mbind res_bind].
  replace (lenZ pre + 4 + lenZ f) with (lenZ (pre ++ be_put 4 (lenZ f) ++ f)) by solve_len.
  assert (p = (pre ++ be_put 4 (lenZ f) ++ f) ++ tl) as -> by (unfold p; solve_app).
  rewrite IH. done.
Qed.

(** A client decodes a datagram batch into exactly the datagrams the exit
    encoded, in order, boundaries kept, empty datagrams included. *)
Theorem batch_roundtrip fs :
  lenZ fs < 2 ^ 32 -> Forall (fun f => lenZ f < 2 ^ 32) fs ->
  Client.decodeDatagramBatch (Exit.encodeDatagramBatch fs) = Ok fs.
Proof.
  intros Hn Hf. unfold Client.decodeDatagramBatch, Exit.encodeDatagramBatch.
  assert (u32 (lenZ fs) = lenZ fs) as -> by (unfold u32; apply Z.mod_small; lia).
  set (p := be_put 4 (lenZ fs) ++ _).
  assert (4 <= lenZ p) by (unfold p; solve_len). rewrite decide_False by (intros E; rewrite E in *; simpl in *; lia).
  rewrite (proj2 (Z.ltb_ge _ _)) by lia.
  erewrite (go_uint_at 4 [] _ p) by (split_buf || solve_len). cbn [mbind res_bind].
  rewrite Nat2Z.id. exact (batch_loop_encode (be_put 4 (lenZ fs)) fs Hf).
Qed.

Lemma batch_roundtrip_witness :
  Client.decodeDatagramBatch (Exit.encodeDatagramBatch [bs "ab"; []; bs "c"]) = Ok [bs "ab"; []; bs "c"].
Proof.
  apply batch_roundtrip; [vm_compute; reflexivity|]. apply (bool_decide_eq_true _); vm_compute; reflexivity.
Defined.

(** ** SNCU datagrams and UDP relay frames *)

Lemma u16_small z : 0 <= z < 2 ^ 16 -> u16 z = z.
Proof. intros. unfold u16. by apply Z.mod_small. Qed.
Lemma u32_small z : 0 <= z < 2 ^ 32 -> u32 z = z.
Proof. intros. unfold u32. by apply Z.mod_small. Qed.

Lemma decode_request hd path token body :
  length hd = 9%nat -> lenZ path < 2 ^ 16 -> lenZ token < 2 ^ 16 -> lenZ body < 2 ^ 32 ->
  Exit.udpExitDecodeRequest (hd ++ be_put 2 (lenZ path) ++ path ++ be_put 2 (lenZ token) ++ token
    ++ be_put 4 (lenZ body) ++ body) = Ok (Some (path, token, body)).
Proof.
  intros Hh Hp Ht Hb. set (p := hd ++ _). unfold Exit.udpExitDecodeRequest.
  assert (lenZ p = 17 + lenZ path + lenZ token + lenZ body) as Hlp by (unfold p; solve_len).
  rewrite (proj2 (Z.ltb_ge _ _)) by lia.
  erewrite (go_uint_at 2 hd _ p) by (split_buf || solve_len). cbn [mbind res_bind].
  rewrite (proj2 (Z.ltb_ge _ _)) by lia.
  erewrite (go_slice_at (hd ++ be_put 2 (lenZ path)) path _ p) by (split_buf || solve_len). cbn [mbind res_bind].
  erewrite (go_uint_at 2 (hd ++ be_put 2 (lenZ path) ++ path) _ p) by (split_buf || solve_len). cbn [mbind res_bind].
  rewrite (proj2 (Z.ltb_ge _ _)) by lia.
  erewrite (go_slice_at (hd ++ be_put 2 (lenZ path) ++ path ++ be_put 2 (lenZ token)) token _ p)
    by (split_buf || solve_len). cbn [mbind res_bind].
  erewrite (go_uint_at 4 (hd ++ be_put 2 (lenZ path) ++ path ++ be_put 2 (lenZ token) ++ token) _ p)
    by (split_buf || solve_len). cbn [mbind res_bind].
  rewrite (proj2 (Z.ltb_ge _ _)) by lia.
  erewrite (go_slice_at (hd ++ be_put 2 (lenZ path) ++ path ++ be_put 2 (lenZ token) ++ token
    ++ be_put 4 (lenZ body)) body [] p) by ((unfold p; solve_app) || solve_len). done.
Qed.

Lemma decode_response hd status body :
  length hd = 9%nat -> 0 <= status < 2 ^ 16 -> lenZ body < 2 ^ 32 ->
  Client.udpDecodeResponse (hd ++ be_put 2 status ++ be_put 4 (lenZ body) ++ body) = Ok (Some (status, body)).
Proof.
  intros Hh Hs Hb. set (p := hd ++ _). unfold Client.udpDecodeResponse.
  assert (lenZ p = 15 + lenZ body) as Hlp by (unfold p; solve_len).
  rewrite (proj2 (Z.ltb_ge _ _)) by lia.
  erewrite (go_uint_at 2 hd _ p) by (split_buf || solve_len). cbn [mbind res_bind].
  erewrite (go_uint_at 4 (hd ++ be_put 2 status) _ p) by (split_buf || solve_len). cbn [mbind res_bind].
  rewrite (proj2 (Z.ltb_ge _ _)) by lia.
  erewrite (go_slice_at (hd ++ be_put 2 status ++ be_put 4 (lenZ body)) body [] p)
    by ((unfold p; solve_app) || solve_len). done.
Qed.

(** Over the datagram transport the exit decodes exactly the request a client
    encoded, the client decodes exactly the response an exit encoded, and both
    sides of each codec agree on every input. *)
Theorem sncu_roundtrip reqID path token body status rbody :
  lenZ path < 2 ^ 16 -> lenZ token < 2 ^ 16 -> lenZ body < 2 ^ 32 ->
  0 <= status < 2 ^ 16 -> lenZ rbody < 2 ^ 32 ->
  Exit.udpExitDecodeRequest (Client.udpEncodeRequest reqID path token body) = Ok (Some (path, token, body))
  /\ Client.udpDecodeResponse (Exit.udpExitEncodeResponse reqID status rbody) = Ok (Some (status, rbody))
  /\ (forall data, Client.udpDecodeRequest data = Exit.udpExitDecodeRequest data)
  /\ Client.udpEncodeResponse reqID status rbody = Exit.udpExitEncodeResponse reqID status rbody.
Proof.
  intros Hp Ht Hb Hs Hr. split_and!; [| | reflexivity | reflexivity].
  - unfold Client.udpEncodeRequest. rewrite !u16_small, u32_small by lia.
    rewrite <- (decode_request (be_put 4 Client.udpRelayMagic ++ be_put 4 reqID ++ [Client.udpRelayTypeRequest])) by done.
    done.
  - unfold Exit.udpExitEncodeResponse. rewrite u16_small, u32_small by lia.
    rewrite <- (decode_response (be_put 4 Exit.udpExitMagic ++ be_put 4 reqID ++ [Exit.udpExitTypeResponse])) by done.
    done.
Qed.

Lemma sncu_roundtrip_witness :
  Exit.udpExitDecodeRequest (Client.udpEncodeRequest 5 (bs "/api/media/upload") (bs "tok") (bs "xyz"))
  = Ok (Some (bs "/api/media/upload", bs "tok", bs "xyz")).
Proof.
  apply (sncu_roundtrip 5 (bs "/api/media/upload") (bs "tok") (bs "xyz") 200 []); vm_compute; (reflexivity || (split; congruence)).
Defined.

(** The address a relay frame carries: the 4-byte form when there is one. *)
Definition relay_ip (ip : bytes) : bytes :=
  match Client.To4 ip with Some ip4 => ip4 | None => Client.To16 ip end.

Lemma relay_ip_length ip : length ip = 4%nat \/ length ip = 16%nat ->
  length (relay_ip ip) = match Client.To4 ip with Some _ => 4%nat | None => 16%nat end.
Proof.
  intros Hl. unfold relay_ip, Client.To4, Client.To16. destruct Hl as [Hl|Hl]; rewrite Hl; simpl; [done|].
  case_bool_decide; simpl; [by rewrite length_drop, Hl | done].
Qed.

Lemma relay_parse id family ip port body :
  length id = 16%nat -> 0 <= port < 2 ^ 16 -> lenZ body < 2 ^ 32 ->
  (family = 4 /\ length ip = 4%nat) \/ (family = 6 /\ length ip = 16%nat) ->
  Exit.parseUDPRelayFrame (id ++ [family] ++ ip ++ be_put 2 port ++ be_put 4 (lenZ body) ++ body)
  = Ok (Hex.encode id, ip, port, body).
Proof.
  intros Hl Hp Hb Hf. set (p := id ++ _). unfold Exit.parseUDPRelayFrame.
  assert (lenZ p = 23 + lenZ ip + lenZ body) as Hlp by (unfold p; solve_len).
  rewrite (proj2 (Z.ltb_ge _ _)) by lia.
  erewrite (go_slice_at [] id _ p 0) by (split_buf || solve_len). cbn [mbind res_bind].
  rewrite (go_index_lookup p 16 family); [|lia|]. 2: { unfold p. rewrite lookup_app_r by lia. by rewrite Hl. }
  cbn [mbind res_bind].
  assert ((if family =? 0x04 then
         if lenZ p <? 17 + 4 then Err "truncated IPv4"
         else ip ← go_slice p 17 (17 + 4); Ok (ip, 17 + 4)
       else if family =? 0x06 then
         if lenZ p <? 17 + 16 then Err "truncated IPv6"
         else ip ← go_slice p 17 (17 + 16); Ok (ip, 17 + 16)
       else Err "unknown family") = Ok (ip, 17 + lenZ ip)) as ->.
  { destruct Hf as [[Ef Hi]|[Ef Hi]]; rewrite Ef at 1; [|rewrite Ef at 1]; cbn [Z.eqb Pos.eqb];
      rewrite (proj2 (Z.ltb_ge _ _)) by lia;
      erewrite (go_slice_at (id ++ [family]) ip _ p 17) by (split_buf || solve_len); cbn [mbind res_bind]; by rewrite Hi. }
  cbn [mbind res_bind]. rewrite (proj2 (Z.ltb_ge _ _)) by lia.
  erewrite (go_uint_at 2 (id ++ [family] ++ ip) _ p) by (split_buf || solve_len). cbn [mbind res_bind].
  erewrite (go_uint_at 4 (id ++ [family] ++ ip ++ be_put 2 port) _ p) by (split_buf || solve_len). cbn [mbind res_bind].
  rewrite (proj2 (Z.ltb_ge _ _)) by lia.
  erewrite (go_slice_at (id ++ [family] ++ ip ++ be_put 2 port ++ be_put 4 (lenZ body)) body [] p)
    by ((unfold p; solve_app) || solve_len). done.
Qed.

(** The exit recovers the connection, destination address and port and datagram of
    a relay frame for any IPv4 or IPv6 destination; a 4-in-6 address arrives in its
    4-byte form. *)
Theorem relay_roundtrip id ip port body :
  bytes_ok id -> length id = 16%nat -> length ip = 4%nat \/ length ip = 16%nat ->
  0 <= port < 2 ^ 16 -> lenZ body < 2 ^ 32 ->
  exists plain, Client.buildUDPRelayPlain (Hex.encode id) ip port body = Ok plain
    /\ Exit.parseUDPRelayFrame plain = Ok (Hex.encode id, relay_ip ip, port, body).
Proof.
  intros Hid Hl Hip Hp Hb. unfold Client.buildUDPRelayPlain. rewrite Hex.decode_encode, Hl by done.
  simpl negb. cbn iota. pose proof (relay_ip_length ip Hip) as Hri. unfold relay_ip in *.
  destruct (Client.To4 ip) as [ip4|]; (eexists; split; [reflexivity|]);
    rewrite u16_small, u32_small by lia; apply relay_parse; auto.
Qed.

Lemma relay_roundtrip_witness :
  exists plain, Client.buildUDPRelayPlain (Hex.encode (replicate 16 5)) [8; 8; 4; 4] 53 (bs "q") = Ok plain
    /\ Exit.parseUDPRelayFrame plain = Ok (Hex.encode (replicate 16 5), relay_ip [8; 8; 4; 4], 53, bs "q").
Proof.
  apply relay_roundtrip; [apply (bool_decide_eq_true _); vm_compute; reflexivity | reflexivity | by left | lia |].
  vm_compute; reflexivity.
Defined.

(** ** Hostile input *)

(** The next step of a decoder: the guards before a read make it succeed. *)
Ltac head_of t := lazymatch t with mbind _ ?m => head_of m | _ => t end.
Ltac at_head tac := match goal with
  | |- ?t <> Panic => let h := head_of t in tac h
  | |- ?t = Ok _ -> _ => let h := head_of t in tac h
  end.
Ltac read_uint := at_head ltac:(fun h => match h with
  | go_uint ?n ?d ?o =>
      let v := fresh "v" in let E := fresh "E" in
      destruct (go_uint_ok n d o) as (v & E & ?); [lia | lia | lia | assumption |];
      rewrite E; cbn [mbind res_bind]
  end).
Ltac read_slice := at_head ltac:(fun h => match h with
  | go_slice ?d ?lo ?hi =>
      let r := fresh "r" in let E := fresh "E" in
      destruct (go_slice_ok d lo hi) as (r & E & ?); [lia | lia | lia |];
      rewrite E; cbn [mbind res_bind]
  end).
Ltac read_index := at_head ltac:(fun h => match h with
  | go_index ?d ?i =>
      let r := fresh "r" in let E := fresh "E" in
      destruct (go_index_ok d i) as (r & E & ?); [lia|]; rewrite E; cbn [mbind res_bind]
  end).
Ltac check_len := at_head ltac:(fun h => match h with
  | (if ?a <? ?b then _ else _) => destruct (Z.ltb_spec a b); [cbn [mbind res_bind]; done|]
  end).

Lemma parseUploadFrame_total plain : bytes_ok plain -> no_panic (Exit.parseUploadFrame plain).
Proof.
  intros Hb. unfold Exit.parseUploadFrame, no_panic. check_len. read_index.
  destruct (negb _); [done|]. read_slice. read_uint. read_uint. check_len. read_slice. read_slice. done.
Qed.

Lemma parseUDPRelayFrame_total plain : bytes_ok plain -> no_panic (Exit.parseUDPRelayFrame plain).
Proof.
  intros Hb. unfold Exit.parseUDPRelayFrame, no_panic. check_len. read_slice. read_index.
  destruct (_ =? 4); [check_len; read_slice | destruct (_ =? 6); [check_len; read_slice | cbn [mbind res_bind]; done]];
    check_len; read_uint; read_uint; check_len; read_slice; done.
Qed.

Lemma udpExitDecodeRequest_total data : bytes_ok data -> no_panic (Exit.udpExitDecodeRequest data).
Proof.
  intros Hb. unfold Exit.udpExitDecodeRequest, no_panic. check_len. read_uint. check_len. read_slice.
  read_uint. check_len. read_slice. read_uint. check_len. read_slice. done.
Qed.

Lemma udpDecodeResponse_total data : bytes_ok data -> no_panic (Client.udpDecodeResponse data).
Proof.
  intros Hb. unfold Client.udpDecodeResponse, no_panic. check_len. read_uint. read_uint. check_len. read_slice. done.
Qed.

Lemma batch_loop_total n data o : bytes_ok data -> 0 <= o -> no_panic (Client.batch_loop n data o).
Proof.
  intros Hb. unfold no_panic. revert o. induction n as [|n IH]; intros o Ho; cbn [Client.batch_loop]; [done|].
  check_len. read_uint. check_len. read_slice.
  specialize (IH (o + 4 + v) ltac:(lia)). by destruct (Client.batch_loop n data (o + 4 + v)).
Qed.

Lemma decodeDatagramBatch_total data : bytes_ok data -> no_panic (Client.decodeDatagramBatch data).
Proof.
  intros Hb. unfold Client.decodeDatagramBatch. case_decide; [done|]. unfold no_panic. check_len. read_uint.
  by apply batch_loop_total.
Qed.

Lemma openFrame_bytes {A : Aead} key data plain :
  bytes_ok data -> Client.openFrame key data = Ok plain -> bytes_ok plain.
Proof.
  intros Hb. unfold Client.openFrame, Client.NonceSize. destruct (negb _); [done|].
  destruct (Z.ltb_spec (lenZ data) 12); [done|]. read_slice. read_slice.
  destruct (aead_open _ _ _) as [p|] eqn:Eo; [|done]. intros [= <-].
  eapply aead_open_bytes; [|exact Eo]. by eapply go_slice_Forall.
Qed.

Lemma parseResponse_total {A : Aead} key body : bytes_ok body -> no_panic (Client.parseResponse key body).
Proof.
  intros Hb. unfold Client.parseResponse. case_decide; [done|].
  pose proof (openFrame_no_panic key body) as Hp.
  destruct (Client.openFrame key body) as [plain| |] eqn:E; [|done..].
  apply openFrame_bytes in E; [|done]. unfold no_panic. check_len. read_uint.
  destruct (_ =? 0); [done|]. check_len. read_slice. done.
Qed.

(** No decoder of either side can be made to panic: on every byte string each
    returns a value or an error. *)
Theorem decoders_total {A : Aead} key data :
  bytes_ok data ->
  no_panic (Exit.parseUploadFrame data) /\ no_panic (Exit.parseUDPRelayFrame data)
  /\ no_panic (Exit.udpExitDecodeRequest data) /\ no_panic (Client.udpDecodeResponse data)
  /\ no_panic (Client.decodeDatagramBatch data) /\ no_panic (Client.parseResponse key data)
  /\ no_panic (Exit.openTunnelFrame key data).
Proof.
  intros Hb. split_and!; [by apply parseUploadFrame_total | by apply parseUDPRelayFrame_total
    | by apply udpExitDecodeRequest_total | by apply udpDecodeResponse_total
    | by apply decodeDatagramBatch_total | by apply parseResponse_total
    | rewrite open_exit_client; apply openFrame_no_panic].
Qed.

Lemma decoders_total_witness : no_panic (Exit.parseUDPRelayFrame (replicate 30 255)).
Proof.
  apply (decoders_total [] (replicate 30 255)). apply (bool_decide_eq_true _); vm_compute; reflexivity.
Defined.

(** ** The download stream *)

(** The wire form of a list of sealed chunks. *)
Fixpoint wire {A : Aead} (key : bytes) (cs : list (bytes * bytes)) : bytes :=
  match cs with
  | [] => []
  | (n, d) :: cs => be_put 4 (lenZ (n ++ aead_seal key n d)) ++ (n ++ aead_seal key n d) ++ wire key cs
  end.

Definition chunk_ok (c : bytes * bytes) : Prop := lenZ c.1 = 12 /\ c.2 <> [] /\ lenZ c.2 <= 65536.

(** What a reader will still deliver. *)
Definition holds {A : Aead} (key : bytes) (r : Client.framedDecryptReader) (data : bytes) : Prop :=
  exists cs, Forall chunk_ok cs /\ Client.fr_src r = wire key cs /\ data = Client.fr_buf r ++ concat (snd <$> cs).

Lemma read_full_app (a b : bytes) n : n = lenZ a -> Client.read_full n (a ++ b) = Ok (a, b).
Proof.
  intros ->. unfold Client.read_full. rewrite (proj2 (Z.leb_le _ _)) by (rewrite length_app; lia).
  by rewrite Nat2Z.id, take_app_exact, drop_app_exact.
Qed.

Lemma fr_Read_holds {A : Aead} key cap r data :
  length key = 32%nat -> (0 < cap)%nat -> holds key r data ->
  (data = [] /\ Client.fr_Read key cap r = Err "EOF")
  \/ exists d r' rest, Client.fr_Read key cap r = Ok (d, r') /\ d <> [] /\ data = d ++ rest /\ holds key r' rest.
Proof.
  intros Hk Hcap (cs & Hcs & Hsrc & ->). unfold Client.fr_Read. case_decide as Hbuf.
  - right. eexists (take cap _), _, _. split; [reflexivity|]. split_and!.
    + destruct (Client.fr_buf r), cap; (done || lia).
    + rewrite <- (take_drop cap (Client.fr_buf r)) at 1. by rewrite <- app_assoc.
    + exists cs. done.
  - assert (Client.fr_buf r = []) as -> by (destruct (Client.fr_buf r); [done | by destruct Hbuf]).
    rewrite Hsrc. destruct Hcs as [|[n d] cs [Hn [Hd Hdl]] Hcs]; [by left|]. right.
    cbn [wire]. simpl in Hn, Hd, Hdl. set (ct := n ++ aead_seal key n d).
    assert (lenZ ct = 28 + lenZ d) as Hct by (unfold ct; rewrite length_app, aead_length_seal; lia).
    rewrite read_full_app by (by rewrite length_be_put). cbn [mbind res_bind].
    rewrite be_get_put, Z.mod_small by (change (256 ^ Z.of_nat 4) with (2 ^ 32); lia).
    rewrite (proj2 (Z.ltb_ge _ _)) by (unfold Client.maxFrame; lia).
    rewrite read_full_app by done. cbn [mbind res_bind]. unfold ct. rewrite open_seal by done.
    eexists _, _, (drop cap d ++ concat (snd <$> cs)). split; [reflexivity|]. split_and!.
    + destruct d, cap; (done || lia).
    + rewrite fmap_cons. cbn [app concat snd]. rewrite <- (take_drop cap d) at 1. by rewrite <- app_assoc.
    + exists cs. done.
Qed.

(** The client reading with buffers of the given sizes, up to the first error. *)
Fixpoint reads {A : Aead} (key : bytes) (caps : list nat) (r : Client.framedDecryptReader) : bytes * option string :=
  match caps with
  | [] => ([], None)
  | c :: caps =>
      match Client.fr_Read key c r with
      | Ok (d, r') => let '(ds, e) := reads key caps r' in (d ++ ds, e)
      | Err m => ([], Some m)
      | Panic => ([], Some "panic"%string)
      end
  end.

Lemma reads_holds {A : Aead} key caps r data :
  length key = 32%nat -> Forall (fun c => (0 < c)%nat) caps -> holds key r data ->
  exists rest, data = fst (reads key caps r) ++ rest
    /\ (snd (reads key caps r) = Some "EOF"%string /\ rest = []
        \/ snd (reads key caps r) = None /\ (length caps <= length data)%nat).
Proof.
  intros Hk Hcaps. revert r data. induction Hcaps as [|c caps Hc Hcaps IH]; intros r data Hr.
  - exists data. split; [done|]. right. split; [done | simpl; lia].
  - cbn [reads]. destruct (fr_Read_holds key c r data Hk Hc Hr) as [[-> ->]|(d & r' & rest & -> & Hd & -> & Hr')].
    + exists []. split; [done | by left].
    + destruct (IH r' rest Hr') as (rest' & -> & HE). destruct (reads key caps r') as [ds e]. simpl in *.
      exists rest'. split; [by rewrite app_assoc|]. destruct HE as [[-> ->]|[-> Hl]]; [by left|].
      right. split; [done|]. rewrite !length_app in *. destruct d; [done | simpl; lia].
Qed.

Definition turn_ok (t : Exit.stream_read) : Prop :=
  lenZ (Exit.sr_data t) <= 65536 /\ exists n, Exit.sr_nonce t = Ok n /\ lenZ n = 12.

(** How long the loop runs: the idle deadline after the turns [ts] is thirty seconds after the
    last read that brought data, or the one it began with; a turn is run while the clock is
    before that deadline and no earlier read failed with other than a timeout. *)
Definition idle_deadline (deadline : Z) (ts : list Exit.stream_read) : Z :=
  fold_left (fun d t => if decide (Exit.sr_data t <> []) then Exit.sr_after t + Exit.streamMaxSecs * second else d) ts deadline.
Record turns_run (deadline : Z) (turns : list Exit.stream_read) (k : nat) : Prop := {
  tr_live : forall i t, (i < k)%nat -> turns !! i = Some t -> Exit.sr_clock t < idle_deadline deadline (take i turns);
  tr_open : forall i t, (S i < k)%nat -> turns !! i = Some t -> Exit.sr_end t <> Exit.ReadError;
  tr_stop : turns !! k = None
    \/ (exists t, turns !! k = Some t /\ idle_deadline deadline (take k turns) <= Exit.sr_clock t)
    \/ (exists i t, k = S i /\ turns !! i = Some t /\ Exit.sr_end t = Exit.ReadError) }.
(** The target ended the stream: the last turn run failed. *)
Definition target_ended (turns : list Exit.stream_read) (k : nat) : Prop :=
  exists i t, k = S i /\ turns !! i = Some t /\ Exit.sr_end t = Exit.ReadError.

Lemma turns_run_none deadline turns :
  match turns with [] => True | t :: _ => deadline <= Exit.sr_clock t end -> turns_run deadline turns 0.
Proof. intros H. split; [lia|lia|]. destruct turns as [|t turns]; [by left|]. right. left. by exists t. Qed.

Lemma turns_run_error deadline t turns :
  Exit.sr_clock t < deadline -> Exit.sr_end t = Exit.ReadError -> turns_run deadline (t :: turns) 1.
Proof.
  intros Hc He. split; [|lia|].
  - intros [|i] t' Hi; [|lia]. by intros [= <-].
  - right. right. by exists 0%nat, t.
Qed.

Lemma turns_run_cons deadline t turns k :
  Exit.sr_clock t < deadline -> Exit.sr_end t <> Exit.ReadError -> turns_run (idle_deadline deadline [t]) turns k ->
  turns_run deadline (t :: turns) (S k).
Proof.
  intros Hc He [H1 H2 H3]. split.
  - intros [|i] t' Hi; [by intros [= <-]|]. intros Ht. apply (H1 i t'); [lia|done].
  - intros [|i] t' Hi; [by intros [= <-]|]. intros Ht. apply (H2 i t'); [lia|done].
  - destruct H3 as [H3|[H3|(i & t' & -> & H3)]]; [by left|by right; left|]. right. right. by exists (S i), t'.
Qed.

Lemma target_ended_cons t turns k : Exit.sr_end t <> Exit.ReadError -> target_ended (t :: turns) (S k) <-> target_ended turns k.
Proof.
  intros He. split.
  - intros (i & t' & [= ->] & Ht & Hr). destruct i as [|i]; [by injection Ht as <-|]. by exists i, t'.
  - intros (i & t' & -> & H). by exists (S i), t'.
Qed.

(** What a run of the loop that began with count [total] amounts to: the wire form of the data
    of the turns it ran, whose number [k] the clock and the reads fix. *)
Definition run_wire {A : Aead} key deadline total turns (r : bytes * Z * bool) : Prop :=
  exists cs k, turns_run deadline turns k /\ Forall chunk_ok cs
    /\ concat (snd <$> cs) = concat (Exit.sr_data <$> take k turns)
    /\ exists closed, (closed = true <-> target_ended turns k)
    /\ r = (wire key cs, total + lenZ (concat (snd <$> cs)), closed).

Lemma run_wire_none {A : Aead} key deadline total turns :
  match turns with [] => True | t :: _ => deadline <= Exit.sr_clock t end ->
  run_wire key deadline total turns ([], total, false).
Proof.
  intros H. exists [], 0%nat. split_and!; [by apply turns_run_none | constructor | done |].
  exists false. split; [|simpl; by rewrite Z.add_0_r]. split; [done|]. by intros (i & t & [=] & _).
Qed.

Lemma wire_app {A : Aead} key cs cs' : wire key (cs ++ cs') = wire key cs ++ wire key cs'.
Proof. induction cs as [|[n d] cs IH]; [done|]. cbn [app wire]. by rewrite IH, !app_assoc. Qed.

Lemma run_wire_cons {A : Aead} key deadline total t turns r cs1 :
  Exit.sr_clock t < deadline -> Forall chunk_ok cs1 -> concat (snd <$> cs1) = Exit.sr_data t ->
  match Exit.sr_end t with
  | Exit.ReadError => r = ([], total + lenZ (Exit.sr_data t), true)
  | _ => run_wire key (idle_deadline deadline [t]) (total + lenZ (Exit.sr_data t)) turns r
  end ->
  run_wire key deadline total (t :: turns) (wire key cs1 ++ fst (fst r), snd (fst r), snd r).
Proof.
  intros Hc Hcs1 Ecs1 Hr.
  assert (Exit.sr_end t = Exit.ReadError /\ r = ([], total + lenZ (Exit.sr_data t), true)
    \/ Exit.sr_end t <> Exit.ReadError /\ run_wire key (idle_deadline deadline [t]) (total + lenZ (Exit.sr_data t)) turns r)
    as [[He ->]|[He (cs & k & Hrun & Hcs & Ecs & closed & Hcl & ->)]] by (destruct (Exit.sr_end t); auto).
  - exists cs1, 1%nat. split_and!; [by apply turns_run_error | done | |].
    { cbn [take]. rewrite fmap_cons. cbn [fmap list_fmap concat]. by rewrite app_nil_r. }
    exists true. split; [|cbn [fst snd]; by rewrite app_nil_r, Ecs1]. split; [|done]. intros _. by exists 0%nat, t.
  - exists (cs1 ++ cs), (S k). split_and!; [by apply turns_run_cons | by apply Forall_app | |].
    { rewrite fmap_app, concat_app, Ecs1, Ecs. done. }
    exists closed. split; [by rewrite target_ended_cons|]. cbn [fst snd].
    rewrite wire_app, fmap_app, concat_app, Ecs1, length_app. do 2 f_equal. lia.
Qed.

Lemma stream_loop_wire {A : Aead} key deadline total turns :
  length key = 32%nat -> Forall turn_ok turns -> run_wire key deadline total turns (Exit.stream_loop key deadline total turns).
Proof.
  intros Hk Ht. revert deadline total.
  induction Ht as [|t turns [Hd (n & En & Hn)] Ht IH]; intros deadline total; cbn [Exit.stream_loop]; [by apply run_wire_none|].
  destruct (Z.ltb_spec (Exit.sr_clock t) deadline) as [Hc|Hc]; cbn [negb]; [|by apply run_wire_none].
  case_decide as Hne.
  - unfold Exit.sealTunnelData. rewrite Hk, En. simpl negb. cbn iota. cbn [mbind res_bind].
    assert (lenZ (n ++ aead_seal key n (Exit.sr_data t)) = 28 + lenZ (Exit.sr_data t)) as Hct
      by (rewrite length_app, aead_length_seal; lia).
    rewrite u32_small by lia. set (r := match Exit.sr_end t with Exit.ReadError => _ | _ => _ end).
    pose proof (run_wire_cons key deadline total t turns r [(n, Exit.sr_data t)] Hc) as H.
    destruct r as [[out tot] cl] eqn:Er. cbn [wire fst snd] in H. rewrite app_nil_r, <- !app_assoc in H. rewrite <- !app_assoc.
    apply H; [by repeat constructor | cbn; by rewrite app_nil_r|]. subst r. unfold idle_deadline. cbn [fold_left].
    rewrite decide_True by done. destruct (Exit.sr_end t); [rewrite <- Er; apply IH | rewrite <- Er; apply IH | done].
  - assert (Exit.sr_data t = []) as E by (destruct (Exit.sr_data t); [done | by destruct Hne]).
    set (r := match Exit.sr_end t with Exit.ReadError => _ | _ => _ end).
    pose proof (run_wire_cons key deadline total t turns r [] Hc) as H.
    destruct r as [[out tot] cl] eqn:Er. apply H; [constructor | by rewrite E|]. subst r. rewrite E, Z.add_0_r.
    unfold idle_deadline. cbn [fold_left]. rewrite decide_False by (rewrite E; naive_solver).
    destruct (Exit.sr_end t); [rewrite <- Er; apply IH | rewrite <- Er; apply IH | done].
Qed.

(** C39: The download stream loses, duplicates and reorders nothing. The exit runs the turns
    that the clock, the idle deadline (thirty seconds after the last data) and the first failed
    read allow, and no others, and writes the data of all of them, that of the failing read
    included; the client, reading what was written to the response with buffers of any sizes,
    gets a prefix of those bytes, and after more reads than there are bytes all of them and a
    clean end of stream; the byte count the exit reports is their number, and it reports the
    target closed exactly when the last read failed. *)
Theorem stream_roundtrip {A : Aead} key deadline turns caps :
  length key = 32%nat -> Forall turn_ok turns -> Forall (fun c => (0 < c)%nat) caps ->
  exists out total closed k,
    Exit.stream_loop key deadline 0 turns = (out, total, closed) /\ turns_run deadline turns k
    /\ (closed = true <-> target_ended turns k)
    /\ let sent := concat (Exit.sr_data <$> take k turns) in
       let got := reads key caps (Client.MkReader out []) in
       total = lenZ sent /\ (exists rest, sent = fst got ++ rest)
       /\ ((length sent < length caps)%nat -> got = (sent, Some "EOF"%string)).
Proof.
  intros Hk Ht Hc. destruct (stream_loop_wire key deadline 0 turns Hk Ht) as (cs & k & Hrun & Hcs & Ecs & closed & Hcl & E).
  eexists _, _, closed, k. split; [exact E|]. split_and!; [done|done|]. cbn zeta. rewrite <- Ecs.
  destruct (reads_holds key caps (Client.MkReader (wire key cs) []) (concat (snd <$> cs)) Hk Hc) as (rest & Er & HE).
  { exists cs. done. }
  split_and!; [lia | by exists rest |]. intros Hl. destruct HE as [[HE ->]|[_ Hl']]; [|lia].
  rewrite app_nil_r in Er. destruct (reads key caps _). simpl in *. by rewrite Er, HE.
Qed.

Definition test_turns : list Exit.stream_read :=
  [Exit.MkRead 1 2 (bs "hi") Exit.ReadOk (Ok (replicate 12 1)); Exit.MkRead 3 4 (bs "!") Exit.ReadError (Ok (replicate 12 2));
   Exit.MkRead 5 6 (bs "late") Exit.ReadOk (Ok (replicate 12 3))].
Lemma stream_roundtrip_witness :
  exists out total closed k,
    Exit.stream_loop (replicate 32 9) 100 0 test_turns = (out, total, closed) /\ turns_run 100 test_turns k
    /\ (closed = true <-> target_ended test_turns k)
    /\ let sent := concat (Exit.sr_data <$> take k test_turns) in
       let got := reads (replicate 32 9) [1; 5; 5; 5]%nat (Client.MkReader out []) in
       total = lenZ sent /\ (exists rest, sent = fst got ++ rest)
       /\ ((length sent < length [1; 5; 5; 5]%nat)%nat -> got = (sent, Some "EOF"%string)).
Proof.
  apply stream_roundtrip; [reflexivity | |].
  - repeat constructor; simpl; try lia; eexists; by split.
  - apply (bool_decide_eq_true _); vm_compute; reflexivity.
Defined.
