(* ===== verification/ConnLedger.v ===== *)
(** * Ownership of network connections

    The contract the session pools of the exit keep: every open connection is
    owned by exactly one party, a pooled session or a caller that has dialled it
    and not handed it over yet. A ledger is the abstract state, [lstep] what a
    pool may do to it; the pools refine it. *)

From stdpp Require Import base list gmap fin_sets.
From Stdlib Require Import ZArith Lia.
From S2P Require Import Prelude.

Section ledger.
Context {K : Type} {EK : EqDecision K} {CK : Countable K}.

Record ledger := MkLedger {
  l_pool : gmap K nat;      (** the connection of each pooled session *)
  l_flight : gset nat;      (** dialled, not yet handed over *)
  l_open : gset nat }.      (** not closed *)

Inductive lstep : ledger -> ledger -> Prop :=
| l_dial c L : c ∉ l_open L ->
    lstep L (MkLedger (l_pool L) ({[c]} ∪ l_flight L) ({[c]} ∪ l_open L))
| l_adopt k c L : c ∈ l_flight L -> l_pool L !! k = None ->
    lstep L (MkLedger (<[k := c]> (l_pool L)) (l_flight L ∖ {[c]}) (l_open L))
| l_discard c L : c ∈ l_flight L ->
    lstep L (MkLedger (l_pool L) (l_flight L ∖ {[c]}) (l_open L ∖ {[c]}))
| l_replace k c old L : c ∈ l_flight L -> l_pool L !! k = Some old ->
    lstep L (MkLedger (<[k := c]> (l_pool L)) (l_flight L ∖ {[c]}) (l_open L ∖ {[old]}))
| l_evict k old L : l_pool L !! k = Some old ->
    lstep L (MkLedger (delete k (l_pool L)) (l_flight L) (l_open L ∖ {[old]})).

(** Every open connection has exactly one owner, and owners hold open connections. *)
Record ledger_ok (L : ledger) : Prop := {
  lo_pool : forall k c, l_pool L !! k = Some c -> c ∈ l_open L /\ c ∉ l_flight L;
  lo_flight : l_flight L ⊆ l_open L;
  lo_inj : forall k1 k2 c, l_pool L !! k1 = Some c -> l_pool L !! k2 = Some c -> k1 = k2;
  lo_owned : forall c, c ∈ l_open L -> c ∈ l_flight L \/ exists k, l_pool L !! k = Some c }.

Lemma dial_ok c L : c ∉ l_open L -> ledger_ok L ->
  ledger_ok (MkLedger (l_pool L) ({[c]} ∪ l_flight L) ({[c]} ∪ l_open L)).
Proof.
  intros Hc [Hp Hf Hi Ho]. split; cbn [l_pool l_flight l_open]; [|set_solver|done|].
  - intros k c' Hk. destruct (Hp k c' Hk). set_solver.
  - intros c' [->%elem_of_singleton|Hc']%elem_of_union; [set_solver|].
    destruct (Ho c' Hc'); [set_solver | by right].
Qed.

Lemma discard_ok c L : c ∈ l_flight L -> ledger_ok L ->
  ledger_ok (MkLedger (l_pool L) (l_flight L ∖ {[c]}) (l_open L ∖ {[c]})).
Proof.
  intros Hc [Hp Hf Hi Ho]. split; cbn [l_pool l_flight l_open]; [|set_solver|done|].
  - intros k c' Hk. destruct (Hp k c' Hk). set_solver.
  - intros c' Hc'. destruct (Ho c') as [?|?]; [set_solver | set_solver | by right].
Qed.

Lemma evict_ok k old L : l_pool L !! k = Some old -> ledger_ok L ->
  ledger_ok (MkLedger (delete k (l_pool L)) (l_flight L) (l_open L ∖ {[old]})).
Proof.
  intros Hk [Hp Hf Hi Ho]. destruct (Hp k old Hk) as [Hold Hnf]. split; cbn [l_pool l_flight l_open].
  - intros k' c' [Hne Hk']%lookup_delete_Some. destruct (Hp k' c' Hk').
    assert (c' <> old) by (intros ->; by destruct Hne; eapply Hi). set_solver.
  - set_solver.
  - intros k1 k2 c' [_ H1]%lookup_delete_Some [_ H2]%lookup_delete_Some. by eapply Hi.
  - intros c' Hc'. destruct (Ho c') as [?|[k' Hk']]; [set_solver | by left|]. right. exists k'.
    rewrite lookup_delete_ne; [done|]. intros <-. set_solver.
Qed.

Lemma adopt_ok k c L : c ∈ l_flight L -> l_pool L !! k = None -> ledger_ok L ->
  ledger_ok (MkLedger (<[k := c]> (l_pool L)) (l_flight L ∖ {[c]}) (l_open L)).
Proof.
  intros Hc Hk [Hp Hf Hi Ho]. split; cbn [l_pool l_flight l_open].
  - intros k' c' [[<- <-]|[Hne Hk']]%lookup_insert_Some; [set_solver|]. destruct (Hp k' c' Hk'). set_solver.
  - set_solver.
  - intros k1 k2 c' [[<- <-]|[Hne1 H1]]%lookup_insert_Some [[<- E]|[Hne2 H2]]%lookup_insert_Some; try done.
    + by destruct (Hp k2 c H2).
    + subst. by destruct (Hp k1 c' H1).
    + by eapply Hi.
  - intros c' Hc'. destruct (decide (c' = c)) as [->|Hne]; [right; exists k; apply lookup_insert_eq|].
    destruct (Ho c' Hc') as [?|[k' Hk']]; [set_solver|]. right. exists k'. rewrite lookup_insert_ne; [done | congruence].
Qed.

(** Replacing is evicting and adopting. *)
Lemma replace_ok k c old L : c ∈ l_flight L -> l_pool L !! k = Some old -> ledger_ok L ->
  ledger_ok (MkLedger (<[k := c]> (l_pool L)) (l_flight L ∖ {[c]}) (l_open L ∖ {[old]})).
Proof.
  intros Hc Hk HL. pose proof (evict_ok k old L Hk HL) as HE.
  apply (adopt_ok k c) in HE; cbn [l_pool l_flight l_open] in *; [|done|apply lookup_delete_eq].
  by rewrite insert_delete_eq in HE.
Qed.

Lemma lstep_ok L L' : lstep L L' -> ledger_ok L -> ledger_ok L'.
Proof. destruct 1; [by apply dial_ok | by apply adopt_ok | by apply discard_ok | by apply replace_ok | by apply evict_ok]. Qed.

Inductive lsteps : ledger -> ledger -> Prop :=
| lsteps_refl L : lsteps L L
| lsteps_step L L' L'' : lstep L L' -> lsteps L' L'' -> lsteps L L''.

Lemma lsteps_ok L L' : lsteps L L' -> ledger_ok L -> ledger_ok L'.
Proof. induction 1; eauto using lstep_ok. Qed.

Lemma lsteps_one L L' : lstep L L' -> lsteps L L'.
Proof. intros Hst. eapply lsteps_step; [exact Hst | constructor]. Qed.

Lemma empty_ledger_ok : ledger_ok (MkLedger ∅ ∅ ∅).
Proof. split; cbn [l_pool l_flight l_open]; try set_solver. Qed.

End ledger.
Arguments ledger K {EK CK}.

(** * Pools of heap-allocated sessions

    What the two session pools of the exit share: sessions are objects on a heap, the
    pool maps keys to references, and each session owns one connection. *)

Class HasConn (S : Type) := conn_of : S -> nat.

Section hpool.
Context {K : Type} {EK : EqDecision K} {CK : Countable K} {S : Type} {HC : HasConn S}.

Record hpool := MkPool {
  heap : list S;            (** session objects; a reference is a position *)
  pool : gmap K nat;        (** key -> session reference *)
  open : gset nat;          (** connections not closed *)
  flight : gset nat }.      (** dialled by a caller, not yet in the pool *)

Definition empty_pool : hpool := MkPool [] ∅ ∅ ∅.

Definition lookup_session (k : K) (p : hpool) : option S :=
  r ← pool p !! k; heap p !! r.

Definition update_session (f : S -> S) (k : K) (p : hpool) : hpool :=
  match pool p !! k with
  | Some r => MkPool (alter f r (heap p)) (pool p) (open p) (flight p)
  | None => p
  end.

(** A caller's dial succeeds with the fresh connection [c]; [close_conn] closes one. *)
Definition dial (c : nat) (p : hpool) : hpool :=
  MkPool (heap p) (pool p) ({[c]} ∪ open p) ({[c]} ∪ flight p).
Definition discard (c : nat) (p : hpool) : hpool :=
  MkPool (heap p) (pool p) (open p ∖ {[c]}) (flight p ∖ {[c]}).

(** [p.pool[k] = &session{...}] *)
Definition install (k : K) (s : S) (p : hpool) : hpool :=
  MkPool (heap p ++ [s]) (<[k := length (heap p)]> (pool p)) (open p) (flight p ∖ {[conn_of s]}).

(** [delete(p.pool, k)] and closing the session's connection. *)
Definition remove (k : K) (p : hpool) : hpool :=
  match lookup_session k p with
  | Some s => MkPool (heap p) (delete k (pool p)) (open p ∖ {[conn_of s]}) (flight p)
  | None => MkPool (heap p) (delete k (pool p)) (open p) (flight p)
  end.

(** The ledger a pool stands for. *)
Definition abs (p : hpool) : ledger K :=
  MkLedger (omap (fun r => conn_of <$> heap p !! r) (pool p)) (flight p) (open p).

Definition pool_wf (p : hpool) : Prop :=
  map_Forall (fun _ r => (r < length (heap p))%nat) (pool p).

Lemma abs_lookup k p : l_pool (abs p) !! k = conn_of <$> lookup_session k p.
Proof.
  unfold abs, lookup_session. cbn [l_pool]. rewrite lookup_omap.
  by destruct (pool p !! k) as [r|]; simpl; [destruct (heap p !! r)|].
Qed.

Lemma wf_lookup k p : pool_wf p -> lookup_session k p = None -> pool p !! k = None.
Proof.
  intros Hw. unfold lookup_session. destruct (pool p !! k) as [r|] eqn:E; [|done]. simpl.
  intros Hn%lookup_ge_None. apply Hw in E. lia.
Qed.

(** Changes of a heap object that keep its connection are invisible. *)
Lemma abs_alter f r h m o fl :
  (forall s, conn_of (f s) = conn_of s) -> abs (MkPool (alter f r h) m o fl) = abs (MkPool h m o fl).
Proof.
  intros Hf. unfold abs. cbn [heap pool flight open]. f_equal. apply map_eq. intros k.
  rewrite !lookup_omap. destruct (m !! k) as [r'|]; simpl; [|done]. rewrite list_lookup_alter.
  case_decide as E; [|done]. rewrite <- E. destruct (h !! r); simpl; [by rewrite Hf | done].
Qed.

Lemma abs_insert r s s0 h m o fl :
  h !! r = Some s0 -> conn_of s = conn_of s0 -> abs (MkPool (<[r := s]> h) m o fl) = abs (MkPool h m o fl).
Proof.
  intros E Hc. unfold abs. cbn [heap pool flight open]. f_equal. apply map_eq. intros k. rewrite !lookup_omap.
  destruct (m !! k) as [r'|]; simpl; [|done]. destruct (decide (r = r')) as [<-|Hne].
  - rewrite list_lookup_insert_eq by (by eapply lookup_lt_Some). rewrite E. simpl. by rewrite Hc.
  - by rewrite list_lookup_insert_ne.
Qed.

Lemma update_abs f k p : (forall s, conn_of (f s) = conn_of s) -> abs (update_session f k p) = abs p.
Proof. intros Hf. unfold update_session. destruct (pool p !! k); [|done]. rewrite abs_alter by done. by destruct p. Qed.

Lemma update_wf f k p : pool_wf p -> pool_wf (update_session f k p).
Proof.
  intros Hw. unfold update_session. destruct (pool p !! k); [|done]. intros k' r Hr. cbn [heap pool] in *.
  rewrite length_alter. by apply (Hw k').
Qed.

Lemma install_wf k s p : pool_wf p -> pool_wf (install k s p).
Proof.
  intros Hw k' r. cbn [install heap pool]. rewrite length_app. cbn [length].
  intros [[<- <-]|[_ Hr]]%lookup_insert_Some; [lia|]. apply Hw in Hr. lia.
Qed.

Lemma install_abs k s p : pool_wf p ->
  abs (install k s p) = MkLedger (<[k := conn_of s]> (l_pool (abs p))) (flight p ∖ {[conn_of s]}) (open p).
Proof.
  intros Hw. unfold abs, install. cbn [heap pool flight open l_pool]. f_equal. apply map_eq. intros k'.
  rewrite lookup_omap. destruct (decide (k = k')) as [->|Hne].
  - rewrite !lookup_insert_eq. simpl. by rewrite list_lookup_middle.
  - rewrite !lookup_insert_ne by done. rewrite lookup_omap. destruct (pool p !! k') as [r|] eqn:E; simpl; [|done].
    rewrite lookup_app_l; [done|]. by apply (Hw k').
Qed.

Lemma remove_wf k p : pool_wf p -> pool_wf (remove k p).
Proof.
  intros Hw. unfold remove. destruct (lookup_session k p); intros k' r; cbn [heap pool];
    intros [_ Hr]%lookup_delete_Some; by apply (Hw k').
Qed.

(** ** Simulation: each pool operation is a sequence of ledger steps *)

Definition sim (p p' : hpool) : Prop := pool_wf p' /\ lsteps (abs p) (abs p').

Lemma sim_refl p : pool_wf p -> sim p p.
Proof. intros Hw. split; [done | constructor]. Qed.

Lemma sim_trans p p' p'' : sim p p' -> sim p' p'' -> sim p p''.
Proof. intros [_ H1] [Hw H2]. split; [done|]. clear Hw. induction H1; [done|]. eapply lsteps_step; eauto. Qed.

Lemma sim_update f k p : (forall s, conn_of (f s) = conn_of s) -> pool_wf p -> sim p (update_session f k p).
Proof. intros Hf Hw. split; [by apply update_wf|]. rewrite update_abs by done. constructor. Qed.

Lemma sim_dial c p : c ∉ open p -> pool_wf p -> sim p (dial c p).
Proof. intros Hc Hw. split; [done|]. apply lsteps_one. exact (l_dial c (abs p) Hc). Qed.

Lemma sim_discard c p : c ∈ flight p -> pool_wf p -> sim p (discard c p).
Proof. intros Hc Hw. split; [done|]. apply lsteps_one. exact (l_discard c (abs p) Hc). Qed.

Lemma sim_install k s p :
  conn_of s ∈ flight p -> lookup_session k p = None -> pool_wf p -> sim p (install k s p).
Proof.
  intros Hc E Hw. split; [by apply install_wf|]. rewrite install_abs by done. apply lsteps_one.
  apply (l_adopt k (conn_of s) (abs p) Hc). by rewrite abs_lookup, E.
Qed.

Lemma sim_replace k s old p :
  conn_of s ∈ flight p -> lookup_session k p = Some old -> pool_wf p ->
  sim p (install k s (MkPool (heap p) (pool p) (open p ∖ {[conn_of old]}) (flight p))).
Proof.
  intros Hc E Hw. split; [by apply install_wf|]. rewrite install_abs by done. apply lsteps_one.
  apply (l_replace k (conn_of s) (conn_of old) (abs p) Hc). by rewrite abs_lookup, E.
Qed.

Lemma sim_remove k p : pool_wf p -> sim p (remove k p).
Proof.
  intros Hw. split; [by apply remove_wf|]. unfold remove. destruct (lookup_session k p) as [s|] eqn:E.
  - apply lsteps_one. pose proof (abs_lookup k p) as El. rewrite E in El.
    pose proof (l_evict k (conn_of s) (abs p) El) as Hst. unfold abs in Hst at 2. cbn [l_pool l_flight l_open] in Hst.
    unfold abs at 2. cbn [heap pool flight open]. by rewrite omap_delete.
  - rewrite delete_id by (by apply wf_lookup). destruct p. constructor.
Qed.

Lemma sim_removes ks p : pool_wf p -> sim p (fold_left (fun p k => remove k p) ks p).
Proof.
  revert p. induction ks as [|k ks IH]; intros p Hw; simpl; [by apply sim_refl|].
  eapply sim_trans; [by apply sim_remove|]. by apply IH, remove_wf.
Qed.

Lemma sim_insert r s s0 p :
  heap p !! r = Some s0 -> conn_of s = conn_of s0 -> pool_wf p ->
  sim p (MkPool (<[r := s]> (heap p)) (pool p) (open p) (flight p)).
Proof.
  intros E Hc Hw. split.
  - intros k r' Hr. cbn [heap pool] in *. rewrite length_insert. by apply (Hw k).
  - rewrite (abs_insert r s s0) by done. destruct p. constructor.
Qed.

Lemma empty_pool_ok : pool_wf empty_pool /\ ledger_ok (abs empty_pool).
Proof.
  split; [apply map_Forall_empty|]. unfold abs. cbn [empty_pool heap pool flight open]. rewrite omap_empty.
  apply empty_ledger_ok.
Qed.

(** What an intact ledger says of the pool. *)
Lemma owned_spec p :
  ledger_ok (abs p) ->
  (forall c, c ∈ open p -> c ∈ flight p \/ exists k s, lookup_session k p = Some s /\ conn_of s = c)
  /\ (forall k s, lookup_session k p = Some s -> conn_of s ∈ open p /\ conn_of s ∉ flight p)
  /\ (forall k1 k2 s1 s2, lookup_session k1 p = Some s1 -> lookup_session k2 p = Some s2 ->
        conn_of s1 = conn_of s2 -> k1 = k2).
Proof.
  intros [L1 L2 L3 L4]. split_and!.
  - intros c [?|[k Hk]]%L4; [by left|]. right. rewrite abs_lookup in Hk.
    destruct (lookup_session k p) as [s|] eqn:E; [|done]. injection Hk as <-. eauto.
  - intros k s E. apply (L1 k). by rewrite abs_lookup, E.
  - intros k1 k2 s1 s2 E1 E2 Ec. apply (L3 k1 k2 (conn_of s1)); rewrite abs_lookup; [by rewrite E1 | by rewrite E2, Ec].
Qed.

(** ** Removal, key by key *)

Lemma remove_lookup k k' p :
  lookup_session k' (remove k p) = if decide (k = k') then None else lookup_session k' p.
Proof.
  assert (pool (remove k p) = delete k (pool p) /\ heap (remove k p) = heap p) as [Ep Eh]
    by (unfold remove; by destruct (lookup_session k p)).
  unfold lookup_session. rewrite Ep, Eh. case_decide as E.
  - subst. by rewrite lookup_delete_eq.
  - by rewrite lookup_delete_ne.
Qed.

Lemma removes_lookup ks k p :
  lookup_session k (fold_left (fun p i => remove i p) ks p) = if decide (k ∈ ks) then None else lookup_session k p.
Proof.
  revert p. induction ks as [|i ks IH]; intros p; cbn [fold_left].
  - by rewrite decide_False by apply not_elem_of_nil.
  - rewrite IH, remove_lookup. destruct (decide (k ∈ ks)).
    + rewrite decide_True; [done|]. apply elem_of_cons. by right.
    + destruct (decide (i = k)) as [->|]; [rewrite decide_True; [done|]; apply elem_of_cons; by left|].
      rewrite decide_False; [done|]. intros [?|?]%elem_of_cons; congruence.
Qed.

Lemma removes_flight ks p : flight (fold_left (fun p i => remove i p) ks p) = flight p.
Proof.
  revert p. induction ks as [|i ks IH]; intros p; simpl; [done|]. rewrite IH. unfold remove.
  by destruct (lookup_session i p).
Qed.

(** One pass of an idle watchdog with the staleness test [stale]. *)
Definition evict (stale : S -> bool) (p : hpool) : hpool :=
  fold_left (fun p k => remove k p)
    (List.filter (fun k => match lookup_session k p with Some s => stale s | None => false end)
       (fst <$> map_to_list (pool p))) p.

Lemma evict_lookup stale p k :
  lookup_session k (evict stale p)
  = match lookup_session k p with Some s => if stale s then None else Some s | None => None end.
Proof.
  unfold evict. rewrite removes_lookup. case_decide as Hin.
  - apply list_elem_of_In, filter_In in Hin as [_ Hst]. destruct (lookup_session k p); [by rewrite Hst | done].
  - destruct (lookup_session k p) as [s|] eqn:E; [|done]. destruct (stale s) eqn:Es; [|done].
    destruct Hin. apply list_elem_of_In, filter_In. rewrite E. split; [|done].
    apply list_elem_of_In, list_elem_of_fmap. unfold lookup_session in E.
    destruct (pool p !! k) as [r|] eqn:Er; [|done]. exists (k, r). split; [done|]. by apply elem_of_map_to_list.
Qed.

(** The connections of evicted sessions are closed, those of the others are not. *)
Lemma evict_conns stale p k s :
  ledger_ok (abs p) -> ledger_ok (abs (evict stale p)) -> lookup_session k p = Some s ->
  conn_of s ∈ open (evict stale p) <-> stale s = false.
Proof.
  intros Hok Hok' Hs. destruct (owned_spec _ Hok) as (_ & O2 & O3), (owned_spec _ Hok') as (O1' & O2' & _).
  split.
  - intros [Hf|(k' & s' & E & Ec)]%O1'.
    + unfold evict in Hf. rewrite removes_flight in Hf. by destruct (O2 k s Hs).
    + rewrite evict_lookup in E. destruct (lookup_session k' p) as [s''|] eqn:E''; [|done].
      destruct (stale s'') eqn:Est; [done|]. injection E as ->.
      assert (k' = k) as -> by (by eapply O3). congruence.
  - intros Hst. apply (O2' k s). by rewrite evict_lookup, Hs, Hst.
Qed.

Lemma update_flight (f : S -> S) k p : flight (update_session f k p) = flight p.
Proof. unfold update_session. by destruct (pool p !! k). Qed.

Lemma remove_flight k p : flight (remove k p) = flight p.
Proof. unfold remove. by destruct (lookup_session k p). Qed.

Lemma update_lookup (f : S -> S) k p : lookup_session k (update_session f k p) = f <$> lookup_session k p.
Proof.
  unfold update_session, lookup_session. destruct (pool p !! k) as [r|] eqn:E; [|by rewrite E]. simpl. rewrite E. simpl.
  rewrite list_lookup_alter. by rewrite decide_True.
Qed.

(** The connection of a key, through each primitive. *)
Definition conn_at (k : K) (p : hpool) : option nat := conn_of <$> lookup_session k p.

Lemma conn_at_update f k k' p : (forall s, conn_of (f s) = conn_of s) ->
  conn_at k' (update_session f k p) = conn_at k' p.
Proof. intros Hf. unfold conn_at. rewrite <- !abs_lookup. by rewrite update_abs. Qed.

Lemma conn_at_install k s k' p : pool_wf p ->
  conn_at k' (install k s p) = if decide (k' = k) then Some (conn_of s) else conn_at k' p.
Proof.
  intros Hw. unfold conn_at, lookup_session, install. simpl. case_decide as E; [subst k'|].
  - rewrite lookup_insert_eq. simpl. by rewrite lookup_app_r, Nat.sub_diag by done.
  - rewrite lookup_insert_ne by congruence. destruct (pool p !! k') as [r|] eqn:Hr; [|done]. simpl.
    by rewrite lookup_app_l by (by apply (Hw k')).
Qed.

End hpool.
Arguments hpool K {EK CK} S.
