(* ===== verification/ExitSession.v ===== *)
(** * snc-exit: tunnel sessions (src/snc-exit/sessions.go)

    A session is a heap object: handlers keep the pointer [getSession] returned
    while the pool may drop or replace the entry. The pool's mutex makes each
    method one step, except [getOrCreate], which dials between two critical
    sections, and is two steps with the dialled connection in between.
    Connections are named by numbers; [open] is the set that is not closed. *)

From stdpp Require Import base list gmap strings fin_maps fin_sets.
From Stdlib Require Import ZArith Lia.
From S2P Require Import Prelude GoLib ConnLedger.

Module Session.

Definition sessionTimeout : Z := 30 * second.
Definition reorderBufMax : nat := 32.

Record session := MkSession {
  conn : nat;
  lastSeen : Z;
  username : gostring;
  bytesUp : Z;
  country : gostring;
  targetClosed : bool;
  reorderBuf : gmap Z bytes;
  reorderNext : Z }.

Definition new_session (c : nat) (now : Z) (user : gostring) : session :=
  MkSession c now user 0 [] false ∅ 1.

Definition set_lastSeen (now : Z) (s : session) : session :=
  MkSession (conn s) now (username s) (bytesUp s) (country s) (targetClosed s) (reorderBuf s) (reorderNext s).
Definition set_targetClosed (s : session) : session :=
  MkSession (conn s) (lastSeen s) (username s) (bytesUp s) (country s) true (reorderBuf s) (reorderNext s).
Definition set_bytesUp (n : Z) (s : session) : session :=
  MkSession (conn s) (lastSeen s) (username s) n (country s) (targetClosed s) (reorderBuf s) (reorderNext s).
Definition set_country (cc : gostring) (s : session) : session :=
  MkSession (conn s) (lastSeen s) (username s) (bytesUp s) cc (targetClosed s) (reorderBuf s) (reorderNext s).
Definition set_reorder (b : gmap Z bytes) (n : Z) (s : session) : session :=
  MkSession (conn s) (lastSeen s) (username s) (bytesUp s) (country s) (targetClosed s) b n.

(** ** In-order delivery *)

(** The drain loop; [fail i] is whether the i-th write of the call fails. The
    writes made are returned in order. [fuel] bounds the buffered frames. *)
Fixpoint drain (fuel : nat) (fail : nat -> bool) (i : nat) (s : session) : session * list bytes * res () :=
  match reorderBuf s !! reorderNext s with
  | None => (s, [], Ok ())
  | Some next =>
      match fuel with
      | O => (s, [], Panic)
      | S fuel =>
          let s := set_reorder (delete (reorderNext s) (reorderBuf s)) (reorderNext s) s in
          if decide (next <> []) then
            if fail i then (s, [], Err "write")
            else let '(s, ws, r) := drain fuel fail (S i)
                   (set_reorder (reorderBuf s) (u32 (reorderNext s + 1)) s) in
                 (s, next :: ws, r)
          else drain fuel fail i (set_reorder (reorderBuf s) (u32 (reorderNext s + 1)) s)
      end
  end.

(** A write that fails is taken to have written nothing. A part may have been written; nothing is
    written to that connection afterwards, since the handler closes the session on the error. *)
Definition deliverInOrder (fail : nat -> bool) (seq : Z) (payload : bytes) (s : session)
    : session * list bytes * res () :=
  if seq <? reorderNext s then (s, [], Ok ())
  else if reorderNext s <? seq then
    if (reorderBufMax <=? size (reorderBuf s))%nat then (s, [], Err "reorder buffer full")
    else (set_reorder (<[seq := payload]> (reorderBuf s)) (reorderNext s) s, [], Ok ())
  else
    let go i ws :=
      let s := set_reorder (reorderBuf s) (u32 (reorderNext s + 1)) s in
      let '(s, ws', r) := drain (size (reorderBuf s)) fail i s in (s, ws ++ ws', r) in
    if decide (payload <> []) then
      if fail 0%nat then (s, [], Err "write") else go 1%nat [payload]
    else go 0%nat [].

(** ** The pool *)

#[export] Instance session_conn : HasConn session := conn.

Abbreviation sessionPool := (hpool gostring session).
Definition newSessionPool : sessionPool := empty_pool.

(** First critical section of [getOrCreate]: the connection when there is one. *)
Definition getOrCreate_lookup (connID : gostring) (now : Z) (p : sessionPool) : option nat * sessionPool :=
  match lookup_session connID p with
  | Some s => (Some (conn s), update_session (set_lastSeen now) connID p)
  | None => (None, p)
  end.

(** Second critical section, with the dialled connection [c]. *)
Definition getOrCreate_install (connID : gostring) (c : nat) (user : gostring) (now : Z) (p : sessionPool)
    : nat * sessionPool :=
  match lookup_session connID p with
  | Some s =>
      (conn s, update_session (set_lastSeen now) connID (discard c p))
  | None => (c, install connID (new_session c now user) p)
  end.

Definition store (connID : gostring) (c : nat) (user : gostring) (now : Z) (p : sessionPool) : sessionPool :=
  let p := match lookup_session connID p with
           | Some old => MkPool (heap p) (pool p) (open p ∖ {[conn old]}) (flight p)
           | None => p
           end in
  install connID (new_session c now user) p.

Definition get (connID : gostring) (now : Z) (p : sessionPool) : option nat * sessionPool :=
  match lookup_session connID p with
  | None => (None, p)
  | Some s => if targetClosed s then (None, p) else (Some (conn s), update_session (set_lastSeen now) connID p)
  end.

Definition closeReason (connID : gostring) (p : sessionPool) : string :=
  match lookup_session connID p with
  | None => "not-found"
  | Some s => if targetClosed s then "target-closed" else ""
  end.

Definition markTargetClosed (connID : gostring) (p : sessionPool) : sessionPool :=
  update_session set_targetClosed connID p.
Definition recordActivity (connID : gostring) (now : Z) (p : sessionPool) : sessionPool :=
  update_session (set_lastSeen now) connID p.
Definition addBytesUp (connID : gostring) (n : Z) (p : sessionPool) : sessionPool :=
  update_session (fun s => set_bytesUp (int64 (bytesUp s + n)) s) connID p.
Definition setCountry (connID cc : gostring) (p : sessionPool) : sessionPool :=
  update_session (set_country cc) connID p.

Definition close (connID : gostring) (p : sessionPool) : sessionPool := remove connID p.

(** [getSession] returns the pointer. *)
Definition getSession (connID : gostring) (now : Z) (p : sessionPool) : option nat * sessionPool :=
  match pool p !! connID with
  | None => (None, p)
  | Some r => (Some r, update_session (set_lastSeen now) connID p)
  end.

(** [deliverInOrder] through a session pointer. *)
Definition deliver_at (r : nat) (fail : nat -> bool) (seq : Z) (payload : bytes) (p : sessionPool)
    : sessionPool * list bytes * res () :=
  match heap p !! r with
  | None => (p, [], Panic)
  | Some s =>
      let '(s, ws, e) := deliverInOrder fail seq payload s in
      (MkPool (<[r := s]> (heap p)) (pool p) (open p) (flight p), ws, e)
  end.

Definition snapshot (connID : gostring) (p : sessionPool) : option (gostring * gostring * Z) :=
  s ← lookup_session connID p; Some (username s, country s, bytesUp s).

(** One pass of the watchdog: the stale identifiers, in the order of the map's
    iteration, are closed and deleted. *)
Definition is_stale (now : Z) (s : session) : bool := sessionTimeout <? now - lastSeen s.
Definition watchdog (now : Z) (p : sessionPool) : sessionPool := evict (is_stale now) p.

(** ** Delivery refines an in-order stream *)

Definition maxSeq : Z := 2 ^ 32 - 2.

(** The stream of the frames lo .. hi-1 of a sender whose frame k carries [P k]. *)
Definition frames (P : Z -> bytes) (lo hi : Z) : bytes := concat (P <$> seqZ lo (hi - lo)).

Lemma frames_nil P lo : frames P lo lo = [].
Proof. unfold frames. by rewrite Z.sub_diag. Qed.

Lemma frames_cons P lo hi : lo < hi -> frames P lo hi = P lo ++ frames P (lo + 1) hi.
Proof.
  intros Hl. unfold frames. rewrite seqZ_cons by lia. rewrite fmap_cons. cbn [concat].
  do 3 f_equal. replace (Z.succ lo) with (lo + 1) by lia. f_equal. lia.
Qed.

Lemma frames_app P a b c : a <= b -> b <= c -> frames P a b ++ frames P b c = frames P a c.
Proof.
  intros Hab Hbc. unfold frames. rewrite <- concat_app, <- fmap_app.
  replace (c - a) with ((b - a) + (c - b)) by lia. rewrite seqZ_app by lia.
  by replace (a + (b - a)) with b by lia.
Qed.

Record deliver_inv (P : Z -> bytes) (s : session) : Prop := {
  di_next : 1 <= reorderNext s <= maxSeq + 1;
  di_buf : forall k b, reorderBuf s !! k = Some b -> b = P k /\ reorderNext s < k <= maxSeq;
  di_size : (size (reorderBuf s) <= reorderBufMax)%nat }.

(** What draining does: the frames it wrote are the next ones of the stream, all
    of them were buffered, and later ones stay buffered. *)
Record drained (P : Z -> bytes) (s s' : session) (ws : list bytes) (r : res ()) : Prop := {
  dr_next : reorderNext s <= reorderNext s' <= maxSeq + 1;
  dr_writes : concat ws = frames P (reorderNext s) (reorderNext s');
  dr_got : forall k, reorderNext s <= k < reorderNext s' -> is_Some (reorderBuf s !! k);
  dr_keep : forall k, reorderNext s' < k -> reorderBuf s' !! k = reorderBuf s !! k;
  dr_none : forall k, k <= reorderNext s' -> reorderBuf s' !! k = None;
  dr_panic : r <> Panic;
  dr_ok : r = Ok () -> reorderBuf s !! reorderNext s' = None;
  dr_size : (size (reorderBuf s') <= size (reorderBuf s))%nat }.

(** Frames wait in the buffer at or after the next expected number. *)
Definition waiting (P : Z -> bytes) (s : session) : Prop :=
  1 <= reorderNext s <= maxSeq + 1
  /\ forall k b, reorderBuf s !! k = Some b -> b = P k /\ reorderNext s <= k <= maxSeq.

Lemma drained_done P s :
  waiting P s -> reorderBuf s !! reorderNext s = None -> drained P s s [] (Ok ()).
Proof.
  intros [Hn Hb] E. split; try done; try lia.
  - by rewrite frames_nil.
  - intros k Hk. destruct (reorderBuf s !! k) eqn:Ek; [|done]. destruct (Hb _ _ Ek).
    assert (k = reorderNext s) by lia. congruence.
Qed.

Definition drop_next (s : session) : session :=
  set_reorder (delete (reorderNext s) (reorderBuf s)) (reorderNext s) s.

Lemma drained_fail P s m : waiting P s -> drained P s (drop_next s) [] (Err m).
Proof.
  intros [Hn Hb]. split; cbn [drop_next set_reorder reorderBuf reorderNext]; try done; try lia.
  - by rewrite frames_nil.
  - intros k Hk. by rewrite lookup_delete_ne by lia.
  - intros k Hk. destruct (decide (k = reorderNext s)) as [->|]; [apply lookup_delete_eq|].
    rewrite lookup_delete_ne by lia. destruct (reorderBuf s !! k) eqn:Ek; [|done]. destruct (Hb _ _ Ek). lia.
  - rewrite map_size_delete. destruct (_ !! _); simpl; lia.
Qed.

Definition advance (s : session) : session := set_reorder (reorderBuf s) (u32 (reorderNext s + 1)) s.

Lemma advance_next s : 0 <= reorderNext s <= maxSeq -> reorderNext (advance s) = reorderNext s + 1.
Proof. unfold maxSeq. intros Hn. cbn [advance set_reorder reorderNext]. unfold u32. apply Z.mod_small. lia. Qed.

Lemma drained_step P s s' ws r b :
  waiting P s -> reorderBuf s !! reorderNext s = Some b ->
  drained P (advance (drop_next s)) s' ws r ->
  drained P s s' (if decide (b <> []) then b :: ws else ws) r.
Proof.
  intros [Hn Hb] E [D1 D2 D3 D4 D5 D6 D7 D8]. destruct (Hb _ _ E) as [-> Hmax].
  pose proof (advance_next (drop_next s)) as En. cbn [drop_next set_reorder reorderNext] in En.
  fold (drop_next s) in En. rewrite En in * by lia.
  change (reorderBuf (advance (drop_next s))) with (delete (reorderNext s) (reorderBuf s)) in *.
  split; try done; try lia.
  - rewrite (frames_cons P (reorderNext s)), <- D2 by lia. case_decide as Hne; [done|].
    by rewrite Hne.
  - intros k Hk. destruct (decide (k = reorderNext s)) as [->|]; [by eexists|].
    destruct (D3 k) as [b' Hb']; [lia|]. rewrite lookup_delete_ne in Hb' by lia. eauto.
  - intros k Hk. rewrite D4, lookup_delete_ne by lia. done.
  - intros ->. specialize (D7 eq_refl). by rewrite lookup_delete_ne in D7 by lia.
  - rewrite map_size_delete, E in D8. simpl in D8. lia.
Qed.

Lemma waiting_step P s b :
  waiting P s -> reorderBuf s !! reorderNext s = Some b -> waiting P (advance (drop_next s)).
Proof.
  intros [Hn Hb] E. destruct (Hb _ _ E) as [_ Hmax].
  pose proof (advance_next (drop_next s)) as En. cbn [drop_next set_reorder reorderNext] in En.
  fold (drop_next s) in En. split; rewrite En by lia; [lia|].
  change (reorderBuf (advance (drop_next s))) with (delete (reorderNext s) (reorderBuf s)).
  intros k b' [Hk Hkb]%lookup_delete_Some. destruct (Hb _ _ Hkb). split; [done | lia].
Qed.

Lemma size_Some (m : gmap Z bytes) k b : m !! k = Some b -> (0 < size m)%nat.
Proof.
  intros E. destruct (size m) eqn:Es; [|lia]. apply map_size_empty_inv in Es. by rewrite Es, lookup_empty in E.
Qed.

(** The loop always ends within its fuel: every turn takes a frame off the buffer. *)
Lemma drain_spec P fuel fail i s :
  (size (reorderBuf s) <= fuel)%nat -> waiting P s ->
  exists s' ws r, drain fuel fail i s = (s', ws, r) /\ drained P s s' ws r.
Proof.
  revert i s. induction fuel as [|fuel IH]; intros i s Hsz Hw; cbn [drain];
    destruct (reorderBuf s !! reorderNext s) as [b|] eqn:E;
    try (exists s, [], (Ok ()); split; [done | by apply drained_done]).
  - apply size_Some in E. lia.
  - fold (drop_next s) (advance (drop_next s)).
    destruct (IH (if decide (b <> []) then S i else i) (advance (drop_next s))) as (s' & ws & r & Er & Hd).
    { change (reorderBuf (advance (drop_next s))) with (delete (reorderNext s) (reorderBuf s)).
      rewrite map_size_delete, E. simpl. lia. }
    { by eapply waiting_step. }
    pose proof (drained_step P s s' ws r b Hw E Hd) as Hst. case_decide as Hne.
    + destruct (fail i).
      * exists (drop_next s), [], (Err "write"). split; [done | by apply drained_fail].
      * rewrite Er. exists s', (b :: ws), r. done.
    + rewrite Er. exists s', ws, r. done.
Qed.

(** A call that accounts for frame [seq]: everything up to the next expected number
    or in the buffer was there before or is that frame. *)
Definition accounts (s s' : session) (seq : Z) : Prop :=
  forall k, k < reorderNext s' \/ is_Some (reorderBuf s' !! k)
    <-> k < reorderNext s \/ is_Some (reorderBuf s !! k) \/ k = seq.

Record delivered (P : Z -> bytes) (seq : Z) (s s' : session) (ws : list bytes) (r : res ()) : Prop := {
  de_inv : deliver_inv P s';
  de_next : reorderNext s <= reorderNext s';
  de_writes : concat ws = frames P (reorderNext s) (reorderNext s');
  de_panic : r <> Panic;
  de_only : forall k, k < reorderNext s' \/ is_Some (reorderBuf s' !! k)
    -> k < reorderNext s \/ is_Some (reorderBuf s !! k) \/ k = seq;
  de_ok : r = Ok () -> accounts s s' seq }.

Lemma delivered_same P seq s r :
  deliver_inv P s -> r <> Panic -> (r = Ok () -> seq < reorderNext s) -> delivered P seq s s [] r.
Proof.
  intros Hs Hp Hr. split; try done; [by rewrite frames_nil|intros k [?|?]; auto|].
  intros E k. specialize (Hr E). split; [tauto|]. intros [?|[?| ->]]; auto.
Qed.

Lemma delivered_buffer P seq s :
  deliver_inv P s -> reorderNext s < seq <= maxSeq -> (size (reorderBuf s) < reorderBufMax)%nat ->
  delivered P seq s (set_reorder (<[seq := P seq]> (reorderBuf s)) (reorderNext s) s) [] (Ok ()).
Proof.
  intros [Hn Hb Hsz] Hseq Hlt. split; cbn [set_reorder reorderNext reorderBuf]; try done; [split| | |];
    cbn [set_reorder reorderNext reorderBuf]; [done | | |by rewrite frames_nil| |].
  - intros k b [[<- <-]|[_ Hk]]%lookup_insert_Some; [split; [done | lia] | by apply Hb].
  - rewrite map_size_insert. destruct (_ !! _); simpl; lia.
  - intros k. rewrite lookup_insert_is_Some. destruct (decide (seq = k)); naive_solver.
  - intros _ k. cbn [set_reorder reorderNext reorderBuf]. rewrite lookup_insert_is_Some.
    destruct (decide (seq = k)); naive_solver.
Qed.

Lemma delivered_drain P s s' ws r :
  deliver_inv P s -> reorderNext s <= maxSeq -> drained P (advance s) s' ws r ->
  delivered P (reorderNext s) s s' (if decide (P (reorderNext s) <> []) then P (reorderNext s) :: ws else ws) r.
Proof.
  intros [Hn Hb Hsz] Hmax [D1 D2 D3 D4 D5 D6 D7 D8]. rewrite advance_next in * by lia.
  change (reorderBuf (advance s)) with (reorderBuf s) in *. split; try done; try lia.
  - split; [lia| |lia]. intros k b Hk. assert (reorderNext s' < k) as Hlt.
    { destruct (Z.lt_ge_cases (reorderNext s') k); [done|]. rewrite D5 in Hk; [done | lia]. }
    rewrite D4 in Hk by lia. destruct (Hb _ _ Hk). split; [done | lia].
  - rewrite (frames_cons P (reorderNext s) (reorderNext s')), <- D2 by lia. case_decide as Hne; [done|].
    by rewrite Hne.
  - intros k [Hk|Hk].
    + destruct (Z.lt_trichotomy k (reorderNext s)) as [?|[?|?]]; auto. right. left. apply D3. lia.
    + destruct (Z.le_gt_cases k (reorderNext s')) as [?|?]; [rewrite D5 in Hk by done; by destruct Hk|].
      rewrite D4 in Hk by done. auto.
  - intros -> k. specialize (D7 eq_refl). destruct (Z.lt_trichotomy k (reorderNext s')) as [Hk|[->|Hk]].
    + split; [|intros _; by left]. intros _. destruct (Z.lt_trichotomy k (reorderNext s)) as [?|[?|?]]; auto.
      right. left. apply D3. lia.
    + rewrite D5, D7 by lia. split; [intros [?|[? ?]]; (lia || done) |]. intros [?|[[? ?]|?]]; (lia || done).
    + rewrite D4 by lia. split; [intros [?|?]; [lia | auto] | intros [?|[?|?]]; (lia || auto)].
Qed.

Lemma deliver_spec P fail seq s :
  deliver_inv P s -> 0 <= seq <= maxSeq ->
  exists s' ws r, deliverInOrder fail seq (P seq) s = (s', ws, r) /\ delivered P seq s s' ws r.
Proof.
  intros Hs Hseq. pose proof Hs as [Hn Hb Hsz]. unfold deliverInOrder.
  destruct (Z.ltb_spec seq (reorderNext s)).
  { exists s, [], (Ok ()). split; [done|]. by apply delivered_same. }
  destruct (Z.ltb_spec (reorderNext s) seq).
  { destruct (Nat.leb_spec reorderBufMax (size (reorderBuf s))); (eexists _, [], _; split; [reflexivity|]).
    - by apply delivered_same.
    - apply delivered_buffer; [done | lia | lia]. }
  assert (seq = reorderNext s) as -> by lia. fold (advance s).
  assert (waiting P (advance s)) as Hw.
  { split; rewrite advance_next by (unfold maxSeq in *; lia); [lia|].
    intros k b Hk. destruct (Hb _ _ Hk). split; [done | lia]. }
  destruct (drain_spec P (size (reorderBuf (advance s))) fail (if decide (P (reorderNext s) <> []) then 1%nat else 0%nat)
    (advance s) ltac:(lia) Hw) as (s' & ws & r & Er & Hd).
  pose proof (delivered_drain P s s' ws r Hs ltac:(lia) Hd) as HD.
  case_decide as Hne; [destruct (fail 0%nat)|]; rewrite ?Er; (eexists _, _, _; split; [reflexivity|]); [|done..].
  by apply delivered_same.
Qed.

(** A sequence of calls on one session: what was written, and each result. *)
Fixpoint deliver_all (P : Z -> bytes) (calls : list (Z * (nat -> bool))) (s : session)
    : session * bytes * list (res ()) :=
  match calls with
  | [] => (s, [], [])
  | (seq, fail) :: calls =>
      let '(s, ws, r) := deliverInOrder fail seq (P seq) s in
      let '(s, w, rs) := deliver_all P calls s in
      (s, concat ws ++ w, r :: rs)
  end.

Lemma deliver_all_spec P calls s :
  deliver_inv P s -> Forall (fun c => 0 <= c.1 <= maxSeq) calls ->
  exists s' w rs, deliver_all P calls s = (s', w, rs)
    /\ deliver_inv P s' /\ reorderNext s <= reorderNext s'
    /\ w = frames P (reorderNext s) (reorderNext s') /\ Forall (fun r => r <> Panic) rs
    /\ (Forall (fun r => r = Ok ()) rs -> forall k, k < reorderNext s' \/ is_Some (reorderBuf s' !! k)
          <-> k < reorderNext s \/ is_Some (reorderBuf s !! k) \/ k ∈ calls.*1).
Proof.
  intros Hs Hc. revert s Hs. induction Hc as [|[seq fail] calls Hseq Hc IH]; intros s Hs; cbn [deliver_all].
  - exists s, [], []. split_and!; try done; [by rewrite frames_nil|].
    intros _ k. rewrite elem_of_nil. tauto.
  - destruct (deliver_spec P fail seq s Hs Hseq) as (s1 & ws & r & -> & [D1 D2 D3 D4 _ D5]).
    destruct (IH s1 D1) as (s' & w & rs & -> & I1 & I2 & -> & I4 & I5).
    exists s', (concat ws ++ frames P (reorderNext s1) (reorderNext s')), (r :: rs).
    split_and!; try done; [lia | by rewrite D3, frames_app by lia | by constructor |].
    intros [Hr Hrs]%Forall_cons k. rewrite (I5 Hrs k). specialize (D5 Hr k).
    rewrite fmap_cons, elem_of_cons. simpl. tauto.
Qed.

Lemma new_session_inv P c now u : deliver_inv P (new_session c now u).
Proof. split; cbn [new_session reorderNext reorderBuf]; [unfold maxSeq; lia | intros k b; by rewrite lookup_empty | rewrite map_size_empty; lia]. Qed.

(** C5: Whatever order frames arrive in, with duplicates, gaps and failing writes,
    what a session writes to the target is exactly frames 1, 2, ..., next-1 of the
    sender's stream, each once and in order; the buffer never exceeds 32 frames; and
    when every call succeeded, next is the first frame not received and every later
    frame received is held for its turn. *)
Theorem deliver_in_order P calls c now u :
  Forall (fun c => 0 <= c.1 <= maxSeq) calls ->
  exists s w rs, deliver_all P calls (new_session c now u) = (s, w, rs)
    /\ w = frames P 1 (reorderNext s)
    /\ (size (reorderBuf s) <= reorderBufMax)%nat
    /\ Forall (fun r => r <> Panic) rs
    /\ (Forall (fun r => r = Ok ()) rs ->
         (forall k, 1 <= k < reorderNext s -> k ∈ calls.*1)
         /\ reorderNext s ∉ calls.*1
         /\ (forall k, reorderNext s < k -> k ∈ calls.*1 <-> reorderBuf s !! k = Some (P k))).
Proof.
  intros Hc. destruct (deliver_all_spec P calls (new_session c now u) (new_session_inv P c now u) Hc)
    as (s & w & rs & -> & [I1 I2 I3] & _ & -> & I4 & I5). exists s, (frames P 1 (reorderNext s)), rs.
  split_and!; try done. intros Hrs. specialize (I5 Hrs). cbn [new_session reorderNext reorderBuf] in I5.
  assert (forall k, is_Some ((∅ : gmap Z bytes) !! k) <-> False) as He
    by (intros k; rewrite lookup_empty; split; [by intros [? ?] | done]).
  split_and!.
  - intros k Hk. destruct (proj1 (I5 k)) as [?|[Hx|?]]; [by left; lia | lia | by apply He in Hx | done].
  - intros Hin. destruct (proj2 (I5 (reorderNext s))) as [?|[b Hb]]; [by right; right | lia |].
    destruct (I2 _ _ Hb). lia.
  - intros k Hk. split.
    + intros Hin. destruct (proj2 (I5 k)) as [?|[b Hb]]; [by right; right | lia |].
      destruct (I2 _ _ Hb) as [-> _]. done.
    + intros Hb. destruct (proj1 (I5 k)) as [?|[Hx|?]]; [right; eauto | lia | by apply He in Hx | done].
Qed.

Definition test_calls : list (Z * (nat -> bool)) :=
  (fun k => (k, fun _ => false)) <$> [2; 3; 1; 3; 6; 4].

Lemma deliver_in_order_witness :
  exists s w rs, deliver_all (fun k => [k]) test_calls (new_session 0 0 []) = (s, w, rs)
    /\ w = frames (fun k => [k]) 1 (reorderNext s)
    /\ (size (reorderBuf s) <= reorderBufMax)%nat
    /\ Forall (fun r => r <> Panic) rs
    /\ (Forall (fun r => r = Ok ()) rs ->
         (forall k, 1 <= k < reorderNext s -> k ∈ test_calls.*1)
         /\ reorderNext s ∉ test_calls.*1
         /\ (forall k, reorderNext s < k -> k ∈ test_calls.*1 <-> reorderBuf s !! k = Some [k])).
Proof.
  apply (deliver_in_order (fun k => [k]) test_calls 0 0 []). unfold test_calls.
  apply Forall_fmap. apply (bool_decide_eq_true _); vm_compute; reflexivity.
Defined.

Example deliver_example :
  deliver_all (fun k => [k]) test_calls (new_session 0 0 [])
  = (MkSession 0 0 [] 0 [] false {[6 := [6]]} 5, [1; 2; 3; 4], replicate 6 (Ok ())).
Proof. vm_compute. reflexivity. Qed.

(** *** A bounded window never fills the buffer *)

(** The buffered frames lie less than [reorderBufMax] after the next expected one. *)
Definition in_window (s : session) : Prop :=
  forall k b, reorderBuf s !! k = Some b -> reorderNext s < k < reorderNext s + Z.of_nat reorderBufMax.

Lemma window_not_full s : in_window s -> (size (reorderBuf s) < reorderBufMax)%nat.
Proof.
  intros Hw. rewrite <- size_dom.
  assert (dom (reorderBuf s) ⊆ list_to_set (C := gset Z) (seqZ (reorderNext s + 1) (Z.of_nat reorderBufMax - 1))) as Hsub.
  { intros k [b Hb]%elem_of_dom. apply Hw in Hb. apply elem_of_list_to_set, elem_of_seqZ. lia. }
  apply subseteq_size in Hsub. rewrite size_list_to_set in Hsub by apply NoDup_seqZ.
  rewrite length_seqZ in Hsub. unfold reorderBufMax in *. lia.
Qed.

(** Every frame arrives within the window of the moment. *)
Fixpoint windowed (P : Z -> bytes) (calls : list Z) (s : session) : Prop :=
  match calls with
  | [] => True
  | seq :: calls =>
      0 <= seq <= maxSeq /\ seq < reorderNext s + Z.of_nat reorderBufMax
      /\ windowed P calls (fst (fst (deliverInOrder (fun _ => false) seq (P seq) s)))
  end.

Lemma drain_ok fuel i s s' ws r : drain fuel (fun _ => false) i s = (s', ws, r) -> r = Ok () \/ r = Panic.
Proof.
  revert i s s' ws r. induction fuel as [|fuel IH]; intros i s s' ws r; cbn [drain];
    destruct (_ !! _); try (intros [= <- <- <-]; auto).
  case_decide; [|apply IH]. destruct (drain fuel _ _ _) as [[s1 ws1] r1] eqn:E. intros [= <- <- <-]. by eapply IH.
Qed.

(** The reorder buffer suffices for a client that keeps to its window: as long as every
    frame arrives less than 32 places after the next expected one and the target accepts
    the writes, no call ever fails. *)
Theorem window_never_fails P calls c now u :
  windowed P calls (new_session c now u) ->
  Forall (fun r => r = Ok ()) (snd (deliver_all P ((fun k => (k, fun _ => false)) <$> calls) (new_session c now u))).
Proof.
  assert (in_window (new_session c now u)) as Hw by (intros k b; cbn [new_session reorderBuf]; by rewrite lookup_empty).
  pose proof (new_session_inv P c now u) as Hi. revert Hi Hw. generalize (new_session c now u).
  induction calls as [|seq calls IH]; intros s Hi Hw; [constructor|]. cbn [windowed]. intros (Hseq & Hlt & Hrest).
  rewrite fmap_cons. cbn [deliver_all].
  destruct (deliver_spec P (fun _ => false) seq s Hi Hseq) as (s1 & ws & r & E & [D1 D2 _ D4 _ _]).
  rewrite E in Hrest |- *. cbn [fst] in Hrest.
  assert (r = Ok () /\ in_window s1) as [-> Hw1].
  { pose proof (window_not_full s Hw) as Hnf. unfold deliverInOrder in E.
    destruct (Z.ltb_spec seq (reorderNext s)); [by injection E as <- <- <-|].
    destruct (Z.ltb_spec (reorderNext s) seq).
    - destruct (Nat.leb_spec reorderBufMax (size (reorderBuf s))); [lia|]. injection E as <- <- <-.
      split; [done|]. intros k b. cbn [set_reorder reorderBuf reorderNext].
      intros [[<- <-]|[_ Hk]]%lookup_insert_Some; [lia | by eapply Hw].
    - assert (exists i ws', drain (size (reorderBuf (advance s))) (fun _ => false) i (advance s) = (s1, ws', r)) as (i & ws' & Ed).
      { fold (advance s) in E. case_decide; destruct (drain _ _ _ _) as [[s2 ws2] r2] eqn:Ed; injection E as <- <- <-; eauto. }
      destruct (drain_ok _ _ _ _ _ _ Ed) as [-> | ->]; [|done]. split; [done|].
      destruct (drain_spec P (size (reorderBuf (advance s))) (fun _ => false) i (advance s)) as (s2 & ws2 & r2 & Ed2 & Hd); [lia| |].
      { destruct Hi as [Hn Hb _]. split; rewrite advance_next by lia; [lia|]. intros k b Hk. destruct (Hb _ _ Hk). split; [done | lia]. }
      rewrite Ed in Ed2. injection Ed2 as <- <- <-. intros k b Hk.
      destruct (Z.le_gt_cases k (reorderNext s1)) as [Hle|Hgt]; [by rewrite (dr_none _ _ _ _ _ Hd) in Hk|].
      rewrite (dr_keep _ _ _ _ _ Hd) in Hk by lia. apply Hw in Hk. lia. }
  specialize (IH s1 D1 Hw1 Hrest). destruct (deliver_all P _ s1) as [[s2 w] rs]. by constructor.
Qed.

Lemma window_never_fails_witness :
  Forall (fun r => r = Ok ())
    (snd (deliver_all (fun k => [k]) ((fun k => (k, fun _ => false)) <$> [3; 2; 8; 1; 33]) (new_session 0 0 []))).
Proof. apply window_never_fails. vm_compute. repeat split; congruence. Defined.

(** ** The pool refines the ledger of connections *)

(** What the goroutines of the exit do to the pool, in any interleaving; a dial
    yields a connection that is not open yet. *)
Inductive pstep : sessionPool -> sessionPool -> Prop :=
| ps_lookup id now p : pstep p (snd (getOrCreate_lookup id now p))
| ps_dial c p : c ∉ open p -> pstep p (dial c p)
| ps_discard c p : c ∈ flight p -> pstep p (discard c p)
| ps_install id c u now p : c ∈ flight p -> pstep p (snd (getOrCreate_install id c u now p))
| ps_store id c u now p : c ∈ flight p -> pstep p (store id c u now p)
| ps_get id now p : pstep p (snd (get id now p))
| ps_mark id p : pstep p (markTargetClosed id p)
| ps_activity id now p : pstep p (recordActivity id now p)
| ps_bytes id n p : pstep p (addBytesUp id n p)
| ps_country id cc p : pstep p (setCountry id cc p)
| ps_close id p : pstep p (close id p)
| ps_session id now p : pstep p (snd (getSession id now p))
| ps_deliver r fail seq payload p : pstep p (fst (fst (deliver_at r fail seq payload p)))
| ps_watchdog now p : pstep p (watchdog now p).

Inductive preach : sessionPool -> Prop :=
| pr_init : preach newSessionPool
| pr_step p p' : preach p -> pstep p p' -> preach p'.

Lemma drain_conn fuel fail i s : conn (fst (fst (drain fuel fail i s))) = conn s.
Proof.
  revert i s. induction fuel as [|fuel IH]; intros i s; cbn [drain]; destruct (_ !! _); try done.
  case_decide; [|by rewrite IH]. destruct (fail i); [done|].
  match goal with |- context [drain fuel fail (S i) ?t] => pose proof (IH (S i) t) as Hc;
    destruct (drain fuel fail (S i) t) as [[s1 ws] r] end. done.
Qed.

Lemma deliver_conn fail seq payload s : conn (fst (fst (deliverInOrder fail seq payload s))) = conn s.
Proof.
  unfold deliverInOrder. destruct (_ <? _); [done|]. destruct (_ <? _); [by destruct (_ <=? _)%nat|].
  case_decide; [destruct (fail 0%nat); [done|]|];
    match goal with |- context [drain ?n fail ?i ?t] => pose proof (drain_conn n fail i t) as Hc;
      destruct (drain n fail i t) as [[s1 ws] r] end; done.
Qed.

(** Every step of the pool is a sequence of ledger steps. *)
Lemma pstep_sim p p' : pstep p p' -> pool_wf p -> sim p p'.
Proof.
  destruct 1 as [id now p|c p Hc|c p Hc|id c u now p Hc|id c u now p Hc|id now p|id p|id now p|id n p|id cc p|id p
    |id now p|r fail seq payload p|now p]; intros Hw; try (by apply sim_update).
  - unfold getOrCreate_lookup. destruct (lookup_session id p); [by apply sim_update | by apply sim_refl].
  - by apply sim_dial.
  - by apply sim_discard.
  - unfold getOrCreate_install. destruct (lookup_session id p) as [s|] eqn:E; cbn [snd].
    + eapply sim_trans; [by apply sim_discard|]. by apply sim_update.
    + by apply sim_install.
  - unfold store. destruct (lookup_session id p) as [s|] eqn:E; [by apply sim_replace | by apply sim_install].
  - unfold get. destruct (lookup_session id p) as [s|]; [|by apply sim_refl].
    destruct (targetClosed s); [by apply sim_refl | by apply sim_update].
  - by apply sim_remove.
  - unfold getSession. destruct (pool p !! id); [by apply sim_update | by apply sim_refl].
  - unfold deliver_at. destruct (heap p !! r) as [s|] eqn:E; [|by apply sim_refl].
    pose proof (deliver_conn fail seq payload s) as Hc.
    destruct (deliverInOrder fail seq payload s) as [[s' ws] e]. by apply (sim_insert r s' s).
  - by apply sim_removes.
Qed.

Lemma preach_ok p : preach p -> pool_wf p /\ ledger_ok (abs p).
Proof.
  induction 1 as [|p p' _ [Hw Hl] Hst]; [apply empty_pool_ok|].
  destruct (pstep_sim _ _ Hst Hw) as [Hw' Hs]. split; [done|]. by eapply lsteps_ok.
Qed.

(** C6: In every interleaving of the exit's goroutines, every step of the session pool
    refines the ownership ledger; so no connection leaks and none is shared: an open
    connection is either still with the caller that dialled it or belongs to exactly
    one pooled session, and no pooled session holds a closed connection. *)
Theorem pool_refines_ledger p p' :
  preach p -> pstep p p' ->
  lsteps (abs p) (abs p')
  /\ (forall c, c ∈ open p' -> c ∈ flight p' \/ exists id s, lookup_session id p' = Some s /\ conn s = c)
  /\ (forall id s, lookup_session id p' = Some s -> conn s ∈ open p' /\ conn s ∉ flight p')
  /\ (forall id1 id2 s1 s2, lookup_session id1 p' = Some s1 -> lookup_session id2 p' = Some s2 ->
        conn s1 = conn s2 -> id1 = id2).
Proof.
  intros Hr Hst. destruct (preach_ok p Hr) as [Hw _].
  split; [by apply pstep_sim|]. apply owned_spec. by apply (preach_ok p' (pr_step _ _ Hr Hst)).
Qed.

(** Two callers race for one id: both dial, the second to install finds the first. *)
Definition race_pool : sessionPool :=
  dial 2 (dial 1 (snd (getOrCreate_lookup (bs "c") 0 (snd (getOrCreate_lookup (bs "c") 0 newSessionPool))))).

Lemma race_reach : preach (snd (getOrCreate_install (bs "c") 2 (bs "u") 5 race_pool)).
Proof.
  eapply pr_step; [|apply ps_install; apply (bool_decide_eq_true _); vm_compute; reflexivity].
  eapply pr_step; [|apply ps_dial; apply (bool_decide_eq_true _); vm_compute; reflexivity].
  eapply pr_step; [|apply ps_dial; apply (bool_decide_eq_true _); vm_compute; reflexivity].
  eapply pr_step; [|apply ps_lookup]. eapply pr_step; [apply pr_init | apply ps_lookup].
Qed.

Lemma pool_refines_ledger_witness :
  let p := snd (getOrCreate_install (bs "c") 2 (bs "u") 5 race_pool) in
  let p' := snd (getOrCreate_install (bs "c") 1 (bs "u") 6 p) in
  fst (getOrCreate_install (bs "c") 1 (bs "u") 6 p) = 2%nat
  /\ lsteps (abs p) (abs p')
  /\ forall c, c ∈ open p' -> c ∈ flight p' \/ exists id s, lookup_session id p' = Some s /\ conn s = c.
Proof.
  intros p p'. split; [vm_compute; reflexivity|].
  destruct (pool_refines_ledger p p' race_reach) as (H1 & H2 & _).
  { apply ps_install. apply (bool_decide_eq_true _); vm_compute; reflexivity. }
  exact (conj H1 H2).
Defined.

(** *** Idle eviction *)

(** A watchdog pass removes exactly the sessions idle for more than 30 seconds:
    every other session is untouched, and the connections of the removed ones are
    closed while all others stay open. *)
Theorem watchdog_evicts now p id :
  preach p ->
  lookup_session id (watchdog now p) =
    match lookup_session id p with
    | Some s => if is_stale now s then None else Some s
    | None => None
    end
  /\ (forall s, lookup_session id p = Some s ->
        (conn s ∈ open (watchdog now p) <-> now - lastSeen s <= 30 * second)).
Proof.
  intros Hr. split; [apply evict_lookup|]. intros s Hs.
  pose proof (evict_conns (is_stale now) p id s (proj2 (preach_ok p Hr))
    (proj2 (preach_ok _ (pr_step _ _ Hr (ps_watchdog now p)))) Hs) as Hc.
  change (conn s ∈ open (watchdog now p) <-> is_stale now s = false) in Hc. rewrite Hc.
  unfold is_stale, sessionTimeout. by rewrite Z.ltb_ge.
Qed.

Lemma watchdog_evicts_witness :
  let p := snd (getOrCreate_install (bs "c") 2 (bs "u") 5 race_pool) in
  lookup_session (bs "c") (watchdog (31 * second) p) = None
  /\ lookup_session (bs "c") (watchdog (31 * second) p) =
     match lookup_session (bs "c") p with Some s => if is_stale (31 * second) s then None else Some s | None => None end.
Proof.
  intros p. split; [vm_compute; reflexivity|]. exact (proj1 (watchdog_evicts (31 * second) p (bs "c") race_reach)).
Defined.
End Session.
