(* ===== verification/ExitAuth.v ===== *)
(** * snc-exit: authentication against the arbiter (src/snc-exit/auth.go)

    [authClient] keeps two caches under one mutex: verdicts on session tokens and
    bodies of successful logins. The arbiter is queried with the mutex released, so
    a validation is a lookup step and, later, a finish step, with other requests in
    between. The HTTP exchange is an input: the status and body of the reply, or an error;
    [queryArbiter] reads the verdict from the body with the JSON of GoJson, whatever the status. *)

From stdpp Require Import base list gmap strings fin_maps.
From Stdlib Require Import ZArith Lia.
From S2P Require Import Prelude GoLib GoJson.

Module Auth.

Definition localCacheTTL : Z := 1 * minute.
Definition localStaleTTL : Z := 3 * hour.
Definition authCacheTTL : Z := 5 * minute.
Definition authStaleTTL : Z := 24 * hour.

Record cacheEntry := MkEntry {
  e_username : gostring;
  e_clientID : gostring;
  e_validatedAt : Z;
  e_denied : bool }.

Record authResultEntry := MkResult { ar_body : bytes; ar_cachedAt : Z }.

Record authClient := MkAuth {
  cache : gmap gostring cacheEntry;
  authCache : gmap gostring authResultEntry }.

Definition newAuthClient : authClient := MkAuth ∅ ∅.

(** What a reply says about a token. *)
Record verdict := MkVerdict { v_username : gostring; v_clientID : gostring; v_denied : bool }.
#[export] Instance verdict_eq_dec : EqDecision verdict.
Proof. solve_decision. Defined.

Definition entry_verdict (e : cacheEntry) : verdict := MkVerdict (e_username e) (e_clientID e) (e_denied e).

(** The struct [queryArbiter] decodes the reply into. *)
Definition dec_verdict : Json.json -> verdict -> option verdict := Json.dec_struct (fun kvs v =>
  let ns := Json.names ["user"; "client_id"; "denied"] in
  u ← Json.pick ns "user" Json.dec_str (v_username v) kvs;
  c ← Json.pick ns "client_id" Json.dec_str (v_clientID v) kvs;
  d ← Json.pick ns "denied" Json.dec_bool (v_denied v) kvs; Some (MkVerdict u c d)).

(** [queryArbiter], given the reply to its request: the status is not looked at, and of a body
    that could not be read to its end what was read is parsed. *)
Definition queryArbiter (reply : res (Z * bytes)) : res verdict :=
  '(_, raw) ← reply;
  match Json.Unmarshal dec_verdict (MkVerdict [] [] false) raw with
  | Some v => Ok v
  | None => Err "parse arbiter response"
  end.

(** The result of [validateSession]: a verdict, or transient. *)
Inductive outcome := Decided (v : verdict) | Transient.

(** ** validateSession *)

(** First critical section: a fresh entry answers at once, else the stale one is kept. *)
Definition vs_lookup (now : Z) (token : gostring) (a : authClient) : verdict + option cacheEntry :=
  match cache a !! token with
  | Some e => if now - e_validatedAt e <? localCacheTTL then inl (entry_verdict e) else inr (Some e)
  | None => inr None
  end.

Definition evict_before (cutoff : Z) (c : gmap gostring cacheEntry) : gmap gostring cacheEntry :=
  filter (fun kv => ~ (e_validatedAt kv.2 < cutoff)) c.

(** After the query: [now] is the time taken before it, [answer] its result. *)
Definition vs_finish (now : Z) (token : gostring) (stale : option cacheEntry) (answer : res verdict) (a : authClient)
    : outcome * authClient :=
  match answer with
  | Ok v =>
      let c := <[token := MkEntry (v_username v) (v_clientID v) now (v_denied v)]> (cache a) in
      (Decided v, MkAuth (evict_before (now - localStaleTTL) c) (authCache a))
  | _ =>
      match stale with
      | Some e => (Decided (entry_verdict e), a)
      | None => (Transient, a)
      end
  end.

(** The whole call, when nothing else runs in between. *)
Definition validateSession (now : Z) (token : gostring) (reply : res (Z * bytes)) (a : authClient)
    : outcome * authClient :=
  match vs_lookup now token a with
  | inl v => (Decided v, a)
  | inr stale => vs_finish now token stale (queryArbiter reply) a
  end.

(** ** authenticate *)

(** The reads of JSON bodies: [fields] is the object's string members, "" for an
    absent or other member; [session_of] the session member of a login reply; and
    crypto/sha256. *)
Class AuthCodec := {
  fields : bytes -> option (gostring -> gostring);
  session_of : bytes -> option gostring;
  sha256 : bytes -> bytes }.

Section auth.
Context {AC : AuthCodec}.

Definition looksLikeAuthSuccess (raw : bytes) : bool :=
  match session_of raw with Some s => negb (bool_decide (s = [])) | None => false end.

Definition authDeviceKey (command : gostring) (body : bytes) : gostring :=
  match fields body with
  | None => []
  | Some str =>
      if decide (str (bs "device_id") <> []) then bs "dev:" ++ str (bs "device_id")
      else
        let user := if decide (str (bs "username") <> []) then str (bs "username") else str (bs "user") in
        if decide (user = []) then []
        else bs "user:" ++ Hex.encode (sha256 (command ++ bs ":" ++ user))
  end.

(** A JSON literal, its quotes written as apostrophes. *)
Definition json (s : string) : bytes := map (fun c => if c =? 39 then 34 else c) (bs s).
Definition transientBody : bytes := json "{'error':'arbiter_unavailable','transient':true}".

Definition deferredOrTransient (now : Z) (key : gostring) (a : authClient) : bytes * Z :=
  match (if decide (key <> []) then authCache a !! key else None) with
  | Some e => if now - ar_cachedAt e <? authStaleTTL then (ar_body e, 200) else (transientBody, 503)
  | None => (transientBody, 503)
  end.

(** First critical section: a login younger than authCacheTTL is replayed. *)
Definition au_lookup (now : Z) (key : gostring) (a : authClient) : option bytes :=
  if decide (key <> []) then
    match authCache a !! key with
    | Some e => if now - ar_cachedAt e <? authCacheTTL then Some (ar_body e) else None
    | None => None
    end
  else None.

(** After the proxied request: [reply] is the arbiter's status and body, or an error
    noticed at [later]. *)
Definition au_finish (now later : Z) (key : gostring) (reply : res (Z * bytes)) (a : authClient)
    : bytes * Z * authClient :=
  match reply with
  | Ok (status, resp) =>
      let raw := LimitReader (Z.shiftl 1 20) resp in
      if negb (status =? 200) || negb (looksLikeAuthSuccess raw) then (raw, status, a)
      else if decide (key <> []) then
        let c := <[key := MkResult raw now]> (authCache a) in
        (raw, 200, MkAuth (cache a) (filter (fun kv => ~ (ar_cachedAt kv.2 < now - authStaleTTL)) c))
      else (raw, 200, a)
  | _ => (deferredOrTransient later key a, a)
  end.

Definition authenticate (now later : Z) (command : gostring) (body : bytes) (reply : res (Z * bytes)) (a : authClient)
    : bytes * Z * authClient :=
  let key := authDeviceKey command body in
  match au_lookup now key a with
  | Some resp => (resp, 200, a)
  | None => au_finish now later key reply a
  end.

Definition cachedAuth (now : Z) (key : gostring) (a : authClient) : option bytes :=
  if decide (key = []) then None
  else match authCache a !! key with
       | None => None
       | Some e => if authStaleTTL <=? now - ar_cachedAt e then None else Some (ar_body e)
       end.

(** ** Interleavings

    Requests in progress: a validation waits for the arbiter with its token, start
    time and stale entry; a login with its key and start time. The log records
    what was answered to the questions about each token, and the logins. *)

Inductive pending := PValidate (token : gostring) (now : Z) (stale : option cacheEntry)
                   | PLogin (key : gostring) (now : Z).

Record system := MkSystem {
  sy_auth : authClient;
  sy_pending : list pending;
  sy_replies : list (gostring * (Z * bytes));       (** replies to the questions about a token: status and body *)
  sy_logins : list (gostring * bytes) }.            (** arbiter's successful logins, by device key *)

(** What a request answered: a verdict on a token, or a login body and status. *)
Inductive answer := ADecided (token : gostring) (v : verdict) | ATransient (token : gostring)
                  | ALogin (key : gostring) (body : bytes) (status : Z) | ANone.

Inductive sstep : system -> answer -> system -> Prop :=
| ss_hit now token v y : vs_lookup now token (sy_auth y) = inl v -> sstep y (ADecided token v) y
| ss_miss now token stale y : vs_lookup now token (sy_auth y) = inr stale ->
    sstep y ANone (MkSystem (sy_auth y) (PValidate token now stale :: sy_pending y) (sy_replies y) (sy_logins y))
| ss_answer token now stale reply y ps : sy_pending y ≡ₚ PValidate token now stale :: ps ->
    let x := vs_finish now token stale (queryArbiter reply) (sy_auth y) in
    sstep y (match fst x with Decided v => ADecided token v | Transient => ATransient token end)
      (MkSystem (snd x) ps (match reply with Ok r => (token, r) :: sy_replies y | _ => sy_replies y end) (sy_logins y))
| ss_login_hit now key body y : au_lookup now key (sy_auth y) = Some body -> sstep y (ALogin key body 200) y
| ss_login_miss now key y : au_lookup now key (sy_auth y) = None ->
    sstep y ANone (MkSystem (sy_auth y) (PLogin key now :: sy_pending y) (sy_replies y) (sy_logins y))
| ss_login_reply key now later status raw y ps : sy_pending y ≡ₚ PLogin key now :: ps ->
    sstep y (ALogin key (fst (fst (au_finish now later key (Ok (status, raw)) (sy_auth y))))
                        (snd (fst (au_finish now later key (Ok (status, raw)) (sy_auth y)))))
      (MkSystem (snd (au_finish now later key (Ok (status, raw)) (sy_auth y))) ps (sy_replies y)
         (if (status =? 200) && looksLikeAuthSuccess (LimitReader (Z.shiftl 1 20) raw)
          then (key, LimitReader (Z.shiftl 1 20) raw) :: sy_logins y else sy_logins y))
| ss_login_error key now later m y ps : sy_pending y ≡ₚ PLogin key now :: ps ->
    sstep y (ALogin key (fst (fst (au_finish now later key (Err m) (sy_auth y))))
                        (snd (fst (au_finish now later key (Err m) (sy_auth y)))))
      (MkSystem (snd (au_finish now later key (Err m) (sy_auth y))) ps (sy_replies y) (sy_logins y)).

Inductive sreach : system -> Prop :=
| sr_init : sreach (MkSystem newAuthClient [] [] [])
| sr_step y ans y' : sreach y -> sstep y ans y' -> sreach y'.

(** The verdict is what [queryArbiter] reads in a reply to a question about that token. *)
Definition vouched (rs : list (gostring * (Z * bytes))) (token : gostring) (v : verdict) : Prop :=
  exists r, (token, r) ∈ rs /\ queryArbiter (Ok r) = Ok v.

Record sys_ok (y : system) : Prop := {
  so_cache : map_Forall (fun t e => vouched (sy_replies y) t (entry_verdict e)) (cache (sy_auth y));
  so_pending : Forall (fun p => match p with
    | PValidate t _ (Some e) => vouched (sy_replies y) t (entry_verdict e)
    | _ => True end) (sy_pending y);
  so_logins : map_Forall (fun k e => (k, ar_body e) ∈ sy_logins y) (authCache (sy_auth y)) }.

Lemma decided_mono rs rs' t v : rs ⊆ rs' -> vouched rs t v -> vouched rs' t v.
Proof. intros Hs (r & Hr & E). exists r. split; [by apply Hs|done]. Qed.

Lemma lookup_stale_ok y now token stale :
  sys_ok y -> vs_lookup now token (sy_auth y) = inr (Some stale) -> vouched (sy_replies y) token (entry_verdict stale).
Proof.
  intros Hy. unfold vs_lookup. destruct (cache (sy_auth y) !! token) as [e|] eqn:E; [|done].
  destruct (_ <? _); [done|]. intros [= <-]. by apply (so_cache _ Hy).
Qed.

(** A verdict read in the reply [r] enters the cache. *)
Lemma vs_reply_ok y token now stale r v ps :
  sys_ok y -> sy_pending y ≡ₚ PValidate token now stale :: ps -> queryArbiter (Ok r) = Ok v ->
  sys_ok (MkSystem (snd (vs_finish now token stale (Ok v) (sy_auth y))) ps ((token, r) :: sy_replies y) (sy_logins y)).
Proof.
  intros [H1 H2 H3] HP Ev. rewrite HP in H2. apply Forall_cons in H2 as [_ H2].
  assert (sy_replies y ⊆ (token, r) :: sy_replies y) as Hs by set_solver.
  split; cbn [vs_finish snd sy_auth sy_pending sy_replies sy_logins cache authCache]; [| |done].
  - intros t e He. unfold evict_before in He. apply map_lookup_filter_Some in He as [He _].
    apply lookup_insert_Some in He as [[<- <-]|[_ He]]; [|eapply decided_mono; [exact Hs | by apply H1]].
    exists r. split; [apply elem_of_cons; by left|]. rewrite Ev. by destruct v.
  - eapply Forall_impl; [exact H2|]. intros [t now' [e|]|k now']; auto. by apply decided_mono.
Qed.

(** Nothing but the log changes when no verdict was had. *)
Lemma vs_error_ok y token now stale reply rs ps :
  sys_ok y -> sy_pending y ≡ₚ PValidate token now stale :: ps -> (forall v, queryArbiter reply <> Ok v) ->
  sy_replies y ⊆ rs ->
  sys_ok (MkSystem (snd (vs_finish now token stale (queryArbiter reply) (sy_auth y))) ps rs (sy_logins y)).
Proof.
  intros [H1 H2 H3] HP Hno Hs. rewrite HP in H2. apply Forall_cons in H2 as [_ H2].
  assert (snd (vs_finish now token stale (queryArbiter reply) (sy_auth y)) = sy_auth y) as ->.
  { unfold vs_finish. destruct (queryArbiter reply) as [v| |]; [by destruct (Hno v) | by destruct stale..]. }
  split; cbn [sy_auth sy_pending sy_replies sy_logins]; [| |done].
  - intros t e He. eapply decided_mono; [exact Hs | by apply H1].
  - eapply Forall_impl; [exact H2|]. intros [t now' [e|]|k now']; auto. by apply decided_mono.
Qed.

Lemma vs_answer_ok y token now stale reply ps :
  sys_ok y -> sy_pending y ≡ₚ PValidate token now stale :: ps ->
  sys_ok (MkSystem (snd (vs_finish now token stale (queryArbiter reply) (sy_auth y))) ps
    (match reply with Ok r => (token, r) :: sy_replies y | _ => sy_replies y end) (sy_logins y)).
Proof.
  intros Hy HP. destruct reply as [r|m|]; [|by apply vs_error_ok..].
  destruct (queryArbiter (Ok r)) as [v|m|] eqn:E; [by apply vs_reply_ok | rewrite <- E..];
    (apply vs_error_ok; [done | done | by rewrite E | set_solver]).
Qed.

Lemma au_reply_ok y key now later status raw ps :
  sys_ok y -> sy_pending y ≡ₚ PLogin key now :: ps ->
  sys_ok (MkSystem (snd (au_finish now later key (Ok (status, raw)) (sy_auth y))) ps (sy_replies y)
    (if (status =? 200) && looksLikeAuthSuccess (LimitReader (Z.shiftl 1 20) raw)
     then (key, LimitReader (Z.shiftl 1 20) raw) :: sy_logins y else sy_logins y)).
Proof.
  intros [H1 H2 H3] HP. rewrite HP in H2. apply Forall_cons in H2 as [_ H2]. unfold au_finish.
  cbv zeta. set (got := LimitReader _ raw). destruct (status =? 200), (looksLikeAuthSuccess got); cbn [negb orb andb snd]; try (by split).
  case_decide; split; cbn [snd sy_auth sy_pending sy_replies sy_logins cache authCache]; try done.
  - intros k e He. apply map_lookup_filter_Some in He as [He _].
    apply lookup_insert_Some in He as [[<- <-]|[_ He]]; apply elem_of_cons; [by left | right; by apply (H3 k)].
  - intros k e He. apply elem_of_cons. right. by apply (H3 k).
Qed.

Lemma sstep_ok y ans y' : sstep y ans y' -> sys_ok y -> sys_ok y'.
Proof.
  destruct 1 as [| now token stale y E| | | | |key now later m y ps HP]; intros Hy; try done.
  - pose proof Hy as [H1 H2 H3]. split; cbn [sy_auth sy_pending sy_replies sy_logins]; try done. constructor; [|done].
    destruct stale; [|done]. by eapply lookup_stale_ok.
  - by apply vs_answer_ok.
  - pose proof Hy as [H1 H2 H3]. split; cbn [sy_auth sy_pending sy_replies sy_logins]; try done. by constructor.
  - by apply au_reply_ok.
  - pose proof Hy as [H1 H2 H3]. rewrite HP in H2. apply Forall_cons in H2 as [_ H2].
    cbn [au_finish]. destruct (deferredOrTransient later key (sy_auth y)). by split.
Qed.

Lemma sreach_ok y : sreach y -> sys_ok y.
Proof.
  induction 1 as [|y ans y' _ IH Hst]; [|by eapply sstep_ok].
  split; [apply map_Forall_empty | constructor | apply map_Forall_empty].
Qed.

Lemma deferred_ok y now key b st :
  sys_ok y -> deferredOrTransient now key (sy_auth y) = (b, st) -> st = 200 -> (key, b) ∈ sy_logins y.
Proof.
  intros Hy. unfold deferredOrTransient. case_decide; [|by intros [= <- <-]].
  destruct (authCache (sy_auth y) !! key) as [e|] eqn:E; [|by intros [= <- <-]].
  destruct (_ <? _); intros [= <- <-] Hst; [|done]. by apply (so_logins _ Hy).
Qed.

Lemma vouched_status rs token v : vouched rs token v ->
  exists status raw, (token, (status, raw)) ∈ rs /\ queryArbiter (Ok (status, raw)) = Ok v.
Proof. intros ([status raw] & H). by exists status, raw. Qed.

Lemma vs_answer_vouched y token now stale reply ps v :
  sys_ok y -> sy_pending y ≡ₚ PValidate token now stale :: ps ->
  fst (vs_finish now token stale (queryArbiter reply) (sy_auth y)) = Decided v ->
  exists status raw, (token, (status, raw)) ∈ match reply with Ok r => (token, r) :: sy_replies y | _ => sy_replies y end
    /\ queryArbiter (Ok (status, raw)) = Ok v.
Proof.
  intros Hy HP Hv. pose proof (so_pending _ Hy) as Hp. rewrite HP in Hp. apply Forall_cons in Hp as [Hst _].
  assert (sy_replies y ⊆ match reply with Ok r => (token, r) :: sy_replies y | _ => sy_replies y end) as Hs
    by (destruct reply; set_solver).
  apply vouched_status. unfold vs_finish in Hv. destruct (queryArbiter reply) as [v'|m|] eqn:E; cbn [fst] in Hv.
  - injection Hv as ->. destruct reply as [r| |]; try done. exists r. split; [apply elem_of_cons; by left|done].
  - destruct stale as [e|]; [|done]. injection Hv as <-. by eapply decided_mono.
  - destruct stale as [e|]; [|done]. injection Hv as <-. by eapply decided_mono.
Qed.

(** C12: The exit never makes up an answer. In every interleaving of requests, cache hits,
    replies and failed queries, each decision on a session token is what [queryArbiter] reads in
    the body of a reply to a query about that very token, of whatever HTTP status (so an error
    body, which carries no verdict, is read as one: [error_reply_admits]); and each login
    answered with 200 is a body the arbiter gave with status 200 for that device key, or a
    reply without a session, passed on. *)
Theorem answers_from_arbiter y ans y' :
  sreach y -> sstep y ans y' ->
  match ans with
  | ADecided token v => exists status raw, (token, (status, raw)) ∈ sy_replies y' /\ queryArbiter (Ok (status, raw)) = Ok v
  | ALogin key body 200 => (key, body) ∈ sy_logins y' \/ looksLikeAuthSuccess body = false
  | _ => True
  end.
Proof.
  intros Hr%sreach_ok Hst. pose proof (sstep_ok _ _ _ Hst Hr) as Hr'.
  destruct Hst as [now token v y E| |token now stale reply y ps HP|now key body y E|
    |key now later status raw y ps HP|key now later m y ps HP]; try done.
  - unfold vs_lookup in E. destruct (cache (sy_auth y) !! token) as [e|] eqn:Ec; [|done].
    destruct (_ <? _); [|done]. injection E as <-. apply vouched_status. by apply (so_cache _ Hr).
  - destruct (fst x) as [v|] eqn:E; [|done]. by eapply vs_answer_vouched.
  - left. unfold au_lookup in E. case_decide; [|done]. destruct (authCache (sy_auth y) !! key) as [e|] eqn:Ec; [|done].
    destruct (_ <? _); [|done]. injection E as <-. by apply (so_logins _ Hr).
  - unfold au_finish. cbv zeta. set (got := LimitReader _ raw). destruct (looksLikeAuthSuccess got) eqn:El.
    + destruct (Z.eqb_spec status 200) as [->|Hne]; cbn [negb orb andb fst snd sy_logins].
      * case_decide; cbn [fst snd]; left; apply elem_of_cons; by left.
      * repeat case_match; auto; lia.
    + rewrite orb_true_r. cbn [fst snd]. repeat case_match; auto.
  - cbn [au_finish]. destruct (deferredOrTransient later key (sy_auth y)) as [b st] eqn:Ed. cbn [fst snd sy_logins].
    assert (st = 200 -> (key, b) ∈ sy_logins y) by (by eapply deferred_ok). repeat case_match; auto.
Qed.

(** ** One validation, branch by branch *)

(** ValidateSession answers from the cache, without asking, exactly when its
    entry is under a minute old; otherwise what is read in the reply is returned and cached as
    of now; when there is no reply, or none that parses, the last verdict known, trusted or
    denied, is repeated and the cache left alone, and only a token never seen is
    transient. *)
Theorem validateSession_spec now token reply a :
  match cache a !! token with
  | Some e =>
      if now - e_validatedAt e <? localCacheTTL
      then validateSession now token reply a = (Decided (entry_verdict e), a)
      else match queryArbiter reply with
           | Ok v => fst (validateSession now token reply a) = Decided v
           | _ => validateSession now token reply a = (Decided (entry_verdict e), a)
           end
  | None =>
      match queryArbiter reply with
      | Ok v => fst (validateSession now token reply a) = Decided v
      | _ => validateSession now token reply a = (Transient, a)
      end
  end
  /\ (forall v, queryArbiter reply = Ok v -> (forall e, cache a !! token = Some e -> localCacheTTL <= now - e_validatedAt e) ->
       let a' := snd (validateSession now token reply a) in
       cache a' !! token = Some (MkEntry (v_username v) (v_clientID v) now (v_denied v))
       /\ map_Forall (fun _ e => now - localStaleTTL <= e_validatedAt e) (cache a')).
Proof.
  split.
  - unfold validateSession, vs_lookup. destruct (cache a !! token) as [e|]; [destruct (_ <? _); [done|]|];
      by destruct (queryArbiter reply).
  - intros v E Hold.
    assert (snd (validateSession now token reply a) = snd (vs_finish now token None (Ok v) a)) as ->.
    { unfold validateSession, vs_lookup. rewrite E. destruct (cache a !! token) as [e|] eqn:Ec; [|done].
      by rewrite (proj2 (Z.ltb_ge _ _)) by (by apply Hold). }
    cbn [vs_finish snd cache]. split.
    + unfold evict_before. apply map_lookup_filter_Some. rewrite lookup_insert_eq. split; [done|].
      simpl. unfold localStaleTTL, hour, minute, second. lia.
    + intros k e' He. unfold evict_before in He. apply map_lookup_filter_Some in He as [_ He]. simpl in He. lia.
Qed.

(** The three-hour limit on stale verdicts is not enforced: while the arbiter is
    unreachable a cached verdict is honoured at any age, because only a successful
    query evicts. *)
Theorem stale_verdict_any_age token e age m a :
  cache a !! token = Some e -> localStaleTTL <= age ->
  validateSession (e_validatedAt e + age) token (Err m) a = (Decided (entry_verdict e), a).
Proof.
  intros E Hage. unfold validateSession, vs_lookup. rewrite E.
  rewrite (proj2 (Z.ltb_ge _ _)); [done|]. unfold localStaleTTL, localCacheTTL, hour, minute, second in *. lia.
Qed.

(** The answer the arbiter gives to a query whose node token it cannot look up, for
    instance because its database failed: an error, status 401. *)
Definition unauthorized_reply : Z * bytes := (401, json "{'error':'unauthorized'}").

(** An error reply is read as a verdict: the status is ignored and the absent members are
    zero, so a token the arbiter said nothing about is admitted as user "", not denied and not
    transient, and kept in the cache, over any verdict it held. *)
Theorem error_reply_admits now token a :
  (forall e, cache a !! token = Some e -> localCacheTTL <= now - e_validatedAt e) ->
  fst (validateSession now token (Ok unauthorized_reply) a) = Decided (MkVerdict [] [] false)
  /\ cache (snd (validateSession now token (Ok unauthorized_reply) a)) !! token = Some (MkEntry [] [] now false).
Proof.
  intros Hold. assert (queryArbiter (Ok unauthorized_reply) = Ok (MkVerdict [] [] false)) as E by (vm_compute; reflexivity).
  destruct (validateSession_spec now token (Ok unauthorized_reply) a) as [H1 H2]. rewrite E in H1. split.
  - destruct (cache a !! token) as [e|] eqn:Ec; [|done].
    by rewrite (proj2 (Z.ltb_ge _ _)) in H1 by (by apply Hold).
  - by apply (H2 _ E).
Qed.

(** The login cache does not look at credentials: after one login the arbiter
    accepted, every request of the next five minutes that yields the same cache key
    (the same device id, or the same command and user name) gets that session back
    with status 200, whatever its password or key and whatever the arbiter would say. *)
Theorem login_replayed_without_credentials t later command body raw a t' later' body' reply' :
  authDeviceKey command body <> [] -> authDeviceKey command body' = authDeviceKey command body ->
  au_lookup t (authDeviceKey command body) a = None -> looksLikeAuthSuccess raw = true ->
  lenZ raw <= Z.shiftl 1 20 ->
  t <= t' < t + authCacheTTL ->
  let a' := snd (authenticate t later command body (Ok (200, raw)) a) in
  authenticate t' later' command body' reply' a' = (raw, 200, a').
Proof.
  intros Hk Ek Hmiss Hok Hfit Ht a'. subst a'.
  assert (authCache (snd (authenticate t later command body (Ok (200, raw)) a)) !! authDeviceKey command body
    = Some (MkResult raw t)) as Hc.
  { unfold authenticate. rewrite Hmiss. unfold au_finish. rewrite (LimitReader_fits _ _ Hfit), Hok. cbn [negb orb Z.eqb Pos.eqb].
    rewrite decide_True by done. cbn [snd authCache]. apply map_lookup_filter_Some. rewrite lookup_insert_eq.
    split; [done|]. simpl. unfold authStaleTTL, hour, minute, second. lia. }
  unfold authenticate at 1. rewrite Ek. unfold au_lookup. rewrite decide_True by done. rewrite Hc.
  cbn [ar_cachedAt ar_body]. rewrite (proj2 (Z.ltb_lt _ _)) by lia. done.
Qed.

(** A failed or unreachable arbiter never lets an unknown device in, and a login
    older than a day is never replayed: when the query fails the answer is the cached
    body with 200 exactly when it is under 24 hours old, and the transient 503
    otherwise; a rejection by the arbiter is passed on and caches nothing. *)
Theorem authenticate_failures now later command body a :
  au_lookup now (authDeviceKey command body) a = None ->
  (forall m, authenticate now later command body (Err m) a
     = (match (if decide (authDeviceKey command body <> []) then authCache a !! authDeviceKey command body else None) with
        | Some e => if later - ar_cachedAt e <? authStaleTTL then (ar_body e, 200) else (transientBody, 503)
        | None => (transientBody, 503)
        end, a))
  /\ (forall status resp, let raw := LimitReader (Z.shiftl 1 20) resp in
       status <> 200 \/ looksLikeAuthSuccess raw = false ->
       authenticate now later command body (Ok (status, resp)) a = (raw, status, a)).
Proof.
  intros Hmiss. unfold authenticate. rewrite Hmiss. split; [done|].
  intros status resp Hrej. unfold au_finish. cbv zeta. destruct Hrej as [Hs| ->].
  - by rewrite (proj2 (Z.eqb_neq status 200)).
  - by rewrite orb_true_r.
Qed.
End auth.

(** A codec for the examples: the body is the device id, a reply its own session. *)
#[export] Instance toy_auth_codec : AuthCodec := {|
  fields body := Some (fun k => if bool_decide (k = bs "device_id") then body else []);
  session_of raw := Some raw;
  sha256 m := m |}.

Definition test_verdict : verdict := MkVerdict (bs "bob") (bs "7") true.
Definition test_reply : Z * bytes := (200, json "{'user':'bob','client_id':'7','denied':true}").
Definition test_system : system :=
  MkSystem (snd (vs_finish 0 (bs "tok") None (queryArbiter (Ok test_reply)) newAuthClient)) [] [(bs "tok", test_reply)] [].

Lemma test_system_reach : sreach test_system.
Proof.
  eapply sr_step with (y := MkSystem newAuthClient [PValidate (bs "tok") 0 None] [] []).
  - eapply sr_step; [apply sr_init|]. by apply ss_miss.
  - exact (ss_answer (bs "tok") 0 None (Ok test_reply) (MkSystem newAuthClient [PValidate (bs "tok") 0 None] [] []) [] (reflexivity _)).
Qed.

Lemma answers_from_arbiter_witness :
  exists status raw, (bs "tok", (status, raw)) ∈ sy_replies test_system /\ queryArbiter (Ok (status, raw)) = Ok test_verdict.
Proof.
  refine (answers_from_arbiter test_system (ADecided (bs "tok") test_verdict) test_system test_system_reach _).
  apply (ss_hit 5). vm_compute. reflexivity.
Defined.

Lemma stale_verdict_any_age_witness :
  validateSession (0 + 1000 * hour) (bs "tok") (Err "down") (sy_auth test_system)
  = (Decided test_verdict, sy_auth test_system).
Proof.
  apply (stale_verdict_any_age (bs "tok") (MkEntry (bs "bob") (bs "7") 0 true) (1000 * hour) "down" (sy_auth test_system));
    vm_compute; (reflexivity || congruence).
Defined.

Lemma error_reply_admits_witness :
  fst (validateSession (2 * minute) (bs "tok") (Ok unauthorized_reply) (sy_auth test_system)) = Decided (MkVerdict [] [] false)
  /\ cache (snd (validateSession (2 * minute) (bs "tok") (Ok unauthorized_reply) (sy_auth test_system))) !! bs "tok"
     = Some (MkEntry [] [] (2 * minute) false).
Proof. apply error_reply_admits. intros e E. vm_compute in E. injection E as <-. vm_compute. congruence. Defined.

Lemma login_replayed_without_credentials_witness :
  let a' := snd (authenticate 0 0 (bs "verifyPassword") (bs "dev1") (Ok (200, bs "S")) newAuthClient) in
  authenticate (4 * minute) 0 (bs "verifyPassword") (bs "dev1") (Ok (403, bs "bad password")) a' = (bs "S", 200, a').
Proof. apply login_replayed_without_credentials; vm_compute; (reflexivity || congruence || (split; congruence)). Defined.

Lemma authenticate_failures_witness :
  authenticate 0 1 (bs "verifyPassword") (bs "dev1") (Err "down") newAuthClient = (transientBody, 503, newAuthClient)
  /\ forall status resp, let raw := LimitReader (Z.shiftl 1 20) resp in status <> 200 \/ looksLikeAuthSuccess raw = false ->
     authenticate 0 1 (bs "verifyPassword") (bs "dev1") (Ok (status, resp)) newAuthClient = (raw, status, newAuthClient).
Proof.
  pose proof (authenticate_failures 0 1 (bs "verifyPassword") (bs "dev1") newAuthClient) as H.
  destruct (H ltac:(vm_compute; reflexivity)) as [H1 H2]. split; [exact (H1 "down"%string) | exact H2].
Defined.
End Auth.
