(* ===== verification/ExitPolicy.v ===== *)
(** * snc-exit: signed policy lists

    The five lists the arbiter signs for exits: the address blacklist
    (blacklist.go), the torrent egress list (torrent_allowed.go), the whitelist
    (whitelist.go), the per-region service blocks (service_blocks.go) and the
    anonymous-bootstrap allowlist (anon_bootstrap.go). Each cache is replaced as a
    whole by a list that parsed and verified. JSON decoding of a list and the
    canonical encoding its signature covers are parameters. *)

From stdpp Require Import base list gmap strings fin_maps fin_sets.
From Stdlib Require Import ZArith Lia.
From S2P Require Import Prelude GoLib.

Module Policy.

(** ** Rules *)

(** A rule as it is on the wire. *)
Record wire_entry := MkWire { we_type : gostring; we_value : gostring }.

Record rule := MkRule { r_type : gostring; r_value : gostring; r_network : option Net.IPNet }.

(** The wire structs of the five lists. *)
Record blacklist_wire := MkBlWire { bw_ts : Z; bw_addrs : list gostring; bw_sig : gostring }.
Record torrent_wire := MkTorrentWire {
  tw_ts : Z; tw_addrs : list gostring; tw_self_allowed : bool; tw_sig : gostring }.
Record rules_wire := MkRulesWire { rw_ts : Z; rw_entries : list wire_entry; rw_sig : gostring }.
Record blocks_wire := MkBlocksWire { sw_ts : Z; sw_entries : list (wire_entry * list gostring); sw_sig : gostring }.
Record anon_wire := MkAnonWire { aw_ts : Z; aw_token : gostring; aw_entries : list wire_entry; aw_sig : gostring }.

Class PolicyCodec := {
  un_blacklist : bytes -> option blacklist_wire;
  un_torrent : bytes -> option torrent_wire;
  un_rules : bytes -> option rules_wire;
  un_blocks : bytes -> option blocks_wire;
  un_anon : bytes -> option anon_wire;
  canon_addrs : Z -> list gostring -> option bytes;
  canon_rules : Z -> list wire_entry -> option bytes;
  canon_blocks : Z -> list (wire_entry * list gostring) -> option bytes;
  canon_anon : Z -> gostring -> list wire_entry -> option bytes }.

Section policy.
Context {U : Unicode} {ED : Ed25519} {PC : PolicyCodec}.

(** The signature check every list goes through; no key means no check. *)
Definition check_sig (pubkey : option bytes) (canonical : option bytes) (sig : gostring) : res () :=
  match pubkey with
  | None => Ok ()
  | Some pub =>
      match canonical with
      | None => Err "marshal canonical"
      | Some c =>
          match Base64.decode sig with
          | Some s =>
              if (length s =? 64)%nat then
                if ed25519_verify pub c s then Ok () else Err "signature verification failed"
              else Err "invalid signature encoding"
          | None => Err "invalid signature encoding"
          end
      end
  end.

(** The normalisation of one entry; [None] when it is skipped. *)
Definition parse_rule (e : wire_entry) : option rule :=
  if decide (we_type e = bs "domain") then Some (MkRule (we_type e) (Strings.ToLower (we_value e)) None)
  else if decide (we_type e = bs "wildcard") then
    Some (MkRule (we_type e) (Strings.ToLower (Strings.TrimPrefix (we_value e) (bs "*"))) None)
  else if decide (we_type e = bs "cidr") then
    n ← Net.ParseCIDR (we_value e); Some (MkRule (we_type e) (we_value e) (Some n))
  else None.

Definition lowered_set (addrs : list gostring) : gset gostring :=
  list_to_set (Strings.ToLower <$> List.filter (fun a => negb (bool_decide (a = []))) addrs).

(** Does the rule match the host, or the address when there is one? *)
Definition wildcard_match (host value : gostring) : bool :=
  (length value <? length host)%nat && Strings.HasSuffix (Strings.ToLower host) value.
Definition cidr_match (ip : gostring) (n : option Net.IPNet) : bool :=
  negb (bool_decide (ip = [])) &&
  match n, Net.ParseIP ip with
  | Some n, Some x => Net.Contains n x
  | _, _ => false
  end.

(** The body of the arbiter's answer, read up to [limit]; the reply is its status and body. *)
Definition fetch_body (limit : Z) (reply : res (Z * bytes)) : res bytes :=
  '(status, body) ← reply;
  if negb (status =? 200) then Err "status" else Ok (LimitReader limit body).
(** A cache is replaced only by a list that was read, parsed and verified. *)
Definition refresh {A} (new : res A) (old : A) : res () * A :=
  match new with
  | Ok a => (Ok (), a)
  | Err e => (Err e, old)
  | Panic => (Panic, old)
  end.
(** The age check of [loadFromDisk]: a list older than a day is refused; [unix] is the clock in
    seconds. *)
Definition listStaleTTL : Z := 24 * hour.
Definition not_stale {A} (unix : Z) (l : Z * A) : res A :=
  let '(ts, a) := l in
  if listStaleTTL <? (unix - ts) * second then Err "disk cache too old" else Ok a.

(** ** blacklist.go *)
Definition blacklist_limit : Z := Z.shiftl 1 16.
Definition blacklist_parse (pubkey : option bytes) (data : bytes) : res (gset gostring) :=
  match un_blacklist data with
  | None => Err "unmarshal"
  | Some w =>
      check_sig pubkey (canon_addrs (bw_ts w) (bw_addrs w)) (bw_sig w) ≫= fun _ =>
      Ok (lowered_set (bw_addrs w))
  end.
Definition blacklist_fetch (pubkey : option bytes) (reply : res (Z * bytes)) (addrs : gset gostring) : res () * gset gostring :=
  refresh (data ← fetch_body blacklist_limit reply; blacklist_parse pubkey data) addrs.
Definition IsBlacklisted (host : gostring) (addrs : gset gostring) : bool :=
  bool_decide (Strings.ToLower host ∈ addrs).

(** ** torrent_allowed.go *)
Record torrentAllowed := MkTorrent { ta_blocked : gset gostring; ta_selfAllowed : bool }.
Definition newTorrentAllowed : torrentAllowed := MkTorrent ∅ true.
Definition torrent_parse (pubkey : option bytes) (data : bytes) : res torrentAllowed :=
  match un_torrent data with
  | None => Err "unmarshal"
  | Some w =>
      check_sig pubkey (canon_addrs (tw_ts w) (tw_addrs w)) (tw_sig w) ≫= fun _ =>
      Ok (MkTorrent (lowered_set (tw_addrs w)) (tw_self_allowed w))
  end.
Definition torrent_limit : Z := Z.shiftl 1 16.
Definition torrent_fetch (pubkey : option bytes) (reply : res (Z * bytes)) (t : torrentAllowed) : res () * torrentAllowed :=
  refresh (data ← fetch_body torrent_limit reply; torrent_parse pubkey data) t.
Definition SelfAllowed (t : torrentAllowed) : bool := ta_selfAllowed t.
Definition IsAllowed_torrent (addr : gostring) (t : torrentAllowed) : bool :=
  negb (bool_decide (Strings.ToLower addr ∈ ta_blocked t)).

(** ** whitelist.go *)
Definition whitelist_limit : Z := Z.shiftl 1 20.
(** With the timestamp of the list, which [loadFromDisk] reads again. *)
Definition whitelist_parse (pubkey : option bytes) (data : bytes) : res (Z * list rule) :=
  match un_rules data with
  | None => Err "unmarshal"
  | Some w =>
      check_sig pubkey (canon_rules (rw_ts w) (rw_entries w)) (rw_sig w) ≫= fun _ =>
      Ok (rw_ts w, omap parse_rule (rw_entries w))
  end.
Definition whitelist_fetch (pubkey : option bytes) (reply : res (Z * bytes)) (es : list rule) : res () * list rule :=
  refresh (data ← fetch_body whitelist_limit reply; l ← whitelist_parse pubkey data; Ok (snd l)) es.
Definition whitelist_load (pubkey : option bytes) (unix : Z) (file : res bytes) (es : list rule) : res () * list rule :=
  refresh (data ← file; l ← whitelist_parse pubkey data; not_stale unix l) es.
Definition whitelist_match (host ip : gostring) (e : rule) : bool :=
  if decide (r_type e = bs "domain") then Strings.EqualFold host (r_value e)
  else if decide (r_type e = bs "wildcard") then wildcard_match host (r_value e)
  else if decide (r_type e = bs "cidr") then cidr_match ip (r_network e)
  else false.
Definition IsWhitelisted (host ip : gostring) (entries : list rule) : bool :=
  existsb (whitelist_match host ip) entries.

(** ** anon_bootstrap.go and service_blocks.go match a host only when it is not empty *)
Definition host_match (host ip : gostring) (e : rule) : bool :=
  if decide (r_type e = bs "domain") then negb (bool_decide (host = [])) && Strings.EqualFold host (r_value e)
  else if decide (r_type e = bs "wildcard") then negb (bool_decide (host = [])) && wildcard_match host (r_value e)
  else if decide (r_type e = bs "cidr") then cidr_match ip (r_network e)
  else false.

Record anonBootstrap := MkAnon { ab_token : gostring; ab_entries : list rule }.
Definition anon_parse (pubkey : option bytes) (data : bytes) : res (Z * anonBootstrap) :=
  match un_anon data with
  | None => Err "unmarshal"
  | Some w =>
      check_sig pubkey (canon_anon (aw_ts w) (aw_token w) (aw_entries w)) (aw_sig w) ≫= fun _ =>
      Ok (aw_ts w, MkAnon (aw_token w) (omap parse_rule (aw_entries w)))
  end.
Definition anon_limit : Z := Z.shiftl 1 20.
Definition anon_fetch (pubkey : option bytes) (reply : res (Z * bytes)) (a : anonBootstrap) : res () * anonBootstrap :=
  refresh (data ← fetch_body anon_limit reply; l ← anon_parse pubkey data; Ok (snd l)) a.
Definition anon_load (pubkey : option bytes) (unix : Z) (file : res bytes) (a : anonBootstrap) : res () * anonBootstrap :=
  refresh (data ← file; l ← anon_parse pubkey data; not_stale unix l) a.
Definition IsBootstrapToken (token : gostring) (a : anonBootstrap) : bool :=
  if decide (token = []) then false
  else if decide (ab_token a = []) then false
  else if negb (length (ab_token a) =? length token)%nat then false
  else bool_decide (ab_token a = token).
Definition IsAllowed_anon (host ip : gostring) (a : anonBootstrap) : bool :=
  existsb (host_match host ip) (ab_entries a).

Definition blocks_parse (pubkey : option bytes) (data : bytes) : res (Z * list (rule * gset gostring)) :=
  match un_blocks data with
  | None => Err "unmarshal"
  | Some w =>
      check_sig pubkey (canon_blocks (sw_ts w) (sw_entries w)) (sw_sig w) ≫= fun _ =>
      Ok (sw_ts w, omap (fun '(e, rs) => r ← parse_rule e; Some (r, list_to_set (Strings.ToUpper <$> rs))) (sw_entries w))
  end.
Definition blocks_limit : Z := Z.shiftl 1 20.
Definition blocks_fetch (pubkey : option bytes) (reply : res (Z * bytes)) (es : list (rule * gset gostring))
    : res () * list (rule * gset gostring) :=
  refresh (data ← fetch_body blocks_limit reply; l ← blocks_parse pubkey data; Ok (snd l)) es.
Definition blocks_load (pubkey : option bytes) (unix : Z) (file : res bytes) (es : list (rule * gset gostring))
    : res () * list (rule * gset gostring) :=
  refresh (data ← file; l ← blocks_parse pubkey data; not_stale unix l) es.
Definition IsBlockedForRegion (host ip region : gostring) (entries : list (rule * gset gostring)) : bool :=
  if decide (region = []) then false
  else existsb (fun '(e, regions) => bool_decide (region ∈ (regions : gset gostring)) && host_match host ip e) entries.

(** ** What can enter a cache *)

Lemma check_sig_ok pub canonical sig :
  check_sig (Some pub) canonical sig = Ok () ->
  exists c s, canonical = Some c /\ Base64.decode sig = Some s /\ length s = 64%nat /\ ed25519_verify pub c s = true.
Proof.
  unfold check_sig. destruct canonical as [c|]; [|done]. destruct (Base64.decode sig) as [s|]; [|done].
  destruct (Nat.eqb_spec (length s) 64); [|done]. destruct (ed25519_verify pub c s) eqn:E; [|done]. eauto 7.
Qed.

(** A reply is acceptable when it decodes to an anonymous-bootstrap list that the key signed. *)
Definition anon_signed (pub : bytes) (data : bytes) (a : anonBootstrap) : Prop :=
  exists w c s, un_anon data = Some w /\ canon_anon (aw_ts w) (aw_token w) (aw_entries w) = Some c
    /\ Base64.decode (aw_sig w) = Some s /\ ed25519_verify pub c s = true
    /\ a = MkAnon (aw_token w) (omap parse_rule (aw_entries w)).

Lemma anon_parse_signed pub data ts a : anon_parse (Some pub) data = Ok (ts, a) -> anon_signed pub data a.
Proof.
  unfold anon_parse. destruct (un_anon data) as [w|] eqn:Ew; [|done].
  destruct (check_sig _ _ _) as [[]| |] eqn:Es; try done. intros [= <- <-].
  apply check_sig_ok in Es as (c & s & Ec & Eb & _ & Ev). by exists w, c, s.
Qed.

(** The events of the anonymous-bootstrap cache. *)
Inductive anon_ev := AnonFetch (reply : res (Z * bytes)) | AnonLoad (unix : Z) (file : res bytes).
Definition anon_run (pubkey : option bytes) (e : anon_ev) (a : anonBootstrap) : anonBootstrap :=
  match e with
  | AnonFetch reply => snd (anon_fetch pubkey reply a)
  | AnonLoad unix file => snd (anon_load pubkey unix file a)
  end.
Definition ev_data (e : anon_ev) : res bytes := match e with AnonFetch r => fetch_body anon_limit r | AnonLoad _ r => r end.

(** With a key configured, the shared bootstrap token and its allowlist are only
    ever what the arbiter signed: after any sequence of fetches and disk loads, failed
    or forged ones included, the cache is either still empty, admitting nobody, or the
    content of one reply whose signature over timestamp, token and entries verified. *)
Theorem anon_cache_signed pub evs :
  let a := fold_left (fun a e => anon_run (Some pub) e a) evs (MkAnon [] []) in
  (a = MkAnon [] [] /\ forall token, IsBootstrapToken token a = false)
  \/ exists e data, e ∈ evs /\ ev_data e = Ok data /\ anon_signed pub data a.
Proof.
  cbn zeta. induction evs as [|e evs IH] using rev_ind.
  - left. split; [done|]. intros token. unfold IsBootstrapToken. simpl. by case_decide.
  - rewrite fold_left_app. cbn [fold_left]. set (a := fold_left _ evs _) in *.
    assert (anon_run (Some pub) e a = a
      \/ exists data, ev_data e = Ok data /\ anon_signed pub data (anon_run (Some pub) e a)) as Hrun.
    { destruct e as [reply|unix file]; cbn [anon_run ev_data].
      - unfold anon_fetch. destruct (fetch_body anon_limit reply) as [data| |]; cbn [mbind res_bind]; try (by left).
        destruct (anon_parse (Some pub) data) as [[ts a']| |] eqn:E; try (by left).
        right. exists data. split; [done|]. by eapply anon_parse_signed.
      - unfold anon_load. destruct file as [data| |]; cbn [mbind res_bind]; try (by left).
        destruct (anon_parse (Some pub) data) as [[ts a']| |] eqn:E; try (by left).
        cbn [mbind res_bind]. unfold not_stale. destruct (_ <? _); [by left|]. right. exists data. split; [done|]. by eapply anon_parse_signed. }
    destruct Hrun as [-> | (data & Hd & Hs)].
    + destruct IH as [IH|(e' & data & He & Hd & Hs)]; [by left|]. right. exists e', data.
      split_and!; [apply elem_of_app; by left | done | done].
    + right. exists e, data. split_and!; [|done|done]. apply elem_of_app. right. by apply list_elem_of_singleton.
Qed.

(** The signature of the torrent list does not cover the flag that decides this
    exit's own policy: flipping self_allowed in a list the exit accepts gives a list it
    accepts as well, with the same blocked addresses and the opposite policy. *)
Theorem torrent_flag_unsigned pubkey data data' w t :
  un_torrent data = Some w -> torrent_parse pubkey data = Ok t ->
  un_torrent data' = Some (MkTorrentWire (tw_ts w) (tw_addrs w) (negb (tw_self_allowed w)) (tw_sig w)) ->
  torrent_parse pubkey data' = Ok (MkTorrent (ta_blocked t) (negb (ta_selfAllowed t))).
Proof.
  unfold torrent_parse. intros Ew Ht Ew'. rewrite Ew in Ht. rewrite Ew'. cbn [tw_ts tw_addrs tw_sig tw_self_allowed].
  destruct (check_sig _ _ _); [|done..]. cbn [mbind res_bind] in *. by injection Ht as <-.
Qed.

(** A wildcard entry "*.d" of the bootstrap allowlist (for an ASCII d) admits exactly the hosts
    that, lower-cased, end in ".d" after at least one more byte: not d itself, and no
    host that merely ends in d. *)
Theorem wildcard_admits_subdomains d host token :
  Strings.is_ascii d = true -> host <> [] ->
  let r := MkWire (bs "wildcard") (bs "*." ++ d) in
  IsAllowed_anon host [] (MkAnon token (omap parse_rule [r])) = true
  <-> (length d + 1 < length host)%nat /\ exists q, Strings.ToLower host = q ++ bs "." ++ Strings.ToLower d.
Proof.
  intros Hd Hh r. unfold IsAllowed_anon. cbn [ab_entries]. change (omap parse_rule [r]) with
    [MkRule (bs "wildcard") (Strings.ToLower (Strings.TrimPrefix (bs "*." ++ d) (bs "*"))) None].
  assert (Strings.TrimPrefix (bs "*." ++ d) (bs "*") = bs "." ++ d) as -> by done.
  assert (Strings.ToLower (bs "." ++ d) = bs "." ++ Strings.ToLower d) as ->.
  { unfold Strings.ToLower. assert (Strings.is_ascii (bs "." ++ d) = true) as -> by exact Hd. by rewrite Hd. }
  cbn [existsb]. rewrite orb_false_r. unfold host_match. cbn [r_type r_value].
  rewrite decide_False, decide_True by done. rewrite bool_decide_false by done. cbn [negb andb].
  unfold wildcard_match. rewrite andb_true_iff, Nat.ltb_lt, Strings.HasSuffix_spec.
  assert (length (bs "." ++ Strings.ToLower d) = (length d + 1)%nat) as ->; [|done].
  rewrite length_app. unfold Strings.ToLower. rewrite Hd. rewrite length_map. simpl. lia.
Qed.
End policy.

(** A codec for the examples: a one-byte body selects one of two torrent lists. *)
#[export] Instance toy_policy_codec : PolicyCodec := {|
  un_blacklist _ := None;
  un_torrent b := Some (MkTorrentWire 1 [bs "10.0.0.1"] (bool_decide (b = [1]))
    (bs "BwcHBwcHBwcHBwcHBwcHBwcHBwcHBwcHBwcHBwcHBwcHBwcHBwcHBwcHBwcHBwcHBwcHBwcHBwcHBwcHBwcHBw"));
  un_rules _ := None; un_blocks _ := None; un_anon _ := None;
  canon_addrs _ _ := Some (bs "c"); canon_rules _ _ := None; canon_blocks _ _ := None; canon_anon _ _ _ := None |}.

Lemma torrent_flag_unsigned_witness :
  torrent_parse (Some (replicate 32 7)) [1] = Ok (MkTorrent (lowered_set [bs "10.0.0.1"]) true)
  /\ torrent_parse (Some (replicate 32 7)) [2] = Ok (MkTorrent (lowered_set [bs "10.0.0.1"]) false).
Proof.
  split; [vm_compute; reflexivity|].
  apply (torrent_flag_unsigned (Some (replicate 32 7)) [1] [2]
    (MkTorrentWire 1 [bs "10.0.0.1"] true
      (bs "BwcHBwcHBwcHBwcHBwcHBwcHBwcHBwcHBwcHBwcHBwcHBwcHBwcHBwcHBwcHBwcHBwcHBwcHBwcHBwcHBwcHBw"))
    (MkTorrent (lowered_set [bs "10.0.0.1"]) true)); vm_compute; reflexivity.
Defined.

Lemma wildcard_admits_subdomains_witness :
  IsAllowed_anon (bs "A.Navlink.net") [] (MkAnon [] (omap parse_rule [MkWire (bs "wildcard") (bs "*." ++ bs "navlink.net")])) = true
  <-> (length (bs "navlink.net") + 1 < length (bs "A.Navlink.net"))%nat
      /\ exists q, Strings.ToLower (bs "A.Navlink.net") = q ++ bs "." ++ Strings.ToLower (bs "navlink.net").
Proof. apply (wildcard_admits_subdomains (bs "navlink.net") (bs "A.Navlink.net") []); vm_compute; (reflexivity || congruence). Defined.
End Policy.
