(* ===== verification/ExitUdp.v ===== *)
(** * snc-exit: UDP relay sessions (src/snc-exit/udp_sessions.go)

    A UDP session is keyed by connection id and destination, owns a socket and a
    channel of 256 datagrams that its read loop fills and relay requests drain. *)

From stdpp Require Import base list gmap strings fin_maps fin_sets.
From Stdlib Require Import ZArith Lia.
From S2P Require Import Prelude GoLib ConnLedger.

Module UdpSession.

Definition udpSessionTimeout : Z := 60 * second.
Definition recvCap : nat := 256.

Record udpSession := MkUdp {
  conn : nat;
  lastSeen : Z;
  username : gostring;
  recvCh : list bytes }.

(** udpSessionKey: connection id and destination. *)
Abbreviation udpSessionKey := (gostring * gostring)%type.

#[export] Instance udp_conn : HasConn udpSession := conn.
Abbreviation udpPool := (hpool udpSessionKey udpSession).
Definition newUDPSessionPool : udpPool := empty_pool.

Definition set_lastSeen (now : Z) (s : udpSession) : udpSession := MkUdp (conn s) now (username s) (recvCh s).
Definition set_recv (q : list bytes) (s : udpSession) : udpSession := MkUdp (conn s) (lastSeen s) (username s) q.

(** One datagram read by [readLoop]: queued, or dropped when the channel is full. *)
Definition enqueue (pkt : bytes) (q : list bytes) : list bytes :=
  if (length q <? recvCap)%nat then q ++ [pkt] else q.

(** [DrainRecv max]: when the channel is empty, [waited] is what comes in before the
    wait ends; up to [max] datagrams are taken. *)
Definition drain_queue (max : nat) (waited q : list bytes) : list bytes * list bytes :=
  let q := match q with [] => fold_left (fun q p => enqueue p q) waited [] | _ => q end in
  (take max q, drop max q).

Definition recv_at (r : nat) (pkt : bytes) (p : udpPool) : udpPool :=
  MkPool (alter (fun s => set_recv (enqueue pkt (recvCh s)) s) r (heap p)) (pool p) (open p) (flight p).
Definition DrainRecv (r : nat) (max : nat) (waited : list bytes) (p : udpPool) : list bytes * udpPool :=
  match heap p !! r with
  | None => ([], p)
  | Some s =>
      let '(out, q) := drain_queue max waited (recvCh s) in
      (out, MkPool (<[r := set_recv q s]> (heap p)) (pool p) (open p) (flight p))
  end.

(** [getOrCreate] in its two critical sections; the result is the session pointer. *)
Definition getOrCreate_lookup (k : udpSessionKey) (now : Z) (p : udpPool) : option nat * udpPool :=
  match pool p !! k with
  | Some r => (Some r, update_session (set_lastSeen now) k p)
  | None => (None, p)
  end.
Definition getOrCreate_install (k : udpSessionKey) (c : nat) (user : gostring) (now : Z) (p : udpPool) : nat * udpPool :=
  match pool p !! k with
  | Some r => (r, update_session (set_lastSeen now) k (discard c p))
  | None => (length (heap p), install k (MkUdp c now user []) p)
  end.

Definition recordActivity (k : udpSessionKey) (now : Z) (p : udpPool) : udpPool :=
  update_session (set_lastSeen now) k p.
Definition close (k : udpSessionKey) (p : udpPool) : udpPool := remove k p.
Definition is_stale (now : Z) (s : udpSession) : bool := udpSessionTimeout <? now - lastSeen s.
Definition watchdog (now : Z) (p : udpPool) : udpPool := evict (is_stale now) p.

(** ** Ownership of sockets *)

Inductive ustep : udpPool -> udpPool -> Prop :=
| us_lookup k now p : ustep p (snd (getOrCreate_lookup k now p))
| us_dial c p : c ∉ open p -> ustep p (dial c p)
| us_install k c u now p : c ∈ flight p -> ustep p (snd (getOrCreate_install k c u now p))
| us_activity k now p : ustep p (recordActivity k now p)
| us_close k p : ustep p (close k p)
| us_recv r pkt p : ustep p (recv_at r pkt p)
| us_drain r max waited p : ustep p (snd (DrainRecv r max waited p))
| us_watchdog now p : ustep p (watchdog now p).

Inductive ureach : udpPool -> Prop :=
| ur_init : ureach newUDPSessionPool
| ur_step p p' : ureach p -> ustep p p' -> ureach p'.

Lemma udp_lookup_None (k : udpSessionKey) (p : udpPool) : pool p !! k = None -> lookup_session k p = None.
Proof. unfold lookup_session. by intros ->. Qed.

Lemma ustep_sim p p' : ustep p p' -> pool_wf p -> sim p p'.
Proof.
  destruct 1 as [k now p|c p Hc|k c u now p Hc|k now p|k p|r pkt p|r max waited p|now p]; intros Hw.
  - unfold getOrCreate_lookup. destruct (pool p !! k); [by apply sim_update | by apply sim_refl].
  - by apply sim_dial.
  - unfold getOrCreate_install. destruct (pool p !! k) as [r|] eqn:E; cbn [snd].
    + eapply sim_trans; [by apply sim_discard|]. by apply sim_update.
    + apply sim_install; [done | by apply udp_lookup_None | done].
  - by apply sim_update.
  - by apply sim_remove.
  - split; [intros k r' Hr; cbn [recv_at heap pool] in *; rewrite length_alter; by apply (Hw k)|].
    unfold recv_at. rewrite abs_alter by done. destruct p. constructor.
  - unfold DrainRecv. destruct (heap p !! r) as [s|] eqn:E; [|by apply sim_refl].
    destruct (drain_queue max waited (recvCh s)) as [out q]. by apply (sim_insert r (set_recv q s) s).
  - by apply sim_removes.
Qed.

Lemma ureach_ok p : ureach p -> pool_wf p /\ ledger_ok (abs p).
Proof.
  induction 1 as [|p p' _ [Hw Hl] Hst]; [apply empty_pool_ok|].
  destruct (ustep_sim _ _ Hst Hw) as [Hw' Hs]. split; [done|]. by eapply lsteps_ok.
Qed.

(** UDP sockets are neither leaked nor shared: in every interleaving of relay
    requests, read loops and watchdog passes, an open socket is still with the request
    that dialled it or belongs to exactly one pooled session, pooled sessions hold open
    sockets, and a watchdog pass closes exactly the sockets idle for over a minute. *)
Theorem udp_pool_owned p now :
  ureach p ->
  (forall c, c ∈ open p -> c ∈ flight p \/ exists k s, lookup_session k p = Some s /\ conn s = c)
  /\ (forall k1 k2 s1 s2, lookup_session k1 p = Some s1 -> lookup_session k2 p = Some s2 ->
        conn s1 = conn s2 -> k1 = k2)
  /\ (forall k s, lookup_session k p = Some s ->
        conn s ∈ open p /\ (conn s ∈ open (watchdog now p) <-> now - lastSeen s <= 60 * second)).
Proof.
  intros Hr. pose proof (ureach_ok p Hr) as [_ Hok]. destruct (owned_spec p Hok) as (O1 & O2 & O3).
  split_and!; [exact O1 | exact O3|]. intros k s Hs. split; [by apply (O2 k)|].
  pose proof (evict_conns (is_stale now) p k s Hok (proj2 (ureach_ok _ (ur_step _ _ Hr (us_watchdog now p)))) Hs) as Hc.
  change (conn s ∈ open (watchdog now p) <-> is_stale now s = false) in Hc. rewrite Hc.
  unfold is_stale, udpSessionTimeout. by rewrite Z.ltb_ge.
Qed.

Definition test_udp : udpPool :=
  snd (getOrCreate_install (bs "c", bs "8.8.8.8:53") 1 (bs "u") 0 (dial 1 newUDPSessionPool)).

Lemma test_udp_reach : ureach test_udp.
Proof.
  eapply ur_step; [|apply us_install; apply (bool_decide_eq_true _); vm_compute; reflexivity].
  eapply ur_step; [apply ur_init|]. apply us_dial. apply (bool_decide_eq_true _); vm_compute; reflexivity.
Qed.

Lemma udp_pool_owned_witness :
  open test_udp = {[1%nat]}
  /\ forall c, c ∈ open test_udp -> c ∈ flight test_udp \/ exists k s, lookup_session k test_udp = Some s /\ conn s = c.
Proof. split; [vm_compute; reflexivity|]. exact (proj1 (udp_pool_owned test_udp 0 test_udp_reach)). Defined.

(** ** Datagrams of a session come out in the order they came in *)

Inductive qev := QRecv (pkt : bytes) | QDrain (max : nat) (waited : list bytes).

(** The datagrams accepted into the channel and those handed to clients, in order. *)
Fixpoint qrun (evs : list qev) (q : list bytes) : list bytes * list bytes * list bytes :=
  match evs with
  | [] => ([], [], q)
  | QRecv pkt :: evs =>
      let q' := enqueue pkt q in
      let '(acc, out, qe) := qrun evs q' in
      ((if (length q <? recvCap)%nat then [pkt] else []) ++ acc, out, qe)
  | QDrain max waited :: evs =>
      let new := match q with [] => fold_left (fun q p => enqueue p q) waited [] | _ => [] end in
      let '(d, q') := drain_queue max waited q in
      let '(acc, out, qe) := qrun evs q' in
      (new ++ acc, d ++ out, qe)
  end.

Lemma enqueue_le pkt q : (length q <= recvCap)%nat -> (length (enqueue pkt q) <= recvCap)%nat.
Proof. unfold enqueue, recvCap. destruct (Nat.ltb_spec (length q) 256); rewrite ?length_app; simpl; lia. Qed.

Lemma enqueues_le w q : (length q <= recvCap)%nat -> (length (fold_left (fun q p => enqueue p q) w q) <= recvCap)%nat.
Proof. revert q. induction w as [|p w IH]; intros q Hq; simpl; [done|]. by apply IH, enqueue_le. Qed.

(** The receive channel of a UDP session is a bounded FIFO: over any sequence of
    arrivals and drains, the datagrams handed out followed by those still queued are
    exactly those accepted, in arrival order; at most 256 are queued; and a datagram is
    refused only when 256 are waiting. *)
Theorem udp_fifo evs :
  let '(acc, out, q) := qrun evs [] in
  out ++ q = acc /\ (length q <= recvCap)%nat.
Proof.
  enough (forall q0, (length q0 <= recvCap)%nat ->
    let '(acc, out, q) := qrun evs q0 in out ++ q = q0 ++ acc /\ (length q <= recvCap)%nat) as H.
  { specialize (H [] ltac:(simpl; lia)). by destruct (qrun evs []) as [[acc out] q]. }
  induction evs as [|[pkt|max waited] evs IH]; intros q0 Hq0; cbn [qrun].
  - by rewrite app_nil_r.
  - specialize (IH (enqueue pkt q0) (enqueue_le pkt q0 Hq0)).
    destruct (qrun evs (enqueue pkt q0)) as [[acc out] q]. destruct IH as [IH1 IH2]. split; [|done].
    rewrite IH1. unfold enqueue. destruct (_ <? _)%nat; [by rewrite <- app_assoc | done].
  - unfold drain_queue. destruct q0 as [|x q0].
    + pose proof (enqueues_le waited [] ltac:(simpl; lia)) as Hw. set (w := fold_left _ waited []) in *.
      specialize (IH (drop max w) ltac:(rewrite length_drop; lia)).
      destruct (qrun evs (drop max w)) as [[acc out] q]. destruct IH as [IH1 IH2]. split; [|done].
      rewrite <- app_assoc, IH1, app_assoc, take_drop. done.
    + specialize (IH (drop max (x :: q0)) ltac:(rewrite length_drop; lia)).
      destruct (qrun evs (drop max (x :: q0))) as [[acc out] q]. destruct IH as [IH1 IH2]. split; [|done].
      cbn [app]. rewrite <- app_assoc, IH1, app_assoc, take_drop. done.
Qed.
End UdpSession.
