(* ===== verification/ExitPeers.v ===== *)
(** * snc-exit: what the routing decision reads

    The registry of peer exits (peers.go, arbiter.go), the race of dials between
    peers and the cache of validated peer tokens (peer_conn.go), the country lookup
    (cidr_cache.go) and the reachability probes (whitelist_probe.go). Dials, HTTP
    exchanges and the random source are inputs; a connection is named by a number
    that is not open when the dial succeeds. *)

From stdpp Require Import base list gmap strings fin_maps fin_sets sorting.
From Stdlib Require Import ZArith Lia.
From S2P Require Import Prelude GoLib ConnLedger ExitSession ExitAuth ExitPolicy.

Module Peers.

Export Rand.

(** ** The registry *)

Record PeerEntry := MkPeer {
  Addr : gostring;
  Region : gostring;
  Capabilities : option (gmap gostring bool);
  Fingerprint : gostring }.

Record PeerRegistry := MkRegistry {
  myRegion : gostring;
  peers : list PeerEntry;
  alive : gmap gostring bool;
  fetched : Z }.

Definition newPeerRegistry : PeerRegistry := MkRegistry [] [] ∅ 0.

(** The signed exit list as [fetchExitList] reads it: address and fingerprint of
    every node, regions by address, and the caller's own region. *)
Record exit_list := MkExitList {
  el_nodes : list (gostring * gostring);
  el_regions : gmap gostring gostring;
  el_self : gostring }.

Definition fetchExitList (reply : res exit_list) : res (list PeerEntry * gostring) :=
  sl ← reply;
  Ok ((fun '(a, fp) => MkPeer a (default [] (el_regions sl !! a)) None fp) <$> el_nodes sl, el_self sl).

Definition regionOther : gostring := bs "OTHER".

(** One turn of [resolveRegionLoop]; [None] is another turn after ten seconds. *)
Definition resolveRegion (exits : res exit_list) (outboundIP : gostring) (geo : res gostring) (pr : PeerRegistry)
    : option PeerRegistry :=
  let self := match fetchExitList exits with Ok (_, s) => s | _ => [] end in
  if decide (self <> []) then Some (MkRegistry self (peers pr) (alive pr) (fetched pr))
  else if decide (outboundIP = []) then Some pr
  else match geo with
       | Ok r => Some (MkRegistry (if decide (r = []) then regionOther else r) (peers pr) (alive pr) (fetched pr))
       | _ => None
       end.

Definition refresh (reply : res exit_list) (now : Z) (pr : PeerRegistry) : PeerRegistry :=
  match fetchExitList reply with
  | Ok (ps, _) => MkRegistry (myRegion pr) ps (alive pr) now
  | _ => pr
  end.

(** [probeAll] takes a snapshot of the peers, and then replaces the health map and,
    later, the capabilities of the peers that answered, each under the lock.
    [done] is the snapshot in the order the probes end. *)
Definition probe_health (done : list PeerEntry) (probe : PeerEntry -> bool) (pr : PeerRegistry) : PeerRegistry :=
  MkRegistry (myRegion pr) (peers pr)
    (fold_left (fun m p => <[Addr p := probe p]> m) done ∅) (fetched pr).

Definition probe_caps (done : list PeerEntry) (results : gmap gostring bool)
    (caps : PeerEntry -> option (gmap gostring bool)) (pr : PeerRegistry) : PeerRegistry :=
  let allCaps := fold_left (fun (m : gmap gostring (gmap gostring bool)) p =>
      if default false (results !! Addr p) then
        match caps p with Some c => <[Addr p := c]> m | None => m end
      else m) done ∅ in
  MkRegistry (myRegion pr)
    ((fun p => match allCaps !! Addr p with
               | Some c => MkPeer (Addr p) (Region p) (Some c) (Fingerprint p)
               | None => p
               end) <$> peers pr) (alive pr) (fetched pr).

Definition PeerInRegion (rnd : nat) (cc : gostring) (pr : PeerRegistry) : option PeerEntry :=
  if decide (cc = []) then None
  else
    let candidates := List.filter (fun p => bool_decide (Region p = cc)) (peers pr) in
    if decide (candidates = []) then None else candidates !! (rnd mod length candidates)%nat.

Definition AnyPeer (rnd : nat) (pr : PeerRegistry) : option PeerEntry :=
  if decide (peers pr = []) then None else peers pr !! (rnd mod length (peers pr))%nat.

Definition is_alive (pr : PeerRegistry) (p : PeerEntry) : bool := default false (alive pr !! Addr p).

Definition PeersCapableOf (rnd : nat -> nat) (domain : gostring) (pr : PeerRegistry) : list PeerEntry :=
  let out := List.filter (fun p =>
      negb ((0 <? size (alive pr))%nat && negb (is_alive pr p)) &&
      match Capabilities p with
      | Some c => negb (bool_decide (c !! domain = Some false))
      | None => true
      end) (peers pr) in
  rand_Shuffle rnd out.

Definition ShufflePeers (rnd : nat -> nat) (pr : PeerRegistry) : list PeerEntry :=
  if decide (peers pr = []) then []
  else
    let live := List.filter (is_alive pr) (peers pr) in
    let src := if (0 <? size (alive pr))%nat then
                 if decide (live <> []) then live else peers pr
               else peers pr in
    rand_Shuffle rnd src.

Lemma elem_of_filter_sub {A} (f : A -> bool) l x : x ∈ List.filter f l -> x ∈ l /\ f x = true.
Proof. rewrite !list_elem_of_In, List.filter_In. done. Qed.

Lemma ShufflePeers_sub rnd pr p : p ∈ ShufflePeers rnd pr -> p ∈ peers pr.
Proof.
  unfold ShufflePeers. case_decide; [by intros ?%not_elem_of_nil|].
  rewrite shuffle_perm. destruct (_ <? _)%nat; [|done]. case_decide; [|done].
  by intros [? _]%elem_of_filter_sub.
Qed.

Lemma PeersCapableOf_sub rnd d pr p : p ∈ PeersCapableOf rnd d pr -> p ∈ peers pr.
Proof. unfold PeersCapableOf. rewrite shuffle_perm. by intros [? _]%elem_of_filter_sub. Qed.

(** ** Dials *)

Notation sessionPool := Session.sessionPool.

(** The number of the next connection the process opens. *)
Definition next_conn (p : sessionPool) : nat := S (foldr Nat.max 0%nat (elements (open p ∪ flight p))).

Lemma foldr_max_le (l : list nat) x : x ∈ l -> (x <= foldr Nat.max 0 l)%nat.
Proof. induction l as [|y l IH]; [by intros ?%not_elem_of_nil|]. intros [->|?%IH]%elem_of_cons; simpl; lia. Qed.

Lemma next_conn_fresh p : next_conn p ∉ open p ∪ flight p.
Proof. intros H%elem_of_elements%foldr_max_le. unfold next_conn in H. lia. Qed.

(** How an attempt on a peer goes: whether the shared dial budget is used up, the TLS
    dial succeeds and the upgrade request is sent, and the status of the answer, if one
    is read. *)
Record peer_answer := MkAnswer { an_late : bool; an_tls : bool; an_sent : bool; an_status : option Z }.
Definition accepted (r : peer_answer) : bool :=
  negb (an_late r) && an_tls r && an_sent r && bool_decide (an_status r = Some 200).

(** [dialPeer]: the connection, or none; one that fails after the dial is closed. *)
Definition dialPeer (r : peer_answer) (p : sessionPool) : option nat * sessionPool :=
  if an_late r then (None, p)
  else if negb (an_tls r) then (None, p)
  else
    let c := next_conn p in
    let p := dial c p in
    if negb (an_sent r) then (None, discard c p)
    else match an_status r with
         | None => (None, discard c p)
         | Some st => if negb (st =? 200) then (None, discard c p) else (Some c, p)
         end.

(** [dialBestPeer] after its goroutines are started: the results come in the order
    of [arrived], the [k]-th being [ans k]. The background loop
    that closes the stragglers is run to its end. *)
Fixpoint close_rest (ans : nat -> peer_answer) (k : nat) (rest : list PeerEntry) (p : sessionPool) : sessionPool :=
  match rest with
  | [] => p
  | _ :: rest =>
      let '(c, p) := dialPeer (ans k) p in
      let p := match c with Some c => discard c p | None => p end in
      close_rest ans (S k) rest p
  end.

Fixpoint race (ans : nat -> peer_answer) (k : nat) (arrived : list PeerEntry) (p : sessionPool)
    : option (nat * PeerEntry) * sessionPool :=
  match arrived with
  | [] => (None, p)
  | peer :: rest =>
      match dialPeer (ans k) p with
      | (Some c, p) => (Some (c, peer), close_rest ans (S k) rest p)
      | (None, p) => race ans (S k) rest p
      end
  end.

Definition dialBestPeer (order : nat -> nat) (ans : nat -> peer_answer) (candidates : list PeerEntry) (p : sessionPool)
    : option (nat * PeerEntry) * sessionPool :=
  race ans 0 (rand_Shuffle order candidates) p.

(** What dials do to the pool: the sessions stay, and the connections in flight
    are those before, plus the winner's. *)
Record dialled_to (add : gset nat) (p p' : sessionPool) : Prop := {
  dt_reach : Session.preach p -> Session.preach p';
  dt_pool : pool p' = pool p;
  dt_heap : heap p' = heap p;
  dt_flight : flight p' = add ∪ flight p;
  dt_fresh : add ## flight p;
  dt_open : open p' = add ∪ open p }.

Lemma dialled_refl p : dialled_to ∅ p p.
Proof. split; try done; set_solver. Qed.

Lemma dialled_ok p : dialled_to {[next_conn p]} p (dial (next_conn p) p).
Proof.
  pose proof (next_conn_fresh p). split; try done; [|set_solver].
  intros ?. eapply Session.pr_step; [done|]. apply Session.ps_dial. set_solver.
Qed.

Lemma dialled_discard c p p' : dialled_to {[c]} p p' -> c ∉ open p -> dialled_to ∅ p (discard c p').
Proof.
  intros [R P H F X O] Hc. split; [|done|done|simpl; rewrite F; set_solver|set_solver|simpl; rewrite O; set_solver].
  intros Hr. eapply Session.pr_step; [by apply R|]. apply Session.ps_discard. rewrite F. set_solver.
Qed.

Lemma dialled_trans a b p p' p'' : dialled_to a p p' -> dialled_to b p' p'' -> dialled_to (a ∪ b) p p''.
Proof.
  intros [R1 P1 H1 F1 X1 O1] [R2 P2 H2 F2 X2 O2].
  split; [auto|congruence|congruence|rewrite F2, F1; set_solver| |rewrite O2, O1; set_solver].
  rewrite F1 in X2. set_solver.
Qed.

Definition conns {A} (w : option (nat * A)) : gset nat := match w with Some (c, _) => {[c]} | None => ∅ end.

Lemma dialPeer_spec r p c p' :
  dialPeer r p = (c, p') ->
  match c with
  | Some c => accepted r = true /\ dialled_to {[c]} p p' /\ c ∉ open p
  | None => accepted r = false /\ dialled_to ∅ p p'
  end.
Proof.
  unfold dialPeer, accepted. pose proof (dialled_ok p) as Hd. pose proof (next_conn_fresh p) as Hf.
  assert (next_conn p ∉ open p) as Ho by set_solver. pose proof (dialled_discard _ _ _ Hd Ho) as Hx.
  destruct (an_late r); [intros [= <- <-]; split; [done|apply dialled_refl]|].
  destruct (an_tls r); [|intros [= <- <-]; split; [done|apply dialled_refl]]. cbn [negb andb].
  destruct (an_sent r); [|by intros [= <- <-]]. cbn [negb andb]. destruct (an_status r) as [st|]; [|by intros [= <- <-]].
  destruct (Z.eqb_spec st 200) as [->|Hne]; intros [= <- <-]; (split; [|done]).
  - by apply bool_decide_eq_true.
  - apply bool_decide_eq_false. congruence.
Qed.

Lemma close_rest_spec ans k rest p : dialled_to ∅ p (close_rest ans k rest p).
Proof.
  revert k p. induction rest as [|x rest IH]; intros k p; [apply dialled_refl|]. cbn [close_rest].
  destruct (dialPeer (ans k) p) as [c p1] eqn:E. apply dialPeer_spec in E.
  rewrite <- (union_empty_l_L ∅). eapply dialled_trans; [|apply IH].
  destruct c as [c|]; [destruct E as (_ & ? & ?); by apply dialled_discard | by destruct E].
Qed.

Lemma race_spec ans k arrived p w p' :
  race ans k arrived p = (w, p') ->
  dialled_to (conns w) p p'
  /\ match w with
     | Some (_, peer) => peer ∈ arrived
     | None => forall i, (i < length arrived)%nat -> accepted (ans (k + i)%nat) = false
     end.
Proof.
  revert k p. induction arrived as [|x arrived IH]; intros k p; cbn [race].
  { intros [= <- <-]. split; [apply dialled_refl | simpl; lia]. }
  destruct (dialPeer (ans k) p) as [[c|] p1] eqn:Ed; apply dialPeer_spec in Ed; intros Hw.
  - destruct Ed as (_ & Hd & _). injection Hw as <- <-. split; [|by left]. rewrite <- (union_empty_r_L (conns _)).
    eapply dialled_trans; [exact Hd | apply close_rest_spec].
  - destruct Ed as [Ha Hd]. apply IH in Hw as [Hd' Hr]. split.
    { rewrite <- (union_empty_l_L (conns _)). by eapply dialled_trans. }
    destruct w as [[c peer]|]; [by right|].
    intros [|i] Hi; [by rewrite Nat.add_0_r|]. rewrite <- Nat.add_succ_comm. apply Hr. simpl in Hi. lia.
Qed.

Lemma dialBestPeer_spec order ans cands p w p' :
  dialBestPeer order ans cands p = (w, p') ->
  dialled_to (conns w) p p'
  /\ match w with
     | Some (_, peer) => peer ∈ cands
     | None => forall i, (i < length cands)%nat -> accepted (ans i) = false
     end.
Proof.
  intros [Hd Hw]%race_spec. split; [done|]. destruct w as [[c peer]|]; [by rewrite shuffle_perm in Hw|].
  intros i Hi. apply Hw. by rewrite (Permutation_length (shuffle_perm order cands)).
Qed.

(** ** Peer tokens *)

Record peerCacheEntry := MkPeerCache { pc_addr : gostring; pc_validatedAt : Z }.

(** The arbiter's answer about a node token. *)
Record node_reply := MkNodeReply { nr_valid : bool; nr_type : gostring; nr_addr : gostring }.

(** [reply] is the HTTP exchange: its status and the decoded body. *)
Definition validateNodeToken (reply : res (Z * option node_reply)) : res (gostring * gostring) :=
  rb ← reply;
  let '(status, body) := (rb : Z * option node_reply) in
  if negb (status =? 200) then Err "validate node: status"
  else match body with
       | None => Err "validate node: parse"
       | Some r => if nr_valid r then Ok (nr_addr r, nr_type r) else Err "validate node: invalid or offline"
       end.

Definition validatePeerToken (reply : res (Z * option node_reply)) : res gostring :=
  at_ ← validateNodeToken reply;
  let '(addr, nodeType) := (at_ : gostring * gostring) in
  if decide (nodeType <> bs "exit") then Err "validate peer: not a valid exit node" else Ok addr.

Abbreviation peerAuthCache := (gmap gostring peerCacheEntry).

Definition pa_hit (now : Z) (token : gostring) (hits : peerAuthCache) : option gostring :=
  e ← hits !! token; if now - pc_validatedAt e <? Auth.localCacheTTL then Some (pc_addr e) else None.

Definition pa_fill (now : Z) (token addr : gostring) (hits : peerAuthCache) : peerAuthCache :=
  filter (fun kv => ~ (pc_validatedAt kv.2 < now - Auth.localStaleTTL)) (<[token := MkPeerCache addr now]> hits).

Definition Validate (now : Z) (token : gostring) (reply : res (Z * option node_reply)) (hits : peerAuthCache)
    : option gostring * peerAuthCache :=
  match pa_hit now token hits with
  | Some a => (Some a, hits)
  | None =>
      match validatePeerToken reply with
      | Ok a => (Some a, pa_fill now token a hits)
      | _ => (None, hits)
      end
  end.

Definition ValidateNode (now : Z) (token : gostring) (reply : res (Z * option node_reply)) (hits : peerAuthCache)
    : option gostring * peerAuthCache :=
  match pa_hit now token hits with
  | Some a => (Some a, hits)
  | None =>
      match validateNodeToken reply with
      | Ok (a, _) => (Some a, pa_fill now token a hits)
      | _ => (None, hits)
      end
  end.

(** The arbiter's reply says that the node at [addr] is a live exit. *)
Definition vouched (reply : res (Z * option node_reply)) (addr : gostring) : Prop :=
  reply = Ok (200, Some (MkNodeReply true (bs "exit") addr)).

Lemma validatePeerToken_ok reply addr : validatePeerToken reply = Ok addr -> vouched reply addr.
Proof.
  unfold validatePeerToken, validateNodeToken, vouched. destruct reply as [[st b]| |]; try done.
  cbn [mbind res_bind]. destruct (Z.eqb_spec st 200) as [->|]; [|done]. destruct b as [[v ty a]|]; [|done].
  destruct v; [|done]. simpl. destruct (decide (ty <> bs "exit")) as [|E]; [done|].
  apply dec_stable in E as ->. by intros [= ->].
Qed.

Lemma pa_hit_Some now token hits a :
  pa_hit now token hits = Some a ->
  exists t, hits !! token = Some (MkPeerCache a t) /\ now - t < Auth.localCacheTTL.
Proof.
  unfold pa_hit. destruct (hits !! token) as [[a' t]|]; [|done]. simpl.
  destruct (Z.ltb_spec (now - t) Auth.localCacheTTL); [|done]. intros [= ->]. eauto.
Qed.

Lemma pa_fill_Some now token addr hits k e :
  pa_fill now token addr hits !! k = Some e ->
  (k = token /\ e = MkPeerCache addr now) \/ hits !! k = Some e.
Proof.
  unfold pa_fill. intros [H _]%map_lookup_filter_Some. destruct (decide (k = token)) as [->|Hn].
  - rewrite lookup_insert_eq in H. left. by injection H as <-.
  - rewrite lookup_insert_ne in H by congruence. by right.
Qed.

(** A call of [Validate]: when, the token, and what the arbiter would reply. *)
Abbreviation peer_call := (Z * gostring * res (Z * option node_reply))%type.
Definition pv_run (calls : list peer_call) : peerAuthCache :=
  fold_left (fun hits '(t, token, reply) => snd (Validate t token reply hits)) calls ∅.

Lemma pv_run_vouched calls token a t :
  pv_run calls !! token = Some (MkPeerCache a t) ->
  exists reply, (t, token, reply) ∈ calls /\ vouched reply a.
Proof.
  unfold pv_run. induction calls as [|[[t0 k] r] calls IH] using rev_ind; [done|].
  rewrite fold_left_app. simpl. unfold Validate at 1.
  assert ((exists reply, (t, token, reply) ∈ calls /\ vouched reply a) ->
    exists reply, (t, token, reply) ∈ calls ++ [(t0, k, r)] /\ vouched reply a) as Hw.
  { intros (reply & ? & ?). exists reply. split; [set_solver | done]. }
  destruct (pa_hit _ _ _); [by intros ?%IH; apply Hw|].
  destruct (validatePeerToken r) as [a'| |] eqn:Hv; [|by intros ?%IH; apply Hw..].
  intros [[-> [= -> ->]]|?%IH]%pa_fill_Some; [|by apply Hw].
  exists r. split; [set_solver | by apply validatePeerToken_ok].
Qed.

(** A token is accepted as a peer exit's, at some address, only when the arbiter
    vouched in this call, or in a call less than a minute earlier, that the token is
    that of a live exit at that address. *)
Theorem peer_tokens_vouched calls now token reply addr hits :
  Validate now token reply (pv_run calls) = (Some addr, hits) ->
  vouched reply addr
  \/ exists t reply', (t, token, reply') ∈ calls /\ vouched reply' addr /\ now - t < 1 * minute.
Proof.
  unfold Validate. destruct (pa_hit _ _ _) as [a|] eqn:Hh.
  - intros [= <- <-]. apply pa_hit_Some in Hh as (t & Ht & Hlt). right.
    apply pv_run_vouched in Ht as (r & ? & ?). by exists t, r.
  - destruct (validatePeerToken reply) eqn:Hv; [|done..]. intros [= <- <-]. left. by apply validatePeerToken_ok.
Qed.

Definition test_calls : list peer_call :=
  [(5, bs "tok", Ok (200, Some (MkNodeReply true (bs "exit") (bs "h:1"))))].
Lemma peer_tokens_vouched_witness :
  vouched (Err "down") (bs "h:1")
  \/ exists t r, (t, bs "tok", r) ∈ test_calls /\ vouched r (bs "h:1") /\ 10 - t < 1 * minute.
Proof. apply (peer_tokens_vouched test_calls 10 (bs "tok") (Err "down") (bs "h:1") (pv_run test_calls)). vm_compute. reflexivity. Defined.

(** Both validators share one cache, so a token that [ValidateNode] accepted for
    any type of node is accepted by [Validate] for the next minute, whatever the
    arbiter then replies: a control node's token passes for a peer exit's. *)
Theorem node_token_accepted_as_peer t now token ty addr reply hits :
  pa_hit t token hits = None -> 0 <= now - t < 1 * minute ->
  let hits' := snd (ValidateNode t token (Ok (200, Some (MkNodeReply true ty addr))) hits) in
  Validate now token reply hits' = (Some addr, hits').
Proof.
  intros Hn Ht. unfold ValidateNode. rewrite Hn. cbn -[pa_fill Auth.localCacheTTL]. unfold Validate.
  assert (pa_fill t token addr hits !! token = Some (MkPeerCache addr t)) as E.
  { unfold pa_fill. apply map_lookup_filter_Some. rewrite lookup_insert_eq. split; [done|]. simpl.
    unfold Auth.localStaleTTL, hour, minute, second in *. lia. }
  unfold pa_hit. rewrite E. cbn -[pa_fill Auth.localCacheTTL].
  by rewrite (proj2 (Z.ltb_lt (now - t) Auth.localCacheTTL)) by (unfold Auth.localCacheTTL; lia).
Qed.

Lemma node_token_accepted_as_peer_witness :
  let hits' := snd (ValidateNode 5 (bs "tok") (Ok (200, Some (MkNodeReply true (bs "control") (bs "c:1")))) ∅) in
  Validate 6 (bs "tok") (Ok (200, Some (MkNodeReply true (bs "control") (bs "c:1")))) hits' = (Some (bs "c:1"), hits').
Proof. apply node_token_accepted_as_peer; [reflexivity | unfold minute, second; lia]. Defined.

(** ** cidr_cache.go *)
Definition parseCIDRNet (cidrs : list gostring) : list Net.IPNet := omap Net.ParseCIDR cidrs.
Definition contains (nets : list Net.IPNet) (ip : bytes) : bool := existsb (fun n => Net.Contains n ip) nets.

(** [cc_sets] and [cc_payloads] by country; [ord] is the order a map iteration takes. *)
Record cidrCache := MkCidr { cc_sets : gmap gostring (list Net.IPNet); cc_payloads : gmap gostring bytes }.

Definition lookup_in (ip : bytes) (c : cidrCache) (keep : gostring -> bool) (ord : list gostring) : option gostring :=
  find (fun cc => match cc_sets c !! cc with Some s => contains s ip && keep cc | None => false end) ord.

Definition lookupCountry (ord : list gostring) (ipStr : gostring) (c : cidrCache) : gostring :=
  match Net.ParseIP ipStr with
  | None => []
  | Some ip => default [] (lookup_in ip c (fun _ => true) ord)
  end.

Definition Lookup (ord : list gostring) (ipStr : gostring) (c : cidrCache) : option bytes :=
  ip ← Net.ParseIP ipStr;
  cc ← lookup_in ip c (fun cc => bool_decide (is_Some (cc_payloads c !! cc))) ord;
  cc_payloads c !! cc.

(** The body of [refresh]: [reply] is the exchange with the countries' raw payloads
    when they parsed; [cidrs] reads the list of one payload. *)
Definition cidr_refresh (reply : res (Z * option (list (gostring * bytes)))) (cidrs : bytes -> option (list gostring))
    (c : cidrCache) : cidrCache :=
  match reply with
  | Ok (200, Some (kv :: kvs)) =>
      let ok := omap (fun '(cc, raw) => l ← cidrs raw; Some (cc, (parseCIDRNet l, raw))) (kv :: kvs) in
      MkCidr (list_to_map ((fun '(cc, (n, _)) => (cc, n)) <$> ok)) (list_to_map ((fun '(cc, (_, raw)) => (cc, raw)) <$> ok))
  | _ => c
  end.

(** ** whitelist_probe.go *)
Section probe.
Context {U : Unicode}.

Definition wlProbeAttempts : nat := 3.

(** [attempt i] is whether the i-th TLS dial succeeds. *)
Definition probeDomain (attempt : nat -> bool) : bool := existsb attempt (seq 0 wlProbeAttempts).

Definition probe_target (e : Policy.rule) : option gostring :=
  if decide (Policy.r_type e = bs "domain") then Some (Policy.r_value e)
  else if decide (Policy.r_type e = bs "wildcard") then Some (Strings.TrimPrefix (Policy.r_value e) (bs "."))
  else None.

Fixpoint runProbes (dials : gostring -> nat -> bool) (entries : list Policy.rule) (seen : gset gostring)
    (caps : gmap gostring bool) : gmap gostring bool :=
  match entries with
  | [] => caps
  | e :: entries =>
      match probe_target e with
      | None => runProbes dials entries seen caps
      | Some d =>
          if decide (d ∈ seen) then runProbes dials entries seen caps
          else runProbes dials entries ({[d]} ∪ seen) (<[d := probeDomain (dials d)]> caps)
      end
  end.

Definition CanReach (domain : gostring) (caps : gmap gostring bool) : bool := default true (caps !! domain).
End probe.
End Peers.
