(* ===== verification/ExitHandler.v ===== *)
(** * snc-exit: the tunnel endpoint (src/snc-exit/handler.go, torrent_detect.go)

    [handleTunnel] as one function of the request, the handler's configuration and
    caches, and the environment: clocks, dial outcomes, random draws, target reads
    and write failures. The five ways of forwarding a connection through a peer exit
    are one definition each, composed as the source does. The result records the
    reply, the session pool, the peers that were dialled, how the connection goes
    out and the bytes written to targets. *)

From stdpp Require Import base list gmap strings fin_maps fin_sets.
From Stdlib Require Import ZArith Lia.
From S2P Require Import Prelude GoLib Frames ConnLedger ExitSession ExitAuth ExitPolicy ExitPeers.

Module Handler.
Import Peers.

Notation sessionPool := Session.sessionPool.
#[local] Existing Instance Session.session_conn.

(** ** torrent_detect.go *)
Definition btHandshakeHeader : bytes := 0x13 :: bs "BitTorrent protocol".
Definition isBitTorrentHandshake (payload : bytes) : bool := Strings.HasPrefix payload btHandshakeHeader.
Definition btPortRangeLow : Z := 6881.
Definition btPortRangeHigh : Z := 6889.
Definition isLikelyBitTorrentPort (port : Z) : bool := (btPortRangeLow <=? port) && (port <=? btPortRangeHigh).

(** ** Data *)

Definition dialDecisionBudget : Z := 15 * second.

(** The handler's collaborators; [None] is a nil pointer. [h_stats] is whether there
    is a collector. *)
Record handler := MkHandler {
  h_selfIPs : gset gostring;
  h_bl : option (gset gostring);
  h_anonBoot : option Policy.anonBootstrap;
  h_wl : option (list Policy.rule);
  h_svcBlocks : option (list (Policy.rule * gset gostring));
  h_torrentAllowed : option Policy.torrentAllowed;
  h_peers : option PeerRegistry;
  h_probeDB : option (gmap gostring bool);
  h_cidrCache : option cidrCache;
  h_providerTag : gostring;
  h_stats : bool }.

Record request := MkReq {
  q_session : gostring;     (** X-Session *)
  q_noForward : gostring;   (** X-No-Forward *)
  q_clientCC : gostring;    (** X-Client-CC *)
  q_clientIP : gostring;    (** X-Client-IP *)
  q_remoteIP : gostring;    (** remoteIP(r) *)
  q_body : bytes }.

Inductive stage := Torrent | SameCountry | RegionBlock | Geo | WhitelistPeer | Primary | Fallback.

Record env := MkEnv {
  e_start : Z;                        (** when the request is read *)
  e_store : Z;                        (** when its connection enters the pool *)
  e_end : Z;                          (** when the reply is built *)
  e_clock : stage -> nat -> Z;        (** the k-th test of the dial budget in a stage *)
  e_shuffle : stage -> nat -> nat;    (** draws of the stage's shuffle *)
  e_order : stage -> nat -> nat;      (** order in which the stage's racing dials end *)
  e_answer : stage -> nat -> peer_answer;  (** how the k-th attempt on a peer in a stage goes *)
  e_dial : bool;                      (** does the direct dial succeed *)
  e_countries : list gostring;        (** iteration order of the country map *)
  e_reply : res (Z * bytes);          (** the arbiter on the session token: status and body *)
  e_fail : nat -> bool;               (** does the k-th write to the target fail *)
  e_turns : list Exit.stream_read;    (** the reads of a stream *)
  e_nonce : res bytes;
  e_pad : nat -> bytes }.

(** How a connection leaves this exit. *)
Inductive route := Via (p : PeerEntry) | Direct | Reused.

Inductive stat := RejectedSession | StatBytes (user country : gostring) (up down : Z).

Record response := MkResp { status : Z; close_reason : option string; body : bytes }.
Definition send404 : response := MkResp 404 None [].
Definition unavailable : response := MkResp 503 None (Auth.json "{'error':'arbiter_unavailable'}").

(** The parts of an opening upload the routing stages read. *)
Record call := MkCall {
  c_connID : gostring;
  c_host : gostring;
  c_port : Z;
  c_payload : bytes;
  c_user : gostring;
  c_clientCC : gostring;
  c_noForward : bool;
  c_deadline : Z }.

Record rstate := MkR {
  r_sock : option (nat * route);
  r_pool : sessionPool;
  r_dialled : list PeerEntry }.

Section handler.
Context {U : Unicode} {AE : Aead} {BL : Blake2b}.

(** ** Admission of a target *)

(** The address of a literal IP target, and "" for a name. *)
Definition target_ip (host : gostring) : gostring :=
  match Net.ParseIP host with Some _ => host | None => [] end.

(** Is the target this exit itself, not routable, blacklisted or, for an anonymous
    session, off the allowlist? *)
Definition target_refused (h : handler) (isAnon : bool) (host : gostring) : bool :=
  bool_decide (host ∈ h_selfIPs h)
  || match Net.ParseIP host with Some ip => Net.IsLoopback ip || Net.IsLinkLocalUnicast ip | None => false end
  || match h_bl h with Some a => Policy.IsBlacklisted host a | None => false end
  || (isAnon && negb match h_anonBoot h with
                     | Some a => Policy.IsAllowed_anon host (target_ip host) a
                     | None => false
                     end).

(** The client's country: the header, else a lookup of the reported or source address. *)
Definition derive_clientCC (h : handler) (e : env) (q : request) : gostring :=
  let cc := Strings.ToUpper (Strings.TrimSpace (q_clientCC q)) in
  if decide (cc = []) then
    let ip := if decide (q_clientIP q = []) then q_remoteIP q else q_clientIP q in
    match h_cidrCache h with Some c => lookupCountry (e_countries e) ip c | None => cc end
  else cc.

(** ** Forwarding through a peer *)

(** The test every loop over peers makes: the peer's host:port is none of the exit's own
    addresses (which carry no port), and its region is not the client's country. *)
Definition eligible (h : handler) (cx : call) (p : PeerEntry) : bool :=
  negb (bool_decide (Addr p ∈ h_selfIPs h)) && negb (bool_decide (Region p = c_clientCC cx)).

(** Race the candidates, if there are any and there is time left. *)
Definition forward (e : env) (g : stage) (cx : call) (cands : list PeerEntry) (s : rstate) : rstate :=
  if decide (cands = []) then s
  else if c_deadline cx <? e_clock e g 0 then s
  else match dialBestPeer (e_order e g) (e_answer e g) cands (r_pool s) with
       | (Some (c, peer), p) =>
           MkR (Some (c, Via peer)) (Session.store (c_connID cx) c (c_user cx) (e_store e) p) (r_dialled s ++ cands)
       | (None, p) => MkR (r_sock s) p (r_dialled s ++ cands)
       end.

Definition is_torrent (cx : call) : bool :=
  isBitTorrentHandshake (c_payload cx) || isLikelyBitTorrentPort (c_port cx).

Definition self_allows_torrent (h : handler) : bool :=
  match h_torrentAllowed h with Some t => Policy.SelfAllowed t | None => false end.

(** Torrent redirect; [false] when the request is rejected. *)
Definition torrent_stage (h : handler) (e : env) (cx : call) (s : rstate) : rstate * bool :=
  if negb (self_allows_torrent h) && is_torrent cx then
    match h_peers h, h_torrentAllowed h with
    | Some pr, Some ta =>
        if c_noForward cx then (s, false)
        else
          let s := forward e Torrent cx
            (List.filter (fun p => eligible h cx p && Policy.IsAllowed_torrent (Addr p) ta)
               (ShufflePeers (e_shuffle e Torrent) pr)) s in
          (s, bool_decide (is_Some (r_sock s)))
    | _, _ => (s, false)
    end
  else (s, true).

(** Same-country redirect: the peers one by one; [k] counts the clock tests, [d] the dials. *)
Fixpoint try_each (h : handler) (e : env) (cx : call) (ps : list PeerEntry) (k d : nat) (s : rstate) : rstate :=
  match ps with
  | [] => s
  | peer :: ps =>
      if c_deadline cx <? e_clock e SameCountry k then s
      else if negb (eligible h cx peer) then try_each h e cx ps (S k) d s
      else
        match dialPeer (e_answer e SameCountry d) (r_pool s) with
        | (Some c, p) =>
            MkR (Some (c, Via peer)) (Session.store (c_connID cx) c (c_user cx) (e_store e) p) (r_dialled s ++ [peer])
        | (None, p) => try_each h e cx ps (S k) (S d) (MkR (r_sock s) p (r_dialled s ++ [peer]))
        end
  end.

Definition my_region (h : handler) : gostring := match h_peers h with Some pr => myRegion pr | None => [] end.

Definition same_country (h : handler) (e : env) (cx : call) (s : rstate) : rstate :=
  match r_sock s, h_peers h with
  | None, Some pr =>
      if negb (c_noForward cx) && negb (bool_decide (c_clientCC cx = [])) && negb (bool_decide (my_region h = []))
           && bool_decide (my_region h = c_clientCC cx)
      then try_each h e cx (ShufflePeers (e_shuffle e SameCountry) pr) 0 0 s
      else s
  | _, _ => s
  end.

Definition region_block (h : handler) (e : env) (cx : call) (s : rstate) : rstate :=
  match r_sock s, h_svcBlocks h, h_peers h with
  | None, Some bl, Some pr =>
      if negb (c_noForward cx) && (negb (bool_decide (my_region h = [])) || negb (bool_decide (h_providerTag h = [])))
      then
        let blocked := fun region => Policy.IsBlockedForRegion (c_host cx) (target_ip (c_host cx)) region bl in
        if blocked (my_region h) || (negb (bool_decide (h_providerTag h = [])) && blocked (h_providerTag h))
        then forward e RegionBlock cx
               (List.filter (fun p => eligible h cx p && negb (blocked (Region p)))
                  (ShufflePeers (e_shuffle e RegionBlock) pr)) s
        else s
      else s
  | _, _, _ => s
  end.

Definition geo_route (h : handler) (e : env) (cx : call) (s : rstate) : rstate :=
  match r_sock s, h_cidrCache h, h_peers h with
  | None, Some cc, Some pr =>
      if negb (c_noForward cx) && negb (bool_decide (my_region h = [])) then
        let targetCC := lookupCountry (e_countries e) (c_host cx) cc in
        if negb (bool_decide (targetCC = [])) && negb (bool_decide (targetCC = my_region h)) then
          forward e Geo cx
            (List.filter (fun p => bool_decide (Region p = targetCC) && eligible h cx p)
               (ShufflePeers (e_shuffle e Geo) pr)) s
        else s
      else s
  | _, _, _ => s
  end.

Definition whitelist_peer (h : handler) (e : env) (cx : call) (s : rstate) : rstate :=
  match r_sock s, h_wl h, h_probeDB h, h_peers h with
  | None, Some wl, Some caps, Some pr =>
      if negb (c_noForward cx) && Policy.IsWhitelisted (c_host cx) [] wl && negb (CanReach (c_host cx) caps) then
        forward e WhitelistPeer cx
          (List.filter (eligible h cx) (PeersCapableOf (e_shuffle e WhitelistPeer) (c_host cx) pr)) s
      else s
  | _, _, _, _ => s
  end.

(** [pool.getOrCreate]: the connection is reused or dialled. *)
Definition getOrCreate (e : env) (cx : call) (p : sessionPool) : option (nat * route) * sessionPool :=
  match Session.getOrCreate_lookup (c_connID cx) (e_store e) p with
  | (Some c, p) => (Some (c, Reused), p)
  | (None, p) =>
      if e_dial e then
        let c := next_conn p in
        let '(c, p) := Session.getOrCreate_install (c_connID cx) c (c_user cx) (e_store e) (dial c p) in
        (Some (c, Direct), p)
      else (None, p)
  end.

Definition fallback (h : handler) (e : env) (cx : call) (s : rstate) : rstate :=
  match h_peers h with
  | Some pr =>
      if c_noForward cx then s
      else forward e Fallback cx (List.filter (eligible h cx) (ShufflePeers (e_shuffle e Fallback) pr)) s
  | None => s
  end.

(** The primary dial and its fallback, when no stage has found a connection. *)
Definition primary (h : handler) (e : env) (cx : call) (s : rstate) : rstate * bool * list stat :=
  match r_sock s with
  | Some _ => (s, true, [])
  | None =>
      if c_deadline cx <? e_clock e Primary 0 then (s, false, [])
      else
        match getOrCreate e cx (r_pool s) with
        | (Some cr, p) =>
            let p := if h_stats h && negb (bool_decide (c_clientCC cx = []))
                     then Session.setCountry (c_connID cx) (c_clientCC cx) p else p in
            (MkR (Some cr) p (r_dialled s), true, [])
        | (None, p) =>
            let s := fallback h e cx (MkR None p (r_dialled s)) in
            match r_sock s with
            | Some _ => (s, true, [])
            | None => (s, false, if h_stats h then [RejectedSession] else [])
            end
        end
  end.

(** Everything between the admission of the target and the reply. *)
Definition open_connection (h : handler) (e : env) (cx : call) (p : sessionPool) : rstate * bool * list stat :=
  match torrent_stage h e cx (MkR None p []) with
  | (s, false) => (s, false, [])
  | (s, true) =>
      primary h e cx (whitelist_peer h e cx (geo_route h e cx (region_block h e cx (same_country h e cx s))))
  end.

(** ** The endpoint *)

Record result := MkResult {
  x_resp : response;
  x_auth : Auth.authClient;
  x_pool : sessionPool;
  x_sock : option (nat * route);
  x_dialled : list PeerEntry;
  x_writes : list bytes;
  x_stats : list stat }.

Definition reply_only (r : response) (a : Auth.authClient) (p : sessionPool) : result := MkResult r a p None [] [] [].

(** The end of an upload: activity, padding and the sealed empty reply. *)
Definition upload_reply (e : env) (key : bytes) (connID : gostring) (a : Auth.authClient) (p : sessionPool)
    (sock : option (nat * route)) (dialled : list PeerEntry) (ws : list bytes) (st : list stat) : result :=
  let p := Session.recordActivity connID (e_end e) p in
  match Exit.buildUploadResponse (e_nonce e) (e_pad e) key [] with
  | Ok resp => MkResult (MkResp 200 None resp) a p sock dialled ws st
  | _ => MkResult send404 a p sock dialled ws st
  end.

(** An upload with sequence number 0: admission, routing, reply. *)
Definition upload_open (h : handler) (e : env) (q : request) (isAnon : bool) (user key connID target payload : bytes)
    (a : Auth.authClient) (p : sessionPool) : result :=
  match Net.SplitHostPort target with
  | Ok (host, portStr) =>
      match Atoi portStr with
      | Some port =>
          if target_refused h isAnon host then reply_only send404 a p
          else
            let cx := MkCall connID host port payload user (derive_clientCC h e q)
                        (bool_decide (q_noForward q = bs "1")) (e_start e + dialDecisionBudget) in
            match open_connection h e cx p with
            | (s, true, st) => upload_reply e key connID a (r_pool s) (r_sock s) (r_dialled s) [] st
            | (s, false, st) => MkResult send404 a (r_pool s) None (r_dialled s) [] st
            end
      | None => reply_only send404 a p
      end
  | _ => reply_only send404 a p
  end.

(** An upload with a later sequence number: in-order delivery to the target. *)
Definition upload_more (h : handler) (e : env) (key connID : bytes) (seq : Z) (payload : bytes)
    (a : Auth.authClient) (p : sessionPool) : result :=
  match Session.getSession connID (e_store e) p with
  | (None, p) => reply_only send404 a p
  | (Some r, p) =>
      if decide (payload = []) then upload_reply e key connID a p None [] [] []
      else
        match Session.deliver_at r (e_fail e) seq payload p with
        | (p, ws, Ok _) =>
            upload_reply e key connID a (Session.addBytesUp connID (lenZ payload) p) None [] ws []
        | (p, ws, _) =>
            MkResult send404 a (Session.close connID p) None [] ws (if h_stats h then [RejectedSession] else [])
        end
  end.

(** A stream-open frame. *)
Definition stream_open (h : handler) (e : env) (user key plain : bytes) (a : Auth.authClient) (p : sessionPool) : result :=
  match go_slice plain 1 17 with
  | Ok id =>
      let connID := Hex.encode id in
      match Session.get connID (e_store e) p with
      | (None, p) => reply_only (MkResp 404 (Some (Session.closeReason connID p)) []) a p
      | (Some _, p) =>
          let p := Session.recordActivity connID (e_store e) p in
          let '(out, n, targetClosed) := Exit.stream_loop key (e_start e + Exit.streamMaxSecs * second) 0 (e_turns e) in
          let p := if targetClosed then Session.markTargetClosed connID p else p in
          let st1 := if targetClosed && (n =? 0) && h_stats h then [RejectedSession] else [] in
          let st2 := if h_stats h && (0 <? n) then
                       match Session.snapshot connID p with
                       | Some (_, country, up) => [StatBytes user country up n]
                       | None => []
                       end
                     else [] in
          MkResult (MkResp 200 None out) a p None [] [] (st1 ++ st2)
      end
  | _ => reply_only send404 a p
  end.

(** The session check: [None] lets the request in, with the user's name. *)
Definition check_session (h : handler) (e : env) (token : gostring) (a : Auth.authClient)
    : (response + bool * gostring) * Auth.authClient :=
  let isAnon := match h_anonBoot h with Some ab => Policy.IsBootstrapToken token ab | None => false end in
  if isAnon then (inr (true, []), a)
  else
    match Auth.validateSession (e_start e) token (e_reply e) a with
    | (Auth.Decided v, a) => if Auth.v_denied v then (inl send404, a) else (inr (false, Auth.v_username v), a)
    | (Auth.Transient, a) => (inl unavailable, a)
    end.

Definition handleTunnel (h : handler) (e : env) (q : request) (a : Auth.authClient) (p : sessionPool) : result :=
  match check_session h e (q_session q) a with
  | (inl r, a) => reply_only r a p
  | (inr (isAnon, user), a) =>
      let key := Exit.sessionKey (q_session q) in
      match Exit.openTunnelFrame key (q_body q) with
      | Ok [] => reply_only send404 a p
      | Ok ((ty :: _) as plain) =>
          if ty =? Exit.frameTypeStreamOpen then
            if lenZ plain <? 1 + 16 then reply_only send404 a p else stream_open h e user key plain a p
          else if ty =? Exit.frameTypeUpload then
            match Exit.parseUploadFrame plain with
            | Ok (connID, seq, target, payload) =>
                if seq =? 0 then upload_open h e q isAnon user key connID target payload a p
                else upload_more h e key connID seq payload a p
            | _ => reply_only send404 a p
            end
          else reply_only send404 a p
      | _ => reply_only send404 a p
      end
  end.

(** ** The routing stages keep the pool's connections accounted for *)

Lemma dialled_conn_at add p p' id : dialled_to add p p' -> conn_at id p' = conn_at id p.
Proof. intros [_ Hp Hh _ _ _]. unfold conn_at, lookup_session. by rewrite Hp, Hh. Qed.

(** Storing a connection just dialled. *)
Lemma store_dialled id c u t p p' :
  dialled_to {[c]} p p' -> Session.preach p ->
  Session.preach (Session.store id c u t p')
  /\ flight (Session.store id c u t p') = flight p
  /\ (forall k, conn_at k (Session.store id c u t p') = if decide (k = id) then Some c else conn_at k p).
Proof.
  intros Hd Hr. pose proof (dt_reach _ _ _ Hd Hr) as Hr'. pose proof (dt_flight _ _ _ Hd) as Hf.
  pose proof (dt_fresh _ _ _ Hd) as Hx. split_and!.
  - eapply Session.pr_step; [done|]. apply Session.ps_store. set_solver.
  - transitivity (flight p' ∖ {[c]}); [by unfold Session.store; destruct (lookup_session id p')|].
    rewrite Hf. set_solver.
  - intros k. unfold Session.store. rewrite conn_at_install.
    2: { pose proof (proj1 (Session.preach_ok _ Hr')). by destruct (lookup_session id p'). }
    case_decide; [done|]. rewrite <- (dialled_conn_at _ _ _ k Hd). by destruct (lookup_session id p').
Qed.

(** A peer the handler may dial for a call: registered, not this exit, not in the
    client's country, and only when forwarding is allowed. *)
Record peer_ok (h : handler) (cx : call) (q : PeerEntry) : Prop := {
  po_registered : exists pr, h_peers h = Some pr /\ q ∈ peers pr;
  po_not_self : Addr q ∉ h_selfIPs h;
  po_region : Region q <> c_clientCC cx;
  po_forward : c_noForward cx = false }.

(** What holds of the routing state at every point, from the pool [p0]. *)
Record routed (h : handler) (cx : call) (p0 : sessionPool) (s : rstate) : Prop := {
  rt_reach : Session.preach (r_pool s);
  rt_flight : flight (r_pool s) = flight p0;
  rt_dialled : Forall (peer_ok h cx) (r_dialled s);
  rt_via : forall c q, r_sock s = Some (c, Via q) -> q ∈ r_dialled s;
  rt_conns : forall k, conn_at k (r_pool s) =
    match r_sock s with
    | Some (c, _) => if decide (k = c_connID cx) then Some c else conn_at k p0
    | None => conn_at k p0
    end }.

Lemma routed_init h cx p : Session.preach p -> routed h cx p (MkR None p []).
Proof. intros. by split; simpl. Qed.

Lemma eligible_ok h cx pr ps f q :
  h_peers h = Some pr -> c_noForward cx = false ->
  (forall x, x ∈ ps -> x ∈ peers pr) -> (forall x, f x = true -> eligible h cx x = true) ->
  q ∈ List.filter f ps -> peer_ok h cx q.
Proof.
  intros Hp Hn Hs Hf [Hq He%Hf]%elem_of_filter_sub. unfold eligible in He.
  apply andb_prop in He as [H1 H2]. rewrite negb_true_iff in H1, H2.
  apply bool_decide_eq_false in H1, H2. split; eauto.
Qed.

Lemma forward_routed h e g cx cands p0 s :
  Forall (peer_ok h cx) cands -> r_sock s = None -> routed h cx p0 s -> routed h cx p0 (forward e g cx cands s).
Proof.
  intros Hc Hs [Hr Hf Hd Hv Hcs]. unfold forward. case_decide; [done|]. destruct (_ <? _); [done|].
  destruct (dialBestPeer _ _ _ _) as [w p'] eqn:E. apply dialBestPeer_spec in E as [Hdt Hw].
  rewrite Hs in Hcs. destruct w as [[c q]|].
  - destruct (store_dialled (c_connID cx) c (c_user cx) (e_store e) _ _ Hdt Hr) as (R & F & C).
    split; cbn [r_pool r_dialled r_sock]; [done|congruence|by apply Forall_app|intros ?? [= _ <-]; set_solver|].
    intros k. rewrite C. case_decide; [done|apply Hcs].
  - split; cbn [r_pool r_dialled r_sock].
    + by apply (dt_reach _ _ _ Hdt).
    + rewrite (dt_flight _ _ _ Hdt). simpl. set_solver.
    + by apply Forall_app.
    + by rewrite Hs.
    + intros k. rewrite Hs, (dialled_conn_at _ _ _ k Hdt). apply Hcs.
Qed.

Lemma try_each_routed h e cx pr ps k d p0 s :
  h_peers h = Some pr -> c_noForward cx = false -> (forall x, x ∈ ps -> x ∈ peers pr) ->
  r_sock s = None -> routed h cx p0 s -> routed h cx p0 (try_each h e cx ps k d s).
Proof.
  intros Hp Hn. revert k d s. induction ps as [|q ps IH]; intros k d s Hsub Hs Hr; [done|]. cbn [try_each].
  destruct (_ <? _); [done|]. destruct (eligible h cx q) eqn:El; simpl negb; cbn iota; [|by apply IH; [set_solver|..]].
  assert (peer_ok h cx q) as Hq.
  { apply (eligible_ok h cx pr [q] (eligible h cx)); [done..|set_solver|done|]. rewrite list_elem_of_In. simpl. rewrite El. by left. }
  destruct (dialPeer _ _) as [[c|] p'] eqn:Ed; apply dialPeer_spec in Ed.
  - destruct Ed as (_ & Hd & _). destruct Hr as [R F D V C]. rewrite Hs in C.
    destruct (store_dialled (c_connID cx) c (c_user cx) (e_store e) _ _ Hd R) as (R' & F' & C').
    split; cbn [r_pool r_dialled r_sock]; [done|congruence|apply Forall_app; split; [done|by apply Forall_singleton]|intros ?? [= _ <-]; set_solver|].
    intros i. rewrite C'. case_decide; [done|apply C].
  - destruct Ed as [_ Hd]. apply IH; [set_solver|done|]. destruct Hr as [R F D V C]. split; cbn [r_pool r_dialled r_sock].
    + by apply (dt_reach _ _ _ Hd).
    + rewrite (dt_flight _ _ _ Hd), F. set_solver.
    + apply Forall_app; split; [done|by apply Forall_singleton].
    + by rewrite Hs.
    + intros i. rewrite (dialled_conn_at _ _ _ i Hd). apply C.
Qed.

(** Every stage that forwards through a filtered list of registered peers. *)
Lemma filtered_routed h e g cx pr f ps p0 s :
  h_peers h = Some pr -> c_noForward cx = false -> r_sock s = None ->
  (forall x, x ∈ ps -> x ∈ peers pr) -> (forall x, f x = true -> eligible h cx x = true) ->
  routed h cx p0 s -> routed h cx p0 (forward e g cx (List.filter f ps) s).
Proof.
  intros Hp Hn Hs Hsub Hf Hr. apply forward_routed; [|done..]. apply Forall_forall. intros x Hx.
  by apply (eligible_ok h cx pr ps f).
Qed.

Ltac routed_by_filter :=
  eapply filtered_routed; [done|done|done
    |intros ?; first [apply ShufflePeers_sub | apply PeersCapableOf_sub]
    |intros ? Hx; first [exact Hx | by apply andb_prop in Hx as [? ?]]|done].

Lemma same_country_routed h e cx p0 s : routed h cx p0 s -> routed h cx p0 (same_country h e cx s).
Proof.
  intros Hr. unfold same_country. destruct (r_sock s) eqn:Hs; [done|]. destruct (h_peers h) as [pr|] eqn:Hp; [|done].
  destruct (c_noForward cx) eqn:Hn; [done|]. case_match; [|done].
  eapply try_each_routed; [done|done|intros ?; apply ShufflePeers_sub|done|done].
Qed.

Lemma region_block_routed h e cx p0 s : routed h cx p0 s -> routed h cx p0 (region_block h e cx s).
Proof.
  intros Hr. unfold region_block. destruct (r_sock s) eqn:Hs; [done|]. destruct (h_svcBlocks h); [|done].
  destruct (h_peers h) as [pr|] eqn:Hp; [|done]. destruct (c_noForward cx) eqn:Hn; [done|].
  case_match; [|done]. cbn zeta. case_match; [|done]. routed_by_filter.
Qed.

Lemma geo_routed h e cx p0 s : routed h cx p0 s -> routed h cx p0 (geo_route h e cx s).
Proof.
  intros Hr. unfold geo_route. destruct (r_sock s) eqn:Hs; [done|]. destruct (h_cidrCache h); [|done].
  destruct (h_peers h) as [pr|] eqn:Hp; [|done]. destruct (c_noForward cx) eqn:Hn; [done|].
  case_match; [|done]. cbn zeta. case_match; [|done]. routed_by_filter.
Qed.

Lemma whitelist_routed h e cx p0 s : routed h cx p0 s -> routed h cx p0 (whitelist_peer h e cx s).
Proof.
  intros Hr. unfold whitelist_peer. destruct (r_sock s) eqn:Hs; [done|]. destruct (h_wl h), (h_probeDB h); try done.
  destruct (h_peers h) as [pr|] eqn:Hp; [|done]. destruct (c_noForward cx) eqn:Hn; [done|].
  case_match; [|done]. routed_by_filter.
Qed.

Lemma fallback_routed h e cx p0 s : r_sock s = None -> routed h cx p0 s -> routed h cx p0 (fallback h e cx s).
Proof.
  intros Hs Hr. unfold fallback. destruct (h_peers h) as [pr|] eqn:Hp; [|done].
  destruct (c_noForward cx) eqn:Hn; [done|]. routed_by_filter.
Qed.

Lemma torrent_routed h e cx p0 s ok s' :
  r_sock s = None -> routed h cx p0 s -> torrent_stage h e cx s = (s', ok) ->
  routed h cx p0 s' /\ (ok = false -> r_sock s' = None).
Proof.
  intros Hs Hr. unfold torrent_stage. destruct (_ && _); [|by intros [= <- <-]].
  destruct (h_peers h) as [pr|] eqn:Hp; [|by intros [= <- <-]].
  destruct (h_torrentAllowed h) as [ta|]; [|by intros [= <- <-]].
  destruct (c_noForward cx) eqn:Hn; [by intros [= <- <-]|]. intros [= <- <-]. split.
  - routed_by_filter.
  - intros Hno%bool_decide_eq_false. by apply eq_None_not_Some.
Qed.

(** [getOrCreate] leaves the connection it returns as the pool's. *)
Lemma getOrCreate_spec e cx p r p' :
  Session.preach p -> getOrCreate e cx p = (r, p') ->
  Session.preach p' /\ flight p' = flight p
  /\ (forall k, conn_at k p' = match r with
                              | Some (c, _) => if decide (k = c_connID cx) then Some c else conn_at k p
                              | None => conn_at k p
                              end)
  /\ (forall c q, r <> Some (c, Via q)).
Proof.
  intros Hr. unfold getOrCreate, Session.getOrCreate_lookup.
  destruct (lookup_session (c_connID cx) p) as [s|] eqn:Hl.
  - intros [= <- <-]. split_and!; [|by unfold update_session; destruct (pool p !! _)| |done].
    { pose proof (Session.pr_step _ _ Hr (Session.ps_activity (c_connID cx) (e_store e) p)) as H. exact H. }
    intros k. rewrite conn_at_update by done. case_decide as E; [subst k|done].
    unfold conn_at. by rewrite Hl.
  - destruct (e_dial e); [|by intros [= <- <-]].
    unfold Session.getOrCreate_install. change (lookup_session (c_connID cx) (dial (next_conn p) p)) with (lookup_session (c_connID cx) p).
    rewrite Hl. intros [= <- <-]. pose proof (dialled_ok p) as Hd. pose proof (dt_reach _ _ _ Hd Hr) as Hr'.
    pose proof (next_conn_fresh p) as Hx. split_and!; [| |intros k|done].
    + assert (Session.pstep (dial (next_conn p) p)
        (snd (Session.getOrCreate_install (c_connID cx) (next_conn p) (c_user cx) (e_store e) (dial (next_conn p) p)))) as Hst.
      { apply Session.ps_install. simpl. set_solver. }
      unfold Session.getOrCreate_install in Hst.
      change (lookup_session (c_connID cx) (dial (next_conn p) p)) with (lookup_session (c_connID cx) p) in Hst.
      rewrite Hl in Hst. by eapply Session.pr_step.
    + change (({[next_conn p]} ∪ flight p) ∖ {[next_conn p]} = flight p). set_solver.
    + rewrite conn_at_install by (by apply (Session.preach_ok _ Hr')).
      case_decide; [done|]. apply (dialled_conn_at _ _ _ k Hd).
Qed.

Lemma primary_routed h e cx p0 s s' ok st :
  routed h cx p0 s -> primary h e cx s = (s', ok, st) ->
  routed h cx p0 s' /\ (ok = true <-> is_Some (r_sock s')).
Proof.
  intros Hr. unfold primary. destruct (r_sock s) eqn:Hs.
  { intros [= <- <- <-]. split; [done|]. rewrite Hs. split; eauto. }
  destruct (_ <? _). { intros [= <- <- <-]. split; [done|]. rewrite Hs. by split; [|intros [? ?]]. }
  destruct (getOrCreate e cx (r_pool s)) as [r p] eqn:Hg.
  destruct (getOrCreate_spec _ _ _ _ _ (rt_reach _ _ _ _ Hr) Hg) as (R & F & C & V).
  destruct Hr as [R0 F0 D0 V0 C0]. rewrite Hs in C0. destruct r as [[c rt]|].
  - intros [= <- <- <-]. split; [|by eauto]. split; cbn [r_pool r_dialled r_sock]; try done.
    + destruct (_ && _); [|done]. apply (Session.pr_step _ _ R). apply Session.ps_country.
    + rewrite <- F0, <- F. destruct (_ && _); [|done]. by unfold Session.setCountry, update_session; destruct (pool p !! _).
    + intros c' q' [= -> ->]. by destruct (V c' q').
    + intros k. transitivity (conn_at k p). { destruct (_ && _); [by apply conn_at_update | done]. }
      rewrite C. case_decide; [done|apply C0].
  - assert (routed h cx p0 (MkR None p (r_dialled s))) as Hr.
    { split; cbn [r_pool r_dialled r_sock]; [done|congruence|done..|]. intros k. rewrite C. apply C0. }
    pose proof (fallback_routed h e cx p0 (MkR None p (r_dialled s)) eq_refl Hr) as Hfb. cbn zeta.
    destruct (r_sock (fallback h e cx (MkR None p (r_dialled s)))) eqn:Hf; intros [= <- <- <-].
    + rewrite Hf. split; [done|]. split; eauto.
    + rewrite Hf. split; [done|]. by split; [|intros [? ?]].
Qed.

Lemma open_connection_routed h e cx p s ok st :
  Session.preach p -> open_connection h e cx p = (s, ok, st) ->
  routed h cx p s /\ (ok = true <-> is_Some (r_sock s)).
Proof.
  intros Hr. unfold open_connection. destruct (torrent_stage _ _ _ _) as [s1 ok1] eqn:Ht.
  destruct (torrent_routed h e cx p (MkR None p []) _ _ eq_refl (routed_init h cx p Hr) Ht) as [H1 Hno]. destruct ok1.
  - apply primary_routed. by apply whitelist_routed, geo_routed, region_block_routed, same_country_routed.
  - intros [= <- <- <-]. split; [done|]. rewrite Hno by done. by split; [|intros [? ?]].
Qed.

(** ** The endpoint *)

(** What a request does to the pool, whichever branch it takes. *)
Definition accounted (p : sessionPool) (x : result) : Prop :=
  Session.preach (x_pool x) /\ flight (x_pool x) = flight p.

Lemma reply_accounted r a p : Session.preach p -> accounted p (reply_only r a p).
Proof. done. Qed.

Lemma upload_reply_accounted e key id a p p0 sock d ws st :
  Session.preach p -> flight p = flight p0 -> accounted p0 (upload_reply e key id a p sock d ws st).
Proof.
  intros Hr Hf. unfold upload_reply, accounted. pose proof (Session.pr_step _ _ Hr (Session.ps_activity id (e_end e) p)) as H.
  destruct (Exit.buildUploadResponse _ _ _ _); cbn [x_pool]; (split; [exact H|]);
    by rewrite <- Hf; apply update_flight.
Qed.

Lemma upload_open_accounted h e q an u key id tgt pay a p :
  Session.preach p -> accounted p (upload_open h e q an u key id tgt pay a p).
Proof.
  intros Hr. unfold upload_open. destruct (Net.SplitHostPort tgt) as [[host ps]| |]; [|done..].
  destruct (Atoi ps); [|done]. destruct (target_refused _ _ _); [done|]. cbn zeta.
  destruct (open_connection _ _ _ p) as [[s ok] st] eqn:Ho.
  apply open_connection_routed in Ho as [[R F _ _ _] _]; [|done].
  destruct ok; [by apply upload_reply_accounted | done].
Qed.

Lemma upload_more_accounted h e key id seq pay a p :
  Session.preach p -> accounted p (upload_more h e key id seq pay a p).
Proof.
  intros Hr. unfold upload_more.
  pose proof (Session.pr_step _ _ Hr (Session.ps_session id (e_store e) p)) as Hr1.
  assert (flight (snd (Session.getSession id (e_store e) p)) = flight p) as Hf1.
  { unfold Session.getSession. destruct (pool p !! id); [apply update_flight | done]. }
  destruct (Session.getSession id (e_store e) p) as [[r|] p1]; cbn [snd] in *; [|done].
  case_decide; [by apply upload_reply_accounted|].
  pose proof (Session.pr_step _ _ Hr1 (Session.ps_deliver r (e_fail e) seq pay p1)) as Hr2.
  assert (flight (fst (fst (Session.deliver_at r (e_fail e) seq pay p1))) = flight p1) as Hf2.
  { unfold Session.deliver_at. destruct (heap p1 !! r); [|done]. by destruct (Session.deliverInOrder _ _ _ _) as [[??]?]. }
  destruct (Session.deliver_at _ _ _ _ _) as [[p2 ws] [|m|]]; cbn [fst] in *.
  - apply upload_reply_accounted; [apply (Session.pr_step _ _ Hr2), Session.ps_bytes|].
    etransitivity; [apply update_flight | congruence].
  - split; [apply (Session.pr_step _ _ Hr2), Session.ps_close | cbn [x_pool]; unfold Session.close; rewrite remove_flight; congruence].
  - split; [apply (Session.pr_step _ _ Hr2), Session.ps_close | cbn [x_pool]; unfold Session.close; rewrite remove_flight; congruence].
Qed.

Lemma stream_open_accounted h e u key plain a p :
  Session.preach p -> accounted p (stream_open h e u key plain a p).
Proof.
  intros Hr. unfold stream_open. destruct (go_slice plain 1 17) as [id| |]; [|done..]. cbn zeta.
  pose proof (Session.pr_step _ _ Hr (Session.ps_get (Hex.encode id) (e_store e) p)) as Hr1.
  assert (flight (snd (Session.get (Hex.encode id) (e_store e) p)) = flight p) as Hf1.
  { unfold Session.get. destruct (lookup_session _ p) as [s|]; [|done]. destruct (Session.targetClosed s); [done|apply update_flight]. }
  destruct (Session.get _ _ p) as [[c|] p1]; cbn [snd] in *; [|done].
  destruct (Exit.stream_loop _ _ _ _) as [[out n] tc]. unfold accounted. cbn [x_pool].
  pose proof (Session.pr_step _ _ Hr1 (Session.ps_activity (Hex.encode id) (e_store e) p1)) as Hr2.
  rewrite <- Hf1. destruct tc; [split; [apply (Session.pr_step _ _ Hr2), Session.ps_mark|]|split; [done|]];
    unfold Session.markTargetClosed, Session.recordActivity; by rewrite !update_flight.
Qed.

(** C7: The endpoint leaks no connection: from any pool the exit can reach, after any
    request, in any environment, the pool is again one the exit can reach (so every
    open connection is owned by exactly one session) and the connections held outside
    the pool are those held before, i.e. every dial of a race that lost was closed. *)
Theorem tunnel_leaks_nothing h e q a p :
  Session.preach p ->
  Session.preach (x_pool (handleTunnel h e q a p)) /\ flight (x_pool (handleTunnel h e q a p)) = flight p.
Proof.
  intros Hr. change (accounted p (handleTunnel h e q a p)). unfold handleTunnel.
  destruct (check_session _ _ _ _) as [[r|[an u]] a1]; [done|]. cbn zeta.
  destruct (Exit.openTunnelFrame _ _) as [[|ty pl]| |]; [done| |done..].
  destruct (_ =? _); [destruct (_ <? _); [done|by apply stream_open_accounted]|].
  destruct (_ =? _); [|done]. destruct (Exit.parseUploadFrame _) as [[[[id seq] tgt] pay]| |]; [|done..].
  destruct (_ =? _); [by apply upload_open_accounted | by apply upload_more_accounted].
Qed.

(** The call an opening upload stands for. *)
Definition call_of (h : handler) (e : env) (q : request) (id host : gostring) (port : Z) (pay user : bytes) : call :=
  MkCall id host port pay user (derive_clientCC h e q) (bool_decide (q_noForward q = bs "1")) (e_start e + dialDecisionBudget).

(** A request dials peers only in an opening upload's [open_connection]. *)
Lemma dialled_open h e q a p :
  x_dialled (handleTunnel h e q a p) = [] /\ x_sock (handleTunnel h e q a p) = None
  \/ exists id host port pay user s ok st,
       open_connection h e (call_of h e q id host port pay user) p = (s, ok, st)
       /\ x_dialled (handleTunnel h e q a p) = r_dialled s
       /\ (x_sock (handleTunnel h e q a p) = None \/ x_sock (handleTunnel h e q a p) = r_sock s).
Proof.
  unfold handleTunnel. destruct (check_session _ _ _ _) as [[r|[an u]] a1]; [by left|]. cbn zeta.
  destruct (Exit.openTunnelFrame _ _) as [[|ty pl]| |]; [by left| |by left..].
  destruct (_ =? _).
  { destruct (_ <? _); [by left|]. unfold stream_open. destruct (go_slice _ _ _); [|by left..]. cbn zeta.
    destruct (Session.get _ _ _) as [[c|] p1]; [|by left]. destruct (Exit.stream_loop _ _ _ _) as [[??]?]. by left. }
  destruct (_ =? _); [|by left]. destruct (Exit.parseUploadFrame _) as [[[[id seq] tgt] pay]| |]; [|by left..].
  assert (forall e key id a p sock d ws st, x_dialled (upload_reply e key id a p sock d ws st) = d
    /\ x_sock (upload_reply e key id a p sock d ws st) = sock) as Hu.
  { intros. unfold upload_reply. by destruct (Exit.buildUploadResponse _ _ _ _). }
  destruct (_ =? _).
  - unfold upload_open. destruct (Net.SplitHostPort tgt) as [[host ps]| |]; [|by left..].
    destruct (Atoi ps) as [port|]; [|by left]. destruct (target_refused _ _ _); [by left|]. cbn zeta.
    destruct (open_connection _ _ _ p) as [[s ok] st] eqn:Ho. right.
    exists id, host, port, pay, u, s, ok, st. split; [done|].
    destruct ok; [destruct (Hu e (Exit.sessionKey (q_session q)) id a1 (r_pool s) (r_sock s) (r_dialled s) [] st); eauto | by eauto].
  - left. unfold upload_more. destruct (Session.getSession _ _ _) as [[r|] p1]; [|done].
    case_decide; [apply Hu|]. destruct (Session.deliver_at _ _ _ _ _) as [[p2 ws] [|m|]]; [apply Hu|done|done].
Qed.

(** C1: Traffic is forwarded only where the policy allows it: every peer a request
    makes the exit contact, whichever redirect chose it, is in the arbiter's list, is
    not in the client's country (as the request's headers or its address give it) and is
    contacted only when the request does not forbid forwarding; and the peer a connection goes
    through is one of them. The test meant to keep the exit from itself only gives that the
    peer's host:port string is none of the exit's own addresses, which carry no port: see
    [exit_contacts_itself]. *)
Theorem peers_contacted_are_eligible h e q a p :
  Session.preach p ->
  let x := handleTunnel h e q a p in
  (forall peer, peer ∈ x_dialled x ->
     (exists pr, h_peers h = Some pr /\ peer ∈ peers pr)
     /\ Addr peer ∉ h_selfIPs h /\ Region peer <> derive_clientCC h e q /\ q_noForward q <> bs "1")
  /\ (forall c peer, x_sock x = Some (c, Via peer) -> peer ∈ x_dialled x).
Proof.
  intros Hr. cbn zeta. destruct (dialled_open h e q a p) as [[-> ->]|(id & host & port & pay & u & s & ok & st & Ho & -> & Hsock)].
  { split; [by intros ? ?%not_elem_of_nil | done]. }
  apply open_connection_routed in Ho as [[_ _ D V _] _]; [|done]. split.
  - intros peer [P1 P2 P3 P4]%(proj1 (Forall_forall _ _) D). split_and!; [done..|]. by apply bool_decide_eq_false in P4.
  - intros c peer. destruct Hsock as [-> | ->]; [done|apply V].
Qed.

(** A request that was let in and carries an upload frame. *)
Record uploading (h : handler) (e : env) (q : request) (a : Auth.authClient)
    (isAnon : bool) (user : gostring) (a' : Auth.authClient) (id : gostring) (seq : Z) (target payload : bytes) : Prop := {
  up_admit : check_session h e (q_session q) a = (inr (isAnon, user), a');
  up_frame : exists plain, Exit.openTunnelFrame (Exit.sessionKey (q_session q)) (q_body q) = Ok plain
               /\ Exit.parseUploadFrame plain = Ok (id, seq, target, payload) }.

Lemma upload_frame_type plain id seq target payload :
  Exit.parseUploadFrame plain = Ok (id, seq, target, payload) -> exists rest, plain = Exit.frameTypeUpload :: rest.
Proof.
  unfold Exit.parseUploadFrame. destruct (_ <? _); [done|]. destruct plain as [|ty rest]; [done|].
  change (go_index (ty :: rest) 0) with (Ok ty). cbn [mbind res_bind].
  destruct (Z.eqb_spec ty Exit.frameTypeUpload) as [->|]; [by eauto | done].
Qed.

Lemma handle_upload h e q a an user a' id seq target payload p :
  uploading h e q a an user a' id seq target payload ->
  handleTunnel h e q a p =
    if seq =? 0 then upload_open h e q an user (Exit.sessionKey (q_session q)) id target payload a' p
    else upload_more h e (Exit.sessionKey (q_session q)) id seq payload a' p.
Proof.
  intros [Ha (plain & Hf & Hp)]. unfold handleTunnel. rewrite Ha. cbn zeta iota beta. rewrite Hf.
  destruct (upload_frame_type _ _ _ _ _ Hp) as [rest ->]. rewrite Hp. done.
Qed.

(** Targets no client may reach through an exit. *)
Inductive forbidden (h : handler) (isAnon : bool) (host : gostring) : Prop :=
| fb_self : host ∈ h_selfIPs h -> forbidden h isAnon host
| fb_loopback ip : Net.ParseIP host = Some ip -> Net.IsLoopback ip = true -> forbidden h isAnon host
| fb_linklocal ip : Net.ParseIP host = Some ip -> Net.IsLinkLocalUnicast ip = true -> forbidden h isAnon host
| fb_blacklist addrs : h_bl h = Some addrs -> Strings.ToLower host ∈ addrs -> forbidden h isAnon host
| fb_anon : isAnon = true ->
    (forall ab, h_anonBoot h = Some ab -> Policy.IsAllowed_anon host (target_ip host) ab = false) -> forbidden h isAnon host.

Lemma target_refused_spec h an host : target_refused h an host = true <-> forbidden h an host.
Proof.
  unfold target_refused. rewrite !orb_true_iff, bool_decide_eq_true. split.
  - intros [[[?|H]|H]|H]; [by apply fb_self|..].
    + destruct (Net.ParseIP host) eqn:E; [|done]. apply orb_true_iff in H as [?|?]; [by eapply fb_loopback | by eapply fb_linklocal].
    + destruct (h_bl h) eqn:E; [|done]. eapply fb_blacklist; [done|]. by apply bool_decide_eq_true in H.
    + apply andb_prop in H as [? H%negb_true_iff]. apply fb_anon; [done|]. intros ab E. by rewrite E in H.
  - intros [?|ip E H|ip E H|addrs E H|Ha H]; [by left; left; left|..].
    + left; left; right. by rewrite E, H.
    + left; left; right. rewrite E, H. apply orb_true_r.
    + left; right. rewrite E. by apply bool_decide_eq_true.
    + right. rewrite Ha. destruct (h_anonBoot h) as [ab|] eqn:E; [|done]. by rewrite (H ab).
Qed.

(** C8: A target that is this exit, a loopback or link-local address, blacklisted, or
    off the allowlist of an anonymous session, is answered 404 with nothing done: no
    peer is dialled and the session pool stays as it is. *)
Theorem forbidden_targets_refused h e q a an user a' id target payload p host port :
  uploading h e q a an user a' id 0 target payload ->
  Net.SplitHostPort target = Ok (host, port) -> forbidden h an host ->
  handleTunnel h e q a p = MkResult (MkResp 404 None []) a' p None [] [] [].
Proof.
  intros Hu Hs Hf%target_refused_spec. rewrite (handle_upload _ _ _ _ _ _ _ _ _ _ _ _ Hu). cbn [Z.eqb].
  unfold upload_open. rewrite Hs, Hf. by destruct (Atoi port).
Qed.

(** What [upload_open] comes to once the target is admitted. *)
Lemma opening_admitted h e q a an user a' id target payload p host port n :
  uploading h e q a an user a' id 0 target payload ->
  Net.SplitHostPort target = Ok (host, port) -> Atoi port = Some n -> ~ forbidden h an host ->
  handleTunnel h e q a p =
    match open_connection h e (call_of h e q id host n payload user) p with
    | (s, true, st) => upload_reply e (Exit.sessionKey (q_session q)) id a' (r_pool s) (r_sock s) (r_dialled s) [] st
    | (s, false, st) => MkResult send404 a' (r_pool s) None (r_dialled s) [] st
    end.
Proof.
  intros Hu Hs Hn Hf. rewrite (handle_upload _ _ _ _ _ _ _ _ _ _ _ _ Hu). cbn [Z.eqb].
  unfold upload_open. rewrite Hs, Hn. destruct (target_refused h an host) eqn:E; [|done].
  by apply target_refused_spec in E.
Qed.

(** C29: The outcome of an opening upload to an admitted target. It is 200 exactly when
    some route was found, and then the pool's connection for the client's identifier
    is the routed one while every other identifier keeps its own; otherwise it is 404
    and every identifier keeps its connection. The opening payload is written to no
    target. *)
Theorem opening_outcome h e q a an user a' id target payload p host port n nonce :
  Session.preach p -> uploading h e q a an user a' id 0 target payload ->
  Net.SplitHostPort target = Ok (host, port) -> Atoi port = Some n -> ~ forbidden h an host ->
  e_nonce e = Ok nonce ->
  let x := handleTunnel h e q a p in
  x_writes x = []
  /\ match x_sock x with
     | Some (c, _) => status (x_resp x) = 200
         /\ (forall k, conn_at k (x_pool x) = if decide (k = id) then Some c else conn_at k p)
     | None => status (x_resp x) = 404 /\ forall k, conn_at k (x_pool x) = conn_at k p
     end.
Proof.
  intros Hr Hu Hs Hn Hf He. cbn zeta. rewrite (opening_admitted _ _ _ _ _ _ _ _ _ _ _ _ _ _ Hu Hs Hn Hf).
  destruct (open_connection _ _ _ p) as [[s ok] st] eqn:Ho.
  apply open_connection_routed in Ho as [[_ _ _ _ C] Hok]; [|done]. destruct ok.
  - unfold upload_reply, Exit.buildUploadResponse, Exit.sealTunnelData, Exit.sessionKey. rewrite blake2b_length, He. cbn -[conn_at Z.ltb be_put].
    split; [done|]. destruct (r_sock s) as [[c rt]|]; [|by destruct (proj1 Hok eq_refl)]. split; [done|]. intros k.
    etransitivity; [by apply conn_at_update | apply C].
  - cbn -[conn_at]. split; [done|]. split; [done|]. intros k. rewrite C.
    destruct (r_sock s) as [[c rt]|]; [|done]. assert (false = true) by (by apply Hok). done.
Qed.

(** *** Torrent egress *)

Lemma forward_sock e g cx cands s c rt :
  r_sock (forward e g cx cands s) = Some (c, rt) ->
  r_sock s = Some (c, rt) \/ exists q, rt = Via q /\ q ∈ cands.
Proof.
  unfold forward. case_decide; [by left|]. destruct (_ <? _); [by left|].
  destruct (dialBestPeer _ _ _ _) as [[[c' q]|] p'] eqn:E; [|by left]. apply dialBestPeer_spec in E as [_ Hq].
  simpl. intros [= -> <-]. right. eauto.
Qed.

Lemma torrent_sock h e cx p s ok :
  torrent_stage h e cx (MkR None p []) = (s, ok) ->
  (ok = false -> r_sock s = None) /\ forall c rt, r_sock s = Some (c, rt) -> exists q, rt = Via q.
Proof.
  unfold torrent_stage. destruct (_ && _); [|by intros [= <- <-]].
  destruct (h_peers h), (h_torrentAllowed h); try by intros [= <- <-].
  destruct (c_noForward cx); [by intros [= <- <-]|]. intros [= <- <-]. split.
  - intros Hno%bool_decide_eq_false. by apply eq_None_not_Some.
  - by intros c rt [?|(q & -> & _)]%forward_sock; [|eauto].
Qed.

(** Once a stage has found a connection, the later ones keep it. *)
Lemma stages_keep h e cx s c rt :
  r_sock s = Some (c, rt) ->
  same_country h e cx s = s /\ region_block h e cx s = s /\ geo_route h e cx s = s
  /\ whitelist_peer h e cx s = s /\ primary h e cx s = (s, true, []).
Proof. intros H. unfold same_country, region_block, geo_route, whitelist_peer, primary. by rewrite H. Qed.

Lemma open_after h e cx p s c rt :
  torrent_stage h e cx (MkR None p []) = (s, true) -> r_sock (same_country h e cx s) = Some (c, rt) ->
  open_connection h e cx p = (same_country h e cx s, true, []).
Proof.
  intros Ht Hs. unfold open_connection. rewrite Ht.
  destruct (stages_keep h e cx _ _ _ Hs) as (_ & -> & -> & -> & ->). done.
Qed.

(** On an exit that does not allow torrents, an opening that looks like BitTorrent
    (the handshake in its payload, or a port of the classic range) never leaves this
    exit directly and reuses no session: it goes through a peer that is allowed to
    carry torrents, or is answered 404. *)
Theorem torrents_only_through_allowed_peers h e q a an user a' id target payload p host port n :
  Session.preach p -> uploading h e q a an user a' id 0 target payload ->
  Net.SplitHostPort target = Ok (host, port) -> Atoi port = Some n -> ~ forbidden h an host ->
  self_allows_torrent h = false -> isBitTorrentHandshake payload || isLikelyBitTorrentPort n = true ->
  let x := handleTunnel h e q a p in
  match x_sock x with
  | Some (_, Via peer) => exists ta, h_torrentAllowed h = Some ta /\ Strings.ToLower (Addr peer) ∉ Policy.ta_blocked ta
  | Some (_, Direct) | Some (_, Reused) => False
  | None => status (x_resp x) = 404
  end.
Proof.
  intros Hr Hu Hs Hn Hf Hself Hbt. cbn zeta. rewrite (opening_admitted _ _ _ _ _ _ _ _ _ _ _ _ _ _ Hu Hs Hn Hf).
  set (cx := call_of _ _ _ _ _ _ _ _). assert (is_torrent cx = true) as Ht by done.
  destruct (torrent_stage h e cx (MkR None p [])) as [s ok] eqn:Hst.
  pose proof Hst as Hst'. unfold torrent_stage in Hst'. rewrite Hself, Ht in Hst'. cbn [negb andb] in Hst'.
  destruct ok; [|by unfold open_connection; rewrite Hst].
  destruct (h_peers h) as [pr|]; [|done]. destruct (h_torrentAllowed h) as [ta|]; [|done].
  destruct (c_noForward cx); [done|]. injection Hst' as Hs1 Hb. rewrite Hs1 in Hb.
  apply bool_decide_eq_true in Hb as [[c rt] Hsock]. pose proof Hsock as Hk. rewrite <- Hs1 in Hk.
  apply forward_sock in Hk as [?|(peer & -> & Hin)]; [done|].
  destruct (stages_keep h e cx _ _ _ Hsock) as [Hsc _].
  rewrite (open_after h e cx p s c (Via peer)) by (done || by rewrite Hsc). rewrite Hsc.
  assert (x_sock (upload_reply e (Exit.sessionKey (q_session q)) id a' (r_pool s) (r_sock s) (r_dialled s) [] []) = Some (c, Via peer)) as ->.
  { unfold upload_reply. by destruct (Exit.buildUploadResponse _ _ _ _). }
  exists ta. split; [done|]. apply elem_of_filter_sub in Hin as [_ [_ Hall]%andb_prop].
  apply negb_true_iff, bool_decide_eq_false in Hall. done.
Qed.

(** *** Same-country redirect *)

Lemma try_each_None h e cx ps k d s :
  r_sock (try_each h e cx ps k d s) = None ->
  (exists i, (i < length ps)%nat /\ c_deadline cx < e_clock e SameCountry (k + i))
  \/ forall i, (i < length (List.filter (eligible h cx) ps))%nat -> accepted (e_answer e SameCountry (d + i)) = false.
Proof.
  revert k d s. induction ps as [|q ps IH]; intros k d s; cbn [try_each List.filter length].
  { intros _. right. lia. }
  destruct (Z.ltb_spec (c_deadline cx) (e_clock e SameCountry k)) as [Hlt|_].
  { intros _. left. exists 0%nat. rewrite Nat.add_0_r. split; [lia|done]. }
  assert (forall i, (i < length ps)%nat /\ c_deadline cx < e_clock e SameCountry (S k + i) ->
    exists i, (i < S (length ps))%nat /\ c_deadline cx < e_clock e SameCountry (k + i)) as Hshift.
  { intros i [? ?]. exists (S i). rewrite <- Nat.add_succ_comm. split; [lia|done]. }
  destruct (eligible h cx q); cbn [negb length].
  - destruct (dialPeer _ _) as [[c|] p'] eqn:Hd; apply dialPeer_spec in Hd; [done|]. destruct Hd as [Hd _].
    intros [[i Hi]|Hall]%IH; [left; by eapply Hshift|].
    right. intros [|i] Hi; [by rewrite Nat.add_0_r|]. rewrite <- Nat.add_succ_comm. apply Hall. lia.
  - intros [[i Hi]|Hall]%IH; [left; by eapply Hshift | by right].
Qed.

Lemma try_each_sock h e cx ps k d s c rt :
  r_sock s = None -> r_sock (try_each h e cx ps k d s) = Some (c, rt) -> exists q, rt = Via q.
Proof.
  revert k d s. induction ps as [|q ps IH]; intros k d s Hs; cbn [try_each]; [congruence|].
  destruct (_ <? _); [congruence|]. destruct (negb _); [by apply IH|].
  destruct (dialPeer _ _) as [[c'|] p']; [|by apply IH]. simpl. intros [= _ <-]. eauto.
Qed.

(** An exit in the client's own country sends the client's traffic out directly
    (or over a session it already had) only after the dial budget ran out while the
    peers were being tried, or after a dial to each live registered peer of another
    country failed. *)
Theorem same_country_last_resort h e cx p s ok st c rt pr :
  h_peers h = Some pr -> c_noForward cx = false -> c_clientCC cx <> [] -> myRegion pr = c_clientCC cx ->
  open_connection h e cx p = (s, ok, st) -> r_sock s = Some (c, rt) -> rt = Direct \/ rt = Reused ->
  let ps := ShufflePeers (e_shuffle e SameCountry) pr in
  (exists i, (i < length ps)%nat /\ c_deadline cx < e_clock e SameCountry i)
  \/ forall i, (i < length (List.filter (eligible h cx) ps))%nat -> accepted (e_answer e SameCountry i) = false.
Proof.
  intros Hp Hn Hcc Hreg Ho Hs Hrt ps. destruct (torrent_stage h e cx (MkR None p [])) as [s1 ok1] eqn:Ht.
  destruct (torrent_sock _ _ _ _ _ _ Ht) as [Hno Hvia]. destruct ok1.
  2: { unfold open_connection in Ho. rewrite Ht in Ho. injection Ho as <- _ _. by rewrite Hno in Hs. }
  assert (forall c' q, r_sock (same_country h e cx s1) <> Some (c', Via q)) as Hdir.
  { intros c' q Hv. rewrite (open_after _ _ _ _ _ _ _ Ht Hv) in Ho. injection Ho as <- _ _.
    rewrite Hv in Hs. injection Hs as <- <-. by destruct Hrt. }
  assert (r_sock s1 = None) as H1.
  { destruct (r_sock s1) as [[c1 rt1]|] eqn:E; [|done]. destruct (stages_keep h e cx _ _ _ E) as [Hk _].
    destruct (Hvia _ _ eq_refl) as [q ->]. by destruct (Hdir c1 q); rewrite Hk. }
  assert (same_country h e cx s1 = try_each h e cx ps 0 0 s1) as Hsc.
  { unfold same_country, my_region. rewrite H1, Hp, Hn, Hreg.
    rewrite bool_decide_eq_false_2, bool_decide_eq_true_2 by done. done. }
  destruct (r_sock (try_each h e cx ps 0 0 s1)) as [[c1 rt1]|] eqn:E; [|by apply (try_each_None _ _ _ _ _ _ _ E)].
  exfalso. destruct (try_each_sock _ _ _ _ _ _ _ _ _ H1 E) as [q ->]. by destruct (Hdir c1 q); rewrite Hsc.
Qed.

(** *** Later uploads *)

Lemma conn_at_deliver r fail seq pay p p' ws res k :
  Session.deliver_at r fail seq pay p = (p', ws, res) -> conn_at k p' = conn_at k p.
Proof.
  unfold Session.deliver_at. destruct (heap p !! r) as [s|] eqn:E; [|by intros [= <- <- <-]].
  pose proof (Session.deliver_conn fail seq pay s) as Hc.
  destruct (Session.deliverInOrder fail seq pay s) as [[s' ws'] r'] eqn:Ed. cbn [fst] in Hc. intros [= <- <- <-].
  unfold conn_at. rewrite <- !abs_lookup. destruct p as [hp po op fl]. simpl in E.
  by rewrite (abs_insert r s' s).
Qed.

(** When an upload cannot be delivered (a write to the target fails or the reorder
    buffer is full) the session ends: the reply is 404, what was written is only what
    preceded the failure, the identifier is no longer in the pool and its connection
    is closed, so no later frame can skip the gap. *)
Theorem failed_delivery_closes h e q a an user a' id seq target payload p r p1 p2 ws m :
  uploading h e q a an user a' id seq target payload -> seq <> 0 -> payload <> [] ->
  Session.getSession id (e_store e) p = (Some r, p1) ->
  Session.deliver_at r (e_fail e) seq payload p1 = (p2, ws, Err m) ->
  let x := handleTunnel h e q a p in
  status (x_resp x) = 404 /\ x_writes x = ws /\ lookup_session id (x_pool x) = None
  /\ forall s, lookup_session id p = Some s -> Session.conn s ∉ open (x_pool x).
Proof.
  intros Hu Hseq Hpay Hg Hd. cbn zeta. rewrite (handle_upload _ _ _ _ _ _ _ _ _ _ _ _ Hu).
  rewrite (proj2 (Z.eqb_neq seq 0) Hseq). unfold upload_more. rewrite Hg, decide_False, Hd by done.
  cbn [x_resp x_writes x_pool status send404]. split_and!; [done..| |].
  { unfold Session.close. rewrite remove_lookup. by rewrite decide_True. }
  intros s Hs. assert (conn_at id p2 = Some (Session.conn s)) as Hc.
  { rewrite (conn_at_deliver _ _ _ _ _ _ _ _ id Hd). unfold Session.getSession in Hg.
    destruct (pool p !! id); [|done]. injection Hg as <- <-. rewrite conn_at_update by done. unfold conn_at. by rewrite Hs. }
  unfold conn_at in Hc. unfold Session.close, remove. destruct (lookup_session id p2) as [s2|]; [|done].
  injection Hc as Hc. simpl. change (conn_of s2) with (Session.conn s2) in *. rewrite <- Hc. set_solver.
Qed.

(** The torrent policy is consulted for opening uploads only: the reply to any later
    upload, and what it writes to the target, is the same whatever the policy says, so a
    BitTorrent handshake sent in a later frame passes unnoticed. *)
Theorem torrent_policy_only_at_opening h e q a an user a' id seq target payload p ta :
  uploading h e q a an user a' id seq target payload -> seq <> 0 ->
  handleTunnel (MkHandler (h_selfIPs h) (h_bl h) (h_anonBoot h) (h_wl h) (h_svcBlocks h) ta (h_peers h) (h_probeDB h)
      (h_cidrCache h) (h_providerTag h) (h_stats h)) e q a p
  = handleTunnel h e q a p.
Proof.
  intros Hu Hseq. rewrite (handle_upload h e q a an user a' id seq target payload p Hu).
  rewrite (handle_upload _ e q a an user a' id seq target payload p); [|by destruct Hu; split].
  by rewrite (proj2 (Z.eqb_neq seq 0) Hseq).
Qed.

(** *** Whitelist routing *)

Lemma runProbes_dom dials entries seen caps d v :
  runProbes dials entries seen caps !! d = Some v ->
  caps !! d = Some v \/ exists r, r ∈ entries /\ probe_target r = Some d.
Proof.
  revert seen caps. induction entries as [|r entries IH]; intros seen caps; cbn [runProbes]; [by left|].
  assert (forall r', r' ∈ entries /\ probe_target r' = Some d -> exists r', r' ∈ r :: entries /\ probe_target r' = Some d) as Hw.
  { intros r' [? ?]. exists r'. split; [by right|done]. }
  destruct (probe_target r) as [d'|] eqn:Hp; [case_decide|];
    (intros [Hc|[r' Hr']]%IH; [|right; by eapply Hw]); try by left.
  destruct (decide (d' = d)) as [->|Hn]; [|by rewrite lookup_insert_ne in Hc; [left|]].
  right. exists r. split; [by left|done].
Qed.

(** The whitelist redirect works for hosts that a rule names literally only. With
    capabilities as the exit's own probes record them, a host that is not itself the
    probed name of a rule (any subdomain a wildcard rule covers, any address a CIDR rule
    covers) is never redirected, whether this exit can reach it or not. *)
Theorem whitelist_redirect_exact_hosts h e cx s wl dials :
  h_probeDB h = Some (runProbes dials wl ∅ ∅) -> h_wl h = Some wl ->
  (forall r, r ∈ wl -> probe_target r <> Some (c_host cx)) ->
  whitelist_peer h e cx s = s.
Proof.
  intros Hdb Hwl Hno. unfold whitelist_peer. rewrite Hdb, Hwl. destruct (r_sock s); [done|]. destruct (h_peers h); [|done].
  assert (CanReach (c_host cx) (runProbes dials wl ∅ ∅) = true) as ->; [|by rewrite andb_false_r].
  unfold CanReach. destruct (runProbes dials wl ∅ ∅ !! c_host cx) as [v|] eqn:E; [|done].
  apply runProbes_dom in E as [E|(r & Hr & Hp)]; [done|]. by destruct (Hno r Hr).
Qed.
End handler.

(** ** Witnesses *)

Definition test_peer : PeerEntry := MkPeer (bs "p.example:443") (bs "DE") None [].
Definition test_handler : handler :=
  MkHandler {[bs "127.0.0.1"]} (Some {[bs "bad.example"]}) None (Some []) None (Some (Policy.MkTorrent ∅ false))
    (Some (MkRegistry (bs "FR") [test_peer] ∅ 0)) (Some ∅) None [] true.
Definition test_verdict : Z * bytes := (200, Auth.json "{'user':'bob','client_id':'7','denied':false}").
(** Dials succeed in the stages where [ok] holds. *)
Definition test_env (ok : stage -> bool) : env :=
  MkEnv 0 1 2 (fun _ _ => 0) (fun _ _ => 0%nat) (fun _ _ => 0%nat)
    (fun g _ => MkAnswer false (ok g) true (Some 200)) (ok Primary) [] (Ok test_verdict)
    (fun _ => true) [] (Ok (replicate 12 7)) (fun n => replicate n 0).
Definition test_id : gostring := Hex.encode (replicate 16 171).
Definition test_plain (seq : Z) (target payload : string) : bytes :=
  Client.buildUploadPlain test_id seq (bs target) (bs payload).
Definition test_req (seq : Z) (target payload : string) : request :=
  MkReq (bs "tok") [] (bs "fr") [] (bs "9.9.9.9")
    (replicate 12 7 ++ aead_seal (Exit.sessionKey (bs "tok")) (replicate 12 7) (test_plain seq target payload)).
Definition test_auth : Auth.authClient :=
  snd (check_session test_handler (test_env (fun _ => true)) (bs "tok") Auth.newAuthClient).

Lemma test_uploading ok seq target payload :
  Exit.parseUploadFrame (test_plain seq target payload) = Ok (test_id, seq, bs target, bs payload) ->
  uploading test_handler (test_env ok) (test_req seq target payload) Auth.newAuthClient false (bs "bob") test_auth
    test_id seq (bs target) (bs payload).
Proof.
  intros H. split; [vm_compute; reflexivity|]. exists (test_plain seq target payload). split; [|done].
  apply (open_seal (replicate 12 7) (Exit.sessionKey (bs "tok")) (test_plain seq target payload)); reflexivity.
Qed.

Lemma tunnel_leaks_nothing_witness :
  let x := handleTunnel test_handler (test_env (fun _ => true)) (test_req 0 "t.example:80" "") Auth.newAuthClient Session.newSessionPool in
  Session.preach (x_pool x) /\ flight (x_pool x) = ∅.
Proof.
  exact (tunnel_leaks_nothing test_handler (test_env (fun _ => true)) (test_req 0 "t.example:80" "") Auth.newAuthClient
    Session.newSessionPool Session.pr_init).
Defined.

Lemma peers_contacted_are_eligible_witness :
  let x := handleTunnel test_handler (test_env (fun _ => true)) (test_req 0 "t.example:80" "") Auth.newAuthClient Session.newSessionPool in
  x_sock x = Some (1%nat, Via test_peer) /\ test_peer ∈ x_dialled x.
Proof.
  intros x. assert (x_sock x = Some (1%nat, Via test_peer)) as Hx by (vm_compute; reflexivity). split; [exact Hx|].
  exact (proj2 (peers_contacted_are_eligible test_handler (test_env (fun _ => true)) (test_req 0 "t.example:80" "")
    Auth.newAuthClient Session.newSessionPool Session.pr_init) 1%nat test_peer Hx).
Defined.

(** The exit can be its own peer: its own entry in the arbiter's list, host and port,
    passes the test against its own addresses, and a request is forwarded to it. *)
Definition self_peer : PeerEntry := MkPeer (bs "10.0.0.1:443") (bs "DE") None [].
Definition self_handler : handler :=
  MkHandler {[bs "10.0.0.1"]} (h_bl test_handler) None (Some []) None (h_torrentAllowed test_handler)
    (Some (MkRegistry (bs "FR") [self_peer] ∅ 0)) (Some ∅) None [] true.
Theorem exit_contacts_itself :
  let x := handleTunnel self_handler (test_env (fun _ => true)) (test_req 0 "t.example:80" "") Auth.newAuthClient Session.newSessionPool in
  Net.SplitHostPort (Addr self_peer) = Ok (bs "10.0.0.1", bs "443") /\ bs "10.0.0.1" ∈ h_selfIPs self_handler
  /\ x_sock x = Some (1%nat, Via self_peer).
Proof. cbv zeta. split_and!; [vm_compute; reflexivity | set_solver | vm_compute; reflexivity]. Qed.

Lemma forbidden_targets_refused_witness :
  handleTunnel test_handler (test_env (fun _ => true)) (test_req 0 "Bad.Example:80" "") Auth.newAuthClient Session.newSessionPool
  = MkResult (MkResp 404 None []) test_auth Session.newSessionPool None [] [] [].
Proof.
  eapply (forbidden_targets_refused _ _ _ _ false (bs "bob") _ test_id (bs "Bad.Example:80") [] _ (bs "Bad.Example") (bs "80")).
  - apply test_uploading. vm_compute. reflexivity.
  - vm_compute. reflexivity.
  - eapply fb_blacklist; [reflexivity|]. apply (bool_decide_eq_true _). vm_compute. reflexivity.
Defined.

Lemma test_not_forbidden host : target_refused test_handler false host = false -> ~ forbidden test_handler false host.
Proof. intros H Hf%target_refused_spec. by rewrite H in Hf. Qed.

Lemma opening_outcome_witness :
  let x := handleTunnel test_handler (test_env (fun _ => false)) (test_req 0 "t.example:80" "") Auth.newAuthClient Session.newSessionPool in
  x_writes x = [] /\ status (x_resp x) = 404.
Proof.
  intros x. destruct (opening_outcome test_handler (test_env (fun _ => false)) (test_req 0 "t.example:80" "")
    Auth.newAuthClient false (bs "bob") test_auth test_id (bs "t.example:80") [] Session.newSessionPool
    (bs "t.example") (bs "80") 80 (replicate 12 7)) as [Hw Hs].
  - apply Session.pr_init.
  - apply test_uploading. vm_compute. reflexivity.
  - vm_compute. reflexivity.
  - vm_compute. reflexivity.
  - apply test_not_forbidden. vm_compute. reflexivity.
  - reflexivity.
  - split; [exact Hw|]. assert (x_sock x = None) as Hx by (vm_compute; reflexivity).
    fold x in Hs. rewrite Hx in Hs. exact (proj1 Hs).
Defined.

Lemma torrents_only_through_allowed_peers_witness :
  let x := handleTunnel test_handler (test_env (fun _ => true)) (test_req 0 "t.example:6881" "") Auth.newAuthClient Session.newSessionPool in
  exists ta, h_torrentAllowed test_handler = Some ta /\ Strings.ToLower (Addr test_peer) ∉ Policy.ta_blocked ta.
Proof.
  intros x. pose proof (torrents_only_through_allowed_peers test_handler (test_env (fun _ => true)) (test_req 0 "t.example:6881" "")
    Auth.newAuthClient false (bs "bob") test_auth test_id (bs "t.example:6881") [] Session.newSessionPool
    (bs "t.example") (bs "6881") 6881) as H.
  assert (x_sock x = Some (1%nat, Via test_peer)) as Hx by (vm_compute; reflexivity). cbn zeta in H. fold x in H. rewrite Hx in H. apply H.
  - apply Session.pr_init.
  - apply test_uploading. vm_compute. reflexivity.
  - vm_compute. reflexivity.
  - vm_compute. reflexivity.
  - apply test_not_forbidden. vm_compute. reflexivity.
  - reflexivity.
  - reflexivity.
Defined.

(** Every redirect fails and the exit dials itself. *)
Definition direct_only (g : stage) : bool := match g with Primary => true | _ => false end.
Definition test_call : call := MkCall test_id (bs "t.example") 80 [] (bs "bob") (bs "FR") false 15.

Definition direct_open : rstate * bool * list stat :=
  open_connection test_handler (test_env direct_only) test_call Session.newSessionPool.

Lemma same_country_last_resort_witness :
  let ps := ShufflePeers (fun _ => 0%nat) (MkRegistry (bs "FR") [test_peer] ∅ 0) in
  (exists i, (i < length ps)%nat /\ 15 < 0)
  \/ forall i, (i < length (List.filter (eligible test_handler test_call) ps))%nat ->
       accepted (MkAnswer false (direct_only SameCountry) true (Some 200)) = false.
Proof.
  eapply (same_country_last_resort test_handler (test_env direct_only) test_call Session.newSessionPool
    (fst (fst direct_open)) (snd (fst direct_open)) (snd direct_open) 1%nat Direct).
  - reflexivity.
  - reflexivity.
  - discriminate.
  - reflexivity.
  - vm_compute. reflexivity.
  - vm_compute. reflexivity.
  - left. reflexivity.
Defined.

(** A pool with one session, and an upload to it whose write fails. *)
Definition one_session : sessionPool := Session.store test_id 1 (bs "bob") 0 (dial 1 Session.newSessionPool).

Lemma failed_delivery_closes_witness :
  let x := handleTunnel test_handler (test_env (fun _ => true)) (test_req 1 "" "data") Auth.newAuthClient one_session in
  status (x_resp x) = 404 /\ lookup_session test_id (x_pool x) = None.
Proof.
  intros x. destruct (failed_delivery_closes test_handler (test_env (fun _ => true)) (test_req 1 "" "data")
    Auth.newAuthClient false (bs "bob") test_auth test_id 1 [] (bs "data") one_session 0
    (snd (Session.getSession test_id 1 one_session))
    (fst (fst (Session.deliver_at 0 (fun _ => true) 1 (bs "data") (snd (Session.getSession test_id 1 one_session))))) [] "write")
    as (H1 & _ & H2 & _).
  - apply test_uploading. vm_compute. reflexivity.
  - discriminate.
  - discriminate.
  - vm_compute. reflexivity.
  - vm_compute. reflexivity.
  - exact (conj H1 H2).
Defined.

Lemma torrent_policy_only_at_opening_witness :
  handleTunnel (MkHandler (h_selfIPs test_handler) (h_bl test_handler) None (Some []) None None
      (h_peers test_handler) (Some ∅) None [] true) (test_env (fun _ => true)) (test_req 1 "" "data") Auth.newAuthClient one_session
  = handleTunnel test_handler (test_env (fun _ => true)) (test_req 1 "" "data") Auth.newAuthClient one_session.
Proof.
  apply (torrent_policy_only_at_opening test_handler (test_env (fun _ => true)) (test_req 1 "" "data") Auth.newAuthClient
    false (bs "bob") test_auth test_id 1 [] (bs "data") one_session None); [|discriminate].
  apply test_uploading. vm_compute. reflexivity.
Defined.

(** A wildcard rule for example.com, and a target under it that this exit cannot reach. *)
Definition wild_rule : Policy.rule := Policy.MkRule (bs "wildcard") (bs ".example.com") None.
Definition wild_handler : handler :=
  MkHandler ∅ None None (Some [wild_rule]) None None (h_peers test_handler)
    (Some (runProbes (fun _ _ => false) [wild_rule] ∅ ∅)) None [] true.
Definition wild_call : call := MkCall test_id (bs "www.example.com") 443 [] (bs "bob") (bs "FR") false 15.

Lemma whitelist_redirect_exact_hosts_witness :
  Policy.IsWhitelisted (c_host wild_call) [] [wild_rule] = true
  /\ whitelist_peer wild_handler (test_env (fun _ => true)) wild_call (MkR None Session.newSessionPool [])
     = MkR None Session.newSessionPool [].
Proof.
  split; [vm_compute; reflexivity|].
  apply (whitelist_redirect_exact_hosts wild_handler (test_env (fun _ => true)) wild_call _ [wild_rule] (fun _ _ => false)).
  - reflexivity.
  - reflexivity.
  - intros r Hr%list_elem_of_singleton. rewrite Hr. vm_compute. discriminate.
Defined.
End Handler.
