(* ===== verification/ExitUdpTunnel.v ===== *)
(** * snc-exit: tunnelling over UDP

    The SNCU datagram endpoint (udp_tunnel.go), the two HTTP endpoints of the UDP
    relay (handler.go, serveUDPRelay and serveUDPDrain) and the DNS forwarder
    (dns_forward.go). Both relay endpoints share the UDP session pool; SNCU uploads
    share the TCP session pool with [handleTunnel]. *)

From stdpp Require Import base list gmap strings fin_maps fin_sets.
From Stdlib Require Import ZArith Lia.
From S2P Require Import Prelude GoLib Frames ConnLedger ExitSession ExitAuth ExitPolicy ExitUdp ExitPeers ExitHandler.

Module UdpTunnel.

Notation sessionPool := Session.sessionPool.
Notation udpPool := UdpSession.udpPool.
#[local] Existing Instance Session.session_conn.
#[local] Existing Instance UdpSession.udp_conn.

(** What a request meets: the clock, the arbiter on its token, whether its dial and its
    write to the target succeed, what a bounded read of the target returns ([None] when
    another poll holds the read lock), the datagrams that come in while [DrainRecv]
    waits, each DNS upstream's answer, and the randomness of the reply. *)
Record uenv := MkUenv {
  ue_now : Z;
  ue_reply : res (Z * bytes);
  ue_dial : bool;
  ue_write : bool;
  ue_read : option bytes;
  ue_waited : list bytes;
  ue_dns : gostring -> res bytes;
  ue_nonce : res bytes;
  ue_pad : nat -> bytes }.

Definition tunnelPaths : list gostring :=
  [bs "/api/media/upload"; bs "/api/content/submit"; bs "/api/udp/relay"; bs "/api/udp/drain"].

(** ** dns_forward.go *)
Definition dnsUpstreams : list gostring := [bs "1.1.1.1:53"; bs "8.8.8.8:53"; bs "9.9.9.9:53"].

Fixpoint dns_loop (one : gostring -> res bytes) (ups : list gostring) : res bytes :=
  match ups with
  | [] => Err "all dns upstreams failed"
  | u :: ups => match one u with Ok r => Ok r | _ => dns_loop one ups end
  end.
Definition forwardDNS (one : gostring -> res bytes) : res bytes := dns_loop one dnsUpstreams.

Section udp_tunnel.
Context {U : Unicode} {AE : Aead} {BL : Blake2b}.

(** ** The UDP relay *)

(** [udpPool.getOrCreate]: the session pointer, or a failed dial. *)
Definition next_udp_conn (p : udpPool) : nat := S (foldr Nat.max 0%nat (elements (open p ∪ flight p))).
Definition udp_getOrCreate (e : uenv) (k : UdpSession.udpSessionKey) (user : gostring) (p : udpPool)
    : option nat * udpPool :=
  match UdpSession.getOrCreate_lookup k (ue_now e) p with
  | (Some r, p) => (Some r, p)
  | (None, p) =>
      if ue_dial e then
        let c := next_udp_conn p in
        let '(r, p) := UdpSession.getOrCreate_install k c user (ue_now e) (dial c p) in (Some r, p)
      else (None, p)
  end.

(** A relay's status, reply body, pool, and datagrams written to the destination. *)
Record relayed := MkRelayed { rl_status : Z; rl_body : bytes; rl_udp : udpPool; rl_writes : list bytes }.

(** The part the two HTTP endpoints have in common: session, write, drain of at most
    [max] datagrams, reply. *)
Definition relay_session (e : uenv) (max : nat) (key user connID : gostring) (ip : bytes) (port : Z)
    (payload : bytes) (up : udpPool) : relayed :=
  let poolKey := (connID, Net.UDPAddr_String ip port) in
  match udp_getOrCreate e poolKey user up with
  | (None, up) => MkRelayed 404 [] up []
  | (Some r, up) =>
      if negb (bool_decide (payload = [])) && negb (ue_write e) then MkRelayed 404 [] (UdpSession.close poolKey up) []
      else
        let '(frames, up) := UdpSession.DrainRecv r max (ue_waited e) up in
        let up := UdpSession.recordActivity poolKey (ue_now e) up in
        let ws := if bool_decide (payload = []) then [] else [payload] in
        match Exit.buildUploadResponse (ue_nonce e) (ue_pad e) key (Exit.encodeDatagramBatch frames) with
        | Ok resp => MkRelayed 200 resp up ws
        | _ => MkRelayed 404 [] up ws
        end
  end.

(** [handleUDPRelay] of udp_tunnel.go. *)
Definition handleUDPRelay (h : Handler.handler) (e : uenv) (key plain user : bytes) (up : udpPool) : relayed :=
  match Exit.parseUDPRelayFrame plain with
  | Ok (connID, ip, port, payload) =>
      if decide (Net.IP_String ip ∈ Handler.h_selfIPs h) then MkRelayed 404 [] up []
      else if port =? 53 then
        match forwardDNS (ue_dns e) with
        | Ok resp =>
            match Exit.buildUploadResponse (ue_nonce e) (ue_pad e) key (Exit.encodeDatagramBatch [resp]) with
            | Ok body => MkRelayed 200 body up []
            | _ => MkRelayed 500 [] up []
            end
        | _ => MkRelayed 404 [] up []
        end
      else
        let poolKey := (connID, Net.UDPAddr_String ip port) in
        let '(sess, up) := udp_getOrCreate e poolKey user up in
        match sess with
        | None => MkRelayed 404 [] up []
        | Some r =>
            let relay ws :=
              let '(frames, up) := UdpSession.DrainRecv r 32 (ue_waited e) up in
              let up := UdpSession.recordActivity poolKey (ue_now e) up in
              match Exit.buildUploadResponse (ue_nonce e) (ue_pad e) key (Exit.encodeDatagramBatch frames) with
              | Ok resp => MkRelayed 200 resp up ws
              | _ => MkRelayed 500 [] up ws
              end in
            if (0 <? length payload)%nat then
              if ue_write e then relay [payload] else MkRelayed 404 [] (UdpSession.close poolKey up) []
            else relay []
        end
  | _ => MkRelayed 404 [] up []
  end.

(** The session check the two HTTP endpoints start with; the reply to a refused one. *)
Definition udp_admit (e : uenv) (token : gostring) (a : Auth.authClient) : (Z + gostring) * Auth.authClient :=
  match Auth.validateSession (ue_now e) token (ue_reply e) a with
  | (Auth.Decided v, a) => (if Auth.v_denied v then inl 404 else inr (Auth.v_username v), a)
  | (Auth.Transient, a) => (inl 503, a)
  end.

(** [serveUDPRelay] and [serveUDPDrain] of handler.go. *)
Definition serveUDPRelay (h : Handler.handler) (e : uenv) (token body : bytes) (a : Auth.authClient) (up : udpPool)
    : relayed * Auth.authClient :=
  match udp_admit e token a with
  | (inl st, a) => (MkRelayed st [] up [], a)
  | (inr user, a) =>
      let key := Exit.sessionKey token in
      match Exit.openTunnelFrame key body with
      | Ok plain =>
          match Exit.parseUDPRelayFrame plain with
          | Ok (connID, ip, port, payload) =>
              if decide (Net.IP_String ip ∈ Handler.h_selfIPs h) then (MkRelayed 404 [] up [], a)
              else (relay_session e 32 key user connID ip port payload up, a)
          | _ => (MkRelayed 404 [] up [], a)
          end
      | _ => (MkRelayed 404 [] up [], a)
      end
  end.

Definition serveUDPDrain (e : uenv) (token body : bytes) (a : Auth.authClient) (up : udpPool)
    : relayed * Auth.authClient :=
  match udp_admit e token a with
  | (inl st, a) => (MkRelayed st [] up [], a)
  | (inr user, a) =>
      let key := Exit.sessionKey token in
      match Exit.openTunnelFrame key body with
      | Ok plain =>
          match Exit.parseUDPRelayFrame plain with
          | Ok (connID, ip, port, _) => (relay_session e 64 key user connID ip port [] up, a)
          | _ => (MkRelayed 404 [] up [], a)
          end
      | _ => (MkRelayed 404 [] up [], a)
      end
  end.

(** ** SNCU uploads *)

(** The target checks of an opening upload. *)
Definition sncu_refused (h : Handler.handler) (host : gostring) : bool :=
  bool_decide (host ∈ Handler.h_selfIPs h)
  || match Net.ParseIP host with Some ip => Net.IsLoopback ip || Net.IsLinkLocalUnicast ip | None => false end
  || match Handler.h_bl h with Some a => Policy.IsBlacklisted host a | None => false end.

(** The connection an upload writes to: dialled or reused when [seq] is 0, the pool's
    live one otherwise. *)
Definition sncu_sock (h : Handler.handler) (e : uenv) (connID : gostring) (seq : Z) (target user : bytes) (p : sessionPool)
    : option nat * sessionPool :=
  if seq =? 0 then
    match Net.SplitHostPort target with
    | Ok (host, portStr) =>
        match Atoi portStr with
        | Some _ =>
            if sncu_refused h host then (None, p)
            else
              match Session.getOrCreate_lookup connID (ue_now e) p with
              | (Some c, p) => (Some c, p)
              | (None, p) =>
                  if ue_dial e then
                    let c := Peers.next_conn p in
                    let '(c, p) := Session.getOrCreate_install connID c user (ue_now e) (dial c p) in (Some c, p)
                  else (None, p)
              end
        | None => (None, p)
        end
    | _ => (None, p)
    end
  else Session.get connID (ue_now e) p.

(** Status, body, pool and bytes written to the target. *)
Record uploaded := MkUploaded { ul_status : Z; ul_body : bytes; ul_pool : sessionPool; ul_writes : list bytes }.

Definition sncu_upload (h : Handler.handler) (e : uenv) (key user plain : bytes) (p : sessionPool) : uploaded :=
  match plain with
  | [] => MkUploaded 404 [] p []
  | ty :: _ =>
      if negb (ty =? Exit.frameTypeUpload) then MkUploaded 404 [] p []
      else
        match Exit.parseUploadFrame plain with
        | Ok (connID, seq, target, payload) =>
            match sncu_sock h e connID seq target user p with
            | (None, p) => MkUploaded 404 [] p []
            | (Some _, p) =>
                if negb (bool_decide (payload = [])) && negb (ue_write e) then
                  MkUploaded 404 [] (Session.close connID p) []
                else
                  let p := if bool_decide (payload = []) then p else Session.addBytesUp connID (lenZ payload) p in
                  let p := Session.recordActivity connID (ue_now e) p in
                  let readData := if bool_decide (payload = []) && (0 <? seq) then default [] (ue_read e) else [] in
                  let p := if bool_decide (readData = []) then p else Session.recordActivity connID (ue_now e) p in
                  let ws := if bool_decide (payload = []) then [] else [payload] in
                  match Exit.buildUploadResponse (ue_nonce e) (ue_pad e) key readData with
                  | Ok resp => MkUploaded 200 resp p ws
                  | _ => MkUploaded 500 [] p ws
                  end
            end
        | _ => MkUploaded 404 [] p []
        end
  end.

(** ** One datagram *)

Record uresult := MkUresult {
  u_out : option bytes;      (** the datagram sent back *)
  u_auth : Auth.authClient;
  u_pool : sessionPool;
  u_udp : udpPool;
  u_writes : list bytes }.

Definition handle (h : Handler.handler) (e : uenv) (data : bytes) (a : Auth.authClient) (p : sessionPool) (up : udpPool)
    : uresult :=
  let silent := MkUresult None a p up [] in
  if lenZ data <? 9 then silent
  else
    match go_uint 4 data 0, go_index data 8, go_uint 4 data 4 with
    | Ok magic, Ok typ, Ok reqID =>
        if negb (magic =? Exit.udpExitMagic) || negb (typ =? Exit.udpExitTypeRequest) then silent
        else
          match Exit.udpExitDecodeRequest data with
          | Ok (Some (path, token, body)) =>
              let send status body := Some (Exit.udpExitEncodeResponse reqID status body) in
              if negb (bool_decide (path ∈ tunnelPaths)) then MkUresult (send 404 []) a p up []
              else
                match udp_admit e token a with
                | (inl st, a) => MkUresult (send st []) a p up []
                | (inr user, a) =>
                    let key := Exit.sessionKey token in
                    match Exit.openTunnelFrame key body with
                    | Ok plain =>
                        if decide (path = bs "/api/udp/relay") then
                          let r := handleUDPRelay h e key plain user up in
                          MkUresult (send (rl_status r) (rl_body r)) a p (rl_udp r) (rl_writes r)
                        else
                          let r := sncu_upload h e key user plain p in
                          MkUresult (send (ul_status r) (ul_body r)) a (ul_pool r) up (ul_writes r)
                    | _ => MkUresult (send 404 []) a p up []
                    end
                end
          | _ => silent
          end
    | _, _, _ => silent
    end.

(** ** Ownership *)

Lemma next_udp_fresh p : next_udp_conn p ∉ open p ∪ flight p.
Proof. intros H%elem_of_elements%Peers.foldr_max_le. unfold next_udp_conn in H. lia. Qed.

(** The pool after a request: reachable, with the same sockets in flight. *)
Definition udp_accounted (p p' : udpPool) : Prop := UdpSession.ureach p' /\ flight p' = flight p.
Definition tcp_accounted (p p' : sessionPool) : Prop := Session.preach p' /\ flight p' = flight p.

Lemma udp_getOrCreate_accounted e k user p r p' :
  UdpSession.ureach p -> udp_getOrCreate e k user p = (r, p') -> udp_accounted p p'.
Proof.
  intros Hr. unfold udp_getOrCreate. pose proof (UdpSession.ur_step _ _ Hr (UdpSession.us_lookup k (ue_now e) p)) as H1.
  unfold UdpSession.getOrCreate_lookup in *. destruct (pool p !! k) as [r0|] eqn:E; cbn [snd] in H1.
  { intros [= <- <-]. split; [done | apply update_flight]. }
  destruct (ue_dial e); [|by intros [= <- <-]]. pose proof (next_udp_fresh p) as Hf.
  assert (UdpSession.ureach (dial (next_udp_conn p) p)) as H2.
  { eapply UdpSession.ur_step; [done|]. apply UdpSession.us_dial. set_solver. }
  assert (UdpSession.ureach (snd (UdpSession.getOrCreate_install k (next_udp_conn p) user (ue_now e) (dial (next_udp_conn p) p)))) as H3.
  { eapply UdpSession.ur_step; [done|]. apply UdpSession.us_install. simpl. set_solver. }
  unfold UdpSession.getOrCreate_install in *. change (pool (dial (next_udp_conn p) p)) with (pool p) in *.
  rewrite E in *. intros [= <- <-]. split; [exact H3|].
  change (({[next_udp_conn p]} ∪ flight p) ∖ {[next_udp_conn p]} = flight p). set_solver.
Qed.

Lemma relay_session_accounted e max key user id ip port pay up :
  UdpSession.ureach up -> udp_accounted up (rl_udp (relay_session e max key user id ip port pay up)).
Proof.
  intros Hr. unfold relay_session. destruct (udp_getOrCreate _ _ _ _) as [[r|] up1] eqn:E;
    pose proof (udp_getOrCreate_accounted _ _ _ _ _ _ Hr E) as [Hr1 Hf1]; [|done].
  destruct (_ && _).
  { split; [apply (UdpSession.ur_step _ _ Hr1), UdpSession.us_close|]. cbn [rl_udp]. unfold UdpSession.close, remove.
    by destruct (lookup_session _ up1). }
  pose proof (UdpSession.ur_step _ _ Hr1 (UdpSession.us_drain r max (ue_waited e) up1)) as Hr2.
  assert (flight (snd (UdpSession.DrainRecv r max (ue_waited e) up1)) = flight up1) as Hf2.
  { unfold UdpSession.DrainRecv. destruct (heap up1 !! r) as [s|]; [|done]. by destruct (UdpSession.drain_queue _ _ _). }
  destruct (UdpSession.DrainRecv _ _ _ _) as [frames up2]. cbn [snd] in *. cbn zeta.
  set (k := (id, Net.UDPAddr_String ip port)). pose proof (UdpSession.ur_step _ _ Hr2 (UdpSession.us_activity k (ue_now e) up2)) as Hr3.
  assert (flight (UdpSession.recordActivity k (ue_now e) up2) = flight up) as Hf3.
  { etransitivity; [apply update_flight | congruence]. }
  by destruct (Exit.buildUploadResponse _ _ _ _).
Qed.

Lemma udp_accounted_refl up : UdpSession.ureach up -> udp_accounted up up.
Proof. done. Qed.

(** Away from port 53 the datagram relay ends like the HTTP one, up to the status when
    the reply cannot be sealed. *)
Lemma handleUDPRelay_session h e key plain user up id ip port pay :
  Exit.parseUDPRelayFrame plain = Ok (id, ip, port, pay) -> port <> 53 -> Net.IP_String ip ∉ Handler.h_selfIPs h ->
  let r := handleUDPRelay h e key plain user up in
  let r' := relay_session e 32 key user id ip port pay up in
  rl_udp r = rl_udp r' /\ rl_writes r = rl_writes r' /\ rl_body r = rl_body r'
  /\ (rl_status r = rl_status r' \/ rl_status r = 500).
Proof.
  intros Hp Hn Hs. cbn zeta. unfold handleUDPRelay, relay_session. rewrite Hp, decide_False by done.
  rewrite (proj2 (Z.eqb_neq port 53) Hn). cbn zeta. destruct (udp_getOrCreate _ _ _ _) as [[r|] up1]; [|by auto].
  destruct (UdpSession.DrainRecv _ _ _ _) as [frames up2] eqn:Ed.
  destruct pay as [|b pay]; [|destruct (ue_write e); [|by auto]]; cbn -[Exit.buildUploadResponse]; rewrite ?Ed;
    destruct (Exit.buildUploadResponse _ _ _ _); by auto.
Qed.

Lemma handleUDPRelay_accounted h e key plain user up :
  UdpSession.ureach up -> udp_accounted up (rl_udp (handleUDPRelay h e key plain user up)).
Proof.
  intros Hr. unfold handleUDPRelay. destruct (Exit.parseUDPRelayFrame plain) as [[[[id ip] port] pay]| |] eqn:Hp; [|done..].
  case_decide; [done|]. destruct (Z.eqb_spec port 53) as [->|Hn].
  { destruct (forwardDNS _); [|done..]. by destruct (Exit.buildUploadResponse _ _ _ _). }
  destruct (handleUDPRelay_session h e key plain user up id ip port pay) as [Hu _]; [done..|].
  pose proof (relay_session_accounted e 32 key user id ip port pay up Hr) as Ha. rewrite <- Hu in Ha.
  unfold handleUDPRelay in Ha. rewrite Hp, decide_False in Ha by done. by rewrite (proj2 (Z.eqb_neq port 53) Hn) in Ha.
Qed.

Lemma sncu_sock_accounted h e id seq tgt user p c p' :
  Session.preach p -> sncu_sock h e id seq tgt user p = (c, p') -> tcp_accounted p p'.
Proof.
  intros Hr. unfold sncu_sock. destruct (_ =? _).
  - destruct (Net.SplitHostPort tgt) as [[host ps]| |]; [|by intros [= <- <-]..].
    destruct (Atoi ps) as [n|]; [|by intros [= <- <-]]. destruct (sncu_refused h host); [by intros [= <- <-]|].
    set (env := Handler.MkEnv 0 (ue_now e) 0 (fun _ _ => 0) (fun _ _ => 0%nat) (fun _ _ => 0%nat)
      (fun _ _ => Peers.MkAnswer false false false None) (ue_dial e) []
      (ue_reply e) (fun _ => false) [] (ue_nonce e) (ue_pad e)).
    set (cx := Handler.MkCall id host n [] user [] false 0). intros E.
    assert (exists r, Handler.getOrCreate env cx p = (r, p')) as [r Hg].
    { unfold Handler.getOrCreate. cbn [Handler.c_connID Handler.c_user cx Handler.e_store env Handler.e_dial].
      destruct (Session.getOrCreate_lookup id (ue_now e) p) as [[c0|] p0]; [injection E as <- <-; by eexists|].
      destruct (ue_dial e); [|injection E as <- <-; by eexists].
      destruct (Session.getOrCreate_install _ _ _ _ _). injection E as <- <-. by eexists. }
    destruct (Handler.getOrCreate_spec _ _ _ _ _ Hr Hg) as (? & ? & _). done.
  - intros E. pose proof (Session.pr_step _ _ Hr (Session.ps_get id (ue_now e) p)) as H. rewrite E in H. split; [done|].
    unfold Session.get in E. destruct (lookup_session id p) as [s|]; [|by injection E as <- <-].
    destruct (Session.targetClosed s); injection E as <- <-; [done | apply update_flight].
Qed.

Lemma sncu_upload_accounted h e key user plain p :
  Session.preach p -> tcp_accounted p (ul_pool (sncu_upload h e key user plain p)).
Proof.
  intros Hr. unfold sncu_upload. destruct plain as [|ty rest]; [done|]. destruct (negb _); [done|].
  destruct (Exit.parseUploadFrame _) as [[[[id seq] tgt] pay]| |]; [|done..].
  destruct (sncu_sock _ _ _ _ _ _ _) as [[c|] p1] eqn:E; pose proof (sncu_sock_accounted _ _ _ _ _ _ _ _ _ Hr E) as [Hr1 Hf1]; [|done].
  destruct (_ && _).
  { split; [apply (Session.pr_step _ _ Hr1), Session.ps_close|]. cbn [ul_pool]. unfold Session.close. by rewrite remove_flight. }
  cbn zeta. assert (forall f p2, Session.preach p2 /\ flight p2 = flight p -> (forall q, Session.pstep q (f q)) -> (forall q, flight (f q) = flight q) ->
    Session.preach (f p2) /\ flight (f p2) = flight p) as Hstep.
  { intros f p2 [? ?] Hs Hf. split; [by eapply Session.pr_step; [|apply Hs] | by rewrite Hf]. }
  match goal with |- tcp_accounted _ (ul_pool (match _ with Ok _ => MkUploaded _ _ ?q _ | _ => _ end)) =>
    assert (tcp_accounted p q) as Hq; [|by destruct (Exit.buildUploadResponse _ _ _ _)] end.
  assert (forall q, flight (Session.recordActivity id (ue_now e) q) = flight q) as HfA by (intros; apply update_flight).
  assert (tcp_accounted p (Session.recordActivity id (ue_now e)
    (if bool_decide (pay = []) then p1 else Session.addBytesUp id (lenZ pay) p1))) as Hq.
  { apply (Hstep (Session.recordActivity id (ue_now e))); [|intros; apply Session.ps_activity|done].
    case_bool_decide; [done|]. apply (Hstep (Session.addBytesUp id (lenZ pay))); [done|intros; apply Session.ps_bytes|].
    intros; apply update_flight. }
  match goal with |- tcp_accounted _ (if ?b then _ else _) => destruct b; [done|] end.
  by apply (Hstep (Session.recordActivity id (ue_now e))); [|intros; apply Session.ps_activity|].
Qed.

(** No request over the datagram transport leaks a connection or a socket: after any
    datagram both pools are again ones the exit can reach, with nothing new in flight;
    and the same holds of the two HTTP endpoints of the UDP relay. *)
Theorem udp_endpoints_leak_nothing h e data token body a p up :
  Session.preach p -> UdpSession.ureach up ->
  let x := handle h e data a p up in
  tcp_accounted p (u_pool x) /\ udp_accounted up (u_udp x)
  /\ udp_accounted up (rl_udp (fst (serveUDPRelay h e token body a up)))
  /\ udp_accounted up (rl_udp (fst (serveUDPDrain e token body a up))).
Proof.
  intros Hr Hu. cbn zeta. match goal with |- ?A /\ ?B /\ ?C => enough ((A /\ B) /\ C) by tauto end. split.
  - unfold handle. cbn zeta. destruct (_ <? _); [done|].
    destruct (go_uint 4 data 0) as [v0| |], (go_index data 8) as [v1| |], (go_uint 4 data 4) as [v2| |]; try done.
    destruct (_ || _); [done|]. destruct (Exit.udpExitDecodeRequest data) as [[[[path tok] b]|]| |]; try done.
    destruct (negb _); [done|]. destruct (udp_admit e tok a) as [[st|user] a1]; [done|]. destruct (Exit.openTunnelFrame _ b); [|done..].
    case_decide; cbn [u_pool u_udp].
    + split; [done | by apply handleUDPRelay_accounted].
    + split; [by apply sncu_upload_accounted | done].
  - unfold serveUDPRelay, serveUDPDrain. destruct (udp_admit e token a) as [[st|user] a1]; [done|]. cbn zeta.
    destruct (Exit.openTunnelFrame _ body) as [plain| |]; [|done..].
    destruct (Exit.parseUDPRelayFrame plain) as [[[[id ip] port] pay]| |]; [|done..].
    split; [case_decide; [done|]|]; by apply relay_session_accounted.
Qed.

(** ** The two relays agree *)

(** The UDP relay behaves the same over both transports, as its comment claims, for
    every frame not addressed to port 53: same status, same sealed reply, same sessions
    and same datagrams sent. *)
Theorem relay_transports_agree h e token body a a' user plain up nonce :
  udp_admit e token a = (inr user, a') -> Exit.openTunnelFrame (Exit.sessionKey token) body = Ok plain ->
  (forall id ip port payload, Exit.parseUDPRelayFrame plain = Ok (id, ip, port, payload) -> port <> 53) ->
  ue_nonce e = Ok nonce ->
  serveUDPRelay h e token body a up = (handleUDPRelay h e (Exit.sessionKey token) plain user up, a').
Proof.
  intros Ha Ho Hp Hn. unfold serveUDPRelay. rewrite Ha. cbn zeta. rewrite Ho.
  destruct (Exit.parseUDPRelayFrame plain) as [[[[id ip] port] pay]| |] eqn:Hpar; [|by unfold handleUDPRelay; rewrite Hpar..].
  specialize (Hp id ip port pay eq_refl). case_decide as Hs.
  { unfold handleUDPRelay. by rewrite Hpar, decide_True. }
  f_equal. unfold handleUDPRelay, relay_session. rewrite Hpar, decide_False by done.
  rewrite (proj2 (Z.eqb_neq port 53) Hp). cbn zeta. destruct (udp_getOrCreate _ _ _ _) as [[r|] up1]; [|done].
  destruct (UdpSession.DrainRecv _ _ _ _) as [frames up2] eqn:Ed.
  unfold Exit.buildUploadResponse, Exit.sealTunnelData, Exit.sessionKey. rewrite blake2b_length, Hn.
  destruct pay as [|b pay]; [|destruct (ue_write e)]; cbn -[be_put Z.ltb]; by rewrite ?Ed.
Qed.

(** ** A client's datagram *)

(** What the exit does with a request as a client encodes it. *)
Lemma handle_encoded h e reqID path token body a p up :
  0 <= reqID < 2 ^ 32 -> lenZ path < 2 ^ 16 -> lenZ token < 2 ^ 16 -> lenZ body < 2 ^ 32 ->
  path ∈ tunnelPaths ->
  let send status body := Some (Exit.udpExitEncodeResponse reqID status body) in
  handle h e (Client.udpEncodeRequest reqID path token body) a p up =
    match udp_admit e token a with
    | (inl st, a) => MkUresult (send st []) a p up []
    | (inr user, a) =>
        let key := Exit.sessionKey token in
        match Exit.openTunnelFrame key body with
        | Ok plain =>
            if decide (path = bs "/api/udp/relay") then
              let r := handleUDPRelay h e key plain user up in
              MkUresult (send (rl_status r) (rl_body r)) a p (rl_udp r) (rl_writes r)
            else
              let r := sncu_upload h e key user plain p in
              MkUresult (send (ul_status r) (ul_body r)) a (ul_pool r) up (ul_writes r)
        | _ => MkUresult (send 404 []) a p up []
        end
    end.
Proof.
  intros Hid Hp Ht Hb Hin. cbn zeta.
  assert (Exit.udpExitDecodeRequest (Client.udpEncodeRequest reqID path token body) = Ok (Some (path, token, body))) as Hd.
  { unfold Client.udpEncodeRequest. rewrite !u16_small, u32_small by lia.
    rewrite <- (decode_request (be_put 4 Client.udpRelayMagic ++ be_put 4 reqID ++ [Client.udpRelayTypeRequest])) by done. done. }
  unfold handle. cbn zeta. rewrite Hd. clear Hd. unfold Client.udpEncodeRequest.
  set (rest := be_put 2 (u16 (lenZ path)) ++ _). set (data := be_put 4 Client.udpRelayMagic ++ _).
  assert (lenZ data = 9 + lenZ rest) as Hl by (unfold data; solve_len). rewrite (proj2 (Z.ltb_ge _ _)) by lia.
  assert (go_uint 4 data 0 = Ok Client.udpRelayMagic) as ->.
  { eapply (go_uint_at 4 [] _ data); [reflexivity | done | unfold Client.udpRelayMagic; lia]. }
  assert (go_uint 4 data 4 = Ok reqID) as ->.
  { eapply (go_uint_at 4 (be_put 4 Client.udpRelayMagic) _ data); [reflexivity | solve_len | lia]. }
  rewrite (go_index_lookup data 8 Client.udpRelayTypeRequest) by done.
  change (negb (Client.udpRelayMagic =? Exit.udpExitMagic) || negb (Client.udpRelayTypeRequest =? Exit.udpExitTypeRequest)) with false.
  cbn iota. rewrite bool_decide_eq_true_2 by done. done.
Qed.

(** A request a client of session [token] makes of the path [path] with frame [plain]. *)
Definition client_request (reqID : Z) (path token nonce plain : bytes) : bytes :=
  Client.udpEncodeRequest reqID path token (nonce ++ aead_seal (Exit.sessionKey token) nonce plain).

(** Sizes for which the datagram encoding is exact. *)
Record request_fits (reqID : Z) (token nonce plain : bytes) : Prop := {
  rf_id : 0 <= reqID < 2 ^ 32;
  rf_token : lenZ token < 2 ^ 16;
  rf_nonce : lenZ nonce = 12;
  rf_plain : lenZ plain < 2 ^ 31 }.

Lemma open_key token nonce plain : lenZ nonce = 12 ->
  Exit.openTunnelFrame (Exit.sessionKey token) (nonce ++ aead_seal (Exit.sessionKey token) nonce plain) = Ok plain.
Proof. intros Hn. apply open_seal; [apply blake2b_length | done]. Qed.

Lemma path_fits path : path ∈ tunnelPaths -> lenZ path < 2 ^ 16.
Proof. unfold tunnelPaths. rewrite !elem_of_cons. by intros [-> |[-> |[-> |[-> |?%not_elem_of_nil]]]]. Qed.

(** The upload branch of a client's request. *)
Lemma handle_request h e reqID path token nonce plain a p up user a' :
  request_fits reqID token nonce plain -> path ∈ tunnelPaths -> path <> bs "/api/udp/relay" ->
  udp_admit e token a = (inr user, a') ->
  handle h e (client_request reqID path token nonce plain) a p up =
    let r := sncu_upload h e (Exit.sessionKey token) user plain p in
    MkUresult (Some (Exit.udpExitEncodeResponse reqID (ul_status r) (ul_body r))) a' (ul_pool r) up (ul_writes r).
Proof.
  intros [F1 F2 F3 F4] Hp Hr Ha. unfold client_request. rewrite handle_encoded; [|done|by apply path_fits|done| |done].
  2: { rewrite length_app, aead_length_seal. lia. }
  rewrite Ha. cbn zeta. rewrite open_key by done. by rewrite decide_False.
Qed.

(** A drain request over the datagram transport is read as an upload frame, not as
    the relay frame it is: unless the random connection id happens to start with a zero
    byte it is answered 404 and no session is drained, whatever is waiting there. *)
Theorem sncu_drain_refused h e reqID token nonce id ip port a p up user a' plain :
  Client.buildUDPRelayPlain (Hex.encode id) ip port [] = Ok plain -> bytes_ok id -> id !! 0%nat <> Some 0 ->
  request_fits reqID token nonce plain -> udp_admit e token a = (inr user, a') ->
  handle h e (client_request reqID (bs "/api/udp/drain") token nonce plain) a p up =
    MkUresult (Some (Exit.udpExitEncodeResponse reqID 404 [])) a' p up [].
Proof.
  intros Hb Hid H0 Hf Ha. rewrite (handle_request h e reqID _ token nonce plain a p up user a'); [|done|set_solver|done|done].
  unfold Client.buildUDPRelayPlain in Hb. rewrite Hex.decode_encode in Hb by done.
  destruct (Nat.eqb_spec (length id) 16) as [Hl|]; [|done]. simpl negb in Hb. cbn iota in Hb.
  destruct id as [|b id]; [done|]. destruct (match Client.To4 ip with Some _ => _ | None => _ end) as [fam ipb].
  injection Hb as <-. cbn zeta. unfold sncu_upload. cbn [app].
  destruct (Z.eqb_spec b Exit.frameTypeUpload) as [->|]; [by destruct H0 | done].
Qed.

(** A poll over the datagram transport carries the target's bytes back unchanged: the
    client sends an empty frame for a live session, and decoding the exit's datagram and
    opening its body yields exactly what one read of the target returned. *)
Theorem sncu_poll_returns_read h e reqID token nonce id seq d nonce' a p up user a' c p1 :
  let plain := Client.buildUploadPlain (Hex.encode id) seq [] [] in
  bytes_ok id -> length id = 16%nat -> 0 < seq < 2 ^ 32 -> request_fits reqID token nonce plain ->
  udp_admit e token a = (inr user, a') -> Session.get (Hex.encode id) (ue_now e) p = (Some c, p1) ->
  ue_read e = Some d -> lenZ d <= 32 * 1024 -> ue_nonce e = Ok nonce' -> lenZ nonce' = 12 ->
  (forall k, length (ue_pad e k) = k) ->
  exists out resp, u_out (handle h e (client_request reqID (bs "/api/media/upload") token nonce plain) a p up) = Some out
    /\ Client.udpDecodeResponse out = Ok (Some (200, resp))
    /\ Client.parseResponse (Exit.sessionKey token) resp = Ok d.
Proof.
  intros plain Hb Hl Hs Hf Ha Hg Hrd Hd Hn Hn12 Hpad.
  rewrite (handle_request h e reqID _ token nonce plain a p up user a'); [|done|set_solver|done|done].
  assert (plain = [0] ++ id ++ be_put 4 seq ++ be_put 2 (u16 (lenZ (@nil Z))) ++ [] ++ []) as Hpl.
  { unfold plain, Client.buildUploadPlain. by rewrite conn_field_encode. }
  assert (Exit.parseUploadFrame plain = Ok (Hex.encode id, seq, [], [])) as Hparse.
  { rewrite Hpl. by apply upload_parse; [| lia |]. }
  clearbody plain. cbn zeta. cbn [u_out]. unfold sncu_upload. rewrite Hparse.
  destruct plain as [|ty rest]; [done|]. injection Hpl as -> _.
  change (negb (0 =? Exit.frameTypeUpload)) with false. cbn iota. unfold sncu_sock.
  rewrite (proj2 (Z.eqb_neq seq 0)) by lia. rewrite Hg. rewrite bool_decide_eq_true_2 by done. cbn [negb andb]. cbn zeta.
  rewrite (proj2 (Z.ltb_lt 0 seq)) by lia. rewrite Hrd. cbn [from_option Datatypes.id andb]. rewrite Hn.
  destruct (sealed_response nonce' (ue_pad e) (Exit.sessionKey token) d) as (resp & padding & E & Hresp & Hlen);
    [apply blake2b_length|done|lia|done|]. rewrite E. cbn [ul_status ul_body].
  eexists _, resp. split; [reflexivity|]. split.
  - unfold Exit.udpExitEncodeResponse. rewrite u16_small, u32_small by lia.
    rewrite <- (decode_response (be_put 4 Exit.udpExitMagic ++ be_put 4 reqID ++ [Exit.udpExitTypeResponse]) 200 resp) by (done || lia).
    done.
  - rewrite Hresp. apply parse_sealed; [apply blake2b_length|done|lia].
Qed.

(** Asking again at once gives the same verdict. *)
Lemma udp_admit_again e token a o a' :
  udp_admit e token a = (o, a') -> exists a'', udp_admit e token a' = (o, a'').
Proof.
  unfold udp_admit. destruct (Auth.validateSession (ue_now e) token (ue_reply e) a) as [oc a1] eqn:E.
  assert (exists a2, Auth.validateSession (ue_now e) token (ue_reply e) a1 = (oc, a2)) as [a2 E2].
  { unfold Auth.validateSession in E. destruct (Auth.vs_lookup (ue_now e) token a) as [v|stale] eqn:Hl.
    { injection E as <- <-. exists a. unfold Auth.validateSession. by rewrite Hl. }
    unfold Auth.vs_finish in E. destruct (Auth.queryArbiter (ue_reply e)) as [v|m|] eqn:Hrep.
    - injection E as <- <-. eexists. unfold Auth.validateSession, Auth.vs_lookup. cbn [Auth.cache].
      unfold Auth.evict_before. rewrite (proj2 (map_lookup_filter_Some _ _ _ (Auth.MkEntry (Auth.v_username v) (Auth.v_clientID v) (ue_now e) (Auth.v_denied v)))).
      2: { rewrite lookup_insert_eq. split; [done|]. simpl. unfold Auth.localStaleTTL, hour, minute, second. lia. }
      cbn [Auth.e_validatedAt]. rewrite Z.sub_diag. cbn. by destruct v.
    - exists a. unfold Auth.validateSession. destruct stale; injection E as <- <-; by rewrite Hl; unfold Auth.vs_finish; rewrite ?Hrep.
    - exists a. unfold Auth.validateSession. destruct stale; injection E as <- <-; by rewrite Hl; unfold Auth.vs_finish; rewrite ?Hrep. }
  destruct oc as [v|]; intros [= <- <-]; rewrite E2; by eexists.
Qed.

(** The session an upload wrote to is there for the next one. *)
Lemma sncu_sock_again h e id seq tgt user p c p1 f :
  sncu_sock h e id seq tgt user p = (Some c, p1) -> Session.preach p ->
  (forall s, Session.targetClosed (f s) = Session.targetClosed s) ->
  exists c' p2, sncu_sock h e id seq tgt user (update_session f id p1) = (Some c', p2).
Proof.
  intros E Hr Hf. unfold sncu_sock in *. destruct (_ =? _).
  - destruct (Net.SplitHostPort tgt) as [[host ps]| |]; [|done..]. destruct (Atoi ps); [|done].
    destruct (sncu_refused h host); [done|].
    assert (exists s, lookup_session id p1 = Some s) as [s Hs].
    { unfold Session.getOrCreate_lookup in E. destruct (lookup_session id p) as [s|] eqn:Hl.
      { injection E as <- <-. rewrite update_lookup, Hl. by eexists. }
      destruct (ue_dial e); [|done]. unfold Session.getOrCreate_install in E.
      change (lookup_session id (dial (Peers.next_conn p) p)) with (lookup_session id p) in E. rewrite Hl in E. injection E as <- <-.
      pose proof (dialled_reach := Peers.dt_reach _ _ _ (Peers.dialled_ok p) Hr).
      pose proof (conn_at_install id (Session.new_session (Peers.next_conn p) (ue_now e) user) id (dial (Peers.next_conn p) p)
        (proj1 (Session.preach_ok _ dialled_reach))) as Hc. rewrite decide_True in Hc by done.
      unfold conn_at in Hc. destruct (lookup_session id (install _ _ _)); [by eexists | done]. }
    unfold Session.getOrCreate_lookup. rewrite update_lookup, Hs. simpl. by eexists _, _.
  - unfold Session.get in *. destruct (lookup_session id p) as [s|] eqn:Hl; [|done].
    destruct (Session.targetClosed s) eqn:Htc; [done|]. injection E as <- <-.
    rewrite !update_lookup, Hl. simpl. rewrite Hf. simpl. rewrite Htc. by eexists _, _.
Qed.

(** Uploads over the datagram transport are not idempotent, although the client sends
    a request again when the answer is late: the exit writes the payload of a repeated
    datagram to the target again, so a lost or late answer duplicates bytes inside the
    TCP stream. *)
Theorem sncu_retry_writes_twice h e reqID path token nonce plain id seq target payload a p up user a' c p1 :
  request_fits reqID token nonce plain -> path ∈ tunnelPaths -> path <> bs "/api/udp/relay" ->
  udp_admit e token a = (inr user, a') ->
  Exit.parseUploadFrame plain = Ok (id, seq, target, payload) -> payload <> [] ->
  Session.preach p -> sncu_sock h e id seq target user p = (Some c, p1) -> ue_write e = true ->
  let data := client_request reqID path token nonce plain in
  let x1 := handle h e data a p up in
  let x2 := handle h e data (u_auth x1) (u_pool x1) (u_udp x1) in
  u_writes x1 = [payload] /\ u_writes x2 = [payload].
Proof.
  intros Hf Hp Hrel Ha Hparse Hpay Hr Hs Hw. cbn zeta.
  rewrite (handle_request h e reqID path token nonce plain a p up user a') by done. cbn zeta. cbn [u_auth u_pool u_udp u_writes].
  destruct (udp_admit_again _ _ _ _ _ Ha) as [a'' Ha'].
  rewrite (handle_request h e reqID path token nonce plain a' _ up user a'') by done. cbn zeta. cbn [u_writes].
  assert (forall p c p1, sncu_sock h e id seq target user p = (Some c, p1) ->
    let f := fun s => Session.set_lastSeen (ue_now e) (Session.set_bytesUp (int64 (Session.bytesUp s + lenZ payload)) s) in
    ul_writes (sncu_upload h e (Exit.sessionKey token) user plain p) = [payload]
    /\ ul_pool (sncu_upload h e (Exit.sessionKey token) user plain p) = update_session f id p1) as Hone.
  { intros q c0 q1 Hq. cbn zeta. unfold sncu_upload. destruct (Handler.upload_frame_type _ _ _ _ _ Hparse) as [rest ->].
    change (negb (Exit.frameTypeUpload =? Exit.frameTypeUpload)) with false. cbn iota. rewrite Hparse, Hq, Hw, andb_false_r.
    rewrite bool_decide_eq_false_2 by done. cbn [andb]. cbn zeta.
    assert (Session.recordActivity id (ue_now e) (Session.addBytesUp id (lenZ payload) q1) =
      update_session (fun s => Session.set_lastSeen (ue_now e) (Session.set_bytesUp (int64 (Session.bytesUp s + lenZ payload)) s)) id q1) as ->.
    { unfold Session.recordActivity, Session.addBytesUp, update_session. destruct (pool q1 !! id) as [r|] eqn:Er; [|by rewrite Er].
      cbn [pool heap open flight]. rewrite Er. f_equal. apply list_eq. intros i. rewrite !list_lookup_alter.
      repeat case_decide; try done. by rewrite <- option_fmap_compose. }
    destruct (Exit.buildUploadResponse _ _ _ _); done. }
  destruct (Hone _ _ _ Hs) as [-> ->]. split; [done|].
  destruct (sncu_sock_again h e id seq target user p c p1
    (fun s => Session.set_lastSeen (ue_now e) (Session.set_bytesUp (int64 (Session.bytesUp s + lenZ payload)) s))) as (c' & p2 & E2); [done|done|done|].
  apply (Hone _ _ _ E2).
Qed.

(** The datagram transport refuses the same targets as the HTTP one does for a user
    with an account: itself, loopback, link-local and blacklisted ones are answered 404
    with nothing dialled, written or changed. *)
Theorem sncu_forbidden_refused h e reqID path token nonce plain id target payload a p up user a' host port :
  request_fits reqID token nonce plain -> path ∈ tunnelPaths -> path <> bs "/api/udp/relay" ->
  udp_admit e token a = (inr user, a') -> Exit.parseUploadFrame plain = Ok (id, 0, target, payload) ->
  Net.SplitHostPort target = Ok (host, port) -> Handler.forbidden h false host ->
  handle h e (client_request reqID path token nonce plain) a p up =
    MkUresult (Some (Exit.udpExitEncodeResponse reqID 404 [])) a' p up [].
Proof.
  intros Hf Hp Hrel Ha Hparse Hsp Hfb.
  rewrite (handle_request h e reqID path token nonce plain a p up user a') by done. cbn zeta.
  assert (sncu_refused h host = true) as Href.
  { apply Handler.target_refused_spec in Hfb. unfold Handler.target_refused in Hfb. simpl andb in Hfb.
    by rewrite orb_false_r in Hfb. }
  assert (sncu_upload h e (Exit.sessionKey token) user plain p = MkUploaded 404 [] p []) as ->; [|done].
  unfold sncu_upload. destruct (Handler.upload_frame_type _ _ _ _ _ Hparse) as [rest ->].
  change (negb (Exit.frameTypeUpload =? Exit.frameTypeUpload)) with false. cbn iota. rewrite Hparse.
  unfold sncu_sock. cbn [Z.eqb]. rewrite Hsp, Href. by destruct (Atoi port).
Qed.
End udp_tunnel.

(** ** Witnesses *)

Definition test_uenv : uenv :=
  MkUenv 5 (Ok Handler.test_verdict) true true (Some (bs "pong")) [bs "reply"] (fun _ => Err "timeout")
    (Ok (replicate 12 9)) (fun n => replicate n 0).
Definition test_admitted : Auth.authClient := snd (udp_admit test_uenv (bs "tok") Auth.newAuthClient).
Definition test_id : bytes := replicate 16 171.
Definition test_upload (seq : Z) (target payload : string) : bytes :=
  Client.buildUploadPlain (Hex.encode test_id) seq (bs target) (bs payload).

Lemma test_fits plain : lenZ plain < 2 ^ 31 -> request_fits 7 (bs "tok") (replicate 12 3) plain.
Proof. intros H. by split. Qed.

Lemma test_admit : udp_admit test_uenv (bs "tok") Auth.newAuthClient = (inr (bs "bob"), test_admitted).
Proof. vm_compute. reflexivity. Qed.

Lemma udp_endpoints_leak_nothing_witness :
  let x := handle Handler.test_handler test_uenv (client_request 7 (bs "/api/media/upload") (bs "tok") (replicate 12 3)
    (test_upload 0 "t.example:80" "hello")) Auth.newAuthClient Session.newSessionPool UdpSession.newUDPSessionPool in
  u_writes x = [bs "hello"] /\ tcp_accounted Session.newSessionPool (u_pool x).
Proof.
  split; [vm_compute; reflexivity|].
  apply (udp_endpoints_leak_nothing Handler.test_handler test_uenv (client_request 7 (bs "/api/media/upload") (bs "tok") (replicate 12 3)
    (test_upload 0 "t.example:80" "hello")) [] [] Auth.newAuthClient Session.newSessionPool UdpSession.newUDPSessionPool
    Session.pr_init UdpSession.ur_init).
Defined.

Definition test_relay : bytes := test_id ++ [4; 8; 8; 8; 8] ++ be_put 2 443 ++ be_put 4 2 ++ [1; 2].

Lemma relay_transports_agree_witness :
  serveUDPRelay Handler.test_handler test_uenv (bs "tok")
    (replicate 12 3 ++ aead_seal (Exit.sessionKey (bs "tok")) (replicate 12 3) test_relay) Auth.newAuthClient UdpSession.newUDPSessionPool
  = (handleUDPRelay Handler.test_handler test_uenv (Exit.sessionKey (bs "tok")) test_relay (bs "bob") UdpSession.newUDPSessionPool,
     test_admitted).
Proof.
  apply (relay_transports_agree Handler.test_handler test_uenv (bs "tok") _ _ _ (bs "bob") test_relay _ (replicate 12 9)).
  - exact test_admit.
  - apply open_key. reflexivity.
  - intros id ip port pay H. apply (f_equal (fun r => match r with Ok (_, _, q, _) => q | _ => 0 end)) in H.
    vm_compute in H. rewrite <- H. discriminate.
  - reflexivity.
Defined.

Definition test_drain : bytes := test_id ++ [4; 8; 8; 8; 8] ++ be_put 2 443 ++ be_put 4 0.

Lemma sncu_drain_refused_witness :
  handle Handler.test_handler test_uenv (client_request 7 (bs "/api/udp/drain") (bs "tok") (replicate 12 3) test_drain)
    Auth.newAuthClient Session.newSessionPool UdpSession.newUDPSessionPool
  = MkUresult (Some (Exit.udpExitEncodeResponse 7 404 [])) test_admitted Session.newSessionPool UdpSession.newUDPSessionPool [].
Proof.
  apply (sncu_drain_refused Handler.test_handler test_uenv 7 (bs "tok") (replicate 12 3) test_id [8; 8; 8; 8] 443 _ _ _ (bs "bob") _ test_drain).
  - vm_compute. reflexivity.
  - apply (bool_decide_eq_true _). vm_compute. reflexivity.
  - discriminate.
  - apply test_fits. vm_compute. reflexivity.
  - exact test_admit.
Defined.

(** A live session to poll. *)
Definition live_pool : sessionPool :=
  Session.store (Hex.encode test_id) 1 (bs "bob") 0 (dial 1 Session.newSessionPool).

Lemma sncu_poll_returns_read_witness :
  exists out resp, u_out (handle Handler.test_handler test_uenv (client_request 7 (bs "/api/media/upload") (bs "tok") (replicate 12 3)
      (Client.buildUploadPlain (Hex.encode test_id) 3 [] [])) Auth.newAuthClient live_pool UdpSession.newUDPSessionPool) = Some out
    /\ Client.udpDecodeResponse out = Ok (Some (200, resp))
    /\ Client.parseResponse (Exit.sessionKey (bs "tok")) resp = Ok (bs "pong").
Proof.
  apply (sncu_poll_returns_read Handler.test_handler test_uenv 7 (bs "tok") (replicate 12 3) test_id 3 (bs "pong") (replicate 12 9)
    Auth.newAuthClient live_pool UdpSession.newUDPSessionPool (bs "bob") test_admitted 1%nat
    (snd (Session.get (Hex.encode test_id) 5 live_pool))).
  - apply (bool_decide_eq_true _). vm_compute. reflexivity.
  - reflexivity.
  - lia.
  - apply test_fits. vm_compute. reflexivity.
  - exact test_admit.
  - vm_compute. reflexivity.
  - reflexivity.
  - vm_compute. discriminate.
  - reflexivity.
  - reflexivity.
  - intros k. apply length_replicate.
Defined.

Lemma sncu_retry_writes_twice_witness :
  let data := client_request 7 (bs "/api/media/upload") (bs "tok") (replicate 12 3) (test_upload 0 "t.example:80" "hello") in
  let x1 := handle Handler.test_handler test_uenv data Auth.newAuthClient Session.newSessionPool UdpSession.newUDPSessionPool in
  let x2 := handle Handler.test_handler test_uenv data (u_auth x1) (u_pool x1) (u_udp x1) in
  u_writes x1 = [bs "hello"] /\ u_writes x2 = [bs "hello"].
Proof.
  eapply (sncu_retry_writes_twice Handler.test_handler test_uenv 7 _ (bs "tok") (replicate 12 3) _ (Hex.encode test_id) 0
    (bs "t.example:80") (bs "hello") _ Session.newSessionPool _ (bs "bob") test_admitted 1%nat
    (snd (sncu_sock Handler.test_handler test_uenv (Hex.encode test_id) 0 (bs "t.example:80") (bs "bob") Session.newSessionPool))).
  - apply test_fits. vm_compute. reflexivity.
  - apply (bool_decide_eq_true _). vm_compute. reflexivity.
  - discriminate.
  - exact test_admit.
  - vm_compute. reflexivity.
  - discriminate.
  - apply Session.pr_init.
  - vm_compute. reflexivity.
  - reflexivity.
Defined.

Lemma sncu_forbidden_refused_witness :
  handle Handler.test_handler test_uenv (client_request 7 (bs "/api/media/upload") (bs "tok") (replicate 12 3) (test_upload 0 "127.0.0.1:80" "x"))
    Auth.newAuthClient Session.newSessionPool UdpSession.newUDPSessionPool
  = MkUresult (Some (Exit.udpExitEncodeResponse 7 404 [])) test_admitted Session.newSessionPool UdpSession.newUDPSessionPool [].
Proof.
  eapply (sncu_forbidden_refused Handler.test_handler test_uenv 7 _ (bs "tok") (replicate 12 3) _ (Hex.encode test_id)
    (bs "127.0.0.1:80") (bs "x") _ _ _ (bs "bob") _ (bs "127.0.0.1") (bs "80")).
  - apply test_fits. vm_compute. reflexivity.
  - apply (bool_decide_eq_true _). vm_compute. reflexivity.
  - discriminate.
  - exact test_admit.
  - vm_compute. reflexivity.
  - vm_compute. reflexivity.
  - apply Handler.fb_self. apply (bool_decide_eq_true _). vm_compute. reflexivity.
Defined.
End UdpTunnel.
