(* ===== verification/ExitEndpoints.v ===== *)
(** * snc-exit: the other endpoints (src/snc-exit/handler.go, club_handler.go)

    The manifest caches, the peer-facing endpoints and the routing table of
    [ServeHTTP]. *)

From stdpp Require Import base list gmap strings fin_maps fin_sets.
From Stdlib Require Import ZArith Lia.
From S2P Require Import Prelude GoLib ExitAuth ExitPeers ExitHandler.

Module Endpoints.

(** ** Manifests *)

Definition manifestTTL : Z := 5 * minute.

(** A cached manifest; the zero value is "nothing fetched yet". *)
Record manifest := MkManifest { mf_data : bytes; mf_fetched : Z }.
Definition no_manifest : manifest := MkManifest [] 0.

(** [cachedManifest]: [now] is when it is called, [reply] what the arbiter answers if it
    is asked, [later] the time after the fetch. *)
Definition cachedManifest (now later : Z) (reply : res bytes) (m : manifest) : res bytes * manifest :=
  if negb (bool_decide (mf_data m = [])) && (now - mf_fetched m <? manifestTTL) then (Ok (mf_data m), m)
  else
    let stale e := if decide (mf_data m <> []) then (Ok (mf_data m), m) else (e, m) in
    match reply with
    | Ok data =>
        if decide (data = []) then stale (Err "manifest: empty response from arbiter")
        else (Ok data, MkManifest data later)
    | Err e => stale (Err e)
    | Panic => stale Panic
    end.

Definition serveManifest (now later : Z) (reply : res bytes) (m : manifest) : Z * bytes * manifest :=
  match cachedManifest now later reply m with
  | (Ok data, m) => (200, data, m)
  | (_, m) => (503, Auth.json "{'error':'manifest unavailable'}", m)
  end.

(** The club manifests: one cache per slug. *)
Definition clubSlugs : list gostring := [bs "cat_club"; bs "elite_cat_club"].
Definition isKnownClubSlug (slug : gostring) : bool := existsb (fun s => bool_decide (s = slug)) clubSlugs.

Definition cachedClubManifest (now later : Z) (slug : gostring) (reply : res bytes) (c : gmap gostring manifest)
    : res bytes * gmap gostring manifest :=
  let m := default no_manifest (c !! slug) in
  if negb (bool_decide (mf_data m = [])) && (now - mf_fetched m <? manifestTTL) then (Ok (mf_data m), c)
  else
    let stale e := if decide (mf_data m <> []) then (Ok (mf_data m), c) else (e, c) in
    match reply with
    | Ok data =>
        if decide (data = []) then stale (Err "club manifest: empty response from arbiter")
        else (Ok data, <[slug := MkManifest data later]> c)
    | Err e => stale (Err e)
    | Panic => stale Panic
    end.

Definition serveClubManifest (now later : Z) (slug : gostring) (reply : res bytes) (c : gmap gostring manifest)
    : Z * bytes * gmap gostring manifest :=
  if negb (isKnownClubSlug slug) then (400, Auth.json "{'error':'unknown club'}", c)
  else
    match cachedClubManifest now later slug reply c with
    | (Ok data, c) => (200, data, c)
    | (_, c) => (503, Auth.json "{'error':'club manifest unavailable'}", c)
    end.

(** A call: when, when the fetch is over, the arbiter's answer. *)
Record mcall := MkMcall { mc_now : Z; mc_later : Z; mc_reply : res bytes }.
Definition m_run (calls : list mcall) : manifest :=
  fold_left (fun m c => snd (cachedManifest (mc_now c) (mc_later c) (mc_reply c) m)) calls no_manifest.

(** [data] is an answer the arbiter gave in one of the calls, stored when that ended. *)
Definition answered (calls : list mcall) (data : bytes) (at_ : Z) : Prop :=
  exists c, c ∈ calls /\ mc_reply c = Ok data /\ mc_later c = at_ /\ data <> [].

Lemma m_run_snoc calls c :
  m_run (calls ++ [c]) = snd (cachedManifest (mc_now c) (mc_later c) (mc_reply c) (m_run calls)).
Proof. unfold m_run. by rewrite fold_left_app. Qed.

Lemma answered_app calls c data at_ : answered calls data at_ -> answered (calls ++ [c]) data at_.
Proof. intros (x & ? & ?). exists x. split; [set_solver | done]. Qed.

(** The two ways a call ends. *)
Lemma cachedManifest_cases now later reply m :
  cachedManifest now later reply m = (fst (cachedManifest now later reply m), m)
  \/ exists data, reply = Ok data /\ data <> [] /\ cachedManifest now later reply m = (Ok data, MkManifest data later).
Proof.
  unfold cachedManifest. destruct (_ && _); [by left|]. cbn zeta.
  destruct reply as [data| |]; [destruct (decide (data = [])); [|right; by exists data]|..]; left; by case_decide.
Qed.

Lemma m_run_ok calls : mf_data (m_run calls) <> [] -> answered calls (mf_data (m_run calls)) (mf_fetched (m_run calls)).
Proof.
  induction calls as [|c calls IH] using rev_ind; [done|]. rewrite m_run_snoc.
  destruct (cachedManifest_cases (mc_now c) (mc_later c) (mc_reply c) (m_run calls)) as [-> |(data & Hr & Hne & ->)]; cbn [snd].
  - intros H. by apply answered_app, IH.
  - intros _. cbn [mf_data mf_fetched]. exists c. split; [set_solver | done].
Qed.

(** The manifest a client is served is always a non-empty body the arbiter gave: the
    answer to this call, or an earlier one; an earlier one is served only within five
    minutes of its fetch, or when the arbiter fails now. Once one was fetched, the
    endpoint never fails again. *)
Theorem manifest_served calls now later reply :
  match fst (cachedManifest now later reply (m_run calls)) with
  | Ok data =>
      data <> []
      /\ (reply = Ok data
          \/ exists at_, answered calls data at_ /\ (now - at_ < 5 * minute \/ forall d, reply = Ok d -> d = []))
  | _ => mf_data (m_run calls) = []
  end.
Proof.
  pose proof (m_run_ok calls) as Hok. unfold cachedManifest. set (m := m_run calls) in *.
  destruct (decide (mf_data m = [])) as [E|Hne].
  - rewrite bool_decide_eq_true_2 by done. cbn [negb andb]. cbn zeta.
    destruct reply as [data| |]; [destruct (decide (data = []))|..]; rewrite ?decide_False by tauto; cbn [fst]; auto.
  - rewrite bool_decide_eq_false_2 by done. cbn [negb andb]. specialize (Hok Hne).
    destruct (Z.ltb_spec (now - mf_fetched m) manifestTTL); cbn [fst]; cbn zeta.
    { split; [done|]. right. eexists. split; [done|]. by left. }
    destruct reply as [data| |]; [destruct (decide (data = [])) as [->|]|..]; rewrite ?decide_True by done; cbn [fst].
    + split; [done|]. right. eexists. split; [done|]. right. by intros ? [= <-].
    + auto.
    + split; [done|]. right. eexists. split; [done|]. by right.
    + split; [done|]. right. eexists. split; [done|]. by right.
Qed.

(** ** Peer endpoints *)

(** What a peer's CONNECT meets: the target dial, whether the connection can be hijacked
    and whether hijacking succeeds. *)
Record penv := MkPenv { pe_dial : bool; pe_hijacker : bool; pe_hijack : bool }.

Inductive peer_end := PStatus (code : Z) | PHijackError | PPiped.

(** The end, the connections dialled to the target and those closed, and the token cache.
    [target] is the request body's target when it decoded. *)
Definition servePeerConnect (h : Handler.handler) (e : penv) (now : Z) (noForward token : gostring)
    (reply : res (Z * option Peers.node_reply)) (target : option gostring) (hits : Peers.peerAuthCache)
    : peer_end * nat * nat * Peers.peerAuthCache :=
  if decide (noForward <> bs "1") then (PStatus 400, 0%nat, 0%nat, hits)
  else
    match Peers.Validate now token reply hits with
    | (None, hits) => (PStatus 404, 0%nat, 0%nat, hits)
    | (Some _, hits) =>
        match target with
        | None => (PStatus 400, 0%nat, 0%nat, hits)
        | Some t =>
            if decide (t = []) then (PStatus 400, 0%nat, 0%nat, hits)
            else
              let host := match Net.SplitHostPort t with Ok (h, _) => h | _ => [] end in
              if decide (host ∈ Handler.h_selfIPs h) then (PStatus 404, 0%nat, 0%nat, hits)
              else if negb (pe_dial e) then (PStatus 502, 0%nat, 0%nat, hits)
              else if negb (pe_hijacker e) then (PStatus 500, 1%nat, 1%nat, hits)
              else if negb (pe_hijack e) then (PHijackError, 1%nat, 1%nat, hits)
              else (PPiped, 1%nat, 1%nat, hits)
        end
    end.

Definition servePeerCapabilities (h : Handler.handler) (now : Z) (token : gostring)
    (reply : res (Z * option Peers.node_reply)) (hits : Peers.peerAuthCache)
    : option (gmap gostring bool) * Peers.peerAuthCache :=
  match Peers.Validate now token reply hits with
  | (None, hits) => (None, hits)
  | (Some _, hits) => (Some (default ∅ (Handler.h_probeDB h)), hits)
  end.

(** The token's standing behind a [Validate] that accepted it. *)
Definition vouched_recently (calls : list Peers.peer_call) (now : Z) (token : gostring)
    (reply : res (Z * option Peers.node_reply)) : Prop :=
  exists addr, Peers.vouched reply addr
    \/ exists t r, (t, token, r) ∈ calls /\ Peers.vouched r addr /\ now - t < 1 * minute.

Lemma Validate_vouched calls now token reply addr hits :
  Peers.Validate now token reply (Peers.pv_run calls) = (Some addr, hits) -> vouched_recently calls now token reply.
Proof.
  unfold Peers.Validate. destruct (Peers.pa_hit _ _ _) as [a|] eqn:Hh.
  - intros [= <- <-]. apply Peers.pa_hit_Some in Hh as (t & Ht & Hlt). exists a. right.
    apply Peers.pv_run_vouched in Ht as (r & ? & ?). by exists t, r.
  - destruct (Peers.validatePeerToken reply) as [a| |] eqn:Hv; [|done..]. intros _. exists a. left.
    by apply Peers.validatePeerToken_ok.
Qed.

(** An exit dials a target for another exit only when the request carries the marker
    that stops it from being forwarded again, the token was vouched for by the arbiter
    within a minute, and the target is not this exit; and every connection it dials for
    a peer is closed when the request ends, on every path. *)
Theorem peer_connect_guarded h e now noForward token reply target calls :
  let '(end_, dialled, closed, _) := servePeerConnect h e now noForward token reply target (Peers.pv_run calls) in
  dialled = closed
  /\ (dialled <> 0%nat ->
      noForward = bs "1" /\ vouched_recently calls now token reply
      /\ exists t, target = Some t /\ forall host port, Net.SplitHostPort t = Ok (host, port) -> host ∉ Handler.h_selfIPs h).
Proof.
  unfold servePeerConnect. case_decide as Hn; [done|].
  destruct (Peers.Validate _ _ _ _) as [[a|] hits] eqn:Hv; [|done]. apply Validate_vouched in Hv.
  destruct target as [t|]; [|done]. case_decide; [done|]. cbn zeta. case_decide as Hs; [done|].
  assert (forall host port, Net.SplitHostPort t = Ok (host, port) -> host ∉ Handler.h_selfIPs h) as Ht.
  { intros host port E. by rewrite E in Hs. }
  destruct (pe_dial e); cbn [negb]; [|done]. destruct (pe_hijacker e); cbn [negb]; [destruct (pe_hijack e); cbn [negb]|];
    (split; [done|]); intros _; split_and!; try done; by exists t.
Qed.

(** ** ServeHTTP *)

Inductive endpoint := EUDPRelay | EUDPDrain | EPeerCapabilities | EPeerConnect | ETunnel | ENodeProxy | EProbe | EPing
  | EManifest | EClubManifest | ECIDR | EProxyValidate | ERootCommand | EArbiterProxy.

Definition tunnel_path (path : gostring) : bool :=
  bool_decide (path ∈ [bs "/api/media/upload"; bs "/api/content/submit"; bs "/api/udp/relay"; bs "/api/udp/drain"]).

Definition ServeHTTP_route (method path : gostring) (nodeProx : bool) : endpoint :=
  let post := bool_decide (method = bs "POST") in
  let get := bool_decide (method = bs "GET") in
  let at_ p := bool_decide (path = bs p) in
  if post && at_ "/api/udp/relay" then EUDPRelay
  else if post && at_ "/api/udp/drain" then EUDPDrain
  else if get && at_ "/api/peer/capabilities" then EPeerCapabilities
  else if post && at_ "/api/peer/connect" then EPeerConnect
  else if post && tunnel_path path then ETunnel
  else if Strings.HasPrefix path (bs "/p/node/v1/") && nodeProx then ENodeProxy
  else if at_ "/p/v1/probe" && get && nodeProx then EProbe
  else if at_ "/p/v1/ping" && get then EPing
  else if at_ "/api/manifest" && get then EManifest
  else if at_ "/api/club-manifest" && get then EClubManifest
  else if at_ "/api/bypass/cidr" && get then ECIDR
  else if post && at_ "/api/auth/proxy-validate" then EProxyValidate
  else if post && at_ "/" then ERootCommand
  else EArbiterProxy.

(** [serveRootCommand]: is the body's command answered from the login cache? *)
Definition root_command_cached (command : gostring) : bool :=
  bool_decide (command = bs "authenticateKey") || bool_decide (command = bs "verifyPassword").
End Endpoints.
