(* ===== verification/RateLimit.v ===== *)
(** * snc-arbiter: rate limits and the caller's address (src/snc-arbiter/ratelimit.go)

    The cooldown limiter and the tiered sliding-window limiter, each a map updated
    under its mutex, and [clientIP], which decides whose bucket a request falls in.
    The clock is an argument of each call: it is read before the mutex is taken, so the readings
    of calls in the order of the mutex need not be ordered. The token bucket of the same file
    computes in float64 and is not modelled. *)

From stdpp Require Import base list gmap strings fin_maps sorting.
From Stdlib Require Import ZArith Lia.
From S2P Require Import Prelude GoLib.

Module RateLimit.

(** ** simpleRateLimiter *)

Abbreviation simpleRateLimiter := (gmap gostring Z).

Definition sweepAt : Z := 10000.

Definition simple_Allow (now : Z) (key : gostring) (cooldown : Z) (l : simpleRateLimiter) : bool * simpleRateLimiter :=
  let recent := match l !! key with Some t => now - t <? cooldown | None => false end in
  if recent then (false, l)
  else
    let l := <[key := now]> l in
    (true, if sweepAt <? Z.of_nat (size l) then filter (fun kv => ~ (hour < now - kv.2)) l else l).

(** ** tieredWindowLimiter *)

Record limitTier := MkTier { Window : Z; Max : Z }.
Abbreviation tieredWindowLimiter := (gmap gostring (list Z)).

(** [e.After(cutoff)] *)
Definition after (cutoff : Z) (evs : list Z) : list Z := List.filter (fun e => cutoff <? e) evs.
Definition longest (tiers : list limitTier) : Z := fold_left (fun m t => if m <? Window t then Window t else m) tiers 0.
Definition tier_full (now : Z) (evs : list Z) (t : limitTier) : bool := Max t <=? lenZ (after (now - Window t) evs).

Definition tiered_Allow (now : Z) (key : gostring) (tiers : list limitTier) (events : tieredWindowLimiter)
    : bool * tieredWindowLimiter :=
  let evs := default [] (events !! key) in
  if existsb (tier_full now evs) tiers then (false, events)
  else
    let events := <[key := after (now - longest tiers) evs ++ [now]]> events in
    (true, if sweepAt <? Z.of_nat (size events) then filter (fun kv => kv.2 <> []) events else events).

(** ** clientIP *)

(** [strings.Split(s, ",")] *)
Definition comma : Z := 44.
Fixpoint Split (s : gostring) : list gostring :=
  match s with
  | [] => [[]]
  | c :: s =>
      match Split s with
      | [] => [[c]]
      | x :: l => if c =? comma then [] :: x :: l else (c :: x) :: l
      end
  end.

Section client_ip.
Context {U : Unicode}.

Fixpoint parse_parts (parts : list gostring) : res (list Net.IPNet) :=
  match parts with
  | [] => Ok []
  | part :: parts =>
      let part := Strings.TrimSpace part in
      if decide (part = []) then parse_parts parts
      else match Net.ParseCIDR part with
           | None => Err "trusted-proxy-cidrs: invalid CIDR"
           | Some n => ns ← parse_parts parts; Ok (n :: ns)
           end
  end.
Definition parseCIDRs (csv : gostring) : res (list Net.IPNet) := parse_parts (Split csv).

(** The trusted networks after [SetTrustedProxyCIDRs csv]. *)
Definition SetTrustedProxyCIDRs (csv : gostring) (nets : list Net.IPNet) : res () * list Net.IPNet :=
  match parseCIDRs csv with
  | Ok ns => (Ok (), ns)
  | Err e => (Err e, nets)
  | Panic => (Panic, nets)
  end.

Definition remoteAddrTrusted (nets : list Net.IPNet) (remoteAddr : gostring) : bool :=
  let host := match Net.SplitHostPort remoteAddr with Ok (h, _) => h | _ => remoteAddr end in
  match Net.ParseIP host with
  | None => false
  | Some ip => existsb (fun n => Net.Contains n ip) nets
  end.

Definition peer_host (remoteAddr : gostring) : gostring :=
  match Net.SplitHostPort remoteAddr with Ok (h, _) => h | _ => remoteAddr end.

Definition clientIP (nets : list Net.IPNet) (remoteAddr xff : gostring) : gostring :=
  if remoteAddrTrusted nets remoteAddr && negb (bool_decide (xff = [])) then
    let last := Strings.TrimSpace (List.last (Split xff) []) in
    if decide (last <> []) then last else peer_host remoteAddr
  else peer_host remoteAddr.

(** ** What they guarantee *)

Lemma Split_cons s : exists x l, Split s = x :: l.
Proof.
  induction s as [|c s (x & l & E)]; [by eexists _, _|]. cbn [Split]. rewrite E.
  destruct (c =? comma); by eexists _, _.
Qed.

Lemma Split_last pre s : comma ∉ s -> List.last (Split (pre ++ comma :: s)) [] = s.
Proof.
  intros Hs. assert (Split s = [s]) as Es.
  { induction s as [|c s IH]; [done|]. cbn [Split]. rewrite IH by set_solver.
    destruct (Z.eqb_spec c comma) as [->|]; [set_solver | done]. }
  induction pre as [|c pre IH]; cbn [app Split].
  - rewrite Es. cbn. done.
  - destruct (Split_cons (pre ++ comma :: s)) as (x & l & E). rewrite E in *.
    destruct (c =? comma); [exact IH|]. destruct l as [|y l]; [|exact IH].
    exfalso. clear -E. revert x E. induction pre as [|d pre IH]; intros x; cbn [app Split].
    + destruct (Split_cons s) as (z & l & ->). done.
    + destruct (Split_cons (pre ++ comma :: s)) as (z & l & Ez). rewrite Ez. destruct (d =? comma); [done|].
      intros [= _ ->]. by apply (IH z).
Qed.

(** A caller cannot choose its own address. From a peer that is not a trusted proxy
    the header is ignored; from a trusted one only what the proxy appended after the last
    comma counts, whatever the caller put before it. *)
Theorem clientIP_unforgeable nets remoteAddr pre pre' s :
  comma ∉ s ->
  clientIP nets remoteAddr (pre ++ comma :: s) = clientIP nets remoteAddr (pre' ++ comma :: s)
  /\ (remoteAddrTrusted nets remoteAddr = false -> forall xff, clientIP nets remoteAddr xff = peer_host remoteAddr)
  /\ (remoteAddrTrusted nets remoteAddr = true -> Strings.TrimSpace s <> [] ->
      clientIP nets remoteAddr (pre ++ comma :: s) = Strings.TrimSpace s).
Proof.
  intros Hs. assert (forall q, bool_decide (q ++ comma :: s = []) = false) as Hne.
  { intros q. apply bool_decide_eq_false. by destruct q. }
  unfold clientIP. rewrite !Hne, !Split_last by done. split_and!; [done| |].
  - intros Ht xff. by rewrite Ht.
  - intros Ht Htr. rewrite Ht. cbn [negb andb]. by rewrite decide_True.
Qed.
End client_ip.

(** Calls in the order the mutex admits them, and what was allowed for one key. *)
Abbreviation limit_call := (Z * gostring)%type.

Fixpoint run {S : Type} (allow : Z -> gostring -> S -> bool * S) (calls : list limit_call) (s : S) : list limit_call * S :=
  match calls with
  | [] => ([], s)
  | (t, k) :: calls =>
      let '(ok, s) := allow t k s in
      let '(log, s) := run allow calls s in
      (if ok then (t, k) :: log else log, s)
  end.

Definition times (k : gostring) (log : list limit_call) : list Z :=
  fst <$> List.filter (fun c => bool_decide (snd c = k)) log.

(** The readings of the clock, in the order of the mutex, are never more than [d] behind the
    latest one before, [h]: a call waits at most [d] between its reading and the mutex. *)
Fixpoint within (d h : Z) (calls : list limit_call) : Prop :=
  match calls with
  | [] => True
  | (t, _) :: calls => h - d <= t /\ within d (Z.max h t) calls
  end.
Definition skewed (d : Z) (calls : list limit_call) : Prop :=
  match calls with [] => True | (t, _) :: calls => within d t calls end.
(** The clock does not go back. *)
Definition ordered (calls : list limit_call) : Prop := skewed 0 calls.

(** Induction along a run: an invariant of the state, the log so far and the latest reading. *)
Lemma run_ind {S} (d : Z) (allow : Z -> gostring -> S -> bool * S) (P : list limit_call -> Z -> S -> Prop) :
  (forall log h t k s, P log h s -> h - d <= t ->
     P (if fst (allow t k s) then log ++ [(t, k)] else log) (Z.max h t) (snd (allow t k s))) ->
  forall calls h log s, within d h calls -> P log h s ->
  exists h, P (log ++ fst (run allow calls s)) h (snd (run allow calls s)).
Proof.
  intros Hstep calls. induction calls as [|[t k] calls IH]; intros h log s Hs HP; cbn [run].
  { exists h. by rewrite app_nil_r. }
  cbn [within] in Hs. destruct Hs as [Ht Hs].
  pose proof (Hstep log h t k s HP Ht) as H1. destruct (allow t k s) as [ok s1]. cbn [fst snd] in H1.
  destruct (IH _ _ _ Hs H1) as [t2 H2]. exists t2. destruct (run allow calls s1) as [log2 s2]. cbn [fst snd] in *.
  destruct ok; [by rewrite <- app_assoc in H2 | done].
Qed.

Lemma run_skewed {S} (d : Z) (allow : Z -> gostring -> S -> bool * S) (P : list limit_call -> Z -> S -> Prop) s calls :
  0 <= d -> (forall h, P [] h s) ->
  (forall log h t k s, P log h s -> h - d <= t ->
     P (if fst (allow t k s) then log ++ [(t, k)] else log) (Z.max h t) (snd (allow t k s))) ->
  skewed d calls -> exists h, P (fst (run allow calls s)) h (snd (run allow calls s)).
Proof.
  intros Hd H0 Hstep Hs. destruct calls as [|[t k] calls]; [by exists 0|].
  apply (run_ind d allow P Hstep ((t, k) :: calls) t [] s); [|done]. cbn [within]. rewrite Z.max_id. split; [lia|done].
Qed.

Lemma times_app k l1 l2 : times k (l1 ++ l2) = times k l1 ++ times k l2.
Proof. unfold times. by rewrite List.filter_app, fmap_app. Qed.

Lemma times_one k t k' : times k [(t, k')] = if decide (k' = k) then [t] else [].
Proof. unfold times. simpl. case_bool_decide; by case_decide. Qed.

(** *** Cooldowns *)

(** For each key: spaced allowed calls, none after the clock, and the map remembers the
    last one unless it is over an hour old. *)
Definition cooldown_inv (cooldown : Z) (log : list limit_call) (t : Z) (l : simpleRateLimiter) : Prop :=
  forall k, Sorted (fun a b => a + cooldown <= b) (times k log)
    /\ match last (times k log) with
       | None => l !! k = None
       | Some x => x <= t /\ (l !! k = Some x \/ (l !! k = None /\ hour < t - x))
       end.

Lemma Sorted_snoc_last {A} (R : A -> A -> Prop) l t :
  Sorted R l -> (forall x, last l = Some x -> R x t) -> Sorted R (l ++ [t]).
Proof.
  induction l as [|a l IH]; intros Hs Hl; [by repeat constructor|]. apply Sorted_inv in Hs as [Hs Ha].
  destruct l as [|b l]; [repeat constructor; by apply Hl|]. simpl. constructor; [by apply IH|].
  constructor. by apply HdRel_inv in Ha.
Qed.

(** The map after an allowed call: the key's time, the others kept unless over an hour old. *)
Lemma simple_Allow_lookup now key cooldown l k :
  fst (simple_Allow now key cooldown l) = true ->
  (k = key -> snd (simple_Allow now key cooldown l) !! k = Some now)
  /\ (k <> key -> snd (simple_Allow now key cooldown l) !! k = l !! k
        \/ exists x, l !! k = Some x /\ hour < now - x /\ snd (simple_Allow now key cooldown l) !! k = None).
Proof.
  unfold simple_Allow. destruct (match l !! key with Some t => _ | None => _ end); [done|]. intros _. cbn [snd].
  destruct (_ <? _); split.
  - intros ->. apply map_lookup_filter_Some. rewrite lookup_insert_eq. split; [done|].
    simpl. unfold hour, minute, second. lia.
  - intros Hn. destruct (l !! k) as [x|] eqn:E.
    + destruct (decide (hour < now - x)).
      * right. exists x. split_and!; [done..|]. apply map_lookup_filter_None. right. intros y.
        rewrite lookup_insert_ne by done. rewrite E. intros [= <-]. simpl. tauto.
      * left. apply map_lookup_filter_Some. by rewrite lookup_insert_ne.
    + left. apply map_lookup_filter_None. left. by rewrite lookup_insert_ne.
  - intros ->. apply lookup_insert_eq.
  - intros Hn. left. by rewrite lookup_insert_ne.
Qed.

Lemma cooldown_step cooldown log t k l :
  cooldown <= hour -> cooldown_inv cooldown log t l ->
  cooldown_inv cooldown (if fst (simple_Allow t k cooldown l) then log ++ [(t, k)] else log) t (snd (simple_Allow t k cooldown l)).
Proof.
  intros Hc Hinv. destruct (fst (simple_Allow t k cooldown l)) eqn:Hok.
  2: { unfold simple_Allow in *. by destruct (match l !! k with Some _ => _ | None => _ end). }
  intros k'. destruct (Hinv k') as [Hs Hl]. destruct (simple_Allow_lookup t k cooldown l k' Hok) as [H1 H2].
  rewrite times_app, times_one. destruct (decide (k = k')) as [->|Hne].
  - rewrite last_snoc, H1 by done. split; [|split; [lia|by left]].
    apply Sorted_snoc_last; [done|]. intros x Hx. rewrite Hx in Hl. destruct Hl as [Hx1 [Hx2|[_ Hx2]]]; [|lia].
    unfold simple_Allow in Hok. rewrite Hx2 in Hok. destruct (Z.ltb_spec (t - x) cooldown); [done|lia].
  - rewrite app_nil_r. split; [done|]. destruct (last (times k' log)) as [x|].
    + destruct Hl as [Hx Hl]. split; [done|]. destruct H2 as [H2|(y & Hy & Hh & H2)]; [done|by rewrite H2|].
      right. split; [done|]. destruct Hl as [Hl|[Hl _]]; [|congruence]. rewrite Hl in Hy. by injection Hy as ->.
    + destruct H2 as [H2|(y & Hy & _)]; [done|by rewrite H2|congruence].
Qed.

(** With a cooldown of at most an hour, whatever the sequence of requests and however
    many keys are in play (the map is swept beyond ten thousand), two requests allowed
    for one key are at least the cooldown apart. *)
Theorem cooldown_respected cooldown calls k :
  cooldown <= hour -> ordered calls ->
  Sorted (fun a b => a + cooldown <= b)
    (times k (fst (run (fun t key l => simple_Allow t key cooldown l) calls ∅))).
Proof.
  intros Hc Ho.
  destruct (run_skewed 0 (fun t key l => simple_Allow t key cooldown l) (cooldown_inv cooldown) ∅ calls) as [t Hinv];
    [lia | | |done|apply (Hinv k)].
  - intros h k'. split; [constructor|]. apply lookup_empty.
  - intros log h t k' l Hi Ht. rewrite Z.max_r by lia. apply cooldown_step; [done|]. intros k2. destruct (Hi k2) as [H1 H2].
    split; [done|]. destruct (last (times k2 log)) as [x|]; [|done].
    destruct H2 as [? [?|[? ?]]]; (split; [lia|]); [by left | right; split; [done|lia]].
Qed.

Lemma cooldown_respected_witness :
  Sorted (fun a b => a + 10 <= b)
    (times (bs "ip") (fst (run (fun t key l => simple_Allow t key 10 l) [(0, bs "ip"); (5, bs "ip"); (12, bs "ip")] ∅)))
  /\ times (bs "ip") (fst (run (fun t key l => simple_Allow t key 10 l) [(0, bs "ip"); (5, bs "ip"); (12, bs "ip")] ∅)) = [0; 12].
Proof.
  split; [|vm_compute; reflexivity]. apply cooldown_respected; [unfold hour, minute, second; lia|].
  cbn. lia.
Defined.

(** *** Sliding windows *)

(** The events of a window of length [w] that ends at [u]. *)
Definition in_window (w u : Z) (l : list Z) : list Z := List.filter (fun e => (u - w <? e) && (e <=? u)) l.

Lemma longest_ge tiers t : t ∈ tiers -> Window t <= longest tiers.
Proof.
  unfold longest. generalize 0. induction tiers as [|t' tiers IH]; intros m; [by intros ?%not_elem_of_nil|]. cbn [fold_left].
  assert (forall m l, m <= fold_left (fun m t => if m <? Window t then Window t else m) l m) as Hm.
  { intros m0 l. revert m0. induction l as [|x l IHl]; intros m0; cbn [fold_left]; [lia|].
    etransitivity; [|apply IHl]. destruct (Z.ltb_spec m0 (Window x)); lia. }
  intros [->|Hin]%elem_of_cons; [|by apply IH]. etransitivity; [|apply Hm]. destruct (Z.ltb_spec m (Window t')); lia.
Qed.

Lemma after_app c l1 l2 : after c (l1 ++ l2) = after c l1 ++ after c l2.
Proof. apply List.filter_app. Qed.

Lemma after_after c d l : d <= c -> after c (after d l) = after c l.
Proof.
  intros Hd. induction l as [|e l IH]; [done|]. simpl. destruct (Z.ltb_spec d e) as [He|He]; simpl.
  - by rewrite IH.
  - rewrite (proj2 (Z.ltb_ge c e)) by lia. done.
Qed.

Lemma filter_le {A} (f g : A -> bool) l : (forall x, f x = true -> g x = true) ->
  (length (List.filter f l) <= length (List.filter g l))%nat.
Proof.
  intros H. induction l as [|x l IH]; simpl; [lia|]. destruct (f x) eqn:Ef; [rewrite (H x Ef); simpl; lia|].
  destruct (g x); simpl; lia.
Qed.

(** For each key: the allowed calls keep every tier, and the log kept for the key tells
    as much of any window that ends at the latest reading [h] or later as the full one. *)
Record tier_ok (d : Z) (tiers : list limitTier) (L : list Z) (h : Z) (evs : list Z) : Prop := {
  tk_log : forall c, h - longest tiers <= c -> after c evs = after c L;
  tk_max : forall tier u, tier ∈ tiers -> lenZ (in_window (Window tier - d) u L) <= Z.max 0 (Max tier) }.

Lemma tier_step d tiers L h t evs :
  0 <= d -> h - d <= t -> existsb (tier_full t evs) tiers = false -> tier_ok d tiers L h evs ->
  tier_ok d tiers (L ++ [t]) (Z.max h t) (after (t - longest tiers) evs ++ [t]).
Proof.
  intros Hd Ht Hn [Hlog Hmax]. split.
  - intros c Hc. rewrite !after_app, after_after by lia. rewrite Hlog; [done|lia].
  - intros tier u Hin. unfold in_window. rewrite List.filter_app, length_app. cbn [List.filter].
    fold (in_window (Window tier - d) u L).
    destruct (Z.ltb_spec (u - (Window tier - d)) t); [|cbn [andb length]; rewrite Nat.add_0_r; by apply Hmax].
    destruct (Z.leb_spec t u); [|cbn [andb length]; rewrite Nat.add_0_r; by apply Hmax].
    cbn [andb length]. assert (tier_full t evs tier = false) as Hf.
    { apply not_true_is_false. intros Hf. assert (existsb (tier_full t evs) tiers = true) as Hx; [|congruence].
      apply existsb_exists. exists tier. split; [by apply list_elem_of_In | done]. }
    unfold tier_full in Hf. apply Z.leb_gt in Hf. pose proof (longest_ge tiers tier Hin).
    assert (length (in_window (Window tier - d) u L) <= length (after (t - Window tier) evs))%nat as Hle; [|lia].
    etransitivity; [apply (filter_le _ (fun e => u - (Window tier - d) <? e)); by intros e [? _]%andb_prop|].
    fold (after (u - (Window tier - d)) L). rewrite <- Hlog by lia.
    apply filter_le. intros e He%Z.ltb_lt. apply Z.ltb_lt. lia.
Qed.

Section tiered.
(** Each key is always checked against the same tiers. *)
Context (tiers : gostring -> list limitTier) (d : Z) (d_nonneg : 0 <= d).

Definition allow (t : Z) (k : gostring) (m : tieredWindowLimiter) := tiered_Allow t k (tiers k) m.

Definition tiered_inv (log : list limit_call) (t : Z) (m : tieredWindowLimiter) : Prop :=
  forall k, tier_ok d (tiers k) (times k log) t (default [] (m !! k)) /\ m !! k <> Some []
    /\ (times k log <> [] -> is_Some (m !! k)).

(** The sweep deletes nothing: no key has an empty log. *)
Lemma sweep_inert (m : tieredWindowLimiter) : (forall k, m !! k <> Some []) -> filter (fun kv => kv.2 <> []) m = m.
Proof.
  intros Hm. apply map_filter_id. intros k l Hl E. simpl in E. subst l. by destruct (Hm k).
Qed.

Lemma allow_map t k m :
  (forall k, m !! k <> Some []) ->
  snd (allow t k m) = if fst (allow t k m) then <[k := after (t - longest (tiers k)) (default [] (m !! k)) ++ [t]]> m else m.
Proof.
  intros Hm. unfold allow, tiered_Allow. destruct (existsb _ _); [done|]. cbn [fst snd]. destruct (_ <? _); [|done].
  apply sweep_inert. intros k'. destruct (decide (k = k')) as [->|Hn].
  - rewrite lookup_insert_eq. by destruct (after _ _).
  - by rewrite lookup_insert_ne.
Qed.

Lemma allow_not_full t k m : fst (allow t k m) = true -> existsb (tier_full t (default [] (m !! k))) (tiers k) = false.
Proof. unfold allow, tiered_Allow. by destruct (existsb _ _). Qed.

Lemma tiered_step log h t k m : tiered_inv log h m -> h - d <= t ->
  tiered_inv (if fst (allow t k m) then log ++ [(t, k)] else log) (Z.max h t) (snd (allow t k m)).
Proof.
  intros Hi Ht. rewrite allow_map by (intros k'; apply (Hi k')).
  intros k'. destruct (Hi k') as (Hk & Hne & Hin).
  assert (tier_ok d (tiers k') (times k' log) (Z.max h t) (default [] (m !! k'))) as Hk'.
  { destruct Hk as [H1 H2]. split; [|done]. intros c Hc. apply H1. lia. }
  destruct (fst (allow t k m)) eqn:Hok; [|done]. rewrite times_app, times_one. destruct (decide (k = k')) as [->|Hn].
  - rewrite lookup_insert_eq. split; [|split; [by destruct (after _ _)|by eexists]].
    apply tier_step; [done | done | by apply allow_not_full | done].
  - rewrite lookup_insert_ne by done. by rewrite app_nil_r.
Qed.

Lemma tiered_run calls :
  skewed d calls -> exists t, tiered_inv (fst (run allow calls ∅)) t (snd (run allow calls ∅)).
Proof.
  intros Ho. apply (run_skewed d); [done| |intros *; apply tiered_step|done].
  intros t k. rewrite lookup_empty. split; [|by split]. split; [done|]. intros. simpl. lia.
Qed.

(** C40: The tiered limiter, whose calls read the clock before they take the mutex: in any
    sequence of requests in which a key is always checked against the same tiers and no call
    holds a reading more than [d] behind the latest one, no window that is [d] shorter than a
    tier's, wherever it ends, holds more than the tier's maximum of allowed requests for the
    key, although the log is pruned. With readings in order ([d] = 0) the limit is exact; with
    others it is not ([window_exceeded]). *)
Theorem tiers_respected calls k tier u :
  skewed d calls -> tier ∈ tiers k -> 0 <= Max tier ->
  lenZ (in_window (Window tier - d) u (times k (fst (run allow calls ∅)))) <= Max tier.
Proof.
  intros Ho Hin Hm. destruct (tiered_run calls Ho) as [t Hinv]. destruct (Hinv k) as [[_ Hmax] _].
  specialize (Hmax tier u Hin). lia.
Qed.

(** The sweep that is to bound the limiter's memory never frees anything: a key that
    was let through once stays in the map forever, however many keys there are. *)
Theorem tiered_sweep_never_frees calls k t :
  skewed d calls -> (t, k) ∈ fst (run allow calls ∅) ->
  is_Some (snd (run allow calls ∅) !! k).
Proof.
  intros Ho Hin. destruct (tiered_run calls Ho) as [t1 Hinv]. destruct (Hinv k) as (_ & _ & Hk). apply Hk.
  apply list_elem_of_In in Hin. intros Hnil. unfold times in Hnil. apply fmap_nil_inv in Hnil.
  assert (In (t, k) (List.filter (fun c : limit_call => bool_decide (snd c = k)) (fst (run allow calls ∅)))) as Hx.
  { apply List.filter_In. split; [done|]. by apply bool_decide_eq_true. }
  by rewrite Hnil in Hx.
Qed.
End tiered.

Definition test_tiers (k : gostring) : list limitTier := [MkTier 10 1; MkTier 100 2].
Definition test_calls : list limit_call := [(0, bs "ip"); (5, bs "ip"); (20, bs "ip"); (40, bs "ip"); (101, bs "ip")].
Definition late_calls : list limit_call := [(0, bs "ip"); (11, bs "ip"); (9, bs "ip"); (8, bs "ip")].

Lemma tiers_respected_witness :
  times (bs "ip") (fst (run (allow test_tiers) test_calls ∅)) = [0; 20; 101]
  /\ lenZ (in_window (100 - 0) 105 (times (bs "ip") (fst (run (allow test_tiers) test_calls ∅)))) <= 2
  /\ times (bs "ip") (fst (run (allow test_tiers) late_calls ∅)) = [0; 11]
  /\ lenZ (in_window (100 - 3) 105 (times (bs "ip") (fst (run (allow test_tiers) late_calls ∅)))) <= 2.
Proof.
  split; [vm_compute; reflexivity|]. split; [|split; [vm_compute; reflexivity|]].
  - apply (tiers_respected test_tiers 0 ltac:(lia) test_calls (bs "ip") (MkTier 100 2) 105);
      [cbn; lia | right; by left | simpl; lia].
  - apply (tiers_respected test_tiers 3 ltac:(lia) late_calls (bs "ip") (MkTier 100 2) 105);
      [cbn; lia | right; by left | simpl; lia].
Defined.

Lemma tiered_sweep_never_frees_witness : is_Some (snd (run (allow test_tiers) test_calls ∅) !! bs "ip").
Proof.
  apply (tiered_sweep_never_frees test_tiers 0 ltac:(lia) test_calls (bs "ip") 20).
  - cbn. lia.
  - apply (bool_decide_eq_true _). vm_compute. reflexivity.
Defined.

(** The limit is not exact: of two calls, the one that read the clock at 10 is through the
    mutex before the one that read it at 9, and drops from the log two requests that the other
    should have counted; three requests end up allowed in a window of length 10 that is to hold
    two. *)
Theorem window_exceeded :
  let calls := [(0, bs "ip"); (0, bs "ip"); (10, bs "ip"); (9, bs "ip")] in
  skewed 1 calls /\ lenZ (in_window 10 9 (times (bs "ip") (fst (run (allow (fun _ => [MkTier 10 2])) calls ∅)))) = 3.
Proof. split; [cbn; lia | vm_compute; reflexivity]. Qed.

Definition loopback_nets : list Net.IPNet := omap Net.ParseCIDR [bs "127.0.0.1/32"; bs "::1/128"].

Lemma clientIP_unforgeable_witness :
  clientIP loopback_nets (bs "127.0.0.1:5000") (bs "1.2.3.4" ++ comma :: bs " 9.9.9.9") = bs "9.9.9.9".
Proof.
  assert (comma ∉ bs " 9.9.9.9") as Hc by (apply (bool_decide_eq_true _); vm_compute; reflexivity).
  apply (proj2 (proj2 (clientIP_unforgeable loopback_nets (bs "127.0.0.1:5000") (bs "1.2.3.4") [] (bs " 9.9.9.9") Hc))).
  - vm_compute. reflexivity.
  - vm_compute. discriminate.
Defined.
End RateLimit.
