(* ===== verification/ControlExits.v ===== *)
(** * snc-control: the exits a control node knows

    The registry of exits (exits.go), their health (exit_health.go), the probe sites
    (probe_sites.go) and the heartbeat. The registry is one record; a method that takes
    its lock is one step. JSON, Ed25519 and SHA-256 are parameters; HTTP answers, TLS
    handshakes, clock readings, random draws and the order of a map iteration are inputs.
    RTTs and load factors are float64 ([GoFloat]). The counters [consecutive] and
    [trafficSamples] go up by one per probe or dial and are not wrapped. *)

From stdpp Require Import base list gmap strings fin_maps.
From Stdlib Require Import ZArith Lia.
From S2P Require Import Prelude GoLib GoFloat.

Module Exits.
Import Float Rand.

Definition minValidExits : Z := 3.
Definition staleExitAfter : Z := 24 * hour.
Definition deadAfterFails : Z := 2.
Definition aliveAfterSuccesses : Z := 2.
Definition trafficRTTAlpha : float64 := fconst 15 100.
Definition trafficRTTMinSamples : Z := 5.
Definition allDeadRestartAfter : Z := 10 * minute.

(** ** Data *)

Record ExitNode := MkExit {
  Addr : gostring;
  Fingerprint : gostring;
  RTTms : float64;
  Load : float64;
  DataPlaneOK : option bool }.

Record exitHealth := MkHealth {
  alive : bool;
  consecutive : Z;
  rttMs : float64;
  trafficRttMs : float64;
  trafficSamples : Z }.

(** [probeSites] is [None] until the health checker starts; [health] too, and writing to
    that nil map panics. [onDead] says whether the callback is set. *)
Record ExitRegistry := MkRegistry {
  nodeToken : gostring;
  pubkey : option bytes;
  cacheFile : gostring;
  myRegion : gostring;
  relayEnabled : bool;
  exits : list ExitNode;
  exitRegions : gmap gostring gostring;
  lastSeen : gmap gostring Z;
  health : option (gmap gostring exitHealth);
  probeSites : option (gmap gostring (list gostring));
  onDead : bool }.

#[export] Instance ExitNode_eq_dec : EqDecision ExitNode.
Proof. solve_decision. Defined.

Definition newExitRegistry (nodeToken : gostring) (pubkey : option bytes) (cacheFile : gostring) : ExitRegistry :=
  MkRegistry nodeToken pubkey cacheFile [] true [] ∅ ∅ None None false.

Definition RelayEnabled (r : ExitRegistry) : bool := relayEnabled r.
Definition MyRegion (r : ExitRegistry) : gostring := myRegion r.
Definition Exits (r : ExitRegistry) : list ExitNode := exits r.

Definition SetMyRegion (cc : gostring) (r : ExitRegistry) : ExitRegistry :=
  MkRegistry (nodeToken r) (pubkey r) (cacheFile r) cc (relayEnabled r) (exits r) (exitRegions r)
    (lastSeen r) (health r) (probeSites r) (onDead r).
Definition set_list (l : list ExitNode) (seen : gmap gostring Z) (r : ExitRegistry) : ExitRegistry :=
  MkRegistry (nodeToken r) (pubkey r) (cacheFile r) (myRegion r) (relayEnabled r) l (exitRegions r)
    seen (health r) (probeSites r) (onDead r).
Definition set_advisory (regions : gmap gostring gostring) (relay : bool) (r : ExitRegistry) : ExitRegistry :=
  MkRegistry (nodeToken r) (pubkey r) (cacheFile r) (myRegion r) relay (exits r) regions
    (lastSeen r) (health r) (probeSites r) (onDead r).
Definition set_health (h : gmap gostring exitHealth) (r : ExitRegistry) : ExitRegistry :=
  MkRegistry (nodeToken r) (pubkey r) (cacheFile r) (myRegion r) (relayEnabled r) (exits r) (exitRegions r)
    (lastSeen r) (Some h) (probeSites r) (onDead r).
Definition StartHealthChecker (sites : option (gmap gostring (list gostring))) (r : ExitRegistry) : ExitRegistry :=
  MkRegistry (nodeToken r) (pubkey r) (cacheFile r) (myRegion r) (relayEnabled r) (exits r) (exitRegions r)
    (lastSeen r) (Some ∅) sites (onDead r).

(** ** Health (exit_health.go) *)

Definition health_map (r : ExitRegistry) : gmap gostring exitHealth := default ∅ (health r).

(** Entries are made on first use, as alive. *)
Definition new_health : exitHealth := MkHealth true 0 f0 f0 0.
Definition entry (addr : gostring) (h : gmap gostring exitHealth) : exitHealth := default new_health (h !! addr).

Definition isAlive (r : ExitRegistry) (addr : gostring) : bool :=
  match health_map r !! addr with Some h => alive h | None => true end.

Definition anyAlive (r : ExitRegistry) : bool :=
  if decide (health_map r = ∅) then true
  else existsb (fun p => alive p.2) (map_to_list (health_map r)).

Definition regionOf (r : ExitRegistry) (addr : gostring) : gostring := default [] (exitRegions r !! addr).

(** The map of sites is nil, here empty, until it was fetched once. *)
Definition ForRegion (sites : gmap gostring (list gostring)) (region : gostring) : list gostring :=
  match sites !! region with
  | Some (u :: urls) => u :: urls
  | _ => default [] (sites !! [])
  end.

(** What the network answers to a probe: the status of a response, [None] for an error. *)
Record probe_env := MkProbe {
  pe_ping : option Z;
  pe_ping_rtt : Z;
  pe_outbound : option Z;
  pe_outbound_rtt : Z;
  pe_site : nat -> option Z }.

Definition status_ok (a : option Z) : bool := match a with Some s => s =? 200 | None => false end.

(** [true] when the error is nil. *)
Definition probeDataPlane (urls : list gostring) (answer : nat -> option Z) : bool :=
  match urls with
  | [] => true
  | _ => let successes := lenZ (List.filter (fun i => status_ok (answer i)) (seq 0 (length urls))) in
         lenZ urls <=? successes * 5
  end.

(** The outcome of a probe: did it succeed, and the RTT in ms. *)
Definition run_probe (r : ExitRegistry) (addr : gostring) (e : probe_env) : bool * float64 :=
  let rtt := fmul (Seconds (pe_ping_rtt e)) (of_Z 1000) in
  match status_ok (pe_ping e), probeSites r with
  | true, Some sites =>
      let urls := ForRegion sites (regionOf r addr) in
      let rtt := match urls with
                 | _ :: _ => if status_ok (pe_outbound e)
                             then fmul (Seconds (pe_outbound_rtt e)) (of_Z 1000) else rtt
                 | [] => rtt
                 end in
      (probeDataPlane urls (pe_site e), rtt)
  | ok, _ => (ok, rtt)
  end.

(** The update of an entry; the flag is [justDied]. *)
Definition note_probe (ok : bool) (rtt : float64) (h : exitHealth) : exitHealth * bool :=
  if ok then
    let c := if consecutive h <? 0 then 1 else consecutive h + 1 in
    let a := if negb (alive h) && (aliveAfterSuccesses <=? c) then true else alive h in
    (MkHealth a c rtt (trafficRttMs h) (trafficSamples h), false)
  else
    let c := if 0 <? consecutive h then -1 else consecutive h - 1 in
    let died := alive h && (deadAfterFails <=? - c) in
    (MkHealth (if died then false else alive h) c (rttMs h) (trafficRttMs h) (trafficSamples h), died).

(** [probeOne]; the list holds the addresses [onDead] is called with. *)
Definition probeOne (addr : gostring) (e : probe_env) (r : ExitRegistry) : res (ExitRegistry * list gostring) :=
  let '(ok, rtt) := run_probe r addr e in
  match health r with
  | None => Panic
  | Some m =>
      let '(h, justDied) := note_probe ok rtt (entry addr m) in
      Ok (set_health (<[addr := h]> m) r, if justDied && onDead r then [addr] else [])
  end.

(** [probeAll] probes every exit; [envs] are the answers, [order] the order in which the
    goroutines reach the lock. *)
Fixpoint probe_list (l : list ExitNode) (envs : gostring -> probe_env) (r : ExitRegistry)
    : res (ExitRegistry * list gostring) :=
  match l with
  | [] => Ok (r, [])
  | e :: l => '(r, d1) ← probeOne (Addr e) (envs (Addr e)) r;
              '(r, d2) ← probe_list l envs r; mret (r, d1 ++ d2)
  end.
Definition probeAll (order : nat -> nat) (envs : gostring -> probe_env) (r : ExitRegistry)
    : res (ExitRegistry * list gostring) :=
  probe_list (rand_Shuffle order (Exits r)) envs r.

(** One iteration of [healthLoop]: the probes, then the restart decision. [since] is
    [allDeadSince], [None] when zero; the flag says os.Exit(1). *)
Definition health_tick (order : nat -> nat) (envs : gostring -> probe_env) (now : Z)
    (r : ExitRegistry) (since : option Z) : res (ExitRegistry * list gostring * option Z * bool) :=
  '(r, dead) ← probeAll order envs r;
  mret (if bool_decide (Exits r = []) || anyAlive r then (r, dead, None, false)
        else match since with
             | None => (r, dead, Some now, false)
             | Some t => (r, dead, since, allDeadRestartAfter <=? now - t)
             end).

Definition RecordDialRTT (addr : gostring) (d : Z) (r : ExitRegistry) : res ExitRegistry :=
  let ms := of_Z (Milliseconds d) in
  match health r with
  | None => Panic
  | Some m =>
      let h := entry addr m in
      let t := if trafficSamples h =? 0 then ms
               else fadd (fmul trafficRTTAlpha ms) (fmul (fconst 85 100) (trafficRttMs h)) in
      Ok (set_health (<[addr := MkHealth (alive h) (consecutive h) (rttMs h) t (trafficSamples h + 1)]> m) r)
  end.

Definition rttOf (r : ExitRegistry) (addr : gostring) : float64 :=
  match health_map r !! addr with
  | None => f0
  | Some h =>
      let probe := rttMs h in
      let traffic := if trafficSamples h <? trafficRTTMinSamples then f0 else trafficRttMs h in
      if flt f0 probe && flt f0 traffic then fadd (fmul (fconst 3 10) probe) (fmul (fconst 7 10) traffic)
      else if flt f0 traffic then traffic else probe
  end.

Definition not_dead (h : gmap gostring exitHealth) (e : ExitNode) : bool :=
  match h !! Addr e with Some x => alive x | None => true end.
Definition probe_rtt (h : gmap gostring exitHealth) (e : ExitNode) : float64 :=
  match h !! Addr e with
  | Some x => if flt f0 (rttMs x) then rttMs x else RTTms e
  | None => RTTms e
  end.
Definition minProbeRTTOver (l : list ExitNode) (h : gmap gostring exitHealth) (aliveOnly : bool) : float64 :=
  min_positive (probe_rtt h) (if aliveOnly then List.filter (not_dead h) l else l).
Definition MinProbeRTT (r : ExitRegistry) : float64 :=
  let best := minProbeRTTOver (Exits r) (health_map r) true in
  if feq best f0 then minProbeRTTOver (Exits r) (health_map r) false else best.

(** The measured RTT, else the one the exit reports. *)
Definition own_rtt (r : ExitRegistry) (e : ExitNode) : float64 :=
  if flt f0 (rttOf r (Addr e)) then rttOf r (Addr e) else RTTms e.
Definition minEffectiveRTTOver (r : ExitRegistry) (l : list ExitNode) (aliveOnly : bool) : float64 :=
  min_positive (own_rtt r) (if aliveOnly then List.filter (fun e => isAlive r (Addr e)) l else l).
Definition MinEffectiveRTT (r : ExitRegistry) : float64 :=
  let best := minEffectiveRTTOver r (Exits r) true in
  if feq best f0 then minEffectiveRTTOver r (Exits r) false else best.

(** ** The list of exits (exits.go) *)

(** The signed list as it is on the wire. *)
Record signed_list := MkSigned {
  sl_type : gostring; sl_ts : Z; sl_nodes : list ExitNode; sl_sig : gostring;
  sl_regions : gmap gostring gostring; sl_relay : option bool }.

(** The floats of a node exist as float64 values. *)
Definition node_ok (e : ExitNode) : Prop := fvalid (RTTms e) /\ fvalid (Load e).

(** encoding/json at the types used here, and SHA-256. [marshal_cache] is nil when the
    encoder fails. *)
Class ExitsCodec := {
  un_wrapper : bytes -> option (list ExitNode * gmap gostring Z);
  un_nodes : bytes -> option (list ExitNode);
  un_signed : bytes -> option signed_list;
  marshal_cache : list ExitNode -> gmap gostring Z -> bytes;
  un_sites : bytes -> option (gmap gostring (list gostring));
  canonical_list : gostring -> Z -> list ExitNode -> bytes;
  sha256 : bytes -> bytes;
  un_wrapper_ok : forall b nodes ls, un_wrapper b = Some (nodes, ls) -> Forall node_ok nodes;
  un_nodes_ok : forall b nodes, un_nodes b = Some nodes -> Forall node_ok nodes;
  un_signed_ok : forall b s, un_signed b = Some s -> Forall node_ok (sl_nodes s) }.

Definition effectiveLoadFactor (f : float64) : float64 := if fle f f0 then f1 else f.

Section registry.
Context {U : Unicode} {ED : Ed25519} {EC : ExitsCodec}.

Definition LoadBootstrap (addrs : list gostring) (now : Z) (r : ExitRegistry) : ExitRegistry :=
  let nodes := (fun a => MkExit a [] f0 f0 None) <$>
               List.filter (fun a => negb (bool_decide (a = []))) (Strings.TrimSpace <$> addrs) in
  match nodes with
  | [] => r
  | _ => set_list nodes (foldl (fun m n => <[Addr n := now]> m) (lastSeen r) nodes) r
  end.

(** The last entry for an address wins. *)
Definition by_addr (m : gmap gostring ExitNode) (l : list ExitNode) : gmap gostring ExitNode :=
  foldl (fun m e => <[Addr e := e]> m) m l.

(** The file's content as nodes and times of last sight; [None] when it is corrupt. *)
Definition parse_cache (data : bytes) : option (list ExitNode * gmap gostring Z) :=
  let data := Strings.TrimSpace data in
  match data with
  | 123 :: _ => match un_wrapper data with
                | Some (nodes, ls) => Some (nodes, time_Unix <$> ls)
                | None => None
                end
  | _ => match un_nodes data with Some nodes => Some (nodes, ∅) | None => None end
  end.

(** The time of last sight of a node read from the file. *)
Definition note_cached (cachedSeen : gmap gostring Z) (now : Z) (m : gmap gostring Z) (e : ExitNode) : gmap gostring Z :=
  match cachedSeen !! Addr e with
  | Some t => <[Addr e := t]> m
  | None => match m !! Addr e with Some _ => m | None => <[Addr e := now]> m end
  end.

Definition LoadCached (disk : option bytes) (now : Z) (order : nat -> nat) (r : ExitRegistry) : ExitRegistry :=
  if decide (cacheFile r = []) then r
  else match disk ≫= parse_cache with
  | None => r
  | Some (nodes, cachedSeen) =>
      let seen := foldl (note_cached cachedSeen now) (lastSeen r) nodes in
      set_list (range_map order (by_addr (by_addr ∅ (exits r)) nodes)).*2 seen r
  end.

(** The times of last sight as the file has them, in seconds. *)
Definition seen_seconds (seen : gmap gostring Z) (nodes : list ExitNode) : gmap gostring Z :=
  foldl (fun m n => match seen !! Addr n with Some t => <[Addr n := time_seconds t]> m | None => m end) ∅ nodes.

(** What [persist] leaves in the file; the flags say whether the directory could be made
    and the file written. *)
Definition persist (dir_ok write_ok : bool) (nodes : list ExitNode) (seen : gmap gostring Z)
    (r : ExitRegistry) (disk : option bytes) : option bytes :=
  if decide (cacheFile r = []) then disk
  else if negb dir_ok then disk
  else if write_ok then Some (marshal_cache nodes (seen_seconds seen nodes)) else disk.

(** The two filters shared by [PickFor] and [PickForClient]: exits that work, and of those
    the ones abroad. Each keeps its input when it would leave nothing. *)
Definition exit_works (r : ExitRegistry) (e : ExitNode) : bool :=
  isAlive r (Addr e) && match DataPlaneOK e with None => true | Some b => b end.
Definition or_all {A} (l all : list A) : list A := match l with [] => all | _ => l end.
Definition live_exits (r : ExitRegistry) : list ExitNode :=
  or_all (List.filter (exit_works r) (exits r)) (exits r).

Definition excluded (r : ExitRegistry) (clientCC cc : gostring) : bool :=
  if decide (cc = []) then false
  else (negb (bool_decide (myRegion r = [])) && bool_decide (cc = myRegion r)) ||
       (negb (bool_decide (clientCC = [])) && bool_decide (cc = clientCC)).
Definition geo_filter_on (r : ExitRegistry) (clientCC : gostring) : bool :=
  (negb (bool_decide (myRegion r = [])) || negb (bool_decide (clientCC = []))) &&
  negb (bool_decide (exitRegions r = ∅)).
Definition geo_filter (r : ExitRegistry) (clientCC : gostring) (live : list ExitNode) : list ExitNode :=
  if geo_filter_on r clientCC
  then or_all (List.filter (fun e => negb (excluded r clientCC (regionOf r (Addr e)))) live) live
  else live.

Definition no_exits : string := "no live exits available".

(** [PickFor]: of the candidates those within 30% of the fastest, one at random. The control's own
    measurement comes before the RTT that an exit reported; the comments in exits.go say the
    opposite. *)
Definition effectiveRTT (r : ExitRegistry) (e : ExitNode) : float64 :=
  fmul (own_rtt r e) (effectiveLoadFactor (Load e)).
Definition near_best (r : ExitRegistry) (best : float64) (e : ExitNode) : bool :=
  let rtt := effectiveRTT r e in feq rtt f0 || feq best f0 || fle rtt (fmul best (fconst 13 10)).
Definition rtt_pool (r : ExitRegistry) (live : list ExitNode) : list ExitNode :=
  if (length (exits r) <? 5)%nat then live
  else List.filter (near_best r (min_positive (effectiveRTT r) live)) live.
Definition PickFor (clientCC : gostring) (draw : nat) (r : ExitRegistry) : res ExitNode :=
  match exits r with
  | [] => Err no_exits
  | _ => rand_pick draw (rtt_pool r (geo_filter r clientCC (live_exits r)))
  end.
Definition Pick (draw : nat) (r : ExitRegistry) : res ExitNode := PickFor [] draw r.

(** [PickForClient]: a walk along the cumulative weights to a point that the client's
    address fixes. *)
Definition clientRTT (r : ExitRegistry) (e : ExitNode) : float64 :=
  let rtt := rttOf r (Addr e) in
  let rtt := if fle rtt f0 then RTTms e else rtt in
  let rtt := if fle rtt f0 then f1 else rtt in
  fmul rtt (effectiveLoadFactor (Load e)).
Fixpoint walk (target : float64) (l : list (ExitNode * float64)) : option ExitNode :=
  match l with
  | [] => None
  | (e, w) :: l => let target := fsub target w in if fle target f0 then Some e else walk target l
  end.
Definition client_fraction (clientIP : gostring) : float64 :=
  fdiv (of_Z (be_get (take 8 (sha256 clientIP)))) (of_Z (2 ^ 64 - 1)).
Definition weighted_pick (r : ExitRegistry) (clientIP : gostring) (live : list ExitNode) : res ExitNode :=
  let weights := (fun e => fdiv f1 (clientRTT r e)) <$> live in
  let total := foldl fadd f0 weights in
  match last live with
  | None => Panic
  | Some e => Ok (default e (walk (fmul (client_fraction clientIP) total) (zip live weights)))
  end.
Definition PickForClient (clientIP clientCC : gostring) (r : ExitRegistry) : res ExitNode :=
  match exits r with
  | [] => Err no_exits
  | _ => match geo_filter r clientCC (live_exits r) with
         | [e] => Ok e
         | live => weighted_pick r clientIP live
         end
  end.

(** [PickRandom] reads the disk cache when it knows no exit. *)
Definition revive (disk : option bytes) (now : Z) (order : nat -> nat) (r : ExitRegistry) : ExitRegistry :=
  match exits r with [] => LoadCached disk now order r | _ => r end.
Definition PickRandom (disk : option bytes) (now : Z) (order : nat -> nat) (draw : nat) (r : ExitRegistry)
    : res ExitNode * ExitRegistry :=
  let r := revive disk now order r in
  match exits r with
  | [] => (Err "no exits available", r)
  | _ => (rand_pick draw (or_all (List.filter (fun e => isAlive r (Addr e)) (exits r)) (exits r)), r)
  end.

(** Without a port, 443. *)
Definition exitDialAddr (addr : gostring) : gostring :=
  let addr := Strings.TrimPrefix (Strings.TrimPrefix addr (bs "https://")) (bs "http://") in
  match Net.SplitHostPort addr with Ok _ => addr | _ => addr ++ bs ":443" end.
Definition exitProxyURL (exitAddr arbiterPath : gostring) : gostring :=
  bs "https://" ++ exitDialAddr exitAddr ++ bs "/p/node/v1/arbiter" ++ arbiterPath.

(** The certificates the exit presents, [None] when the handshake fails. *)
Definition hex_upper (b : Z) : gostring := Strings.upper_byte <$> Hex.encode [b].
Definition fingerprint (cert : bytes) : gostring := Net.join (bs ":") (hex_upper <$> sha256 cert).
Definition verifyExitFingerprint (certs : option (list bytes)) (expectedFP : gostring) : res () :=
  match certs with
  | None => Err "TLS probe"
  | Some [] => Err "no certificates in TLS handshake"
  | Some (c :: _) =>
      if decide (fingerprint c = Strings.ToUpper expectedFP) then Ok () else Err "fingerprint mismatch"
  end.

(** The outcome of an HTTP exchange through an exit: an error, a status other than 200, a
    body that cannot be read, or the body up to the reader's limit. *)
Inductive fetched := FetchError | FetchStatus (code : Z) | FetchUnreadable | FetchBody (raw : bytes).

Definition fetched_body (f : fetched) : res bytes :=
  match f with
  | FetchError => Err "fetch"
  | FetchStatus _ => Err "arbiter returned an error status"
  | FetchUnreadable => Err "read"
  | FetchBody raw => Ok raw
  end.

(** The merge of a verified list: a node is dropped only when it was last seen more than a
    day ago. *)
Fixpoint merge_loop (now : Z) (l : list (gostring * ExitNode)) (seen : gmap gostring Z)
    : list ExitNode * gmap gostring Z :=
  match l with
  | [] => ([], seen)
  | (addr, e) :: l =>
      let '(t, seen) := match seen !! addr with Some t => (t, seen) | None => (now, <[addr := now]> seen) end in
      if staleExitAfter <? now - t then merge_loop now l (delete addr seen)
      else let '(merged, seen) := merge_loop now l seen in (e :: merged, seen)
  end.
Definition merge_exits (now : Z) (order : nat -> nat) (verified : list ExitNode) (r : ExitRegistry)
    : list ExitNode * gmap gostring Z :=
  merge_loop now (range_map order (by_addr (by_addr ∅ (exits r)) verified))
    (foldl (fun m e => <[Addr e := now]> m) (lastSeen r) verified).

Definition check_signed (pub : option bytes) (s : signed_list) : res () :=
  match pub with
  | None => Ok ()
  | Some key =>
      match Base64.decode (sl_sig s) with
      | Some sig => if ed25519_verify key (canonical_list (sl_type s) (sl_ts s) (sl_nodes s)) sig
                    then Ok () else Err "exits: signature verification failed"
      | None => Err "exits: signature verification failed"
      end
  end.

Record refresh_env := MkRefresh {
  re_now0 : Z; re_order0 : nat -> nat; re_draw : nat;   (** [PickRandom] *)
  re_fetched : fetched;
  re_now1 : Z;                                          (** when the age is checked *)
  re_certs : gostring -> option (list bytes);           (** certificates by address *)
  re_now : Z; re_order : nat -> nat;                    (** the merge *)
  re_dir_ok : bool; re_write_ok : bool }.

(** What a body that was fetched is worth: the list, parsed, signed and recent. *)
Definition accept_list (e : refresh_env) (pub : option bytes) (raw : bytes) : res signed_list :=
  match un_signed raw with
  | None => Err "parse exits"
  | Some sl => _ ← check_signed pub sl;
               if 10 * minute <? re_now1 e - time_Unix (sl_ts sl) then Err "exits: signed list too old" else Ok sl
  end.
Definition verified_nodes (certs : gostring -> option (list bytes)) (l : list ExitNode) : list ExitNode :=
  List.filter (fun n => bool_decide (Fingerprint n = []) ||
    match verifyExitFingerprint (certs (Addr n)) (Fingerprint n) with Ok _ => true | _ => false end) l.
Definition apply_list (e : refresh_env) (sl : signed_list) (r : ExitRegistry) : ExitRegistry :=
  let '(merged, seen) := merge_exits (re_now e) (re_order e) (verified_nodes (re_certs e) (sl_nodes sl)) r in
  set_advisory (sl_regions sl) (match sl_relay sl with None => true | Some b => b end) (set_list merged seen r).

Definition refresh (e : refresh_env) (r : ExitRegistry) (disk : option bytes)
    : res () * ExitRegistry * option bytes :=
  let '(exit, r) := PickRandom disk (re_now0 e) (re_order0 e) (re_draw e) r in
  match (_ ← exit; raw ← fetched_body (re_fetched e); accept_list e (pubkey r) raw) with
  | Ok sl => let r := apply_list e sl r in
             (Ok (), r, persist (re_dir_ok e) (re_write_ok e) (exits r) (lastSeen r) r disk)
  | Err m => (Err m, r, disk)
  | Panic => (Panic, r, disk)
  end.
Definition ForceRefresh := refresh.

(** ** Probe sites (probe_sites.go): the list is replaced by one that is not empty. *)

Definition parse_sites (raw : bytes) : option (gmap gostring (list gostring)) :=
  match un_sites raw with Some s => if decide (s = ∅) then None else Some s | None => None end.
Definition sites_fetch (disk : option bytes) (now : Z) (order : nat -> nat) (draw : nat) (f : fetched)
    (r : ExitRegistry) (sites : gmap gostring (list gostring))
    : res () * ExitRegistry * gmap gostring (list gostring) :=
  let '(exit, r) := PickRandom disk now order draw r in
  match (_ ← exit; raw ← fetched_body f;
         match parse_sites raw with Some s => Ok s | None => Err "probe sites" end) with
  | Ok s => (Ok (), r, s)
  | Err m => (Err m, r, sites)
  | Panic => (Panic, r, sites)
  end.
Definition sites_loadCache (file : gostring) (data : option bytes) (sites : gmap gostring (list gostring))
    : gmap gostring (list gostring) :=
  if decide (file = []) then sites else default sites (data ≫= parse_sites).

(** The health checker reads the sites through its pointer. *)
Definition set_sites (s : gmap gostring (list gostring)) (r : ExitRegistry) : ExitRegistry :=
  MkRegistry (nodeToken r) (pubkey r) (cacheFile r) (myRegion r) (relayEnabled r) (exits r) (exitRegions r)
    (lastSeen r) (health r) ((fun _ => s) <$> probeSites r) (onDead r).

(** ** The heartbeat *)

Record hb_state := MkHb { hb_lastBytes : Z; hb_lastTime : option Z }.
Record hb_payload := MkPayload {
  hp_id : gostring; hp_token : gostring; hp_rtt_ms : float64; hp_routing_rtt_ms : float64;
  hp_bytes_total : Z; hp_bw_mbps : float64 }.

Definition bandwidth (st : hb_state) (now total : Z) : float64 :=
  match hb_lastTime st with
  | None => f0
  | Some t =>
      let elapsed := Seconds (now - t) in
      if flt f0 elapsed && (hb_lastBytes st <? total)
      then fdiv (fdiv (fmul (of_Z (total - hb_lastBytes st)) (of_Z 8)) elapsed) (of_Z 1000000) else f0
  end.

(** The request [send] makes, none when no exit is known. *)
Definition heartbeat_send (disk : option bytes) (now0 : Z) (order : nat -> nat) (draw : nat) (now total : Z)
    (token : gostring) (r : ExitRegistry) (st : hb_state)
    : res (option (gostring * hb_payload)) * ExitRegistry * hb_state :=
  let '(exit, r) := PickRandom disk now0 order draw r in
  match exit with
  | Panic => (Panic, r, st)
  | Err _ => (Ok None, r, st)
  | Ok x =>
      (id ← go_slice token 0 (Z.min 8 (lenZ token));
       Ok (Some (exitProxyURL (Addr x) (bs "/api/heartbeat"),
         MkPayload id token (MinProbeRTT r) (MinEffectiveRTT r) total (bandwidth st now total))),
       r, MkHb total (Some now))
  end.

(** ** A control node's life

    One operation on the registry, with the outcomes of the probes it made. *)

Definition set_onDead (r : ExitRegistry) : ExitRegistry :=
  MkRegistry (nodeToken r) (pubkey r) (cacheFile r) (myRegion r) (relayEnabled r) (exits r) (exitRegions r)
    (lastSeen r) (health r) (probeSites r) true.

Inductive step : ExitRegistry -> list (gostring * bool) -> ExitRegistry -> Prop :=
| st_region cc r : step r [] (SetMyRegion cc r)
| st_bootstrap addrs now r : step r [] (LoadBootstrap addrs now r)
| st_cached disk now order r : step r [] (LoadCached disk now order r)
| st_pick disk now order draw r : step r [] (PickRandom disk now order draw r).2
| st_refresh e disk r : step r [] (refresh e r disk).1.2
| st_start sites r : health r = None -> step r [] (StartHealthChecker sites r)
| st_sites s r : step r [] (set_sites s r)
| st_callback r : step r [] (set_onDead r)
| st_probe addr e r r' dead : probeOne addr e r = Ok (r', dead) -> step r [(addr, (run_probe r addr e).1)] r'
| st_dial addr d r r' : RecordDialRTT addr d r = Ok r' -> step r [] r'.

Inductive run (r0 : ExitRegistry) : list (gostring * bool) -> ExitRegistry -> Prop :=
| run_start : run r0 [] r0
| run_step tr r tr' r' : run r0 tr r -> step r tr' r' -> run r0 (tr ++ tr') r'.

(** The invariant: all floats exist, and every exit has a time of last sight. *)
Definition health_ok (h : exitHealth) : Prop := fvalid (rttMs h) /\ fvalid (trafficRttMs h).
Definition seen_all (l : list ExitNode) (m : gmap gostring Z) : Prop := forall e, e ∈ l -> is_Some (m !! Addr e).
Record reg_ok (r : ExitRegistry) : Prop := {
  rok_nodes : Forall node_ok (exits r);
  rok_health : map_Forall (fun _ h => health_ok h) (health_map r);
  rok_seen : seen_all (exits r) (lastSeen r) }.

Create HintDb exits.

Lemma fvalid_min0 b x y : fvalid x -> fvalid y -> fvalid (if b : bool then x else y).
Proof. by destruct b. Qed.
#[local] Hint Resolve fvalid_min0 : float.

Lemma entry_ok addr m : map_Forall (fun _ h => health_ok h) m -> health_ok (entry addr m).
Proof. intros H. unfold entry. destruct (m !! addr) eqn:E; [by apply (H addr)|]. split; apply fvalid_f0. Qed.

Lemma health_map_set h r : health_map (set_health h r) = h.
Proof. done. Qed.

(** *** Lists of nodes and times *)

Lemma by_addr_lookup l : forall m a e, by_addr m l !! a = Some e ->
  (e ∈ l /\ Addr e = a) \/ (m !! a = Some e /\ forall x, x ∈ l -> Addr x <> a).
Proof.
  induction l as [|x l IH]; intros m a e; cbn [by_addr foldl].
  - intros H. right. split; [done|]. intros y Hy. by apply not_elem_of_nil in Hy.
  - intros H. destruct (IH _ _ _ H) as [[Hin Ha]|[Hm Hno]].
    { left. split; [by apply list_elem_of_further|done]. }
    destruct (decide (Addr x = a)) as [Ha|Ha].
    + rewrite <- Ha, lookup_insert_eq in Hm. injection Hm as <-. left. split; [apply list_elem_of_here|done].
    + rewrite lookup_insert_ne in Hm by done. right. split; [done|].
      intros y [->|Hy]%elem_of_cons; [done|by apply Hno].
Qed.

Lemma by_addr_has l : forall m e, e ∈ l -> is_Some (by_addr m l !! Addr e).
Proof.
  assert (forall l m a, is_Some (m !! a) -> is_Some (by_addr m l !! a)) as Hkeep.
  { clear. induction l as [|x l IH]; intros m a H; [done|]. apply IH.
    destruct (decide (Addr x = a)) as [<-|]; [by rewrite lookup_insert_eq|by rewrite lookup_insert_ne]. }
  induction l as [|x l IH]; intros m e He; [by apply not_elem_of_nil in He|].
  apply elem_of_cons in He as [->|He]; [|by apply IH].
  change (is_Some (by_addr (<[Addr x := x]> m) l !! Addr x)). apply Hkeep. by rewrite lookup_insert_eq.
Qed.

Lemma foldl_seen_lookup now l : forall (m : gmap gostring Z) a,
  foldl (fun m e => <[Addr e := now]> m) m l !! a =
  if decide (a ∈ Addr <$> l) then Some now else m !! a.
Proof.
  induction l as [|x l IH]; intros m a; cbn [foldl fmap list_fmap].
  { rewrite decide_False; [done|]. apply not_elem_of_nil. }
  rewrite IH. destruct (decide (a ∈ Addr <$> l)) as [H|H].
  - rewrite decide_True; [done|]. by apply list_elem_of_further.
  - destruct (decide (a = Addr x)) as [->|Hne].
    + rewrite lookup_insert_eq, decide_True; [done|]. apply list_elem_of_here.
    + rewrite lookup_insert_ne, decide_False; [done| |done]. rewrite elem_of_cons. naive_solver.
Qed.

(** What a merge keeps, for each address of the loop. *)
Lemma merge_loop_spec now l : forall seen merged seen', NoDup l.*1 -> merge_loop now l seen = (merged, seen') ->
  (forall e, e ∈ merged <-> exists a, (a, e) ∈ l /\ now - default now (seen !! a) <= staleExitAfter) /\
  (forall a, seen' !! a =
     if decide (a ∈ l.*1)
     then let t := default now (seen !! a) in if decide (now - t <= staleExitAfter) then Some t else None
     else seen !! a).
Proof.
  induction l as [|[a e] l IH]; intros seen merged seen' Hnd; cbn [merge_loop fmap list_fmap fst].
  - intros [= <- <-]. split.
    + intros e. split; [by intros H%not_elem_of_nil|]. intros (a & H & _). by apply not_elem_of_nil in H.
    + intros a. rewrite decide_False; [done|]. apply not_elem_of_nil.
  - apply NoDup_cons in Hnd as [Ha Hnd].
    set (t := default now (seen !! a)).
    assert (exists s1, (match seen !! a with Some t => (t, seen) | None => (now, <[a := now]> seen) end) = (t, s1)
      /\ s1 !! a = Some t /\ forall b, b <> a -> s1 !! b = seen !! b) as (s1 & -> & Hs1 & Hsb).
    { unfold t. destruct (seen !! a) as [t'|] eqn:E; eexists; split; try done.
      split; [by rewrite lookup_insert_eq|]. intros. by rewrite lookup_insert_ne. }
    assert (forall b, b ∈ l.*1 -> b <> a) as Hne by (by intros b Hb ->).
    destruct (Z.ltb_spec staleExitAfter (now - t)) as [Hst|Hst].
    + intros H. destruct (IH _ _ _ Hnd H) as [I1 I2]. split.
      * intros x. rewrite I1. split; intros (b & Hb & Hd).
        -- exists b. split; [by apply list_elem_of_further|].
           rewrite lookup_delete_ne, Hsb in Hd; [done|..]; [|apply not_eq_sym]; apply Hne;
             by apply (list_elem_of_fmap_2 fst _ (b, x)).
        -- apply elem_of_cons in Hb as [[= -> ->]|Hb]; [unfold t in Hst; lia|].
           exists b. split; [done|]. assert (b <> a) by (apply Hne; by apply (list_elem_of_fmap_2 fst _ (b, x))).
           by rewrite lookup_delete_ne, Hsb.
      * intros b. rewrite I2. destruct (decide (b = a)) as [->|Hba].
        -- rewrite decide_False, decide_True by (done || apply list_elem_of_here). cbn zeta. fold t.
           by rewrite lookup_delete_eq, decide_False by lia.
        -- rewrite lookup_delete_ne, Hsb by done. apply decide_ext. rewrite elem_of_cons. naive_solver.
    + destruct (merge_loop now l s1) as [m1 s2] eqn:E. intros [= <- <-].
      destruct (IH _ _ _ Hnd E) as [I1 I2]. split.
      * intros x. rewrite elem_of_cons, I1. split.
        -- intros [->|(b & Hb & Hd)]; [exists a; split; [apply list_elem_of_here|done]|].
           exists b. split; [by apply list_elem_of_further|].
           rewrite Hsb in Hd; [done|]. apply Hne. by apply (list_elem_of_fmap_2 fst _ (b, x)).
        -- intros (b & [[= -> ->]|Hb]%elem_of_cons & Hd); [by left|]. right. exists b. split; [done|].
           rewrite Hsb; [done|]. apply Hne. by apply (list_elem_of_fmap_2 fst _ (b, x)).
      * intros b. rewrite I2. destruct (decide (b = a)) as [->|Hba].
        -- rewrite decide_False, (decide_True (P := a ∈ a :: l.*1)) by (done || apply list_elem_of_here).
           cbn zeta. fold t. by rewrite Hs1, decide_True by lia.
        -- rewrite Hsb by done. apply decide_ext. rewrite elem_of_cons. naive_solver.
Qed.

Lemma merge_loop_sublist now l : forall seen merged seen', merge_loop now l seen = (merged, seen') ->
  merged `sublist_of` l.*2.
Proof.
  induction l as [|[a e] l IH]; intros seen merged seen'; cbn [merge_loop fmap list_fmap snd].
  - by intros [= <- _].
  - destruct (match seen !! a with Some t => (t, seen) | None => (now, <[a := now]> seen) end) as [t s1].
    destruct (_ <? _); [intros H; apply sublist_cons; by eapply IH|].
    destruct (merge_loop now l s1) as [m1 s2] eqn:E. intros [= <- _]. apply sublist_skip. by eapply IH.
Qed.

(** A map built by [by_addr] is keyed by the address of its nodes. *)
Definition keyed (m : gmap gostring ExitNode) : Prop := map_Forall (fun a e => Addr e = a) m.
Lemma by_addr_keyed l : forall m, keyed m -> keyed (by_addr m l).
Proof. induction l as [|x l IH]; intros m Hm; [done|]. apply IH. by apply map_Forall_insert_2. Qed.

Lemma range_keyed order m : keyed m -> Addr <$> (range_map order m).*2 = (range_map order m).*1.
Proof.
  intros Hm. rewrite <- list_fmap_compose. apply list_fmap_ext. intros i [a e] Hi. cbn.
  apply (Hm a e). by eapply elem_of_range_map, list_elem_of_lookup_2.
Qed.

Definition union_by_addr (l nodes : list ExitNode) : gmap gostring ExitNode := by_addr (by_addr ∅ l) nodes.
Lemma union_keyed l nodes : keyed (union_by_addr l nodes).
Proof. apply by_addr_keyed, by_addr_keyed, map_Forall_empty. Qed.

Lemma union_lookup l nodes a e : union_by_addr l nodes !! a = Some e ->
  Addr e = a /\ (e ∈ nodes \/ e ∈ l /\ a ∉ Addr <$> nodes).
Proof.
  intros H. split; [by apply (union_keyed l nodes)|].
  apply by_addr_lookup in H as [[H _]|[H Hno]]; [by left|]. right.
  apply by_addr_lookup in H as [[H _]|[H _]]; [|done]. split; [done|].
  intros (x & -> & Hx)%list_elem_of_fmap. by apply (Hno x).
Qed.

Lemma union_has l nodes e : e ∈ l \/ e ∈ nodes -> is_Some (union_by_addr l nodes !! Addr e).
Proof.
  intros [H|H]; [|by apply by_addr_has]. destruct (by_addr_has l ∅ e H) as [x Hx]. unfold union_by_addr.
  revert Hx. generalize (by_addr ∅ l). clear. revert e x.
  induction nodes as [|y nodes IH]; intros e x m Hx; [by exists x|]. cbn [by_addr foldl].
  destruct (decide (Addr y = Addr e)) as [E|E].
  - apply (IH e y). by rewrite E, lookup_insert_eq.
  - apply (IH e x). by rewrite lookup_insert_ne.
Qed.

(** The merge in terms of the two lists it joins. *)
Lemma merge_exits_spec now order verified r merged seen :
  merge_exits now order verified r = (merged, seen) ->
  NoDup (Addr <$> merged) /\
  (forall a, a ∈ Addr <$> merged <->
     a ∈ Addr <$> verified \/
     a ∈ Addr <$> exits r /\ now - default now (lastSeen r !! a) <= staleExitAfter) /\
  (forall e, e ∈ merged -> e ∈ verified \/ e ∈ exits r /\ Addr e ∉ Addr <$> verified) /\
  (forall a, a ∈ Addr <$> merged ->
     seen !! a = Some (if decide (a ∈ Addr <$> verified) then now else default now (lastSeen r !! a))).
Proof.
  unfold merge_exits. fold (union_by_addr (exits r) verified). intros E.
  set (seen0 := foldl _ (lastSeen r) verified) in E.
  assert (forall a, default now (seen0 !! a) =
    if decide (a ∈ Addr <$> verified) then now else default now (lastSeen r !! a)) as Hseen0.
  { intros a. unfold seen0. rewrite foldl_seen_lookup. by case_decide. }
  set (u := union_by_addr (exits r) verified) in *.
  pose proof (NoDup_range_map order u) as Hnd.
  destruct (merge_loop_spec _ _ _ _ _ Hnd E) as [Hin Hseen].
  pose proof (merge_loop_sublist _ _ _ _ _ E) as Hsub.
  assert (forall a e, (a, e) ∈ range_map order u <-> u !! a = Some e) as Hr by (intros; apply elem_of_range_map).
  assert (0 <= staleExitAfter) as Hpos by (unfold staleExitAfter, hour, minute, second; lia).
  assert (forall a, a ∈ Addr <$> merged <-> a ∈ (range_map order u).*1 /\ now - default now (seen0 !! a) <= staleExitAfter) as Ha.
  { intros a. rewrite list_elem_of_fmap. split.
    - intros (e & -> & (b & Hb & Hd)%Hin). pose proof (proj1 (union_lookup _ _ _ _ (proj1 (Hr _ _) Hb))) as ->.
      split; [by apply (list_elem_of_fmap_2 fst _ (b, e))|done].
    - intros [([b e] & -> & Hb)%list_elem_of_fmap Hd]. cbn in Hd |- *. exists e.
      split; [by rewrite (proj1 (union_lookup _ _ _ _ (proj1 (Hr _ _) Hb)))|]. apply Hin. eauto. }
  assert (forall a, a ∈ (range_map order u).*1 <-> a ∈ Addr <$> verified \/ a ∈ Addr <$> exits r) as Hdom.
  { intros a. rewrite !list_elem_of_fmap. split.
    - intros ([b e] & -> & Hb%Hr). apply union_lookup in Hb as [<- [Hb|[Hb _]]]; eauto.
    - intros H. assert (exists e, a = Addr e /\ (e ∈ exits r \/ e ∈ verified)) as (e & -> & H') by naive_solver.
      destruct (union_has _ _ _ H') as [x Hx]. exists (Addr e, x). split; [done|]. by apply Hr. }
  split; [|split; [|split]].
  - eapply sublist_NoDup; [|apply (fmap_sublist Addr), Hsub]. by rewrite (range_keyed order u (union_keyed _ _)).
  - intros a. rewrite Ha, Hdom, Hseen0. case_decide; [|naive_solver]. rewrite Z.sub_diag. naive_solver.
  - intros e (b & Hb & _)%Hin. apply Hr, union_lookup in Hb as [-> ?]. done.
  - intros a [Hd Ht]%Ha. rewrite Hseen, decide_True by done. cbn zeta.
    rewrite decide_True by done. by rewrite Hseen0.
Qed.

End registry.
End Exits.
