(* ===== verification/ControlPick.v ===== *)
(** * snc-control: what holds of the exits registry

    Over every run of operations: the well-formedness invariant, the choice of an exit
    for a client, the merge of a signed list, its cache on disk, the health of an exit
    as a function of its probe history, and the restart of a node that lost all exits. *)

From stdpp Require Import base list gmap strings fin_maps.
From Stdlib Require Import ZArith Lia.
From S2P Require Import Prelude GoLib GoFloat ControlExits.

Module ExitsProps.
Import Float Rand Exits.

Section props.
Context {U : Unicode} {ED : Ed25519} {EC : ExitsCodec}.

(** ** The invariant *)

Lemma parse_cache_ok data nodes seen : parse_cache data = Some (nodes, seen) -> Forall node_ok nodes.
Proof.
  unfold parse_cache. intros H.
  assert ((exists ls, un_wrapper (Strings.TrimSpace data) = Some (nodes, ls)) \/
          un_nodes (Strings.TrimSpace data) = Some nodes) as [[ls Hw]|Hn].
  { destruct (Strings.TrimSpace data) as [|c d]; [destruct (un_nodes []); naive_solver|].
    destruct (decide (c = 123)) as [->|Hc].
    - destruct (un_wrapper (123 :: d)) as [[n ls]|]; naive_solver.
    - right. destruct c as [|c|c]; try (destruct (un_nodes _); naive_solver).
      repeat (destruct c as [c|c|]; try (destruct (un_nodes _); naive_solver); try lia). }
  - by eapply un_wrapper_ok.
  - by eapply un_nodes_ok.
Qed.

Lemma cached_seen_all (cached : gmap gostring Z) now nodes : forall m e,
  e ∈ nodes \/ is_Some (m !! Addr e) ->
  is_Some (foldl (note_cached cached now) m nodes !! Addr e).
Proof.
  induction nodes as [|x nodes IH]; intros m e; cbn [foldl].
  { intros [H|H]; [by apply not_elem_of_nil in H|done]. }
  intros H. apply IH. rewrite elem_of_cons in H. unfold note_cached.
  destruct (decide (Addr x = Addr e)) as [E|Hne].
  - right. rewrite E. destruct (cached !! Addr e); [by rewrite lookup_insert_eq|].
    destruct (m !! Addr e) eqn:Em; [by rewrite Em|by rewrite lookup_insert_eq].
  - destruct H as [[->|H]|H]; [done|by left|]. right.
    destruct (cached !! Addr x); [by rewrite lookup_insert_ne|].
    destruct (m !! Addr x); [done|by rewrite lookup_insert_ne].
Qed.

Lemma LoadBootstrap_ok addrs now r : reg_ok r -> reg_ok (LoadBootstrap addrs now r).
Proof.
  intros [Hn Hh Hs]. unfold LoadBootstrap.
  set (nodes := (fun a => MkExit a [] f0 f0 None) <$> _).
  assert (Forall node_ok nodes) as Hok.
  { apply Forall_fmap, Forall_true. intros a. split; apply fvalid_f0. }
  destruct nodes as [|x l] eqn:E; [done|]. split; [done|done|].
  intros e He. unfold set_list. cbn [lastSeen exits] in *. rewrite foldl_seen_lookup.
  rewrite decide_True; [done|]. by apply list_elem_of_fmap_2.
Qed.

Lemma LoadCached_ok disk now order r : reg_ok r -> reg_ok (LoadCached disk now order r).
Proof.
  intros [Hn Hh Hs]. unfold LoadCached. case_decide; [done|].
  destruct (disk ≫= parse_cache) as [[nodes cached]|] eqn:E; [|done].
  assert (Forall node_ok nodes) as Hok.
  { destruct disk as [d|]; [|done]. by eapply parse_cache_ok. }
  fold (union_by_addr (exits r) nodes).
  assert (forall e, e ∈ (range_map order (union_by_addr (exits r) nodes)).*2 -> e ∈ nodes \/ e ∈ exits r) as Hin.
  { intros e ([a x] & -> & Hx)%list_elem_of_fmap. apply elem_of_range_map, union_lookup in Hx as [_ [?|[? _]]]; auto. }
  split; cbn [set_list exits lastSeen].
  - apply Forall_forall. rewrite Forall_forall in Hok, Hn. intros e [He|He]%Hin; auto.
  - done.
  - intros e [He|He]%Hin; apply cached_seen_all; [by left|right; by apply Hs].
Qed.

Lemma PickRandom_ok disk now order draw r : reg_ok r -> reg_ok (PickRandom disk now order draw r).2.
Proof.
  intros H. unfold PickRandom. assert (reg_ok (revive disk now order r)) as Hr.
  { unfold revive. destruct (exits r); [by apply LoadCached_ok|done]. }
  by destruct (exits (revive disk now order r)).
Qed.

Lemma apply_list_ok e sl r : Forall node_ok (sl_nodes sl) -> reg_ok r -> reg_ok (apply_list e sl r).
Proof.
  intros Hsl [Hn Hh Hs]. unfold apply_list. destruct (merge_exits _ _ _ r) as [merged seen] eqn:E.
  apply merge_exits_spec in E as (_ & _ & Hin & Hseen). split; cbn [set_advisory set_list exits lastSeen].
  - apply Forall_forall. intros x [Hx|[Hx _]]%Hin; [|by apply (proj1 (Forall_forall _ _) Hn)].
    apply (proj1 (Forall_forall _ _) Hsl). unfold verified_nodes in Hx.
    apply list_elem_of_In, filter_In in Hx as [Hx _]. by apply list_elem_of_In.
  - done.
  - intros x Hx. rewrite (Hseen (Addr x)); [eauto|]. by apply list_elem_of_fmap_2.
Qed.

(** The three outcomes of a refresh. *)
Lemma refresh_cases e r disk :
  let r1 := (PickRandom disk (re_now0 e) (re_order0 e) (re_draw e) r).2 in
  (exists raw sl, re_fetched e = FetchBody raw /\ accept_list e (pubkey r1) raw = Ok sl /\
     refresh e r disk = (Ok (), apply_list e sl r1,
       persist (re_dir_ok e) (re_write_ok e) (exits (apply_list e sl r1)) (lastSeen (apply_list e sl r1))
         (apply_list e sl r1) disk)) \/
  (exists o, o <> Ok () /\ refresh e r disk = (o, r1, disk)).
Proof.
  unfold refresh. destruct (PickRandom _ _ _ _ r) as [exit r1]. cbn [snd].
  destruct exit as [x|m|]; cbn [mbind res_bind]; [|right; eexists; split; [|done]; done..].
  destruct (re_fetched e) as [|code| |raw]; cbn [fetched_body mbind res_bind];
    try (right; eexists; split; [|done]; done).
  destruct (accept_list e (pubkey r1) raw) as [sl|m|] eqn:E; [left; eauto|right; eexists; split; [|done]; done..].
Qed.

Lemma accept_list_ok e pub raw sl : accept_list e pub raw = Ok sl -> un_signed raw = Some sl.
Proof.
  unfold accept_list. destruct (un_signed raw) as [s|]; [|done].
  destruct (check_signed pub s); cbn [mbind res_bind]; [|done..]. by destruct (_ <? _); intros [= ->].
Qed.

Lemma note_probe_ok ok rtt h : fvalid rtt -> health_ok h -> health_ok (note_probe ok rtt h).1.
Proof. intros Hr [H1 H2]. by destruct ok. Qed.

Lemma run_probe_valid r addr e : fvalid (run_probe r addr e).2.
Proof.
  unfold run_probe. destruct (status_ok (pe_ping e)), (probeSites r) as [sites|]; cbn [snd]; auto with float.
  destruct (ForRegion _ _); [auto with float|]. destruct (status_ok _); auto with float.
Qed.

Lemma set_health_ok r m addr h :
  reg_ok r -> map_Forall (fun _ h => health_ok h) m -> health_ok h -> reg_ok (set_health (<[addr := h]> m) r).
Proof. intros [Hn _ Hs] Hm Hh. split; [done| |done]. by apply map_Forall_insert_2. Qed.

Lemma step_reg_ok r tr r' : step r tr r' -> reg_ok r -> reg_ok r'.
Proof.
  intros Hstep Hok. destruct Hstep as [cc r|addrs now r|disk now order r|disk now order draw r|e disk r|
    sites r Hnone|sts r|r|addr e r r' dead Hp|addr d r r' Hd]; try (destruct Hok; by split).
  - by apply LoadBootstrap_ok.
  - by apply LoadCached_ok.
  - by apply PickRandom_ok.
  - pose proof (PickRandom_ok disk (re_now0 e) (re_order0 e) (re_draw e) r Hok) as Hp.
    destruct (refresh_cases e r disk) as [(raw & sl & _ & Ha & ->)|(o & _ & ->)]; [|done]. cbn [fst snd].
    apply apply_list_ok; [|done]. by eapply un_signed_ok, accept_list_ok.
  - unfold probeOne in Hp. destruct (run_probe r addr e) as [ok rtt] eqn:Er.
    destruct (health r) as [m|] eqn:Em; [|done].
    destruct (note_probe ok rtt (entry addr m)) as [h j] eqn:En. injection Hp as <- _.
    assert (map_Forall (fun _ h => health_ok h) m) as Hm by (destruct Hok as [_ Hh _]; unfold health_map in Hh; by rewrite Em in Hh).
    apply set_health_ok; [done..|]. replace h with (note_probe ok rtt (entry addr m)).1 by (by rewrite En).
    apply note_probe_ok; [|by apply entry_ok]. pose proof (run_probe_valid r addr e) as Hv. by rewrite Er in Hv.
  - unfold RecordDialRTT in Hd. destruct (health r) as [m|] eqn:Em; [|done]. injection Hd as <-.
    assert (map_Forall (fun _ h => health_ok h) m) as Hm by (destruct Hok as [_ Hh _]; unfold health_map in Hh; by rewrite Em in Hh).
    destruct (entry_ok addr m Hm) as [H1 H2]. apply set_health_ok; [done..|]. split; cbn [rttMs trafficRttMs]; [done|].
    destruct (trafficSamples (entry addr m) =? 0); unfold trafficRTTAlpha; auto 10 with float.
Qed.

Lemma run_reg_ok r0 tr r : reg_ok r0 -> run r0 tr r -> reg_ok r.
Proof. intros H0. induction 1 as [|tr r tr' r' _ IH Hs]; [done|]. by eapply step_reg_ok. Qed.

Lemma new_reg_ok token pub file : reg_ok (newExitRegistry token pub file).
Proof. split; [constructor|apply map_Forall_empty|]. intros e He. by apply not_elem_of_nil in He. Qed.

(** ** Choosing an exit *)

Lemma or_all_spec {A} (f : A -> bool) l x :
  x ∈ or_all (List.filter f l) l ->
  x ∈ l /\ ((exists y, y ∈ l /\ f y = true) -> f x = true).
Proof.
  intros H. destruct (List.filter f l) as [|z k] eqn:E; cbn [or_all] in H.
  - split; [done|]. intros (y & Hy & Hf). exfalso.
    assert (y ∈ List.filter f l) as Hin by (apply list_elem_of_In, filter_In; by rewrite <- list_elem_of_In).
    rewrite E in Hin. by apply not_elem_of_nil in Hin.
  - rewrite <- E in H. apply list_elem_of_In, filter_In in H as [H Hf]. by rewrite list_elem_of_In.
Qed.

Lemma or_all_nonempty {A} (f : A -> bool) l : l <> [] -> or_all (List.filter f l) l <> [].
Proof. by destruct (List.filter f l). Qed.

(** The exit is in a country other than the client's and the control's, or in an unknown one. *)
Definition abroad (r : ExitRegistry) (cc : gostring) (e : ExitNode) : Prop :=
  let c := regionOf r (Addr e) in c = [] \/ c <> myRegion r /\ c <> cc.

Lemma excluded_abroad r cc e : negb (excluded r cc (regionOf r (Addr e))) = true <-> abroad r cc e.
Proof.
  unfold excluded, abroad. generalize (regionOf r (Addr e)). intros c. cbn zeta.
  destruct (decide (c = [])) as [->|Hc]; [naive_solver|].
  destruct (bool_decide_reflect (myRegion r = [])), (bool_decide_reflect (c = myRegion r)),
    (bool_decide_reflect (cc = [])), (bool_decide_reflect (c = cc)); cbn; naive_solver.
Qed.

(** Without the filter every exit counts as abroad. *)
Lemma geo_off_abroad r cc e : geo_filter_on r cc = false -> abroad r cc e.
Proof.
  unfold geo_filter_on, abroad. cbn zeta. intros H. apply andb_false_iff in H as [H|H].
  - apply orb_false_elim in H as [H1%negb_false_iff%bool_decide_eq_true H2%negb_false_iff%bool_decide_eq_true].
    rewrite H1, H2. destruct (regionOf r (Addr e)); [by left|by right].
  - apply negb_false_iff, bool_decide_eq_true in H. left. unfold regionOf. by rewrite H, lookup_empty.
Qed.

(** The best choice there is: a working exit if one works, and of the exits that are no
    worse in that respect one abroad if one is. *)
Definition best_choice (r : ExitRegistry) (cc : gostring) (x : ExitNode) : Prop :=
  x ∈ exits r /\
  (forall y, y ∈ exits r -> exit_works r y = true ->
     exit_works r x = true /\ (abroad r cc y -> abroad r cc x)) /\
  ((forall y, y ∈ exits r -> exit_works r y = false) ->
     forall y, y ∈ exits r -> abroad r cc y -> abroad r cc x).

Lemma candidates_spec r cc x : x ∈ geo_filter r cc (live_exits r) -> best_choice r cc x.
Proof.
  intros H.
  assert (x ∈ live_exits r /\ ((exists y, y ∈ live_exits r /\ abroad r cc y) -> abroad r cc x)) as [Hl Ha].
  { unfold geo_filter in H. destruct (geo_filter_on r cc) eqn:E.
    - apply or_all_spec in H as [H Hf]. split; [done|]. intros (y & Hy & Hab).
      apply excluded_abroad, Hf. exists y. by rewrite excluded_abroad.
    - split; [done|]. intros _. by apply geo_off_abroad. }
  unfold live_exits in Hl, Ha. pose proof (or_all_spec _ _ _ Hl) as [Hin Hw]. split; [done|]. split.
  - intros y Hy Hyw. split; [apply Hw; eauto|]. intros Hab. apply Ha. exists y. split; [|done].
    assert (y ∈ List.filter (exit_works r) (exits r)) as Hyf
      by (apply list_elem_of_In, filter_In; by rewrite <- list_elem_of_In).
    destruct (List.filter (exit_works r) (exits r)); [by apply not_elem_of_nil in Hyf|done].
  - intros Hno y Hy Hab. apply Ha. exists y. split; [|done].
    destruct (List.filter (exit_works r) (exits r)) as [|z k] eqn:E; [done|]. exfalso.
    assert (z ∈ List.filter (exit_works r) (exits r)) as Hz by (rewrite E; apply list_elem_of_here).
    apply list_elem_of_In, filter_In in Hz as [Hz Hzw]. rewrite Hno in Hzw; [done|by apply list_elem_of_In].
Qed.

Lemma candidates_nonempty r cc : exits r <> [] -> geo_filter r cc (live_exits r) <> [].
Proof.
  intros H. assert (live_exits r <> []) as Hl by (by apply or_all_nonempty).
  unfold geo_filter. destruct (geo_filter_on r cc); [by apply or_all_nonempty|done].
Qed.

Lemma rttOf_valid r addr : reg_ok r -> fvalid (rttOf r addr).
Proof.
  intros [_ Hh _]. unfold rttOf. destruct (health_map r !! addr) as [h|] eqn:E; [|auto with float].
  destruct (Hh _ _ E) as [H1 H2]. cbn zeta.
  destruct (trafficSamples h <? trafficRTTMinSamples), (flt f0 (rttMs h)); cbn [andb]; auto with float;
    destruct (flt f0 _); auto 10 with float.
Qed.

Lemma effectiveRTT_valid r e : reg_ok r -> e ∈ exits r -> fvalid (effectiveRTT r e).
Proof.
  intros Hok He. pose proof (rttOf_valid r (Addr e) Hok) as Hr.
  pose proof (proj1 (Forall_forall _ _) (rok_nodes r Hok) e He) as [Hrtt Hload].
  unfold effectiveRTT, own_rtt, effectiveLoadFactor.
  destruct (flt f0 (rttOf r (Addr e))), (fle (Load e) f0); auto with float.
Qed.

(** The fastest candidate stays in the pool, so there is something to draw from. *)
Lemma rtt_pool_nonempty r live :
  reg_ok r -> live <> [] -> (forall e, e ∈ live -> e ∈ exits r) -> rtt_pool r live <> [].
Proof.
  intros Hok Hne Hsub. unfold rtt_pool. destruct (_ <? _)%nat; [done|].
  enough (exists x, x ∈ live /\ near_best r (min_positive (effectiveRTT r) live) x = true) as (x & Hx & Hn).
  { intros E. assert (x ∈ List.filter (near_best r (min_positive (effectiveRTT r) live)) live) as Hin
      by (apply list_elem_of_In, filter_In; by rewrite <- list_elem_of_In).
    rewrite E in Hin. by apply not_elem_of_nil in Hin. }
  destruct (min_positive_spec (effectiveRTT r) live) as [[E _]|(Hpos & (x & Hx & E) & _)].
  - destruct live as [|x l]; [done|]. exists x. split; [apply list_elem_of_here|].
    unfold near_best. rewrite E. cbn zeta. change (feq f0 f0) with true. by rewrite orb_true_r.
  - exists x. split; [done|]. unfold near_best. cbn zeta. rewrite <- E.
    rewrite (fle_mul _ 5854679515581645); [by rewrite !orb_true_r| |done|done].
    rewrite E. apply effectiveRTT_valid; auto.
Qed.


Lemma walk_in target l x : walk target l = Some x -> x ∈ l.*1.
Proof.
  revert target. induction l as [|[e w] l IH]; intros target; cbn [walk fmap list_fmap fst]; [done|].
  cbn zeta. destruct (fle _ f0); [intros [= ->]; apply list_elem_of_here|].
  intros H. apply list_elem_of_further. by eapply IH.
Qed.

Lemma weighted_pick_in r ip live : live <> [] -> exists x, weighted_pick r ip live = Ok x /\ x ∈ live.
Proof.
  intros Hne. unfold weighted_pick. destruct (last live) as [e|] eqn:E; [|by apply last_None in E].
  eexists. split; [done|]. destruct (walk _ _) as [x|] eqn:Ew; cbn [default].
  - apply walk_in in Ew. rewrite fst_zip in Ew by (rewrite length_fmap; lia). done.
  - apply last_Some in E as [k ->]. rewrite elem_of_app, list_elem_of_singleton. by right.
Qed.

(** [PickForClient] fails only when no exit is known, never panics, and returns a best choice
    for the client's country. *)
Lemma PickForClient_best r ip cc :
  match PickForClient ip cc r with
  | Ok x => best_choice r cc x
  | Err _ => exits r = []
  | Panic => False
  end.
Proof.
  unfold PickForClient. destruct (exits r) as [|e0 l0] eqn:E0; [done|].
  assert (exits r <> []) as Hne by (by rewrite E0).
  pose proof (candidates_nonempty r cc Hne) as Hc. pose proof (fun x => candidates_spec r cc x) as Hs.
  destruct (geo_filter r cc (live_exits r)) as [|x [|y l]]; [done|apply Hs, list_elem_of_here|].
  destruct (weighted_pick_in r ip (x :: y :: l)) as (z & -> & Hz); [done|]. by apply Hs.
Qed.

(** ** Refreshing the list *)

Lemma revive_cases disk now order draw r :
  (PickRandom disk now order draw r).2 = revive disk now order r.
Proof. unfold PickRandom. by destruct (exits (revive disk now order r)). Qed.

Lemma revive_nonempty disk now order r : exits r <> [] -> revive disk now order r = r.
Proof. unfold revive. by destruct (exits r). Qed.

Lemma revive_static disk now order r :
  pubkey (revive disk now order r) = pubkey r /\ cacheFile (revive disk now order r) = cacheFile r.
Proof.
  unfold revive, LoadCached. destruct (exits r); [|done]. case_decide; [done|].
  by destruct (disk ≫= parse_cache) as [[nodes seen]|].
Qed.

Lemma accept_list_trusted e key raw sl :
  accept_list e (Some key) raw = Ok sl ->
  un_signed raw = Some sl /\ re_now1 e - time_Unix (sl_ts sl) <= 10 * minute /\
  exists sig, Base64.decode (sl_sig sl) = Some sig /\
    ed25519_verify key (canonical_list (sl_type sl) (sl_ts sl) (sl_nodes sl)) sig = true.
Proof.
  intros H. split; [by eapply accept_list_ok|]. unfold accept_list in H.
  destruct (un_signed raw) as [s|]; [|done]. cbn [check_signed] in H.
  destruct (Base64.decode (sl_sig s)) as [sig|] eqn:Ed; [|done].
  destruct (ed25519_verify key _ sig) eqn:Ev; [|done]. cbn [mbind res_bind] in H.
  destruct (Z.ltb_spec (10 * minute) (re_now1 e - time_Unix (sl_ts s))) as [|Hage]; [done|].
  injection H as <-. eauto.
Qed.

(** A refresh that fails changes nothing (beyond reading the disk cache when no exit was
    known). One that succeeds at a node with the arbiter's key applied a list whose
    signature over type, time and nodes verified and which is at most ten minutes old. The
    list is merged: an address stays exactly when the list names it with a verified
    fingerprint, or when it was seen within the last day; addresses do not repeat; a listed
    node replaces what was known of its address and counts as seen now. *)
Theorem refresh_merges e r disk o r' disk' key :
  exits r <> [] -> pubkey r = Some key -> refresh e r disk = (o, r', disk') ->
  (o <> Ok () -> r' = r /\ disk' = disk) /\
  (o = Ok () -> exists raw sl, re_fetched e = FetchBody raw /\ un_signed raw = Some sl /\
     (exists sig, Base64.decode (sl_sig sl) = Some sig /\
        ed25519_verify key (canonical_list (sl_type sl) (sl_ts sl) (sl_nodes sl)) sig = true) /\
     re_now1 e - time_Unix (sl_ts sl) <= 10 * minute /\
     let verified := verified_nodes (re_certs e) (sl_nodes sl) in
     NoDup (Addr <$> exits r') /\
     (forall a, a ∈ Addr <$> exits r' <->
        a ∈ Addr <$> verified \/
        a ∈ Addr <$> exits r /\ re_now e - default (re_now e) (lastSeen r !! a) <= staleExitAfter) /\
     (forall x, x ∈ exits r' -> x ∈ verified \/ x ∈ exits r /\ Addr x ∉ Addr <$> verified) /\
     (forall a, a ∈ Addr <$> verified -> lastSeen r' !! a = Some (re_now e)) /\
     exitRegions r' = sl_regions sl /\ relayEnabled r' = match sl_relay sl with None => true | Some b => b end).
Proof.
  intros Hne Hkey Href.
  pose proof (refresh_cases e r disk) as Hc. cbn zeta in Hc.
  rewrite revive_cases, revive_nonempty in Hc by done. rewrite Href in Hc.
  destruct Hc as [(raw & sl & Hf & Ha & Hc)|(o' & Ho & Hc)].
  - injection Hc as -> -> ->. split; [done|]. intros _. exists raw, sl. rewrite Hkey in Ha.
    apply accept_list_trusted in Ha as (Hu & Hage & Hsig). do 4 (split; [done|]). cbn zeta.
    unfold apply_list. destruct (merge_exits _ _ _ r) as [merged seen] eqn:E.
    apply merge_exits_spec in E as (Hnd & Hdom & Hin & Hseen). cbn [set_advisory set_list exits lastSeen exitRegions relayEnabled].
    do 3 (split; [done|]). split; [|done]. intros a Hv. rewrite Hseen by (apply Hdom; by left). by rewrite decide_True.
  - injection Hc as -> -> ->. split; [done|]. intros ->. done.
Qed.

(** ** Health

    The specification: two equal outcomes in a row decide, the latest pair counts, and an
    exit is alive until there is such a pair. Histories are newest first. *)

Fixpoint verdict (hist : list bool) : bool :=
  match hist with
  | a :: ((b :: _) as older) => if Bool.eqb a b then a else verdict older
  | _ => true
  end.

Definition outcomes (addr : gostring) (tr : list (gostring * bool)) : list bool :=
  rev (snd <$> List.filter (fun p => bool_decide (p.1 = addr)) tr).

(** The counter carries the sign of the last outcome and whether the one before agreed. *)
Definition tracks (h : exitHealth) (hist : list bool) : Prop :=
  alive h = verdict hist /\
  match hist with
  | [] => consecutive h = 0
  | true :: older => 0 < consecutive h /\ (hd false older = true <-> 2 <= consecutive h)
  | false :: older => consecutive h < 0 /\ (hd true older = false <-> consecutive h <= -2)
  end.

Lemma note_probe_tracks ok rtt h hist : tracks h hist -> tracks (note_probe ok rtt h).1 (ok :: hist).
Proof.
  intros [Ha Hc]. destruct hist as [|b hist].
  - split; [|destruct ok; cbn; rewrite Hc; cbn; split; lia || split; (done || lia)].
    cbn in Ha. destruct ok; cbn; rewrite Ha, Hc; done.
  - unfold tracks, note_probe, aliveAfterSuccesses, deadAfterFails.
    destruct ok, b; cbn [alive consecutive fst verdict Bool.eqb hd]; cbn in Hc; destruct Hc as [Hc _].
    + destruct (Z.ltb_spec (consecutive h) 0); [lia|]. destruct (Z.leb_spec 2 (consecutive h + 1)); [|lia].
      destruct (alive h); cbn; repeat split; intros; lia.
    + destruct (Z.ltb_spec (consecutive h) 0); [|lia]. cbn. rewrite andb_false_r, Ha. repeat split; intros; done || lia.
    + destruct (Z.ltb_spec 0 (consecutive h)); [|lia]. cbn. rewrite andb_false_r, Ha. repeat split; intros; done || lia.
    + destruct (Z.ltb_spec 0 (consecutive h)); [lia|]. destruct (Z.leb_spec 2 (- (consecutive h - 1))); [|lia].
      destruct (alive h); cbn; repeat split; intros; lia.
Qed.

Lemma note_probe_died ok rtt h h' j : note_probe ok rtt h = (h', j) -> j = alive h && negb (alive h').
Proof.
  unfold note_probe. destruct ok; intros [= <- <-]; cbn [alive]; destruct (alive h); cbn; try done;
    by destruct (_ <=? _).
Qed.

(** Operations other than probes and dials keep the health map. *)
Lemma apply_list_health e sl r : health (apply_list e sl r) = health r.
Proof. unfold apply_list. by destruct (merge_exits _ _ _ r). Qed.
Lemma LoadCached_health disk now order r : health (LoadCached disk now order r) = health r.
Proof. unfold LoadCached. case_decide; [done|]. by destruct (disk ≫= parse_cache) as [[? ?]|]. Qed.
Lemma revive_health disk now order r : health (revive disk now order r) = health r.
Proof. unfold revive. destruct (exits r); [apply LoadCached_health|done]. Qed.

Lemma refresh_health e r disk : health (refresh e r disk).1.2 = health r.
Proof.
  destruct (refresh_cases e r disk) as [(raw & sl & _ & _ & ->)|(o & _ & ->)]; cbn [fst snd];
    rewrite ?apply_list_health, revive_cases; apply revive_health.
Qed.

Lemma step_tracks r tr r' : step r tr r' -> forall addr m hist,
  health r = Some m -> tracks (entry addr m) hist ->
  exists m', health r' = Some m' /\ tracks (entry addr m') (outcomes addr tr ++ hist).
Proof.
  intros Hstep addr m hist Hm Ht. destruct Hstep as [cc r|addrs now r|disk now order r|disk now order draw r|e disk r|
    sites r Hnone|sts r|r|addr' e r r' dead Hp|addr' d r r' Hd]; try (by exists m).
  - exists m. split; [|done]. unfold LoadBootstrap. by destruct (_ <$> _).
  - exists m. by rewrite LoadCached_health.
  - exists m. by rewrite revive_cases, revive_health.
  - exists m. by rewrite refresh_health.
  - by rewrite Hm in Hnone.
  - unfold probeOne in Hp. destruct (run_probe r addr' e) as [ok rtt]. rewrite Hm in Hp.
    destruct (note_probe ok rtt (entry addr' m)) as [h j] eqn:En. injection Hp as <- _.
    eexists. split; [done|]. unfold outcomes. cbn [List.filter fst].
    unfold entry. destruct (bool_decide_reflect (addr' = addr)) as [->|Hne].
    + rewrite lookup_insert_eq. cbn. pose proof (note_probe_tracks ok rtt _ _ Ht) as H. by rewrite En in H.
    + by rewrite lookup_insert_ne.
  - unfold RecordDialRTT in Hd. rewrite Hm in Hd. injection Hd as <-.
    eexists. split; [done|]. unfold outcomes. cbn [List.filter fmap list_fmap rev app].
    destruct (decide (addr' = addr)) as [->|Hne].
    + unfold entry at 1. rewrite lookup_insert_eq. done.
    + unfold entry. by rewrite lookup_insert_ne.
Qed.

Lemma run_tracks r0 tr r addr : health r0 = Some ∅ -> run r0 tr r ->
  exists m, health r = Some m /\ tracks (entry addr m) (outcomes addr tr).
Proof.
  intros H0. induction 1 as [|tr r tr' r' _ IH Hs].
  - exists ∅. by rewrite H0.
  - destruct IH as (m & Hm & Ht). destruct (step_tracks _ _ _ Hs addr m _ Hm Ht) as (m' & Hm' & Ht').
    exists m'. split; [done|]. unfold outcomes in *.
    by rewrite List.filter_app, fmap_app, rev_app_distr.
Qed.

Lemma isAlive_entry r m addr : health r = Some m -> isAlive r addr = alive (entry addr m).
Proof. intros Hm. unfold isAlive, entry, health_map. rewrite Hm. cbn. by destruct (m !! addr). Qed.

(** C13: Whatever else the node does meanwhile, an exit counts as alive exactly when the
    latest two equal probe outcomes in a row were successes, or no two were equal yet; and
    the callback that closes its connections runs at the probe that takes it from alive to
    dead, at no other. *)
Theorem health_refines_verdict r0 tr r addr env r' dead :
  health r0 = Some ∅ -> run r0 tr r -> probeOne addr env r = Ok (r', dead) ->
  isAlive r addr = verdict (outcomes addr tr) /\
  isAlive r' addr = verdict ((run_probe r addr env).1 :: outcomes addr tr) /\
  (onDead r = true -> (addr ∈ dead <-> isAlive r addr = true /\ isAlive r' addr = false)) /\
  (forall b, b <> addr -> isAlive r' b = isAlive r b /\ b ∉ dead).
Proof.
  intros H0 Hrun Hp. destruct (run_tracks _ _ _ addr H0 Hrun) as (m & Hm & Ht).
  destruct (step_tracks _ _ _ (st_probe addr env r r' dead Hp) addr m _ Hm Ht) as (m' & Hm' & Ht').
  unfold outcomes in Ht' at 1. cbn [List.filter fst] in Ht'.
  rewrite bool_decide_true in Ht' by done. cbn [fmap list_fmap rev app snd] in Ht'.
  rewrite (isAlive_entry r m), (isAlive_entry r' m') by done.
  split; [apply Ht|]. split; [apply Ht'|].
  unfold probeOne in Hp. destruct (run_probe r addr env) as [ok rtt]. rewrite Hm in Hp.
  destruct (note_probe ok rtt (entry addr m)) as [h j] eqn:En. injection Hp as <- <-.
  injection Hm' as <-. unfold entry at 2. rewrite lookup_insert_eq. cbn [default from_option id]. split.
  - intros ->. rewrite andb_true_r, (note_probe_died _ _ _ _ _ En).
    destruct (alive (entry addr m)), (alive h); cbn; rewrite ?list_elem_of_singleton;
      split; try done; intros H; solve [by apply not_elem_of_nil in H | by destruct H].
  - intros b Hb. rewrite (isAlive_entry _ _ b Hm). unfold isAlive. cbn. unfold health_map. cbn.
    rewrite lookup_insert_ne by done. split; [unfold entry; by destruct (m !! b)|].
    destruct (j && onDead r); [by rewrite list_elem_of_singleton|apply not_elem_of_nil].
Qed.

(** ** Restarting a node that lost all exits *)

Record tick := MkTick { tk_reg : ExitRegistry; tk_order : nat -> nat; tk_envs : gostring -> probe_env; tk_now : Z }.

(** The ticks of [healthLoop]; between two of them the registry may change in any way. *)
Fixpoint health_ticks (ts : list tick) (since : option Z) : res (option Z * bool) :=
  match ts with
  | [] => Ok (since, false)
  | t :: ts =>
      '(_, _, since, quit) ← health_tick (tk_order t) (tk_envs t) (tk_now t) (tk_reg t) since;
      if quit : bool then Ok (since, true) else health_ticks ts since
  end.

(** After the tick's probes there are exits and none is alive. *)
Definition all_dead (t : tick) : Prop :=
  exists r dead, probeAll (tk_order t) (tk_envs t) (tk_reg t) = Ok (r, dead) /\ Exits r <> [] /\ anyAlive r = false.

Lemma health_tick_dead t since : all_dead t ->
  exists r dead, health_tick (tk_order t) (tk_envs t) (tk_now t) (tk_reg t) since =
    Ok (r, dead, Some (default (tk_now t) since),
        match since with None => false | Some t0 => allDeadRestartAfter <=? tk_now t - t0 end).
Proof.
  intros (r & dead & Hp & Hne & Ha). unfold health_tick. rewrite Hp. cbn [mbind res_bind].
  rewrite bool_decide_false, Ha by done. cbn [orb]. destruct since; eauto.
Qed.

Lemma health_tick_cases t since x :
  health_tick (tk_order t) (tk_envs t) (tk_now t) (tk_reg t) since = Ok x ->
  all_dead t \/ exists r dead, x = (r, dead, None, false).
Proof.
  unfold health_tick. destruct (probeAll _ _ _) as [[r dead]|m|] eqn:Hp; [|done..]. cbn [mbind res_bind].
  destruct (bool_decide_reflect (Exits r = [])) as [He|He]; cbn [orb]; [intros [= <-]; eauto|].
  destruct (anyAlive r) eqn:Ha; [intros [= <-]; eauto|]. intros _. left. by exists r, dead.
Qed.

Lemma health_ticks_quit ts : forall since s, health_ticks ts since = Ok (s, true) ->
  (exists t0 mid d post, since = Some t0 /\ ts = mid ++ d :: post /\ Forall all_dead (mid ++ [d]) /\
     allDeadRestartAfter <= tk_now d - t0) \/
  (exists pre d0 mid d post, ts = pre ++ d0 :: mid ++ d :: post /\ Forall all_dead (d0 :: mid ++ [d]) /\
     allDeadRestartAfter <= tk_now d - tk_now d0).
Proof.
  induction ts as [|t ts IH]; intros since s; [done|]. cbn [health_ticks]. intros H.
  destruct (health_tick _ _ _ _ since) as [[[[r dead] since'] quit]|m|] eqn:Et; [|done..].
  cbn [mbind res_bind] in H. destruct (health_tick_cases _ _ _ Et) as [Hd|(r1 & d1 & [= -> -> -> ->])].
  - destruct (health_tick_dead t since Hd) as (r1 & dd & E1). rewrite E1 in Et. injection Et as <- <- <- <-.
    destruct since as [t0|]; cbn [default] in *.
    + destruct (Z.leb_spec allDeadRestartAfter (tk_now t - t0)) as [Hle|_].
      * left. exists t0, [], t, ts. repeat split; [by constructor|done].
      * destruct (IH _ _ H) as [(t1 & mid & d & post & [= <-] & -> & Hf & Hle)|(pre & d0 & mid & d & post & -> & Hf & Hle)].
        -- left. exists t0, (t :: mid), d, post. repeat split; [by constructor|done].
        -- right. exists (t :: pre), d0, mid, d, post. done.
    + destruct (IH _ _ H) as [(t1 & mid & d & post & [= <-] & -> & Hf & Hle)|(pre & d0 & mid & d & post & -> & Hf & Hle)].
      * right. exists [], t, mid, d, post. repeat split; [by constructor|done].
      * right. exists (t :: pre), d0, mid, d, post. done.
  - destruct (IH _ _ H) as [(t1 & ? & ? & ? & [=] & _)|(pre & d0 & mid & d & post & -> & Hf & Hle)].
    right. exists (t :: pre), d0, mid, d, post. done.
Qed.

Lemma health_ticks_dead mid d t0 : Forall all_dead (mid ++ [d]) -> allDeadRestartAfter <= tk_now d - t0 ->
  health_ticks (mid ++ [d]) (Some t0) = Ok (Some t0, true).
Proof.
  induction mid as [|t mid IH]; cbn [app]; intros [Ht Hf]%Forall_cons Hle; cbn [health_ticks].
  - destruct (health_tick_dead d (Some t0) Ht) as (r & dead & ->). cbn [mbind res_bind default].
    by destruct (Z.leb_spec allDeadRestartAfter (tk_now d - t0)); [|lia].
  - destruct (health_tick_dead t (Some t0) Ht) as (r & dead & ->). cbn [mbind res_bind default].
    destruct (_ <=? _); [done|]. by apply IH.
Qed.

(** The node restarts itself only after an unbroken run of ticks, spanning at least ten
    minutes, at each of which it knew exits and found none alive; and such a run does make
    it restart. *)
Theorem restart_after_outage :
  (forall ts s, health_ticks ts None = Ok (s, true) ->
     exists pre d0 mid d post, ts = pre ++ d0 :: mid ++ d :: post /\ Forall all_dead (d0 :: mid ++ [d]) /\
       allDeadRestartAfter <= tk_now d - tk_now d0) /\
  (forall d0 mid d, Forall all_dead (d0 :: mid ++ [d]) -> allDeadRestartAfter <= tk_now d - tk_now d0 ->
     health_ticks (d0 :: mid ++ [d]) None = Ok (Some (tk_now d0), true)).
Proof.
  split.
  - intros ts s H. destruct (health_ticks_quit _ _ _ H) as [(? & ? & ? & ? & [=] & _)|H']. done.
  - intros d0 mid d [H0 Hf]%Forall_cons Hle. cbn [health_ticks].
    destruct (health_tick_dead d0 None H0) as (r & dead & ->). cbn [mbind res_bind default].
    by apply health_ticks_dead.
Qed.

Lemma probe_list_other l envs : forall r r' dead a m h, probe_list l envs r = Ok (r', dead) ->
  health r = Some m -> m !! a = Some h -> a ∉ Addr <$> l ->
  exists m', health r' = Some m' /\ m' !! a = Some h.
Proof.
  induction l as [|e l IH]; intros r r' dead a m h; cbn [probe_list fmap list_fmap].
  - intros [= <- _]. eauto.
  - intros H Hm Ha Hni. rewrite not_elem_of_cons in Hni. destruct Hni as [Hne Hni].
    unfold probeOne in H. destruct (run_probe r (Addr e) (envs (Addr e))) as [ok rtt]. rewrite Hm in H.
    destruct (note_probe ok rtt (entry (Addr e) m)) as [h' j]. cbn [mbind res_bind] in H.
    destruct (probe_list l envs _) as [[r1 d1]|?|] eqn:E; cbn [mbind res_bind] in H; [|done..].
    injection H as <- _. eapply IH; [exact E|done| |done]. by rewrite lookup_insert_ne.
Qed.

Lemma probe_list_total l envs : forall r m, health r = Some m -> exists r' dead, probe_list l envs r = Ok (r', dead).
Proof.
  induction l as [|e l IH]; intros r m Hm; cbn [probe_list]; [eauto|].
  unfold probeOne. destruct (run_probe r (Addr e) (envs (Addr e))) as [ok rtt]. rewrite Hm.
  destruct (note_probe ok rtt (entry (Addr e) m)) as [h' j]. cbn [mbind res_bind].
  destruct (IH (set_health (<[Addr e := h']> m) r) _ eq_refl) as (r' & dead & ->). cbn [mbind res_bind]. eauto.
Qed.

(** A health entry outlives its exit. Once an address has left the list while its entry
    said alive, it is never probed again, so the node takes itself for connected at every
    tick and never restarts, even when every exit it still knows is dead. *)
Theorem departed_exit_blocks_restart r m a h order envs now since :
  health r = Some m -> m !! a = Some h -> alive h = true -> a ∉ Addr <$> exits r ->
  exists r' dead, health_tick order envs now r since = Ok (r', dead, None, false).
Proof.
  intros Hm Ha Hal Hni. unfold health_tick, probeAll, Exits.
  destruct (probe_list_total (rand_Shuffle order (exits r)) envs r m Hm) as (r' & dead & E). rewrite E.
  destruct (probe_list_other _ _ _ _ _ a m h E Hm Ha) as (m' & Hm' & Ha'); [by rewrite shuffle_perm|].
  cbn [mbind res_bind]. exists r', dead. enough (anyAlive r' = true) as -> by (by rewrite orb_true_r).
  unfold anyAlive, health_map. rewrite Hm'. cbn [default from_option id]. case_decide; [done|].
  apply existsb_exists. exists (a, h). split; [|done]. by apply list_elem_of_In, elem_of_map_to_list.
Qed.

(** ** The cache on disk *)

Lemma seen_seconds_fold (seen : gmap gostring Z) nodes : forall (m : gmap gostring Z) x t, seen !! Addr x = Some t ->
  x ∈ nodes \/ m !! Addr x = Some (time_seconds t) ->
  foldl (fun (m : gmap gostring Z) n => match seen !! Addr n with Some t => <[Addr n := time_seconds t]> m | None => m end)
    m nodes !! Addr x = Some (time_seconds t).
Proof.
  induction nodes as [|y nodes IH]; intros m x t Ht H; cbn [foldl].
  { destruct H as [H|H]; [by apply not_elem_of_nil in H|done]. }
  apply IH; [done|]. rewrite elem_of_cons in H. destruct (decide (Addr y = Addr x)) as [E|Hne].
  - right. by rewrite E, Ht, lookup_insert_eq.
  - destruct H as [[->|H]|H]; [done|by left|]. right. destruct (seen !! Addr y); [by rewrite lookup_insert_ne|done].
Qed.

Lemma note_cached_all (cached : gmap gostring Z) now nodes : forall m x t, cached !! Addr x = Some t ->
  x ∈ nodes \/ m !! Addr x = Some t -> foldl (note_cached cached now) m nodes !! Addr x = Some t.
Proof.
  induction nodes as [|y nodes IH]; intros m x t Ht H; cbn [foldl].
  { destruct H as [H|H]; [by apply not_elem_of_nil in H|done]. }
  apply IH; [done|]. rewrite elem_of_cons in H. unfold note_cached.
  destruct (decide (Addr y = Addr x)) as [E|Hne].
  - right. by rewrite E, Ht, lookup_insert_eq.
  - destruct H as [[->|H]|H]; [done|by left|]. right. destruct (cached !! Addr y); [by rewrite lookup_insert_ne|].
    destruct (m !! Addr y); [done|by rewrite lookup_insert_ne].
Qed.

Lemma range_by_addr order nodes : NoDup (Addr <$> nodes) ->
  (range_map order (union_by_addr [] nodes)).*2 ≡ₚ nodes.
Proof.
  intros Hnd. apply NoDup_Permutation.
  - eapply (NoDup_fmap_1 Addr). rewrite range_keyed by apply union_keyed. apply NoDup_range_map.
  - by eapply NoDup_fmap_1.
  - intros x. rewrite list_elem_of_fmap. split.
    + intros ([a e] & -> & He). apply elem_of_range_map, union_lookup in He as [_ [He|[He _]]]; [done|].
      by apply not_elem_of_nil in He.
    + intros Hx. destruct (union_has [] nodes x) as [y Hy]; [by right|].
      apply union_lookup in Hy as Hy'. destruct Hy' as [Ea [Hyn|[Hyn _]]]; [|by apply not_elem_of_nil in Hyn].
      rewrite (NoDup_fmap_inj Addr nodes x y) by done. exists (Addr x, y). split; [done|].
      by apply elem_of_range_map.
Qed.

(** What a refresh wrote to disk, a node that starts later reads back: the same exits and
    their times of last sight, cut to seconds. [JSON] is the encoder's round trip on what
    was written. *)
Theorem cache_roundtrip e r disk r' disk' token pub now order :
  refresh e r disk = (Ok (), r', disk') -> re_dir_ok e = true -> re_write_ok e = true -> cacheFile r' <> [] ->
  (exists rest, Strings.TrimSpace (marshal_cache (exits r') (seen_seconds (lastSeen r') (exits r'))) = 123 :: rest /\
     un_wrapper (123 :: rest) = Some (exits r', seen_seconds (lastSeen r') (exits r'))) ->
  let r2 := LoadCached disk' now order (newExitRegistry token pub (cacheFile r')) in
  exits r2 ≡ₚ exits r' /\
  forall x, x ∈ exits r' -> exists t, lastSeen r' !! Addr x = Some t /\
    lastSeen r2 !! Addr x = Some (time_Unix (time_seconds t)).
Proof.
  intros Href Hdir Hwr Hfile (rest & Htrim & Hun). cbn zeta.
  destruct (refresh_cases e r disk) as [(raw & sl & _ & _ & Hc)|(o & Ho & Hc)]; cbn zeta in Hc; rewrite Href in Hc.
  2:{ injection Hc as <- _ _. done. }
  injection Hc as -> ->. set (r1 := (PickRandom _ _ _ _ r).2) in *. set (r3 := apply_list e sl r1) in *.
  unfold persist. rewrite decide_False, Hdir, Hwr by done. cbn [negb]. unfold LoadCached.
  cbn [cacheFile newExitRegistry]. rewrite decide_False by done.
  cbn [mbind option_bind]. unfold parse_cache. rewrite Htrim, Hun. cbn [set_list exits lastSeen newExitRegistry].
  fold (union_by_addr [] (exits r3)).
  assert (NoDup (Addr <$> exits r3) /\ seen_all (exits r3) (lastSeen r3)) as [Hnd Hs].
  { unfold r3, apply_list. destruct (merge_exits _ _ _ r1) as [merged seen] eqn:E.
    apply merge_exits_spec in E as (Hnd & _ & _ & Hseen). split; [done|]. intros x Hx.
    cbn [set_advisory set_list lastSeen]. rewrite Hseen; [eauto|]. by apply list_elem_of_fmap_2. }
  split; [by apply range_by_addr|]. intros x Hx. destruct (Hs x Hx) as [t Ht]. exists t. split; [done|].
  apply note_cached_all; [|by left]. rewrite lookup_fmap. unfold seen_seconds.
  rewrite (seen_seconds_fold _ _ _ _ t); [done|done|by left].
Qed.

(** ** Stickiness depends on the order of a map iteration *)

Definition demo_node (a : string) : ExitNode := MkExit (bs a) [] f0 f0 None.
Definition demo_signed : signed_list :=
  MkSigned (bs "exits") 0 [demo_node "a:443"; demo_node "b:443"] [] ∅ None.
Definition demo_refresh (order : nat -> nat) : refresh_env :=
  MkRefresh 0 (fun _ => 0%nat) 0 FetchError 0 (fun _ => None) 0 order true true.

Lemma two_weighted ip cc r a b :
  exits r = [a; b] -> exit_works r a = true -> exit_works r b = true -> exitRegions r = ∅ ->
  clientRTT r a = f1 -> clientRTT r b = f1 ->
  PickForClient ip cc r =
    Ok (if fle (fsub (fmul (client_fraction ip) (fadd (fadd f0 (fdiv f1 f1)) (fdiv f1 f1))) (fdiv f1 f1)) f0 then a else b).
Proof.
  intros He Ha Hb Hr Ra Rb. unfold PickForClient, live_exits. rewrite He. cbn [List.filter]. rewrite Ha, Hb.
  unfold geo_filter, geo_filter_on. assert (bool_decide (exitRegions r = ∅) = true) as -> by (by apply bool_decide_eq_true).
  cbn [negb]. rewrite andb_false_r.
  cbn [or_all]. unfold weighted_pick. cbn [last fmap list_fmap zip zip_with foldl walk]. rewrite Ra, Rb.
  cbn zeta. destruct (fle (fsub (fmul _ _) _) f0); [done|]. by destruct (fle _ f0).
Qed.

(** The exit a client is sent to is not stable: the same signed list, applied by the same
    code to the same registry, gives the client a different exit when Go's map iteration
    happens to visit the two addresses in the other order. *)
Theorem sticky_pick_unstable token pub file ip cc :
  let r order := apply_list (demo_refresh order) demo_signed (newExitRegistry token pub file) in
  exits (r (fun _ => 0%nat)) ≡ₚ exits (r (fun _ => 1%nat)) /\
  PickForClient ip cc (r (fun _ => 0%nat)) <> PickForClient ip cc (r (fun _ => 1%nat)).
Proof.
  cbn zeta. set (n := newExitRegistry token pub file).
  assert (exits (apply_list (demo_refresh (fun _ => 0%nat)) demo_signed n) = [demo_node "a:443"; demo_node "b:443"]) as E0
    by (vm_compute; reflexivity).
  assert (exits (apply_list (demo_refresh (fun _ => 1%nat)) demo_signed n) = [demo_node "b:443"; demo_node "a:443"]) as E1
    by (vm_compute; reflexivity).
  split; [rewrite E0, E1; apply perm_swap|].
  rewrite (two_weighted ip cc _ _ _ E0), (two_weighted ip cc _ _ _ E1) by (vm_compute; reflexivity).
  by destruct (fle _ f0).
Qed.

(** ** The reported RTT *)

(** The RTT a heartbeat reports is zero only if no exit has a positive one; it is the
    probe or self-reported RTT of a known exit, of one not known to be dead whenever such an
    exit has one, and then no such exit has a smaller one: the frozen value of a dead exit
    does not win. *)
Theorem MinProbeRTT_min r :
  let up := not_dead (health_map r) in
  let rtt := probe_rtt (health_map r) in
  (feq (MinProbeRTT r) f0 = true -> forall e, e ∈ exits r -> flt f0 (rtt e) = false) /\
  (feq (MinProbeRTT r) f0 = false -> exists e, e ∈ exits r /\ MinProbeRTT r = rtt e /\
     ((exists x, x ∈ exits r /\ up x = true /\ flt f0 (rtt x) = true) ->
        up e = true /\ forall x, x ∈ exits r -> up x = true -> flt f0 (rtt x) = true -> flt (rtt x) (MinProbeRTT r) = false)).
Proof.
  intros up rtt. unfold MinProbeRTT, minProbeRTTOver, Exits. fold up rtt.
  assert (forall e, e ∈ List.filter up (exits r) <-> e ∈ exits r /\ up e = true) as Hf.
  { intros e. by rewrite !list_elem_of_In, filter_In. }
  destruct (min_positive_spec rtt (List.filter up (exits r))) as [[E1 N1]|(P1 & (x & Hx & E1) & M1)].
  - rewrite E1. change (feq f0 f0) with true. cbn [negb].
    destruct (min_positive_spec rtt (exits r)) as [[E2 N2]|(P2 & (y & Hy & E2) & M2)].
    + rewrite E2. change (feq f0 f0) with true. split; [intros _; apply N2|done].
    + rewrite (fpos_neq0 _ P2). split; [done|]. intros _. exists y. split; [done|]. split; [done|].
      intros (z & Hz & Hu & Hp). rewrite (N1 z) in Hp by (by apply Hf). done.
  - rewrite (fpos_neq0 _ P1), (fpos_neq0 _ P1). split; [done|]. intros _. apply Hf in Hx as [Hx Hu].
    exists x. split; [done|]. split; [done|]. intros _. split; [done|].
    intros z Hz Hzu Hp. apply M1; [by apply Hf|done].
Qed.

End props.

(** ** Concrete runs

    A codec whose only signed list is [toy_signed] and whose only cache file is the one
    written after it was applied. *)

Definition toy_signed : signed_list :=
  MkSigned (bs "exits") 100 [demo_node "c:443"] (bs "AA") ∅ None.
Definition toy_cached : list ExitNode := [demo_node "a:443"; demo_node "c:443"].
Definition toy_times : gmap gostring Z := list_to_map [(bs "a:443", 40); (bs "c:443", 100)].

Lemma toy_nodes_ok l : Forall (fun e => RTTms e = f0 /\ Load e = f0) l -> Forall node_ok l.
Proof. intros H. apply (Forall_impl _ _ _ H). intros e [H1 H2]. unfold node_ok. rewrite H1, H2. split; apply fvalid_f0. Qed.

Definition toy_wrapper (b : bytes) : option (list ExitNode * gmap gostring Z) :=
  if decide (b = [123; 125]) then Some (toy_cached, toy_times) else None.
Definition toy_unsigned (b : bytes) : option signed_list := if decide (b = [1]) then Some toy_signed else None.

Lemma toy_wrapper_ok b nodes ls : toy_wrapper b = Some (nodes, ls) -> Forall node_ok nodes.
Proof. unfold toy_wrapper. case_decide; [|done]. intros [= <- <-]. apply toy_nodes_ok. by repeat constructor. Qed.
Lemma toy_unsigned_ok b sl : toy_unsigned b = Some sl -> Forall node_ok (sl_nodes sl).
Proof. unfold toy_unsigned. case_decide; [|done]. intros [= <-]. apply toy_nodes_ok. by repeat constructor. Qed.
Lemma toy_none_ok (b : bytes) (nodes : list ExitNode) : None = Some nodes -> Forall node_ok nodes.
Proof. done. Qed.

#[local] Instance toy_exits_codec : ExitsCodec := {|
  un_wrapper := toy_wrapper;
  un_nodes _ := None;
  un_signed := toy_unsigned;
  marshal_cache _ _ := [123; 125];
  un_sites _ := None;
  canonical_list _ _ _ := [];
  sha256 b := b;
  un_wrapper_ok := toy_wrapper_ok;
  un_nodes_ok := toy_none_ok;
  un_signed_ok := toy_unsigned_ok |}.

#[local] Instance trusting_ed25519 : Ed25519 := {| ed25519_verify _ _ _ := true |}.

Definition toy_start : ExitRegistry := newExitRegistry (bs "token") (Some [7]) (bs "exits.json").
Definition toy_boot : ExitRegistry := LoadBootstrap [bs "a:443"; bs " "] (40 * second) toy_start.
Definition toy_env : refresh_env :=
  MkRefresh 0 (fun _ => 0%nat) 0 (FetchBody [1]) (100 * second) (fun _ => None) (100 * second) (fun _ => 0%nat) true true.
Definition toy_down : probe_env := MkProbe None 0 None 0 (fun _ => None).
Definition toy_watched : ExitRegistry := StartHealthChecker None toy_boot.


Lemma refresh_merges_witness :
  let r' := (refresh toy_env toy_boot None).1.2 in
  (refresh toy_env toy_boot None).1.1 = Ok () /\
  forall a, a ∈ Addr <$> exits r' <->
    a ∈ [bs "c:443"] \/ a ∈ [bs "a:443"] /\ 100 * second - default (100 * second) (lastSeen toy_boot !! a) <= staleExitAfter.
Proof.
  cbn zeta. split; [vm_compute; reflexivity|].
  destruct (refresh toy_env toy_boot None) as [[o r'] disk'] eqn:E. cbn [fst snd].
  destruct (refresh_merges toy_env toy_boot None o r' disk' [7]) as [_ H];
    [vm_compute; discriminate|vm_compute; reflexivity|exact E|].
  destruct H as (raw & sl & Hf & Hu & _ & _ & _ & Hdom & _).
  { transitivity (refresh toy_env toy_boot None).1.1; [by rewrite E|vm_compute; reflexivity]. }
  injection Hf as <-. injection Hu as <-. exact Hdom.
Defined.

Lemma health_refines_verdict_witness :
  match probeOne (bs "a:443") toy_down toy_watched with
  | Ok (r', dead) => isAlive r' (bs "a:443") = verdict [false]
  | _ => False
  end.
Proof.
  destruct (probeOne (bs "a:443") toy_down toy_watched) as [[r' dead]|m|] eqn:E; [|vm_compute in E; discriminate..].
  destruct (health_refines_verdict toy_watched [] toy_watched (bs "a:443") toy_down r' dead) as (_ & H & _);
    [reflexivity|apply run_start|exact E|]. exact H.
Defined.

Lemma departed_exit_blocks_restart_witness :
  exists r' dead, health_tick (fun _ => 0%nat) (fun _ => toy_down) 0
    (set_health (<[bs "gone:443" := new_health]> ∅) toy_watched) (Some (- hour)) = Ok (r', dead, None, false).
Proof.
  apply (departed_exit_blocks_restart _ (<[bs "gone:443" := new_health]> ∅) (bs "gone:443") new_health);
    [reflexivity|vm_compute; reflexivity|reflexivity|].
  change (Addr <$> exits (set_health (<[bs "gone:443" := new_health]> ∅) toy_watched)) with ([bs "a:443"] : list gostring).
  rewrite list_elem_of_singleton. vm_compute. discriminate.
Defined.

Lemma cache_roundtrip_witness :
  let r' := (refresh toy_env toy_boot None).1.2 in
  let disk' := (refresh toy_env toy_boot None).2 in
  exits (LoadCached disk' hour (fun _ => 0%nat) (newExitRegistry [] None (cacheFile r'))) ≡ₚ exits r'.
Proof.
  cbn zeta. destruct (refresh toy_env toy_boot None) as [[o r'] disk'] eqn:E. cbn [fst snd].
  assert (o = Ok () /\ r' = (refresh toy_env toy_boot None).1.2) as [-> Hr].
  { rewrite E. split; [|reflexivity].
    transitivity (refresh toy_env toy_boot None).1.1; [by rewrite E|vm_compute; reflexivity]. }
  apply (cache_roundtrip toy_env toy_boot None r' disk' [] None hour (fun _ => 0%nat) E eq_refl eq_refl).
  - rewrite Hr. vm_compute. discriminate.
  - exists [125]. rewrite Hr. split; vm_compute; reflexivity.
Defined.

End ExitsProps.
