(* ===== verification/TlsHello.v ===== *)
(** * Reading a TLS ClientHello

    A control node peeks at the first bytes of a connection to route it
    (src/snc-control/handler.go: extractSNI, extractChannel), the Android client does so
    for a host name hint (src/android-core/sni_sniff.go: extractSNI). Both read a prefix of
    the handshake, which may be cut anywhere. Every index and slice is checked as Go does. *)

From stdpp Require Import base list strings.
From Stdlib Require Import ZArith Lia.
From S2P Require Import Prelude GoLib.

Module Hello.

(** The body of a ClientHello after both headers, none when [data] is something else. *)
Definition client_hello (data : bytes) : res (option bytes) :=
  if lenZ data <? 5 then Ok None
  else
    b0 ← go_index data 0;
    if negb (b0 =? 0x16) then Ok None
    else
      hs ← go_slice data 5 (lenZ data);
      if lenZ hs <? 4 then Ok None
      else
        h0 ← go_index hs 0;
        if negb (h0 =? 0x01) then Ok None
        else ch ← go_slice hs 4 (lenZ hs); Ok (Some ch).

Definition chMagic : Z := 0xA7.

Definition extractChannel (data : bytes) : res (option Z) :=
  o ← client_hello data;
  match o with
  | None => Ok None
  | Some ch =>
      if lenZ ch <=? 34 then Ok None
      else
        sidLen ← go_index ch 34;
        if (sidLen <? 2) || (lenZ ch <? 35 + sidLen) then Ok None
        else
          m ← go_index ch 35;
          if negb (m =? chMagic) then Ok None
          else c ← go_index ch 36; Ok (Some c)
  end.

(** The loop over the extensions; the fuel is the length of the hello, each turn reads four
    bytes or more. *)
Fixpoint sni_loop (fuel : nat) (ch : bytes) (pos fin : Z) : res gostring :=
  match fuel with
  | O => Err "out of fuel"
  | S fuel =>
      if (pos + 4 <=? fin) && (pos + 4 <=? lenZ ch) then
        extType ← go_uint 2 ch pos;
        extDataLen ← go_uint 2 ch (pos + 2);
        let pos := pos + 4 in
        if extType =? 0 then
          if (extDataLen <? 5) || (lenZ ch <? pos + extDataLen) then Ok []
          else
            nameLen ← go_uint 2 ch (pos + 3);
            if lenZ ch <? pos + 5 + nameLen then Ok []
            else go_slice ch (pos + 5) (pos + 5 + nameLen)
        else sni_loop fuel ch (pos + extDataLen) fin
      else Ok []
  end.

Definition sni_of_hello (ch : bytes) : res gostring :=
  if lenZ ch <=? 34 then Ok []
  else
    sidLen ← go_index ch 34;
    let pos := 34 + 1 + sidLen in
    if lenZ ch <? pos + 2 then Ok []
    else
      csLen ← go_uint 2 ch pos;
      let pos := pos + 2 + csLen in
      if lenZ ch <=? pos then Ok []
      else
        cmLen ← go_index ch pos;
        let pos := pos + 1 + cmLen in
        if lenZ ch <? pos + 2 then Ok []
        else
          extLen ← go_uint 2 ch pos;
          let pos := pos + 2 in
          sni_loop (S (length ch)) ch pos (pos + extLen).

Definition extractSNI (data : bytes) : res gostring :=
  o ← client_hello data; match o with None => Ok [] | Some ch => sni_of_hello ch end.

(** ** Neither reader panics, whatever the bytes *)

Lemma client_hello_total data : exists o, client_hello data = Ok o /\
  (bytes_ok data -> forall ch, o = Some ch -> bytes_ok ch).
Proof.
  unfold client_hello. destruct (Z.ltb_spec (lenZ data) 5); [by eexists|].
  destruct (go_index_ok data 0) as (x & -> & _); [lia|]. cbn [mbind res_bind].
  destruct (negb (x =? 22)); [by eexists|].
  destruct (go_slice_ok data 5 (lenZ data)) as (hs & E & Hl); [lia..|]. rewrite E. cbn [mbind res_bind].
  destruct (Z.ltb_spec (lenZ hs) 4); [by eexists|].
  destruct (go_index_ok hs 0) as (y & -> & _); [lia|]. cbn [mbind res_bind].
  destruct (negb (y =? 1)); [by eexists|].
  destruct (go_slice_ok hs 4 (lenZ hs)) as (ch & E2 & Hl2); [lia..|]. rewrite E2. cbn [mbind res_bind].
  eexists. split; [done|]. intros Hb c [= <-].
  eapply go_slice_Forall; [exact E2|]. by eapply go_slice_Forall.
Qed.

Lemma go_byte_ok b i : 0 <= i < lenZ b -> bytes_ok b -> exists x, go_index b i = Ok x /\ 0 <= x < 256.
Proof.
  intros Hi Hb. destruct (go_index_ok b i Hi) as (x & E & Hx). exists x. split; [done|].
  rewrite Forall_lookup in Hb. by apply (Hb _ _ Hx).
Qed.

Lemma sni_loop_total ch fuel : forall pos fin, bytes_ok ch -> 0 <= pos -> Z.max 0 (lenZ ch - pos) < Z.of_nat fuel ->
  exists s, sni_loop fuel ch pos fin = Ok s.
Proof.
  induction fuel as [|fuel IH]; intros pos fin Hb Hp Hf; [lia|]. cbn [sni_loop].
  destruct (Z.leb_spec (pos + 4) fin), (Z.leb_spec (pos + 4) (lenZ ch)); cbn [andb]; try (by eexists).
  destruct (go_uint_ok 2 ch pos) as (ty & -> & _); [lia..|done|]. cbn [mbind res_bind].
  destruct (go_uint_ok 2 ch (pos + 2)) as (dl & -> & Hdl); [lia..|done|]. cbn [mbind res_bind].
  destruct (ty =? 0).
  - destruct (Z.ltb_spec dl 5), (Z.ltb_spec (lenZ ch) (pos + 4 + dl)); cbn [orb]; try (by eexists).
    destruct (go_uint_ok 2 ch (pos + 4 + 3)) as (nl & -> & Hnl); [lia..|done|]. cbn [mbind res_bind].
    destruct (Z.ltb_spec (lenZ ch) (pos + 4 + 5 + nl)); [by eexists|].
    destruct (go_slice_ok ch (pos + 4 + 5) (pos + 4 + 5 + nl)) as (r & -> & _); [lia..|]. by eexists.
  - apply IH; [done|lia..].
Qed.

(** Routing a connection never panics: on any bytes a client may send, both readers
    return, and the loop over the extensions ends before its fuel does. *)
Theorem hello_readers_total data :
  bytes_ok data -> (exists s, extractSNI data = Ok s) /\ (exists c, extractChannel data = Ok c).
Proof.
  intros Hb. unfold extractSNI, extractChannel. destruct (client_hello_total data) as (o & -> & Ho).
  cbn [mbind res_bind]. destruct o as [ch|]; [|split; by eexists]. specialize (Ho Hb ch eq_refl).
  unfold sni_of_hello. destruct (Z.leb_spec (lenZ ch) 34); [split; by eexists|].
  destruct (go_byte_ok ch 34) as (sl & -> & Hsl); [lia|done|]. cbn [mbind res_bind]. split.
  - destruct (Z.ltb_spec (lenZ ch) (34 + 1 + sl + 2)); [by eexists|].
    destruct (go_uint_ok 2 ch (34 + 1 + sl)) as (cs & -> & Hcs); [lia..|done|]. cbn [mbind res_bind].
    destruct (Z.leb_spec (lenZ ch) (34 + 1 + sl + 2 + cs)); [by eexists|].
    destruct (go_byte_ok ch (34 + 1 + sl + 2 + cs)) as (cm & -> & Hcm); [lia|done|]. cbn [mbind res_bind].
    destruct (Z.ltb_spec (lenZ ch) (34 + 1 + sl + 2 + cs + 1 + cm + 2)); [by eexists|].
    destruct (go_uint_ok 2 ch (34 + 1 + sl + 2 + cs + 1 + cm)) as (el & -> & Hel); [lia..|done|].
    cbn [mbind res_bind]. apply sni_loop_total; [done|lia..].
  - destruct (Z.ltb_spec sl 2), (Z.ltb_spec (lenZ ch) (35 + sl)); cbn [orb]; try (by eexists).
    destruct (go_index_ok ch 35) as (m & -> & _); [lia|]. cbn [mbind res_bind].
    destruct (negb (m =? chMagic)); [by eexists|].
    destruct (go_index_ok ch 36) as (c & -> & _); [lia|]. by eexists.
Qed.

Lemma hello_readers_total_witness : exists s, extractSNI [0x16; 3; 1; 0; 4; 1; 0; 0; 0] = Ok s.
Proof. apply hello_readers_total. repeat constructor; unfold byte_ok; lia. Defined.

(** ** What a ClientHello looks like on the wire (RFC 8446, 4.1.2) *)

Record extension := MkExt { ext_type : Z; ext_data : bytes }.
Definition put_ext (e : extension) : bytes := be_put 2 (ext_type e) ++ be_put 2 (lenZ (ext_data e)) ++ ext_data e.
Definition put_exts (l : list extension) : bytes := concat (put_ext <$> l).
Definition server_name (name : gostring) : extension :=
  MkExt 0 (be_put 2 (3 + lenZ name) ++ [0] ++ be_put 2 (lenZ name) ++ name).

(** A hello up to the server name. Whatever follows, the rest of the extensions or the cut
    of a short read, is [rest]. *)
Record hello := MkHello {
  h_version : bytes;        (** record version and length *)
  h_hs_len : bytes;         (** length of the handshake message *)
  h_random : bytes;         (** client version and random *)
  h_sid : bytes;
  h_suites : bytes;
  h_methods : bytes;
  h_ext_len : Z;
  h_before : list extension;
  h_name : gostring;
  h_rest : bytes }.

Definition hello_head (h : hello) : bytes :=
  h_random h ++ [lenZ (h_sid h)] ++ h_sid h ++ be_put 2 (lenZ (h_suites h)) ++ h_suites h ++
  [lenZ (h_methods h)] ++ h_methods h ++ be_put 2 (h_ext_len h).
Definition hello_body (h : hello) : bytes :=
  hello_head h ++ put_exts (h_before h) ++ put_ext (server_name (h_name h)) ++ h_rest h.
Definition put_hello (h : hello) : bytes :=
  [0x16] ++ h_version h ++ [0x01] ++ h_hs_len h ++ hello_body h.

Definition ext_ok (e : extension) : Prop := 0 < ext_type e < 2 ^ 16 /\ lenZ (ext_data e) < 2 ^ 16.
Record hello_ok (h : hello) : Prop := {
  hk_version : length (h_version h) = 4%nat;
  hk_hs_len : length (h_hs_len h) = 3%nat;
  hk_random : length (h_random h) = 34%nat;
  hk_suites : lenZ (h_suites h) < 2 ^ 16;
  hk_ext_len : lenZ (put_exts (h_before h)) + lenZ (put_ext (server_name (h_name h))) <= h_ext_len h < 2 ^ 16;
  hk_before : Forall ext_ok (h_before h) }.

Lemma client_hello_put h : hello_ok h -> client_hello (put_hello h) = Ok (Some (hello_body h)).
Proof.
  intros []. unfold client_hello, put_hello.
  rewrite (proj2 (Z.ltb_ge _ _)) by (rewrite !length_app; cbn [length]; lia).
  change (go_index ([22] ++ ?x) 0) with (go_index ([] ++ 22 :: x) 0).
  rewrite go_index_app by done. cbn [mbind res_bind Z.eqb Pos.eqb negb].
  rewrite app_assoc, (go_slice_suffix ([22] ++ h_version h)); [|rewrite length_app; cbn [length]; lia|done].
  cbn [mbind res_bind]. rewrite (proj2 (Z.ltb_ge _ _)) by (rewrite !length_app; cbn [length]; lia).
  change (go_index ([1] ++ ?x) 0) with (go_index ([] ++ 1 :: x) 0).
  rewrite go_index_app by done. cbn [mbind res_bind Z.eqb Pos.eqb negb].
  rewrite app_assoc, (go_slice_suffix ([1] ++ h_hs_len h)); [done|rewrite length_app; cbn [length]; lia|done].
Qed.

Lemma go_uint16_at (a c l : bytes) v o :
  l = a ++ be_put 2 v ++ c -> o = lenZ a -> 0 <= v < 2 ^ 16 -> go_uint 2 l o = Ok v.
Proof. apply (go_uint_at 2). Qed.

Lemma go_index_at (a c l : bytes) x i : l = a ++ x :: c -> i = lenZ a -> go_index l i = Ok x.
Proof. intros ->. apply go_index_app. Qed.

Lemma length_put_ext e : lenZ (put_ext e) = 4 + lenZ (ext_data e).
Proof. unfold put_ext. rewrite !length_app, !length_be_put. lia. Qed.

(** One turn at an extension that is not the server name. *)
Lemma sni_loop_skip fuel ch a e c pos fin :
  ch = a ++ put_ext e ++ c -> ext_ok e -> pos = lenZ a -> pos + 4 <= fin ->
  sni_loop (S fuel) ch pos fin = sni_loop fuel ch (pos + lenZ (put_ext e)) fin.
Proof.
  intros Hch [Ht Hd] Hp Hf. cbn [sni_loop].
  assert (lenZ ch = pos + (4 + lenZ (ext_data e)) + lenZ c) as Hl
    by (rewrite Hch, !length_app, !Nat2Z.inj_add, length_put_ext; lia).
  rewrite (proj2 (Z.leb_le _ _)), (proj2 (Z.leb_le _ _)) by lia. cbn [andb].
  rewrite (go_uint16_at a (be_put 2 (lenZ (ext_data e)) ++ ext_data e ++ c) ch (ext_type e) pos)
    by (rewrite ?Hch; unfold put_ext; first [split_buf | done | solve_len]).
  cbn [mbind res_bind].
  rewrite (go_uint16_at (a ++ be_put 2 (ext_type e)) (ext_data e ++ c) ch (lenZ (ext_data e)) (pos + 2))
    by (rewrite ?Hch; unfold put_ext; first [split_buf | (rewrite length_app, length_be_put; lia) | solve_len]).
  cbn [mbind res_bind]. rewrite (proj2 (Z.eqb_neq (ext_type e) 0)) by lia.
  f_equal. rewrite length_put_ext. lia.
Qed.

Lemma sni_loop_name fuel ch a name c pos fin :
  ch = a ++ put_ext (server_name name) ++ c -> pos = lenZ a -> pos + 4 <= fin -> lenZ name + 5 < 2 ^ 16 ->
  sni_loop (S fuel) ch pos fin = Ok name.
Proof.
  intros Hch Hp Hf Hn. cbn [sni_loop].
  assert (lenZ (ext_data (server_name name)) = 5 + lenZ name) as Hd
    by (cbn [server_name ext_data]; rewrite !length_app, !length_be_put; cbn [length]; lia).
  assert (ch = a ++ be_put 2 0 ++ be_put 2 (5 + lenZ name) ++ be_put 2 (3 + lenZ name) ++ [0] ++ be_put 2 (lenZ name) ++ name ++ c) as Hc.
  { rewrite Hch. unfold put_ext. rewrite Hd. cbn [server_name ext_data ext_type]. split_buf. }
  assert (lenZ ch = pos + 9 + lenZ name + lenZ c) as Hl
    by (rewrite Hc, !length_app, !length_be_put; cbn [length]; lia).
  rewrite (proj2 (Z.leb_le _ _)), (proj2 (Z.leb_le _ _)) by lia. cbn [andb].
  rewrite (go_uint16_at a _ ch 0 pos Hc) by (done || solve_len). cbn [mbind res_bind].
  rewrite (go_uint16_at (a ++ be_put 2 0) (be_put 2 (3 + lenZ name) ++ [0] ++ be_put 2 (lenZ name) ++ name ++ c) ch (5 + lenZ name) (pos + 2))
    by (rewrite ?Hc; first [split_buf | (rewrite length_app, length_be_put; lia) | solve_len]).
  cbn [mbind res_bind Z.eqb]. rewrite (proj2 (Z.ltb_ge _ 5)), (proj2 (Z.ltb_ge _ _)) by lia. cbn [orb].
  rewrite (go_uint16_at (a ++ be_put 2 0 ++ be_put 2 (5 + lenZ name) ++ be_put 2 (3 + lenZ name) ++ [0]) (name ++ c) ch (lenZ name) (pos + 4 + 3))
    by (rewrite ?Hc; first [split_buf | (rewrite !length_app, !length_be_put; cbn [length]; lia) | solve_len]).
  cbn [mbind res_bind]. rewrite (proj2 (Z.ltb_ge _ _)) by lia.
  apply (go_slice_at (a ++ be_put 2 0 ++ be_put 2 (5 + lenZ name) ++ be_put 2 (3 + lenZ name) ++ [0] ++ be_put 2 (lenZ name)) name c);
    [rewrite Hc; split_buf|rewrite !length_app, !length_be_put; cbn [length]; lia|lia].
Qed.

Lemma sni_loop_put l : forall fuel ch a name c pos fin,
  ch = a ++ put_exts l ++ put_ext (server_name name) ++ c -> Forall ext_ok l -> pos = lenZ a ->
  pos + lenZ (put_exts l) + lenZ (put_ext (server_name name)) <= fin -> lenZ name + 5 < 2 ^ 16 ->
  (length l < fuel)%nat -> sni_loop fuel ch pos fin = Ok name.
Proof.
  induction l as [|e l IH]; intros fuel ch a name c pos fin Hch Hok Hp Hf Hn Hfuel;
    (destruct fuel as [|fuel]; [lia|]); pose proof (length_put_ext (server_name name)).
  - apply (sni_loop_name fuel ch a name c); [done|done|cbn in Hf; lia|done].
  - apply Forall_cons in Hok as [He Hok]. cbn [put_exts fmap list_fmap concat] in Hch, Hf. fold (put_exts l) in Hch, Hf.
    rewrite length_app, Nat2Z.inj_add in Hf. pose proof (length_put_ext e).
    rewrite (sni_loop_skip fuel ch a e (put_exts l ++ put_ext (server_name name) ++ c));
      [|rewrite Hch; split_buf|done|done|lia].
    cbn [length] in Hfuel.
    apply (IH fuel ch (a ++ put_ext e) name c); [rewrite Hch; split_buf|done| |lia|done|lia].
    rewrite length_app. lia.
Qed.

Lemma put_exts_count l : (length l <= length (put_exts l))%nat.
Proof.
  induction l as [|e l IH]; [done|]. cbn [put_exts fmap list_fmap concat length]. fold (put_exts l).
  rewrite length_app. pose proof (length_put_ext e). lia.
Qed.

Lemma sni_of_hello_put h : hello_ok h -> sni_of_hello (hello_body h) = Ok (h_name h).
Proof.
  intros [Hv Hl Hr Hcs Hel Hb]. unfold sni_of_hello, hello_body.
  set (tail := put_exts (h_before h) ++ put_ext (server_name (h_name h)) ++ h_rest h).
  pose proof (length_put_ext (server_name (h_name h))) as Hname. cbn [server_name ext_data] in Hname.
  rewrite !length_app, !length_be_put in Hname. cbn [length] in Hname.
  assert (lenZ tail = lenZ (put_exts (h_before h)) + (9 + lenZ (h_name h)) + lenZ (h_rest h)) as Htail
    by (unfold tail; rewrite !length_app; lia).
  set (ch := hello_head h ++ tail).
  assert (ch = h_random h ++ [lenZ (h_sid h)] ++ h_sid h ++ be_put 2 (lenZ (h_suites h)) ++ h_suites h ++
    [lenZ (h_methods h)] ++ h_methods h ++ be_put 2 (h_ext_len h) ++ tail) as Hch
    by (unfold ch, hello_head; split_buf).
  assert (lenZ ch = 40 + lenZ (h_sid h) + lenZ (h_suites h) + lenZ (h_methods h) + lenZ tail) as Hlen
    by (rewrite Hch, !length_app, !length_be_put; cbn [length]; lia).
  rewrite (proj2 (Z.leb_gt _ _)) by lia.
  assert (go_index ch 34 = Ok (lenZ (h_sid h))) as -> by (rewrite Hch; apply go_index_app; lia).
  cbn [mbind res_bind]. rewrite (proj2 (Z.ltb_ge _ _)) by lia.
  rewrite (go_uint16_at (h_random h ++ [lenZ (h_sid h)] ++ h_sid h)
      (h_suites h ++ [lenZ (h_methods h)] ++ h_methods h ++ be_put 2 (h_ext_len h) ++ tail) ch (lenZ (h_suites h)) (34 + 1 + lenZ (h_sid h)))
    by (rewrite ?Hch; first [split_buf | (rewrite !length_app; cbn [length]; lia) | solve_len]).
  cbn [mbind res_bind]. rewrite (proj2 (Z.leb_gt _ _)) by lia.
  assert (go_index ch (34 + 1 + lenZ (h_sid h) + 2 + lenZ (h_suites h)) = Ok (lenZ (h_methods h))) as ->.
  { apply (go_index_at (h_random h ++ [lenZ (h_sid h)] ++ h_sid h ++ be_put 2 (lenZ (h_suites h)) ++ h_suites h)
      (h_methods h ++ be_put 2 (h_ext_len h) ++ tail)); [rewrite Hch; split_buf|].
    rewrite !length_app, length_be_put. cbn [length]. lia. }
  cbn [mbind res_bind]. rewrite (proj2 (Z.ltb_ge _ _)) by lia.
  rewrite (go_uint16_at (h_random h ++ [lenZ (h_sid h)] ++ h_sid h ++ be_put 2 (lenZ (h_suites h)) ++ h_suites h ++ [lenZ (h_methods h)] ++ h_methods h)
      tail ch (h_ext_len h) (34 + 1 + lenZ (h_sid h) + 2 + lenZ (h_suites h) + 1 + lenZ (h_methods h)))
    by (rewrite ?Hch; first [split_buf | (rewrite !length_app, !length_be_put; cbn [length]; lia) | solve_len]).
  cbn [mbind res_bind]. pose proof (put_exts_count (h_before h)).
  apply (sni_loop_put (h_before h) _ ch (hello_head h) (h_name h) (h_rest h)); [done|done| | |lia|].
  - unfold hello_head. rewrite !length_app, !length_be_put. cbn [length]. lia.
  - lia.
  - lia.
Qed.

(** A control node reads the server name of any well-formed ClientHello, also when the
    handshake is cut right after it or goes on with any bytes, and whatever session id,
    cipher suites or earlier extensions it has. *)
Theorem extractSNI_put h : hello_ok h -> extractSNI (put_hello h) = Ok (h_name h).
Proof. intros Hok. unfold extractSNI. rewrite client_hello_put by done. cbn [mbind res_bind]. by apply sni_of_hello_put. Qed.

(** The channel byte of a session id, and the two bytes the client writes over the one its
    TLS library made up (src/snc/core/tls.go). *)
Definition channel_of (sid : bytes) : option Z :=
  match sid with m :: c :: _ => if m =? chMagic then Some c else None | _ => None end.
Definition mark_sid (channelType : Z) (sid : bytes) : bytes :=
  match sid with _ :: _ :: rest => chMagic :: channelType :: rest | _ => sid end.

(** The channel is read back, and no hello is taken for a marked one unless its session id
    begins with the magic byte. *)
Lemma extractChannel_put h :
  hello_ok h -> lenZ (h_sid h) < 256 -> extractChannel (put_hello h) = Ok (channel_of (h_sid h)).
Proof.
  intros Hok Hsid.
  unfold extractChannel. rewrite client_hello_put by done. cbn [mbind res_bind]. destruct Hok as [Hv Hl Hr Hcs Hel Hb].
  set (rest := be_put 2 (lenZ (h_suites h)) ++ h_suites h ++ [lenZ (h_methods h)] ++ h_methods h ++
    be_put 2 (h_ext_len h) ++ put_exts (h_before h) ++ put_ext (server_name (h_name h)) ++ h_rest h).
  assert (hello_body h = h_random h ++ [lenZ (h_sid h)] ++ h_sid h ++ rest) as ->
    by (unfold hello_body, hello_head, rest; split_buf).
  rewrite (proj2 (Z.leb_gt _ _)) by (rewrite !length_app; cbn [length]; lia).
  rewrite (go_index_at (h_random h) (h_sid h ++ rest) _ (lenZ (h_sid h)) 34) by (done || lia). cbn [mbind res_bind].
  destruct (h_sid h) as [|m [|c sid]]; [done|done|]. cbn [length].
  rewrite (proj2 (Z.ltb_ge _ 2)), (proj2 (Z.ltb_ge _ _)) by (rewrite ?length_app; cbn [length]; lia). cbn [orb].
  rewrite (go_index_at (h_random h ++ [lenZ (m :: c :: sid)]) (c :: sid ++ rest) _ m 35)
    by first [split_buf | (rewrite length_app; cbn [length]; lia)].
  cbn [mbind res_bind channel_of]. destruct (m =? chMagic); [|done]. cbn [negb].
  rewrite (go_index_at (h_random h ++ [lenZ (m :: c :: sid); m]) (sid ++ rest) _ c 36)
    by first [split_buf | (rewrite length_app; cbn [length]; lia)].
  done.
Qed.

(** ** The Android client's reader *)

Module Android.

Fixpoint name_loop (fuel : nat) (l : bytes) : res (option gostring) :=
  match fuel with
  | O => Err "out of fuel"
  | S fuel =>
      if 3 <=? lenZ l then
        nameType ← go_index l 0;
        nameLen ← go_uint 2 l 1;
        l ← go_slice l 3 (lenZ l);
        if lenZ l <? nameLen then Ok (Some [])
        else if nameType =? 0 then name ← go_slice l 0 nameLen; Ok (Some name)
        else l ← go_slice l nameLen (lenZ l); name_loop fuel l
      else Ok None
  end.

(** [None] in [name_loop]: the list named no host, the outer loop goes on. *)
Fixpoint ext_loop (fuel : nat) (exts : bytes) : res gostring :=
  match fuel with
  | O => Err "out of fuel"
  | S fuel =>
      if 4 <=? lenZ exts then
        extType ← go_uint 2 exts 0;
        n ← go_uint 2 exts 2;
        exts ← go_slice exts 4 (lenZ exts);
        if lenZ exts <? n then Ok []
        else
          payload ← go_slice exts 0 n;
          exts ← go_slice exts n (lenZ exts);
          if negb (extType =? 0) then ext_loop fuel exts
          else if lenZ payload <? 2 then Ok []
          else
            names ← go_slice payload 2 (lenZ payload);
            o ← name_loop (S (length names)) names;
            match o with Some name => Ok name | None => ext_loop fuel exts end
      else Ok []
  end.

(** Skips a field whose length takes [n] bytes; [None] when the bytes run out. *)
Definition skip_field (n : Z) (body : bytes) : res (option bytes) :=
  if lenZ body <? n then Ok None
  else
    len ← (if n =? 1 then go_index body 0 else go_uint n body 0);
    body ← go_slice body n (lenZ body);
    if lenZ body <? len then Ok None else body ← go_slice body len (lenZ body); Ok (Some body).

Definition parse (data : bytes) : res gostring :=
  if lenZ data <? 5 then Ok []
  else
    b0 ← go_index data 0;
    if negb (b0 =? 0x16) then Ok []
    else
      recLen ← go_uint 2 data 3;
      let fin := if lenZ data <? 5 + recLen then lenZ data else 5 + recLen in
      body ← go_slice data 5 fin;
      if lenZ body <? 4 then Ok []
      else
        h0 ← go_index body 0;
        if negb (h0 =? 0x01) then Ok []
        else
          body ← go_slice body 4 (lenZ body);
          if lenZ body <? 34 then Ok []
          else
            body ← go_slice body 34 (lenZ body);
            o ← skip_field 1 body;
            match o with None => Ok [] | Some body =>
            o ← skip_field 2 body;
            match o with None => Ok [] | Some body =>
            o ← skip_field 1 body;
            match o with None => Ok [] | Some body =>
            if lenZ body <? 2 then Ok []
            else
              extLen ← go_uint 2 body 0;
              body ← go_slice body 2 (lenZ body);
              exts ← go_slice body 0 (if lenZ body <? extLen then lenZ body else extLen);
              ext_loop (S (length exts)) exts
            end end end.

(** The deferred recover turns a panic into the empty name. *)
Definition extractSNI_android (data : bytes) : res gostring := match parse data with Panic => Ok [] | r => r end.

(** *** It finds what the control node finds *)

Lemma skip_field_put n (len_bytes field rest : bytes) :
  (n = 1 /\ len_bytes = [lenZ field]) \/ (n = 2 /\ len_bytes = be_put 2 (lenZ field) /\ lenZ field < 2 ^ 16) ->
  skip_field n (len_bytes ++ field ++ rest) = Ok (Some rest).
Proof.
  intros H. unfold skip_field.
  assert (lenZ len_bytes = n) as Hn by (destruct H as [[-> ->]|(-> & -> & _)]; rewrite ?length_be_put; done).
  assert ((if n =? 1 then go_index (len_bytes ++ field ++ rest) 0 else go_uint n (len_bytes ++ field ++ rest) 0)
    = Ok (lenZ field)) as E.
  { destruct H as [[-> ->]|(-> & -> & Hb)]; [done|]. cbn [Z.eqb Pos.eqb].
    apply (go_uint16_at [] (field ++ rest)); [done|done|lia]. }
  rewrite (proj2 (Z.ltb_ge _ _)) by (rewrite !length_app; lia). rewrite E. cbn [mbind res_bind].
  rewrite go_slice_suffix by (done || lia). cbn [mbind res_bind].
  rewrite (proj2 (Z.ltb_ge _ _)) by (rewrite length_app; lia).
  rewrite go_slice_suffix by done. done.
Qed.

Lemma ext_loop_skip fuel e rest : ext_ok e -> ext_loop (S fuel) (put_ext e ++ rest) = ext_loop fuel rest.
Proof.
  intros [Ht Hd]. cbn [ext_loop].
  rewrite (proj2 (Z.leb_le _ _)) by (rewrite length_app, Nat2Z.inj_add, length_put_ext; lia). unfold put_ext.
  rewrite (go_uint16_at [] (be_put 2 (lenZ (ext_data e)) ++ ext_data e ++ rest) _ (ext_type e) 0)
    by first [split_buf | done | lia].
  cbn [mbind res_bind].
  rewrite (go_uint16_at (be_put 2 (ext_type e)) (ext_data e ++ rest) _ (lenZ (ext_data e)) 2)
    by first [split_buf | (rewrite length_be_put; lia) | lia].
  cbn [mbind res_bind].
  replace ((be_put 2 (ext_type e) ++ be_put 2 (lenZ (ext_data e)) ++ ext_data e) ++ rest)
    with ((be_put 2 (ext_type e) ++ be_put 2 (lenZ (ext_data e))) ++ ext_data e ++ rest) by split_buf.
  rewrite go_slice_suffix by (done || (rewrite length_app, !length_be_put; lia)). cbn [mbind res_bind].
  rewrite (proj2 (Z.ltb_ge _ _)) by (rewrite length_app; lia).
  rewrite go_slice_prefix by done. cbn [mbind res_bind]. rewrite go_slice_suffix by done. cbn [mbind res_bind].
  by rewrite (proj2 (Z.eqb_neq _ _)) by lia.
Qed.

Lemma ext_loop_name fuel name rest : lenZ name + 5 < 2 ^ 16 ->
  ext_loop (S fuel) (put_ext (server_name name) ++ rest) = Ok name.
Proof.
  intros Hn. set (payload := be_put 2 (3 + lenZ name) ++ [0] ++ be_put 2 (lenZ name) ++ name).
  assert (lenZ payload = 5 + lenZ name) as Hp by (unfold payload; rewrite !length_app, !length_be_put; cbn [length]; lia).
  replace (put_ext (server_name name) ++ rest) with ((be_put 2 0 ++ be_put 2 (5 + lenZ name)) ++ payload ++ rest)
    by (unfold put_ext, server_name; cbn [ext_type ext_data]; fold payload; rewrite Hp; split_buf).
  cbn [ext_loop]. rewrite (proj2 (Z.leb_le _ _)) by (rewrite !length_app, !length_be_put; lia).
  rewrite (go_uint16_at [] (be_put 2 (5 + lenZ name) ++ payload ++ rest) _ 0 0) by first [split_buf | done | lia].
  cbn [mbind res_bind].
  rewrite (go_uint16_at (be_put 2 0) (payload ++ rest) _ (5 + lenZ name) 2)
    by first [split_buf | (rewrite length_be_put; lia) | lia].
  cbn [mbind res_bind].
  rewrite go_slice_suffix by (done || (rewrite length_app, !length_be_put; lia)). cbn [mbind res_bind].
  rewrite (proj2 (Z.ltb_ge _ _)) by (rewrite length_app; lia).
  rewrite go_slice_prefix by lia. cbn [mbind res_bind]. rewrite go_slice_suffix by (done || lia).
  cbn [mbind res_bind Z.eqb negb]. rewrite (proj2 (Z.ltb_ge _ _)) by lia. unfold payload at 1 2.
  rewrite go_slice_suffix by (done || (rewrite length_be_put; lia)). cbn [mbind res_bind].
  set (names := [0] ++ be_put 2 (lenZ name) ++ name). cbn [name_loop].
  assert (lenZ names = 3 + lenZ name) as Hl by (unfold names; rewrite !length_app, length_be_put; cbn [length]; lia).
  rewrite (proj2 (Z.leb_le _ _)) by lia.
  assert (go_index names 0 = Ok 0) as -> by done. cbn [mbind res_bind].
  rewrite (go_uint16_at [0] name _ (lenZ name) 1) by first [split_buf | done | lia]. cbn [mbind res_bind].
  replace names with (([0] ++ be_put 2 (lenZ name)) ++ name) by (unfold names; split_buf).
  rewrite go_slice_suffix by (done || (rewrite length_app, length_be_put; cbn [length]; lia)).
  cbn [mbind res_bind]. rewrite (proj2 (Z.ltb_ge _ _)) by lia. cbn [Z.eqb].
  rewrite <- (app_nil_r name) at 1. by rewrite go_slice_prefix by done.
Qed.

Lemma ext_loop_put l : forall fuel name rest, Forall ext_ok l -> lenZ name + 5 < 2 ^ 16 -> (length l < fuel)%nat ->
  ext_loop fuel (put_exts l ++ put_ext (server_name name) ++ rest) = Ok name.
Proof.
  induction l as [|e l IH]; intros fuel name rest Hok Hn Hf; (destruct fuel as [|fuel]; [cbn in Hf; lia|]).
  - by apply ext_loop_name.
  - apply Forall_cons in Hok as [He Hok]. cbn [put_exts fmap list_fmap concat length] in *. fold (put_exts l).
    rewrite <- app_assoc, ext_loop_skip by done. apply IH; [done|done|lia].
Qed.

End Android.

(** A slice from inside a buffer that ends after [p] keeps [p]. *)
Lemma go_slice_cut (a p rest : bytes) hi :
  lenZ a + lenZ p <= hi <= lenZ (a ++ p ++ rest) ->
  exists rest', go_slice (a ++ p ++ rest) (lenZ a) hi = Ok (p ++ rest').
Proof.
  rewrite !length_app. intros Hhi. set (k := Z.to_nat (hi - lenZ a - lenZ p)).
  assert (length (take k rest) = k) as Hk by (rewrite length_take; lia).
  exists (take k rest). apply (go_slice_at a (p ++ take k rest) (drop k rest)); [|done|].
  - by rewrite <- app_assoc, take_drop.
  - rewrite length_app, Hk. lia.
Qed.

(** The part of a hello that both readers need, after the handshake header. *)
Definition needed (h : hello) : bytes :=
  hello_head h ++ put_exts (h_before h) ++ put_ext (server_name (h_name h)).

Lemma parse_body h rest : hello_ok h -> lenZ (h_sid h) < 256 -> lenZ (h_methods h) < 256 ->
  let body := needed h ++ rest in
  exists b1 b2 b3 b4 exts, 34 <= lenZ body /\ go_slice body 34 (lenZ body) = Ok b1 /\
    Android.skip_field 1 b1 = Ok (Some b2) /\ Android.skip_field 2 b2 = Ok (Some b3) /\
    Android.skip_field 1 b3 = Ok (Some b4) /\ 2 <= lenZ b4 /\ go_uint 2 b4 0 = Ok (h_ext_len h) /\
    go_slice b4 2 (lenZ b4) = Ok exts /\
    exists e', go_slice exts 0 (if lenZ exts <? h_ext_len h then lenZ exts else h_ext_len h) =
      Ok (put_exts (h_before h) ++ put_ext (server_name (h_name h)) ++ e').
Proof.
  intros [Hv Hl Hr Hcs Hel Hb] Hsid Hm body.
  set (p := put_exts (h_before h) ++ put_ext (server_name (h_name h))).
  set (b4 := be_put 2 (h_ext_len h) ++ p ++ rest).
  set (b3 := [lenZ (h_methods h)] ++ h_methods h ++ b4).
  set (b2 := be_put 2 (lenZ (h_suites h)) ++ h_suites h ++ b3).
  set (b1 := [lenZ (h_sid h)] ++ h_sid h ++ b2).
  assert (body = h_random h ++ b1) as Hbody
    by (unfold body, needed, hello_head, b1, b2, b3, b4, p; split_buf).
  exists b1, b2, b3, b4, (p ++ rest).
  assert (lenZ p <= h_ext_len h) as Hp by (unfold p; rewrite length_app; lia).
  rewrite Hbody. split; [rewrite length_app; lia|]. split; [apply go_slice_suffix; lia || done|].
  split; [apply Android.skip_field_put; by left|]. split; [apply Android.skip_field_put; by right|].
  split; [apply Android.skip_field_put; by left|].
  split; [unfold b4; rewrite length_app, length_be_put; lia|].
  split; [apply (go_uint16_at [] (p ++ rest)); [done|done|lia]|].
  split; [apply go_slice_suffix; [by rewrite length_be_put|done]|].
  destruct (go_slice_cut [] p rest (if lenZ (p ++ rest) <? h_ext_len h then lenZ (p ++ rest) else h_ext_len h)) as [e' He'].
  { cbn [app length]. destruct (Z.ltb_spec (lenZ (p ++ rest)) (h_ext_len h)); rewrite ?length_app in *; lia. }
  exists e'. change (lenZ []) with 0 in He'. cbn [app] in He'. rewrite He'. unfold p. by rewrite <- app_assoc.
Qed.

(** C35: The two readers agree: on a well-formed hello whose record length covers the server
    name, the control node and the Android client both read that name, whatever follows
    it and wherever the read was cut after it. *)
Theorem sni_readers_agree h v recLen :
  hello_ok h -> lenZ (h_sid h) < 256 -> lenZ (h_methods h) < 256 ->
  h_version h = v ++ be_put 2 recLen -> 4 + lenZ (needed h) <= recLen < 2 ^ 16 ->
  extractSNI (put_hello h) = Ok (h_name h) /\ Android.extractSNI_android (put_hello h) = Ok (h_name h).
Proof.
  intros Hok Hsid Hm Hver Hrec. split.
  { unfold extractSNI. rewrite client_hello_put by done. by apply sni_of_hello_put. }
  pose proof Hok as [Hv Hl Hr Hcs Hel Hb].
  assert (length v = 2%nat) as Hv2 by (rewrite Hver, length_app, length_be_put in Hv; lia).
  set (a := [0x16] ++ h_version h). set (p := [0x01] ++ h_hs_len h ++ needed h).
  assert (put_hello h = a ++ p ++ h_rest h) as Hput
    by (unfold put_hello, hello_body, a, p, needed; split_buf).
  assert (lenZ a = 5) as Ha by (unfold a; rewrite length_app; cbn [length]; lia).
  assert (lenZ p = 4 + lenZ (needed h)) as Hp by (unfold p; rewrite !length_app; cbn [length]; lia).
  unfold Android.extractSNI_android. enough (Android.parse (put_hello h) = Ok (h_name h)) as -> by done.
  rewrite Hput. set (data := a ++ p ++ h_rest h).
  assert (lenZ data = 5 + lenZ p + lenZ (h_rest h)) as Hdata by (unfold data; rewrite !length_app; lia).
  unfold Android.parse. rewrite (proj2 (Z.ltb_ge _ _)) by lia.
  assert (go_index data 0 = Ok 0x16) as ->.
  { apply (go_index_at [] (h_version h ++ p ++ h_rest h)); [unfold data, a; split_buf|done]. }
  cbn [mbind res_bind Z.eqb Pos.eqb negb].
  rewrite (go_uint16_at ([0x16] ++ v) (p ++ h_rest h) data recLen 3);
    [|unfold data, a; rewrite Hver; split_buf|rewrite length_app; cbn [length]; lia|lia].
  cbn [mbind res_bind].
  destruct (go_slice_cut a p (h_rest h) (if lenZ data <? 5 + recLen then lenZ data else 5 + recLen)) as [rest Hs].
  { fold data. destruct (Z.ltb_spec (lenZ data) (5 + recLen)); lia. }
  rewrite Ha in Hs. fold data in Hs. rewrite Hs. cbn [mbind res_bind].
  rewrite (proj2 (Z.ltb_ge _ _)) by (rewrite length_app; lia).
  assert (go_index (p ++ rest) 0 = Ok 0x01) as -> by done. cbn [mbind res_bind Z.eqb Pos.eqb negb].
  replace (p ++ rest) with (([0x01] ++ h_hs_len h) ++ needed h ++ rest) by (unfold p; split_buf).
  rewrite go_slice_suffix by (done || (rewrite length_app; cbn [length]; lia)). cbn [mbind res_bind].
  destruct (parse_body h rest Hok Hsid Hm) as (b1 & b2 & b3 & b4 & exts & H34 & E1 & E2 & E3 & E4 & H2 & E5 & E6 & e' & E7).
  rewrite (proj2 (Z.ltb_ge _ _)) by lia. rewrite E1. cbn [mbind res_bind]. rewrite E2. cbn [mbind res_bind].
  rewrite E3. cbn [mbind res_bind]. rewrite E4. cbn [mbind res_bind]. rewrite (proj2 (Z.ltb_ge _ _)) by lia.
  rewrite E5. cbn [mbind res_bind]. rewrite E6. cbn [mbind res_bind]. rewrite E7. cbn [mbind res_bind].
  pose proof (length_put_ext (server_name (h_name h))) as Hn. cbn [server_name ext_data] in Hn.
  rewrite !length_app, !length_be_put in Hn. cbn [length] in Hn.
  apply Android.ext_loop_put; [done|lia|]. pose proof (put_exts_count (h_before h)). rewrite length_app. lia.
Qed.

(** A hello with one extension before the name, cut in the middle of the next one. *)
Definition demo_hello : hello :=
  MkHello ([3; 1] ++ be_put 2 300) [0; 1; 40] (replicate 34 9) (mark_sid 1 (replicate 32 7)) [19; 1] [0] 200
    [MkExt 43 [2; 3; 4]] (bs "api.cdn-relay.net") [0; 10; 0].
Lemma demo_hello_ok : hello_ok demo_hello.
Proof. split; try (vm_compute; (done || (split; discriminate))). repeat constructor; done. Qed.

Lemma extractSNI_put_witness : extractSNI (put_hello demo_hello) = Ok (bs "api.cdn-relay.net").
Proof. apply (extractSNI_put demo_hello), demo_hello_ok. Defined.
Lemma sni_readers_agree_witness :
  extractSNI (put_hello demo_hello) = Ok (bs "api.cdn-relay.net") /\
  Android.extractSNI_android (put_hello demo_hello) = Ok (bs "api.cdn-relay.net").
Proof.
  apply (sni_readers_agree demo_hello [3; 1] 300 demo_hello_ok);
    [vm_compute; reflexivity..|vm_compute; split; [discriminate|reflexivity]].
Defined.

End Hello.
