(* ===== verification/ControlProxy.v ===== *)
(** * snc-control: connections and datagrams of clients

    The TCP proxy (handler.go): what a new connection is, where it goes, and the table of
    connections to exits. The shared UDP socket (quic_demux.go, udp_reflector.go): which
    datagrams are QUIC, DHT or reflection requests, the per-address limit, and the client's
    side of a reflection (src/snc/core/nat.go). A connection is a number, a critical section
    is one step. *)

From stdpp Require Import base list gmap strings fin_maps fin_sets.
From Stdlib Require Import ZArith Lia.
From S2P Require Import Prelude GoLib GoFloat DhtTable DhtWire TlsHello ControlExits ControlPick.

Module Proxy.
Import Exits.

(** ** Routing a connection *)

Definition relayAPISNIPool : list gostring :=
  [bs "ctrl.cdn-assets.net"; bs "api.cdn-relay.net"; bs "mgmt.edge-static.net"; bs "admin.cdn-cache.net"; bs "svc.static-assets.net"].
Definition signalSNIPool : list gostring :=
  [bs "push.cdn-assets.net"; bs "ws.cdn-relay.net"; bs "live.edge-static.net"; bs "stream.cdn-cache.net"; bs "feed.static-assets.net"].
Definition natRelaySNIPool : list gostring :=
  [bs "edge.cdn-assets.net"; bs "relay.cdn-relay.net"; bs "proxy.edge-static.net"; bs "gateway.cdn-cache.net"; bs "forward.static-assets.net"].

(** Connection categories; [Other] is the empty string. *)
Inductive conn_type := Relay | Signal | Nat_ | Other.
#[export] Instance conn_type_eq_dec : EqDecision conn_type.
Proof. solve_decision. Defined.

(** The table [sniType] after [init]: later pools overwrite earlier ones. *)
Definition sniType : gmap gostring conn_type :=
  let fill t m l := foldl (fun m s => <[s := t]> m) m l in
  fill Nat_ (fill Signal (fill Relay ∅ relayAPISNIPool) signalSNIPool) natRelaySNIPool.

Definition connType (peeked : bytes) : res conn_type :=
  c ← Hello.extractChannel peeked;
  match c with
  | Some 1 => Ok Relay
  | Some 2 => Ok Signal
  | Some 3 => Ok Nat_
  | Some _ => Ok Other
  | None => sni ← Hello.extractSNI peeked; Ok (default Other (sniType !! sni))
  end.

(** [handle] on a connection whose client sends [stream], of which [avail] bytes are there when
    it makes its one read into a buffer of 512 bytes; [read_err]: that read also gave an error;
    [relay_ready]: the API handler and its TLS configuration exist. *)
Inductive action := CloseConn | ServeRelayAPI | ProxyToExit.
Definition peek_size : nat := 512.
Definition handle (stream : bytes) (avail : nat) (read_err relay_ready : bool) : res action :=
  let peeked := take (Nat.min peek_size avail) stream in
  if read_err && bool_decide (peeked = []) then Ok CloseConn
  else
    t ← connType peeked;
    Ok (match t with Relay => if relay_ready then ServeRelayAPI else ProxyToExit | _ => ProxyToExit end).

(** ** prependConn: the peeked bytes are read again *)

Record prependConn := MkPrepend { pc_buf : bytes; pc_pos : nat }.

(** A read of at most [size] bytes; the connection would give [avail] of its [stream]. *)
Definition pc_Read (size avail : nat) (c : prependConn) (stream : bytes) : bytes * prependConn * bytes :=
  if (pc_pos c <? length (pc_buf c))%nat then
    let out := take size (drop (pc_pos c) (pc_buf c)) in
    (out, MkPrepend (pc_buf c) (pc_pos c + length out), stream)
  else let k := Nat.min size avail in (take k stream, c, drop k stream).

Fixpoint pc_reads (rs : list (nat * nat)) (c : prependConn) (stream : bytes) : bytes * prependConn * bytes :=
  match rs with
  | [] => ([], c, stream)
  | (size, avail) :: rs =>
      let '(out, c, stream) := pc_Read size avail c stream in
      let '(outs, c, stream) := pc_reads rs c stream in (out ++ outs, c, stream)
  end.

(** No byte of a client is lost or repeated by the peek: what the proxy reads after it,
    in reads of any sizes, followed by what it has not read yet, is the peeked prefix
    followed by the rest of the stream. *)
Theorem peek_is_transparent peeked rs stream :
  let '(out, c, rest) := pc_reads rs (MkPrepend peeked 0) stream in
  out ++ drop (pc_pos c) (pc_buf c) ++ rest = peeked ++ stream.
Proof.
  enough (forall c, let '(out, c', rest) := pc_reads rs c stream in
    out ++ drop (pc_pos c') (pc_buf c') ++ rest = drop (pc_pos c) (pc_buf c) ++ stream) as H by apply H.
  revert stream. induction rs as [|[size avail] rs IH]; intros stream c; cbn [pc_reads]; [done|].
  unfold pc_Read. destruct (Nat.ltb_spec (pc_pos c) (length (pc_buf c))) as [Hlt|Hge].
  - set (out := take size (drop (pc_pos c) (pc_buf c))).
    specialize (IH stream (MkPrepend (pc_buf c) (pc_pos c + length out))).
    destruct (pc_reads rs _ stream) as [[outs c'] rest]. cbn [pc_pos pc_buf] in *.
    rewrite <- app_assoc, IH. rewrite <- drop_drop, app_assoc. f_equal. unfold out.
    rewrite length_take. destruct (Nat.le_gt_cases (length (drop (pc_pos c) (pc_buf c))) size).
    + rewrite Nat.min_r by done. rewrite take_ge by done. by rewrite drop_all, app_nil_r.
    + rewrite Nat.min_l by lia. apply take_drop.
  - specialize (IH (drop (Nat.min size avail) stream) c).
    destruct (pc_reads rs c _) as [[outs c'] rest]. rewrite <- app_assoc, IH.
    rewrite (drop_ge (pc_buf c)) by done. cbn [app]. apply take_drop.
Qed.

(** ** Where clients go *)

Lemma fill_lookup t l : forall (m : gmap gostring conn_type) k,
  foldl (fun m s => <[s := t]> m) m l !! k = if decide (k ∈ l) then Some t else m !! k.
Proof.
  induction l as [|x l IH]; intros m k; cbn [foldl].
  { rewrite decide_False; [done|]. apply not_elem_of_nil. }
  rewrite IH. destruct (decide (k ∈ l)).
  - rewrite decide_True; [done|]. by apply list_elem_of_further.
  - destruct (decide (k = x)) as [->|Hne].
    + rewrite lookup_insert_eq, decide_True; [done|]. apply list_elem_of_here.
    + rewrite lookup_insert_ne, decide_False; [done| |done]. rewrite elem_of_cons. naive_solver.
Qed.

Lemma sniType_relay sni : default Other (sniType !! sni) = Relay <-> sni ∈ relayAPISNIPool.
Proof.
  assert (forall s, s ∈ natRelaySNIPool ++ signalSNIPool -> s ∉ relayAPISNIPool) as Hdis.
  { apply Forall_forall. refine (bool_decide_unpack _ _). vm_compute. exact I. }
  unfold sniType. cbn zeta. rewrite !fill_lookup, lookup_empty.
  destruct (decide (sni ∈ natRelaySNIPool)) as [H|_]; [split; [done|]; intros Hr; destruct (Hdis sni); [apply elem_of_app; auto|done]|].
  destruct (decide (sni ∈ signalSNIPool)) as [H|_]; [split; [done|]; intros Hr; destruct (Hdis sni); [apply elem_of_app; auto|done]|].
  by case_decide.
Qed.

(** A hello cut at [n], after its server name. *)
Definition cut_hello (n : nat) (h : Hello.hello) : Hello.hello :=
  Hello.MkHello (Hello.h_version h) (Hello.h_hs_len h) (Hello.h_random h) (Hello.h_sid h) (Hello.h_suites h) (Hello.h_methods h)
    (Hello.h_ext_len h) (Hello.h_before h) (Hello.h_name h) (take (n - (9 + length (Hello.needed h))) (Hello.h_rest h)).

Lemma take_hello n h : Hello.hello_ok h -> (9 + length (Hello.needed h) <= n)%nat ->
  take n (Hello.put_hello h) = Hello.put_hello (cut_hello n h).
Proof.
  intros [Hv Hl _ _ _ _] Hn.
  assert (forall r, Hello.put_hello (Hello.MkHello (Hello.h_version h) (Hello.h_hs_len h) (Hello.h_random h) (Hello.h_sid h)
    (Hello.h_suites h) (Hello.h_methods h) (Hello.h_ext_len h) (Hello.h_before h) (Hello.h_name h) r)
    = ([0x16] ++ Hello.h_version h ++ [0x01] ++ Hello.h_hs_len h ++ Hello.needed h) ++ r) as Hput.
  { intros r. unfold Hello.put_hello, Hello.hello_body, Hello.needed, Hello.hello_head. split_buf. }
  assert (length ([0x16] ++ Hello.h_version h ++ [0x01] ++ Hello.h_hs_len h ++ Hello.needed h) = (9 + length (Hello.needed h))%nat) as Hlen.
  { rewrite !length_app. cbn [length]. lia. }
  pose proof (Hput (Hello.h_rest h)) as E. unfold cut_hello. rewrite Hput.
  destruct h. cbn [Hello.h_version Hello.h_hs_len Hello.h_random Hello.h_sid Hello.h_suites Hello.h_methods Hello.h_ext_len
    Hello.h_before Hello.h_name Hello.h_rest] in *. rewrite E, take_app, Hlen, take_ge by lia. done.
Qed.

(** C30: Where the control node sends a connection, on a well-formed hello of which the one
    read (at most 512 bytes, and whatever has arrived) gets at least the part up to and with
    the server name. A client that marks its session id is routed by the mark alone: channel 1
    reaches the relay API, every other channel the exits. One that does not is routed by its
    server name: the API's names reach the API, every other name the exits. Without the
    API's handler or TLS configuration all go to the exits. *)
Theorem routing h avail read_err relay_ready :
  Hello.hello_ok h -> lenZ (Hello.h_sid h) < 256 ->
  (9 + length (Hello.needed h) <= Nat.min peek_size avail)%nat ->
  handle (Hello.put_hello h) avail read_err relay_ready =
    Ok (if relay_ready && match Hello.channel_of (Hello.h_sid h) with
                          | Some c => c =? 1
                          | None => bool_decide (Hello.h_name h ∈ relayAPISNIPool)
                          end
        then ServeRelayAPI else ProxyToExit).
Proof.
  intros Hok Hsid Hlen. unfold handle. cbv zeta. rewrite take_hello by done.
  assert (Hello.hello_ok (cut_hello (Nat.min peek_size avail) h)) as Hok' by (by destruct Hok).
  rewrite andb_comm. change (bool_decide (Hello.put_hello _ = [])) with false. cbn [andb]. unfold connType.
  rewrite Hello.extractChannel_put by done. cbn [mbind res_bind Hello.h_sid cut_hello].
  destruct (Hello.channel_of (Hello.h_sid h)) as [c|].
  - destruct (Z.eqb_spec c 1) as [->|Hc]; [by destruct relay_ready|]. rewrite andb_false_r. destruct c as [|c|c]; [done| |done].
    destruct c as [[c|c|]|[c|c|]|]; done.
  - rewrite Hello.extractSNI_put by done. cbn [mbind res_bind Hello.h_name cut_hello].
    pose proof (sniType_relay (Hello.h_name h)) as Hs. revert Hs.
    generalize (default Other (sniType !! Hello.h_name h)). intros t Hs. case_bool_decide as Hin.
    + rewrite (proj2 Hs Hin). by destruct relay_ready.
    + rewrite andb_false_r. destruct t; try done. destruct Hin. by apply Hs.
Qed.

(** The hello of an API client, and the same hello without the mark. *)
Lemma routing_witness :
  handle (Hello.put_hello Hello.demo_hello) 400 false true = Ok ServeRelayAPI.
Proof. rewrite (routing Hello.demo_hello 400 false true Hello.demo_hello_ok); vm_compute; (reflexivity || lia). Defined.

(** The hello of an API client that does not mark its session id, with an extension of 450
    bytes (a key share, padding) before the server name. *)
Definition late_hello : Hello.hello :=
  Hello.MkHello [3; 1; 2; 60] [0; 2; 56] (replicate 34 9) (replicate 32 7) [19; 1] [0] 481
    [Hello.MkExt 51 (replicate 450 5)] (bs "api.cdn-relay.net") [].
(** A server name that lies beyond byte 512, or in a later segment, is not seen, although the
    comment promises enough for any hello: the API client is sent to an exit. *)
Theorem late_name_goes_to_exit :
  Hello.hello_ok late_hello /\ Hello.h_name late_hello ∈ relayAPISNIPool
  /\ handle (Hello.put_hello late_hello) (length (Hello.put_hello late_hello)) false true = Ok ProxyToExit
  /\ Hello.extractSNI (Hello.put_hello late_hello) = Ok (bs "api.cdn-relay.net").
Proof.
  split_and!; [|by apply (bool_decide_unpack _)|vm_compute; reflexivity..].
  split; try (vm_compute; (done || (split; discriminate))). repeat constructor; done.
Qed.

(** ** Connections to exits

    [running] lists the calls of [proxyToExit] that are past their dial, with the address,
    the id and the connection each holds; [open] the connections not closed. *)

Record tcpProxy := MkProxy {
  active : gmap gostring (gmap Z nat);
  nextID : Z;
  open : gset nat;
  running : list (gostring * Z * nat) }.

Definition newTCPProxy : tcpProxy := MkProxy ∅ 0 ∅ [].

Definition registerExitConn (addr : gostring) (conn : nat) (p : tcpProxy) : Z * tcpProxy :=
  let id := nextID p + 1 in
  (id, MkProxy (<[addr := <[id := conn]> (default ∅ (active p !! addr))]> (active p)) id (open p) (running p)).

(** Deleting from the nil map of an unknown address does nothing. *)
Definition unregisterExitConn (addr : gostring) (id : Z) (p : tcpProxy) : tcpProxy :=
  MkProxy (match active p !! addr with Some m => <[addr := delete id m]> (active p) | None => active p end)
    (nextID p) (open p) (running p).

Definition closeExitConns (addr : gostring) (p : tcpProxy) : tcpProxy :=
  let conns := default ∅ (active p !! addr) in
  MkProxy (delete addr (active p)) (nextID p) (open p ∖ list_to_set (map_to_list conns).*2) (running p).

(** The client's address and country. *)
Definition client_place (lookupCC : option (bytes -> gostring)) (remoteAddr : gostring) : gostring * gostring :=
  match Net.SplitHostPort remoteAddr with
  | Ok (host, _) =>
      (host, match lookupCC with
             | None => []
             | Some f => match Net.ParseIP host with Some ip => f ip | None => [] end
             end)
  | _ => ([], [])
  end.

Section proxy.
Context {U : Unicode} {ED : Ed25519} {EC : ExitsCodec}.

(** [proxyToExit] up to the copying: an exit is picked and dialled ([dial] gives the
    connection and the time it took), the connection registered and its RTT noted. *)
Definition proxy_open (lookupCC : option (bytes -> gostring)) (remoteAddr : gostring)
    (dial : gostring -> option (nat * Z)) (r : ExitRegistry) (p : tcpProxy)
    : res (option (gostring * Z * nat) * ExitRegistry * tcpProxy) :=
  let '(clientIP, clientCC) := client_place lookupCC remoteAddr in
  match PickForClient clientIP clientCC r with
  | Panic => Panic
  | Err _ => Ok (None, r, p)
  | Ok exit =>
      match dial (exitDialAddr (Addr exit)) with
      | None => Ok (None, r, p)
      | Some (conn, d) =>
          let '(id, p) := registerExitConn (Addr exit) conn p in
          r ← RecordDialRTT (Addr exit) d r;
          let s := (Addr exit, id, conn) in
          Ok (Some s, r, MkProxy (active p) (nextID p) ({[conn]} ∪ open p) (s :: running p))
      end
  end.

(** The deferred calls when both copies are done: close the connection, unregister it. *)
Definition proxy_close (s : gostring * Z * nat) (p : tcpProxy) : tcpProxy :=
  let '(addr, id, conn) := s in
  let p := MkProxy (active p) (nextID p) (open p ∖ {[conn]}) (running p) in
  let p := unregisterExitConn addr id p in
  MkProxy (active p) (nextID p) (open p) (List.filter (fun x => negb (bool_decide (x = s))) (running p)).

(** A dial gives a connection that is not in use. *)
Inductive pstep : tcpProxy -> tcpProxy -> Prop :=
| ps_open lookupCC remote dial r p o r' p' :
    (forall a c d, dial a = Some (c, d) -> c ∉ (running p).*2) ->
    proxy_open lookupCC remote dial r p = Ok (o, r', p') -> pstep p p'
| ps_close s p : s ∈ running p -> pstep p (proxy_close s p)
| ps_dead addr p : pstep p (closeExitConns addr p).

Inductive preach : tcpProxy -> Prop :=
| pr_new : preach newTCPProxy
| pr_step p p' : preach p -> pstep p p' -> preach p'.

(** Every running call holds an id and a connection of its own, and while the connection is
    open the table has it under the exit's address. *)
Record proxy_ok (p : tcpProxy) : Prop := {
  pk_ids : NoDup ((fun x : gostring * Z * nat => x.1.2) <$> running p);
  pk_conns : NoDup (running p).*2;
  pk_fresh : forall a id c, (a, id, c) ∈ running p -> id <= nextID p;
  pk_table : forall a id c, (a, id, c) ∈ running p -> c ∈ open p ->
    exists m, active p !! a = Some m /\ m !! id = Some c;
  pk_sound : forall a m id c, active p !! a = Some m -> m !! id = Some c -> (a, id, c) ∈ running p }.

Lemma proxy_open_spec lookupCC remote dial r p o r' p' :
  proxy_open lookupCC remote dial r p = Ok (o, r', p') ->
  p' = p \/ exists a c d, dial (exitDialAddr a) = Some (c, d) /\
    p' = MkProxy (<[a := <[nextID p + 1 := c]> (default ∅ (active p !! a))]> (active p)) (nextID p + 1)
           ({[c]} ∪ open p) ((a, nextID p + 1, c) :: running p).
Proof.
  unfold proxy_open. destruct (client_place lookupCC remote) as [ip cc].
  destruct (PickForClient ip cc r) as [x|m|]; [|intros [= <- <- <-]; by left|done].
  destruct (dial (exitDialAddr (Addr x))) as [[c d]|] eqn:Ed; [|intros [= <- <- <-]; by left].
  unfold registerExitConn. destruct (RecordDialRTT (Addr x) d r) as [r1|m|]; cbn [mbind res_bind]; [|done..].
  intros [= <- <- <-]. right. by exists (Addr x), c, d.
Qed.

Lemma open_ok p a c : proxy_ok p -> c ∉ (running p).*2 ->
  proxy_ok (MkProxy (<[a := <[nextID p + 1 := c]> (default ∅ (active p !! a))]> (active p)) (nextID p + 1)
    ({[c]} ∪ open p) ((a, nextID p + 1, c) :: running p)).
Proof.
  intros [Hids Hconns Hfresh Htable Hsound] Hdial.
  split; cbn [running nextID active open fmap list_fmap fst snd].
  - apply NoDup_cons. split; [|done]. intros ([[b i] e] & Hi & Hin)%list_elem_of_fmap.
    cbn in Hi. specialize (Hfresh _ _ _ Hin). lia.
  - by apply NoDup_cons.
  - intros b i e [[= -> -> ->]|Hin]%elem_of_cons; [done|]. specialize (Hfresh _ _ _ Hin). lia.
  - intros b i e [[= -> -> ->]|Hin]%elem_of_cons Ho.
    { eexists. rewrite lookup_insert_eq. split; [done|]. by rewrite lookup_insert_eq. }
    assert (e <> c) as Hec. { intros ->. apply Hdial. by apply (list_elem_of_fmap_2 snd _ (b, i, c)). }
    destruct (Htable _ _ _ Hin) as (m & Hm & Hi); [set_solver|]. specialize (Hfresh _ _ _ Hin).
    destruct (decide (b = a)) as [->|Hne].
    + eexists. rewrite lookup_insert_eq. split; [done|]. rewrite Hm. cbn. rewrite lookup_insert_ne by lia. done.
    + exists m. by rewrite lookup_insert_ne.
  - intros b m i e Hm Hi. rewrite elem_of_cons. destruct (decide (b = a)) as [->|Hne].
    + rewrite lookup_insert_eq in Hm. injection Hm as <-. destruct (decide (i = nextID p + 1)) as [->|Hi1].
      { rewrite lookup_insert_eq in Hi. injection Hi as ->. by left. }
      rewrite lookup_insert_ne in Hi by done. right.
      destruct (active p !! a) as [m|] eqn:Em; [by apply (Hsound a m)|]. cbn in Hi. by rewrite lookup_empty in Hi.
    + rewrite lookup_insert_ne in Hm by done. right. by apply (Hsound b m).
Qed.

Lemma close_ok p a id c : proxy_ok p -> (a, id, c) ∈ running p -> proxy_ok (proxy_close (a, id, c) p).
Proof.
  intros [Hids Hconns Hfresh Htable Hsound] Hin.
  assert (forall x, x ∈ List.filter (fun x => negb (bool_decide (x = (a, id, c)))) (running p) <->
    x ∈ running p /\ x <> (a, id, c)) as Hf.
  { intros x. rewrite !list_elem_of_In, filter_In, negb_true_iff, bool_decide_eq_false. done. }
  assert (List.filter (fun x => negb (bool_decide (x = (a, id, c)))) (running p) `sublist_of` running p) as Hsub.
  { clear. induction (running p) as [|x l IH]; [done|]. cbn. destruct (negb _); [by apply sublist_skip|by apply sublist_cons]. }
  split; cbn [proxy_close unregisterExitConn running nextID active open].
  - eapply sublist_NoDup; [exact Hids|by apply fmap_sublist].
  - eapply sublist_NoDup; [exact Hconns|by apply fmap_sublist].
  - intros b i e [Hx _]%Hf. by eapply Hfresh.
  - intros b i e [Hx Hne]%Hf Ho. assert (e ∈ open p) as He by set_solver.
    destruct (Htable _ _ _ Hx He) as (m & Hm & Hi).
    assert (i <> id) as Hid.
    { intros ->. apply Hne. by apply (NoDup_fmap_inj (fun x : gostring * Z * nat => x.1.2) (running p)). }
    destruct (decide (b = a)) as [->|Hba].
    + rewrite Hm. eexists. rewrite lookup_insert_eq. split; [done|]. by rewrite lookup_delete_ne.
    + exists m. destruct (active p !! a); [|done]. by rewrite lookup_insert_ne.
  - intros b m i e Hm Hi. apply Hf. destruct (active p !! a) as [ma|] eqn:Ea.
    2:{ split; [by apply (Hsound b m)|]. intros [= -> -> ->]. congruence. }
    destruct (decide (b = a)) as [->|Hba].
    + rewrite lookup_insert_eq in Hm. injection Hm as <-. apply lookup_delete_Some in Hi as [Hii Hi].
      split; [by apply (Hsound a ma)|]. congruence.
    + rewrite lookup_insert_ne in Hm by done. split; [by apply (Hsound b m)|]. congruence.
Qed.

Lemma dead_ok p addr : proxy_ok p -> proxy_ok (closeExitConns addr p).
Proof.
  intros [Hids Hconns Hfresh Htable Hsound].
  split; cbn [closeExitConns running nextID active open]; [done|done|done| |].
  - intros b i e Hx [He Hnot]%elem_of_difference. destruct (Htable _ _ _ Hx He) as (m & Hm & Hi).
    destruct (decide (b = addr)) as [->|Hne]; [|exists m; by rewrite lookup_delete_ne].
    destruct Hnot. rewrite elem_of_list_to_set, Hm. cbn.
    apply (list_elem_of_fmap_2 snd _ (i, e)). by apply elem_of_map_to_list.
  - intros b m i e Hm. apply lookup_delete_Some in Hm as [_ Hm]. by apply Hsound.
Qed.

Lemma pstep_ok p p' : pstep p p' -> proxy_ok p -> proxy_ok p'.
Proof.
  intros [lookupCC remote dial r q o r' q' Hdial Hopen|[[a id] c] q Hin|addr q] Hok.
  - apply proxy_open_spec in Hopen as [->|(a & c & d & Hd & ->)]; [done|]. apply open_ok; [done|by eapply Hdial].
  - by apply close_ok.
  - by apply dead_ok.
Qed.

Lemma proxy_reach_ok p : preach p -> proxy_ok p.
Proof.
  induction 1 as [|p p' _ IH Hs]; [|by eapply pstep_ok].
  split; cbn [newTCPProxy running active fmap list_fmap].
  - apply NoDup_nil_2.
  - apply NoDup_nil_2.
  - intros a id c H. by apply not_elem_of_nil in H.
  - intros a id c H. by apply not_elem_of_nil in H.
  - intros a m id c. by rewrite lookup_empty.
Qed.

(** When an exit is declared dead, every connection running through it is closed at once,
    and no connection through another exit is touched. *)
Theorem dead_exit_conns_closed p addr :
  preach p ->
  (forall id c, (addr, id, c) ∈ running p -> c ∉ open (closeExitConns addr p)) /\
  (forall a id c, a <> addr -> (a, id, c) ∈ running p ->
     (c ∈ open (closeExitConns addr p) <-> c ∈ open p)).
Proof.
  intros [Hids Hconns Hfresh Htable Hsound]%proxy_reach_ok. cbn [closeExitConns open]. split.
  - intros id c Hin [Ho Hnot]%elem_of_difference. destruct (Htable _ _ _ Hin Ho) as (m & Hm & Hi). apply Hnot.
    rewrite elem_of_list_to_set, Hm. cbn. apply (list_elem_of_fmap_2 snd _ (id, c)). by apply elem_of_map_to_list.
  - intros a id c Hne Hin. rewrite elem_of_difference. split; [by intros [? _]|]. intros Ho. split; [done|].
    rewrite elem_of_list_to_set. intros ([i e] & Hc & Hi)%list_elem_of_fmap. cbn in Hc. subst e.
    apply elem_of_map_to_list in Hi. destruct (active p !! addr) as [m|] eqn:Em; [|by cbn in Hi; rewrite lookup_empty in Hi].
    pose proof (Hsound addr m i c Em Hi) as Hin'.
    pose proof (NoDup_fmap_inj snd (running p) _ _ Hconns Hin Hin' eq_refl) as [= -> _]. done.
Qed.

(** A client whose connection goes to an exit gets the best one there is: once the health
    checker runs, the proxy never panics; it drops the client only if no exit is known or
    the dial fails; and the exit it dials works if any exit works and lies outside the
    client's and the control's country if any equally healthy exit does. The connection is
    then in the table under that exit's address. *)
Theorem client_gets_best_exit lookupCC remote dial r p :
  health r <> None ->
  match proxy_open lookupCC remote dial r p with
  | Ok (Some (a, id, c), r', p') =>
      (exists x d, Addr x = a /\ ExitsProps.best_choice r (client_place lookupCC remote).2 x /\
         dial (exitDialAddr a) = Some (c, d) /\ RecordDialRTT a d r = Ok r') /\
      c ∈ open p' /\ exists m, active p' !! a = Some m /\ m !! id = Some c
  | Ok (None, r', p') => r' = r /\ p' = p /\ (exits r = [] \/ exists x, x ∈ exits r /\ dial (exitDialAddr (Addr x)) = None)
  | Err _ | Panic => False
  end.
Proof.
  intros Hh. unfold proxy_open. destruct (client_place lookupCC remote) as [ip cc]. cbn [snd].
  pose proof (ExitsProps.PickForClient_best r ip cc) as Hp.
  destruct (PickForClient ip cc r) as [x|m|]; [|auto|done].
  destruct (dial (exitDialAddr (Addr x))) as [[c d]|] eqn:Ed.
  - unfold registerExitConn.
    assert (exists r1, RecordDialRTT (Addr x) d r = Ok r1) as [r1 E1].
    { unfold RecordDialRTT. destruct (health r) as [h|]; [by eexists|done]. }
    rewrite E1. cbn [mbind res_bind active open]. split; [eauto 10|]. split; [set_solver|].
    eexists. rewrite lookup_insert_eq. split; [done|]. by rewrite lookup_insert_eq.
  - split; [done|]. split; [done|]. right. exists x. split; [apply Hp|done].
Qed.

End proxy.

Section proxy_examples.
#[local] Existing Instance ExitsProps.toy_exits_codec.
#[local] Existing Instance ExitsProps.trusting_ed25519.

Definition toy_dial (_ : gostring) : option (nat * Z) := Some (5%nat, 20 * millisecond).
Definition toy_session : tcpProxy :=
  match proxy_open None (bs "9.9.9.9:1000") toy_dial ExitsProps.toy_watched newTCPProxy with
  | Ok (_, _, p) => p
  | _ => newTCPProxy
  end.

Lemma client_gets_best_exit_witness :
  match proxy_open None (bs "9.9.9.9:1000") toy_dial ExitsProps.toy_watched newTCPProxy with
  | Ok (Some (a, id, c), r', p') => c ∈ open p'
  | _ => False
  end.
Proof.
  pose proof (client_gets_best_exit None (bs "9.9.9.9:1000") toy_dial ExitsProps.toy_watched newTCPProxy) as H.
  destruct (proxy_open _ _ _ _ _) as [[[[[[a id] c]|] r'] p']|m|] eqn:E; [|vm_compute in E; discriminate..].
  apply H. vm_compute. discriminate.
Defined.

Lemma dead_exit_conns_closed_witness :
  (bs "a:443", 1, 5%nat) ∈ running toy_session /\ 5%nat ∉ open (closeExitConns (bs "a:443") toy_session).
Proof.
  assert ((bs "a:443", 1, 5%nat) ∈ running toy_session) as Hin
    by (replace (running toy_session) with [(bs "a:443", 1, 5%nat)] by (vm_compute; reflexivity); apply list_elem_of_here).
  split; [exact Hin|]. apply (dead_exit_conns_closed toy_session (bs "a:443")) with (id := 1); [|exact Hin].
  unfold toy_session.
  destruct (proxy_open None (bs "9.9.9.9:1000") toy_dial ExitsProps.toy_watched newTCPProxy) as [[[o r'] p']|m|] eqn:E;
    [|apply pr_new..].
  eapply pr_step; [apply pr_new|]. eapply ps_open; [|exact E]. intros a c d _. apply not_elem_of_nil.
Defined.
End proxy_examples.

(** ** The shared UDP socket *)

(** *** Which datagrams are QUIC (quic_demux.go) *)

Definition quicCIDLen : Z := 8.
Definition quicCIDTTL : Z := 10 * minute.
Definition quicVersions : list Z := [1; 0x6b3343cf].

Definition looksLikeQUICInitial (pkt : bytes) : res bool :=
  if lenZ pkt <? 5 then Ok false
  else
    b0 ← go_index pkt 0;
    if negb (Z.land b0 0xC0 =? 0xC0) then Ok false
    else version ← go_uint 4 pkt 1; Ok (bool_decide (version ∈ quicVersions)).

(** Connection ids with the time each was made. *)
Abbreviation quicCIDTracker := (gmap bytes Z).
Definition cid_add (cid : bytes) (now : Z) (t : quicCIDTracker) : quicCIDTracker := <[cid := now]> t.
Definition cid_has (cid : bytes) (t : quicCIDTracker) : bool := match t !! cid with Some _ => true | None => false end.
Definition cid_cleanup (now : Z) (t : quicCIDTracker) : quicCIDTracker :=
  filter (fun kv => ~ (kv.2 < now - quicCIDTTL)) t.
Definition classify (t : quicCIDTracker) (pkt : bytes) : res bool :=
  initial ← looksLikeQUICInitial pkt;
  if (initial : bool) then Ok true
  else if lenZ pkt <? 1 + quicCIDLen then Ok false
  else
    b0 ← go_index pkt 0;
    if negb (Z.land b0 0x80 =? 0) then Ok false
    else cid ← go_slice pkt 1 (1 + quicCIDLen); Ok (cid_has cid t).

(** What happens to the tracker: a connection makes an id, or the minute's sweep. *)
Inductive cid_event := CidAdd (cid : bytes) (now : Z) | CidSweep (now : Z).
Definition cid_step (t : quicCIDTracker) (e : cid_event) : quicCIDTracker :=
  match e with CidAdd cid now => cid_add cid now t | CidSweep now => cid_cleanup now t end.

Lemma short_header_classify t b0 cid rest :
  Z.land b0 0x80 = 0 -> lenZ cid = quicCIDLen -> classify t (b0 :: cid ++ rest) = Ok (cid_has cid t).
Proof.
  intros Hb Hc. unfold classify, looksLikeQUICInitial, quicCIDLen in *.
  rewrite (proj2 (Z.ltb_ge _ 5)) by (cbn [length]; rewrite length_app; lia).
  change (b0 :: cid ++ rest) with ([] ++ b0 :: (cid ++ rest)). rewrite go_index_app by done. cbn [mbind res_bind].
  assert (Z.land b0 192 =? 192 = false) as ->.
  { apply Z.eqb_neq. intros H. apply (f_equal (fun z => Z.testbit z 7)) in H, Hb.
    rewrite Z.land_spec in H, Hb. change (Z.testbit 192 7) with true in H. change (Z.testbit 128 7) with true in Hb.
    rewrite Z.bits_0 in Hb. destruct (Z.testbit b0 7); done. }
  cbn [negb mbind res_bind].
  rewrite (proj2 (Z.ltb_ge _ _)) by (cbn [app length]; rewrite length_app; lia).
  cbn [mbind res_bind]. rewrite Hb. cbn [Z.eqb negb].
  rewrite (go_slice_at [b0] cid rest) by (done || (cbn [length]; lia)). done.
Qed.

(** A QUIC connection is cut off by its own age. An id counts as ours for ten minutes from
    the moment it was made, however busy its connection is: traffic never renews it, so
    after the next sweep the packets of a live connection that still uses the id no longer
    reach the QUIC listener. *)
Theorem quic_id_expires_in_use t cid t0 evs now b0 rest :
  lenZ cid = quicCIDLen -> Z.land b0 0x80 = 0 ->
  (forall n, CidAdd cid n ∉ evs) -> t0 + quicCIDTTL < now ->
  let t' := foldl cid_step (cid_add cid t0 t) evs in
  classify (cid_add cid t0 t) (b0 :: cid ++ rest) = Ok true /\
  classify (cid_step t' (CidSweep now)) (b0 :: cid ++ rest) = Ok false.
Proof.
  intros Hc Hb Hno Hnow. cbn zeta. rewrite !short_header_classify by done. split.
  { unfold cid_has, cid_add. by rewrite lookup_insert_eq. }
  assert (forall n, foldl cid_step (cid_add cid t0 t) evs !! cid = Some n -> n = t0) as Hold.
  { assert (forall n, cid_add cid t0 t !! cid = Some n -> n = t0) as H0.
    { intros n. unfold cid_add. rewrite lookup_insert_eq. congruence. }
    revert H0. generalize (cid_add cid t0 t). induction evs as [|e evs IH]; intros q Hq; [done|]. cbn [foldl].
    apply IH; [intros n Hn; apply (Hno n); by apply list_elem_of_further|].
    intros n. destruct e as [cid' n'|n']; cbn [cid_step].
    - unfold cid_add. rewrite lookup_insert_ne; [apply Hq|]. intros ->. apply (Hno n'), list_elem_of_here.
    - unfold cid_cleanup. intros [H _]%map_lookup_filter_Some. by apply Hq. }
  unfold cid_has. destruct (cid_step _ (CidSweep now) !! cid) as [n|] eqn:E; [|done]. cbn [cid_step] in E.
  unfold cid_cleanup in E. apply map_lookup_filter_Some in E as [H Hn]. apply Hold in H. cbn in Hn. subst n.
  exfalso. apply Hn. lia.
Qed.

Lemma quic_id_expires_in_use_witness :
  classify (cid_step (cid_add (replicate 8 1) 0 ∅) (CidSweep hour)) (0x40 :: replicate 8 1 ++ []) = Ok false.
Proof.
  apply (quic_id_expires_in_use ∅ (replicate 8 1) 0 [] hour 0x40 []); [reflexivity|reflexivity| |reflexivity].
  intros n. apply not_elem_of_nil.
Defined.

(** *** The limit per source address (udp_reflector.go) *)

Definition udpRLWindow : Z := second.
Definition udpRLMax : Z := 50.
Definition udpRLWarnEvery : Z := 30 * second.

(** [b_warnedAt] is [None] for the zero time. *)
Record ipBucket := MkBucket { b_count : Z; b_windowStart : Z; b_warnedAt : option Z }.
Abbreviation ipRateLimiter := (gmap gostring ipBucket).

Definition rl_cleanup (now : Z) (rl : ipRateLimiter) : ipRateLimiter :=
  filter (fun kv => ~ (b_windowStart kv.2 < now - 2 * udpRLWindow)) rl.

Definition rl_allow (now : Z) (ip : gostring) (rl : ipRateLimiter) : bool * ipRateLimiter :=
  match rl !! ip with
  | None => (true, <[ip := MkBucket 1 now None]> rl)
  | Some b =>
      if udpRLWindow <=? now - b_windowStart b then (true, <[ip := MkBucket 1 now (b_warnedAt b)]> rl)
      else
        let c := b_count b + 1 in
        if c <=? udpRLMax then (true, <[ip := MkBucket c (b_windowStart b) (b_warnedAt b)]> rl)
        else
          let log := match b_warnedAt b with None => true | Some t => udpRLWarnEvery <=? now - t end in
          (false, <[ip := MkBucket c (b_windowStart b) (if log then Some now else b_warnedAt b)]> rl)
  end.

(** Packets and sweeps in the order of the clock; [passed] are the times at which packets of
    one address passed, latest first. *)
Inductive rl_event := Packet (ip : gostring) (now : Z) | Sweep (now : Z).
Definition rl_time (e : rl_event) : Z := match e with Packet _ t => t | Sweep t => t end.
Definition rl_step (ip : gostring) (st : ipRateLimiter * list Z) (e : rl_event) : ipRateLimiter * list Z :=
  let '(rl, passed) := st in
  match e with
  | Sweep now => (rl_cleanup now rl, passed)
  | Packet src now =>
      let '(ok, rl) := rl_allow now src rl in
      (rl, if ok && bool_decide (src = ip) then now :: passed else passed)
  end.
Definition rl_run (ip : gostring) (evs : list rl_event) : ipRateLimiter * list Z := foldl (rl_step ip) (∅, []) evs.

Definition between (a b : Z) (l : list Z) : Z := lenZ (List.filter (fun t => (a <=? t) && (t <? b)) l).
Definition from (a : Z) (l : list Z) : Z := lenZ (List.filter (fun t => a <=? t) l).

Lemma between_cons a b t l : between a b (t :: l) = between a b l + (if (a <=? t) && (t <? b) then 1 else 0).
Proof. unfold between. cbn. destruct ((a <=? t) && (t <? b)); cbn [length]; lia. Qed.
Lemma from_cons a t l : from a (t :: l) = from a l + (if a <=? t then 1 else 0).
Proof. unfold from. cbn. destruct (a <=? t); cbn [length]; lia. Qed.
Lemma between_split a b w l : between a b l <= between a w l + from w l.
Proof.
  induction l as [|t l IH]; [done|]. rewrite !between_cons, from_cons.
  destruct (Z.leb_spec a t), (Z.ltb_spec t b), (Z.ltb_spec t w), (Z.leb_spec w t); cbn [andb]; lia.
Qed.
Lemma between_from a b l : between a b l <= from a l.
Proof.
  induction l as [|t l IH]; [done|]. rewrite between_cons, from_cons.
  destruct (Z.leb_spec a t), (Z.ltb_spec t b); cbn [andb]; lia.
Qed.
Lemma from_anti a b l : a <= b -> from b l <= from a l.
Proof.
  intros H. induction l as [|t l IH]; [done|]. rewrite !from_cons.
  destruct (Z.leb_spec a t), (Z.leb_spec b t); lia.
Qed.
Lemma from_zero a l : Forall (fun t => t < a) l -> from a l = 0.
Proof.
  induction 1 as [|t l Ht _ IH]; [done|]. rewrite from_cons, IH. destruct (Z.leb_spec a t); lia.
Qed.
Lemma between_nonneg a b l : 0 <= between a b l.
Proof. unfold between. lia. Qed.

(** What the packets that passed say about the bucket: those of its window are counted, the
    ones shortly before it are at most one window's worth. *)
Record limited (b : option ipBucket) (passed : list Z) (last : Z) : Prop := {
  li_past : Forall (fun t => t <= last) passed;
  li_all : forall a, between a (a + udpRLWindow) passed <= 2 * udpRLMax;
  li_bucket : match b with
    | None => Forall (fun t => t + udpRLWindow <= last) passed
    | Some b => 1 <= b_count b /\ b_windowStart b <= last /\
        from (b_windowStart b) passed = Z.min (b_count b) udpRLMax /\
        Forall (fun t => t < b_windowStart b + udpRLWindow) passed /\
        (forall a, b_windowStart b - udpRLWindow < a -> between a (b_windowStart b) passed <= udpRLMax)
    end }.

(** A packet that opens a window at [now]: everything before ended by then. *)
Lemma limited_open passed now wa :
  Forall (fun t => t < now) passed -> (forall a, between a (a + udpRLWindow) passed <= 2 * udpRLMax) ->
  (forall a, now - udpRLWindow < a -> between a now passed <= udpRLMax) ->
  limited (Some (MkBucket 1 now wa)) (now :: passed) now.
Proof.
  intros Hp Hall Hprev. split; unfold udpRLWindow, udpRLMax, second in *.
  - constructor; [lia|]. by eapply Forall_impl; [exact Hp|]; cbn; intros; lia.
  - intros a. rewrite between_cons. specialize (Hall a).
    destruct (Z.leb_spec a now), (Z.ltb_spec now (a + 1000000000)); cbn [andb]; try lia.
    specialize (Hprev a ltac:(lia)). pose proof (between_split a (a + 1000000000) now passed) as Hs.
    rewrite (from_zero now) in Hs by done. lia.
  - cbn [b_count b_windowStart]. split; [lia|]. split; [lia|]. rewrite from_cons, (from_zero now) by done.
    split; [destruct (Z.leb_spec now now); lia|]. split.
    + constructor; [lia|]. by eapply Forall_impl; [exact Hp|]; cbn; intros; lia.
    + intros a Ha. rewrite between_cons. specialize (Hprev a Ha). destruct (Z.ltb_spec now now); [lia|].
      rewrite andb_false_r. lia.
Qed.

(** A packet in the current window that passes, or does not. *)
Lemma limited_more b passed last now c wa :
  limited (Some b) passed last -> last <= now -> now - b_windowStart b < udpRLWindow -> c = b_count b + 1 ->
  limited (Some (MkBucket c (b_windowStart b) wa)) (if c <=? udpRLMax then now :: passed else passed) now.
Proof.
  intros [Hp Hall (Hc & Hw & Hf & Hin & Hprev)] Hl Hn ->. unfold udpRLWindow, udpRLMax, second in *.
  assert (Forall (fun t => t <= now) passed) as Hp' by (eapply Forall_impl; [exact Hp|]; cbn; intros; lia).
  destruct (Z.leb_spec (b_count b + 1) 50) as [Hle|Hgt].
  - split; [by constructor| |cbn [b_count b_windowStart]]; unfold udpRLWindow, udpRLMax, second in *.
    + intros a. rewrite between_cons. specialize (Hall a).
      destruct (Z.leb_spec a now), (Z.ltb_spec now (a + 1000000000)); cbn [andb]; try lia.
      specialize (Hprev a ltac:(lia)).
      pose proof (between_split a (a + 1000000000) (b_windowStart b) passed). lia.
    + split; [lia|]. split; [lia|]. rewrite from_cons. split; [destruct (Z.leb_spec (b_windowStart b) now); lia|].
      split; [constructor; [lia|done]|]. intros a Ha. rewrite between_cons. specialize (Hprev a Ha).
      destruct (Z.ltb_spec now (b_windowStart b)); [lia|]. rewrite andb_false_r. lia.
  - split; [done|done|]. cbn [b_count b_windowStart]. unfold udpRLWindow, udpRLMax, second in *.
    split; [lia|]. split; [lia|]. split; [lia|]. by split.
Qed.

Lemma rl_step_limited ip rl passed last e rl' passed' :
  limited (rl !! ip) passed last -> last <= rl_time e -> rl_step ip (rl, passed) e = (rl', passed') ->
  limited (rl' !! ip) passed' (rl_time e).
Proof.
  intros Hl Hle. assert (forall n, last <= n -> limited (rl !! ip) passed n) as Hlater.
  { intros n Hn. destruct Hl as [Hp Hall Hb]. split; [eapply Forall_impl; [exact Hp|]; cbn; intros; lia|done|].
    destruct (rl !! ip) as [b|]; [naive_solver lia|]. eapply Forall_impl; [exact Hb|]; cbn; intros; lia. }
  destruct e as [src now|now]; cbn [rl_time] in *; cbn [rl_step].
  - unfold rl_allow. destruct (decide (src = ip)) as [->|Hne].
    2:{ destruct (rl !! src) as [b|]; [destruct (_ <=? _); [|destruct (_ <=? _)]|]; cbn [andb];
          rewrite ?(bool_decide_false (src = ip)) by done; intros [= <- <-]; rewrite lookup_insert_ne by done; auto. }
    rewrite bool_decide_true, ?andb_true_r by done. pose proof Hl as [Hp Hall Hb].
    destruct (rl !! ip) as [b|] eqn:Eb.
    + destruct (Z.leb_spec udpRLWindow (now - b_windowStart b)) as [Hwin|Hwin]; cbn [andb].
      { intros [= <- <-]. rewrite lookup_insert_eq. destruct Hb as (Hc & Hw & Hf & Hin & Hprev). apply limited_open; [|done|].
        - eapply Forall_impl; [exact Hin|]; cbn; intros; lia.
        - intros a Ha. pose proof (between_from a now passed).
          pose proof (from_anti (b_windowStart b) a passed ltac:(lia)). unfold udpRLMax in *. lia. }
      pose proof (fun wa => limited_more b passed last now (b_count b + 1) wa Hl Hle Hwin eq_refl) as Hm.
      destruct (b_count b + 1 <=? udpRLMax); cbn [andb]; intros [= <- <-]; rewrite lookup_insert_eq; apply Hm.
    + intros [= <- <-]. cbn [andb]. rewrite lookup_insert_eq.
      assert (Forall (fun t => t + udpRLWindow <= now) passed) as Hold by (eapply Forall_impl; [exact Hb|]; cbn; intros; lia).
      apply limited_open; [|done|].
      * eapply Forall_impl; [exact Hold|]. unfold udpRLWindow, second; cbn; intros; lia.
      * intros a Ha. pose proof (between_from a now passed).
        rewrite (from_zero a) in *; [unfold udpRLMax; lia|]. eapply Forall_impl; [exact Hold|]; cbn; intros; lia.
  - intros [= <- <-]. unfold rl_cleanup.
    destruct (filter (fun kv => ~ (b_windowStart kv.2 < now - 2 * udpRLWindow)) rl !! ip) as [b|] eqn:E.
    + apply map_lookup_filter_Some in E as [E _]. rewrite <- E. by apply Hlater.
    + destruct (Hlater now Hle) as [Hp Hall Hb]. split; [done|done|].
      destruct (rl !! ip) as [b|] eqn:Eb; [|done]. apply map_lookup_filter_None in E as [E|E]; [congruence|].
      specialize (E b Eb). cbn in E. destruct Hb as (_ & _ & _ & Hin & _). eapply Forall_impl; [exact Hin|].
      unfold udpRLWindow, second in *. cbn. intros. lia.
Qed.

Fixpoint in_order (last : Z) (evs : list rl_event) : Prop :=
  match evs with [] => True | e :: evs => last <= rl_time e /\ in_order (rl_time e) evs end.

Lemma rl_run_limited ip evs : forall rl passed last, limited (rl !! ip) passed last -> in_order last evs ->
  exists last', limited ((foldl (rl_step ip) (rl, passed) evs).1 !! ip) (foldl (rl_step ip) (rl, passed) evs).2 last'.
Proof.
  induction evs as [|e evs IH]; intros rl passed last Hl Ho; cbn [foldl]; [by exists last|].
  destruct Ho as [Hle Ho]. destruct (rl_step ip (rl, passed) e) as [rl' passed'] eqn:E.
  apply (IH rl' passed' (rl_time e)); [|done]. by eapply rl_step_limited.
Qed.

(** However a source sends, and whatever sweeps run meanwhile, at most twice the limit of
    50 packets pass in any second; and the limit of 50 itself does not hold, since windows are
    fixed and not sliding: 99 packets can pass within two milliseconds. *)
Theorem udp_limit_bound :
  (forall ip evs t0 a, in_order t0 evs -> between a (a + second) (rl_run ip evs).2 <= 2 * udpRLMax) /\
  exists ip evs, in_order 0 evs /\ between (999 * millisecond) (1001 * millisecond) (rl_run ip evs).2 = 99.
Proof.
  split.
  - intros ip evs t0 a Ho. unfold rl_run. destruct (rl_run_limited ip evs ∅ [] t0) as [last [_ Hall _]]; [|done|apply Hall].
    rewrite lookup_empty. split; [constructor| |constructor]. intros b. unfold between, udpRLMax. cbn. lia.
  - set (ip := bs "198.51.100.7").
    exists ip, (Packet ip 0 :: replicate 49 (Packet ip (999 * millisecond)) ++ replicate 50 (Packet ip (1000 * millisecond))).
    split; [|vm_compute; reflexivity]. cbn. unfold millisecond. lia.
Qed.

(** *** Reflection (udp_reflector.go) and its client (nat.go) *)

Definition reflectNonceSize : Z := 12.
Definition reflectTSWindow : Z := 30.
Definition aead_overhead : Z := 16.

Section reflector.
Context {AE : Aead} {BL : Blake2b} (dht_key : bytes).

Definition reflectorKey : bytes := blake2b_256 (bs "snc-udp-reflect-v1").

Record UDPReflector := MkReflector {
  quicCIDs : option quicCIDTracker;    (** [None]: the QUIC tunnel is disabled *)
  dht_enabled : bool;
  rf_limiter : ipRateLimiter }.

Inductive served := Dropped | ToQUIC (pkt : bytes) | ToDHT (pkt : bytes) | Replied (pkt : bytes).

(** [IP.To16] *)
Definition to16 (ip : bytes) : bytes :=
  if (length ip =? 4)%nat then Net.v4_prefix ++ ip else if (length ip =? 16)%nat then ip else [].

Definition observed (ip : bytes) : Z * bytes :=
  match Net.to4 ip with Some ip4 => (4, ip4) | None => (6, to16 ip) end.
Definition reply (nonce : bytes) (ip : bytes) (port : Z) : bytes :=
  let '(family, ip) := observed ip in
  nonce ++ aead_seal reflectorKey nonce (be_put 2 family ++ ip ++ be_put 2 (u16 port)).

(** The request's clock reading is in milliseconds; [nonce] is the random source's answer. *)
Definition reflect (nowMs : Z) (nonce : option bytes) (src_ip : bytes) (src_port : Z) (pkt : bytes) : res served :=
  let minLen := reflectNonceSize + 8 + aead_overhead in
  if lenZ pkt <? minLen then Ok Dropped
  else
    n ← go_slice pkt 0 reflectNonceSize;
    ct ← go_slice pkt reflectNonceSize (lenZ pkt);
    match aead_open reflectorKey n ct with
    | None => Ok Dropped
    | Some plain =>
        if lenZ plain <? 8 then Ok Dropped
        else
          ts ← go_uint 8 plain 0;
          let ageMs := int64 (nowMs - int64 ts) in
          if (reflectTSWindow * 1000 <? ageMs) || (ageMs <? - (reflectTSWindow * 1000)) then Ok Dropped
          else match nonce with Some r => Ok (Replied (reply r src_ip src_port)) | None => Ok Dropped end
    end.

(** One turn of [Serve]'s loop. *)
Definition serve (now nowMs : Z) (nonce : option bytes) (src_ip : bytes) (src_port : Z) (pkt : bytes)
    (r : UDPReflector) : res (served * UDPReflector) :=
  quic ← (match quicCIDs r with Some t => classify t pkt | None => Ok false end);
  if (quic : bool) then
    let '(ok, rl) := rl_allow now (Net.IP_String src_ip) (rf_limiter r) in
    Ok (if ok then ToQUIC pkt else Dropped, MkReflector (quicCIDs r) (dht_enabled r) rl)
  else if dht_enabled r && match Wire.Open dht_key pkt with Ok _ => true | _ => false end then Ok (ToDHT pkt, r)
  else s ← reflect nowMs nonce src_ip src_port pkt; Ok (s, r).

(** The client: its request, and what it reads from the answer. *)
Definition probe_request (nowMs : Z) (nonce : bytes) : bytes :=
  nonce ++ aead_seal reflectorKey nonce (be_put 8 (u64 nowMs)).
Definition probe_answer (pkt : bytes) : res (bytes * Z) :=
  if lenZ pkt <? reflectNonceSize + 2 + 4 + 2 + aead_overhead then Err "nat: response too short"
  else
    n ← go_slice pkt 0 reflectNonceSize;
    ct ← go_slice pkt reflectNonceSize (lenZ pkt);
    match aead_open reflectorKey n ct with
    | None => Err "nat: decrypt response"
    | Some resp =>
        if lenZ resp <? 4 then Err "nat: response payload too short"
        else
          family ← go_uint 2 resp 0;
          ipLen ← (if family =? 4 then Ok 4 else if family =? 6 then Ok 16 else Err "nat: unknown addr family");
          if lenZ resp <? 2 + ipLen + 2 then Err "nat: response truncated"
          else
            ip ← go_slice resp 2 (2 + ipLen);
            tail ← go_slice resp (2 + ipLen) (lenZ resp);
            port ← go_uint 2 tail 0;
            Ok (ip, port)
    end.

Lemma open_sealed (key nonce plain : bytes) : lenZ nonce = reflectNonceSize ->
  let pkt := nonce ++ aead_seal key nonce plain in
  lenZ pkt = 28 + lenZ plain /\ go_slice pkt 0 reflectNonceSize = Ok nonce /\
  go_slice pkt reflectNonceSize (lenZ pkt) = Ok (aead_seal key nonce plain) /\
  aead_open key nonce (aead_seal key nonce plain) = Some plain.
Proof.
  intros Hn pkt. unfold reflectNonceSize in *. unfold pkt. rewrite length_app, aead_length_seal.
  split; [lia|]. split; [apply go_slice_prefix; lia|].
  split; [apply go_slice_suffix; [lia|rewrite length_app, aead_length_seal; lia]|apply aead_open_seal].
Qed.

Lemma reflect_request nowMs sentMs nonce src_ip src_port r :
  lenZ nonce = reflectNonceSize -> - 2 ^ 63 <= sentMs < 2 ^ 63 -> Z.abs (nowMs - sentMs) <= reflectTSWindow * 1000 ->
  reflect nowMs (Some r) src_ip src_port (probe_request sentMs nonce) = Ok (Replied (reply r src_ip src_port)).
Proof.
  intros Hn Hs Hage. unfold reflect, probe_request.
  destruct (open_sealed reflectorKey nonce (be_put 8 (u64 sentMs)) Hn) as (Hl & E1 & E2 & E3). cbn zeta in *.
  rewrite length_be_put in Hl. rewrite (proj2 (Z.ltb_ge _ _)) by (unfold reflectNonceSize, aead_overhead; lia).
  rewrite E1. cbn [mbind res_bind]. rewrite E2. cbn [mbind res_bind]. rewrite E3.
  rewrite (proj2 (Z.ltb_ge _ _)) by (rewrite length_be_put; lia).
  assert (go_uint 8 (be_put 8 (u64 sentMs)) 0 = Ok (u64 sentMs)) as ->.
  { apply (go_uint_at 8 [] []); [by rewrite app_nil_r|done|].
    change (256 ^ Z.of_nat 8) with (2 ^ 64). apply Varint.u64_bound. }
  cbn [mbind res_bind].
  assert (int64 (u64 sentMs) = sentMs) as ->.
  { unfold int64, u64. rewrite Zplus_mod_idemp_l, Z.mod_small; lia. }
  unfold reflectTSWindow in *. rewrite int64_id by lia.
  rewrite (proj2 (Z.ltb_ge _ _)), (proj2 (Z.ltb_ge _ _)) by lia. done.
Qed.

(** An address as a socket reports it, and how both sides write it. *)
Definition canonical_ip (ip : bytes) : bytes := (observed ip).2.

Lemma observed_length ip : length ip = 4%nat \/ length ip = 16%nat ->
  let '(f, a) := observed ip in (f = 4 /\ length a = 4%nat) \/ (f = 6 /\ length a = 16%nat).
Proof.
  intros H. unfold observed, Net.to4, to16. destruct H as [H|H]; rewrite H; cbn [Nat.eqb]; [by left|].
  destruct (_ && _); [left|by right]. split; [done|]. rewrite length_drop. lia.
Qed.

Lemma probe_answer_reply r ip port :
  lenZ r = reflectNonceSize -> length ip = 4%nat \/ length ip = 16%nat -> 0 <= port < 2 ^ 16 ->
  probe_answer (reply r ip port) = Ok (canonical_ip ip, port).
Proof.
  intros Hr Hip Hport. unfold reply, canonical_ip. pose proof (observed_length ip Hip) as Ho.
  destruct (observed ip) as [f a]. cbn [snd]. set (plain := be_put 2 f ++ a ++ be_put 2 (u16 port)).
  destruct (open_sealed reflectorKey r plain Hr) as (Hl & E1 & E2 & E3). cbn zeta in *.
  assert (lenZ plain = 4 + lenZ a) as Hp by (unfold plain; rewrite !length_app, !length_be_put; lia).
  assert (u16 port = port) as Hu by (apply Z.mod_small; lia).
  unfold probe_answer. rewrite (proj2 (Z.ltb_ge _ _)) by (unfold reflectNonceSize, aead_overhead; lia).
  rewrite E1. cbn [mbind res_bind]. rewrite E2. cbn [mbind res_bind]. rewrite E3.
  rewrite (proj2 (Z.ltb_ge _ _)) by lia.
  assert (0 <= f < 2 ^ 16) as Hf by (destruct Ho as [[-> _]|[-> _]]; lia).
  rewrite (Hello.go_uint16_at [] (a ++ be_put 2 (u16 port)) plain f 0) by done. cbn [mbind res_bind].
  assert ((if f =? 4 then Ok 4 else if f =? 6 then Ok 16 else Err "nat: unknown addr family") = Ok (lenZ a)) as ->
    by (destruct Ho as [[-> ->]|[-> ->]]; done).
  cbn [mbind res_bind]. rewrite (proj2 (Z.ltb_ge _ _)) by lia.
  rewrite (go_slice_at (be_put 2 f) a (be_put 2 (u16 port)) plain 2 (2 + lenZ a)) by first [done | (rewrite ?length_be_put; lia)].
  cbn [mbind res_bind]. unfold plain at 1. rewrite app_assoc.
  rewrite (go_slice_suffix (be_put 2 f ++ a)); [|rewrite length_app, length_be_put; lia|
    rewrite Hp, !length_app, !length_be_put; lia].
  cbn [mbind res_bind]. rewrite Hu.
  by rewrite (Hello.go_uint16_at [] [] (be_put 2 port) port 0) by (rewrite ?app_nil_r; done || lia).
Qed.

(** A client learns its own address. A request that is not mistaken for QUIC or DHT
    traffic and is at most 30 seconds off is answered, the request and the answer are read
    as they were written by the other program, and the client ends up with the address and
    port its datagram came from. *)
Theorem reflection_roundtrip now nowMs sentMs nonce rnonce ip port r :
  lenZ nonce = reflectNonceSize -> lenZ rnonce = reflectNonceSize ->
  length ip = 4%nat \/ length ip = 16%nat -> 0 <= port < 2 ^ 16 ->
  - 2 ^ 63 <= sentMs < 2 ^ 63 -> Z.abs (nowMs - sentMs) <= 30 * 1000 ->
  (forall t, quicCIDs r = Some t -> classify t (probe_request sentMs nonce) = Ok false) ->
  (forall x, Wire.Open dht_key (probe_request sentMs nonce) <> Ok x) ->
  exists answer, serve now nowMs (Some rnonce) ip port (probe_request sentMs nonce) r = Ok (Replied answer, r) /\
    probe_answer answer = Ok (canonical_ip ip, port).
Proof.
  intros Hn Hr Hip Hport Hs Hage Hq Hd. exists (reply rnonce ip port). split; [|by apply probe_answer_reply].
  unfold serve.
  assert (match quicCIDs r with Some t => classify t (probe_request sentMs nonce) | None => Ok false end = Ok false) as ->
    by (destruct (quicCIDs r); auto).
  cbn [mbind res_bind].
  assert (match Wire.Open dht_key (probe_request sentMs nonce) with Ok _ => true | _ => false end = false) as ->
    by (destruct (Wire.Open _ _) as [x|m|] eqn:E; [by destruct (Hd x)|done..]).
  rewrite andb_false_r, reflect_request by done. done.
Qed.

End reflector.

Lemma reflection_roundtrip_witness :
  exists answer, serve (replicate 32 3) 0 1000 (Some (replicate 12 5)) [203; 0; 113; 9] 4000
      (probe_request 900 (replicate 12 4)) (MkReflector (Some ∅) true ∅)
    = Ok (Replied answer, MkReflector (Some ∅) true ∅) /\ probe_answer answer = Ok ([203; 0; 113; 9], 4000).
Proof.
  apply (reflection_roundtrip (replicate 32 3) 0 1000 900 (replicate 12 4) (replicate 12 5) [203; 0; 113; 9] 4000);
    [reflexivity|reflexivity|by left|lia|lia|lia| |].
  - intros t [= <-]. vm_compute. reflexivity.
  - intros x H. vm_compute in H. discriminate.
Defined.

End Proxy.
