(* ===== verification/ControlApi.v ===== *)
(** * snc-control: the relay API and the caches behind it

    The HTTP endpoints a control node answers itself (relay_api.go, club_relay_api.go,
    update_http.go), the caches that feed them (auth_cache.go, content_manifest.go,
    content_chunk.go, cidr_cache.go, client_cache.go), its own updater (updater.go) and
    watchdog (watchdog.go). Every request of the node goes to an exit picked at random
    from the registry; the answer is an input. The files of the update directory are a map
    from paths to contents. *)

From stdpp Require Import base list gmap strings fin_maps.
From Stdlib Require Import ZArith Lia.
From S2P Require Import Prelude GoLib ControlExits ControlPick.

Module Api.
Import Exits Rand Filepath.

(** JSON at the types read here. *)
Record manifestEntry := MkEntry { me_available : bool; me_version : gostring; me_hash : gostring; me_sig : gostring }.
Class ApiCodec := {
  un_device : bytes -> option gostring;
  un_ts : bytes -> option Z;
  un_update_manifest : bytes -> option (gmap gostring manifestEntry);
  un_countries : bytes -> option (gmap gostring bytes);
  un_cidrs : bytes -> option (list gostring);
  un_ports : bytes -> option (gmap gostring (list Z));
  url_values : gostring -> gostring;        (** url.Values encoding of one value *)
  url_ok : gostring -> bool;                (** http.NewRequest parses the URL *)
  json_ip : gostring -> bytes;
  json_ping : GoFloat.Float.float64 -> bytes }.

(** ** Responses and requests to exits

    Of the headers only the content type is kept. *)

Record response := MkResp { rs_status : Z; rs_type : gostring; rs_body : bytes }.
Definition http_error (status : Z) (msg : gostring) : response := MkResp status (bs "text/plain; charset=utf-8") (msg ++ [10]).
Definition not_found : response := http_error 404 (bs "404 page not found").
Definition quoted (s : string) : bytes := 34 :: bs s ++ [34].
Definition json_error (status : Z) (msg : string) : response :=
  http_error status (bs "{" ++ quoted "error" ++ bs ":" ++ quoted msg ++ bs "}").
Definition json_ok (body : bytes) : response := MkResp 200 (bs "application/json") body.

(** How an exit answers a request: an error, or a status, a content type and a body, up to
    the reader's limit ([None]: the body cannot be read to its end). *)
Inductive answer := NoAnswer | Answer (status : Z) (ctype : gostring) (body : option bytes).

(** The draw of an exit: what [PickRandom] reads. *)
Record pick_env := MkPick { pk_disk : option bytes; pk_now : Z; pk_order : nat -> nat; pk_draw : nat }.

(** The files of a disk by absolute path, a path being the list of its elements. *)
Abbreviation files := (gmap (list gostring) bytes).

Section api.
Context {U : Unicode} {ED : Ed25519} {EC : ExitsCodec} {AC : ApiCodec}.

Definition pick (e : pick_env) (r : ExitRegistry) : res ExitNode * ExitRegistry :=
  PickRandom (pk_disk e) (pk_now e) (pk_order e) (pk_draw e) r.

(** A request that cannot be built is not sent. *)
Definition exchange (ask : gostring -> answer) (url : gostring) : answer := if url_ok url then ask url else NoAnswer.

(** The body of a 200 answer. *)
Definition ok_body (a : answer) : option bytes :=
  match a with Answer 200 _ (Some b) => Some b | _ => None end.

(** ** Cached logins (auth_cache.go) *)

Definition authCacheTTL : Z := 24 * hour.
Record authCacheEntry := MkAuthEntry { ac_body : bytes; ac_cachedAt : Z }.
Abbreviation authCache := (gmap gostring authCacheEntry).

Definition exitAuthCacheURL (exitAddr deviceID : gostring) : gostring :=
  bs "https://" ++ exitDialAddr exitAddr ++ bs "/p/node/v1/auth-cache?device_id=" ++ url_values deviceID.

(** [ask] is how exits answer; the result is a body or nothing. *)
Definition queryExit (e : pick_env) (ask : gostring -> answer) (deviceID : gostring) (r : ExitRegistry)
    : option bytes * ExitRegistry :=
  let '(exit, r) := pick e r in
  (match exit with Ok x => ok_body (exchange ask (exitAuthCacheURL (Addr x) deviceID)) | _ => None end, r).

(** [mid] is the cache after the query, which runs without the lock. *)
Definition auth_lookup_fresh (now : Z) (deviceID : gostring) (c : authCache) : option bytes :=
  match c !! deviceID with
  | Some e => if now - ac_cachedAt e <? authCacheTTL then Some (ac_body e) else None
  | None => None
  end.
Definition auth_store (now : Z) (deviceID : gostring) (body : bytes) (c : authCache) : authCache :=
  filter (fun kv => ~ (ac_cachedAt kv.2 < now - authCacheTTL)) (<[deviceID := MkAuthEntry body now]> c).
Definition auth_lookup (now : Z) (e : pick_env) (ask : gostring -> answer) (deviceID : gostring)
    (r : ExitRegistry) (c mid : authCache) : option bytes * ExitRegistry * authCache :=
  if decide (deviceID = []) then (None, r, c)
  else match auth_lookup_fresh now deviceID c with
  | Some body => (Some body, r, c)
  | None =>
      let '(o, r) := queryExit e ask deviceID r in
      match o with
      | None => (ac_body <$> mid !! deviceID, r, mid)
      | Some body => (Some body, r, auth_store now deviceID body mid)
      end
  end.

(** ** The signed content manifest (content_manifest.go) *)

Record contentManifest := MkContent { cm_file : gostring; cm_raw : bytes; cm_ts : Z }.

Definition content_LoadCached (data : option bytes) (m : contentManifest) : contentManifest :=
  if decide (cm_file m = []) then m
  else match data with
  | None => m
  | Some d => match un_ts d with Some ts => MkContent (cm_file m) d ts | None => m end
  end.

(** The second result is the call of [OnNew], the third what is written to the file. *)
Definition content_refresh (e : pick_env) (ask : gostring -> answer) (r : ExitRegistry) (m : contentManifest)
    : ExitRegistry * contentManifest * option (bytes * Z) * option bytes :=
  let '(exit, r) := pick e r in
  match exit with
  | Ok x =>
      match ok_body (exchange ask (exitProxyURL (Addr x) (bs "/api/content-manifest"))) with
      | None => (r, m, None, None)
      | Some data =>
          match un_ts data with
          | None => (r, m, None, None)
          | Some ts =>
              if ts =? 0 then (r, m, None, None)
              else if ts <=? cm_ts m then (r, m, None, None)
              else (r, MkContent (cm_file m) data ts, Some (data, ts),
                    if decide (cm_file m = []) then None else Some data)
          end
      end
  | _ => (r, m, None, None)
  end.

(** ** Content chunks (content_chunk.go) *)

Definition contentChunkCacheMax : nat := 256.
Record chunkEntry := MkChunk { ck_data : bytes; ck_seq : Z }.
Record chunkCache := MkChunks { cc_seq : Z; cc_byHash : gmap gostring chunkEntry }.

(** The oldest entry below the bound, as the loop over the map finds it. *)
Definition older (acc : gostring * Z) (he : gostring * chunkEntry) : gostring * Z :=
  if ck_seq he.2 <? acc.2 then (he.1, ck_seq he.2) else acc.
Definition evictOldest (order : nat -> nat) (c : chunkCache) : chunkCache :=
  let oldest := (foldl older ([], 2 ^ 64 - 1) (range_map order (cc_byHash c))).1 in
  if decide (oldest = []) then c else MkChunks (cc_seq c) (delete oldest (cc_byHash c)).
Definition chunk_store (order : nat -> nat) (hash : gostring) (data : bytes) (c : chunkCache) : chunkCache :=
  let seq := u64 (cc_seq c + 1) in
  let c := MkChunks seq (<[hash := MkChunk data seq]> (cc_byHash c)) in
  if (contentChunkCacheMax <? size (cc_byHash c))%nat then evictOldest order c else c.

Definition chunk_fetch (e : pick_env) (ask : gostring -> answer) (hash : gostring) (r : ExitRegistry)
    : option bytes * ExitRegistry :=
  let '(exit, r) := pick e r in
  (match exit with
   | Ok x => LimitReader (Z.shiftl 1 20) <$> ok_body (exchange ask (exitProxyURL (Addr x) (bs "/api/content-chunk?hash=" ++ hash)))
   | _ => None
   end, r).
(** [mid] is the cache when the fetch is done. *)
Definition chunk_Get (e : pick_env) (ask : gostring -> answer) (order : nat -> nat) (hash : gostring)
    (r : ExitRegistry) (c mid : chunkCache) : option bytes * ExitRegistry * chunkCache :=
  match cc_byHash c !! hash with
  | Some x => (Some (ck_data x), r, c)
  | None =>
      let '(o, r) := chunk_fetch e ask hash r in
      (o, r, match o with Some data => chunk_store order hash data mid | None => mid end)
  end.

Definition isHexSHA256 (s : gostring) : bool :=
  (length s =? 64)%nat && forallb (fun c => ((48 <=? c) && (c <=? 57)) || ((97 <=? c) && (c <=? 102))) s.

(** ** Countries of addresses (cidr_cache.go) *)

Record cidrCache := MkCidr { ci_sets : gmap gostring (list Net.IPNet); ci_payloads : gmap gostring bytes }.

Definition parseCIDRNet (cidrs : list gostring) : list Net.IPNet := omap Net.ParseCIDR cidrs.
Definition nets_contain (nets : list Net.IPNet) (ip : bytes) : bool := existsb (fun n => Net.Contains n ip) nets.

Fixpoint first_payload (l : list (gostring * list Net.IPNet)) (payloads : gmap gostring bytes) (ip : bytes) : option bytes :=
  match l with
  | [] => None
  | (cc, nets) :: l =>
      if nets_contain nets ip
      then match payloads !! cc with Some raw => Some raw | None => first_payload l payloads ip end
      else first_payload l payloads ip
  end.
Definition cidr_Lookup (order : nat -> nat) (ipStr : gostring) (c : cidrCache) : option bytes :=
  match Net.ParseIP ipStr with
  | None => None
  | Some ip => first_payload (range_map order (ci_sets c)) (ci_payloads c) ip
  end.
Definition lookupCC (order : nat -> nat) (c : cidrCache) (ip : bytes) : gostring :=
  match List.find (fun p => nets_contain p.2 ip) (range_map order (ci_sets c)) with
  | Some (cc, _) => cc
  | None => []
  end.

Definition cidr_refresh (e : pick_env) (ask : gostring -> answer) (r : ExitRegistry) (c : cidrCache)
    : ExitRegistry * cidrCache :=
  let '(exit, r) := pick e r in
  match exit with
  | Ok x =>
      match ok_body (exchange ask (exitProxyURL (Addr x) (bs "/api/cidr/all"))) ≫= un_countries with
      | None => (r, c)
      | Some countries =>
          if decide (countries = ∅) then (r, c)
          else (r, MkCidr (omap (fun raw => parseCIDRNet <$> un_cidrs raw) countries)
                     (filter (fun kv => is_Some (un_cidrs kv.2)) countries))
      end
  | _ => (r, c)
  end.

(** ** Client binaries (client_cache.go, update_http.go)

    The files of the disk by absolute path (Filepath); directories are not entries. *)

Definition legacyNames : list gostring :=
  [bs "client"; bs "client.sha256"; bs "version"; bs "client-android"; bs "client-android-version";
   bs "client-android.sha256"; bs "macos"; bs "macos-version"; bs "macos.sha256"].
Definition cleanupLegacyCache (remove_ok : gostring -> bool) (cacheDir : list gostring) (fs : files) : files :=
  foldl (fun fs name => if remove_ok name then delete (Join cacheDir name) fs else fs) fs legacyNames.

(** What the disk does: whether the calls succeed, what a file holds while it is written
    ([de_parts]: truncated, then longer and longer), what a failed write leaves in it
    ([de_left]), and what becomes of the temporary file of a failed download ([de_tmp]). *)
Record disk_env := MkDisk {
  de_remove : bool; de_mkdir : bool; de_open : bool; de_rename : bool; de_unsig : bool;
  de_write : gostring -> bool; de_parts : gostring -> list bytes; de_left : gostring -> option bytes; de_tmp : option bytes }.

(** The changes of the disk that a request served in between can see, one by one: a file gets
    other content or goes ([Put]), or is renamed over another. *)
Inductive disk_op := Put (path : list gostring) (o : option bytes) | Rename (from to : list gostring).

Definition set_file (o : option bytes) (path : list gostring) (fs : files) : files := partial_alter (fun _ => o) path fs.
Definition run_op (fs : files) (o : disk_op) : files :=
  match o with
  | Put path o => set_file o path fs
  | Rename from to => match fs !! from with Some b => <[to := b]> (delete from fs) | None => fs end
  end.
Definition run_ops (ops : list disk_op) (fs : files) : files := fold_left run_op ops fs.
(** The disk before, between and after the operations. *)
Fixpoint states (ops : list disk_op) (fs : files) : list files :=
  fs :: match ops with [] => [] | o :: ops => states ops (run_op fs o) end.

(** [os.WriteFile], its result ignored. *)
Definition write_ops (d : disk_env) (dir : list gostring) (name : gostring) (data : bytes) : list disk_op :=
  ((fun c => Put (Join dir name) (Some c)) <$> de_parts d name)
  ++ [Put (Join dir name) (if de_write d name then Some data else de_left d name)].

(** The downloaded binary, if it arrived whole and hashes to what was announced. *)
Definition downloaded (a : answer) (expectedHash : gostring) : option bytes :=
  match ok_body a with
  | Some b => if decide (Hex.encode (sha256 b) = expectedHash) then Some b else None
  | None => None
  end.

(** The operations of [fetchOne] on a disk [fs]. *)
Definition fetchOne_ops (e : pick_env) (ask : gostring -> answer) (d : disk_env) (cacheDir : list gostring) (slug remoteVersion expectedHash sig : gostring)
    (r : ExitRegistry) (fs : files) : ExitRegistry * list disk_op :=
  let remoteVersion := Strings.TrimSpace remoteVersion in
  let slugDir := Join cacheDir slug in
  let tmpPath := Join slugDir (bs "bin.tmp") in
  if decide (remoteVersion = []) then (r, [])
  else if decide (Strings.TrimSpace (default [] (fs !! Join slugDir (bs "version"))) = remoteVersion) then (r, [])
  else
    let '(exit, r) := pick e r in
    match exit with
    | Ok x =>
        let stale := bool_decide (is_Some (fs !! slugDir)) in
        if stale && negb (de_remove d) then (r, [])
        else
          let ops := if stale then [Put slugDir None] else [] in
          if negb (de_mkdir d) then (r, ops)
          else
            let ops := ops ++ ((fun c => Put tmpPath (Some c)) <$> de_parts d (bs "bin.tmp")) in
            match (if de_open d then downloaded (exchange ask (exitProxyURL (Addr x) (bs "/api/update/dist/" ++ slug ++ bs "/bin"))) expectedHash
                   else None) with
            | None => (r, ops ++ [Put tmpPath (de_tmp d)])
            | Some b =>
                let ops := ops ++ [Put tmpPath (Some b)] in
                if negb (de_rename d) then (r, ops ++ [Put tmpPath (de_tmp d)])
                else
                  (r, ops ++ [Rename tmpPath (Join slugDir (bs "bin"))]
                      ++ write_ops d slugDir (bs "sha256") (expectedHash ++ [10])
                      ++ write_ops d slugDir (bs "version") (remoteVersion ++ [10])
                      ++ (if decide (sig = []) then (if de_unsig d then [Put (Join slugDir (bs "sig")) None] else [])
                          else write_ops d slugDir (bs "sig") (sig ++ [10])))
            end
    | _ => (r, [])
    end.
Definition fetchOne (e : pick_env) (ask : gostring -> answer) (d : disk_env) (cacheDir : list gostring) (slug remoteVersion expectedHash sig : gostring)
    (r : ExitRegistry) (fs : files) : ExitRegistry * files :=
  let '(r, ops) := fetchOne_ops e ask d cacheDir slug remoteVersion expectedHash sig r fs in (r, run_ops ops fs).

(** [fetchAll]: one exit for the manifest, another draw per binary. *)
Fixpoint fetch_entries (l : list (gostring * manifestEntry)) (envs : gostring -> pick_env) (ask : gostring -> answer)
    (d : disk_env) (cacheDir : list gostring) (r : ExitRegistry) (fs : files) : ExitRegistry * files :=
  match l with
  | [] => (r, fs)
  | (slug, m) :: l =>
      let '(r, fs) := if me_available m then fetchOne (envs slug) ask d cacheDir slug (me_version m) (me_hash m) (me_sig m) r fs
                      else (r, fs) in
      fetch_entries l envs ask d cacheDir r fs
  end.
Definition fetchAll (e : pick_env) (envs : gostring -> pick_env) (order : nat -> nat) (ask : gostring -> answer)
    (d : disk_env) (cacheDir : list gostring) (r : ExitRegistry) (fs : files) : ExitRegistry * files :=
  let '(exit, r) := pick e r in
  match exit with
  | Ok x =>
      match ok_body (exchange ask (exitProxyURL (Addr x) (bs "/api/update/manifest"))) ≫= un_update_manifest with
      | Some m => fetch_entries (range_map order m) envs ask d cacheDir r fs
      | None => (r, fs)
      end
  | _ => (r, fs)
  end.

(** The request paths of the update server. *)
Definition parseClientUpdatePath (path : gostring) : option (gostring * gostring * gostring) :=
  if negb (Strings.HasPrefix path (bs "/client-")) then None
  else
    let rest := drop 8 path in
    let text := bs "text/plain; charset=utf-8" in
    let '(slug, file, ctype) :=
      if Strings.HasSuffix rest (bs "-version") then (Strings.TrimSuffix rest (bs "-version"), bs "version", text)
      else if Strings.HasSuffix rest (bs ".sha256") then (Strings.TrimSuffix rest (bs ".sha256"), bs "sha256", text)
      else if Strings.HasSuffix rest (bs ".sig") then (Strings.TrimSuffix rest (bs ".sig"), bs "sig", text)
      else (rest, bs "bin", bs "application/octet-stream") in
    if decide (slug = []) then None else Some (slug, file, ctype).
Definition serve_client_update (cacheDir : list gostring) (method path : gostring) (fs : files) : response :=
  if negb (bool_decide (method = bs "GET") || bool_decide (method = bs "HEAD")) then http_error 405 (bs "method not allowed")
  else match parseClientUpdatePath path with
  | None => not_found
  | Some (slug, file, ctype) =>
      match fs !! Join (Join cacheDir slug) file with Some data => MkResp 200 ctype data | None => not_found end
  end.

(** ** The relay API (relay_api.go, club_relay_api.go) *)

Record relayAPI := MkApi {
  ra_updateDir : gostring;
  ra_pubkey : option bytes;
  ra_auth : option authCache;
  ra_chunks : option chunkCache;
  ra_manifest : bytes;
  ra_clubs : gmap gostring bytes;
  ra_files : files }.

Record request := MkReq {
  rq_path : gostring; rq_method : gostring; rq_query : gostring -> gostring;
  rq_header : gostring -> gostring; rq_body : option bytes; rq_remote : gostring }.

Definition set_auth (c : authCache) (h : relayAPI) : relayAPI :=
  MkApi (ra_updateDir h) (ra_pubkey h) (Some c) (ra_chunks h) (ra_manifest h) (ra_clubs h) (ra_files h).
Definition set_chunks (c : chunkCache) (h : relayAPI) : relayAPI :=
  MkApi (ra_updateDir h) (ra_pubkey h) (ra_auth h) (Some c) (ra_manifest h) (ra_clubs h) (ra_files h).

Definition myip (q : request) : response :=
  json_ok (json_ip (match Net.SplitHostPort (rq_remote q) with Ok (host, _) => host | _ => rq_remote q end)).

(** The flat files served under /p/v1/update/. *)
Definition updateNames : list gostring :=
  [bs "version"; bs "client"; bs "client.sha256"; bs "client-android-version"; bs "client-android"; bs "client-android.sha256"].
Definition update_type (name : gostring) : gostring :=
  if decide (name = bs "client") then bs "application/zip"
  else if decide (name = bs "client-android") then bs "application/vnd.android.package-archive"
  else bs "text/plain".
Definition serveUpdate (q : request) (h : relayAPI) : response :=
  if decide (ra_updateDir h = []) then http_error 404 (bs "updates not configured")
  else
    let name := Strings.TrimPrefix (rq_path q) (bs "/p/v1/update/") in
    if decide (name ∈ updateNames) then
      match ra_files h !! Join (Join [] (ra_updateDir h)) name with Some data => MkResp 200 (update_type name) data | None => not_found end
    else not_found.

(** A signed order to reload; the flag says whether the reloads are started. *)
Definition api_refresh (now : Z) (q : request) (h : relayAPI) : response * bool :=
  match ra_pubkey h with
  | None => (json_error 503 "refresh not configured", false)
  | Some key =>
      match rq_body q with
      | None => (json_error 400 "read body", false)
      | Some body =>
          match Base64.decode (rq_header q (bs "X-Arbiter-Sig")) with
          | Some sig =>
              if negb (length sig =? 64)%nat then (json_error 401 "bad signature", false)
              else if negb (ed25519_verify key body sig) then (json_error 401 "invalid signature", false)
              else match un_ts body with
              | None => (json_error 400 "bad payload", false)
              | Some ts =>
                  if ts =? 0 then (json_error 400 "bad payload", false)
                  else if 60 * second <? Z.abs (now - time_Unix ts) then (json_error 401 "stale request", false)
                  else (json_ok (bs "{" ++ quoted "ok" ++ bs ":true}"), true)
              end
          | None => (json_error 401 "bad signature", false)
          end
      end
  end.

Definition authCached (now : Z) (e : pick_env) (ask : gostring -> answer) (q : request) (mid : authCache)
    (h : relayAPI) (r : ExitRegistry) : response * relayAPI * ExitRegistry :=
  match ra_auth h with
  | None => (not_found, h, r)
  | Some c =>
      match rq_body q ≫= un_device with
      | None | Some [] => (json_error 400 "device_id required", h, r)
      | Some device =>
          let '(o, r, c) := auth_lookup now e ask device r c mid in
          (match o with Some body => json_ok body | None => http_error 503 (bs "{" ++ quoted "error" ++ bs ":" ++ quoted "no cached login" ++ bs "," ++ quoted "transient" ++ bs ":true}") end, set_auth c h, r)
      end
  end.

Definition serveContentChunk (e : pick_env) (ask : gostring -> answer) (order : nat -> nat) (q : request) (mid : chunkCache)
    (h : relayAPI) (r : ExitRegistry) : response * relayAPI * ExitRegistry :=
  match ra_chunks h with
  | None => (not_found, h, r)
  | Some c =>
      let hash := rq_query q (bs "hash") in
      if negb (isHexSHA256 hash) then (json_error 400 "bad hash", h, r)
      else
        let '(o, r, c) := chunk_Get e ask order hash r c mid in
        (match o with Some data => MkResp 200 (bs "application/octet-stream") data | None => json_error 404 "not found" end,
         set_chunks c h, r)
  end.

(** A request passed on to the arbiter through an exit; [fail] prints the node's own errors. *)
Definition forwarded (fail : Z -> string -> response) (ask : gostring -> answer) (target : gostring) : response :=
  if negb (url_ok target) then fail 500 "internal error"
  else match ask target with
  | NoAnswer => fail 502 "forward error"
  | Answer status ctype body => MkResp status ctype (default [] body)
  end.
Definition plain_error (status : Z) (msg : string) : response := http_error status (bs msg).

Definition logGet (e : pick_env) (ask : gostring -> answer) (q : request) (r : ExitRegistry) : response * ExitRegistry :=
  let node := rq_query q (bs "node") in
  if decide (node = []) then (plain_error 400 "node query param required", r)
  else
    let '(exit, r) := pick e r in
    (match exit with
     | Ok x => forwarded plain_error ask (exitProxyURL (Addr x) (bs "/api/log/get?node=" ++ node))
     | _ => plain_error 503 "no exit available"
     end, r).
Definition serveClubKey (e : pick_env) (ask : gostring -> answer) (q : request) (r : ExitRegistry) : response * ExitRegistry :=
  let slug := rq_query q (bs "club") in
  if decide (slug = []) then (json_error 400 "club required", r)
  else if decide (rq_header q (bs "X-Session") = []) then (json_error 401 "X-Session required", r)
  else
    let '(exit, r) := pick e r in
    (match exit with
     | Ok x => forwarded json_error ask (exitProxyURL (Addr x) (bs "/api/club-key?club=" ++ slug))
     | _ => json_error 503 "no exits available"
     end, r).
Definition serveClubRecommend (e : pick_env) (ask : gostring -> answer) (q : request) (r : ExitRegistry) : response * ExitRegistry :=
  if decide (rq_header q (bs "X-Session") = []) then (json_error 401 "X-Session required", r)
  else
    let '(exit, r) := pick e r in
    (match exit with
     | Ok x => match rq_body q with
               | None => json_error 400 "read body"
               | Some _ => forwarded json_error ask (exitProxyURL (Addr x) (bs "/api/club-recommend"))
               end
     | _ => json_error 503 "no exits available"
     end, r).

Definition serveManifest (h : relayAPI) : response :=
  match ra_manifest h with [] => json_error 503 "manifest not yet available" | data => json_ok data end.
Definition serveClubManifest (q : request) (h : relayAPI) : response :=
  match default [] (ra_clubs h !! rq_query q (bs "club")) with
  | [] => json_error 503 "club manifest not yet available"
  | data => json_ok data
  end.
Definition ping (r : ExitRegistry) : response :=
  if anyAlive r then json_ok (json_ping (MinEffectiveRTT r)) else MkResp 200 [] [].

(** [ServeHTTP]; the flag says whether a reload was ordered. *)
Definition route (m p : string) (q : request) : bool := bool_decide (rq_path q = bs p) && bool_decide (rq_method q = bs m).
Definition ServeHTTP (now : Z) (e : pick_env) (ask : gostring -> answer) (order : nat -> nat) (q : request)
    (midA : authCache) (midC : chunkCache) (h : relayAPI) (r : ExitRegistry)
    : response * bool * relayAPI * ExitRegistry :=
  let plain (x : response * ExitRegistry) := let '(w, r) := x in (w, false, h, r) in
  if route "GET" "/p/v1/relay/list" q then (json_ok (bs "{" ++ quoted "version" ++ bs ":2," ++ quoted "relays" ++ bs ":[]}"), false, h, r)
  else if route "GET" "/p/v1/myip" q then (myip q, false, h, r)
  else if Strings.HasPrefix (rq_path q) (bs "/p/v1/update/") && bool_decide (rq_method q = bs "GET") then (serveUpdate q h, false, h, r)
  else if route "GET" "/p/v1/log/get" q then plain (logGet e ask q r)
  else if route "GET" "/p/v1/health" q then (json_ok (bs "{" ++ quoted "ok" ++ bs ":true}"), false, h, r)
  else if route "GET" "/p/v1/ping" q then (ping r, false, h, r)
  else if route "GET" "/p/v1/manifest" q then (serveManifest h, false, h, r)
  else if route "GET" "/p/v1/club-manifest" q then (serveClubManifest q h, false, h, r)
  else if route "GET" "/p/v1/club-key" q then plain (serveClubKey e ask q r)
  else if route "POST" "/p/v1/club-recommend" q then plain (serveClubRecommend e ask q r)
  else if route "GET" "/p/v1/content/chunk" q then
    let '(w, h, r) := serveContentChunk e ask order q midC h r in (w, false, h, r)
  else if route "POST" "/p/v1/refresh" q then let '(w, go) := api_refresh now q h in (w, go, h, r)
  else if route "POST" "/p/v1/auth/cached" q then
    let '(w, h, r) := authCached now e ask q midA h r in (w, false, h, r)
  else (not_found, false, h, r).

(** The pollers: the node's manifest with its announcement to the DHT, and a club's. *)
Definition pollManifestOnce (e : pick_env) (ask : gostring -> answer) (r : ExitRegistry) (h : relayAPI)
    : ExitRegistry * relayAPI * option (bytes * Z) :=
  let '(exit, r) := pick e r in
  match exit with
  | Ok x =>
      match ok_body (exchange ask (bs "https://" ++ exitDialAddr (Addr x) ++ bs "/api/manifest")) with
      | None | Some [] => (r, h, None)
      | Some data =>
          (r, MkApi (ra_updateDir h) (ra_pubkey h) (ra_auth h) (ra_chunks h) data (ra_clubs h) (ra_files h),
           match un_ts data with Some ts => if 0 <? ts then Some (data, ts) else None | None => None end)
      end
  | _ => (r, h, None)
  end.
Definition pollClubManifestOnce (slug : gostring) (e : pick_env) (ask : gostring -> answer) (r : ExitRegistry) (h : relayAPI)
    : ExitRegistry * relayAPI :=
  let '(exit, r) := pick e r in
  match exit with
  | Ok x =>
      match ok_body (exchange ask (bs "https://" ++ exitDialAddr (Addr x) ++ bs "/api/club-manifest?club=" ++ slug)) with
      | None | Some [] => (r, h)
      | Some data =>
          (r, MkApi (ra_updateDir h) (ra_pubkey h) (ra_auth h) (ra_chunks h) (ra_manifest h) (<[slug := data]> (ra_clubs h)) (ra_files h))
      end
  | _ => (r, h)
  end.
Definition WLWTPPortsForSelf (selfAddr : gostring) (h : relayAPI) : list Z :=
  match ra_manifest h with
  | [] => []
  | data => match un_ports data with Some m => default [] (m !! selfAddr) | None => [] end
  end.

(** ** The node's own updater (updater.go)

    [binaryPath] is a directory and a file name; the flag says that the process exits, to be
    restarted with the new binary. *)

Definition exitBaseURL (addr : gostring) : gostring :=
  let addr := Strings.TrimPrefix (Strings.TrimPrefix addr (bs "https://")) (bs "http://") in
  bs "https://" ++ (if Net.index_byte Net.colon addr then addr else addr ++ bs ":443").

Record controlUpdater := MkUpdater { up_version : gostring; up_dir : list gostring; up_name : gostring }.
Definition binaryPath (u : controlUpdater) : list gostring := up_dir u ++ [up_name u].
Definition tmpPath (u : controlUpdater) : list gostring := up_dir u ++ [up_name u ++ bs ".tmp"].

Definition checkAndApply (e : pick_env) (ask : gostring -> answer) (d : disk_env) (u : controlUpdater)
    (r : ExitRegistry) (fs : files) : ExitRegistry * files * bool :=
  let '(exit, r) := pick e r in
  match exit with
  | Ok x =>
      let base := exitBaseURL (Addr x) in
      match ok_body (exchange ask (base ++ bs "/p/node/v1/update/version")) with
      | None => (r, fs, false)
      | Some v =>
          let remoteVersion := Strings.TrimSpace v in
          if bool_decide (remoteVersion = []) || Strings.le remoteVersion (up_version u) then (r, fs, false)
          else match Strings.Fields <$> ok_body (exchange ask (base ++ bs "/p/node/v1/update/snc-control.sha256")) with
          | None | Some [] => (r, fs, false)
          | Some (field :: _) =>
              match (if de_open d
                     then downloaded (exchange ask (base ++ bs "/p/node/v1/update/snc-control")) (Strings.ToLower field)
                     else None) with
              | None => (r, set_file (de_tmp d) (tmpPath u) fs, false)
              | Some b =>
                  if negb (de_rename d) then (r, set_file (de_tmp d) (tmpPath u) fs, false)
                  else (r, <[binaryPath u := b]> (delete (tmpPath u) fs), true)
              end
          end
      end
  | _ => (r, fs, false)
  end.

(** ** The watchdog (watchdog.go): [last] is the Unix time of the last heartbeat *)

Definition watchdog_interval (deadline : Z) : Z := Z.max (Z.quot deadline 3) (30 * second).
Definition watchdog_fires (deadline now last : Z) : bool := deadline <? now - time_Unix last.

(** ** The node's own region (region.go)

    [hosts] is the answer of the reverse lookup, and the cache is as it is when data has
    arrived or two minutes have passed. *)

Definition eu_tlds : list string :=
  ["de"; "fr"; "nl"; "fi"; "se"; "pl"; "it"; "es"; "be"; "at"; "cz"; "hu"; "ro"; "bg"; "hr";
   "si"; "sk"; "lt"; "lv"; "ee"; "pt"; "gr"; "ie"; "lu"; "mt"; "cy"; "dk"]%string.
Definition tldMap : list (gostring * gostring) :=
  [(bs "ru", bs "RU"); (bs "su", bs "RU"); (bs "us", bs "US"); (bs "cn", bs "CN"); (bs "ir", bs "IR")] ++
  map (fun t => (bs t, bs "EU")) eu_tlds.
Definition tld_of (host : gostring) : gostring :=
  match Net.last_index_byte Net.dot host with Some i => drop (S i) host | None => host end.
Definition regionFromReverseDNS (hosts : option (list gostring)) : gostring :=
  match hosts with
  | None | Some [] => []
  | Some (host :: _) =>
      default [] (snd <$> List.find (fun p => bool_decide (p.1 = tld_of (Strings.TrimSuffix host (bs ".")))) tldMap)
  end.
Definition detectRegionByIP (order : nat -> nat) (c : cidrCache) (hosts : option (list gostring)) (ip : bytes) : gostring :=
  let cc := lookupCC order c ip in
  if decide (cc = []) then regionFromReverseDNS hosts else cc.

Example region_of_host : regionFromReverseDNS (Some [bs "kk.fvds.ru."]) = bs "RU".
Proof. vm_compute. reflexivity. Qed.

(** * What the caches and the API guarantee *)

(** ** The content manifest *)

(** A sequence of refreshes, each with its exit, answers and registry. *)
Fixpoint content_run (l : list (pick_env * (gostring -> answer) * ExitRegistry)) (m : contentManifest)
    : contentManifest * list Z :=
  match l with
  | [] => (m, [])
  | (e, ask, r) :: l =>
      let '(_, m, new, _) := content_refresh e ask r m in
      let '(m, told) := content_run l m in
      (m, match new with Some (_, ts) => ts :: told | None => told end)
  end.

Lemma content_refresh_cases e ask r m :
  let '(_, m', new, file) := content_refresh e ask r m in
  (m' = m /\ new = None /\ file = None) \/
  (exists data ts, un_ts data = Some ts /\ ts <> 0 /\ cm_ts m < ts /\
     m' = MkContent (cm_file m) data ts /\ new = Some (data, ts)).
Proof.
  unfold content_refresh. destruct (pick e r) as [[x|s|] r']; [|by left..].
  destruct (ok_body _) as [data|]; [|by left]. destruct (un_ts data) as [ts|] eqn:Ets; [|by left].
  destruct (ts =? 0) eqn:E0; [by left|]. destruct (ts <=? cm_ts m) eqn:El; [by left|].
  apply Z.eqb_neq in E0. apply Z.leb_gt in El. right. by exists data, ts.
Qed.

Lemma last_cons_default {A} (x d : A) l : List.last (x :: l) d = List.last l x.
Proof. revert x d. induction l as [|y l IH]; intros x d; [done|]. transitivity (List.last (y :: l) d); [done|]. by rewrite !IH. Qed.

(** The content manifest only moves forward: however the exits answer, the timestamps
    announced to the DHT over any sequence of refreshes are strictly increasing and newer
    than the manifest held at the start, and the manifest held at the end is the last one
    announced. *)
Theorem content_manifest_advances l m :
  let '(m', told) := content_run l m in
  Sorted.StronglySorted Z.lt told /\ Forall (fun ts => cm_ts m < ts) told /\
  cm_ts m' = List.last told (cm_ts m) /\ (told = [] -> m' = m).
Proof.
  revert m. induction l as [|[[e ask] r] l IH]; intros m; cbn [content_run]; [by repeat constructor|].
  pose proof (content_refresh_cases e ask r m) as H.
  destruct (content_refresh e ask r m) as [[[r' m1] new] file].
  specialize (IH m1). destruct (content_run l m1) as [m' told].
  destruct H as [(-> & -> & ->)|(data & ts & _ & _ & Hlt & -> & ->)]; [exact IH|]. cbn in IH.
  destruct IH as (Hs & Hf & Hl & Hn). split_and!.
  - by constructor.
  - constructor; [done|]. eapply Forall_impl; [exact Hf|]. cbn. lia.
  - by rewrite last_cons_default.
  - done.
Qed.

(** ** The chunk cache

    What it promises: the 256 chunks stored last, newest first. *)
Definition spec_store (hash : gostring) (data : bytes) (l : list (gostring * bytes)) : list (gostring * bytes) :=
  take contentChunkCacheMax ((hash, data) :: List.filter (fun p => negb (bool_decide (p.1 = hash))) l).

Record chunks_match (c : chunkCache) (l : list (gostring * chunkEntry)) : Prop := {
  cm_map : cc_byHash c = list_to_map l;
  cm_keys : NoDup l.*1;
  cm_order : Sorted.StronglySorted (fun p q => ck_seq q.2 < ck_seq p.2) l;
  cm_bounds : Forall (fun p => p.1 <> [] /\ 0 < ck_seq p.2 <= cc_seq c) l;
  cm_len : (length l <= contentChunkCacheMax)%nat;
  cm_pos : 0 <= cc_seq c }.

Lemma foldl_older xs acc :
  let '(k, s) := foldl older acc xs in
  Forall (fun he => s <= ck_seq he.2) xs /\ s <= acc.2 /\
  ((k, s) = acc \/ exists e, (k, e) ∈ xs /\ ck_seq e = s).
Proof.
  revert acc. induction xs as [|[h e] xs IH]; intros [k0 s0]; cbn [foldl]; [by split_and!; [constructor|cbn|left]|].
  specialize (IH (older (k0, s0) (h, e))). destruct (foldl older _ xs) as [k s].
  destruct IH as (Hf & Hle & Hor). unfold older in Hle, Hor. cbn [fst snd] in *.
  destruct (ck_seq e <? s0) eqn:E; [apply Z.ltb_lt in E|apply Z.ltb_ge in E]; cbn [fst snd] in *;
    (split_and!; [constructor; [cbn; lia|done]|lia|]);
    destruct Hor as [Hor|(e' & Hin & Hs)]; try (right; exists e'; split; [by apply list_elem_of_further|done]).
  - injection Hor as -> ->. right. exists e. split; [apply list_elem_of_here|done].
  - by left.
Qed.

(** The entry evicted is the last of the list. *)
Lemma evictOldest_last order c l k e :
  cc_byHash c = list_to_map (l ++ [(k, e)]) -> NoDup (l ++ [(k, e)]).*1 ->
  Forall (fun p => p.1 <> [] /\ ck_seq p.2 < 2 ^ 64 - 1) (l ++ [(k, e)]) ->
  Forall (fun p => ck_seq e < ck_seq p.2) l ->
  evictOldest order c = MkChunks (cc_seq c) (list_to_map l).
Proof.
  intros Hm Hnd Hb Hlast. unfold evictOldest.
  pose proof (foldl_older (range_map order (cc_byHash c)) ([], 2 ^ 64 - 1)) as H.
  assert (forall k' e', (k', e') ∈ range_map order (cc_byHash c) <-> (k', e') ∈ l ++ [(k, e)]) as Hin.
  { intros k' e'. rewrite elem_of_range_map, Hm. symmetry. by apply elem_of_list_to_map. }
  destruct (foldl older _ _) as [o s]. destruct H as (Hf & _ & Hor). cbn [fst snd].
  assert ((k, e) ∈ l ++ [(k, e)]) as Hke by (apply elem_of_app; right; by apply list_elem_of_singleton).
  assert (s <= ck_seq e) as Hse. { rewrite Forall_forall in Hf. exact (Hf (k, e) (proj2 (Hin k e) Hke)). }
  rewrite Forall_forall in Hb. destruct (Hb _ Hke) as [Hk He]. cbn [fst snd] in *.
  destruct Hor as [[= -> ->]|(e' & Hoe & <-)]; [lia|]. apply Hin, elem_of_app in Hoe. destruct Hoe as [Hoe|Hoe].
  { rewrite Forall_forall in Hlast. specialize (Hlast _ Hoe). cbn in Hlast. lia. }
  apply list_elem_of_singleton in Hoe. injection Hoe as -> ->.
  rewrite decide_False by done. f_equal. rewrite Hm.
  rewrite fmap_app in Hnd. apply NoDup_app in Hnd. destruct Hnd as (_ & Hnd & _).
  apply map_eq. intros k'. destruct (decide (k' = k)) as [->|Hne].
  - rewrite lookup_delete_eq. symmetry. apply not_elem_of_list_to_map. intros Hin'.
    apply (Hnd k Hin'). cbn. by apply list_elem_of_singleton.
  - rewrite lookup_delete_ne by done. rewrite list_to_map_app.
    apply option_eq. intros x. rewrite lookup_union_Some_raw. cbn.
    rewrite lookup_insert_ne, lookup_empty by done. naive_solver.
Qed.

Definition other_than (hash : gostring) {A} (p : gostring * A) : bool := negb (bool_decide (p.1 = hash)).

Lemma list_to_map_other hash (l : list (gostring * chunkEntry)) e :
  (<[hash := e]> (list_to_map l) : gmap gostring chunkEntry) = <[hash := e]> (list_to_map (List.filter (other_than hash) l)).
Proof.
  induction l as [|[k x] l IH]; [done|]. cbn. unfold other_than at 1. cbn [fst].
  case_bool_decide as E; cbn.
  - subst k. by rewrite insert_insert_eq.
  - rewrite insert_insert_ne, IH, insert_insert_ne; done.
Qed.

Lemma filter_keys_sublist hash (l : list (gostring * chunkEntry)) : List.filter (other_than hash) l `sublist_of` l.
Proof. induction l as [|p l IH]; cbn; [done|]. destruct (other_than hash p); by constructor. Qed.

Lemma StronglySorted_sublist {A} (R : A -> A -> Prop) l k :
  l `sublist_of` k -> Sorted.StronglySorted R k -> Sorted.StronglySorted R l.
Proof.
  induction 1 as [|x l k H IH|x l k H IH]; intros Hs; [done| |]; inversion Hs as [|? ? Hs' Hf]; subst; [|auto].
  constructor; [auto|]. rewrite Forall_forall in Hf |- *. intros y Hy. apply Hf.
  by eapply elem_of_sublist.
Qed.

(** The list after a store, before the eviction. *)
Lemma chunks_added c l hash data :
  chunks_match c l -> hash <> [] -> cc_seq c + 1 < 2 ^ 64 ->
  let l1 := (hash, MkChunk data (cc_seq c + 1)) :: List.filter (other_than hash) l in
  <[hash := MkChunk data (cc_seq c + 1)]> (cc_byHash c) = list_to_map l1 /\ NoDup l1.*1 /\
  Sorted.StronglySorted (fun p q => ck_seq q.2 < ck_seq p.2) l1 /\
  Forall (fun p => p.1 <> [] /\ 0 < ck_seq p.2 <= cc_seq c + 1) l1 /\ (length l1 <= S contentChunkCacheMax)%nat.
Proof.
  intros [Hm Hk Ho Hb Hl Hp] Hh Hs. cbn zeta. pose proof (filter_keys_sublist hash l) as Hsub.
  assert (Forall (fun p => p.1 <> [] /\ 0 < ck_seq p.2 <= cc_seq c) (List.filter (other_than hash) l)) as Hb'.
  { rewrite Forall_forall in Hb |- *. intros p Hin. by eapply Hb, elem_of_sublist. }
  split_and!.
  - rewrite Hm. cbn. apply list_to_map_other.
  - rewrite fmap_cons. constructor.
    + intros Hin. apply list_elem_of_fmap in Hin as ([k x] & E & Hin). cbn in E. subst k.
      apply list_elem_of_In, filter_In in Hin as [_ Hin]. unfold other_than in Hin. cbn in Hin.
      by rewrite bool_decide_eq_true_2 in Hin.
    + eapply sublist_NoDup; [exact Hk|]. by apply fmap_sublist.
  - constructor; [by eapply StronglySorted_sublist|]. eapply Forall_impl; [exact Hb'|]. cbn. intros p [_ ?]. lia.
  - constructor; [split; [done|cbn; lia]|]. eapply Forall_impl; [exact Hb'|]. cbn. intros p [? ?]. split; [done|lia].
  - cbn. apply le_n_S. etrans; [by apply sublist_length|done].
Qed.

Lemma chunk_store_match order hash data c l :
  chunks_match c l -> hash <> [] -> cc_seq c + 1 < 2 ^ 64 - 1 ->
  chunks_match (chunk_store order hash data c)
    (take contentChunkCacheMax ((hash, MkChunk data (cc_seq c + 1)) :: List.filter (other_than hash) l)) /\
  cc_seq (chunk_store order hash data c) = cc_seq c + 1.
Proof.
  intros Hc Hh Hs. pose proof (cm_pos _ _ Hc) as Hp.
  destruct (chunks_added c l hash data Hc Hh) as (Hm & Hk & Ho & Hb & Hl); [lia|].
  unfold chunk_store, u64. rewrite Z.mod_small by lia. cbn [cc_byHash cc_seq].
  set (l1 := _ :: _) in *. rewrite Hm. clearbody l1.
  assert (size (list_to_map l1 : gmap gostring chunkEntry) = length l1) as Hsz.
  { by apply map_size_list_to_map. }
  rewrite Hsz. destruct (_ <? _)%nat eqn:E; [apply Nat.ltb_lt in E|apply Nat.ltb_ge in E].
  - destruct (exists_last (l := l1)) as (l2 & [k e] & ->); [by intros ->; cbn in E; lia|].
    rewrite length_app in *. cbn [length] in *.
    rewrite (evictOldest_last order _ l2 k e); cbn [cc_byHash cc_seq]; [|done|done| |].
    + rewrite take_app_length' by lia. split; [|done]. apply Forall_app in Hb as [Hb _].
      rewrite fmap_app in Hk. apply NoDup_app in Hk as [Hk _].
      split; cbn [cc_byHash cc_seq]; [done|done| |done|lia|lia].
      eapply StronglySorted_sublist; [|exact Ho]. by apply sublist_inserts_r.
    + eapply Forall_impl; [exact Hb|]. cbn. intros p [? ?]. split; [done|lia].
    + clear -Ho. induction l2 as [|p l2 IH]; [constructor|]. cbn in Ho. inversion Ho as [|? ? Ho' Hf]; subst.
      constructor; [|auto]. rewrite Forall_forall in Hf. apply (Hf (k, e)), elem_of_app. right. by apply list_elem_of_singleton.
  - rewrite take_ge by done. split; [|done]. split; cbn [cc_byHash cc_seq]; [done..|lia].
Qed.

(** The contract of [Get]: [fetched] is what the exit delivers. *)
Definition spec_get (fetched : option bytes) (hash : gostring) (l : list (gostring * bytes))
    : option bytes * list (gostring * bytes) :=
  match (list_to_map l : gmap gostring bytes) !! hash with
  | Some d => (Some d, l)
  | None => (fetched, match fetched with Some d => spec_store hash d l | None => l end)
  end.

Definition chunk_view (l : list (gostring * chunkEntry)) : list (gostring * bytes) := (fun p => (p.1, ck_data p.2)) <$> l.

Lemma chunk_view_lookup l hash :
  (list_to_map (chunk_view l) : gmap gostring bytes) !! hash = ck_data <$> (list_to_map l : gmap gostring chunkEntry) !! hash.
Proof.
  induction l as [|[k e] l IH]; [done|]. cbn. destruct (decide (k = hash)) as [->|Hne].
  - by rewrite !lookup_insert_eq.
  - by rewrite !lookup_insert_ne.
Qed.

Lemma chunk_view_store hash data n l :
  chunk_view (take contentChunkCacheMax ((hash, MkChunk data n) :: List.filter (other_than hash) l)) =
  spec_store hash data (chunk_view l).
Proof.
  unfold spec_store, chunk_view. rewrite fmap_take, fmap_cons. cbn [fst snd ck_data]. do 2 f_equal.
  induction l as [|[k e] l IH]; [done|]. cbn. unfold other_than at 1. cbn [fst].
  case_bool_decide; cbn; [done|]. by rewrite <- IH.
Qed.

(** A sequence of requests for chunks, and the contract of the sequence. *)
Record chunk_req := MkChunkReq { cr_env : pick_env; cr_ask : gostring -> answer; cr_order : nat -> nat; cr_hash : gostring; cr_reg : ExitRegistry }.
Fixpoint chunk_run (l : list chunk_req) (c : chunkCache) : list (option bytes) * chunkCache :=
  match l with
  | [] => ([], c)
  | q :: l =>
      let '(o, _, c) := chunk_Get (cr_env q) (cr_ask q) (cr_order q) (cr_hash q) (cr_reg q) c c in
      let '(os, c) := chunk_run l c in (o :: os, c)
  end.
Fixpoint spec_run (l : list chunk_req) (s : list (gostring * bytes)) : list (option bytes) * list (gostring * bytes) :=
  match l with
  | [] => ([], s)
  | q :: l =>
      let '(o, s) := spec_get (chunk_fetch (cr_env q) (cr_ask q) (cr_hash q) (cr_reg q)).1 (cr_hash q) s in
      let '(os, s) := spec_run l s in (o :: os, s)
  end.

Lemma chunk_Get_match q c l :
  chunks_match c l -> cr_hash q <> [] -> cc_seq c + 1 < 2 ^ 64 - 1 ->
  let '(o, _, c') := chunk_Get (cr_env q) (cr_ask q) (cr_order q) (cr_hash q) (cr_reg q) c c in
  let '(o', s') := spec_get (chunk_fetch (cr_env q) (cr_ask q) (cr_hash q) (cr_reg q)).1 (cr_hash q) (chunk_view l) in
  o = o' /\ (exists l', chunks_match c' l' /\ s' = chunk_view l') /\ cc_seq c' <= cc_seq c + 1.
Proof.
  intros Hc Hh Hs. unfold chunk_Get, spec_get. rewrite chunk_view_lookup, <- (cm_map _ _ Hc).
  destruct (cc_byHash c !! cr_hash q) as [x|]; cbn [fmap option_fmap option_map].
  { split_and!; [done|by exists l|lia]. }
  destruct (chunk_fetch _ _ _ _) as [[d|] r']; cbn [fst]; [|split_and!; [done|by exists l|lia]].
  destruct (chunk_store_match (cr_order q) (cr_hash q) d c l Hc Hh Hs) as [Hm Hq].
  split_and!; [done| |lia]. eexists. split; [exact Hm|]. by rewrite chunk_view_store.
Qed.

(** C36: The chunk cache implements its contract, a list of the 256 chunks stored last, newest
    first: for every sequence of fewer than 2^64 - 2 requests for nonempty hashes, however
    the exits answer and in whatever order the map is ranged over, each request gets what
    the contract gives it, and at the end the cache holds exactly the chunks of the list
    and at most 256 of them. *)
Theorem chunk_cache_refines reqs :
  Forall (fun q => cr_hash q <> []) reqs -> Z.of_nat (length reqs) < 2 ^ 64 - 2 ->
  let '(os, c) := chunk_run reqs (MkChunks 0 ∅) in
  let '(os', s) := spec_run reqs [] in
  os = os' /\ (forall h, ck_data <$> cc_byHash c !! h = (list_to_map s : gmap gostring bytes) !! h) /\
  (size (cc_byHash c) <= contentChunkCacheMax)%nat.
Proof.
  intros Hh Hn.
  assert (forall c l, chunks_match c l -> cc_seq c + Z.of_nat (length reqs) < 2 ^ 64 - 1 ->
    let '(os, c') := chunk_run reqs c in let '(os', s') := spec_run reqs (chunk_view l) in
    os = os' /\ exists l', chunks_match c' l' /\ s' = chunk_view l') as Hgen.
  { clear Hn. induction Hh as [|q reqs Hq Hh IH]; intros c l Hc Hs; cbn [chunk_run spec_run]; [split; [done|by exists l]|].
    cbn [length] in Hs. pose proof (chunk_Get_match q c l Hc Hq ltac:(lia)) as Hg.
    destruct (chunk_Get _ _ _ _ _ _ _) as [[o r'] c1]. destruct (spec_get _ _ _) as [o' s1].
    destruct Hg as (-> & (l1 & Hc1 & ->) & Hs1). specialize (IH c1 l1 Hc1 ltac:(lia)).
    destruct (chunk_run reqs c1) as [os c2]. destruct (spec_run reqs _) as [os' s2].
    destruct IH as [-> H]. done. }
  specialize (Hgen (MkChunks 0 ∅) []). destruct (chunk_run reqs _) as [os c]. change (chunk_view []) with ([] : list (gostring * bytes)) in Hgen.
  destruct (spec_run reqs []) as [os' s].
  destruct Hgen as [-> (l & Hc & ->)]; [split; cbn; [done|constructor..|lia|lia]|cbn; lia|].
  split; [done|]. split.
  - intros h. by rewrite chunk_view_lookup, (cm_map _ _ Hc).
  - rewrite (cm_map _ _ Hc), map_size_list_to_map by apply (cm_keys _ _ Hc). apply (cm_len _ _ Hc).
Qed.

(** ** The distributed binaries *)

Lemma Join_name p (name : string) :
  Strings.split_by (fun c => c =? 47) (bs name) = [bs name] -> name <> ""%string -> bs name <> bs "." -> bs name <> bs ".." ->
  Join p (bs name) = p ++ [bs name].
Proof.
  intros Hs Hn Hd Hdd. unfold Join, elements. rewrite Hs. cbn. unfold push. rewrite !decide_False; [done|done|].
  intros [H|H]; [|done]. by destruct name.
Qed.

(** A directory's binary, if announced, hashes to the announcement beside it. *)
Definition announced (fs : files) : Prop := forall p b h,
  fs !! (p ++ [bs "bin"]) = Some b -> fs !! (p ++ [bs "sha256"]) = Some h -> h = Hex.encode (sha256 b) ++ [10].

Lemma announced_shrink (fs fs' : files) : fs' ⊆ fs -> announced fs -> announced fs'.
Proof. intros Hs H p b h Hb Hh. eapply H; by eapply lookup_weaken. Qed.

Lemma announced_other (o : option bytes) (p : list gostring) (name : gostring) (fs : files) :
  name <> bs "bin" -> name <> bs "sha256" -> announced fs -> announced (set_file o (p ++ [name]) fs).
Proof.
  intros Hb Hh H q b h. unfold set_file.
  rewrite !lookup_partial_alter_ne; [apply H|intros E; apply app_inj_tail in E as [_ E]; by subst..].
Qed.

Lemma announced_install (p : list gostring) (b : bytes) (fs : files) :
  announced fs -> announced (<[p ++ [bs "sha256"] := Hex.encode (sha256 b) ++ [10]]> (<[p ++ [bs "bin"] := b]> fs)).
Proof.
  intros H q c h. destruct (decide (q = p)) as [->|Hne].
  - rewrite lookup_insert_eq, lookup_insert_ne, lookup_insert_eq by (intros E; by apply app_inj_tail in E as [_ E]). by intros [= <-] [= <-].
  - assert (forall n m, p ++ [n] <> q ++ [m]) as Hd by (intros n m E; apply app_inj_tail in E as [E _]; congruence).
    rewrite !lookup_insert_ne by apply Hd. apply H.
Qed.

Lemma downloaded_hash a h b : downloaded a h = Some b -> Hex.encode (sha256 b) = h.
Proof. unfold downloaded. destruct (ok_body a); [|done]. case_decide; [|done]. by intros [= <-]. Qed.

(** The operations of [fetchOne]: changes of its temporary file only, or with a binary [b] that
    hashes to the announcement the whole installation. *)
Inductive fetch_ops (d : disk_env) (dir : list gostring) (hash : gostring) : list disk_op -> Prop :=
| fo_none ops : (ops = [] \/ ops = [Put dir None]) -> fetch_ops d dir hash ops
| fo_tmp pre contents : (pre = [] \/ pre = [Put dir None]) ->
    fetch_ops d dir hash (pre ++ ((fun o => Put (dir ++ [bs "bin.tmp"]) o) <$> contents))
| fo_install pre contents b v sig : (pre = [] \/ pre = [Put dir None]) -> Hex.encode (sha256 b) = hash ->
    fetch_ops d dir hash
      ((pre ++ ((fun o => Put (dir ++ [bs "bin.tmp"]) o) <$> contents) ++ [Put (dir ++ [bs "bin.tmp"]) (Some b)])
       ++ [Rename (dir ++ [bs "bin.tmp"]) (dir ++ [bs "bin"])]
       ++ write_ops d dir (bs "sha256") (hash ++ [10]) ++ write_ops d dir (bs "version") (v ++ [10])
       ++ (if decide (sig = []) then (if de_unsig d then [Put (dir ++ [bs "sig"]) None] else [])
           else write_ops d dir (bs "sig") (sig ++ [10]))).

Lemma fetchOne_ops_shape e ask d cacheDir slug v hash sig r fs :
  fetch_ops d (Join cacheDir slug) hash (fetchOne_ops e ask d cacheDir slug v hash sig r fs).2.
Proof.
  unfold fetchOne_ops. cbv zeta. case_decide; [apply fo_none; by left|]. case_decide; [apply fo_none; by left|].
  destruct (pick e r) as [[x|s|] r']; [|apply fo_none; by left..]. destruct (_ && _); [apply fo_none; by left|].
  set (pre := if bool_decide _ then _ else _). assert (pre = [] \/ pre = [Put (Join cacheDir slug) None]) as Hpre.
  { unfold pre. case_bool_decide; auto. }
  clearbody pre. destruct (negb _); [by apply fo_none|]. set (dir := Join cacheDir slug) in *. clearbody dir.
  rewrite !Join_name by done.
  assert (forall l : list bytes, (fun c => Put (dir ++ [bs "bin.tmp"]) (Some c)) <$> l
    = (fun o => Put (dir ++ [bs "bin.tmp"]) o) <$> (Some <$> l)) as Hp by (intros l; by rewrite <- list_fmap_compose).
  rewrite Hp. set (contents := Some <$> de_parts d (bs "bin.tmp")). clearbody contents.
  assert (forall o, [Put (dir ++ [bs "bin.tmp"]) o] = (fun o => Put (dir ++ [bs "bin.tmp"]) o) <$> [o]) as H1 by done.
  destruct (if de_open d then _ else None) as [b|] eqn:Ed; cbn [snd].
  2: { rewrite <- app_assoc, H1, <- fmap_app. by apply fo_tmp. }
  destruct (negb _); cbn [snd].
  { rewrite <- !app_assoc, (H1 (Some b)), (H1 (de_tmp d)), <- !fmap_app. by apply fo_tmp. }
  rewrite <- (app_assoc pre). apply fo_install; [done|]. destruct (de_open d); [|done]. by eapply downloaded_hash.
Qed.

Lemma run_ops_app o1 o2 fs : run_ops (o1 ++ o2) fs = run_ops o2 (run_ops o1 fs).
Proof. apply fold_left_app. Qed.

Lemma states_app o1 o2 fs fs' : fs' ∈ states (o1 ++ o2) fs -> fs' ∈ states o1 fs \/ fs' ∈ states o2 (run_ops o1 fs).
Proof.
  revert fs. induction o1 as [|o o1 IH]; intros fs; [by right|]. cbn [app states]. intros [->|H]%elem_of_cons; [left; apply list_elem_of_here|].
  destruct (IH _ H) as [?|?]; [left; by apply list_elem_of_further | by right].
Qed.

Lemma states_last ops fs : run_ops ops fs ∈ states ops fs.
Proof.
  revert fs. induction ops as [|o ops IH]; intros fs; cbn [states]; [apply list_elem_of_here|].
  apply list_elem_of_further. apply (IH (run_op fs o)).
Qed.

Lemma states_take k ops fs : run_ops (take k ops) fs ∈ states ops fs.
Proof.
  revert k fs. induction ops as [|o ops IH]; intros [|k] fs; cbn [take states run_ops fold_left]; try apply list_elem_of_here.
  apply list_elem_of_further. apply (IH k (run_op fs o)).
Qed.

(** An operation that writes no binary: a file goes, or one of another name changes. *)
Definition spares (names : list gostring) (o : disk_op) : Prop :=
  match o with
  | Put path None => True
  | Put path (Some _) => exists p name, path = p ++ [name] /\ name ∉ names
  | Rename _ _ => False
  end.

Lemma write_spares names d dir (name : string) data : Join dir (bs name) = dir ++ [bs name] -> bs name ∉ names ->
  Forall (spares names) (write_ops d dir (bs name) data).
Proof.
  intros E Hn. unfold write_ops. rewrite E. apply Forall_app_2.
  - apply Forall_fmap, Forall_true. intros c. by eexists _, _.
  - constructor; [|constructor]. destruct (if de_write d (bs name) then _ else _); [by eexists _, _|done].
Qed.

Lemma tmp_spares names (dir : list gostring) pre contents : bs "bin.tmp" ∉ names -> (pre = [] \/ pre = [Put dir None]) ->
  Forall (spares names) (pre ++ ((fun o => Put (dir ++ [bs "bin.tmp"]) o) <$> contents)).
Proof.
  intros Hn Hp. apply Forall_app_2; [destruct Hp as [->| ->]; by repeat constructor|].
  apply Forall_fmap, Forall_true. intros [c|]; [by eexists _, _|done].
Qed.

Lemma sig_spares names d (dir : list gostring) (sig : gostring) : bs "sig" ∉ names ->
  Forall (spares names) (if decide (sig = []) then (if de_unsig d then [Put (dir ++ [bs "sig"]) None] else [])
    else write_ops d dir (bs "sig") (sig ++ [10])).
Proof.
  intros Hn. case_decide; [destruct (de_unsig d); by repeat constructor|]. by apply write_spares; [apply Join_name|].
Qed.

(** Such operations leave the binaries alone, or take them away. *)
Lemma spared_lookup names ops fs p name b : name ∈ names -> Forall (spares names) ops ->
  run_ops ops fs !! (p ++ [name]) = Some b -> fs !! (p ++ [name]) = Some b.
Proof.
  intros Hn Hs. revert fs. induction Hs as [|o ops Ho Hs IH]; intros fs; [done|]. intros H. apply (IH (run_op fs o)) in H.
  destruct o as [path [c|]|from to]; cbn [run_op] in H; [| |done]; unfold set_file in H.
  - destruct Ho as (q & n & -> & Hq). rewrite lookup_partial_alter_ne in H; [done|].
    intros E. apply app_inj_tail in E as [_ ->]. done.
  - destruct (decide (path = p ++ [name])) as [->|Hne]; [by rewrite lookup_partial_alter_eq in H|].
    by rewrite lookup_partial_alter_ne in H.
Qed.

Lemma spared_states names ops fs fs' p name b : name ∈ names -> Forall (spares names) ops -> fs' ∈ states ops fs ->
  fs' !! (p ++ [name]) = Some b -> fs !! (p ++ [name]) = Some b.
Proof.
  intros Hn Hs. revert fs. induction Hs as [|o ops Ho Hs IH]; intros fs; cbn [states].
  { by intros ->%list_elem_of_singleton. }
  intros [->|Hin]%elem_of_cons Hb; [done|]. specialize (IH _ Hin Hb).
  apply (spared_lookup names [o] fs p name b Hn); [by constructor|exact IH].
Qed.

(** The binary is in place after the rename. *)
Lemma rename_lookup (dir : list gostring) pre contents b fs :
  let fs1 := run_ops (pre ++ ((fun o => Put (dir ++ [bs "bin.tmp"]) o) <$> contents) ++ [Put (dir ++ [bs "bin.tmp"]) (Some b)]) fs in
  run_op fs1 (Rename (dir ++ [bs "bin.tmp"]) (dir ++ [bs "bin"])) = <[dir ++ [bs "bin"] := b]> (delete (dir ++ [bs "bin.tmp"]) fs1).
Proof.
  intros fs1. cbn [run_op]. assert (fs1 !! (dir ++ [bs "bin.tmp"]) = Some b) as ->; [|done].
  unfold fs1. rewrite app_assoc, run_ops_app. cbn. unfold set_file. by rewrite lookup_partial_alter_eq.
Qed.

(** A completed write. *)
Lemma run_write d dir name data fs : de_write d name = true -> run_ops (write_ops d dir name data) fs = <[Join dir name := data]> fs.
Proof.
  intros Hw. unfold write_ops. rewrite Hw. generalize (de_parts d name). intros l. revert fs.
  induction l as [|c l IH]; intros fs; [done|]. cbn [fmap list_fmap app]. cbn [run_ops fold_left]. fold (run_ops (((fun c => Put (Join dir name) (Some c)) <$> l)
    ++ [Put (Join dir name) (Some data)]) (run_op fs (Put (Join dir name) (Some c)))). rewrite IH.
  change (run_op fs (Put (Join dir name) (Some c))) with (<[Join dir name := c]> fs). apply insert_insert_eq.
Qed.

Lemma announced_spares ops fs : Forall (spares [bs "bin"; bs "sha256"]) ops -> announced fs -> announced (run_ops ops fs).
Proof.
  intros Hs H p b h Hb Hh. apply (H p b h); eapply spared_lookup; [|exact Hs|exact Hb| |exact Hs|exact Hh];
    apply (bool_decide_unpack _); vm_compute; exact I.
Qed.

Lemma fetchOne_announced e ask d cacheDir slug v hash sig r fs :
  (forall n, de_write d n = true) -> announced fs -> announced (fetchOne e ask d cacheDir slug v hash sig r fs).2.
Proof.
  intros Hw H. unfold fetchOne. pose proof (fetchOne_ops_shape e ask d cacheDir slug v hash sig r fs) as Hs.
  destruct (fetchOne_ops _ _ _ _ _ _ _ _ _ _) as [r' ops]. cbn [snd] in *. destruct Hs as [ops Ho|pre contents Hpre|pre contents b v' sig' Hpre <-].
  - apply announced_spares; [|done]. destruct Ho as [-> | ->]; by repeat constructor.
  - apply announced_spares; [|done]. apply tmp_spares; [|done]. by apply (bool_decide_unpack _).
  - set (A := pre ++ _). rewrite (run_ops_app A), (run_ops_app [Rename _ _]).
    change (run_ops [Rename ?x ?y] ?z) with (run_op z (Rename x y)). unfold A. rewrite rename_lookup.
    rewrite 2!run_ops_app, !run_write, !Join_name by done.
    set (fs1 := run_ops _ fs). assert (announced (delete (Join cacheDir slug ++ [bs "bin.tmp"]) fs1)) as H1.
    { eapply announced_shrink; [apply delete_subseteq|]. unfold fs1. apply announced_spares; [|done]. rewrite app_assoc.
      apply Forall_app_2; [by apply tmp_spares; [apply (bool_decide_unpack _)|]|].
      constructor; [|constructor]. eexists _, _. split; [done|]. by apply (bool_decide_unpack _). }
    clearbody fs1. apply announced_spares; [by apply sig_spares, (bool_decide_unpack _)|].
    apply (announced_other (Some (v' ++ [10]))); [done|done|]. by apply announced_install.
Qed.

(** The life of the cache directory: a clean-up and any number of fetch cycles. *)
Inductive cache_run (cacheDir : list gostring) : files -> Prop :=
  | cr_start ok fs : announced fs -> cache_run cacheDir (cleanupLegacyCache ok cacheDir fs)
  | cr_fetch e envs order ask d r fs :
      cache_run cacheDir fs -> (forall n, de_write d n = true) -> cache_run cacheDir (fetchAll e envs order ask d cacheDir r fs).2.

Lemma fetch_entries_announced l envs ask d cacheDir r fs :
  (forall n, de_write d n = true) -> announced fs -> announced (fetch_entries l envs ask d cacheDir r fs).2.
Proof.
  intros Hw. revert r fs. induction l as [|[slug m] l IH]; intros r fs H; [done|]. cbn [fetch_entries].
  destruct (me_available m); [|by apply IH].
  pose proof (fetchOne_announced (envs slug) ask d cacheDir slug (me_version m) (me_hash m) (me_sig m) r fs Hw H) as H1.
  destruct (fetchOne _ _ _ _ _ _ _ _ _ _) as [r1 fs1]. by apply IH.
Qed.

Lemma cleanup_subseteq ok cacheDir fs : cleanupLegacyCache ok cacheDir fs ⊆ fs.
Proof.
  unfold cleanupLegacyCache. generalize legacyNames. intros l. revert fs. induction l as [|n l IH]; intros fs; [done|].
  cbn. etrans; [apply IH|]. destruct (ok n); [apply delete_subseteq|done].
Qed.

Lemma cache_run_announced cacheDir fs : cache_run cacheDir fs -> announced fs.
Proof.
  induction 1 as [ok fs H|e envs order ask d r fs _ IH Hw].
  - eapply announced_shrink; [apply cleanup_subseteq|exact H].
  - unfold fetchAll. destruct (pick e r) as [[x|s|] r']; [|done..].
    destruct (_ ≫= _); [|done]. by apply fetch_entries_announced.
Qed.

(** The paths of a slug are parsed back into it. *)
Definition no_suffix (slug : gostring) : Prop :=
  slug <> [] /\ Forall (fun s => Strings.HasSuffix slug s = false) [bs "-version"; bs ".sha256"; bs ".sig"].

Lemma suffix_last s q c d : c <> d -> Strings.HasSuffix (s ++ [c]) (q ++ [d]) = false.
Proof.
  intros Hn. apply not_true_is_false. intros H. apply Strings.HasSuffix_spec in H as [t E].
  rewrite app_assoc in E. apply app_inj_tail in E as [_ E]. done.
Qed.

Lemma HasSuffix_self s p : Strings.HasSuffix (s ++ p) p = true.
Proof. apply Strings.HasSuffix_spec. by exists s. Qed.

Lemma parse_client_path rest :
  parseClientUpdatePath (bs "/client-" ++ rest) =
  let '(slug, file, ctype) :=
    if Strings.HasSuffix rest (bs "-version") then (Strings.TrimSuffix rest (bs "-version"), bs "version", bs "text/plain; charset=utf-8")
    else if Strings.HasSuffix rest (bs ".sha256") then (Strings.TrimSuffix rest (bs ".sha256"), bs "sha256", bs "text/plain; charset=utf-8")
    else if Strings.HasSuffix rest (bs ".sig") then (Strings.TrimSuffix rest (bs ".sig"), bs "sig", bs "text/plain; charset=utf-8")
    else (rest, bs "bin", bs "application/octet-stream") in
  if decide (slug = []) then None else Some (slug, file, ctype).
Proof. reflexivity. Qed.

Lemma parse_update_paths slug : no_suffix slug ->
  parseClientUpdatePath (bs "/client-" ++ slug) = Some (slug, bs "bin", bs "application/octet-stream") /\
  parseClientUpdatePath (bs "/client-" ++ slug ++ bs "-version") = Some (slug, bs "version", bs "text/plain; charset=utf-8") /\
  parseClientUpdatePath (bs "/client-" ++ slug ++ bs ".sha256") = Some (slug, bs "sha256", bs "text/plain; charset=utf-8") /\
  parseClientUpdatePath (bs "/client-" ++ slug ++ bs ".sig") = Some (slug, bs "sig", bs "text/plain; charset=utf-8").
Proof.
  intros [Hne Hs]. rewrite !Forall_cons in Hs. destruct Hs as (Hv & Hh & Hg & _). rewrite !parse_client_path.
  assert (forall (p q : gostring) c d, c <> d -> Strings.HasSuffix (slug ++ p ++ [c]) (q ++ [d]) = false) as Hd.
  { intros p q c d Hcd. rewrite app_assoc. by apply suffix_last. }
  split_and!.
  - by rewrite Hv, Hh, Hg, decide_False.
  - by rewrite HasSuffix_self, Strings.TrimSuffix_app, decide_False.
  - assert (Strings.HasSuffix (slug ++ bs ".sha256") (bs "-version") = false) as -> by exact (Hd (bs ".sha25") (bs "-versio") 54 110 ltac:(done)).
    by rewrite HasSuffix_self, Strings.TrimSuffix_app, decide_False.
  - assert (Strings.HasSuffix (slug ++ bs ".sig") (bs "-version") = false) as -> by exact (Hd (bs ".si") (bs "-versio") 103 110 ltac:(done)).
    assert (Strings.HasSuffix (slug ++ bs ".sig") (bs ".sha256") = false) as -> by exact (Hd (bs ".si") (bs ".sha25") 103 54 ltac:(done)).
    by rewrite HasSuffix_self, Strings.TrimSuffix_app, decide_False.
Qed.

Definition GET_file (cacheDir : list gostring) (path : gostring) (fs : files) : response := serve_client_update cacheDir (bs "GET") path fs.

(** Every moment of the cache directory, with what manifests have announced so far: which hash
    for which directory. It starts without binaries; a fetch of a binary that an exit's
    manifest announces is seen after any of its operations, and a new start of the process,
    with its clean-up, may come at any moment. *)
Inductive moment (cacheDir : list gostring) : list (list gostring * gostring) -> files -> Prop :=
  | mo_empty fs : (forall p, fs !! (p ++ [bs "bin"]) = None) -> moment cacheDir [] fs
  | mo_cleanup ok log fs : moment cacheDir log fs -> moment cacheDir log (cleanupLegacyCache ok cacheDir fs)
  | mo_fetch e ask d url manifest slug m r log fs fs' : moment cacheDir log fs ->
      ok_body (exchange ask url) ≫= un_update_manifest = Some manifest -> manifest !! slug = Some m ->
      fs' ∈ states (fetchOne_ops e ask d cacheDir slug (me_version m) (me_hash m) (me_sig m) r fs).2 fs ->
      moment cacheDir ((Join cacheDir slug, me_hash m) :: log) fs'.

(** Every binary was announced for its directory. *)
Definition bins_announced (log : list (list gostring * gostring)) (fs : files) : Prop :=
  forall p b, fs !! (p ++ [bs "bin"]) = Some b -> (p, Hex.encode (sha256 b)) ∈ log.

Lemma fetch_ops_bins d dir hash ops log fs fs' : fetch_ops d dir hash ops -> bins_announced log fs -> fs' ∈ states ops fs ->
  bins_announced ((dir, hash) :: log) fs'.
Proof.
  intros Hf Hb Hin. assert (bs "bin" ∈ [bs "bin"]) as Hbin by apply list_elem_of_here.
  assert (forall ops fs0 fs', Forall (spares [bs "bin"]) ops -> bins_announced ((dir, hash) :: log) fs0 -> fs' ∈ states ops fs0 ->
    bins_announced ((dir, hash) :: log) fs') as Hsp.
  { intros ops0 fs0 fs1 Hs H0 Hi p b Hpb. apply H0. by eapply spared_states. }
  assert (bins_announced ((dir, hash) :: log) fs) as Hb' by (intros p b Hpb; apply list_elem_of_further; by apply Hb).
  assert (bs "bin.tmp" ∉ [bs "bin"]) as Ht by (by apply (bool_decide_unpack _)).
  destruct Hf as [ops Ho|pre contents Hpre|pre contents b v sig Hpre <-].
  - eapply Hsp; [|exact Hb'|exact Hin]. destruct Ho as [-> | ->]; by repeat constructor.
  - eapply Hsp; [|exact Hb'|exact Hin]. by apply tmp_spares.
  - assert (Forall (spares [bs "bin"]) (pre ++ ((fun o => Put (dir ++ [bs "bin.tmp"]) o) <$> contents)
      ++ [Put (dir ++ [bs "bin.tmp"]) (Some b)])) as HA.
    { rewrite app_assoc. apply Forall_app_2; [by apply tmp_spares|]. constructor; [by eexists _, _|constructor]. }
    apply states_app in Hin as [Hin|Hin]; [by eapply Hsp|].
    set (fs1 := run_ops _ fs) in Hin. cbn [app states] in Hin. apply elem_of_cons in Hin as [->|Hin].
    { eapply Hsp; [exact HA|exact Hb'|apply states_last]. }
    unfold fs1 in Hin. rewrite rename_lookup in Hin. fold fs1 in Hin. eapply Hsp; [| |exact Hin].
    + apply Forall_app_2; [|apply Forall_app_2]; [apply write_spares; [by apply Join_name|]..|apply sig_spares]; by apply (bool_decide_unpack _).
    + intros p c. destruct (decide (p = dir)) as [->|Hne].
      * rewrite lookup_insert_eq. intros [= ->]. apply list_elem_of_here.
      * rewrite lookup_insert_ne by (intros E; by apply app_inj_tail in E as [-> _]).
        intros [_ Hc]%lookup_delete_Some. eapply Hsp; [exact HA|exact Hb'|apply states_last|exact Hc].
Qed.

Lemma moment_bins cacheDir log fs : moment cacheDir log fs -> bins_announced log fs.
Proof.
  induction 1 as [fs H|ok log fs _ IH|e ask d url manifest slug m r log fs fs' _ IH _ _ Hin].
  - intros p b Hb. by rewrite H in Hb.
  - intros p b Hb. apply IH. eapply lookup_weaken; [exact Hb|apply cleanup_subseteq].
  - eapply fetch_ops_bins; [apply fetchOne_ops_shape|exact IH|exact Hin].
Qed.

(** The end of a whole cycle is such a moment. *)
Lemma fetchAll_moment e envs order ask d cacheDir r log fs :
  moment cacheDir log fs -> exists log', moment cacheDir log' (fetchAll e envs order ask d cacheDir r fs).2.
Proof.
  intros Hm. unfold fetchAll. destruct (pick e r) as [[x|s|] r']; [|by exists log..].
  destruct (_ ≫= un_update_manifest) as [manifest|] eqn:Em; [|by exists log].
  assert (forall p, p ∈ range_map order manifest -> manifest !! p.1 = Some p.2) as Hl
    by (intros [k v]; apply elem_of_range_map). revert Hl.
  generalize (range_map order manifest). intros l. revert log r' fs Hm. induction l as [|[slug m] l IH]; intros log r' fs Hm Hl; [by exists log|].
  cbn [fetch_entries]. assert (forall p, p ∈ l -> manifest !! p.1 = Some p.2) as Hl' by (intros p Hp; by apply Hl, list_elem_of_further).
  destruct (me_available m); [|by eapply IH]. unfold fetchOne.
  pose proof (fun fs' => mo_fetch cacheDir (envs slug) ask d _ manifest slug m r' log fs fs' Hm Em (Hl (slug, m) (list_elem_of_here _ _))) as Hf.
  destruct (fetchOne_ops _ _ _ _ _ _ _ _ _ _) as [r1 ops]. cbn [snd] in Hf. eapply IH; [|exact Hl']. apply Hf, states_last.
Qed.

(** C37: What the update server sends as /client-<slug> is at every moment, also in the middle of
    a fetch cycle, whatever the exits answer, whichever writes of the disk fail or stay
    incomplete and however often the process starts anew, a whole binary whose SHA-256 a
    manifest announced for that directory. (The hash file beside it may be another's at such
    a moment: [hash_lags_binary]; between cycles whose writes were completed it is not:
    [served_binary_matches_hash].) *)
Theorem served_binary_announced cacheDir log fs slug ct b :
  moment cacheDir log fs -> no_suffix slug ->
  GET_file cacheDir (bs "/client-" ++ slug) fs = MkResp 200 ct b ->
  (Join cacheDir slug, Hex.encode (sha256 b)) ∈ log.
Proof.
  intros Hm Hs. destruct (parse_update_paths slug Hs) as (Hb & _).
  unfold GET_file, serve_client_update. rewrite Hb. cbn -[Join bs]. rewrite Join_name by done.
  destruct (fs !! _) as [b'|] eqn:Eb; [|done]. intros [= _ ->]. by eapply moment_bins.
Qed.

(** Between cycles, on a disk that completed its writes, whatever the exits answered, the body
    of /client-<slug>.sha256 is the SHA-256 of the body of /client-<slug>. *)
Theorem served_binary_matches_hash cacheDir fs slug ct ct' b h :
  cache_run cacheDir fs -> no_suffix slug ->
  GET_file cacheDir (bs "/client-" ++ slug) fs = MkResp 200 ct b ->
  GET_file cacheDir (bs "/client-" ++ slug ++ bs ".sha256") fs = MkResp 200 ct' h ->
  h = Hex.encode (sha256 b) ++ [10].
Proof.
  intros Hr Hs. destruct (parse_update_paths slug Hs) as (Hb & _ & Hh & _).
  unfold GET_file, serve_client_update. rewrite Hb, Hh. cbn -[Join bs]. rewrite !Join_name by done.
  destruct (fs !! _) as [b'|] eqn:Eb; [|done]. intros [= _ ->].
  destruct (fs !! (_ ++ [bs "sha256"])) as [h'|] eqn:Eh; [|done]. intros [= _ ->].
  by eapply cache_run_announced.
Qed.

(** The names that fetching a plain slug can touch lie below its directory. *)
Definition plain (slug : gostring) : Prop := forall p, Join p slug = p ++ [slug].

(** Operations that put nothing at [q] leave it empty. *)
Definition misses (q : list gostring) (o : disk_op) : Prop :=
  match o with Put path (Some _) => path <> q | Put _ None => True | Rename _ to => to <> q end.

Lemma missed_lookup (q : list gostring) (ops : list disk_op) (fs : files) : Forall (misses q) ops -> fs !! q = None -> run_ops ops fs !! q = None.
Proof.
  intros Hm. revert fs. induction Hm as [|o ops Ho Hm IH]; intros fs Hn; [done|]. apply (IH (run_op fs o)).
  destruct o as [path [c|]|from to]; cbn [run_op]; unfold set_file.
  - by rewrite lookup_partial_alter_ne.
  - destruct (decide (path = q)) as [->|Hne]; [by rewrite lookup_partial_alter_eq | by rewrite lookup_partial_alter_ne].
  - destruct (fs !! from); [|done]. rewrite lookup_insert_ne by done. apply lookup_delete_None. by right.
Qed.

Lemma fetch_ops_miss d dir hash ops q : (forall el, dir ++ [el] <> q) -> fetch_ops d dir hash ops -> Forall (misses q) ops.
Proof.
  intros Hd Hf.
  assert (forall name data, Join dir name = dir ++ [name] -> Forall (misses q) (write_ops d dir name data)) as Hw.
  { intros name data E. unfold write_ops. rewrite E. apply Forall_app_2; [apply Forall_fmap, Forall_true; intros c; apply Hd|].
    constructor; [|constructor]. destruct (if de_write d name then _ else _); [apply Hd|done]. }
  assert (forall pre contents, pre = [] \/ pre = [Put dir None] ->
    Forall (misses q) (pre ++ ((fun o => Put (dir ++ [bs "bin.tmp"]) o) <$> contents))) as Ht.
  { intros pre contents Hp. apply Forall_app_2; [destruct Hp as [-> | ->]; by repeat constructor|].
    apply Forall_fmap, Forall_true. intros [c|]; [apply Hd|done]. }
  destruct Hf as [ops Ho|pre contents Hpre|pre contents b v sig Hpre _].
  - destruct Ho as [-> | ->]; by repeat constructor.
  - by apply Ht.
  - apply Forall_app_2; [|apply Forall_app_2; [|apply Forall_app_2; [|apply Forall_app_2]]].
    + rewrite app_assoc. apply Forall_app_2; [by apply Ht|]. constructor; [apply Hd | constructor].
    + constructor; [apply Hd | constructor].
    + by apply Hw, Join_name.
    + by apply Hw, Join_name.
    + case_decide; [destruct (de_unsig d); by repeat constructor|]. by apply Hw, Join_name.
Qed.

Lemma fetchOne_below e ask d cacheDir slug v hash sig r fs name :
  plain slug -> fs !! (cacheDir ++ [name]) = None ->
  (fetchOne e ask d cacheDir slug v hash sig r fs).2 !! (cacheDir ++ [name]) = None.
Proof.
  intros Hp Hn. unfold fetchOne. pose proof (fetchOne_ops_shape e ask d cacheDir slug v hash sig r fs) as Hs.
  destruct (fetchOne_ops _ _ _ _ _ _ _ _ _ _) as [r' ops]. cbn [snd] in *. apply missed_lookup; [|done].
  eapply fetch_ops_miss; [|exact Hs]. intros el E. rewrite Hp, <- app_assoc in E. by apply app_inv_head in E.
Qed.

(** The cache directory from the start of the process on, fetching plain slugs. *)
Inductive started (cacheDir : list gostring) : files -> Prop :=
  | started_clean fs : started cacheDir (cleanupLegacyCache (fun _ => true) cacheDir fs)
  | started_fetch e ask d slug v hash sig r fs :
      plain slug -> started cacheDir fs -> started cacheDir (fetchOne e ask d cacheDir slug v hash sig r fs).2.

Lemma cleanup_removes cacheDir fs name : name ∈ updateNames ->
  cleanupLegacyCache (fun _ => true) cacheDir fs !! (cacheDir ++ [name]) = None.
Proof.
  intros Hin. assert (name ∈ legacyNames /\ Join cacheDir name = cacheDir ++ [name]) as [Hl <-].
  { unfold updateNames in Hin. rewrite !elem_of_cons in Hin.
    destruct Hin as [->|[->|[->|[->|[->|[->|Hin]]]]]]; [..|by apply not_elem_of_nil in Hin];
      (split; [by apply list_elem_of_In; vm_compute; tauto|reflexivity]). }
  unfold cleanupLegacyCache. revert fs. clear Hin. induction legacyNames as [|m l IH]; [by apply not_elem_of_nil in Hl|].
  intros fs. cbn [foldl]. apply elem_of_cons in Hl as [<-|Hl]; [|by apply IH].
  clear. generalize (lookup_delete_eq fs (Join cacheDir name)). generalize (delete (Join cacheDir name) fs).
  intros fs' H. change (foldl _ fs' l) with (foldl (fun fs name => delete (Join cacheDir name) fs) fs' l).
  revert fs' H. induction l as [|m l IH]; intros fs' H; [done|]. cbn. apply IH. apply lookup_delete_None. by right.
Qed.

(** The files the relay API serves under /p/v1/update/ are exactly files the client cache
    removes when it starts, in the same directory: once the cache runs, every such request
    is answered 404, whatever is fetched afterwards. *)
Theorem relay_updates_gone h q fs :
  started (Join [] (ra_updateDir h)) fs -> ra_files h = fs -> ra_updateDir h <> [] -> serveUpdate q h = not_found.
Proof.
  intros Hs <- Hd. unfold serveUpdate. rewrite decide_False by done. case_decide as Hin; [|done].
  set (name := Strings.TrimPrefix _ _) in *. clearbody name.
  assert (Join (Join [] (ra_updateDir h)) name = Join [] (ra_updateDir h) ++ [name]) as ->.
  { clear -Hin. unfold updateNames in Hin. rewrite !elem_of_cons in Hin.
    destruct Hin as [->|[->|[->|[->|[->|[->|Hin]]]]]]; [reflexivity..|by apply not_elem_of_nil in Hin]. }
  assert (ra_files h !! (Join [] (ra_updateDir h) ++ [name]) = None) as ->; [|done].
  induction Hs as [fs|e ask d slug v hash sig r fs Hp Hs IH]; [by apply cleanup_removes|by apply fetchOne_below].
Qed.

(** ** The signed reload *)

Definition authentic_order (now : Z) (q : request) (h : relayAPI) : Prop :=
  rq_path q = bs "/p/v1/refresh" /\ rq_method q = bs "POST" /\
  exists key body sig ts,
    ra_pubkey h = Some key /\ rq_body q = Some body /\
    Base64.decode (rq_header q (bs "X-Arbiter-Sig")) = Some sig /\ length sig = 64%nat /\
    ed25519_verify key body sig = true /\ un_ts body = Some ts /\ ts <> 0 /\
    Z.abs (now - time_Unix ts) <= 60 * second.

(** A guard that answers an error orders nothing. *)
Ltac refused :=
  split; [done|];
  intros (? & ? & ? & ? & ? & ? & ? & ? & ? & ? & ? & ?); exfalso; simplify_eq; try congruence; lia.

Lemma api_refresh_orders now q h :
  (api_refresh now q h).2 = true <->
  exists key body sig ts,
    ra_pubkey h = Some key /\ rq_body q = Some body /\
    Base64.decode (rq_header q (bs "X-Arbiter-Sig")) = Some sig /\ length sig = 64%nat /\
    ed25519_verify key body sig = true /\ un_ts body = Some ts /\ ts <> 0 /\
    Z.abs (now - time_Unix ts) <= 60 * second.
Proof.
  unfold api_refresh. destruct (ra_pubkey h) as [key|]; [|refused].
  destruct (rq_body q) as [body|]; [|refused]. destruct (Base64.decode _) as [sig|]; [|refused].
  destruct (length sig =? 64)%nat eqn:El; [apply Nat.eqb_eq in El|apply Nat.eqb_neq in El; refused].
  destruct (ed25519_verify key body sig) eqn:Ev; [|refused].
  destruct (un_ts body) as [ts|] eqn:Et; [|refused].
  destruct (ts =? 0) eqn:E0; [apply Z.eqb_eq in E0; refused|apply Z.eqb_neq in E0].
  destruct (60 * second <? Z.abs (now - time_Unix ts)) eqn:Ea; [apply Z.ltb_lt in Ea; refused|apply Z.ltb_ge in Ea].
  split; [intros _|done]. by exists key, body, sig, ts.
Qed.

Definition ordered {A B C} (x : A * bool * B * C) : bool := x.1.1.2.

Lemma route_other m p q path : rq_path q = bs path -> bs p <> bs path -> route m p q = false.
Proof. intros Hp Hn. unfold route. by rewrite Hp, bool_decide_eq_false_2. Qed.

(** The relay API starts a reload of the exit list and of the client cache for exactly one
    kind of request: a POST to /p/v1/refresh whose body verifies under the arbiter's key and
    carries a nonzero timestamp within 60 seconds of the clock, in either direction. *)
Theorem reload_needs_arbiter now e ask order q midA midC h r :
  ordered (ServeHTTP now e ask order q midA midC h r) = true <-> authentic_order now q h.
Proof.
  unfold authentic_order.
  destruct (decide (rq_path q = bs "/p/v1/refresh")) as [Hp|Hp].
  - unfold ServeHTTP. rewrite !(route_other _ _ q "/p/v1/refresh" Hp) by done. rewrite Hp at 1.
    change (Strings.HasPrefix (bs "/p/v1/refresh") (bs "/p/v1/update/")) with false. cbn [andb].
    unfold route at 1. rewrite (bool_decide_eq_true_2 _ Hp). cbn [andb].
    case_bool_decide as Hm.
    + pose proof (api_refresh_orders now q h) as Ho. destruct (api_refresh now q h) as [w go]. cbn in Ho |- *.
      rewrite Ho. split; [intros H; by split_and!|by intros (_ & _ & H)].
    + rewrite (route_other "POST" "/p/v1/auth/cached" q "/p/v1/refresh" Hp) by done. split; [done|by intros (_ & ? & _)].
  - split; [|by intros (? & _)]. intros H. exfalso. revert H. unfold ServeHTTP.
    repeat match goal with
    | |- context [if route "POST" "/p/v1/refresh" q then _ else _] =>
        unfold route at 1; rewrite (bool_decide_eq_false_2 _ Hp); cbn [andb]
    | |- context [if ?b then _ else _] =>
        lazymatch b with route _ _ _ => destruct b | (_ && _) => destruct b end; try discriminate
    end; repeat match goal with |- context [let '(_, _) := ?x in _] => destruct x end; discriminate.
Qed.

(** ** The updater *)

(** The node replaces its own executable only by one that is strictly newer in the order of
    version strings and hashes to the checksum the exit announced, and restarts exactly
    then; in every other case the executable is left as it was. *)
Theorem updater_installs_verified e ask d u r fs :
  let '(_, fs', restart) := checkAndApply e ask d u r fs in
  if restart then
    exists x v field rest b,
      (pick e r).1 = Ok x /\
      ok_body (exchange ask (exitBaseURL (Addr x) ++ bs "/p/node/v1/update/version")) = Some v /\
      Strings.le (Strings.TrimSpace v) (up_version u) = false /\
      Strings.Fields <$> ok_body (exchange ask (exitBaseURL (Addr x) ++ bs "/p/node/v1/update/snc-control.sha256")) = Some (field :: rest) /\
      Hex.encode (sha256 b) = Strings.ToLower field /\ fs' !! binaryPath u = Some b
  else fs' !! binaryPath u = fs !! binaryPath u.
Proof.
  assert (forall o, set_file o (tmpPath u) fs !! binaryPath u = fs !! binaryPath u) as Hkeep.
  { intros o. unfold set_file. apply lookup_partial_alter_ne. unfold tmpPath, binaryPath.
    intros E. apply app_inj_tail in E as [_ E]. apply (f_equal length) in E. rewrite length_app in E. cbn in E. lia. }
  unfold checkAndApply. destruct (pick e r) as [[x|s|] r']; [|done..]. cbn [fst].
  destruct (ok_body _) as [v|] eqn:Ev; [|done]. destruct (_ || _) eqn:Eo; [done|]. apply orb_false_iff in Eo as [_ Ele].
  destruct (Strings.Fields <$> _) as [[|field rest]|] eqn:Ef; [done| |done].
  destruct (if de_open d then _ else None) as [b|] eqn:Ed; [|apply Hkeep].
  destruct (negb _); [apply Hkeep|]. exists x, v, field, rest, b. split_and!; [done..| |apply lookup_insert_eq].
  destruct (de_open d); [|done]. by eapply downloaded_hash.
Qed.

(** ** The watchdog *)

(** The watchdog ends a node whose heartbeat has stopped, and only such a node: with a tick
    every interval from the start, a node whose last heartbeat was recorded at [t] is ended
    by some tick no later than [t + deadline + interval], and no tick within [deadline - 1s]
    of a heartbeat ends it. *)
Theorem watchdog_ends_stalled start deadline t :
  0 < deadline -> start <= t -> 0 <= t -> t / second < 2 ^ 62 ->
  (exists k, 0 < k /\ t + deadline < start + k * watchdog_interval deadline <= t + deadline + watchdog_interval deadline /\
     watchdog_fires deadline (start + k * watchdog_interval deadline) (time_seconds t) = true) /\
  (forall now, now <= t + deadline - second -> watchdog_fires deadline now (time_seconds t) = false).
Proof.
  intros Hd Hs Ht Hbig. unfold watchdog_fires.
  assert (time_Unix (time_seconds t) = t / second * second) as ->.
  { assert (0 <= t / second) by (apply Z.div_pos; unfold second; lia).
    unfold time_seconds, time_Unix, unixToInternal. generalize dependent (t / second). intros n Hn Hp.
    rewrite (int64_id n) by lia. rewrite int64_id by lia. lia. }
  pose proof (Z.div_mod t second ltac:(done)) as Hdm. pose proof (Z.mod_pos_bound t second ltac:(done)) as Hm.
  set (i := watchdog_interval deadline). assert (30 * second <= i) as Hi by (unfold i, watchdog_interval; lia).
  assert (0 < second) as Hsec by done. split.
  - exists ((t + deadline - start) / i + 1). clearbody i.
    pose proof (Z.div_mod (t + deadline - start) i ltac:(lia)) as Hk.
    pose proof (Z.mod_pos_bound (t + deadline - start) i ltac:(lia)) as Hb.
    assert (0 <= (t + deadline - start) / i) by (apply Z.div_pos; lia).
    split_and!; [lia|nia|nia|]. apply Z.ltb_lt. nia.
  - intros now Hn. apply Z.ltb_ge. nia.
Qed.

(** ** Deferred logins *)

(** Every login held satisfies [A], the logins exits have for their devices. *)
Definition logins_from (A : gostring -> bytes -> Prop) (c : authCache) : Prop :=
  forall dev x, c !! dev = Some x -> A dev (ac_body x).

(** The node replays a login for a device only if some exit gave it for that device: if every
    body held and every 200 answer of an exit for this device satisfies [A], so do the body
    returned and everything held afterwards; and a login past its 24 hours is replayed only
    when no exit could be asked. *)
Theorem deferred_login_sound A now e ask dev r c mid :
  logins_from A c -> logins_from A mid ->
  (forall addr b, ok_body (exchange ask (exitAuthCacheURL addr dev)) = Some b -> A dev b) ->
  let '(o, _, c') := auth_lookup now e ask dev r c mid in
  logins_from A c' /\
  forall body, o = Some body -> A dev body /\
    ((exists x, c !! dev = Some x /\ ac_body x = body /\ now - ac_cachedAt x < authCacheTTL) \/
     (queryExit e ask dev r).1 = Some body \/
     (queryExit e ask dev r).1 = None /\ ac_body <$> mid !! dev = Some body).
Proof.
  intros Hc Hm Ha. unfold auth_lookup. case_decide; [done|].
  destruct (auth_lookup_fresh now dev c) as [body|] eqn:Ef.
  { split; [done|]. intros b [= <-]. unfold auth_lookup_fresh in Ef. destruct (c !! dev) as [x|] eqn:Ex; [|done].
    destruct (_ <? _) eqn:El; [|done]. injection Ef as <-. apply Z.ltb_lt in El.
    split; [by apply Hc|]. left. by exists x. }
  assert (forall b, (queryExit e ask dev r).1 = Some b -> A dev b) as Hq.
  { unfold queryExit. intros b. destruct (pick e r) as [[x|s|] r']; [|done..]. apply Ha. }
  destruct (queryExit e ask dev r) as [[body|] r'] eqn:E; cbn [fst] in *.
  - split; [|intros b [= <-]; split; [by apply Hq|by right; left]].
    intros d x Hd. unfold auth_store in Hd. apply map_lookup_filter_Some in Hd as [Hd _].
    apply lookup_insert_Some in Hd as [[<- <-]|[_ Hd]]; [by apply Hq|by apply Hm].
  - split; [done|]. intros b Hb. split; [|by right; right].
    destruct (mid !! dev) as [x|] eqn:Ex; [|done]. injection Hb as <-. by apply Hm.
Qed.

End api.

(** * Concrete runs *)

#[local] Existing Instance ExitsProps.toy_exits_codec.
#[local] Existing Instance ExitsProps.trusting_ed25519.

Definition toy_manifest : gmap gostring manifestEntry :=
  {[ bs "win" := MkEntry true (bs "2") (Hex.encode [5; 6]) [] ]}.
#[local] Instance toy_api_codec : ApiCodec := {|
  un_device b := Some b;
  un_ts b := match b with [t] => Some t | _ => None end;
  un_update_manifest b := if decide (b = [109]) then Some toy_manifest else None;
  un_countries _ := None;
  un_cidrs _ := None;
  un_ports _ := None;
  url_values s := s;
  url_ok _ := true;
  json_ip s := s;
  json_ping _ := [] |}.

Definition toy_pick : pick_env := MkPick None 0 (fun _ => 0%nat) 0.
Definition toy_disk : disk_env := MkDisk true true true true true (fun _ => true) (fun _ => []) (fun _ => None) None.
Definition toy_dir : list gostring := [bs "var"; bs "updates"].

(** An exit that serves the manifest and the binary it announces. *)
Definition toy_exit (url : gostring) : answer :=
  Answer 200 [] (Some (if Strings.HasSuffix url (bs "/api/update/manifest") then [109] else [5; 6])).
Definition toy_files : files :=
  (fetchAll toy_pick (fun _ => toy_pick) (fun _ => 0%nat) toy_exit toy_disk toy_dir ExitsProps.toy_boot
     (cleanupLegacyCache (fun _ => true) toy_dir {[ toy_dir ++ [bs "win"] := [1] ]})).2.

Example toy_files_served :
  GET_file toy_dir (bs "/client-win") toy_files = MkResp 200 (bs "application/octet-stream") [5; 6] /\
  GET_file toy_dir (bs "/client-win-version") toy_files = MkResp 200 (bs "text/plain; charset=utf-8") (bs "2" ++ [10]).
Proof. split; vm_compute; reflexivity. Qed.

Lemma toy_start_announced : announced {[ toy_dir ++ [bs "win"] := [1] ]}.
Proof.
  intros p b h Hb. apply lookup_singleton_Some in Hb as [E _].
  by apply app_inj_tail in E as [_ E].
Qed.

Lemma served_binary_matches_hash_witness : Hex.encode [5; 6] ++ [10] = Hex.encode (sha256 [5; 6]) ++ [10].
Proof.
  apply (served_binary_matches_hash toy_dir toy_files (bs "win") (bs "application/octet-stream") (bs "text/plain; charset=utf-8")).
  - apply cr_fetch; [|done]. apply cr_start. apply toy_start_announced.
  - split; [done|]. by repeat constructor.
  - vm_compute. reflexivity.
  - vm_compute. reflexivity.
Defined.

(** The disk in the middle of the second of two fetches of the slug: version 2 is installed and
    version 3 has just been renamed into place. *)
Definition second_exit (url : gostring) : answer := Answer 200 [] (Some [7; 8]).
Definition second_ops (d : disk_env) : list disk_op :=
  (fetchOne_ops toy_pick second_exit d toy_dir (bs "win") (bs "3") (Hex.encode [7; 8]) [] ExitsProps.toy_boot toy_files).2.
(** While a fetch is under way the new binary is served beside the old hash, the hash file being
    written after the rename. *)
Theorem hash_lags_binary :
  exists fs, fs ∈ states (second_ops toy_disk) toy_files
    /\ GET_file toy_dir (bs "/client-win") fs = MkResp 200 (bs "application/octet-stream") [7; 8]
    /\ GET_file toy_dir (bs "/client-win.sha256") fs = MkResp 200 (bs "text/plain; charset=utf-8") (Hex.encode [5; 6] ++ [10]).
Proof.
  exists (run_ops (take 2 (second_ops toy_disk)) toy_files). split_and!; [|vm_compute; reflexivity..].
  apply states_take.
Qed.

(** When the hash cannot be written and the version can, the mismatch stays: the next cycles find
    the version they want and fetch nothing. *)
Definition no_hash_disk : disk_env :=
  MkDisk true true true true true (fun n => negb (bool_decide (n = bs "sha256"))) (fun _ => []) (fun _ => Some (Hex.encode [5; 6] ++ [10])) None.
Theorem failed_hash_write_stays :
  let fs := run_ops (second_ops no_hash_disk) toy_files in
  GET_file toy_dir (bs "/client-win") fs = MkResp 200 (bs "application/octet-stream") [7; 8]
  /\ GET_file toy_dir (bs "/client-win.sha256") fs = MkResp 200 (bs "text/plain; charset=utf-8") (Hex.encode [5; 6] ++ [10])
  /\ (fetchOne_ops toy_pick second_exit toy_disk toy_dir (bs "win") (bs "3") (Hex.encode [7; 8]) [] ExitsProps.toy_boot fs).2 = [].
Proof. cbv zeta. split_and!; vm_compute; reflexivity. Qed.

Definition toy_fetched : files :=
  run_ops (fetchOne_ops toy_pick toy_exit toy_disk toy_dir (bs "win") (bs "2") (Hex.encode [5; 6]) [] ExitsProps.toy_boot ∅).2 ∅.
Lemma served_binary_announced_witness :
  GET_file toy_dir (bs "/client-win") toy_fetched = MkResp 200 (bs "application/octet-stream") [5; 6]
  /\ (Join toy_dir (bs "win"), Hex.encode (sha256 [5; 6])) ∈ [(Join toy_dir (bs "win"), Hex.encode [5; 6])].
Proof.
  assert (GET_file toy_dir (bs "/client-win") toy_fetched = MkResp 200 (bs "application/octet-stream") [5; 6]) as H by (vm_compute; reflexivity).
  split; [exact H|]. apply (served_binary_announced toy_dir _ toy_fetched (bs "win") (bs "application/octet-stream") [5; 6]); [| |exact H].
  - refine (mo_fetch toy_dir toy_pick toy_exit toy_disk (bs "/api/update/manifest") toy_manifest (bs "win")
      (MkEntry true (bs "2") (Hex.encode [5; 6]) []) ExitsProps.toy_boot [] ∅ _ (mo_empty _ _ _) _ _ (states_last _ _)).
    + intros p. apply lookup_empty.
    + vm_compute. reflexivity.
    + vm_compute. reflexivity.
  - split; [done|]. by repeat constructor.
Defined.

Definition toy_api : relayAPI := MkApi (bs "/var/updates") (Some [7]) (Some ∅) (Some (MkChunks 0 ∅)) [] ∅
  (cleanupLegacyCache (fun _ => true) (Join [] (bs "/var/updates")) {[ toy_dir ++ [bs "version"] := [50] ]}).
Definition toy_req : request := MkReq (bs "/p/v1/update/version") (bs "GET") (fun _ => []) (fun _ => []) None [].

Lemma relay_updates_gone_witness : serveUpdate toy_req toy_api = not_found.
Proof.
  apply (relay_updates_gone toy_api toy_req (ra_files toy_api)); [|reflexivity|discriminate].
  apply started_clean.
Defined.

Definition toy_chunks : list chunk_req :=
  [MkChunkReq toy_pick toy_exit (fun _ => 0%nat) (bs "a") ExitsProps.toy_boot;
   MkChunkReq toy_pick (fun _ => NoAnswer) (fun _ => 0%nat) (bs "a") ExitsProps.toy_boot].
Lemma chunk_cache_refines_witness :
  (chunk_run toy_chunks (MkChunks 0 ∅)).1 = [Some [5; 6]; Some [5; 6]] /\
  (size (cc_byHash (chunk_run toy_chunks (MkChunks 0 ∅)).2) <= contentChunkCacheMax)%nat.
Proof.
  split; [vm_compute; reflexivity|].
  assert (Forall (fun q => cr_hash q <> []) toy_chunks) as Hh by (repeat constructor; discriminate).
  pose proof (chunk_cache_refines toy_chunks Hh eq_refl) as H.
  destruct (chunk_run toy_chunks (MkChunks 0 ∅)) as [os c]. destruct (spec_run toy_chunks []) as [os' s]. apply H.
Defined.

Lemma watchdog_ends_stalled_witness : watchdog_fires (5 * minute) (4 * minute) (time_seconds 0) = false.
Proof.
  apply (watchdog_ends_stalled 0 (5 * minute) 0); vm_compute; congruence.
Defined.

Lemma deferred_login_sound_witness :
  match auth_lookup 0 toy_pick toy_exit (bs "dev") ExitsProps.toy_boot ∅ ∅ with
  | (Some body, _, _) => body = [5; 6]
  | _ => False
  end.
Proof.
  pose proof (deferred_login_sound (fun _ b => b = [5; 6]) 0 toy_pick toy_exit (bs "dev") ExitsProps.toy_boot ∅ ∅) as H.
  destruct (auth_lookup _ _ _ _ _ _ _) as [[o r'] c'] eqn:E.
  destruct H as [_ H].
  - intros d x Hd. by rewrite lookup_empty in Hd.
  - intros d x Hd. by rewrite lookup_empty in Hd.
  - intros addr b. unfold exchange, toy_exit. cbn [url_ok toy_api_codec ok_body].
    destruct (Strings.HasSuffix _ _) eqn:Es; [|by intros [= <-]].
    apply Strings.HasSuffix_spec in Es as [p Es]. exfalso. unfold exitAuthCacheURL in Es.
    cbn [url_values toy_api_codec] in Es. rewrite !app_assoc in Es.
    change (bs "dev") with (bs "de" ++ [118]) in Es. change (bs "/api/update/manifest") with (bs "/api/update/manifes" ++ [116]) in Es.
    rewrite !app_assoc in Es. by apply app_inj_tail in Es as [_ Es].
  - vm_compute in E. injection E as <- _ _. by apply (H [5; 6]).
Defined.

End Api.
