(* ===== verification/ClientSession.v ===== *)
(** * snc/core: a tunnelled connection on the client (session.go)

    A [TunnelConn]: its pipelined and synchronous writes, its streaming and polling reads,
    the loop that keeps a download stream open, and the whole upload path from [Write] to the
    target socket of the exit. POSTs, streams and the clock are inputs. A call that would block
    is [None]. *)

From stdpp Require Import base list gmap strings fin_maps.
From Stdlib Require Import ZArith Lia.
From S2P Require Import Prelude GoLib ExitSession.

Module Conn.

Definition ChanDepth : nat := 64.
Definition tunnelPipelineWidth : nat := 8.
Definition pollBackoffStart : Z := 20 * millisecond.
Definition pollBackoffMax : Z := 500 * millisecond.
Definition streamMinLifetime : Z := 1 * second.
Definition streamMaxFlaps : Z := 5.
Definition streamMaxOpenErrors : Z := 5.
Definition maxRenewals : Z := 3.

(** [tc_chan] is the data channel with its closed flag ([None] in polling mode), [tc_pipe] the
    width of the pipeline with the slots taken ([None]: synchronous sends). *)
Record TunnelConn := MkConn {
  tc_seq : Z;
  tc_readBuf : bytes;
  tc_chan : option (list bytes * bool);
  tc_pipe : option (nat * nat);
  tc_pipeErr : option string;
  tc_closed : bool }.

Definition newTunnelConn (streaming : bool) (pipeWidth : nat) : TunnelConn :=
  MkConn 0 [] (if streaming then Some ([], false) else None)
    (if (0 <? pipeWidth)%nat && streaming then Some (pipeWidth, 0%nat) else None) None false.

Definition set_seq (n : Z) (c : TunnelConn) : TunnelConn :=
  MkConn n (tc_readBuf c) (tc_chan c) (tc_pipe c) (tc_pipeErr c) (tc_closed c).
Definition set_readBuf (b : bytes) (c : TunnelConn) : TunnelConn :=
  MkConn (tc_seq c) b (tc_chan c) (tc_pipe c) (tc_pipeErr c) (tc_closed c).
Definition set_chan (ch : list bytes * bool) (c : TunnelConn) : TunnelConn :=
  MkConn (tc_seq c) (tc_readBuf c) (Some ch) (tc_pipe c) (tc_pipeErr c) (tc_closed c).
Definition set_pipe (used : nat) (e : option string) (c : TunnelConn) : TunnelConn :=
  MkConn (tc_seq c) (tc_readBuf c) (tc_chan c)
    (match tc_pipe c with Some (w, _) => Some (w, used) | None => None end) e (tc_closed c).

Definition NextSeq (c : TunnelConn) : Z * TunnelConn := (tc_seq c, set_seq (int64 (tc_seq c + 1)) c).

(** ** Writing

    The third result is the frame handed to [send]; its outcome comes back through
    [pipe_done] in pipeline mode, and is the input [resp] of [Write] otherwise. *)
Definition Write (resp : res bytes) (p : bytes) (c : TunnelConn)
    : option (res Z * TunnelConn * option (Z * bytes)) :=
  match tc_pipeErr c with
  | Some e => Some (Err e, c, None)
  | None =>
      if tc_closed c then Some (Err "closed", c, None)
      else match tc_pipe c with
      | Some (w, used) =>
          if (w <=? used)%nat then None
          else let '(seq, c) := NextSeq c in
               Some (Ok (lenZ p), set_pipe (S used) None c, Some (seq, p))
      | None =>
          let '(seq, c) := NextSeq c in
          match resp with
          | Ok r => Some (Ok (lenZ p), set_readBuf (tc_readBuf c ++ r) c, Some (seq, p))
          | Err e => Some (Err e, c, Some (seq, p))
          | Panic => Some (Panic, c, Some (seq, p))
          end
      end
  end.

(** A pipelined send returns: its slot is freed and the first error is kept. *)
Definition pipe_done (resp : res bytes) (c : TunnelConn) : TunnelConn :=
  match tc_pipe c with
  | Some (_, used) =>
      set_pipe (pred used)
        (match tc_pipeErr c, resp with
         | None, Err e => Some e
         | e, _ => e
         end) c
  | None => c
  end.

(** The final frame of [Close], sent once. *)
Definition Close (c : TunnelConn) : TunnelConn * option (Z * bytes) :=
  if tc_closed c then (c, None)
  else
    let '(seq, c) := NextSeq c in
    (MkConn (tc_seq c) (tc_readBuf c) (tc_chan c) (tc_pipe c) (tc_pipeErr c) true, Some (seq, [])).

(** ** Reading *)

(** Bytes for a buffer of [n], the rest kept. *)
Definition hand_out (n : nat) (data : bytes) (c : TunnelConn) : bytes * TunnelConn :=
  (take n data, set_readBuf (tc_readBuf c ++ drop n data) c).

Definition next_backoff (backoff : Z) : Z :=
  if backoff <? pollBackoffMax then Z.min (2 * backoff) pollBackoffMax else backoff.

(** The polling loop: one answer of the server per poll; the list of waits is returned. When
    the answers run out the connection has been closed meanwhile; the pause after an error is
    taken to its end. *)
Fixpoint poll_loop (n : nat) (answers : list (res bytes)) (backoff : Z) (c : TunnelConn)
    : res bytes * TunnelConn * list Z :=
  match answers with
  | [] => (Err "closed", c, [])
  | a :: answers =>
      let '(_, c) := NextSeq c in
      match a with
      | Err e => (Err e, c, [2 * second])
      | Panic => (Panic, c, [])
      | Ok [] =>
          let '(o, c, waits) := poll_loop n answers (next_backoff backoff) c in
          (o, c, backoff :: waits)
      | Ok resp => let '(out, c) := hand_out n resp c in (Ok out, c, [])
      end
  end.

(** [sel] resolves the choice between a closed connection and a waiting chunk. *)
Definition Read (sel : bool) (n : nat) (answers : list (res bytes)) (c : TunnelConn)
    : option (res bytes * TunnelConn * list Z) :=
  match tc_readBuf c with
  | _ :: _ => Some (Ok (take n (tc_readBuf c)), set_readBuf (drop n (tc_readBuf c)) c, [])
  | [] =>
      match tc_chan c with
      | Some (chunk :: ch, fin) =>
          if tc_closed c && sel then Some (Err "closed", c, [])
          else let '(out, c) := hand_out n chunk (set_chan (ch, fin) c) in Some (Ok out, c, [])
      | Some ([], fin) => if tc_closed c || fin then Some (Err "closed", c, []) else None
      | None => if tc_closed c then Some (Err "closed", c, []) else Some (poll_loop n answers pollBackoffStart c)
      end
  end.

(** The streaming goroutine hands over a chunk: it blocks while the channel is full. *)
Definition push_chunk (chunk : bytes) (c : TunnelConn) : option TunnelConn :=
  match tc_chan c with
  | Some (ch, fin) => if (length ch <? ChanDepth)%nat then Some (set_chan (ch ++ [chunk], fin) c) else None
  | None => None
  end.
Definition close_chan (c : TunnelConn) : TunnelConn :=
  match tc_chan c with Some (ch, _) => set_chan (ch, true) c | None => c end.

(** ** The stream loop

    One element per attempt to open a stream: refused (with status 404 or otherwise), or
    opened, with what was read, whether it ended in a clean EOF and how long it lived, or
    opened and closed by [Close] after some reads. When the attempts run out, [Close] was
    seen at the top of the loop or in a backoff. *)
Inductive attempt :=
  | OpenError (notFound : bool)
  | Stream (reads : list bytes) (eof : bool) (life : Z)
  | ClosedInStream (reads : list bytes).

Record loop_state := MkLoop { openErrors : Z; flaps : Z; renewals : Z }.
Definition loop_start : loop_state := MkLoop 0 0 0.

(** [renewStream] of a dialer's connection, which allows three renewals; a renewal is also
    reported to the dialer's outcome window. *)
Definition tryRenew (s : loop_state) : option loop_state :=
  if maxRenewals <=? renewals s then None else Some (MkLoop 0 0 (renewals s + 1)).

Inductive ending := CleanShutdown | GaveUp (controlFailure : bool).

(** What the loop did: the chunks pushed, the backoff delays, the failures reported to the
    dialer, the attempts used and how it ended. *)
Record loop_run := MkRun { lr_chunks : list bytes; lr_delays : list Z; lr_reports : Z; lr_attempts : nat; lr_end : ending }.

Definition attempted (chunks : list bytes) (delays : list Z) (reports : Z) (r : loop_run) : loop_run :=
  MkRun (chunks ++ lr_chunks r) (delays ++ lr_delays r) (reports + lr_reports r) (S (lr_attempts r)) (lr_end r).
Definition giving_up (chunks : list bytes) (controlFailure : bool) : loop_run :=
  MkRun chunks [] (if controlFailure then 1 else 0) 1 (GaveUp controlFailure).

Definition failing (s : loop_state) : bool := (streamMaxOpenErrors <=? openErrors s) || (streamMaxFlaps <=? flaps s).
Definition backoff_of (s : loop_state) : Z := openErrors s * (200 * millisecond) + flaps s * (500 * millisecond).

(** A failed attempt has been counted: renew, give up, or wait. *)
Fixpoint stream_loop (l : list attempt) (s : loop_state) : loop_run :=
  match l with
  | [] => MkRun [] [] 0 0 CleanShutdown
  | a :: l =>
      let after (chunks : list bytes) (s : loop_state) :=
        if failing s then
          match tryRenew s with
          | Some s => attempted chunks [] 1 (stream_loop l s)
          | None => giving_up chunks true
          end
        else attempted chunks [backoff_of s] 0 (stream_loop l s) in
      match a with
      | OpenError true => giving_up [] false
      | OpenError false => after [] (MkLoop (openErrors s + 1) 0 (renewals s))
      | ClosedInStream reads => MkRun reads [] 0 1 CleanShutdown
      | Stream reads eof life =>
          if negb eof && (life <? streamMinLifetime)
          then after reads (MkLoop 0 (flaps s + 1) (renewals s))
          else attempted reads [] 0 (stream_loop l (MkLoop 0 0 (renewals s)))
      end
  end.

(** ** What the stream loop guarantees *)

(** The two kinds of failure the loop counts: a stream that does not open, and one that breaks
    within its first second. *)
Inductive kind := Opening | Flapping.
Definition fails (k : kind) (a : attempt) : Prop :=
  match k with
  | Opening => a = OpenError false
  | Flapping => exists reads life, a = Stream reads false life /\ life < streamMinLifetime
  end.
Definition count (k : kind) (s : loop_state) : Z := match k with Opening => openErrors s | Flapping => flaps s end.
Definition bump (k : kind) (s : loop_state) : loop_state :=
  match k with
  | Opening => MkLoop (openErrors s + 1) 0 (renewals s)
  | Flapping => MkLoop 0 (flaps s + 1) (renewals s)
  end.

(** The failures of one kind a state still tolerates. *)
Definition failures_left (k : kind) (s : loop_state) : Z := (maxRenewals - renewals s) * 5 + (5 - count k s).
Definition state_ok (k : kind) (s : loop_state) : Prop := 0 <= count k s < 5 /\ 0 <= renewals s <= maxRenewals.

Lemma failing_bump k s : failing (bump k s) = (5 <=? count k s + 1).
Proof. destruct k; unfold failing; cbn; [by rewrite orb_false_r|done]. Qed.

(** One failed attempt. *)
Lemma stream_loop_fail k a l s : fails k a -> exists chunks,
  stream_loop (a :: l) s =
    if 5 <=? count k s + 1 then
      (if maxRenewals <=? renewals s then giving_up chunks true
       else attempted chunks [] 1 (stream_loop l (MkLoop 0 0 (renewals s + 1))))
    else attempted chunks [backoff_of (bump k s)] 0 (stream_loop l (bump k s)).
Proof.
  rewrite <- failing_bump. destruct k; cbn [fails].
  - intros ->. exists []. cbn [stream_loop]. unfold tryRenew. change (MkLoop (openErrors s + 1) 0 (renewals s)) with (bump Opening s).
    destruct (failing _); [|done]. change (renewals (bump Opening s)) with (renewals s). by destruct (_ <=? _).
  - intros (reads & life & -> & Hlife). exists reads. cbn [stream_loop negb andb]. rewrite (proj2 (Z.ltb_lt _ _) Hlife).
    change (MkLoop 0 (flaps s + 1) (renewals s)) with (bump Flapping s). unfold tryRenew.
    destruct (failing _); [|done]. change (renewals (bump Flapping s)) with (renewals s). by destruct (_ <=? _).
Qed.

Lemma failures_give_up k l s :
  state_ok k s -> Forall (fails k) l -> failures_left k s <= Z.of_nat (length l) ->
  let r := stream_loop l s in
  lr_end r = GaveUp true /\ Z.of_nat (lr_attempts r) = failures_left k s /\ lr_reports r = maxRenewals - renewals s + 1.
Proof.
  intros Hs Hf. revert s Hs. induction Hf as [|a l Ha Hf IH]; intros s [Hc Hr] Hl; unfold failures_left in *; cbn [length] in Hl; [lia|].
  destruct (stream_loop_fail k a l s Ha) as [chunks ->]. destruct (Z.leb_spec 5 (count k s + 1)).
  - destruct (Z.leb_spec maxRenewals (renewals s)); cbn zeta; [cbn [giving_up lr_end lr_attempts lr_reports]; split_and!; [done|lia|lia]|].
    assert (count k (MkLoop 0 0 (renewals s + 1)) = 0) as E0 by by destruct k.
    destruct (IH (MkLoop 0 0 (renewals s + 1))) as (He & Hat & Hre).
    { unfold state_ok. rewrite E0. cbn [renewals]. lia. }
    { rewrite E0. cbn [renewals]. lia. }
    rewrite E0 in Hat. cbn [renewals] in Hat, Hre.
    cbn [attempted lr_end lr_attempts lr_reports]. rewrite He, Hre. split_and!; [done|lia|lia].
  - assert (count k (bump k s) = count k s + 1 /\ renewals (bump k s) = renewals s) as [E1 E2] by by destruct k.
    destruct (IH (bump k s)) as (He & Hat & Hre).
    { unfold state_ok. rewrite E1, E2. lia. }
    { rewrite E1, E2. lia. }
    cbn zeta. cbn [attempted lr_end lr_attempts lr_reports]. rewrite He, Hre. split_and!; [done|lia|lia].
Qed.

(** The stream loop terminates on a dead path: if every attempt fails to open, or every
    stream breaks within its first second without a clean EOF, the loop gives up after
    exactly 20 attempts, having reported 4 failures to the dialer (one per renewal and one
    when it gives up). *)
Theorem dead_path_gives_up k l :
  Forall (fails k) l -> (20 <= length l)%nat ->
  let r := stream_loop l loop_start in
  lr_end r = GaveUp true /\ lr_attempts r = 20%nat /\ lr_reports r = 4.
Proof.
  intros Hf Hl. destruct (failures_give_up k l loop_start) as (He & Ha & Hr); [|done| |].
  - destruct k; unfold state_ok, maxRenewals; cbn; lia.
  - destruct k; unfold failures_left, maxRenewals; cbn; lia.
  - cbn zeta. split_and!; [done| |done]. assert (failures_left k loop_start = 20) as E by by destruct k. rewrite E in Ha. lia.
Qed.

(** A path that alternates between the two kinds of failure. *)
Fixpoint alternating (n : nat) : list attempt :=
  match n with O => [] | S n => OpenError false :: Stream [] false 0 :: alternating n end.

(** A path that alternates between the two kinds of failure is never given up: for every
    number of rounds the loop runs on, it reports nothing to the dialer, and its backoff
    never exceeds half a second, since each kind of failure clears the count of the other. *)
Theorem alternating_failures_never_give_up n :
  let r := stream_loop (alternating n) loop_start in
  lr_end r = CleanShutdown /\ lr_attempts r = (2 * n)%nat /\ lr_reports r = 0 /\
  Forall (fun d => d <= 500 * millisecond) (lr_delays r).
Proof.
  cbn zeta. assert (forall f, 0 <= f < 5 -> let r := stream_loop (alternating n) (MkLoop 0 f 0) in
    lr_end r = CleanShutdown /\ lr_attempts r = (2 * n)%nat /\ lr_reports r = 0 /\
    Forall (fun d => d <= 500 * millisecond) (lr_delays r)) as H; [|by apply (H 0)].
  induction n as [|n IH]; intros f Hf; [by repeat constructor|].
  destruct (IH 1 ltac:(lia)) as (He & Ha & Hr & Hd).
  assert (stream_loop (alternating (S n)) (MkLoop 0 f 0) =
    attempted [] [200 * millisecond] 0 (attempted [] [500 * millisecond] 0 (stream_loop (alternating n) (MkLoop 0 1 0)))) as -> by reflexivity.
  cbn [attempted lr_end lr_attempts lr_reports lr_delays]. split_and!; [done|lia|lia|].
  repeat constructor; [vm_compute; congruence|vm_compute; congruence|done].
Qed.

(** An attempt that is no failure of the path. *)
Definition healthy (a : attempt) : Prop :=
  match a with
  | OpenError notFound => notFound = true
  | Stream _ eof life => eof = true \/ streamMinLifetime <= life
  | ClosedInStream _ => True
  end.

(** The dialer is never blamed for what is not its path's failure: if every stream opens
    and ends cleanly or after its first second, or the exit answers 404 because the target is
    gone, or the connection is closed, the loop reports no failure and never waits. *)
Theorem no_blame_without_failure l s :
  Forall healthy l -> lr_reports (stream_loop l s) = 0 /\ lr_delays (stream_loop l s) = [].
Proof.
  intros Hf. revert s. induction Hf as [|a l Ha Hf IH]; intros s; [done|]. destruct a as [nf|reads eof life|reads]; cbn [healthy] in Ha.
  - by subst nf.
  - cbn [stream_loop]. assert (negb eof && (life <? streamMinLifetime) = false) as ->.
    { destruct Ha as [-> | Ha]; [done|]. rewrite (proj2 (Z.ltb_ge _ _) Ha). by rewrite andb_false_r. }
    cbn [attempted lr_reports lr_delays]. by destruct (IH (MkLoop 0 0 (renewals s))) as [-> ->].
  - done.
Qed.

(** ** Reads deliver the stream in order *)

Inductive io := Push (chunk : bytes) | Recv (sel : bool) (n : nat).

(** The bytes pushed and the bytes returned by [Read], in order; a call that blocks or fails
    moves nothing. *)
Definition io_step (st : TunnelConn * bytes * bytes) (e : io) : TunnelConn * bytes * bytes :=
  let '(c, pushed, got) := st in
  match e with
  | Push chunk => match push_chunk chunk c with Some c => (c, pushed ++ chunk, got) | None => st end
  | Recv sel n => match Read sel n [] c with Some (Ok out, c, _) => (c, pushed, got ++ out) | _ => st end
  end.
Definition io_run (l : list io) (c : TunnelConn) : TunnelConn * bytes * bytes := foldl io_step (c, [], []) l.

Definition waiting_bytes (c : TunnelConn) : bytes :=
  tc_readBuf c ++ match tc_chan c with Some (ch, _) => concat ch | None => [] end.

Lemma io_step_in_order c pushed got e c' pushed' got' first :
  is_Some (tc_chan c) -> got ++ waiting_bytes c = first ++ pushed -> io_step (c, pushed, got) e = (c', pushed', got') ->
  is_Some (tc_chan c') /\ got' ++ waiting_bytes c' = first ++ pushed'.
Proof.
  intros [[ch fin] Hch] Hinv. unfold io_step. destruct e as [chunk|sel n].
  - unfold push_chunk. rewrite Hch. destruct (_ <? _)%nat; intros [= <- <- <-]; [|by rewrite Hch].
    split; [done|]. unfold waiting_bytes in *. rewrite Hch in Hinv. cbn. rewrite concat_app. cbn.
    rewrite app_nil_r, !app_assoc. f_equal. by rewrite <- !app_assoc.
  - unfold Read. unfold waiting_bytes in Hinv. rewrite Hch in *. destruct (tc_readBuf c) as [|b buf] eqn:Eb.
    + destruct ch as [|chunk ch].
      { destruct (_ || _); intros [= <- <- <-]; (split; [by rewrite Hch|]; unfold waiting_bytes; by rewrite Hch, Eb). }
      destruct (_ && _); [intros [= <- <- <-]; split; [by rewrite Hch|]; unfold waiting_bytes; by rewrite Hch, Eb|].
      cbn. intros [= <- <- <-]. split; [done|]. unfold waiting_bytes. cbn [set_readBuf set_chan tc_readBuf tc_chan]. rewrite Eb. cbn [app].
      rewrite <- Hinv. cbn [concat app]. rewrite <- (take_drop n chunk) at 3. by rewrite <- !app_assoc.
    + intros [= <- <- <-]. split; [done|]. unfold waiting_bytes. cbn [set_readBuf tc_readBuf tc_chan]. rewrite Hch, <- Hinv.
      rewrite <- (take_drop n (b :: buf)) at 3. by rewrite <- !app_assoc.
Qed.

(** The download is delivered in order and without loss, whatever the sizes of the reads and
    however they interleave with the stream: the bytes returned so far, those left from a
    short read and those in the channel are together exactly the bytes that came with the
    opening of the connection and then those of the stream. *)
Theorem download_in_order l first :
  let c := set_readBuf first (newTunnelConn true tunnelPipelineWidth) in
  let '(c', pushed, got) := io_run l c in
  got ++ waiting_bytes c' = first ++ pushed.
Proof.
  cbn zeta. unfold io_run.
  assert (forall l d pushed got, is_Some (tc_chan d) -> got ++ waiting_bytes d = first ++ pushed ->
    let '(c', pushed', got') := foldl io_step (d, pushed, got) l in got' ++ waiting_bytes c' = first ++ pushed') as H.
  { clear l. induction l as [|e l IH]; intros d pushed got Hd Hi; cbn [foldl]; [done|].
    destruct (io_step (d, pushed, got) e) as [[d' pushed'] got'] eqn:E.
    destruct (io_step_in_order d pushed got e d' pushed' got' first Hd Hi E) as [Hd' Hi']. by apply IH. }
  apply H; [by eexists|]. done.
Qed.

(** ** Polling slows down *)

Fixpoint backoffs (k : nat) (b : Z) : list Z := match k with O => [] | S k => b :: backoffs k (next_backoff b) end.
Definition total (l : list Z) : Z := foldr Z.add 0 l.

Lemma poll_waits n k b c rest : 0 <= b ->
  exists b' c', 0 <= b' /\ (poll_loop n (replicate k (Ok []) ++ rest) b c).2 = backoffs k b ++ (poll_loop n rest b' c').2.
Proof.
  revert b c. induction k as [|k IH]; intros b c Hb; [by exists b, c|]. cbn [replicate app poll_loop backoffs NextSeq].
  destruct (IH (next_backoff b) (set_seq (int64 (tc_seq c + 1)) c)) as (b' & c' & Hb' & E).
  { unfold next_backoff, pollBackoffMax, millisecond. destruct (_ <? _); lia. }
  destruct (poll_loop n (replicate k (Ok []) ++ rest) _ _) as [[o c1] w]. cbn [snd] in E |- *. exists b', c'. by rewrite E.
Qed.

Lemma backoffs_max k : total (backoffs k pollBackoffMax) = Z.of_nat k * pollBackoffMax.
Proof.
  induction k as [|k IH]; [done|]. cbn [backoffs total foldr]. unfold next_backoff. rewrite Z.ltb_irrefl.
  fold (total (backoffs k pollBackoffMax)). rewrite IH. lia.
Qed.

Lemma total_app l k : total (l ++ k) = total l + total k.
Proof. induction l as [|x l IH]; [done|]. cbn. fold (total (l ++ k)) (total l). lia. Qed.

Lemma poll_total n answers b c : 0 <= b -> 0 <= total (poll_loop n answers b c).2.
Proof.
  revert b c. induction answers as [|a answers IH]; intros b c Hb; [done|]. cbn [poll_loop NextSeq].
  destruct a as [[|x resp]|e|]; [|done|done|done].
  assert (0 <= next_backoff b) as Hn.
  { unfold next_backoff, pollBackoffMax, millisecond. destruct (_ <? _); lia. }
  specialize (IH (next_backoff b) (set_seq (int64 (tc_seq c + 1)) c) Hn).
  destruct (poll_loop n answers _ _) as [[o c1] w]. cbn [snd] in *. cbn. fold (total w). lia.
Qed.

Lemma backoffs_total k : Z.of_nat k * pollBackoffMax - 1880 * millisecond <= total (backoffs k pollBackoffStart).
Proof.
  do 5 (destruct k as [|k]; [vm_compute; congruence|]).
  change (backoffs (S (S (S (S (S k))))) pollBackoffStart) with
    (((fun m => m * millisecond) <$> [20; 40; 80; 160; 320]) ++ backoffs k pollBackoffMax).
  rewrite total_app, backoffs_max. cbn [fmap list_fmap]. unfold total. cbn [foldr].
  unfold pollBackoffMax, millisecond. lia.
Qed.

Lemma poll_nonneg n k c rest b' c' :
  (poll_loop n (replicate k (Ok []) ++ rest) pollBackoffStart c).2 = backoffs k pollBackoffStart ++ (poll_loop n rest b' c').2 ->
  0 <= b' -> Z.of_nat k * pollBackoffMax - 1880 * millisecond <=
    total (poll_loop n (replicate k (Ok []) ++ rest) pollBackoffStart c).2.
Proof. intros -> Hb. rewrite total_app. pose proof (backoffs_total k). pose proof (poll_total n rest b' c' Hb). lia. Qed.

(** Polling cannot spin: however many empty answers a read meets, [k] of them cost at least
    [k] half seconds less 1.88 s of waiting, so that a read never sends more than four
    requests above two a second. *)
Theorem polling_is_paced sel n k c rest :
  tc_chan c = None -> tc_readBuf c = [] -> tc_closed c = false ->
  match Read sel n (replicate k (Ok []) ++ rest) c with
  | Some (_, _, waits) => Z.of_nat k * pollBackoffMax - 1880 * millisecond <= total waits
  | None => False
  end.
Proof.
  intros Hc Hb Hcl. unfold Read. rewrite Hb, Hc, Hcl.
  destruct (poll_waits n k pollBackoffStart c rest) as (b' & c' & Hb' & E); [done|].
  pose proof (poll_nonneg n k c rest b' c' E Hb') as H.
  destruct (poll_loop n _ _ _) as [[o c1] w]. exact H.
Qed.

End Conn.

(** * The upload path: from [Write] to the target

    A pipelined connection as [Dial] leaves it, the frames it has sent, and the session of the
    exit that puts them in order (ExitSession). The network delays, reorders, repeats and loses
    frames: a frame sent may arrive at any later time, any number of times. A POST succeeds only
    if the exit accepted its frame; it may fail at any time. *)
Module Upload.
Import Conn.

Record upload := MkUp {
  up_conn : TunnelConn;
  up_sent : list bytes;        (** payloads of frames 1, 2, ... *)
  up_flight : list Z;          (** POSTs of the pipeline under way *)
  up_exit : Session.session;
  up_target : bytes;           (** what the exit has written to the target *)
  up_acked : list Z;           (** frames the exit accepted *)
  up_results : list (res ()) }.

(** [Dial] has used frame 0 to open the connection. *)
Definition dialled (c : nat) (now : Z) (user : gostring) : upload :=
  MkUp (set_seq 1 (newTunnelConn true tunnelPipelineWidth)) [] [] (Session.new_session c now user) [] [] [].

Inductive action :=
  | AWrite (p : bytes)
  | AArrive (seq : Z) (fail : nat -> bool)
  | ADone (seq : Z) (r : res bytes)
  | AClose.

Definition payload_of (sent : list bytes) (seq : Z) : bytes := nth (Z.to_nat (seq - 1)) sent [].

(** The upload case of the exit's [handleTunnel]: only a payload that is not empty goes to
    [deliverInOrder]. *)
Definition act (a : action) (u : upload) : option upload :=
  match a with
  | AWrite p =>
      match Write (Ok []) p (up_conn u) with
      | Some (Ok _, c, Some (seq, p)) =>
          Some (MkUp c (up_sent u ++ [p]) (seq :: up_flight u) (up_exit u) (up_target u) (up_acked u) (up_results u))
      | _ => None
      end
  | AArrive seq fail =>
      if decide (1 <= seq <= lenZ (up_sent u)) then
        if decide (payload_of (up_sent u) seq = []) then
          Some (MkUp (up_conn u) (up_sent u) (up_flight u) (up_exit u) (up_target u) (seq :: up_acked u) (Ok () :: up_results u))
        else
        let '(s, ws, r) := Session.deliverInOrder fail (u32 seq) (payload_of (up_sent u) seq) (up_exit u) in
        Some (MkUp (up_conn u) (up_sent u) (up_flight u) s (up_target u ++ concat ws)
                (match r with Ok _ => seq :: up_acked u | _ => up_acked u end) (r :: up_results u))
      else None
  | ADone seq r =>
      if bool_decide (seq ∈ up_flight u) && (match r with Ok _ => bool_decide (seq ∈ up_acked u) | Err _ => true | Panic => false end) then
        Some (MkUp (pipe_done r (up_conn u)) (up_sent u) (List.remove Z.eq_dec seq (up_flight u)) (up_exit u) (up_target u)
                (up_acked u) (up_results u))
      else None
  | AClose =>
      match Close (up_conn u) with
      | (c, Some (_, p)) => Some (MkUp c (up_sent u ++ [p]) (up_flight u) (up_exit u) (up_target u) (up_acked u) (up_results u))
      | (_, None) => None
      end
  end.

Fixpoint run (l : list action) (u : upload) : option upload :=
  match l with [] => Some u | a :: l => act a u ≫= run l end.

(** ** The invariant *)

Record inv (u : upload) : Prop := {
  i_seq : tc_seq (up_conn u) = lenZ (up_sent u) + 1;
  i_pipe : tc_pipe (up_conn u) = Some (tunnelPipelineWidth, length (up_flight u));
  i_width : (length (up_flight u) <= tunnelPipelineWidth)%nat;
  i_nodup : NoDup (up_flight u);
  i_flight : Forall (fun k => 1 <= k <= lenZ (up_sent u)) (up_flight u);
  i_exit : Session.deliver_inv (payload_of (up_sent u)) (up_exit u);
  i_next : Session.reorderNext (up_exit u) <= lenZ (up_sent u) + 1;
  i_buf : forall k, is_Some (Session.reorderBuf (up_exit u) !! k) -> k <= lenZ (up_sent u);
  i_target : up_target u = Session.frames (payload_of (up_sent u)) 1 (Session.reorderNext (up_exit u)) }.

Lemma payload_app sent p k : 1 <= k <= lenZ sent -> payload_of (sent ++ [p]) k = payload_of sent k.
Proof. intros H. unfold payload_of. rewrite app_nth1; [done|lia]. Qed.

Lemma frames_ext P Q lo hi : (forall k, lo <= k < hi -> P k = Q k) -> Session.frames P lo hi = Session.frames Q lo hi.
Proof.
  intros H. unfold Session.frames. f_equal. apply list_fmap_ext. intros i k Hk. apply H.
  apply list_elem_of_lookup_2, elem_of_seqZ in Hk. lia.
Qed.

(** Sending another frame changes nothing at the exit. *)
Lemma exit_sent u p : inv u ->
  Session.deliver_inv (payload_of (up_sent u ++ [p])) (up_exit u) /\
  up_target u = Session.frames (payload_of (up_sent u ++ [p])) 1 (Session.reorderNext (up_exit u)).
Proof.
  intros [_ _ _ _ _ [Hn Hb Hs] Hnext Hbuf Ht]. split.
  - split; [done| |done]. intros k b Hk. destruct (Hb k b Hk) as [-> Hr]. split; [|done].
    symmetry. apply payload_app. split; [lia|]. apply Hbuf. by rewrite Hk.
  - rewrite Ht. apply frames_ext. intros k Hk. symmetry. apply payload_app. lia.
Qed.

Lemma length_remove (l : list Z) k : NoDup l -> k ∈ l -> length l = S (length (List.remove Z.eq_dec k l)).
Proof.
  induction l as [|x l IH]; [by intros _ ?%not_elem_of_nil|]. intros [Hx Hd]%NoDup_cons Hk. cbn.
  destruct (Z.eq_dec k x) as [->|Hne].
  - rewrite notin_remove; [done|]. by rewrite <- list_elem_of_In.
  - cbn. f_equal. apply IH; [done|]. by apply elem_of_cons in Hk as [?|?].
Qed.

Lemma elem_of_remove (l : list Z) k j : j ∈ List.remove Z.eq_dec k l <-> j ∈ l /\ j <> k.
Proof. rewrite !list_elem_of_In. split; [apply in_remove|intros [? ?]; by apply in_in_remove]. Qed.

Lemma NoDup_remove (l : list Z) k : NoDup l -> NoDup (List.remove Z.eq_dec k l).
Proof.
  induction l as [|x l IH]; [done|]. intros [Hx Hd]%NoDup_cons. cbn. destruct (Z.eq_dec k x); [by apply IH|].
  constructor; [|by apply IH]. by intros [? _]%elem_of_remove.
Qed.

(** ** Every action keeps the invariant *)

Lemma payload_u32 seq : 1 <= seq <= Session.maxSeq -> u32 seq = seq.
Proof. intros H. unfold u32, Session.maxSeq in *. apply Z.mod_small. lia. Qed.

Lemma write_conn p c r c' f w used :
  tc_pipe c = Some (w, used) -> Write (Ok []) p c = Some (Ok r, c', Some f) ->
  f = (tc_seq c, p) /\ tc_seq c' = int64 (tc_seq c + 1) /\ tc_pipe c' = Some (w, S used) /\ (used < w)%nat /\
  tc_pipeErr c = None /\ tc_pipeErr c' = None /\ tc_closed c = false.
Proof.
  intros Hp. unfold Write. destruct (tc_pipeErr c) as [e|] eqn:Ee; [done|]. destruct (tc_closed c) eqn:Ec; [done|].
  rewrite Hp. destruct (Nat.leb_spec w used); [done|]. cbn. intros [= _ <- <-]. cbn. by rewrite Hp.
Qed.

Lemma write_inv u p u' :
  act (AWrite p) u = Some u' -> lenZ (up_sent u) < Session.maxSeq -> inv u -> inv u'.
Proof.
  intros Ha Hmax Hu. pose proof (exit_sent u p Hu) as [He Ht]. destruct Hu as [H1 H2 H3 H4 H5 _ H7 H8 _].
  cbn [act] in Ha. destruct (Write _ _ _) as [[[[r|e|] c'] [[seq q]|]]|] eqn:Ew; try discriminate. injection Ha as <-.
  destruct (write_conn _ _ _ _ _ _ _ H2 Ew) as ([= -> ->] & Hs & Hp & Hw & _).
  assert (lenZ (up_sent u ++ [p]) = lenZ (up_sent u) + 1) as El by (rewrite length_app; cbn; lia).
  unfold Session.maxSeq in Hmax.
  split; cbn [up_conn up_sent up_flight up_exit up_target length]; rewrite ?El, ?H1 in *; [|done|lia| | |done|lia| |done].
  - rewrite Hs. apply int64_id. lia.
  - constructor; [|done]. intros Hin. rewrite Forall_forall in H5. apply H5 in Hin. lia.
  - constructor; [lia|]. eapply Forall_impl; [exact H5|]. cbn. intros. lia.
  - intros k Hk. specialize (H8 k Hk). lia.
Qed.

Lemma close_inv u u' :
  act AClose u = Some u' -> lenZ (up_sent u) < Session.maxSeq -> inv u -> inv u'.
Proof.
  intros Ha Hmax Hu. pose proof (exit_sent u [] Hu) as [He Ht]. destruct Hu as [H1 H2 H3 H4 H5 _ H7 H8 _].
  cbn [act] in Ha. unfold Close in Ha. destruct (tc_closed (up_conn u)); [done|]. cbn in Ha. injection Ha as <-.
  assert (lenZ (up_sent u ++ [[]]) = lenZ (up_sent u) + 1) as El by (rewrite length_app; cbn; lia).
  unfold Session.maxSeq in Hmax.
  split; cbn [up_conn up_sent up_flight up_exit up_target tc_seq tc_pipe]; rewrite ?El; [|done|done|done| |done|lia| |done].
  - rewrite H1. apply int64_id. lia.
  - eapply Forall_impl; [exact H5|]. cbn. intros. lia.
  - intros k Hk. specialize (H8 k Hk). lia.
Qed.

Lemma done_inv u seq r u' : act (ADone seq r) u = Some u' -> inv u -> inv u'.
Proof.
  intros Ha [H1 H2 H3 H4 H5 H6 H7 H8 H9]. cbn [act] in Ha. destruct (_ && _) eqn:E; [|done]. injection Ha as <-.
  apply andb_true_iff in E as [E _]. apply bool_decide_eq_true in E.
  pose proof (length_remove _ _ H4 E) as El.
  split; cbn [up_conn up_sent up_flight up_exit up_target]; try done.
  - unfold pipe_done. by rewrite H2.
  - unfold pipe_done. rewrite H2. cbn [set_pipe tc_pipe]. rewrite H2, El. done.
  - lia.
  - by apply NoDup_remove.
  - rewrite Forall_forall in H5 |- *. intros k [Hk _]%elem_of_remove. by apply H5.
Qed.

Lemma arrive_spec u seq fail u' :
  act (AArrive seq fail) u = Some u' -> lenZ (up_sent u) <= Session.maxSeq -> inv u -> payload_of (up_sent u) seq <> [] ->
  exists ws r, Session.delivered (payload_of (up_sent u)) seq (up_exit u) (up_exit u') ws r /\ 1 <= seq <= lenZ (up_sent u) /\
    up_conn u' = up_conn u /\ up_sent u' = up_sent u /\ up_flight u' = up_flight u /\ up_target u' = up_target u ++ concat ws /\
    up_results u' = r :: up_results u /\ up_acked u' = match r with Ok _ => seq :: up_acked u | _ => up_acked u end.
Proof.
  intros Ha Hmax Hu Hne. cbn [act] in Ha. case_decide as Hseq; [|done]. rewrite decide_False in Ha by done. rewrite payload_u32 in Ha by lia.
  destruct (Session.deliver_spec (payload_of (up_sent u)) fail seq (up_exit u) (i_exit u Hu)) as (s' & ws & r & E & D); [lia|].
  rewrite E in Ha. injection Ha as <-. by exists ws, r.
Qed.

(** An empty frame is accepted and changes nothing else. *)
Lemma arrive_empty u seq fail u' : act (AArrive seq fail) u = Some u' -> payload_of (up_sent u) seq = [] ->
  u' = MkUp (up_conn u) (up_sent u) (up_flight u) (up_exit u) (up_target u) (seq :: up_acked u) (Ok () :: up_results u).
Proof. intros Ha He. cbn [act] in Ha. case_decide; [|done]. rewrite decide_True in Ha by done. by injection Ha as <-. Qed.

(** What is held or written was sent: nothing past the last frame. *)
Lemma delivered_bound u seq s' ws r : inv u -> 1 <= seq <= lenZ (up_sent u) ->
  Session.delivered (payload_of (up_sent u)) seq (up_exit u) s' ws r ->
  Session.reorderNext s' <= lenZ (up_sent u) + 1 /\ (forall k, is_Some (Session.reorderBuf s' !! k) -> k <= lenZ (up_sent u)).
Proof.
  intros Hu Hseq D. pose proof (i_next u Hu) as Hn. pose proof (i_buf u Hu) as Hb. split.
  - destruct (Z.le_gt_cases (Session.reorderNext s') (lenZ (up_sent u) + 1)); [done|].
    destruct (Session.de_only _ _ _ _ _ _ D (lenZ (up_sent u) + 1)) as [?|[Hk|?]]; [left; lia|lia| |lia].
    apply Hb in Hk. lia.
  - intros k Hk. destruct (Session.de_only _ _ _ _ _ _ D k) as [?|[?|?]]; [by right|lia|by apply Hb|lia].
Qed.

Lemma arrive_inv u seq fail u' :
  act (AArrive seq fail) u = Some u' -> lenZ (up_sent u) <= Session.maxSeq -> inv u -> inv u'.
Proof.
  intros Ha Hmax Hu. destruct (decide (payload_of (up_sent u) seq = [])) as [Hp|Hp].
  { rewrite (arrive_empty u seq fail u' Ha Hp). by destruct Hu. }
  destruct (arrive_spec u seq fail u' Ha Hmax Hu Hp) as (ws & r & D & Hseq & Ec & Es & Ef & Et & _ & _).
  destruct (delivered_bound u seq _ ws r Hu Hseq D) as [Hn Hb]. pose proof Hu as [H1 H2 H3 H4 H5 H6 H7 H8 H9].
  split; rewrite ?Ec, ?Es, ?Ef; try done; [by eapply Session.de_inv|].
  rewrite Et, H9, (Session.de_writes _ _ _ _ _ _ D). apply Session.frames_app.
  - destruct H6. lia.
  - by eapply Session.de_next.
Qed.

Lemma sent_grows a u u' : act a u = Some u' -> (length (up_sent u) <= length (up_sent u'))%nat.
Proof.
  destruct a as [p|seq fail|seq r|]; cbn [act].
  - destruct (Write _ _ _) as [[[[r|e|] c'] [[seq q]|]]|]; try discriminate. intros [= <-]. cbn. rewrite length_app. lia.
  - case_decide; [|done]. case_decide; [by intros [= <-]|]. destruct (Session.deliverInOrder _ _ _ _) as [[s ws] r]. by intros [= <-].
  - destruct (_ && _); [|done]. by intros [= <-].
  - destruct (Close _) as [c [[seq p]|]]; [|done]. intros [= <-]. cbn. rewrite length_app. lia.
Qed.

Lemma act_inv a u u' : act a u = Some u' -> lenZ (up_sent u') <= Session.maxSeq -> inv u -> inv u'.
Proof.
  intros Ha Hmax. pose proof (sent_grows a u u' Ha) as Hg. destruct a as [p|seq fail|seq r|].
  - apply (write_inv u p u' Ha). cbn [act] in Ha.
    destruct (Write _ _ _) as [[[[r|e|] c'] [[seq q]|]]|]; try discriminate. injection Ha as <-. cbn in Hmax.
    rewrite length_app in Hmax. cbn in Hmax. lia.
  - apply (arrive_inv u seq fail u' Ha). lia.
  - apply (done_inv u seq r u' Ha).
  - apply (close_inv u u' Ha). cbn [act] in Ha. destruct (Close _) as [c [[seq p]|]]; [|done]. injection Ha as <-. cbn in Hmax.
    rewrite length_app in Hmax. cbn in Hmax. lia.
Qed.

Lemma run_sent l u u' : run l u = Some u' -> (length (up_sent u) <= length (up_sent u'))%nat.
Proof.
  revert u. induction l as [|a l IH]; intros u; cbn [run]; [by intros [= ->]|].
  destruct (act a u) as [u1|] eqn:Ea; [|done]. cbn. intros H. apply IH in H. pose proof (sent_grows a u u1 Ea). lia.
Qed.

Lemma dialled_inv c now user : inv (dialled c now user).
Proof.
  split; cbn; [done|done|unfold tunnelPipelineWidth; lia|apply NoDup_nil_2|apply Forall_nil_2|apply Session.new_session_inv|lia| |done].
  intros k. rewrite lookup_empty. by intros [? ?].
Qed.

(** An invariant of runs whose frame numbers stay in range. *)
Lemma upload_run_ind (I : upload -> Prop) l u u' :
  (forall a v v', act a v = Some v' -> lenZ (up_sent v') <= Session.maxSeq -> inv v -> I v -> I v') ->
  run l u = Some u' -> lenZ (up_sent u') <= Session.maxSeq -> inv u -> I u -> inv u' /\ I u'.
Proof.
  intros Hstep. revert u. induction l as [|a l IH]; intros u; cbn [run]; [by intros [= ->]|].
  destruct (act a u) as [u1|] eqn:Ea; [|done]. cbn. intros Hr Hmax Hu HI. pose proof (run_sent l u1 u' Hr) as Hg.
  apply (IH u1 Hr Hmax); [eapply act_inv; [exact Ea|lia|done]|]. eapply Hstep; [exact Ea|lia|done|done].
Qed.

Lemma frames_sent sent n : 0 <= n <= lenZ sent ->
  Session.frames (payload_of sent) 1 (n + 1) = concat (take (Z.to_nat n) sent).
Proof.
  intros Hn. unfold Session.frames. f_equal. replace (n + 1 - 1) with n by lia.
  apply list_eq. intros i. rewrite list_lookup_fmap.
  destruct (decide (i < Z.to_nat n)%nat) as [Hi|Hi].
  - rewrite lookup_seqZ_lt by lia. cbn. rewrite lookup_take_lt by lia. unfold payload_of.
    replace (Z.to_nat (1 + Z.of_nat i - 1)) with i by lia.
    destruct (lookup_lt_is_Some_2 sent i) as [b Hb]; [lia|]. rewrite Hb. f_equal. by apply nth_lookup_Some.
  - rewrite lookup_seqZ_ge by lia. cbn. rewrite lookup_take_ge by lia. done.
Qed.

(** C4: An upload reaches the target intact, whatever the network does: with frames delayed,
    reordered, repeated or lost, with failing POSTs, failing writes to the target and a
    full reorder buffer, the bytes the exit has written to the target are always a prefix of
    the bytes the application has written, in order; and at most 8 POSTs are under way. *)
Theorem upload_intact l c now user u :
  run l (dialled c now user) = Some u -> lenZ (up_sent u) <= Session.maxSeq ->
  up_target u `prefix_of` concat (up_sent u) /\ (length (up_flight u) <= tunnelPipelineWidth)%nat.
Proof.
  intros Hr Hmax. destruct (upload_run_ind (fun _ => True) l _ u ltac:(done) Hr Hmax (dialled_inv _ _ _) I) as [Hu _].
  split; [|apply (i_width u Hu)]. rewrite (i_target u Hu).
  pose proof (i_next u Hu). destruct (i_exit u Hu) as [Hn _ _].
  replace (Session.reorderNext (up_exit u)) with (Session.reorderNext (up_exit u) - 1 + 1) by lia.
  rewrite frames_sent by lia.
  exists (concat (drop (Z.to_nat (Session.reorderNext (up_exit u) - 1)) (up_sent u))).
  by rewrite <- concat_app, take_drop.
Qed.

(** ** Nothing is lost while nothing fails *)

(** While every frame that arrived was accepted, the frames accepted are written or held, but for
    empty ones; while
    no POST has failed and the connection is open, every frame is under way or accepted. *)
Record complete (u : upload) : Prop := {
  co_acked : Forall (fun r => r = Ok ()) (up_results u) -> forall k, k ∈ up_acked u -> payload_of (up_sent u) k <> [] ->
    k < Session.reorderNext (up_exit u) \/ is_Some (Session.reorderBuf (up_exit u) !! k);
  co_range : forall k, k ∈ up_acked u -> 1 <= k <= lenZ (up_sent u);
  co_sent : tc_pipeErr (up_conn u) = None -> tc_closed (up_conn u) = false ->
    forall k, 1 <= k <= lenZ (up_sent u) -> k ∈ up_flight u \/ k ∈ up_acked u }.

Lemma arrive_complete u seq fail u' :
  act (AArrive seq fail) u = Some u' -> lenZ (up_sent u') <= Session.maxSeq -> inv u -> complete u -> complete u'.
Proof.
  intros Ha Hmax Hu [C1 CR C2]. pose proof (sent_grows _ _ _ Ha) as Hg.
  assert (1 <= seq <= lenZ (up_sent u)) as Hseq by (cbn [act] in Ha; by case_decide).
  destruct (decide (payload_of (up_sent u) seq = [])) as [Hp|Hp].
  { rewrite (arrive_empty u seq fail u' Ha Hp). split; cbn [up_results up_acked up_sent up_exit up_conn up_flight].
    - intros [_ Hok]%Forall_cons k [->|Hk]%elem_of_cons Hne; [done|by apply C1].
    - intros k [->|Hk]%elem_of_cons; [done|by apply CR].
    - intros He Hc k Hk. destruct (C2 He Hc k Hk); [by left|right; by apply list_elem_of_further]. }
  destruct (arrive_spec u seq fail u' Ha ltac:(lia) Hu Hp) as (ws & r & D & _ & Ec & Es & Ef & Et & Er & Ea).
  split; rewrite ?Er, ?Ea, ?Ec, ?Es, ?Ef.
  - intros [-> Hok]%Forall_cons k Hk Hne. apply (Session.de_ok _ _ _ _ _ _ D eq_refl k).
    apply elem_of_cons in Hk as [->|Hk]; [by right; right|]. destruct (C1 Hok k Hk Hne); auto.
  - intros k Hk. destruct r; [apply elem_of_cons in Hk as [->|Hk]; [done|]|..]; by apply CR.
  - intros He Hc k Hk. destruct (C2 He Hc k Hk); [by left|right]. destruct r; [by apply list_elem_of_further|done..].
Qed.

Lemma act_complete a u u' :
  act a u = Some u' -> lenZ (up_sent u') <= Session.maxSeq -> inv u -> complete u -> complete u'.
Proof.
  intros Ha Hmax Hu Hc. pose proof (sent_grows _ _ _ Ha) as Hg. destruct a as [p|seq fail|seq r|]; [|by eapply arrive_complete| |]; destruct Hc as [C1 CR C2].
  - cbn [act] in Ha. destruct (Write _ _ _) as [[[[r|e|] c'] [[seq q]|]]|] eqn:Ew; try discriminate.
    injection Ha as <-. destruct (write_conn _ _ _ _ _ _ _ (i_pipe u Hu) Ew) as ([= -> ->] & _ & _ & _ & He & _ & Hcl).
    split; cbn [up_results up_acked up_exit up_conn up_sent up_flight] in *.
    + intros Hok k Hk. rewrite payload_app by (by apply CR). by apply C1.
    + intros k Hk%CR. lia.
    + intros _ _ k Hk. rewrite length_app in Hk. cbn in Hk. rewrite (i_seq u Hu).
      destruct (decide (k = lenZ (up_sent u) + 1)) as [->|Hne]; [left; apply list_elem_of_here|].
      destruct (C2 He Hcl k ltac:(lia)); [left; by apply list_elem_of_further|by right].
  - cbn [act] in Ha. destruct (_ && _) eqn:E; [|done]. injection Ha as <-.
    apply andb_true_iff in E as [_ E]. split; cbn [up_results up_acked up_exit up_conn up_sent up_flight]; [done|done|].
    unfold pipe_done. rewrite (i_pipe u Hu). cbn [set_pipe tc_pipeErr tc_closed].
    destruct (tc_pipeErr (up_conn u)) as [e|]; [done|]. destruct r as [b|e|]; [|done..].
    apply bool_decide_eq_true in E. intros _ Hcl k Hk. destruct (C2 eq_refl Hcl k Hk); [|by right].
    destruct (decide (k = seq)) as [->|]; [by right|left]. by apply elem_of_remove.
  - cbn [act] in Ha. unfold Close in Ha. destruct (tc_closed (up_conn u)); [done|]. cbn in Ha.
    injection Ha as <-. split; cbn [up_results up_acked up_exit up_conn up_sent up_flight tc_closed] in *; [|intros k Hk%CR; lia|done].
    intros Hok k Hk. rewrite payload_app by (by apply CR). by apply C1.
Qed.

(** While nothing fails nothing is lost: if no write was empty, every frame that arrived was accepted, no POST
    has failed, the connection is open and no POST is under way, the target has received
    exactly what the application wrote. *)
Theorem upload_complete l c now user u :
  run l (dialled c now user) = Some u -> lenZ (up_sent u) <= Session.maxSeq ->
  Forall (fun r => r = Ok ()) (up_results u) -> tc_pipeErr (up_conn u) = None -> tc_closed (up_conn u) = false ->
  up_flight u = [] -> Forall (fun p => p <> []) (up_sent u) -> up_target u = concat (up_sent u).
Proof.
  intros Hr Hmax Hok He Hcl Hf Hne.
  destruct (upload_run_ind complete l _ u act_complete Hr Hmax (dialled_inv _ _ _)) as [Hu [C1 _ C2]].
  { split; cbn; [by intros _ k ?%not_elem_of_nil|by intros k ?%not_elem_of_nil|lia]. }
  pose proof (i_next u Hu) as Hn. destruct (i_exit u Hu) as [Hn1 Hb _].
  assert (Session.reorderNext (up_exit u) = lenZ (up_sent u) + 1) as En.
  { destruct (Z.le_gt_cases (Session.reorderNext (up_exit u)) (lenZ (up_sent u))); [|lia].
    destruct (C2 He Hcl (Session.reorderNext (up_exit u))) as [Hk|Hk]; [lia|rewrite Hf in Hk; by apply not_elem_of_nil in Hk|].
    destruct (C1 Hok _ Hk) as [?|[b Hbk]]; [|lia|apply Hb in Hbk; lia].
    unfold payload_of. rewrite Forall_forall in Hne. apply Hne, list_elem_of_In, nth_In. lia. }
  rewrite (i_target u Hu), En, frames_sent, take_ge by lia. done.
Qed.

(** An empty write takes a frame number that the exit passes over without counting it: every frame
    is accepted, no error is reported, and what was written after it never reaches the target. *)
Definition empty_write : list action :=
  concat ((fun '(k, p) => [AWrite p; AArrive k (fun _ => false); ADone k (Ok [])]) <$> [(1, [1]); (2, []); (3, [3]); (4, [4])]).
Theorem empty_write_stalls c now user :
  (fun u => (up_flight u, up_results u, tc_pipeErr (up_conn u), up_target u)) <$> run empty_write (dialled c now user) =
    Some ([], replicate 4 (Ok ()), None, [1]).
Proof. by vm_compute. Qed.

(** ** The pipeline does not bound the reorder window *)

Fixpoint narrow (w : nat) (l : list action) (u : upload) : bool :=
  (length (up_flight u) <=? w)%nat &&
  match l with [] => true | a :: l => match act a u with Some u => narrow w l u | None => false end end.

(** Frame 1 is slow; frames 2 to 33 are sent, accepted and acknowledged one after the other,
    and frame 34 arrives. *)
Definition straggler : list action :=
  AWrite [1] ::
  concat ((fun k => [AWrite [k]; AArrive k (fun _ => false); ADone k (Ok [])]) <$> seqZ 2 32) ++
  [AWrite [34]; AArrive 34 (fun _ => false)].

(** The width of the pipeline does not protect the reorder buffer of the exit: with never
    more than 2 POSTs under way (the client allows 8) and a target that accepts every write,
    one late frame is enough for the exit to refuse a frame because its 32-frame reorder
    buffer is full. *)
Theorem pipeline_overruns_reorder_buffer c now user :
  narrow 2 straggler (dialled c now user) = true /\
  (head ∘ up_results <$> run straggler (dialled c now user)) = Some (Some (Err "reorder buffer full")).
Proof. split; vm_compute; reflexivity. Qed.

(** ** Concrete runs *)

Definition toy_upload : list action :=
  [AWrite [1; 2]; AWrite [3]; AArrive 2 (fun _ => false); ADone 2 (Ok []); AArrive 1 (fun _ => false); AArrive 1 (fun _ => false); ADone 1 (Ok [])].

Lemma upload_intact_witness :
  match run toy_upload (dialled 0 0 []) with Some u => up_target u `prefix_of` concat (up_sent u) | None => False end.
Proof.
  destruct (run toy_upload (dialled 0 0 [])) as [u|] eqn:E; [|vm_compute in E; discriminate].
  apply (upload_intact toy_upload 0 0 [] u E). vm_compute in E. injection E as <-. vm_compute. congruence.
Defined.

Lemma upload_complete_witness :
  match run toy_upload (dialled 0 0 []) with Some u => up_target u = [1; 2; 3] | None => False end.
Proof.
  destruct (run toy_upload (dialled 0 0 [])) as [u|] eqn:E; [|vm_compute in E; discriminate].
  pose proof (upload_complete toy_upload 0 0 [] u E) as H. vm_compute in E. injection E as <-.
  apply H; [vm_compute; congruence|by repeat constructor|reflexivity|reflexivity|reflexivity|by repeat constructor].
Defined.

Lemma dead_path_gives_up_witness : lr_attempts (stream_loop (replicate 30 (OpenError false)) loop_start) = 20%nat.
Proof.
  apply (dead_path_gives_up Opening); [|vm_compute; lia].
  apply Forall_replicate. reflexivity.
Defined.

Lemma no_blame_without_failure_witness :
  lr_reports (stream_loop [Stream [[1]] true 0; Stream [] false (2 * second); OpenError true] loop_start) = 0.
Proof.
  apply no_blame_without_failure. repeat constructor; vm_compute; congruence.
Defined.

Lemma polling_is_paced_witness :
  match Read true 10 (replicate 9 (Ok []) ++ [Ok [1]]) (newTunnelConn false 0) with
  | Some (_, _, waits) => 2620 * millisecond <= total waits
  | None => False
  end.
Proof. apply (polling_is_paced true 10 9 (newTunnelConn false 0) [Ok [1]]); reflexivity. Defined.

End Upload.
