(* ===== verification/ClientDialer.v ===== *)
(** * snc/core: dialers and their pool (tunnel.go, dialer_pool.go)

    A [TunnelDialer] keeps the outcomes of its dials over a sliding window, its smoothed round
    trip time and the load factor of its control; a [DialerPool] draws dialers by these weights
    and pins hosts and apps to them. Here too are the opening of a connection with its retries
    ([Dial], [doPost], [refreshToken]). Dialers are pointers into a heap; the clock, the random
    draws, the HTTP exchanges and the logins are inputs. *)

From stdpp Require Import base list gmap strings fin_maps.
From Stdlib Require Import ZArith Lia.
From S2P Require Import Prelude GoLib GoFloat.

Module Dialer.
Import Float.

(** The 32-bit counters of sync/atomic. *)
Definition int32 (z : Z) : Z := (z + 2 ^ 31) mod 2 ^ 32 - 2 ^ 31.

Definition dialWinSize : Z := 30 * second.
Definition dialWinMinSamples : Z := 3.
Definition dialWinMinSpan : Z := 10 * second.
Definition firstFailRatio : float64 := fconst 1 2.
Definition dataFailRatio : float64 := fconst 8 10.
Definition trafficRTTAlpha : float64 := fconst 15 100.
Definition trafficRTTMinSamples : Z := 5.

Record dialOutcome := MkOutcome { o_at : Z; o_success : bool }.

(** [td_quic]: the dialer rides QUIC; [td_udpHook]: its [onUDPFailed] hook has not fired yet.
    [td_load] is the last load factor set, or zero. *)
Record TunnelDialer := MkDialer {
  td_url : gostring;
  td_token : gostring;
  td_window : list dialOutcome;
  td_firstFired : bool;
  td_dataFired : bool;
  td_lastDataAt : Z;
  td_active : Z;
  td_rttNanos : Z;
  td_rttCount : Z;
  td_load : float64;
  td_quic : bool;
  td_udpHook : bool }.

Definition set_window (w : list dialOutcome) (td : TunnelDialer) : TunnelDialer :=
  MkDialer (td_url td) (td_token td) w (td_firstFired td) (td_dataFired td) (td_lastDataAt td) (td_active td)
    (td_rttNanos td) (td_rttCount td) (td_load td) (td_quic td) (td_udpHook td).
Definition set_fired (first data udp : bool) (td : TunnelDialer) : TunnelDialer :=
  MkDialer (td_url td) (td_token td) (td_window td) first data (td_lastDataAt td) (td_active td)
    (td_rttNanos td) (td_rttCount td) (td_load td) (td_quic td) udp.
Definition set_data_at (t : Z) (td : TunnelDialer) : TunnelDialer :=
  MkDialer (td_url td) (td_token td) (td_window td) (td_firstFired td) (td_dataFired td) t (td_active td)
    (td_rttNanos td) (td_rttCount td) (td_load td) (td_quic td) (td_udpHook td).
Definition set_rtt (nanos n : Z) (td : TunnelDialer) : TunnelDialer :=
  MkDialer (td_url td) (td_token td) (td_window td) (td_firstFired td) (td_dataFired td) (td_lastDataAt td) (td_active td)
    nanos n (td_load td) (td_quic td) (td_udpHook td).
Definition set_load (f : float64) (td : TunnelDialer) : TunnelDialer :=
  MkDialer (td_url td) (td_token td) (td_window td) (td_firstFired td) (td_dataFired td) (td_lastDataAt td) (td_active td)
    (td_rttNanos td) (td_rttCount td) f (td_quic td) (td_udpHook td).
Definition set_active (n : Z) (td : TunnelDialer) : TunnelDialer :=
  MkDialer (td_url td) (td_token td) (td_window td) (td_firstFired td) (td_dataFired td) (td_lastDataAt td) n
    (td_rttNanos td) (td_rttCount td) (td_load td) (td_quic td) (td_udpHook td).
Definition set_token (t : gostring) (td : TunnelDialer) : TunnelDialer :=
  MkDialer (td_url td) t (td_window td) (td_firstFired td) (td_dataFired td) (td_lastDataAt td) (td_active td)
    (td_rttNanos td) (td_rttCount td) (td_load td) (td_quic td) (td_udpHook td).

(** ** The outcome window *)

Fixpoint trim (cutoff : Z) (w : list dialOutcome) : list dialOutcome :=
  match w with
  | o :: w' => if o_at o <? cutoff then trim cutoff w' else w
  | [] => []
  end.

Definition fails (w : list dialOutcome) : Z := Z.of_nat (length (List.filter (fun o => negb (o_success o)) w)).
Definition ratio (w : list dialOutcome) : float64 := fdiv (of_Z (fails w)) (of_Z (lenZ w)).

(** Enough outcomes over a long enough time to judge. *)
Definition judged (now : Z) (w : list dialOutcome) : bool :=
  match w with
  | [] => false
  | o :: _ => (dialWinMinSamples <=? lenZ w) && (dialWinMinSpan <=? now - o_at o)
  end.

(** The hooks fired: the soft tier, the hard tier and the notice that QUIC failed. *)
Record fired := MkFired { fire_first : bool; fire_data : bool; fire_udp : bool }.

(** [recordDialOutcome]; [t] and [now] are the two readings of the clock. *)
Definition recordDialOutcome (t now : Z) (success : bool) (td : TunnelDialer) : TunnelDialer * fired :=
  let td := if success then set_data_at t td else td in
  let w := trim (now - dialWinSize) (td_window td) ++ [MkOutcome now success] in
  let td := set_window w td in
  if judged now w then
    let soft := fle firstFailRatio (ratio w) in
    let hard := fle dataFailRatio (ratio w) in
    let fireData := hard && negb (td_dataFired td) in
    let fireUDP := fireData && td_quic td && td_udpHook td in
    (set_fired soft hard (td_udpHook td && negb (fireData && td_quic td)) td,
     MkFired (soft && negb (td_firstFired td)) fireData fireUDP)
  else (td, MkFired false false false).

(** [FailRatio] trims the window it reads. *)
Definition FailRatio (now : Z) (td : TunnelDialer) : float64 * TunnelDialer :=
  let w := trim (now - dialWinSize) (td_window td) in
  (if judged now w then ratio w else f0, set_window w td).

(** ** Round trip times and load factors *)

(** [int64(x)] of a float within range: truncation towards zero. *)
Definition to_Z (x : float64) : Z :=
  match x with
  | SpecFloat.S754_finite s m e =>
      let v := if 0 <=? e then Z.pos m * 2 ^ e else Z.pos m / 2 ^ (- e) in if s then - v else v
  | _ => 0
  end.

Definition TrafficRTT (td : TunnelDialer) : Z := if td_rttCount td <? trafficRTTMinSamples then 0 else td_rttNanos td.

(** The second result is what the [onRTTUpdate] hook is called with. *)
Definition recordTrafficRTT (d : Z) (td : TunnelDialer) : TunnelDialer * option Z :=
  let old := td_rttNanos td in
  let new := if old =? 0 then d
             else to_Z (fadd (fmul trafficRTTAlpha (of_Z d)) (fmul (fconst 85 100) (of_Z old))) in
  let n := int32 (td_rttCount td + 1) in
  (set_rtt new n td, if trafficRTTMinSamples <=? n then Some new else None).

Definition SetLoadFactor (f : float64) (td : TunnelDialer) : TunnelDialer := if fle f f0 then td else set_load f td.
Definition LoadFactor (td : TunnelDialer) : float64 := td_load td.
Definition OpenConns (td : TunnelDialer) : Z := td_active td.
Definition LastDataTime (td : TunnelDialer) : option Z := if td_lastDataAt td =? 0 then None else Some (td_lastDataAt td).

(** ** The weight of a dialer (dialer_pool.go) *)

Definition defaultPickRTT : Z := second.
Definition softMinQuality : float64 := fconst 1 10.

Definition pickWeight (now : Z) (td : TunnelDialer) : float64 * TunnelDialer :=
  let rtt := if TrafficRTT td <=? 0 then defaultPickRTT else TrafficRTT td in
  let lf := if fle (LoadFactor td) f0 then f1 else LoadFactor td in
  let base := fdiv f1 (fmul (of_Z rtt) lf) in
  let '(fr, td) := FailRatio now td in
  let quality := fsub f1 fr in
  let quality := if flt quality softMinQuality then softMinQuality else quality in
  (fmul base quality, td).

(** ** What the window holds *)

(** A run of outcomes, oldest first, each with its two clock readings. *)
Definition record_all (evs : list (Z * Z * bool)) (td : TunnelDialer) : TunnelDialer :=
  foldl (fun td ev => (recordDialOutcome ev.1.1 ev.1.2 ev.2 td).1) td evs.
Definition outcome_of (ev : Z * Z * bool) : dialOutcome := MkOutcome ev.1.2 ev.2.
Definition within (now : Z) (o : dialOutcome) : bool := now - dialWinSize <=? o_at o.

Definition times_sorted (w : list dialOutcome) : Prop := Sorted.StronglySorted (fun a b => o_at a <= o_at b) w.

Lemma trim_filter cutoff w : times_sorted w -> trim cutoff w = List.filter (fun o => cutoff <=? o_at o) w.
Proof.
  induction 1 as [|o w Hs IH Hf]; [done|]. cbn. destruct (Z.ltb_spec (o_at o) cutoff), (Z.leb_spec cutoff (o_at o)); try lia; [done|].
  f_equal. clear IH Hs. symmetry. apply forallb_filter_id, forallb_forall. intros x Hx. apply Z.leb_le.
  rewrite Forall_forall in Hf. apply list_elem_of_In, Hf in Hx. lia.
Qed.

Lemma window_after t now s td : td_window (recordDialOutcome t now s td).1 = trim (now - dialWinSize) (td_window td) ++ [MkOutcome now s].
Proof. unfold recordDialOutcome. destruct s; (destruct (judged _ _); [done|done]). Qed.

Lemma filter_filter_weaken (c c' : Z) w : c <= c' ->
  List.filter (fun o => c' <=? o_at o) (List.filter (fun o => c <=? o_at o) w) = List.filter (fun o => c' <=? o_at o) w.
Proof.
  intros Hc. induction w as [|o w IH]; [done|]. cbn. destruct (Z.leb_spec c (o_at o)), (Z.leb_spec c' (o_at o)); cbn; rewrite ?IH.
  - by rewrite (proj2 (Z.leb_le _ _)).
  - by rewrite (proj2 (Z.leb_gt _ _)).
  - lia.
  - done.
Qed.

Lemma sorted_filter f w : times_sorted w -> times_sorted (List.filter f w).
Proof.
  induction 1 as [|o w Hs IH Hf]; [constructor|]. cbn. destruct (f o); [|done]. constructor; [done|].
  rewrite Forall_forall in Hf |- *. intros x Hx. apply list_elem_of_In, filter_In in Hx as [Hx _]. apply Hf. by apply list_elem_of_In.
Qed.

Lemma sorted_prefix w k : times_sorted (w ++ k) -> times_sorted w.
Proof.
  induction w as [|o w IH]; [constructor|]. cbn. intros H. apply Sorted.StronglySorted_inv in H as [Hs Hf]. constructor; [by apply IH|]. by apply Forall_app in Hf as [? _].
Qed.

Lemma sorted_last w o : times_sorted (w ++ [o]) -> Forall (fun x => o_at x <= o_at o) w.
Proof.
  induction w as [|x w IH]; [constructor|]. cbn. intros H. apply Sorted.StronglySorted_inv in H as [Hs Hf]. constructor; [|auto].
  apply Forall_app in Hf as [_ Hf]. by inversion Hf.
Qed.

Lemma window_of_run evs t now s td :
  td_window td = [] -> times_sorted (outcome_of <$> evs ++ [(t, now, s)]) ->
  td_window (record_all (evs ++ [(t, now, s)]) td) = List.filter (within now) (outcome_of <$> evs ++ [(t, now, s)]).
Proof.
  intros Hw. revert t now s. induction evs as [|[[t' now'] s'] evs IH] using rev_ind; intros t now s Hs; unfold record_all; rewrite foldl_app; cbn [foldl].
  - rewrite window_after. cbn. rewrite Hw. unfold within. cbn. by rewrite (proj2 (Z.leb_le _ _)) by (unfold dialWinSize, second; lia).
  - rewrite window_after. cbn [fst snd]. fold (record_all (evs ++ [(t', now', s')]) td).
    rewrite fmap_app in Hs |- *. cbn [fmap list_fmap] in Hs |- *. unfold outcome_of at 2 in Hs. cbn [fst snd] in Hs.
    pose proof (sorted_prefix _ _ Hs) as Hs'. rewrite (IH t' now' s' Hs').
    assert (now' <= now) as Hle.
    { apply sorted_last in Hs. rewrite fmap_app in Hs. apply Forall_app in Hs as [_ Hs]. by inversion Hs. }
    rewrite trim_filter by by apply sorted_filter. rewrite List.filter_app. cbn [List.filter].
    assert (within now (outcome_of (t, now, s)) = true) as ->.
    { unfold within, outcome_of. cbn. apply Z.leb_le. unfold dialWinSize, second. lia. }
    f_equal. unfold within. apply filter_filter_weaken. lia.
Qed.

(** The window of a dialer is the outcomes of its last 30 seconds: after any run of dial
    and stream outcomes on a clock that does not go back, the window holds exactly the
    outcomes no older than 30 seconds at the last of them, in order, and the failure ratio
    read later is taken over exactly those still within 30 seconds. *)
Theorem window_is_last_30s evs t now s td :
  td_window td = [] -> times_sorted (outcome_of <$> evs ++ [(t, now, s)]) ->
  let td' := record_all (evs ++ [(t, now, s)]) td in
  td_window td' = List.filter (within now) (outcome_of <$> evs ++ [(t, now, s)]) /\
  forall later, now <= later ->
    td_window (FailRatio later td').2 = List.filter (within later) (outcome_of <$> evs ++ [(t, now, s)]).
Proof.
  intros Hw Hs. cbn zeta.
  assert (td_window (record_all (evs ++ [(t, now, s)]) td) = List.filter (within now) (outcome_of <$> evs ++ [(t, now, s)])) as E.
  { by apply window_of_run. }
  split; [done|]. intros later Hl. unfold FailRatio. cbn [snd set_window td_window]. rewrite E.
  rewrite trim_filter; [|by apply sorted_filter]. unfold within. apply filter_filter_weaken. lia.
Qed.

(** ** The eviction hooks fire on the edge *)

(** Did the soft hook fire, was the window judged, and was the ratio at the threshold? *)
Definition soft_event (ev : Z * Z * bool) (td : TunnelDialer) : bool * bool :=
  let x := recordDialOutcome ev.1.1 ev.1.2 ev.2 td in
  (fire_first x.2, judged ev.1.2 (td_window x.1) && negb (fle firstFailRatio (ratio (td_window x.1)))).

(** The soft events of a run: fired, and recovered below the threshold. *)
Fixpoint soft_trace (evs : list (Z * Z * bool)) (td : TunnelDialer) : list (bool * bool) :=
  match evs with
  | [] => []
  | ev :: evs => soft_event ev td :: soft_trace evs (recordDialOutcome ev.1.1 ev.1.2 ev.2 td).1
  end.

Lemma soft_flag ev td :
  let x := recordDialOutcome ev.1.1 ev.1.2 ev.2 td in
  td_firstFired x.1 = if (soft_event ev td).2 then false else (soft_event ev td).1 || td_firstFired td.
Proof.
  cbn zeta. unfold soft_event. set (x := recordDialOutcome _ _ _ _).
  assert (td_window x.1 = trim (ev.1.2 - dialWinSize) (td_window td) ++ [MkOutcome ev.1.2 ev.2]) as Ew by apply window_after.
  cbn [fst snd]. rewrite Ew. unfold x, recordDialOutcome.
  assert (forall b, td_window (if b : bool then set_data_at ev.1.1 td else td) = td_window td) as E1 by by intros [].
  assert (forall b, td_firstFired (if b : bool then set_data_at ev.1.1 td else td) = td_firstFired td) as E2 by by intros [].
  rewrite E1. destruct (judged _ _); cbn [fst snd set_fired set_window td_firstFired fire_first andb]; rewrite E2; [|by destruct ev.2].
  by destruct (fle _ _), (td_firstFired td).
Qed.

Lemma soft_fires_unfired ev td : (soft_event ev td).1 = true -> td_firstFired td = false /\ (soft_event ev td).2 = false.
Proof.
  unfold soft_event. set (x := recordDialOutcome _ _ _ _). cbn [fst snd].
  assert (td_window x.1 = trim (ev.1.2 - dialWinSize) (td_window td) ++ [MkOutcome ev.1.2 ev.2]) as Ew by apply window_after.
  rewrite Ew. unfold x, recordDialOutcome.
  assert (forall b, td_window (if b : bool then set_data_at ev.1.1 td else td) = td_window td) as E1 by by intros [].
  assert (forall b, td_firstFired (if b : bool then set_data_at ev.1.1 td else td) = td_firstFired td) as E2 by by intros [].
  rewrite E1. destruct (judged _ _); cbn [fst snd set_fired set_window td_firstFired fire_first andb]; rewrite ?E2; [|done].
  by destruct (fle _ _), (td_firstFired td).
Qed.

Lemma refire_needs_recovery evs td i x :
  td_firstFired td = true -> soft_trace evs td !! i = Some x -> x.1 = true ->
  exists k, (k < i)%nat /\ soft_trace evs td !! k = Some (false, true).
Proof.
  revert td i. induction evs as [|ev evs IH]; intros td i Hf Hx Hxt; [done|]. cbn [soft_trace] in *.
  assert ((soft_event ev td).1 = false) as E1.
  { destruct ((soft_event ev td).1) eqn:E; [|done]. apply soft_fires_unfired in E as [E _]. congruence. }
  destruct i as [|i]; cbn [lookup list_lookup] in Hx; [by injection Hx as <-; congruence|].
  destruct ((soft_event ev td).2) eqn:E2.
  - exists 0%nat. split; [lia|]. cbn. by rewrite (surjective_pairing (soft_event ev td)), E1, E2.
  - destruct (IH (recordDialOutcome ev.1.1 ev.1.2 ev.2 td).1 i) as (k & Hk & E); [|done|done|].
    + rewrite soft_flag, E2, Hf. apply orb_true_r.
    + exists (S k). split; [lia|done].
Qed.

(** The soft eviction hook fires on the edge: between two firings the failure ratio has been
    judged below one half, so a control that stays bad is reported once, and reported again
    only after it recovered. *)
Theorem soft_hook_edge evs td i j x y :
  soft_trace evs td !! i = Some x -> x.1 = true -> soft_trace evs td !! j = Some y -> y.1 = true -> (i < j)%nat ->
  exists k, (i < k < j)%nat /\ soft_trace evs td !! k = Some (false, true).
Proof.
  revert td i j. induction evs as [|ev evs IH]; intros td i j Hx Hxt Hy Hyt Hij; [done|]. cbn [soft_trace] in *.
  destruct j as [|j]; [lia|]. destruct i as [|i]; cbn [lookup list_lookup] in Hx, Hy.
  - injection Hx as <-. pose proof (soft_flag ev td) as Hf. cbn zeta in Hf.
    destruct (soft_fires_unfired ev td Hxt) as [_ H2]. rewrite H2, Hxt in Hf. cbn in Hf.
    destruct (refire_needs_recovery evs _ j y Hf Hy Hyt) as (k & Hk & E). exists (S k). split; [lia|done].
  - destruct (IH _ i j Hx Hxt Hy Hyt ltac:(lia)) as (k & Hk & E). exists (S k). split; [lia|done].
Qed.

(** ** Concrete runs *)

Definition toy_dialer : TunnelDialer := MkDialer (bs "https://c1") (bs "token-01") [] false false 0 0 0 0 f0 false false.

Lemma window_is_last_30s_witness :
  td_window (record_all [(0, 0, false); (31 * second, 31 * second, true)] toy_dialer) = [MkOutcome (31 * second) true].
Proof.
  apply (window_is_last_30s [(0, 0, false)] (31 * second) (31 * second) true toy_dialer); [reflexivity|].
  repeat constructor; vm_compute; congruence.
Defined.

(** Down for 10 s, up until the window has recovered, and down again. *)
Definition toy_flaps : list (Z * Z * bool) :=
  (fun p : Z * bool => (p.1 * second, p.1 * second, p.2)) <$>
  [(0, false); (5, false); (10, false); (20, true); (21, true); (22, true); (23, true); (60, false); (65, false); (75, false)].

Lemma soft_hook_edge_witness :
  exists k, (2 < k < 9)%nat /\ soft_trace toy_flaps toy_dialer !! k = Some (false, true).
Proof.
  apply (soft_hook_edge toy_flaps toy_dialer 2 9 (true, false) (true, false)); [vm_compute; reflexivity|reflexivity|vm_compute; reflexivity|reflexivity|lia].
Defined.

End Dialer.

(** * The pool *)

Module Pool.
Import Float Dialer.

(** Pointers to dialers, and the dialers behind them. *)
Definition heap := nat -> TunnelDialer.
Definition set_dialer (d : nat) (td : TunnelDialer) (h : heap) : heap := fun d' => if decide (d' = d) then td else h d'.

Inductive dialerState := dialerStandby | dialerDraining.
#[export] Instance dialerState_eq_dec : EqDecision dialerState.
Proof. solve_decision. Defined.

Record dialerSlot := MkSlot { sl_dialer : nat; sl_state : dialerState }.
Record hostAffinityEntry := MkAffinity { ha_dialer : nat; ha_at : Z }.

(** The activity hook is left out: it is only stored and called. *)
Record DialerPool := MkPool {
  slots : list dialerSlot;
  evictCount : Z;
  affinity : gmap gostring hostAffinityEntry;
  appAffinity : gmap Z nat }.

Definition hostAffinityTTL : Z := 10 * minute.

Definition standby (d : nat) : dialerSlot := MkSlot d dialerStandby.
Definition NewDialerPool (ds : list nat) : DialerPool := MkPool (standby <$> ds) 0 ∅ ∅.
Definition set_slots (l : list dialerSlot) (p : DialerPool) : DialerPool := MkPool l (evictCount p) (affinity p) (appAffinity p).

(** ** The weighted draw

    [clk i] is the clock at the i-th weight of a pass; [rnd] is rand.Float64(). *)
Definition eligible (exclude : option nat) (s : dialerSlot) : bool :=
  negb (bool_decide (sl_state s = dialerDraining)) && negb (bool_decide (Some (sl_dialer s) = exclude)).

Definition weigh (now : Z) (d : nat) (h : heap) : float64 * heap :=
  let '(w, td) := pickWeight now (h d) in (w, set_dialer d td h).

Fixpoint total_weight (clk : nat -> Z) (i : nat) (exclude : option nat) (l : list dialerSlot) (acc : float64) (h : heap)
    : float64 * heap :=
  match l with
  | [] => (acc, h)
  | s :: l =>
      if eligible exclude s then
        let '(w, h) := weigh (clk i) (sl_dialer s) h in total_weight clk (S i) exclude l (fadd acc w) h
      else total_weight clk (S i) exclude l acc h
  end.

Fixpoint draw (clk : nat -> Z) (i : nat) (exclude : option nat) (l : list dialerSlot) (r : float64) (h : heap)
    : option nat * heap :=
  match l with
  | [] => (None, h)
  | s :: l =>
      if eligible exclude s then
        let '(w, h) := weigh (clk i) (sl_dialer s) h in
        let r := fsub r w in
        if fle r f0 then (Some (sl_dialer s), h) else draw clk (S i) exclude l r h
      else draw clk (S i) exclude l r h
  end.

Record pick_env := MkPickEnv { pe_clk1 : nat -> Z; pe_clk2 : nat -> Z; pe_rnd : float64 }.

Definition pickLocked (e : pick_env) (exclude : option nat) (p : DialerPool) (h : heap) : option nat * heap :=
  let '(total, h) := total_weight (pe_clk1 e) 0 exclude (slots p) f0 h in
  if feq total f0 then (None, h)
  else
    let '(o, h) := draw (pe_clk2 e) 0 exclude (slots p) (fmul (pe_rnd e) total) h in
    match o with
    | Some d => (Some d, h)
    | None => (sl_dialer <$> List.find (eligible exclude) (rev (slots p)), h)
    end.

Definition Pick (e : pick_env) (p : DialerPool) (h : heap) : option nat * heap := pickLocked e None p h.
Definition PickExcluding (e : pick_env) (exclude : nat) (p : DialerPool) (h : heap) : option nat * heap :=
  pickLocked e (Some exclude) p h.

(** ** Affinities *)

Definition containsUnlocked (d : nat) (p : DialerPool) : bool :=
  match List.find (fun s => bool_decide (sl_dialer s = d)) (slots p) with
  | Some s => negb (bool_decide (sl_state s = dialerDraining))
  | None => false
  end.

Definition setHostAffinityLocked (now : Z) (host : gostring) (d : nat) (p : DialerPool) : DialerPool :=
  MkPool (slots p) (evictCount p) (<[host := MkAffinity d now]> (affinity p)) (appAffinity p).
Definition setUIDAffinityLocked (uid : Z) (d : nat) (p : DialerPool) : DialerPool :=
  MkPool (slots p) (evictCount p) (affinity p) (<[uid := d]> (appAffinity p)).

(** [now] is read for the age of the pin and [later] when it is set. *)
Definition PickForHost (e : pick_env) (now later : Z) (host : gostring) (p : DialerPool) (h : heap)
    : option nat * DialerPool * heap :=
  if decide (host = []) then let '(o, h) := Pick e p h in (o, p, h)
  else
    let fresh := let '(o, h) := pickLocked e None p h in
      (o, match o with Some d => setHostAffinityLocked later host d p | None => p end, h) in
    match affinity p !! host with
    | Some a => if (now - ha_at a <? hostAffinityTTL) && containsUnlocked (ha_dialer a) p then (Some (ha_dialer a), p, h) else fresh
    | None => fresh
    end.
Definition SetHostAffinity (now : Z) (host : gostring) (d : option nat) (p : DialerPool) : DialerPool :=
  match d with
  | Some d => if decide (host = []) then p else setHostAffinityLocked now host d p
  | None => p
  end.

Definition PickForUID (e : pick_env) (uid : Z) (p : DialerPool) (h : heap) : option nat * DialerPool * heap :=
  if uid <? 0 then let '(o, h) := Pick e p h in (o, p, h)
  else
    let fresh := let '(o, h) := pickLocked e None p h in
      (o, match o with Some d => setUIDAffinityLocked uid d p | None => p end, h) in
    match appAffinity p !! uid with
    | Some d => if containsUnlocked d p then (Some d, p, h) else fresh
    | None => fresh
    end.
Definition SetUIDAffinity (uid : Z) (d : option nat) (p : DialerPool) : DialerPool :=
  match d with Some d => setUIDAffinityLocked uid d p | None => p end.

Definition sweepAffinityLocked (now : Z) (p : DialerPool) : DialerPool :=
  MkPool (slots p) (evictCount p) (filter (fun kv => ~ (hostAffinityTTL <= now - ha_at kv.2)) (affinity p)) (appAffinity p).

(** ** Membership *)

Definition live (s : dialerSlot) : bool := negb (bool_decide (sl_state s = dialerDraining)).
Definition Size (p : DialerPool) : Z := lenZ (List.filter live (slots p)).
Definition Dialers (p : DialerPool) : list nat := sl_dialer <$> List.filter live (slots p).
Definition NeedsRefill (target : Z) (p : DialerPool) : bool := Size p <? target.
Definition Get (h : heap) (url : gostring) (p : DialerPool) : option nat :=
  sl_dialer <$> List.find (fun s => live s && bool_decide (td_url (h (sl_dialer s)) = url)) (slots p).
Definition Has (h : heap) (url : gostring) (p : DialerPool) : bool :=
  existsb (fun s => live s && bool_decide (td_url (h (sl_dialer s)) = url)) (slots p).

(** The distinct nonempty URLs, in order of first appearance. *)
Fixpoint distinct (seen l : list gostring) : list gostring :=
  match l with
  | [] => []
  | u :: l => if decide (u = [] \/ u ∈ seen) then distinct seen l else u :: distinct (u :: seen) l
  end.
Definition URLs (h : heap) (p : DialerPool) : list gostring := distinct [] ((fun d => td_url (h d)) <$> Dialers p).

(** The zero time is [None]. *)
Definition later_of (a b : option Z) : option Z :=
  match a, b with Some x, Some y => Some (Z.max x y) | Some x, None => Some x | None, b => b end.
Definition PoolLastDataTime (h : heap) (p : DialerPool) : option Z :=
  foldl (fun latest s => later_of latest (LastDataTime (h (sl_dialer s)))) None (slots p).

Definition Add (d : nat) (p : DialerPool) : DialerPool := set_slots (slots p ++ [standby d]) p.
Definition Evict (d : nat) (p : DialerPool) : Z * DialerPool :=
  if existsb (fun s => bool_decide (sl_dialer s = d)) (slots p) then
    let p := MkPool (List.filter (fun s => negb (bool_decide (sl_dialer s = d))) (slots p)) (int32 (evictCount p + 1))
               (affinity p) (appAffinity p) in
    (Size p, p)
  else (Size p, p).
Definition Swap (ds : list nat) (p : DialerPool) : DialerPool := set_slots (standby <$> ds) p.
Definition DrainEvictions (p : DialerPool) : Z * DialerPool := (evictCount p, MkPool (slots p) 0 (affinity p) (appAffinity p)).

Definition manage (now : Z) (h : heap) (p : DialerPool) : DialerPool :=
  sweepAffinityLocked now
    (set_slots ((fun s => if bool_decide (sl_state s = dialerDraining) && (OpenConns (h (sl_dialer s)) =? 0)
                          then standby (sl_dialer s) else s) <$> slots p) p).

(** ** A draw returns an eligible member *)

Definition member (exclude : option nat) (p : DialerPool) (d : nat) : Prop :=
  exists s, s ∈ slots p /\ sl_dialer s = d /\ sl_state s = dialerStandby /\ Some d <> exclude.

Lemma eligible_spec exclude s : eligible exclude s = true <-> sl_state s = dialerStandby /\ Some (sl_dialer s) <> exclude.
Proof.
  unfold eligible. rewrite andb_true_iff, !negb_true_iff, !bool_decide_eq_false. destruct (sl_state s); naive_solver.
Qed.

Lemma draw_eligible clk i exclude l r h d :
  (draw clk i exclude l r h).1 = Some d -> exists s, s ∈ l /\ sl_dialer s = d /\ eligible exclude s = true.
Proof.
  revert i r h. induction l as [|s l IH]; intros i r h; cbn [draw]; [done|].
  destruct (eligible exclude s) eqn:E.
  - destruct (weigh _ _ _) as [w h']. destruct (fle _ _).
    + intros [= <-]. exists s. split; [apply list_elem_of_here|done].
    + intros H. apply IH in H as (s' & Hs & H). exists s'. split; [by apply list_elem_of_further|done].
  - intros H. apply IH in H as (s' & Hs & H). exists s'. split; [by apply list_elem_of_further|done].
Qed.

Lemma total_none clk i exclude l acc h :
  Forall (fun s => eligible exclude s = false) l -> (total_weight clk i exclude l acc h).1 = acc.
Proof.
  intros H. revert i acc h. induction H as [|s l E H IH]; intros i acc h; cbn [total_weight]; [done|]. by rewrite E.
Qed.

Lemma pickLocked_member e exclude p h d : (pickLocked e exclude p h).1 = Some d -> member exclude p d.
Proof.
  unfold pickLocked. destruct (total_weight _ _ _ _ _ _) as [total h1]. destruct (feq total f0); [done|].
  pose proof (draw_eligible (pe_clk2 e) 0 exclude (slots p) (fmul (pe_rnd e) total) h1) as Hd.
  destruct (draw _ _ _ _ _ _) as [[d'|] h2]; cbn [fst].
  - intros [= ->]. destruct (Hd d eq_refl) as (s & Hs & <- & He). apply eligible_spec in He as [? ?]. by exists s.
  - destruct (List.find _ _) as [s|] eqn:Ef; [|done]. cbn. intros [= <-]. apply find_some in Ef as [Hin He].
    apply eligible_spec in He as [? ?]. exists s. split; [|done]. by apply list_elem_of_In, in_rev.
Qed.

(** The weighted draw returns nothing exactly when the weights of the eligible dialers add
    up to zero, in particular when there is none; otherwise it returns a dialer of the pool
    that is not draining and not the excluded one, whatever the random number and however the
    weights change while they are read. *)
Theorem draw_spec e exclude p h :
  match (pickLocked e exclude p h).1 with
  | Some d => member exclude p d
  | None => feq (total_weight (pe_clk1 e) 0 exclude (slots p) f0 h).1 f0 = true
  end /\
  (feq (total_weight (pe_clk1 e) 0 exclude (slots p) f0 h).1 f0 = true -> (pickLocked e exclude p h).1 = None) /\
  ((forall d, ~ member exclude p d) -> (pickLocked e exclude p h).1 = None).
Proof.
  assert (forall d, (pickLocked e exclude p h).1 = Some d -> member exclude p d) as Hm by (intros d; apply pickLocked_member).
  split_and!.
  - destruct ((pickLocked e exclude p h).1) as [d|] eqn:E; [by apply Hm|]. clear Hm.
    destruct (feq (total_weight _ _ _ _ _ _).1 f0) eqn:Et; [done|exfalso].
    assert (exists s, s ∈ slots p /\ eligible exclude s = true) as (s & Hs & He).
    { destruct (existsb (eligible exclude) (slots p)) eqn:Ex.
      - apply existsb_exists in Ex as (s & Hs & He). exists s. split; [by apply list_elem_of_In|done].
      - exfalso. rewrite total_none in Et; [done|]. apply Forall_forall. intros s Hs. apply not_true_is_false. intros He.
        rewrite <- not_true_iff_false, existsb_exists in Ex. apply Ex. exists s. split; [by apply list_elem_of_In|done]. }
    unfold pickLocked in E. destruct (total_weight _ _ _ _ _ _) as [total h1]. cbn [fst] in Et. rewrite Et in E.
    destruct (draw _ _ _ _ _ _) as [[d'|] h2]; [done|]. cbn [fst] in E.
    destruct (List.find _ _) as [s'|] eqn:Ef; [done|].
    rewrite (find_none _ _ Ef s) in He; [done|]. rewrite <- in_rev. by apply list_elem_of_In.
  - unfold pickLocked. destruct (total_weight _ _ _ _ _ _) as [total h1]. cbn [fst]. by intros ->.
  - intros Hn. destruct ((pickLocked e exclude p h).1) as [d|] eqn:E; [|done]. by destruct (Hn d (Hm d eq_refl)).
Qed.

(** ** The life of a pool *)

Inductive op :=
  | OPick (e : pick_env)
  | OPickExcluding (e : pick_env) (d : nat)
  | OPickForHost (e : pick_env) (now later : Z) (host : gostring)
  | OSetHost (now : Z) (host : gostring) (d : option nat)
  | OPickForUID (e : pick_env) (uid : Z)
  | OSetUID (uid : Z) (d : option nat)
  | OAdd (d : nat)
  | OEvict (d : nat)
  | OSwap (ds : list nat)
  | OManage (now : Z)
  | ODrainEvictions
  | ODialer (d : nat) (td : TunnelDialer).    (** a dialer's own state changes *)

(** The dialer an operation returns, if it is a pick, and the new state. *)
Definition step (o : op) (x : DialerPool * heap) : option nat * (DialerPool * heap) :=
  let '(p, h) := x in
  match o with
  | OPick e => let '(r, h) := Pick e p h in (r, (p, h))
  | OPickExcluding e d => let '(r, h) := PickExcluding e d p h in (r, (p, h))
  | OPickForHost e now later host => let '(r, p, h) := PickForHost e now later host p h in (r, (p, h))
  | OSetHost now host d => (None, (SetHostAffinity now host d p, h))
  | OPickForUID e uid => let '(r, p, h) := PickForUID e uid p h in (r, (p, h))
  | OSetUID uid d => (None, (SetUIDAffinity uid d p, h))
  | OAdd d => (None, (Add d p, h))
  | OEvict d => (None, ((Evict d p).2, h))
  | OSwap ds => (None, (Swap ds p, h))
  | OManage now => (None, (manage now h p, h))
  | ODrainEvictions => (None, ((DrainEvictions p).2, h))
  | ODialer d td => (None, (p, set_dialer d td h))
  end.
Fixpoint steps (l : list op) (x : DialerPool * heap) : DialerPool * heap :=
  match l with [] => x | o :: l => steps l (step o x).2 end.

Definition all_standby (p : DialerPool) : Prop := Forall (fun s => sl_state s = dialerStandby) (slots p).
Definition in_pool (d : nat) (p : DialerPool) : Prop := d ∈ sl_dialer <$> slots p.

Lemma contains_in_pool d p : all_standby p -> containsUnlocked d p = true <-> in_pool d p.
Proof.
  intros Ha. unfold containsUnlocked, in_pool. split.
  - destruct (List.find _ _) as [s|] eqn:E; [|done]. intros _. apply find_some in E as [Hs E].
    apply bool_decide_eq_true in E. apply list_elem_of_fmap. exists s. split; [done|by apply list_elem_of_In].
  - intros H. apply list_elem_of_fmap in H as (s & -> & Hs). destruct (List.find _ _) as [s'|] eqn:E.
    + apply find_some in E as [Hs' _]. unfold all_standby in Ha. rewrite Forall_forall in Ha. rewrite Ha by by apply list_elem_of_In. done.
    + pose proof (find_none _ _ E s (proj1 (list_elem_of_In _ _) Hs)) as H. cbn in H. by rewrite bool_decide_eq_true_2 in H.
Qed.

Lemma member_in_pool exclude p d : member exclude p d -> in_pool d p /\ Some d <> exclude.
Proof. intros (s & Hs & <- & _ & Hne). split; [|done]. apply list_elem_of_fmap. by exists s. Qed.

(** The slots after an operation. *)
Definition slots_after (o : op) (l : list dialerSlot) (h : heap) : list dialerSlot :=
  match o with
  | OAdd d => l ++ [standby d]
  | OEvict d => List.filter (fun s => negb (bool_decide (sl_dialer s = d))) l
  | OSwap ds => standby <$> ds
  | OManage _ => (fun s => if bool_decide (sl_state s = dialerDraining) && (OpenConns (h (sl_dialer s)) =? 0) then standby (sl_dialer s) else s) <$> l
  | _ => l
  end.

Lemma filter_none {A} (f : A -> bool) l : existsb (fun x => negb (f x)) l = false -> List.filter f l = l.
Proof. induction l as [|x l IH]; [done|]. cbn. destruct (f x); cbn; [|done]. intros H. by rewrite IH. Qed.

Lemma evict_slots d p : slots (Evict d p).2 = List.filter (fun s => negb (bool_decide (sl_dialer s = d))) (slots p).
Proof.
  unfold Evict. destruct (existsb _ _) eqn:E; [done|]. cbn [snd]. symmetry. apply filter_none. etransitivity; [|exact E]. clear E.
  induction (slots p) as [|s l IH]; [done|]. cbn. by rewrite negb_involutive, IH.
Qed.

Lemma pickForHost_slots e now later host p h : slots (PickForHost e now later host p h).1.2 = slots p.
Proof.
  unfold PickForHost. case_decide; [by destruct (Pick _ _ _)|].
  destruct (pickLocked _ _ _ _) as [[d|] h']; (destruct (affinity p !! host); [destruct (_ && _)|]); done.
Qed.
Lemma pickForUID_slots e uid p h : slots (PickForUID e uid p h).1.2 = slots p.
Proof.
  unfold PickForUID. destruct (uid <? 0); [by destruct (Pick _ _ _)|].
  destruct (pickLocked _ _ _ _) as [[d|] h']; (destruct (appAffinity p !! uid); [destruct (containsUnlocked _ _)|]); done.
Qed.

Lemma step_slots o p h : slots (step o (p, h)).2.1 = slots_after o (slots p) h.
Proof.
  destruct o as [e|e d|e now later host|now host d|e uid|uid d|d|d|ds|now| |d td]; cbn [step slots_after]; try done.
  - by destruct (Pick _ _ _).
  - by destruct (PickExcluding _ _ _ _).
  - pose proof (pickForHost_slots e now later host p h) as H. by destruct (PickForHost _ _ _ _ _ _) as [[r p'] h'].
  - destruct d; cbn; [|done]. by case_decide.
  - pose proof (pickForUID_slots e uid p h) as H. by destruct (PickForUID _ _ _ _) as [[r p'] h'].
  - by destruct d.
  - apply evict_slots.
Qed.

Lemma step_standby o p h : all_standby p -> all_standby (step o (p, h)).2.1.
Proof.
  unfold all_standby. rewrite step_slots. intros H. destruct o; cbn [slots_after]; try done.
  - apply Forall_app. split; [done|]. by repeat constructor.
  - rewrite Forall_forall in H |- *. intros s Hs. apply H. apply list_elem_of_In, filter_In in Hs as [Hs _]. by apply list_elem_of_In.
  - apply Forall_fmap. apply Forall_true. done.
  - apply Forall_fmap. eapply Forall_impl; [exact H|]. cbn. intros s Hs. by rewrite Hs.
Qed.

Lemma steps_standby l p h : all_standby p -> all_standby (steps l (p, h)).1.
Proof.
  revert p h. induction l as [|o l IH]; intros p h Hp; [done|]. cbn [steps].
  pose proof (step_standby o p h Hp) as Hs. destruct (step o (p, h)).2 as [p' h']. by apply IH.
Qed.

Lemma new_standby ds : all_standby (NewDialerPool ds).
Proof. apply Forall_fmap, Forall_true. done. Qed.

(** Every pick of every kind, in every state a pool can reach, returns a dialer that is in
    the pool at that moment, and [PickExcluding] never the excluded one: an evicted control is
    never handed out again, by a draw or by a pin, until it is added back. *)
Theorem picks_return_members l ds h o d :
  let x := steps l (NewDialerPool ds, h) in
  (step o x).1 = Some d ->
  in_pool d x.1 /\ match o with OPickExcluding _ d' => d <> d' | _ => True end.
Proof.
  cbn zeta. pose proof (steps_standby l (NewDialerPool ds) h (new_standby ds)) as Ha.
  revert Ha. generalize (steps l (NewDialerPool ds, h)) as x. clear. intros [p h] Ha.
  destruct o as [e|e d0|e now later host|now host d0|e uid|uid d0|d0|d0|ds|now| |d0 td]; cbn [step fst]; try done.
  - pose proof (pickLocked_member e None p h) as H. unfold Pick. destruct (pickLocked _ _ _ _) as [r h']. cbn [fst] in *.
    intros ->. split; [|done]. by eapply member_in_pool, H.
  - pose proof (pickLocked_member e (Some d0) p h) as H. unfold PickExcluding. destruct (pickLocked _ _ _ _) as [r h']. cbn [fst] in *.
    intros ->. destruct (member_in_pool _ _ _ (H d eq_refl)). split; [done|congruence].
  - pose proof (pickLocked_member e None p h) as H. unfold PickForHost, Pick. destruct (pickLocked _ _ _ _) as [r h']. cbn [fst] in *.
    assert (r = Some d -> in_pool d p) as Hr by (intros ->; by eapply member_in_pool, H).
    case_decide; [cbn; auto|]. destruct (affinity p !! host) as [a|]; [|cbn; auto].
    destruct (_ && _) eqn:E; [|cbn; auto]. cbn. intros [= <-]. split; [|done].
    apply andb_true_iff in E as [_ E]. by apply contains_in_pool.
  - pose proof (pickLocked_member e None p h) as H. unfold PickForUID, Pick. destruct (pickLocked _ _ _ _) as [r h']. cbn [fst] in *.
    assert (r = Some d -> in_pool d p) as Hr by (intros ->; by eapply member_in_pool, H).
    destruct (uid <? 0); [cbn; auto|]. destruct (appAffinity p !! uid) as [a|]; [|cbn; auto].
    destruct (containsUnlocked a p) eqn:E; [|cbn; auto]. cbn. intros [= <-]. split; [|done]. by apply contains_in_pool.
Qed.

(** ** Sticky hosts *)

Record pinned (host : gostring) (d : nat) (a : Z) (p : DialerPool) : Prop := {
  pin_standby : all_standby p;
  pin_member : in_pool d p;
  pin_entry : affinity p !! host = Some (MkAffinity d a) }.

(** The operations that leave a pin of [d] made at [a] in place. *)
Definition keeps (a : Z) (host : gostring) (d : nat) (o : op) : Prop :=
  match o with
  | OEvict d' => d' <> d
  | OSwap ds => d ∈ ds
  | OSetHost _ host' _ => host' <> host
  | OManage now => now - a < hostAffinityTTL
  | OPickForHost _ now _ host' => host' = host -> now - a < hostAffinityTTL
  | _ => True
  end.

Lemma pinned_hit host d a p e now later h :
  pinned host d a p -> host <> [] -> now - a < hostAffinityTTL -> PickForHost e now later host p h = (Some d, p, h).
Proof.
  intros [Hs Hm He] Hh Hn. unfold PickForHost. rewrite decide_False by done. rewrite He. cbn [ha_at ha_dialer].
  by rewrite (proj2 (Z.ltb_lt _ _) Hn), (proj2 (contains_in_pool d p Hs) Hm).
Qed.

Lemma in_pool_after o p h d :
  (match o with OEvict d' => d' <> d | OSwap ds => d ∈ ds | _ => True end) ->
  in_pool d p -> d ∈ sl_dialer <$> slots_after o (slots p) h.
Proof.
  intros Hk Hm. unfold in_pool in Hm. destruct o; cbn [slots_after]; try done.
  - rewrite fmap_app. apply elem_of_app. by left.
  - apply list_elem_of_fmap in Hm as (s & -> & Hs). apply list_elem_of_fmap. exists s. split; [done|].
    apply list_elem_of_In, filter_In. split; [by apply list_elem_of_In|]. apply negb_true_iff, bool_decide_eq_false. congruence.
  - rewrite <- list_fmap_compose. apply list_elem_of_fmap. by exists d.
  - rewrite <- list_fmap_compose. apply list_elem_of_fmap in Hm as (s & -> & Hs). apply list_elem_of_fmap. exists s.
    split; [|done]. cbn. by destruct (_ && _).
Qed.

Lemma affinity_after o p h host d a :
  pinned host d a p -> host <> [] -> keeps a host d o -> affinity (step o (p, h)).2.1 !! host = Some (MkAffinity d a).
Proof.
  intros Hp Hh Hk. pose proof (pin_entry _ _ _ _ Hp) as He.
  destruct o as [e|e d0|e now later host'|now host' d0|e uid|uid d0|d0|d0|ds|now| |d0 td]; cbn [step keeps] in *; try done.
  - by destruct (Pick _ _ _).
  - by destruct (PickExcluding _ _ _ _).
  - destruct (decide (host' = host)) as [->|Hne].
    { by rewrite (pinned_hit host d a p e now later h Hp Hh (Hk eq_refl)). }
    unfold PickForHost. case_decide; [by destruct (Pick _ _ _)|].
    destruct (pickLocked _ _ _ _) as [[d'|] h']; (destruct (affinity p !! host'); [destruct (_ && _)|]); cbn; try done;
      by rewrite lookup_insert_ne.
  - destruct d0 as [d0|]; cbn; [|done]. case_decide; [done|]. cbn. by rewrite lookup_insert_ne.
  - unfold PickForUID. destruct (uid <? 0); [by destruct (Pick _ _ _)|].
    destruct (pickLocked _ _ _ _) as [[d'|] h']; (destruct (appAffinity p !! uid); [destruct (containsUnlocked _ _)|]); done.
  - by destruct d0.
  - unfold Evict. by destruct (existsb _ _).
  - cbn [manage sweepAffinityLocked affinity fst snd set_slots]. apply map_lookup_filter_Some. split; [done|]. cbn. lia.
Qed.

Lemma step_pinned o p h host d a :
  pinned host d a p -> host <> [] -> keeps a host d o -> pinned host d a (step o (p, h)).2.1.
Proof.
  intros Hp Hh Hk. split.
  - by apply step_standby, (pin_standby _ _ _ _ Hp).
  - unfold in_pool. rewrite step_slots. apply in_pool_after; [by destruct o|apply (pin_member _ _ _ _ Hp)].
  - by apply affinity_after.
Qed.

(** A pick for a host leaves it pinned. *)
Lemma pick_pins e now later host p h d : all_standby p -> host <> [] ->
  (step (OPickForHost e now later host) (p, h)).1 = Some d ->
  exists a, (a = later \/ now - a < hostAffinityTTL) /\ pinned host d a (step (OPickForHost e now later host) (p, h)).2.1.
Proof.
  intros Hs Hh. cbn [step]. unfold PickForHost. rewrite decide_False by done.
  pose proof (pickLocked_member e None p h) as Hm. destruct (pickLocked _ _ _ _) as [o h']. cbn [fst] in Hm.
  assert (forall d', o = Some d' -> pinned host d' later (setHostAffinityLocked later host d' p)) as Hf.
  { intros d' ->. split; [done| |apply lookup_insert_eq]. by eapply member_in_pool, Hm. }
  destruct (affinity p !! host) as [[d0 a]|] eqn:Ea.
  - cbn [ha_at ha_dialer]. destruct (_ && _) eqn:E; cbn.
    + intros [= <-]. apply andb_true_iff in E as [E1 E2]. exists a. split; [right; by apply Z.ltb_lt|].
      split; [done|by apply contains_in_pool|done].
    + intros ->. exists later. split; [by left|]. by apply Hf.
  - cbn. intros ->. exists later. split; [by left|]. by apply Hf.
Qed.

(** C14: Connections to a host stay on one control: once a pick for a host has returned a dialer,
    every pick for it less than 10 minutes after it was pinned returns the same dialer,
    through any sequence of other picks, pins, additions, upkeep and evictions, as long as
    that dialer itself is not evicted or swapped out and the host is not pinned elsewhere. *)
Theorem host_stays_on_dialer l0 ds h0 e0 now0 later0 host d :
  let x0 := steps l0 (NewDialerPool ds, h0) in
  let o0 := OPickForHost e0 now0 later0 host in
  (step o0 x0).1 = Some d -> host <> [] ->
  exists a, (a = later0 \/ now0 - a < hostAffinityTTL) /\ affinity (step o0 x0).2.1 !! host = Some (MkAffinity d a) /\
    forall l e now later, Forall (keeps a host d) l -> now - a < hostAffinityTTL ->
      (step (OPickForHost e now later host) (steps l (step o0 x0).2)).1 = Some d.
Proof.
  cbn zeta. pose proof (steps_standby l0 (NewDialerPool ds) h0 (new_standby ds)) as Hs.
  destruct (steps l0 (NewDialerPool ds, h0)) as [p0 h1]. cbn [fst] in Hs. intros Hd Hh.
  destruct (pick_pins e0 now0 later0 host p0 h1 d Hs Hh Hd) as (a & Ha & Hp). exists a. split; [done|]. split; [apply (pin_entry _ _ _ _ Hp)|].
  destruct (step (OPickForHost e0 now0 later0 host) (p0, h1)).2 as [p h]. cbn [fst] in Hp. clear -Hp Hh.
  intros l e now later Hl Hn. revert p h Hp. induction Hl as [|o l Ho Hl IH]; intros p h Hp; cbn [steps].
  - cbn [step]. by rewrite (pinned_hit host d a p e now later h Hp Hh Hn).
  - pose proof (step_pinned o p h host d a Hp Hh Ho) as Hp'. destruct (step o (p, h)).2 as [p' h']. by apply IH.
Qed.

(** ** Concrete runs *)

Definition toy_heap : heap := fun d => toy_dialer.
Definition toy_pick : pick_env := MkPickEnv (fun _ => 0) (fun _ => 0) (fconst 3 4).

Example toy_draw : (step (OPick toy_pick) (NewDialerPool [7; 8]%nat, toy_heap)).1 = Some 8%nat.
Proof. vm_compute. reflexivity. Qed.

Lemma picks_return_members_witness : in_pool 8 (NewDialerPool [7; 8]%nat).
Proof.
  destruct (picks_return_members [] [7; 8]%nat toy_heap (OPick toy_pick) 8) as [H _]; [vm_compute; reflexivity|exact H].
Defined.

Lemma host_stays_on_dialer_witness :
  let o := OPickForHost toy_pick 0 0 (bs "a.example") in
  (step (OPickForHost toy_pick (9 * minute) (9 * minute) (bs "a.example"))
     (steps [OEvict 7; OAdd 9; OManage minute] (step o (steps [] (NewDialerPool [7; 8]%nat, toy_heap))).2)).1 = Some 8%nat.
Proof.
  cbn zeta. destruct (host_stays_on_dialer [] [7; 8]%nat toy_heap toy_pick 0 0 (bs "a.example") 8) as (a & _ & Ha & H);
    [vm_compute; reflexivity|discriminate|].
  assert (a = 0) as ->.
  { assert (ha_at <$> affinity (step (OPickForHost toy_pick 0 0 (bs "a.example")) (steps [] (NewDialerPool [7; 8]%nat, toy_heap))).2.1 !! bs "a.example" = Some 0)
      as E by (vm_compute; reflexivity). rewrite Ha in E. by injection E as ->. }
  apply H; [|vm_compute; reflexivity]. repeat constructor; vm_compute; congruence.
Defined.

End Pool.
