(* ===== verification/ClientDial.v ===== *)
(** * snc/core: opening a connection (tunnel.go)

    [refreshToken] with its three give-up windows, [doPost] with its single retry after a new
    login, and [Dial] with the classification of every attempt. Logins, HTTP exchanges, nonces
    and the clock are inputs. *)

From stdpp Require Import base list gmap strings fin_maps.
From Stdlib Require Import ZArith Lia.
From S2P Require Import Prelude GoLib GoFloat Frames ClientSession ClientDialer.

Module Dial.
Import Dialer.

(** [strings.Contains]. *)
Fixpoint Contains (s sub : gostring) : bool :=
  Strings.HasPrefix s sub || match s with [] => false | _ :: s => Contains s sub end.
Definition quoted (s : string) : gostring := 34 :: bs s ++ [34].

Definition isAuthRejection (err : gostring) : bool :=
  Contains err (quoted "invalid credentials") || Contains err (quoted "key expired").
Definition isInvalidKeyRejection (err : gostring) : bool := Contains err (quoted "invalid key").
Definition isTransportFailure (err : gostring) : bool :=
  existsb (fun s => Contains err (bs s))
    ["frame too large"; "client connection force closed"; "client connection lost"; "broken pipe";
     "connection reset"; "unexpected EOF"; "peer did not negotiate h2"]%string.

(** ** Renewing the session *)

Definition authRejectWindow : Z := 3 * minute.
Definition invalidKeyWindow : Z := 10 * minute.
Definition serverErrorWindow : Z := 3 * hour.
Definition authFailThreshold : Z := 2.

(** One turn of the loop: the login, the clock after it, and the token found on waking. *)
Inductive login := LoginOk (token : gostring) | LoginErr (err : gostring).
Record turn := MkTurn { tu_login : login; tu_now : Z; tu_woken : gostring }.

Inductive hook := ReAuthWarning | ReAuthRecovered | AuthFail | FatalError.

Record re_state := MkRe { re_backoff : Z; re_deadline : option Z; re_warned : bool; re_transient : Z; re_fired : bool }.
Definition re_start : re_state := MkRe (5 * second) None false 0 false.

(** How it ends: with the token to use, because another goroutine renewed it, with an error,
    or in a panic (the log line slices eight bytes of the new token). *)
Inductive re_end := Renewed (token : gostring) | RenewedElsewhere (token : gostring) | Failed | Panicked.

Definition warn (s : re_state) : list hook := if re_warned s then [] else [ReAuthWarning].
Definition next_re (s : re_state) : Z := if re_backoff s <? 30 * second then 2 * re_backoff s else re_backoff s.

(** A failed login: either the loop ends, or it sleeps for the backoff and goes on. *)
Definition rejected (invalidKey : bool) (now : Z) (s : re_state) : list hook * option re_state :=
  let deadline := default (now + if invalidKey then invalidKeyWindow else authRejectWindow) (re_deadline s) in
  if deadline <? now then (warn s ++ [FatalError], None)
  else (warn s, Some (MkRe (next_re s) (Some deadline) true 0 (re_fired s))).
Definition transient (serverDeadline now : Z) (s : re_state) : list hook * option re_state :=
  let n := re_transient s + 1 in
  let fire := negb (re_fired s) && (authFailThreshold <=? n) in
  let hooks := if fire then [AuthFail] else [] in
  if serverDeadline <? now then (hooks ++ warn s ++ [FatalError], None)
  else (hooks, Some (MkRe (next_re s) (re_deadline s) (re_warned s) n (re_fired s || fire))).
Definition on_failure (err : gostring) (serverDeadline now : Z) (s : re_state) : list hook * option re_state :=
  if isAuthRejection err then rejected false now s
  else if isInvalidKeyRejection err then rejected true now s
  else transient serverDeadline now s.

(** [None]: the turns given have not been enough. *)
Fixpoint refresh_loop (l : list turn) (serverDeadline : Z) (badToken : gostring) (s : re_state)
    : option re_end * list hook :=
  match l with
  | [] => (None, [])
  | t :: l =>
      match tu_login t with
      | LoginOk token =>
          if (8 <=? length token)%nat then (Some (Renewed token), if re_warned s then [ReAuthRecovered] else [])
          else (Some Panicked, [])
      | LoginErr err =>
          let '(hooks, o) := on_failure err serverDeadline (tu_now t) s in
          match o with
          | None => (Some Failed, hooks)
          | Some s =>
              if decide (tu_woken t = badToken) then
                let '(r, more) := refresh_loop l serverDeadline badToken s in (r, hooks ++ more)
              else (Some (RenewedElsewhere (tu_woken t)), hooks)
          end
      end
  end.
Definition refreshToken (start : Z) (l : list turn) (current badToken : gostring) : option re_end * list hook :=
  if decide (current = badToken) then refresh_loop l (start + serverErrorWindow) badToken re_start
  else (Some (RenewedElsewhere current), []).

(** ** One POST *)

Section post.
Context {B : Blake2b} {A : Aead}.

(** What the transport does with one request: the hole-punched relay, if the dialer has one that
    works, or HTTP. [XErr]: no response, with the error's text; [XResp]: a status and a body
    ([None]: it breaks off), with the round-trip time. *)
Inductive exchange := XErr (err : gostring) | XResp (status : Z) (body : option bytes) (rtt : Z).
Record attempt := MkAttempt {
  at_nonce : res bytes;
  at_relay : option (res (Z * bytes));
  at_http : exchange;
  at_login : gostring -> option gostring }.    (** [refreshToken]: the token afterwards, or an error *)

Inductive post := PostOk (data : bytes) | PostHTTP (status : Z) | PostErr (err : gostring).

Definition shouldRetry (allowRetry retryOn404 : bool) (status : Z) : bool :=
  allowRetry && ((status =? 401) || ((status =? 404) && retryOn404)).

Definition parsed (key raw : bytes) : post :=
  match Client.parseResponse key raw with Ok d => PostOk d | Err e => PostErr (bs e) | Panic => PostErr [] end.

(** The requests sent, as token and sealed body, and whether [onTransportFail] was called. *)
Record sent := MkSent { se_reqs : list (gostring * bytes); se_transportFail : bool }.

(** What came back: nothing ([tf]: the transport is broken), or a status and a body; only HTTP
    responses carry a round-trip time. *)
Inductive reply := NoReply (err : gostring) (tf : bool) | Reply (status : Z) (body : option bytes) (rtt : option Z).
Definition reply_of (a : attempt) : reply :=
  match at_relay a with
  | Some (Ok (status, raw)) => Reply status (Some raw) None
  | Some _ => NoReply (bs "udp-relay") false
  | None =>
      match at_http a with
      | XErr err => NoReply err (isTransportFailure err)
      | XResp status body rtt => Reply status body (Some rtt)
      end
  end.

(** [retry] is the second attempt. *)
Definition post_once (a : attempt) (allowRetry retryOn404 : bool) (plaintext : bytes) (td : TunnelDialer)
    (retry : TunnelDialer -> post * TunnelDialer * sent) : post * TunnelDialer * sent :=
  let token := td_token td in
  let key := Client.sessionKey token in
  match Client.sealFrame (at_nonce a) key plaintext with
  | Ok body =>
      let req := (token, body) in
      match reply_of a with
      | NoReply err tf => (PostErr err, td, MkSent [req] tf)
      | Reply status raw rtt =>
          if shouldRetry allowRetry retryOn404 status then
            match at_login a token with
            | None => (PostErr (bs "re-auth"), td, MkSent [req] false)
            | Some token' =>
                let '(r, td', s) := retry (set_token token' td) in (r, td', MkSent (req :: se_reqs s) (se_transportFail s))
            end
          else if negb (status =? 200) then (PostHTTP status, td, MkSent [req] false)
          else match raw with
          | None => (PostErr (bs "read"), td, MkSent [req] false)
          | Some raw => (parsed key raw, match rtt with Some d => (recordTrafficRTT d td).1 | None => td end, MkSent [req] false)
          end
      end
  | _ => (PostErr (bs "seal"), td, MkSent [] false)
  end.

Definition doPost (a1 a2 : attempt) (retryOn404 : bool) (plaintext : bytes) (td : TunnelDialer) : post * TunnelDialer * sent :=
  post_once a1 true retryOn404 plaintext td (fun td => post_once a2 false retryOn404 plaintext td (fun td => (PostErr [], td, MkSent [] false))).

End post.

(** ** Dialling *)

Definition dialProbeTimeout : Z := 8 * second.

(** Each attempt's outcome enters the window; 404 is neutral. *)
Definition classifyDialErr (t now : Z) (r : post) (td : TunnelDialer) : TunnelDialer * fired :=
  match r with
  | PostOk _ => recordDialOutcome t now true td
  | PostHTTP status => if negb (status =? 404) then recordDialOutcome t now true td else (td, MkFired false false false)
  | PostErr _ => recordDialOutcome t now false td
  end.

(** The probes of a dial: each result with the clock at its classification. *)
Record probe := MkProbe { pr_result : post; pr_t : Z; pr_now : Z }.

Fixpoint dial_loop (tries : nat) (l : list probe) (td : TunnelDialer) : option (post * TunnelDialer * nat * list fired) :=
  match tries, l with
  | S tries, x :: l =>
      let '(td, f) := classifyDialErr (pr_t x) (pr_now x) (pr_result x) td in
      match pr_result x with
      | PostErr e =>
          match tries with
          | O => Some (PostErr e, td, 1%nat, [f])
          | S _ =>
              match dial_loop tries l td with
              | Some (r, td, n, fs) => Some (r, td, S n, f :: fs)
              | None => None
              end
          end
      | r => Some (r, td, 1%nat, [f])
      end
  | _, _ => None
  end.

(** [Dial]: at most three probes; the connection it returns, or the error. *)
Definition Dial (streaming : bool) (l : list probe) (td : TunnelDialer) : option (res Conn.TunnelConn * TunnelDialer * list fired) :=
  match dial_loop 3 l td with
  | Some (PostOk resp, td, _, fs) =>
      Some (Ok (Conn.set_seq 1 (Conn.set_readBuf resp
              (Conn.newTunnelConn streaming (if streaming then Conn.tunnelPipelineWidth else 0)))),
            set_active (int32 (td_active td + 1)) td, fs)
  | Some (_, td, _, fs) => Some (Err "dial", td, fs)
  | None => None
  end.

(** [onClose] of the connection. *)
Definition conn_closed (td : TunnelDialer) : TunnelDialer := set_active (int32 (td_active td - 1)) td.

(** ** Renewing the session ends *)

(** Every login fails, no other goroutine renews the token, and turns are at least five seconds
    apart, the shortest backoff. *)
Fixpoint failing_from (t0 : Z) (badToken : gostring) (l : list turn) : Prop :=
  match l with
  | [] => True
  | t :: l => t0 <= tu_now t /\ tu_woken t = badToken /\ (exists err, tu_login t = LoginErr err) /\
              failing_from (tu_now t + 5 * second) badToken l
  end.

(** A failed turn: what can make the loop go on. *)
Lemma on_failure_cases err sd now s hooks s' :
  on_failure err sd now s = (hooks, Some s') ->
  (re_deadline s' = re_deadline s /\ now <= sd \/
   exists d, re_deadline s' = Some d /\ now <= d /\ d = default (now + invalidKeyWindow) (re_deadline s)) \/
  (exists d, re_deadline s' = Some d /\ now <= d /\ d = default (now + authRejectWindow) (re_deadline s)).
Proof.
  unfold on_failure, rejected, transient. destruct (isAuthRejection err); [|destruct (isInvalidKeyRejection err)].
  - destruct (Z.ltb_spec (default (now + authRejectWindow) (re_deadline s)) now); [done|]. intros [= _ <-]. right. by eexists.
  - destruct (Z.ltb_spec (default (now + invalidKeyWindow) (re_deadline s)) now); [done|]. intros [= _ <-]. left. right. by eexists.
  - destruct (Z.ltb_spec sd now); [done|]. intros [= _ <-]. left. by left.
Qed.

(** Once a deadline for rejections is set. *)
Lemma refresh_ends_set l sd bad t0 s d :
  re_deadline s = Some d -> failing_from t0 bad l -> (Z.max sd d - t0) / (5 * second) + 1 < lenZ l -> t0 <= Z.max sd d + 5 * second ->
  (refresh_loop l sd bad s).1 = Some Failed.
Proof.
  revert t0 s. induction l as [|t l IH]; intros t0 s Hd Hf Hl Hlo.
  { exfalso. assert (-1 <= (Z.max sd d - t0) / (5 * second)); [|cbn in Hl; lia]. apply Z.div_le_lower_bound; unfold second in *; lia. }
  cbn [failing_from] in Hf. destruct Hf as (Ht & Hw & (err & Herr) & Hf). cbn [refresh_loop length] in *. rewrite Herr.
  destruct (on_failure err sd (tu_now t) s) as [hooks [s'|]] eqn:E; [|done].
  assert (re_deadline s' = Some d /\ tu_now t <= Z.max sd d) as [Hd' Hle].
  { apply on_failure_cases in E. rewrite Hd in E. cbn in E. destruct E as [[[-> ?]|(d' & -> & ? & ->)]|(d' & -> & ? & ->)]; (split; [done|lia]). }
  rewrite decide_True by done.
  assert ((Z.max sd d - (tu_now t + 5 * second)) / (5 * second) + 1 < lenZ l) as Hl'.
  { replace (Z.max sd d - (tu_now t + 5 * second)) with (Z.max sd d - tu_now t + (-1) * (5 * second)) by lia.
    rewrite Z.div_add by (unfold second; lia).
    assert ((Z.max sd d - tu_now t) / (5 * second) <= (Z.max sd d - t0) / (5 * second)) by (apply Z.div_le_mono; unfold second; lia). lia. }
  specialize (IH (tu_now t + 5 * second) s' Hd' Hf Hl' ltac:(lia)). destruct (refresh_loop l sd bad s') as [r more]. exact IH.
Qed.

Definition turns_bound (sd t0 : Z) : Z := (Z.max (sd - t0 + 5 * second) 0 + invalidKeyWindow) / (5 * second) + 2.

Lemma refresh_ends_unset l sd bad t0 s :
  re_deadline s = None -> failing_from t0 bad l -> turns_bound sd t0 < lenZ l -> (refresh_loop l sd bad s).1 = Some Failed.
Proof.
  unfold turns_bound. revert t0 s. induction l as [|t l IH]; intros t0 s Hd Hf Hl.
  { exfalso. assert (0 <= (Z.max (sd - t0 + 5 * second) 0 + invalidKeyWindow) / (5 * second)); [|cbn in Hl; lia].
    apply Z.div_pos; unfold invalidKeyWindow, minute, second; lia. }
  cbn [failing_from] in Hf. destruct Hf as (Ht & Hw & (err & Herr) & Hf). cbn [refresh_loop length] in *. rewrite Herr.
  destruct (on_failure err sd (tu_now t) s) as [hooks [s'|]] eqn:E; [|done]. rewrite decide_True by done.
  apply on_failure_cases in E. rewrite Hd in E. cbn [default] in E.
  destruct (refresh_loop l sd bad s') as [r more] eqn:Er. cbn [fst]. change r with (r, more).1. rewrite <- Er.
  assert (forall w, 0 <= w <= invalidKeyWindow -> re_deadline s' = Some (tu_now t + w) -> (refresh_loop l sd bad s').1 = Some Failed) as Hset.
  { intros w Hwi Hs. eapply (refresh_ends_set l sd bad (tu_now t + 5 * second) s' _ Hs Hf).
    - assert ((Z.max sd (tu_now t + w) - (tu_now t + 5 * second)) / (5 * second) <=
        (Z.max (sd - t0 + 5 * second) 0 + invalidKeyWindow) / (5 * second)) as H; [|lia].
      apply Z.div_le_mono; unfold invalidKeyWindow, minute, second in *; lia.
    - lia. }
  destruct E as [[[Hs' Hle]|(d & Hs & _ & ->)]|(d & Hs & _ & ->)].
  - apply (IH (tu_now t + 5 * second)); [done|done|].
    assert ((Z.max (sd - (tu_now t + 5 * second) + 5 * second) 0 + invalidKeyWindow) / (5 * second) <=
        (Z.max (sd - t0 + 5 * second) 0 + invalidKeyWindow + (-1) * (5 * second)) / (5 * second)) as H.
    { apply Z.div_le_mono; unfold invalidKeyWindow, minute, second in *; lia. }
    rewrite Z.div_add in H by (unfold second; lia). lia.
  - apply (Hset invalidKeyWindow); [unfold invalidKeyWindow, minute, second; lia|done].
  - apply (Hset authRejectWindow); [unfold authRejectWindow, invalidKeyWindow, minute, second; lia|done].
Qed.

(** C27: Renewing a session always ends: if every login fails, whatever the mixture of outages,
    rejected credentials and rejected keys, [refreshToken] gives up with an error after at
    most 2284 logins, its windows being 3 hours, 10 minutes and 3 minutes and its shortest
    pause 5 seconds. *)
Theorem refreshToken_terminates start l token :
  failing_from start token l -> 2284 <= lenZ l -> (refreshToken start l token token).1 = Some Failed.
Proof.
  intros Hf Hl. unfold refreshToken. rewrite decide_True by done.
  apply (refresh_ends_unset l (start + serverErrorWindow) token start re_start eq_refl Hf).
  unfold turns_bound. replace (start + serverErrorWindow - start + 5 * second) with (serverErrorWindow + 5 * second) by lia.
  eapply Z.lt_le_trans; [|exact Hl]. vm_compute. reflexivity.
Qed.

(** A login that fails for no definite reason. *)
Definition outage (until : Z) (token : gostring) (t : turn) : Prop :=
  tu_now t <= until /\ tu_woken t = token /\
  exists err, tu_login t = LoginErr err /\ isAuthRejection err = false /\ isInvalidKeyRejection err = false.

(** An outage of the arbiter shorter than three hours is never fatal: while logins fail for
    no definite reason and three hours have not passed, [refreshToken] neither gives up nor
    warns; it asks for another control exactly once, at the second failure; and the first
    login that succeeds, with a token of at least eight bytes, ends it. *)
Theorem outage_is_survived start l token new now woken :
  Forall (outage (start + serverErrorWindow) token) l -> (8 <= length new)%nat ->
  refreshToken start (l ++ [MkTurn (LoginOk new) now woken]) token token =
    (Some (Renewed new), if (2 <=? length l)%nat then [AuthFail] else []).
Proof.
  intros Hf Hn. unfold refreshToken. rewrite decide_True by done.
  assert (forall s, re_warned s = false -> 0 <= re_transient s -> re_fired s = (authFailThreshold <=? re_transient s) ->
    refresh_loop (l ++ [MkTurn (LoginOk new) now woken]) (start + serverErrorWindow) token s =
    (Some (Renewed new), if negb (re_fired s) && (authFailThreshold <=? re_transient s + lenZ l) then [AuthFail] else [])) as H.
  { clear -Hf Hn. induction Hf as [|t l (Hnow & Hw & err & Herr & Hr & Hk) Hf IH]; intros s Hwarn Hpos Hfired.
    - cbn [app refresh_loop tu_login length Z.of_nat]. rewrite Hwarn, (proj2 (Nat.leb_le 8 _) Hn). rewrite Hfired, Z.add_0_r. by destruct (_ <=? _).
    - cbn [app refresh_loop]. rewrite Herr. unfold on_failure, transient. rewrite Hr, Hk.
      destruct (Z.ltb_spec (start + serverErrorWindow) (tu_now t)); [lia|]. rewrite decide_True by done.
      set (s1 := MkRe _ _ _ _ _).
      assert (re_transient s1 = re_transient s + 1 /\ re_warned s1 = false /\ re_fired s1 = (authFailThreshold <=? re_transient s + 1)) as (E1 & E2 & E3).
      { split_and!; [done|done|]. unfold s1. cbn [re_fired]. rewrite Hfired. unfold authFailThreshold.
        destruct (Z.leb_spec 2 (re_transient s)), (Z.leb_spec 2 (re_transient s + 1)); try done; lia. }
      rewrite (IH s1); [|done|lia|by rewrite E3, E1]. rewrite E3, E1, Hfired. unfold authFailThreshold. cbn [length].
      destruct (Z.leb_spec 2 (re_transient s)), (Z.leb_spec 2 (re_transient s + 1)), (Z.leb_spec 2 (re_transient s + 1 + lenZ l)),
        (Z.leb_spec 2 (re_transient s + Z.of_nat (S (length l)))); try done; lia. }
  rewrite (H re_start) by done. cbn [re_start re_fired negb andb re_transient]. f_equal. unfold authFailThreshold.
  destruct (Z.leb_spec 2 (0 + lenZ l)), (Nat.leb_spec 2 (length l)); try done; lia.
Qed.

(** ** What a POST sends *)

Section post_props.
Context {B : Blake2b} {A : Aead}.

Definition nonce_ok (a : attempt) : Prop := forall n, at_nonce a = Ok n -> lenZ n = 12.
Definition sealed_for (plaintext : bytes) (req : gostring * bytes) : Prop :=
  Client.openFrame (Client.sessionKey req.1) req.2 = Ok plaintext.

Lemma seal_opens a token plaintext body :
  nonce_ok a -> Client.sealFrame (at_nonce a) (Client.sessionKey token) plaintext = Ok body -> sealed_for plaintext (token, body).
Proof.
  intros Hn. unfold Client.sealFrame. destruct (negb _); [done|]. destruct (at_nonce a) as [n|e|] eqn:E; [|done..]. cbn.
  intros [= <-]. apply open_seal; [apply blake2b_length|by apply Hn].
Qed.

(** A request that is not repeated. *)
Lemma post_single a ar r4 plaintext td retry :
  nonce_ok a -> (forall status raw rtt, reply_of a = Reply status raw rtt -> shouldRetry ar r4 status = false) ->
  let s := (post_once a ar r4 plaintext td retry).2 in
  se_reqs s = [] \/ exists body, se_reqs s = [(td_token td, body)] /\ sealed_for plaintext (td_token td, body).
Proof.
  intros Hn Hr. cbn zeta. unfold post_once.
  destruct (Client.sealFrame _ _ _) as [body|e|] eqn:Es; [|by left..]. right. exists body. split; [|by apply (seal_opens a)].
  destruct (reply_of a) as [err tf|status raw rtt] eqn:Ea; [done|]. rewrite (Hr status raw rtt eq_refl).
  destruct (negb _); [done|]. by destruct raw.
Qed.

(** A POST is sent at most twice, and its body and session header never disagree: every
    request is sealed under the key of the very token it carries; the second one is sent only
    after the first was answered 401, or 404 where that means an unknown session, and carries
    the token the new login produced. *)
Theorem post_token_matches_key a1 a2 r4 plaintext td :
  nonce_ok a1 -> nonce_ok a2 ->
  let reqs := se_reqs (doPost a1 a2 r4 plaintext td).2 in
  Forall (sealed_for plaintext) reqs /\ (length reqs <= 2)%nat /\
  (forall q1 q2, reqs = [q1; q2] ->
     q1.1 = td_token td /\ at_login a1 (td_token td) = Some q2.1 /\
     exists status raw rtt, reply_of a1 = Reply status raw rtt /\ (status = 401 \/ status = 404 /\ r4 = true)).
Proof.
  intros H1 H2. cbn zeta. unfold doPost. set (second := fun td => post_once a2 false _ _ _ _).
  assert (forall td, se_reqs (second td).2 = [] \/ exists body, se_reqs (second td).2 = [(td_token td, body)] /\ sealed_for plaintext (td_token td, body)) as Hsec.
  { intros td'. by apply post_single. }
  clearbody second. unfold post_once. destruct (Client.sealFrame _ _ _) as [body|e|] eqn:Es; [|cbn; split_and!; [apply Forall_nil_2|lia|done]..].
  pose proof (seal_opens a1 (td_token td) plaintext body H1 Es) as Hb.
  assert (forall x y tf, let reqs := se_reqs (x : post, y : TunnelDialer, MkSent [(td_token td, body)] tf).2 in
    Forall (sealed_for plaintext) reqs /\ (length reqs <= 2)%nat /\
    (forall q1 q2, reqs = [q1; q2] -> q1.1 = td_token td /\ at_login a1 (td_token td) = Some q2.1 /\
     exists status raw rtt, reply_of a1 = Reply status raw rtt /\ (status = 401 \/ status = 404 /\ r4 = true))) as Hone.
  { intros x y tf. cbn. split_and!; [by repeat constructor|lia|done]. }
  destruct (reply_of a1) as [err tf|status raw rtt] eqn:Ea; [apply Hone|].
  destruct (shouldRetry true r4 status) eqn:Er; [|destruct (negb _); [apply Hone|]; by destruct raw; [apply Hone..]].
  destruct (at_login a1 (td_token td)) as [token'|]; [|apply Hone].
  specialize (Hsec (set_token token' td)). destruct (second _) as [[r td'] s]. cbn [snd se_reqs] in *.
  destruct Hsec as [->|(body2 & -> & Hb2)]; (split_and!; [by repeat constructor|cbn; lia|]); intros q1 q2 [= <- <-].
  split_and!; [done|done|]. exists status, raw, rtt. split; [done|]. unfold shouldRetry in Er. cbn in Er.
  apply orb_true_iff in Er as [Er|Er]; [left; by apply Z.eqb_eq|right]. apply andb_true_iff in Er as [? ?]. split; [by apply Z.eqb_eq|done].
Qed.

End post_props.

(** ** What a dial tries *)

Definition classify (td : TunnelDialer) (x : probe) : TunnelDialer := (classifyDialErr (pr_t x) (pr_now x) (pr_result x) td).1.
Definition transport_error (r : post) : Prop := exists e, r = PostErr e.

Lemma dial_loop_spec tries l td :
  (0 < tries <= length l)%nat ->
  exists r n fs, dial_loop tries l td = Some (r, foldl classify td (take n l), n, fs) /\
    (1 <= n <= tries)%nat /\ pr_result <$> l !! pred n = Some r /\
    Forall (fun x => transport_error (pr_result x)) (take (pred n) l) /\ ((n < tries)%nat -> ~ transport_error r).
Proof.
  revert l td. induction tries as [|tries IH]; intros [|x l] td Hl; cbn [length] in Hl; try lia. cbn [dial_loop].
  destruct (classifyDialErr _ _ _ _) as [td1 f] eqn:Ec.
  assert (classify td x = td1) as Et by (unfold classify; by rewrite Ec).
  destruct (pr_result x) as [d|status|e] eqn:Ex.
  1,2: (eexists _, 1%nat, [f]; split; [cbn; rewrite Et; reflexivity|]; split_and!; [lia|lia|cbn; by rewrite Ex|constructor|intros _ [? ?]; done]).
  destruct tries as [|tries].
  { eexists _, 1%nat, [f]. split; [cbn; rewrite Et; reflexivity|]. split_and!; [lia|lia|cbn; by rewrite Ex|constructor|lia]. }
  destruct (IH l td1 ltac:(lia)) as (r & n & fs & -> & Hn & Hr & Hf & Hne). exists r, (S n), (f :: fs). split_and!.
  - cbn [take foldl]. by rewrite Et.
  - lia.
  - lia.
  - destruct n as [|n]; [lia|]. done.
  - destruct n as [|n]; [lia|]. cbn [pred take]. constructor; [by exists e|done].
  - intros Hlt. apply Hne. lia.
Qed.

(** A dial sends at most three probes and repeats one only after a transport error: it stops
    at the first answer, success or HTTP error, which is its result, and otherwise fails with
    the third error; every probe, repeated or not, enters the dialer's outcome window by
    itself, with transport errors as failures, HTTP errors as successes and 404 not at all. *)
Theorem dial_probes l td : (3 <= length l)%nat ->
  exists r n fs, dial_loop 3 l td = Some (r, foldl classify td (take n l), n, fs) /\
    (1 <= n <= 3)%nat /\ pr_result <$> l !! pred n = Some r /\
    Forall (fun x => transport_error (pr_result x)) (take (pred n) l) /\ ((n < 3)%nat -> ~ transport_error r) /\
    (forall x td0, td_window (classify td0 x) =
       match pr_result x with
       | PostHTTP 404 => td_window td0
       | PostErr _ => trim (pr_now x - dialWinSize) (td_window td0) ++ [MkOutcome (pr_now x) false]
       | _ => trim (pr_now x - dialWinSize) (td_window td0) ++ [MkOutcome (pr_now x) true]
       end).
Proof.
  intros Hl. destruct (dial_loop_spec 3 l td ltac:(lia)) as (r & n & fs & E & Hn & Hr & Hf & Hne).
  exists r, n, fs. split_and!; [done|lia|lia|done|done|done|]. intros x td0. unfold classify, classifyDialErr.
  destruct (pr_result x) as [d|status|e]; [apply window_after| |apply window_after].
  destruct (Z.eqb_spec status 404) as [->|Hs]; [done|]. cbn [negb]. rewrite window_after.
  destruct status as [|p|p]; try done. repeat (destruct p as [p|p|]; try done).
Qed.

(** ** Concrete runs *)

Fixpoint toy_turns (n : nat) (t : Z) : list turn :=
  match n with O => [] | S n => MkTurn (LoginErr (bs "timeout")) t (bs "token-01") :: toy_turns n (t + 5 * second) end.

Lemma toy_turns_fail n t : failing_from t (bs "token-01") (toy_turns n t).
Proof.
  revert t. induction n as [|n IH]; intros t; [done|]. cbn [toy_turns failing_from tu_now tu_woken tu_login].
  split_and!; [lia|done|by eexists|apply IH].
Qed.

Lemma length_toy_turns n t : length (toy_turns n t) = n.
Proof. revert t. induction n as [|n IH]; intros t; [done|]. cbn. by rewrite IH. Qed.

Lemma refreshToken_terminates_witness :
  (refreshToken 0 (toy_turns 2284 0) (bs "token-01") (bs "token-01")).1 = Some Failed.
Proof.
  apply refreshToken_terminates; [apply toy_turns_fail|]. rewrite length_toy_turns. vm_compute. congruence.
Defined.

Lemma outage_is_survived_witness :
  refreshToken 0 (toy_turns 3 0 ++ [MkTurn (LoginOk (bs "token-02")) minute []]) (bs "token-01") (bs "token-01") =
  (Some (Renewed (bs "token-02")), [AuthFail]).
Proof.
  apply (outage_is_survived 0 (toy_turns 3 0) (bs "token-01") (bs "token-02")); [|vm_compute; lia].
  repeat constructor; try (vm_compute; congruence); by exists (bs "timeout").
Defined.

Definition toy_attempt (status : Z) : attempt :=
  MkAttempt (Ok (replicate 12 1)) None (XResp status (Some []) second) (fun _ => Some (bs "token-02")).
Lemma post_token_matches_key_witness :
  length (se_reqs (doPost (toy_attempt 401) (toy_attempt 200) true [1; 2] toy_dialer).2) = 2%nat /\
  Forall (sealed_for [1; 2]) (se_reqs (doPost (toy_attempt 401) (toy_attempt 200) true [1; 2] toy_dialer).2).
Proof.
  split; [vm_compute; reflexivity|].
  apply post_token_matches_key; intros n [= <-]; reflexivity.
Defined.

Definition toy_probes : list probe := [MkProbe (PostErr (bs "EOF")) 0 0; MkProbe (PostHTTP 404) 0 0; MkProbe (PostOk []) 0 0].
Lemma dial_probes_witness :
  match dial_loop 3 toy_probes toy_dialer with Some (r, _, n, _) => r = PostHTTP 404 /\ n = 2%nat | None => False end.
Proof.
  destruct (dial_probes toy_probes toy_dialer) as (r & n & fs & E & Hn & Hr & Hf & Hne & _); [vm_compute; lia|].
  assert (n = 2%nat) as ->.
  { transitivity (match dial_loop 3 toy_probes toy_dialer with Some (_, _, n, _) => n | None => 0%nat end); [by rewrite E|vm_compute; reflexivity]. }
  rewrite E. cbn in Hr. injection Hr as <-. done.
Defined.

End Dial.
