(* ===== verification/ClientCidr.v ===== *)
(** * snc/core: sets of networks (cidr.go)

    The set of home-country networks with its binary search over sorted starts, and the
    proof that on networks that do not overlap it answers as a scan of the list does. *)

From stdpp Require Import base list gmap strings fin_maps sorting.
From Stdlib Require Import ZArith Lia.
From S2P Require Import Prelude GoLib.

Module Cidr.
Import Rand.

(** Networks as pairs of start and mask: 32-bit numbers for IPv4, 16 bytes for IPv6, sorted by
    start. *)
Record CIDRSet := MkSet { set4 : list (Z * Z); set6 : list (bytes * bytes) }.

(** [sort.Slice] is not stable: entries with equal starts come in any order, for which
    [rnd] stands. *)
Definition start_le {A} (le : A -> A -> bool) (x y : A * A) : Prop := le x.1 y.1 = true.
#[export] Instance start_le_dec {A} (le : A -> A -> bool) : RelDecision (start_le le).
Proof. intros x y. unfold start_le. apply _. Defined.
Definition sort_entries {A} (le : A -> A -> bool) (rnd : nat -> nat) (l : list (A * A)) : list (A * A) :=
  merge_sort (start_le le) (rand_Shuffle rnd l).

Definition entry4 (n : Net.IPNet) : option (Z * Z) :=
  match Net.to4 (Net.net_ip n) with
  | Some ip4 => if (length (Net.net_mask n) =? 4)%nat then Some (be_get ip4, be_get (Net.net_mask n)) else None
  | None => None
  end.
Definition entry6 (n : Net.IPNet) : option (bytes * bytes) :=
  match entry4 n with
  | Some _ => None
  | None => if ((length (Net.net_ip n) =? 16) && (length (Net.net_mask n) =? 16))%nat then Some (Net.net_ip n, Net.net_mask n) else None
  end.
Definition ParseCIDRs (rnd4 rnd6 : nat -> nat) (cidrs : list gostring) : CIDRSet :=
  let nets := omap Net.ParseCIDR cidrs in
  MkSet (sort_entries Z.leb rnd4 (omap entry4 nets)) (sort_entries Strings.le rnd6 (omap entry6 nets)).

(** The binary search for the last start not above the address; [lo] and [hi] are the code's,
    and the result is [idx], or [None] for -1. *)
Fixpoint search {A} (le : A -> A -> bool) (fuel : nat) (l : list (A * A)) (addr : A) (lo hi : Z) (idx : option nat) : option nat :=
  match fuel with
  | O => idx
  | S fuel =>
      if lo <=? hi then
        let mid := (lo + hi) / 2 in
        match l !! Z.to_nat mid with
        | Some (start, _) =>
            if le start addr then search le fuel l addr (mid + 1) hi (Some (Z.to_nat mid))
            else search le fuel l addr lo (mid - 1) idx
        | None => idx
        end
      else idx
  end.
Definition find_start {A} (le : A -> A -> bool) (l : list (A * A)) (addr : A) : option (A * A) :=
  search le (S (length l)) l addr 0 (lenZ l - 1) None ≫= fun i => l !! i.

Definition inside4 (addr : Z) (e : Z * Z) : bool := Z.land addr e.2 =? e.1.
Definition inside6 (addr : bytes) (e : bytes * bytes) : bool := bool_decide (zip_with Z.land addr e.2 = e.1).

Definition contains4 (s : CIDRSet) (ip4 : bytes) : bool :=
  match find_start Z.leb (set4 s) (be_get ip4) with Some e => inside4 (be_get ip4) e | None => false end.
Definition contains6 (s : CIDRSet) (ip : bytes) : bool :=
  match find_start Strings.le (set6 s) ip with Some e => inside6 ip e | None => false end.
Definition Contains (s : CIDRSet) (ip : bytes) : bool :=
  match Net.to4 ip with
  | Some ip4 => contains4 s ip4
  | None => if (length ip =? 16)%nat then contains6 s ip else false
  end.
Definition Len (s : CIDRSet) : Z := lenZ (set4 s) + lenZ (set6 s).

(** *** The search is right on sorted entries *)

Section search.
Context {A : Type} (le : A -> A -> bool).
Hypothesis le_tr : forall x y z, le x y = true -> le y z = true -> le x z = true.

Definition sorted (l : list (A * A)) : Prop :=
  forall i j x y, (i <= j)%nat -> l !! i = Some x -> l !! j = Some y -> le x.1 y.1 = true.

(** Entries below [lo] start at or before the address and entries above [hi] after it. *)
Record bracket (l : list (A * A)) (addr : A) (lo hi : Z) (idx : option nat) : Prop := {
  br_lo : 0 <= lo;
  br_hi : hi < lenZ l;
  br_gap : lo <= hi + 1;
  br_below : forall i x, Z.of_nat i < lo -> l !! i = Some x -> le x.1 addr = true;
  br_above : forall i x, hi < Z.of_nat i -> l !! i = Some x -> le x.1 addr = false;
  br_idx : match idx with Some i => Z.of_nat i = lo - 1 | None => lo = 0 end }.

Lemma search_bracket fuel l addr lo hi idx :
  sorted l -> bracket l addr lo hi idx -> hi - lo + 1 < Z.of_nat fuel ->
  exists lo', bracket l addr lo' (lo' - 1) (search le fuel l addr lo hi idx).
Proof.
  intros Hs. revert lo hi idx. induction fuel as [|fuel IH]; intros lo hi idx Hb Hf; [destruct Hb; lia|]. cbn [search].
  destruct (Z.leb_spec lo hi) as [Hle|Hgt].
  2: { exists lo. replace (lo - 1) with hi; [done|]. destruct Hb. lia. }
  pose proof Hb as [H1 H2 H3 H4 H5 H6].
  assert (lo <= (lo + hi) / 2 <= hi) as Hmid by (split; [apply Z.div_le_lower_bound|apply Z.div_le_upper_bound]; lia).
  set (mid := (lo + hi) / 2) in *. destruct (lookup_lt_is_Some_2 l (Z.to_nat mid)) as [[start m] Hm]; [lia|]. rewrite Hm.
  destruct (le start addr) eqn:E.
  - apply IH; [|lia]. split; [lia|done|lia| |done|lia].
    intros i x Hi Hx. apply le_tr with start; [|done]. apply (Hs i (Z.to_nat mid) x (start, m)); [lia|done|done].
  - apply IH; [|lia]. split; [lia|lia|lia|done| |done].
    intros i x Hi Hx. destruct (le x.1 addr) eqn:Ex; [|done]. rewrite <- E. symmetry. apply le_tr with x.1; [|done].
    apply (Hs (Z.to_nat mid) i (start, m) x); [lia|done|done].
Qed.

(** The entry found is the last that starts at or before the address. *)
Lemma find_start_spec l addr : sorted l ->
  match find_start le l addr with
  | Some e => exists i, l !! i = Some e /\ le e.1 addr = true /\ forall j x, (i < j)%nat -> l !! j = Some x -> le x.1 addr = false
  | None => forall j x, l !! j = Some x -> le x.1 addr = false
  end.
Proof.
  intros Hs. unfold find_start.
  destruct (search_bracket (S (length l)) l addr 0 (lenZ l - 1) None Hs) as [lo' Hb].
  { split; [lia|lia|lia|lia| |done]. intros i x Hi Hx. apply lookup_lt_Some in Hx. lia. }
  { lia. }
  destruct Hb as [H1 H2 H3 H4 H5 H6]. destruct (search _ _ _ _ _ _ _) as [i|]; cbn.
  - destruct (lookup_lt_is_Some_2 l i) as [e He]; [lia|]. rewrite He. exists i. split; [done|]. split; [by apply (H4 i); [lia|]|].
    intros j x Hj. apply H5. lia.
  - intros j x. apply H5. lia.
Qed.

(** Networks as the search needs them: convex from their start, and disjoint. *)
Variable inside : A -> A * A -> bool.
Variable addr_ok : A -> Prop.
Variable net_ok : A * A -> Prop.
Hypothesis net_start : forall e, net_ok e -> addr_ok e.1 /\ inside e.1 e = true.
Hypothesis inside_start : forall e a, net_ok e -> addr_ok a -> inside a e = true -> le e.1 a = true.
Hypothesis inside_convex : forall e a x, net_ok e -> addr_ok a -> addr_ok x ->
  inside a e = true -> le e.1 x = true -> le x a = true -> inside x e = true.

Definition disjoint (l : list (A * A)) : Prop :=
  forall a, addr_ok a -> (length (List.filter (inside a) l) <= 1)%nat.

Lemma disjoint_index l i j x y a :
  disjoint l -> addr_ok a -> l !! i = Some x -> l !! j = Some y -> inside a x = true -> inside a y = true -> x = y.
Proof.
  intros Hd Ha Hx Hy Ix Iy. specialize (Hd a Ha). apply list_elem_of_lookup_2 in Hx, Hy.
  assert (x ∈ List.filter (inside a) l) as Fx by (apply list_elem_of_In, filter_In; split; [by apply list_elem_of_In|done]).
  assert (y ∈ List.filter (inside a) l) as Fy by (apply list_elem_of_In, filter_In; split; [by apply list_elem_of_In|done]).
  destruct (List.filter (inside a) l) as [|z [|]]; [by apply not_elem_of_nil in Fx| |cbn in Hd; lia].
  apply list_elem_of_singleton in Fx, Fy. congruence.
Qed.

Lemma search_equiv l addr :
  sorted l -> Forall net_ok l -> disjoint l -> addr_ok addr ->
  match find_start le l addr with Some e => inside addr e | None => false end = existsb (inside addr) l.
Proof.
  intros Hs Hn Hd Ha. rewrite Forall_forall in Hn. pose proof (find_start_spec l addr Hs) as Hf.
  destruct (existsb (inside addr) l) eqn:Ex.
  - apply existsb_exists in Ex as (x & Hx & Hin). apply list_elem_of_In in Hx. pose proof (Hn x Hx) as Hnx.
    apply list_elem_of_lookup in Hx as [j Hj]. pose proof (inside_start x addr Hnx Ha Hin) as Hle.
    destruct (find_start le l addr) as [e|]; [|by rewrite (Hf j x Hj) in Hle].
    destruct Hf as (i & Hi & Hei & Hlast).
    destruct (decide (i < j)%nat) as [Hlt|Hge]; [by rewrite (Hlast j x Hlt Hj) in Hle|].
    assert (e ∈ l) as He by (by eapply list_elem_of_lookup_2). destruct (net_start e (Hn e He)) as [Hok Hse].
    assert (inside e.1 x = true) as Hex.
    { apply (inside_convex x addr e.1 Hnx Ha Hok Hin); [|done]. apply (Hs j i x e); [lia|done|done]. }
    by rewrite (disjoint_index l i j e x e.1 Hd Hok Hi Hj Hse Hex).
  - destruct (find_start le l addr) as [e|]; [|done]. destruct Hf as (i & Hi & _). apply not_true_is_false. intros Hin.
    rewrite <- not_true_iff_false, existsb_exists in Ex. apply Ex. exists e. split; [|done]. apply list_elem_of_In. by eapply list_elem_of_lookup_2.
Qed.

End search.

(** *** Prefix masks *)

Lemma land_prefix w j a : 0 <= j <= w -> 0 <= a < 2 ^ w -> Z.land a (2 ^ w - 2 ^ j) = a - a mod 2 ^ j.
Proof.
  intros Hj Ha. assert (0 < 2 ^ j) by (apply Z.pow_pos_nonneg; lia).
  assert (2 ^ w - 2 ^ j = Z.shiftl (Z.ones (w - j)) j) as ->.
  { rewrite Z.shiftl_mul_pow2, Z.ones_equiv by lia. rewrite <- Z.sub_1_r, Z.mul_sub_distr_r, <- Z.pow_add_r by lia.
    replace (w - j + j) with w by lia. lia. }
  assert (a - a mod 2 ^ j = Z.shiftl (Z.shiftr a j) j) as ->.
  { rewrite Z.shiftl_mul_pow2, Z.shiftr_div_pow2 by lia. pose proof (Z.div_mod a (2 ^ j) ltac:(lia)) as E. rewrite E at 1. lia. }
  apply Z.bits_inj'. intros n Hn. rewrite Z.land_spec, !Z.shiftl_spec by lia.
  destruct (Z.lt_ge_cases n j); [by rewrite !(Z.testbit_neg_r _ (n - j)), andb_false_r by lia|].
  rewrite Z.shiftr_spec, Z.sub_add by lia. destruct (Z.lt_ge_cases n w).
  - by rewrite Z.ones_spec_low, andb_true_r by lia.
  - destruct (decide (a = 0)) as [->|]; [by rewrite Z.bits_0|]. rewrite (Z.bits_above_log2 a n); [done|lia|].
    apply Z.log2_lt_pow2; [lia|]. apply Z.lt_le_trans with (2 ^ w); [lia|]. apply Z.pow_le_mono_r; lia.
Qed.

Lemma prefix_convex w j a x s :
  0 <= j <= w -> 0 <= a < 2 ^ w -> 0 <= x < 2 ^ w ->
  Z.land a (2 ^ w - 2 ^ j) = s -> s <= x -> x <= a -> Z.land x (2 ^ w - 2 ^ j) = s.
Proof.
  intros Hj Ha Hx. rewrite !land_prefix by done. intros <- H1 H2.
  assert (0 < 2 ^ j) by (apply Z.pow_pos_nonneg; lia).
  pose proof (Z.div_mod a (2 ^ j) ltac:(lia)). pose proof (Z.div_mod x (2 ^ j) ltac:(lia)).
  pose proof (Z.mod_pos_bound a (2 ^ j) ltac:(lia)). pose proof (Z.mod_pos_bound x (2 ^ j) ltac:(lia)).
  assert (x / 2 ^ j = a / 2 ^ j) as E.
  { apply Z.le_antisymm; [apply Z.div_le_mono; lia|]. apply Z.div_le_lower_bound; [lia|]. lia. }
  rewrite E in *. lia.
Qed.

(** IPv4 networks as numbers. *)
Definition addr4 (a : Z) : Prop := 0 <= a < 2 ^ 32.
Definition net4 (e : Z * Z) : Prop := addr4 e.1 /\ (exists j, 0 <= j <= 32 /\ e.2 = 2 ^ 32 - 2 ^ j) /\ Z.land e.1 e.2 = e.1.

Lemma net4_start e : net4 e -> addr4 e.1 /\ inside4 e.1 e = true.
Proof. intros (Ha & _ & E). split; [done|]. unfold inside4. by apply Z.eqb_eq. Qed.
Lemma inside4_start e a : net4 e -> addr4 a -> inside4 a e = true -> (e.1 <=? a) = true.
Proof.
  intros (_ & (j & Hj & Em) & _) Ha Hin. unfold inside4 in Hin. apply Z.eqb_eq in Hin. rewrite Em, land_prefix in Hin by done.
  apply Z.leb_le. assert (0 < 2 ^ j) by (apply Z.pow_pos_nonneg; lia). pose proof (Z.mod_pos_bound a (2 ^ j) ltac:(lia)). lia.
Qed.
Lemma inside4_convex e a x : net4 e -> addr4 a -> addr4 x ->
  inside4 a e = true -> (e.1 <=? x) = true -> (x <=? a) = true -> inside4 x e = true.
Proof.
  intros (_ & (j & Hj & Em) & _) Ha Hx. unfold inside4. rewrite Em, !Z.eqb_eq, !Z.leb_le. intros H1 H2 H3.
  by apply (prefix_convex 32 j a).
Qed.

(** IPv6 networks as bytes. *)
Definition addr6 (a : bytes) : Prop := length a = 16%nat /\ bytes_ok a.
Definition net6 (e : bytes * bytes) : Prop :=
  addr6 e.1 /\ (exists k, e.2 = Net.cidr_mask 16 k) /\ zip_with Z.land e.1 e.2 = e.1.

Lemma land_le a m : 0 <= a -> 0 <= m -> 0 <= Z.land a m <= a.
Proof.
  intros Ha Hm. split; [apply Z.land_nonneg; by left|].
  rewrite <- (Z2N.id a), <- (Z2N.id m), <- N2Z.inj_land by done. apply N2Z.inj_le, N.land_le_l.
Qed.

Lemma mask_byte len k : forall b, b ∈ Net.cidr_mask len k -> 0 <= b <= 255.
Proof.
  revert k. induction len as [|len IH]; intros k b; cbn [Net.cidr_mask]; [by intros ?%not_elem_of_nil|].
  intros [->|H]%elem_of_cons; [|by eapply IH].
  destruct (Z.leb_spec 8 k); [lia|]. destruct (Z.leb_spec k 0); [lia|].
  assert (2 ^ 0 < 2 ^ (8 - k) <= 2 ^ 7) by (split; [apply Z.pow_lt_mono_r|apply Z.pow_le_mono_r]; lia). lia.
Qed.

Lemma inside6_le m a s : bytes_ok a -> (forall b, b ∈ m -> 0 <= b) -> length m = length a ->
  zip_with Z.land a m = s -> Strings.le s a = true.
Proof.
  intros Ha. revert m s. induction Ha as [|x a Hx Ha IH]; intros m s Hm Hl <-; [by destruct m|].
  destruct m as [|y m]; [done|]. cbn. assert (0 <= y) as Hy by (apply Hm; apply list_elem_of_here).
  destruct (land_le x y) as [_ Hle]; [by destruct Hx|done|].
  destruct (Z.ltb_spec (Z.land x y) x); [done|]. assert (Z.land x y = x) as -> by lia. rewrite Z.eqb_refl. cbn.
  apply (IH m); [|by injection Hl|done]. intros b Hb. apply Hm. by apply list_elem_of_further.
Qed.

Lemma mask_zero len k : k <= 0 -> Net.cidr_mask len k = replicate len 0.
Proof.
  revert k. induction len as [|len IH]; intros k Hk; [done|]. cbn.
  rewrite (proj2 (Z.leb_gt 8 k)), (proj2 (Z.leb_le k 0)) by lia. by rewrite IH by lia.
Qed.

Lemma zip_zero (x : bytes) : zip_with Z.land x (replicate (length x) 0) = replicate (length x) 0.
Proof. induction x as [|b x IH]; [done|]. cbn. by rewrite Z.land_0_r, IH. Qed.

Lemma mask_convex len k a x s :
  length a = len -> length x = len -> bytes_ok a -> bytes_ok x ->
  zip_with Z.land a (Net.cidr_mask len k) = s -> Strings.le s x = true -> Strings.le x a = true ->
  zip_with Z.land x (Net.cidr_mask len k) = s.
Proof.
  revert k a x s. induction len as [|len IH]; intros k a x s La Lx Ha Hx Es Hsx Hxa; [by destruct a, x|].
  destruct a as [|a0 a], x as [|x0 x]; try done. injection La as La. injection Lx as Lx.
  inversion_clear Ha as [|? ? Ha0 Ha']. inversion_clear Hx as [|? ? Hx0 Hx']. subst s. cbn [Net.cidr_mask zip_with] in *.
  cbn [Strings.le] in Hsx, Hxa. rewrite orb_true_iff, andb_true_iff, Z.ltb_lt, Z.eqb_eq in Hsx, Hxa.
  unfold byte_ok in *. destruct (Z.leb_spec 8 k).
  - assert (forall b, 0 <= b < 256 -> Z.land b 255 = b) as Hff.
    { intros b Hb. change 255 with (Z.ones 8). rewrite Z.land_ones by lia. apply Z.mod_small. lia. }
    rewrite Hff in * by lia. rewrite Hff by lia. assert (x0 = a0) as -> by lia. f_equal.
    apply (IH _ a x _ La Lx Ha' Hx' eq_refl); [by destruct Hsx as [?|[_ ?]]; [lia|]|by destruct Hxa as [?|[_ ?]]; [lia|]].
  - destruct (Z.leb_spec k 0).
    + rewrite !Z.land_0_r, !mask_zero by lia. subst len. rewrite zip_zero. rewrite <- Lx at 1. rewrite zip_zero. by rewrite Lx.
    + rewrite !mask_zero by lia. f_equal; [|subst len; rewrite zip_zero; rewrite <- Lx at 1; rewrite zip_zero; by rewrite Lx].
      change 256 with (2 ^ 8). change 256 with (2 ^ 8) in Hsx. apply (prefix_convex 8 (8 - k) a0); lia.
Qed.

Lemma length_cidr_mask len k : length (Net.cidr_mask len k) = len.
Proof. revert k. induction len as [|len IH]; intros k; cbn; [done|]. by rewrite IH. Qed.

Lemma net6_start e : net6 e -> addr6 e.1 /\ inside6 e.1 e = true.
Proof. intros (Ha & _ & E). split; [done|]. by apply bool_decide_eq_true. Qed.
Lemma inside6_start e a : net6 e -> addr6 a -> inside6 a e = true -> Strings.le e.1 a = true.
Proof.
  intros (_ & (k & Em) & _) [Hl Ha] Hin%bool_decide_eq_true. rewrite Em in Hin.
  eapply (inside6_le (Net.cidr_mask 16 k)); [done| |by rewrite length_cidr_mask|done].
  intros b Hb. apply mask_byte in Hb. lia.
Qed.
Lemma inside6_convex e a x : net6 e -> addr6 a -> addr6 x ->
  inside6 a e = true -> Strings.le e.1 x = true -> Strings.le x a = true -> inside6 x e = true.
Proof.
  intros (_ & (k & Em) & _) [Hla Ha] [Hlx Hx]. unfold inside6. rewrite Em, !bool_decide_eq_true. intros H1 H2 H3.
  by apply (mask_convex 16 k a).
Qed.

(** *** Entries of parsed networks *)

Lemma be_get_land a m : bytes_ok a -> bytes_ok m -> length a = length m ->
  be_get (zip_with Z.land a m) = Z.land (be_get a) (be_get m).
Proof.
  intros Ha. revert m. induction Ha as [|x a Hx Ha IH]; intros m Hm Hl; [by destruct m|].
  destruct m as [|y m]; [done|]. injection Hl as Hl. inversion_clear Hm as [|? ? Hy Hm']. cbn [zip_with].
  pose proof (be_get_bound a Ha) as Ba. pose proof (be_get_bound m Hm') as Bm.
  rewrite !be_get_cons, length_zip_with, IH, <- Hl, Nat.min_id by done. rewrite <- Hl in Bm.
  assert (256 ^ lenZ a = 2 ^ (8 * lenZ a)) as E by (rewrite Z.pow_mul_r by lia; done). rewrite E in *.
  set (k := 8 * lenZ a) in *. assert (0 <= k) by (unfold k; lia).
  apply Z.bits_inj'. intros n Hn.
  assert (forall u v, 0 <= v < 2 ^ k -> Z.testbit (u * 2 ^ k + v) n = if n <? k then Z.testbit v n else Z.testbit u (n - k)) as Hb.
  { intros u v Hv. destruct (Z.ltb_spec n k).
    - rewrite <- (Z.mod_pow2_bits_low _ k) by lia. rewrite Z.add_comm, Z.mod_add, Z.mod_small by lia. done.
    - replace n with ((n - k) + k) at 1 by lia. rewrite <- Z.div_pow2_bits by lia. rewrite Z.div_add_l by lia.
      rewrite Z.div_small by lia. by rewrite Z.add_0_r. }
  assert (0 <= Z.land (be_get a) (be_get m) < 2 ^ k) by (pose proof (land_le (be_get a) (be_get m)); lia).
  rewrite Z.land_spec, !Hb by lia. destruct (n <? k); by rewrite Z.land_spec.
Qed.

Lemma be_get_inj a b : bytes_ok a -> bytes_ok b -> length a = length b -> be_get a = be_get b -> a = b.
Proof. intros Ha Hb Hl E. rewrite <- (be_put_get a), <- (be_put_get b) by done. by rewrite Hl, E. Qed.

Lemma mask_ok len k : bytes_ok (Net.cidr_mask len k).
Proof. apply Forall_forall. intros b Hb. apply mask_byte in Hb. unfold byte_ok. lia. Qed.

Lemma zip_land_ok a m : bytes_ok a -> bytes_ok m -> bytes_ok (zip_with Z.land a m).
Proof.
  intros Ha. revert m. induction Ha as [|x a Hx Ha IH]; intros m Hm; [constructor|].
  destruct Hm as [|y m Hy Hm]; [constructor|]. cbn. constructor; [|by apply IH]. unfold byte_ok in *. pose proof (land_le x y). lia.
Qed.

Lemma zip_land_idem (a m : bytes) : zip_with Z.land (zip_with Z.land a m) m = zip_with Z.land a m.
Proof.
  revert m. induction a as [|x a IH]; intros m; [done|]. destruct m as [|y m]; [done|]. cbn.
  by rewrite <- Z.land_assoc, Z.land_diag, IH.
Qed.

Lemma mask_value len k : 0 <= k <= 8 * Z.of_nat len -> exists j, 0 <= j <= 8 * Z.of_nat len /\
  be_get (Net.cidr_mask len k) = 2 ^ (8 * Z.of_nat len) - 2 ^ j.
Proof.
  intros Hk. exists (8 * Z.of_nat len - k). split; [lia|]. revert k Hk. induction len as [|len IH]; intros k Hk.
  { assert (k = 0) as -> by lia. done. }
  cbn [Net.cidr_mask]. rewrite be_get_cons, length_cidr_mask.
  assert (256 ^ Z.of_nat len = 2 ^ (8 * Z.of_nat len)) as E by (rewrite Z.pow_mul_r by lia; done). rewrite E.
  set (w := 8 * Z.of_nat len) in *. replace (8 * Z.of_nat (S len)) with (8 + w) by lia. rewrite (Z.pow_add_r 2 8) by lia. change (2 ^ 8) with 256.
  destruct (Z.leb_spec 8 k).
  - rewrite IH by lia. replace (w - (k - 8)) with (8 + w - k) by lia. lia.
  - rewrite mask_zero by lia. assert (be_get (replicate len 0) = 0) as ->.
    { clear. induction len as [|len IH]; [done|]. cbn [replicate]. rewrite be_get_cons, IH. lia. }
    assert (2 ^ (8 + w - k) = 2 ^ (8 - k) * 2 ^ w) as -> by (rewrite <- Z.pow_add_r by lia; f_equal; lia).
    destruct (Z.leb_spec k 0); [replace k with 0 by lia; lia|]. nia.
Qed.

(** A parsed network and its entry hold the same addresses. *)
Lemma land_eq_be ip x m : length x = length m -> length ip = length m -> bytes_ok x -> bytes_ok ip -> bytes_ok m ->
  (Z.land (be_get x) (be_get m) =? be_get (zip_with Z.land ip m)) = bool_decide (zip_with Z.land ip m = zip_with Z.land x m).
Proof.
  intros Hx Hi Bx Bi Bm. rewrite <- be_get_land by done. apply Bool.eq_iff_eq_true. rewrite Z.eqb_eq, bool_decide_eq_true. split.
  - intros E. symmetry. apply be_get_inj; [by apply zip_land_ok|by apply zip_land_ok|rewrite !length_zip_with; lia|done].
  - by intros ->.
Qed.

Lemma to4_length ip ip4 : Net.to4 ip = Some ip4 -> length ip4 = 4%nat.
Proof.
  unfold Net.to4. destruct (Nat.eqb_spec (length ip) 4); [by intros [= <-]|].
  destruct (Nat.eqb_spec (length ip) 16); [|done]. destruct (bool_decide _); [|done]. intros [= <-]. rewrite length_drop. lia.
Qed.
Lemma to4_ok ip ip4 : bytes_ok ip -> Net.to4 ip = Some ip4 -> bytes_ok ip4.
Proof.
  intros H. unfold Net.to4. destruct (_ =? 4)%nat; [by intros [= <-]|]. destruct (_ && _); [|done]. intros [= <-]. by apply Forall_drop.
Qed.
Lemma to4_self ip : length ip = 4%nat -> Net.to4 ip = Some ip.
Proof. intros H. unfold Net.to4. by rewrite H. Qed.

Definition plain (n : Net.IPNet) : Prop := length (Net.net_mask n) = 4%nat \/ Net.to4 (Net.net_ip n) = None.

Lemma entry4_spec s n e : Net.ParseCIDR s = Some n -> entry4 n = Some e ->
  net4 e /\ entry6 n = None /\ forall ip, bytes_ok ip ->
  Net.Contains n ip = match Net.to4 ip with Some ip4 => inside4 (be_get ip4) e | None => false end.
Proof.
  intros (ip0 & k & Hl & B0 & Hk & Em & En)%Net.ParseCIDR_shape He. assert (entry6 n = None) as H6 by (unfold entry6; by rewrite He).
  unfold entry4 in He. destruct (Net.to4 (Net.net_ip n)) as [x4|] eqn:E4; [|done].
  rewrite Em, length_cidr_mask in He. destruct (Nat.eqb_spec (length ip0) 4) as [L0|]; [|done]. rewrite L0 in He, Em, En, Hk.
  assert (length (Net.net_ip n) = 4%nat) as Ln by (rewrite En, length_zip_with, length_cidr_mask; lia).
  pose proof (to4_self _ Ln) as E4'. rewrite E4' in E4. injection E4 as <-.
  assert (e = (be_get (Net.net_ip n), be_get (Net.cidr_mask 4 k))) as -> by (revert He; clear; congruence).
  pose proof (mask_ok 4 k) as Bm. pose proof (zip_land_ok ip0 _ B0 Bm) as Bn. rewrite <- En in Bn.
  assert (length ip0 = length (Net.cidr_mask 4 k)) as LL by (rewrite length_cidr_mask; lia).
  split; [|split; [done|]].
  - split; [|split]; cbn [fst snd].
    + pose proof (be_get_bound _ Bn) as Hb. rewrite Ln in Hb. exact Hb.
    + destruct (mask_value 4 k) as (j & Hj & Ej); [lia|]. by exists j.
    + rewrite En, <- be_get_land, zip_land_idem; [done|by apply zip_land_ok|done|rewrite length_zip_with; lia].
  - intros ip Bip. unfold Net.Contains. rewrite E4', Ln, Em, length_cidr_mask. cbn [Nat.eqb andb].
    destruct (Net.to4 ip) as [x|] eqn:Ex.
    + pose proof (to4_length _ _ Ex) as Lx. pose proof (to4_ok _ _ Bip Ex) as Bx. rewrite Lx. rewrite bool_decide_eq_true_2 by done.
      unfold inside4. cbn [fst snd]. rewrite En, zip_land_idem. rewrite land_eq_be; [done|by rewrite length_cidr_mask|done|done|done|done].
    + rewrite bool_decide_eq_false_2; [done|]. intros Lx. by rewrite (to4_self ip Lx) in Ex.
Qed.

Lemma entry6_spec s n e : Net.ParseCIDR s = Some n -> plain n -> entry6 n = Some e ->
  net6 e /\ entry4 n = None /\ forall ip,
  Net.Contains n ip = match Net.to4 ip with Some _ => false | None => if (length ip =? 16)%nat then inside6 ip e else false end.
Proof.
  intros (ip0 & k & Hl & B0 & Hk & Em & En)%Net.ParseCIDR_shape Hp He. unfold entry6 in He. destruct (entry4 n) eqn:E4; [done|].
  assert (length (Net.net_ip n) = length ip0) as Ln by (rewrite En, length_zip_with, length_cidr_mask; lia).
  rewrite Ln, Em, length_cidr_mask in He. destruct (Nat.eqb_spec (length ip0) 16) as [L0|]; [|done]. rewrite L0 in He. cbn [Nat.eqb andb] in He.
  assert (e = (Net.net_ip n, Net.cidr_mask 16 k)) as -> by (revert He; clear; congruence).
  rewrite L0 in Em, En, Ln, Hk. destruct Hp as [Hp|Hp]; [rewrite Em, length_cidr_mask in Hp; lia|].
  split; [|split; [done|]].
  - split; [|split]; cbn [fst snd].
    + split; [done|]. rewrite En. by apply zip_land_ok; [|apply mask_ok].
    + by exists k.
    + by rewrite En, zip_land_idem.
  - intros ip. unfold Net.Contains. rewrite Hp, Ln. cbn [Nat.eqb andb]. destruct (Net.to4 ip) as [x|] eqn:Ex.
    + rewrite (to4_length _ _ Ex). done.
    + destruct (Nat.eqb_spec (length ip) 16) as [L|L]; [|by rewrite bool_decide_eq_false_2].
      rewrite bool_decide_eq_true_2 by done. unfold inside6. cbn [fst snd andb]. rewrite Em, En, zip_land_idem.
      apply bool_decide_ext. by split; intros ->.
Qed.

Lemma entry6_start s n e : Net.ParseCIDR s = Some n -> plain n -> entry6 n = Some e -> Net.to4 e.1 = None.
Proof.
  intros (ip0 & k & _ & _ & _ & Em & _)%Net.ParseCIDR_shape Hp He. unfold entry6 in He. destruct (entry4 n); [done|].
  destruct (Nat.eqb_spec (length (Net.net_ip n)) 16); [|done]. destruct (Nat.eqb_spec (length (Net.net_mask n)) 16); [|done].
  cbn [andb] in He. assert (e.1 = Net.net_ip n) as -> by (assert (e = (Net.net_ip n, Net.net_mask n)) as -> by (revert He; clear; congruence); done).
  destruct Hp as [Hp|Hp]; [lia|done].
Qed.

Lemma entry_none s n : Net.ParseCIDR s = Some n -> entry4 n = None -> entry6 n = None -> False.
Proof.
  intros (ip0 & k & Hl & B0 & Hk & Em & En)%Net.ParseCIDR_shape H4 H6. unfold entry6 in H6. rewrite H4 in H6. unfold entry4 in H4.
  assert (length (Net.net_ip n) = length ip0) as Ln by (rewrite En, length_zip_with, length_cidr_mask; lia).
  rewrite Em, length_cidr_mask in H4, H6. rewrite Ln in H6. destruct Hl as [L|L]; rewrite L in H4, H6, Ln; [|done].
  by rewrite (to4_self _ Ln) in H4.
Qed.

(** *** The set built from a list *)

Lemma sort_perm {A} (le : A -> A -> bool) rnd l : sort_entries le rnd l ≡ₚ l.
Proof. unfold sort_entries. by rewrite merge_sort_Permutation, shuffle_perm. Qed.

Lemma sort_sorted {A} (le : A -> A -> bool) rnd l :
  (forall x, le x x = true) -> (forall x y z, le x y = true -> le y z = true -> le x z = true) ->
  (forall x y, le x y = true \/ le y x = true) -> sorted le (sort_entries le rnd l).
Proof.
  intros Hr Ht Hto. unfold sort_entries. set (l' := rand_Shuffle rnd l). clearbody l'.
  assert (Transitive (start_le le)) by (intros x y z; apply Ht). assert (Total (start_le le)) by (intros x y; apply Hto).
  pose proof (StronglySorted_merge_sort (start_le le) l') as HS. induction HS as [|x m HS IH Hx]; intros i j a b Hij Ha Hb; [done|].
  destruct i as [|i], j as [|j]; [simplify_eq/=; apply Hr| |lia|by apply (IH i j a b); [lia| |]].
  injection Ha as <-. rewrite Forall_forall in Hx. apply Hx. by eapply list_elem_of_lookup_2.
Qed.

Lemma existsb_perm {A} (p : A -> bool) l l' : l ≡ₚ l' -> existsb p l = existsb p l'.
Proof.
  intros H. induction H as [|x l l' H IH|x y l|l l' l'' H1 IH1 H2 IH2]; cbn; [done|by rewrite IH| |by rewrite IH1].
  destruct (p x), (p y); done.
Qed.

Lemma existsb_omap {A B} (f : A -> option B) (p : B -> bool) (q : A -> bool) l :
  (forall x, x ∈ l -> q x = match f x with Some e => p e | None => false end) -> existsb p (omap f l) = existsb q l.
Proof.
  induction l as [|x l IH]; intros H; [done|]. cbn [omap list_omap existsb]. rewrite (H x) by apply list_elem_of_here.
  rewrite <- IH by (intros y Hy; apply H; by apply list_elem_of_further). destruct (f x); [done|done].
Qed.

Lemma count_omap {A B} (f : A -> option B) (p : B -> bool) (q : A -> bool) l :
  (forall x e, x ∈ l -> f x = Some e -> q x = p e) -> (length (List.filter p (omap f l)) <= length (List.filter q l))%nat.
Proof.
  induction l as [|x l IH]; intros H; [done|]. cbn [omap list_omap List.filter].
  assert (length (List.filter p (omap f l)) <= length (List.filter q l))%nat by (apply IH; intros y e Hy; apply H; by apply list_elem_of_further).
  destruct (f x) as [e|] eqn:E; [|destruct (q x); cbn; lia].
  rewrite (H x e (list_elem_of_here _ _) E). cbn. destruct (p e); cbn; lia.
Qed.

Lemma count_perm {A} (p : A -> bool) l l' : l ≡ₚ l' -> length (List.filter p l) = length (List.filter p l').
Proof.
  intros H. induction H as [|x l l' H IH|x y l|l l' l'' H1 IH1 H2 IH2]; cbn; [done|by destruct (p x); cbn; rewrite IH| |by rewrite IH1].
  destruct (p x), (p y); done.
Qed.

Lemma nets_parsed (cidrs : list gostring) n : n ∈ omap Net.ParseCIDR cidrs -> exists s, Net.ParseCIDR s = Some n.
Proof. intros (s & _ & H)%list_elem_of_omap. by exists s. Qed.

(** No address lies in two of the networks, and no IPv6 prefix is of IPv4-mapped addresses. *)
Definition separate (nets : list Net.IPNet) : Prop :=
  Forall plain nets /\ forall ip, bytes_ok ip -> (length (List.filter (fun n => Net.Contains n ip) nets) <= 1)%nat.

Section parsed.
Context (rnd4 rnd6 : nat -> nat) (cidrs : list gostring).
Let nets := omap Net.ParseCIDR cidrs.
Let set := ParseCIDRs rnd4 rnd6 cidrs.
Hypothesis Hsep : separate nets.

Lemma plain_net n : n ∈ nets -> plain n.
Proof. destruct Hsep as [H _]. rewrite Forall_forall in H. apply H. Qed.

Lemma set4_ok : sorted Z.leb (set4 set) /\ Forall net4 (set4 set) /\ disjoint inside4 addr4 (set4 set).
Proof.
  split; [|split].
  - apply sort_sorted; [intros; lia|intros; lia|intros; lia].
  - apply Forall_forall. intros e He. cbn in He. rewrite sort_perm in He. apply list_elem_of_omap in He as (n & Hn & He).
    destruct (nets_parsed cidrs n Hn) as [s Hs]. by destruct (entry4_spec s n e Hs He).
  - intros a Ha. cbn [set set4 ParseCIDRs]. rewrite (count_perm _ _ _ (sort_perm _ _ _)).
    destruct Hsep as [_ Hc]. specialize (Hc (be_put 4 a) (be_put_ok 4 a)). etransitivity; [|exact Hc].
    apply count_omap. intros n e Hn He. destruct (nets_parsed cidrs n Hn) as [s Hs].
    destruct (entry4_spec s n e Hs He) as (_ & _ & ->); [|apply be_put_ok].
    rewrite to4_self by apply length_be_put. by rewrite be_get_put, Z.mod_small.
Qed.

Lemma set6_ok : sorted Strings.le (set6 set) /\ Forall (fun e => net6 e /\ Net.to4 e.1 = None) (set6 set)
  /\ disjoint inside6 (fun a => addr6 a /\ Net.to4 a = None) (set6 set).
Proof.
  split; [|split].
  - apply sort_sorted; [apply Strings.le_refl|apply Strings.le_trans|].
    intros x y. destruct (Strings.le x y) eqn:E; [by left|right]. by apply Strings.le_total.
  - apply Forall_forall. intros e He. cbn in He. rewrite sort_perm in He. apply list_elem_of_omap in He as (n & Hn & He).
    destruct (nets_parsed cidrs n Hn) as [s Hs]. destruct (entry6_spec s n e Hs (plain_net n Hn) He) as (H6 & H4 & _).
    split; [done|]. by eapply entry6_start, He; [|apply plain_net].
  - intros a [[La Ba] H4]. cbn [set set6 ParseCIDRs]. rewrite (count_perm _ _ _ (sort_perm _ _ _)).
    destruct Hsep as [_ Hc]. specialize (Hc a Ba). etransitivity; [|exact Hc].
    apply count_omap. intros n e Hn He. destruct (nets_parsed cidrs n Hn) as [s Hs].
    destruct (entry6_spec s n e Hs (plain_net n Hn) He) as (_ & _ & ->). by rewrite H4, La.
Qed.

Lemma search_is_scan ip : bytes_ok ip -> Contains set ip = existsb (fun n => Net.Contains n ip) nets.
Proof.
  intros Bip. unfold Contains. destruct (Net.to4 ip) as [ip4|] eqn:E4.
  - destruct set4_ok as (Hs & Hn & Hd). unfold contains4.
    rewrite (search_equiv Z.leb ltac:(intros; lia) inside4 addr4 net4 net4_start inside4_start inside4_convex _ _ Hs Hn Hd).
    2: { pose proof (be_get_bound ip4 (to4_ok _ _ Bip E4)) as Hb. rewrite (to4_length _ _ E4) in Hb. exact Hb. }
    cbn [set set4 ParseCIDRs]. rewrite (existsb_perm _ _ _ (sort_perm _ _ _)). apply existsb_omap. intros n Hn'.
    destruct (nets_parsed cidrs n Hn') as [s Hp]. destruct (entry4 n) as [e|] eqn:En.
    { destruct (entry4_spec s n e Hp En) as (_ & _ & ->); [|done]. by rewrite E4. }
    destruct (entry6 n) as [e|] eqn:E6; [|by destruct (entry_none s n)].
    destruct (entry6_spec s n e Hp (plain_net n Hn') E6) as (_ & _ & ->). by rewrite E4.
  - assert (forall n, n ∈ nets -> Net.Contains n ip = match entry6 n with Some e => if (length ip =? 16)%nat then inside6 ip e else false | None => false end) as Hall.
    { intros n Hn'. destruct (nets_parsed cidrs n Hn') as [s Hp]. destruct (entry6 n) as [e|] eqn:E6.
      { destruct (entry6_spec s n e Hp (plain_net n Hn') E6) as (_ & _ & ->). by rewrite E4. }
      destruct (entry4 n) as [e|] eqn:En; [|by destruct (entry_none s n)].
      destruct (entry4_spec s n e Hp En) as (_ & _ & ->); [|done]. by rewrite E4. }
    destruct (Nat.eqb_spec (length ip) 16) as [L|L].
    + destruct set6_ok as (Hs & Hn & Hd). unfold contains6.
      rewrite (search_equiv Strings.le Strings.le_trans inside6 (fun a => addr6 a /\ Net.to4 a = None)
        (fun e => net6 e /\ Net.to4 e.1 = None)) with (l := set6 set); [|..|exact Hs|exact Hn|exact Hd|by repeat split].
      2: { intros e [H6 He]. by destruct (net6_start e H6). }
      2: { intros e a [H6 _] [Ha _]. by apply inside6_start. }
      2: { intros e a x [H6 _] [Ha _] [Hx _]. by apply inside6_convex. }
      cbn [set set6 ParseCIDRs]. rewrite (existsb_perm _ _ _ (sort_perm _ _ _)). apply existsb_omap. exact Hall.
    + symmetry. apply not_true_is_false. intros (n & Hn' & Hc)%existsb_exists. apply list_elem_of_In in Hn'. rewrite (Hall n Hn') in Hc.
      by destruct (entry6 n).
Qed.

End parsed.

(** C34: When no address lies in two of the listed networks and no listed IPv6 prefix is of
    IPv4-mapped addresses, the binary search of the set built from the list gives for every
    address the answer of a scan of the parsed networks with net.IPNet.Contains, whatever
    the order in which the unstable sort leaves equal starts. *)
Theorem cidr_search_equiv (rnd4 rnd6 : nat -> nat) (cidrs : list gostring) (ip : bytes) :
  separate (omap Net.ParseCIDR cidrs) -> bytes_ok ip ->
  Contains (ParseCIDRs rnd4 rnd6 cidrs) ip = existsb (fun n => Net.Contains n ip) (omap Net.ParseCIDR cidrs).
Proof. intros Hs Hip. by apply search_is_scan. Qed.

Definition toy_cidrs : list gostring := [bs "192.168.0.0/24"; bs "bogus"; bs "10.1.0.0/16"; bs "2001:db8::/32"].

Lemma toy_separate : separate (omap Net.ParseCIDR toy_cidrs).
Proof.
  assert (omap Net.ParseCIDR toy_cidrs = [Net.MkIPNet [192; 168; 0; 0] [255; 255; 255; 0]; Net.MkIPNet [10; 1; 0; 0] [255; 255; 0; 0];
    Net.MkIPNet ([32; 1; 13; 184] ++ replicate 12 0) (replicate 4 255 ++ replicate 12 0)]) as -> by (vm_compute; reflexivity).
  split; [repeat constructor; first [by left|by right]|]. intros ip _. cbn [List.filter].
  set (x := match Net.to4 ip with Some x => x | None => ip end).
  assert (forall a m, Net.to4 a = Some a \/ Net.to4 a = None /\ length a = 16%nat -> length m = length a ->
    Net.Contains (Net.MkIPNet a m) ip = true -> length x = length a /\ zip_with Z.land a m = zip_with Z.land x m) as Hc.
  { intros a m [Ha|[Ha La]] Lm; unfold Net.Contains; cbn [Net.net_ip Net.net_mask]; rewrite Ha;
      [rewrite Lm, (to4_length _ _ Ha)|rewrite Lm, La]; cbn [Nat.eqb andb]; fold x;
      rewrite andb_true_iff, !bool_decide_eq_true; intros [L E]; (split; [|done]); by rewrite L. }
  destruct (Net.Contains (Net.MkIPNet [192; 168; 0; 0] _) ip) eqn:E1; [apply Hc in E1 as [L1 E1]; [|by left|done]|];
  (destruct (Net.Contains (Net.MkIPNet [10; 1; 0; 0] _) ip) eqn:E2; [apply Hc in E2 as [L2 E2]; [|by left|done]|]);
  (destruct (Net.Contains (Net.MkIPNet ([32; 1; 13; 184] ++ _) _) ip) eqn:E3; [apply Hc in E3 as [L3 E3]; [|by right|done]|]);
  cbn [length]; try lia; exfalso; try (rewrite L3 in *; done).
  destruct x as [|x0 x']; [done|]. injection E1 as E1 _. injection E2 as E2 _. rewrite <- E1 in E2. done.
Qed.

Lemma cidr_search_equiv_witness :
  Contains (ParseCIDRs (fun i => i) (fun i => i) toy_cidrs) [10; 1; 200; 3] = true.
Proof.
  rewrite (cidr_search_equiv _ _ toy_cidrs [10; 1; 200; 3]); [vm_compute; reflexivity|exact toy_separate|].
  repeat constructor; unfold byte_ok; lia.
Defined.

(** Overlap breaks the search: the larger network is shadowed by a later start inside it. *)
Example overlap_is_missed :
  Contains (ParseCIDRs (fun i => i) (fun i => i) [bs "10.0.0.0/8"; bs "10.1.0.0/16"]) [10; 2; 0; 1] = false.
Proof. vm_compute. reflexivity. Qed.

End Cidr.
