(* ===== verification/ClientRoute.v ===== *)
(** * snc/core: which way a connection goes (dns_cache.go, bypass.go, socks5.go, watchdog.go)

    The client's split tunnel: the DNS cache that remembers names of addresses, the bypass
    manager that decides from it and from the home-country networks, the SOCKS5 server that
    takes a connection around or through the tunnel, and the monitor that decides whether
    the tunnel is dead. Lookups, dials, decoded messages and the clock are inputs. The
    non-Windows build is modelled, where caches are stored as they are (nodeid_other.go). *)

From stdpp Require Import base list gmap strings fin_maps.
From Stdlib Require Import ZArith Lia.
From S2P Require Import Prelude GoLib GoFloat ClientDialer ClientCidr.

(** ** Names of addresses (dns_cache.go) *)
Module Dns.

Record dnsCacheEntry := MkDns { dn_fqdn : gostring; dn_expires : Z }.
Record hostCacheEntry := MkHost { ho_ipv4 : gostring; ho_expires : Z }.
Record dnsCache := MkDnsCache { dc_m : gmap gostring dnsCacheEntry; dc_byHost : gmap gostring hostCacheEntry }.
Definition empty : dnsCache := MkDnsCache ∅ ∅.

(** One tick of the cleanup goroutine. *)
Definition cleanup (now : Z) (c : dnsCache) : dnsCache :=
  MkDnsCache (filter (fun kv => now <= dn_expires kv.2) (dc_m c)) (filter (fun kv => now <= ho_expires kv.2) (dc_byHost c)).

Definition clamp_ttl (ttl : Z) : Z :=
  let ttl := if ttl <? 5 * minute then 5 * minute else ttl in
  if 24 * hour <? ttl then 24 * hour else ttl.

Section names.
Context {U : Unicode}.

(** [Set]; the name is taken in Rocq. *)
Definition set_name (now : Z) (ip fqdn : gostring) (ttl : Z) (c : dnsCache) : dnsCache :=
  MkDnsCache (<[ip := MkDns (Strings.ToLower fqdn) (now + clamp_ttl ttl)]> (dc_m c)) (dc_byHost c).
Definition Get (now : Z) (ip : gostring) (c : dnsCache) : gostring :=
  match dc_m c !! ip with
  | Some e => if dn_expires e <? now then [] else dn_fqdn e
  | None => []
  end.
Definition setHost (now : Z) (fqdn ipv4 : gostring) (ttl : Z) (c : dnsCache) : dnsCache :=
  MkDnsCache (dc_m c) (<[Strings.ToLower fqdn := MkHost ipv4 (now + clamp_ttl ttl)]> (dc_byHost c)).
Definition GetIPv4ForHost (now : Z) (fqdn : gostring) (c : dnsCache) : gostring :=
  match dc_byHost c !! Strings.ToLower fqdn with
  | Some e => if ho_expires e <? now then [] else ho_ipv4 e
  | None => []
  end.

(** What dnsmessage.Parser gives for the answers of a message, in order, until its first
    header error: the name, the TTL in seconds and the resource, [None] when reading it
    fails; [t] and [t'] are the clock at the writes. *)
Inductive answer :=
  | AnsA (t t' : Z) (name : gostring) (ttl : Z) (r : option bytes)
  | AnsAAAA (t : Z) (name : gostring) (ttl : Z) (r : option bytes)
  | AnsOther (skipped : bool).

Fixpoint learn (l : list answer) (c : dnsCache) : dnsCache :=
  match l with
  | [] => c
  | AnsA t t' name ttl (Some a) :: l =>
      let ip := Net.IP_String a in
      learn l (setHost t' name ip (ttl * second) (set_name t ip name (ttl * second) c))
  | AnsAAAA t name ttl (Some a) :: l => learn l (set_name t (Net.IP_String a) name (ttl * second) c)
  | AnsOther true :: l => learn l c
  | _ :: _ => c
  end.
(** [msg] is [None] when the header or the questions do not parse. *)
Definition ParseAndLearn (msg : option (list answer)) (c : dnsCache) : dnsCache :=
  match msg with Some l => learn l c | None => c end.

Lemma clamp_bounds ttl : 5 * minute <= clamp_ttl ttl <= 24 * hour.
Proof.
  unfold clamp_ttl. destruct (Z.ltb_spec ttl (5 * minute)); cbv zeta;
    [destruct (Z.ltb_spec (24 * hour) (5 * minute))|destruct (Z.ltb_spec (24 * hour) ttl)]; unfold hour, minute, second in *; lia.
Qed.

End names.
End Dns.

(** ** The bypass manager (bypass.go) *)
Module Bypass.
Import Cidr.

Record signedCIDRList := MkSigned { sl_Country : gostring; sl_TS : Z; sl_CIDRs : list gostring; sl_Sig : gostring }.

(** encoding/json on the list, on its signed part and on its country alone. *)
Class BypassCodec := {
  un_cidrs : bytes -> option signedCIDRList;
  canon_cidrs : gostring -> Z -> list gostring -> bytes;
  un_country : bytes -> gostring }.

(** The HTTP client, the stop channel and the route hook are left out of the state. *)
Record BypassManager := MkBypass {
  bm_exitURLs : list gostring;
  bm_pubkey : option bytes;
  bm_cacheFile : gostring;
  bm_cidrs : option CIDRSet;
  bm_country : gostring;
  bm_enabled : bool;
  bm_token : gostring;
  bm_myIP : gostring;
  bm_localIP : gostring;
  bm_cidrSource : Z;
  bm_failedIPs : gmap gostring Z }.

Definition slash : gostring := bs "/".
(** [strings.TrimRight(u, slash)] *)
Fixpoint drop_slashes (s : gostring) : gostring :=
  match s with [] => [] | c :: s' => if c =? 47 then drop_slashes s' else s end.
Definition trim_slash (u : gostring) : gostring := rev (drop_slashes (rev u)).

Definition NewBypassManager (exitURLs : list gostring) (pubkeyHex cacheFile : gostring) : res BypassManager :=
  let m pub := MkBypass (trim_slash <$> exitURLs) pub cacheFile None [] true [] [] [] 0 ∅ in
  if decide (pubkeyHex = []) then Ok (m None)
  else match Hex.decode pubkeyHex with
       | Some b => if (length b =? 32)%nat then Ok (m (Some b)) else Err "bypass: invalid arbiter pubkey hex"
       | None => Err "bypass: invalid arbiter pubkey hex"
       end.

Definition set_lists (cidrs : option CIDRSet) (country : gostring) (src : Z) (m : BypassManager) : BypassManager :=
  MkBypass (bm_exitURLs m) (bm_pubkey m) (bm_cacheFile m) cidrs country (bm_enabled m) (bm_token m) (bm_myIP m)
    (bm_localIP m) src (bm_failedIPs m).
Definition set_failed (f : gmap gostring Z) (m : BypassManager) : BypassManager :=
  MkBypass (bm_exitURLs m) (bm_pubkey m) (bm_cacheFile m) (bm_cidrs m) (bm_country m) (bm_enabled m) (bm_token m)
    (bm_myIP m) (bm_localIP m) (bm_cidrSource m) f.
Definition set_conf (urls : list gostring) (enabled : bool) (token myIP localIP : gostring) (m : BypassManager) : BypassManager :=
  MkBypass urls (bm_pubkey m) (bm_cacheFile m) (bm_cidrs m) (bm_country m) enabled token myIP localIP (bm_cidrSource m)
    (bm_failedIPs m).
Definition SetToken (token : gostring) (m : BypassManager) : BypassManager :=
  set_conf (bm_exitURLs m) (bm_enabled m) token (bm_myIP m) (bm_localIP m) m.
Definition SetMyIP (ip : gostring) (m : BypassManager) : BypassManager :=
  set_conf (bm_exitURLs m) (bm_enabled m) (bm_token m) ip (bm_localIP m) m.
Definition SetLocalIP (ip : gostring) (m : BypassManager) : BypassManager :=
  set_conf (bm_exitURLs m) (bm_enabled m) (bm_token m) (bm_myIP m) ip m.
Definition SetEnabled (v : bool) (m : BypassManager) : BypassManager :=
  set_conf (bm_exitURLs m) v (bm_token m) (bm_myIP m) (bm_localIP m) m.
Definition SetNodes (urls : list gostring) (m : BypassManager) : BypassManager :=
  set_conf (trim_slash <$> urls) (bm_enabled m) (bm_token m) (bm_myIP m) (bm_localIP m) m.
Definition HasLocalIP (m : BypassManager) : bool := negb (bool_decide (bm_localIP m = [])).
Definition ContainsIP (ip : bytes) (m : BypassManager) : bool :=
  match bm_cidrs m with Some c => Contains c ip | None => false end.
Definition CIDRStatus (m : BypassManager) : gostring :=
  if bm_cidrSource m =? 1 then bs "cached" else if bm_cidrSource m =? 2 then bs "fresh" else bs "none".

(** *** The decision *)

Definition tldCountry (fqdn : gostring) : gostring :=
  let f := Strings.TrimSuffix fqdn (bs ".") in
  if Strings.HasSuffix f (bs ".ru") then bs "RU"
  else if Strings.HasSuffix f (bs ".cn") then bs "CN"
  else [].

Inductive reason := Disabled | LookupFailed | InvalidResolvedIp | Cooldown | TldOverride | NoCidrSet | CidrMembership.
(** The event that is logged and the address handed to the route hook. *)
Record decision := MkDecision { de_result : bool; de_reason : reason; de_hook : option gostring }.

Definition host_of (addr : gostring) : gostring :=
  match Net.SplitHostPort addr with Ok (host, _) => host | _ => addr end.

(** [lookup] is net.LookupHost, [None] for an error; one instant [now] for the call. *)
Definition resolve (lookup : gostring -> option (list gostring)) (host : gostring) : bytes + reason :=
  match Net.ParseIP host with
  | Some ip => inl ip
  | None =>
      match lookup host with
      | Some (a :: _) => match Net.ParseIP a with Some ip => inl ip | None => inr InvalidResolvedIp end
      | _ => inr LookupFailed
      end
  end.

Definition approve (result : bool) (why : reason) (ip : gostring) : decision :=
  MkDecision result why (if result then Some ip else None).

(** The TLD override, then the networks. *)
Definition verdict (dns : Dns.dnsCache) (now : Z) (ip : bytes) (m : BypassManager) : decision :=
  let ipStr := Net.IP_String ip in
  let dc := if decide (bm_country m = []) then [] else tldCountry (Dns.Get now ipStr dns) in
  if decide (dc = []) then
    match bm_cidrs m with
    | Some cidrs =>
        if Len cidrs =? 0 then MkDecision false NoCidrSet None
        else approve (Contains cidrs ip) CidrMembership ipStr
    | None => MkDecision false NoCidrSet None
    end
  else approve (bool_decide (dc = bm_country m)) TldOverride ipStr.

Definition ShouldBypass (dns : Dns.dnsCache) (lookup : gostring -> option (list gostring)) (now : Z) (addr : gostring)
    (m : BypassManager) : decision * BypassManager :=
  if negb (bm_enabled m) then (MkDecision false Disabled None, m)
  else
    match resolve lookup (host_of addr) with
    | inr why => (MkDecision false why None, m)
    | inl ip =>
        let ipStr := Net.IP_String ip in
        match bm_failedIPs m !! ipStr with
        | Some exp =>
            if now <? exp then (MkDecision false Cooldown None, m)
            else (verdict dns now ip m, set_failed (delete ipStr (bm_failedIPs m)) m)
        | None => (verdict dns now ip m, m)
        end
    end.

Definition failure_ttl : Z := 30 * minute.
Definition RecordBypassFailure (now : Z) (addr : gostring) (m : BypassManager) : BypassManager :=
  let host := host_of addr in
  match Net.ParseIP host with
  | None => m
  | Some _ => set_failed (<[host := now + failure_ttl]> (bm_failedIPs m)) m
  end.

(** *** The signed lists *)

Section lists.
Context {ED : Ed25519} {BC : BypassCodec}.

(** The clock is in nanoseconds; [rnd4] and [rnd6] are the order of the sort. *)
Definition verifyCIDR (rnd4 rnd6 : nat -> nat) (now : Z) (data : bytes) (m : BypassManager) : res CIDRSet :=
  match un_cidrs data with
  | None => Err "parse"
  | Some p =>
      let signed := match bm_pubkey m with
        | Some pub =>
            match Base64.decode (sl_Sig p) with
            | Some sig => (length sig =? 64)%nat && ed25519_verify pub (canon_cidrs (sl_Country p) (sl_TS p) (sl_CIDRs p)) sig
            | None => false
            end
        | None => true
        end in
      if negb signed then Err "signature verification failed"
      else if 25 * hour <? now - sl_TS p * second then Err "CIDR list too old"
      else Ok (ParseCIDRs rnd4 rnd6 (sl_CIDRs p))
  end.

(** The answer to a GET: [None] when the request cannot be built or sent, [None] inside when
    the body cannot be read. *)
Definition http_answer := option (Z * option bytes).
Definition maxCIDRBody : nat := Z.to_nat (10 * 2 ^ 20).
Definition fetchCIDR (http : gostring -> http_answer) (exitURL myIP : gostring) : option bytes :=
  let u := exitURL ++ bs "/api/bypass/cidr" ++ (if decide (myIP = []) then [] else bs "?ip=" ++ myIP) in
  match http u with
  | Some (status, body) => if status =? 200 then take maxCIDRBody <$> body else None
  | None => None
  end.

(** [persist] into the cache file, [disk]; [wok] says whether the directory and the write succeed. *)
Definition persist (wok : bool) (data : bytes) (m : BypassManager) (disk : option bytes) : option bytes :=
  if decide (bm_cacheFile m = []) then disk else if wok then Some data else disk.

Fixpoint refresh_from (rnd4 rnd6 : nat -> nat) (now : Z) (http : gostring -> http_answer) (wok : bool) (urls : list gostring)
    (m : BypassManager) (disk : option bytes) : bool * BypassManager * option bytes :=
  match urls with
  | [] => (false, m, disk)
  | u :: urls =>
      match fetchCIDR http u (bm_myIP m) with
      | None => refresh_from rnd4 rnd6 now http wok urls m disk
      | Some data =>
          match verifyCIDR rnd4 rnd6 now data m with
          | Ok cidrs => (true, set_lists (Some cidrs) (un_country data) 2 m, persist wok data m disk)
          | _ => refresh_from rnd4 rnd6 now http wok urls m disk
          end
      end
  end.
Definition refresh (rnd4 rnd6 : nat -> nat) (now : Z) (http : gostring -> http_answer) (wok : bool)
    (m : BypassManager) (disk : option bytes) : bool * BypassManager * option bytes :=
  if decide (bm_token m = []) then (false, m, disk) else refresh_from rnd4 rnd6 now http wok (bm_exitURLs m) m disk.

(** [loadCached]; decryption is the identity on this build. *)
Definition loadCached (rnd4 rnd6 : nat -> nat) (now : Z) (disk : option bytes) (m : BypassManager) : BypassManager :=
  if decide (bm_cacheFile m = []) then m
  else match disk with
       | None => m
       | Some plain =>
           match verifyCIDR rnd4 rnd6 now plain m with
           | Ok cidrs => set_lists (Some cidrs) (un_country plain) 1 m
           | _ => m
           end
       end.

(** The ticker of [Start] after a refresh. *)
Definition next_interval (refreshed : bool) : Z := if refreshed then 30 * minute else 2 * minute.

(** *** Every sequence of operations *)

Inductive op :=
  | OToken (token : gostring)
  | OMyIP (ip : gostring)
  | OLocalIP (ip : gostring)
  | OEnabled (v : bool)
  | ONodes (urls : list gostring)
  | ORefresh (rnd4 rnd6 : nat -> nat) (now : Z) (http : gostring -> http_answer) (wok : bool)
  | OLoad (rnd4 rnd6 : nat -> nat) (now : Z)
  | OShould (dns : Dns.dnsCache) (lookup : gostring -> option (list gostring)) (now : Z) (addr : gostring)
  | OFail (now : Z) (addr : gostring).

Definition step (o : op) (x : BypassManager * option bytes) : BypassManager * option bytes :=
  let '(m, disk) := x in
  match o with
  | OToken t => (SetToken t m, disk)
  | OMyIP ip => (SetMyIP ip m, disk)
  | OLocalIP ip => (SetLocalIP ip m, disk)
  | OEnabled v => (SetEnabled v m, disk)
  | ONodes urls => (SetNodes urls m, disk)
  | ORefresh rnd4 rnd6 now http wok => let '(_, m, disk) := refresh rnd4 rnd6 now http wok m disk in (m, disk)
  | OLoad rnd4 rnd6 now => (loadCached rnd4 rnd6 now disk m, disk)
  | OShould dns lookup now addr => ((ShouldBypass dns lookup now addr m).2, disk)
  | OFail now addr => (RecordBypassFailure now addr m, disk)
  end.
Fixpoint steps (l : list op) (x : BypassManager * option bytes) : BypassManager * option bytes :=
  match l with [] => x | o :: l => steps l (step o x) end.

(** A list the arbiter signed. *)
Definition signed_by (pub : bytes) (p : signedCIDRList) : Prop :=
  exists sig, Base64.decode (sl_Sig p) = Some sig /\ ed25519_verify pub (canon_cidrs (sl_Country p) (sl_TS p) (sl_CIDRs p)) sig = true.

Lemma verifyCIDR_ok rnd4 rnd6 now data m cidrs :
  verifyCIDR rnd4 rnd6 now data m = Ok cidrs -> exists p, un_cidrs data = Some p /\ cidrs = ParseCIDRs rnd4 rnd6 (sl_CIDRs p)
    /\ now - sl_TS p * second <= 25 * hour /\ (forall pub, bm_pubkey m = Some pub -> signed_by pub p).
Proof.
  unfold verifyCIDR. destruct (un_cidrs data) as [p|]; [|done]. intros H. exists p. split; [done|]. revert H. cbv zeta.
  match goal with |- context [negb ?b] => destruct b eqn:Es end; [|done]. cbn [negb].
  destruct (Z.ltb_spec (25 * hour) (now - sl_TS p * second)); [done|]. intros [= <-]. split; [done|]. split; [done|].
  intros pub Hp. rewrite Hp in Es. destruct (Base64.decode (sl_Sig p)) as [sig|] eqn:Eb; [|done].
  apply andb_true_iff in Es as [_ Es]. by exists sig.
Qed.

(** encoding/json: the country read alone is the country of the list. *)
Definition country_law : Prop := forall data p, un_cidrs data = Some p -> un_country data = sl_Country p.

(** What the manager holds comes from one signed list, or it holds nothing. *)
Definition from_signed (pub : bytes) (m : BypassManager) : Prop :=
  bm_pubkey m = Some pub /\
  ((bm_cidrs m = None /\ bm_country m = []) \/
   exists p rnd4 rnd6, signed_by pub p /\ bm_cidrs m = Some (ParseCIDRs rnd4 rnd6 (sl_CIDRs p)) /\ bm_country m = sl_Country p).

Lemma from_signed_lists pub rnd4 rnd6 now data m cidrs src : country_law -> from_signed pub m ->
  verifyCIDR rnd4 rnd6 now data m = Ok cidrs -> from_signed pub (set_lists (Some cidrs) (un_country data) src m).
Proof.
  intros Hl [Hp _] (p & Hu & -> & _ & Hs)%verifyCIDR_ok. split; [done|]. right. exists p, rnd4, rnd6. rewrite (Hl data p Hu). auto.
Qed.

Lemma refresh_signed pub rnd4 rnd6 now http wok urls m disk : country_law -> from_signed pub m ->
  from_signed pub (refresh_from rnd4 rnd6 now http wok urls m disk).1.2.
Proof.
  intros Hl Hm. induction urls as [|u urls IH]; [done|]. cbn [refresh_from]. destruct (fetchCIDR _ _ _) as [data|]; [|done].
  destruct (verifyCIDR _ _ _ _ _) eqn:E; [|done|done]. by eapply from_signed_lists.
Qed.

Lemma should_lists dns lookup now addr m : exists f, (ShouldBypass dns lookup now addr m).2 = set_failed f m.
Proof.
  assert (m = set_failed (bm_failedIPs m) m) as Hm by by destruct m.
  unfold ShouldBypass. repeat case_match; cbn [snd]; by eexists.
Qed.

Lemma step_signed pub o x : country_law -> from_signed pub x.1 -> from_signed pub (step o x).1.
Proof.
  intros Hl Hm. destruct x as [m disk]. destruct o; cbn [step fst] in *; try done.
  - unfold refresh. case_decide; [done|]. pose proof (refresh_signed pub rnd4 rnd6 now http wok (bm_exitURLs m) m disk Hl Hm) as H'.
    by destruct (refresh_from _ _ _ _ _ _ _ _) as [[] ?].
  - unfold loadCached. case_decide; [done|]. destruct disk as [plain|]; [|done].
    destruct (verifyCIDR _ _ _ _ _) eqn:E; [|done|done]. by eapply from_signed_lists.
  - destruct (should_lists dns lookup now addr m) as [f ->]. done.
  - unfold RecordBypassFailure. cbv zeta. by destruct (Net.ParseIP _).
Qed.

Lemma steps_signed pub l x : country_law -> from_signed pub x.1 -> from_signed pub (steps l x).1.
Proof. intros Hl. revert x. induction l as [|o l IH]; intros x Hx; [done|]. cbn. by apply IH, step_signed. Qed.

Lemma should_true dns lookup now addr m :
  de_result (ShouldBypass dns lookup now addr m).1 = true -> exists ip, resolve lookup (host_of addr) = inl ip /\
    (bm_country m <> [] /\ tldCountry (Dns.Get now (Net.IP_String ip) dns) = bm_country m
     \/ exists cidrs, bm_cidrs m = Some cidrs /\ Contains cidrs ip = true).
Proof.
  intros H. assert (exists ip, resolve lookup (host_of addr) = inl ip /\ de_result (verdict dns now ip m) = true) as (ip & Hr & Hv).
  { unfold ShouldBypass in H. destruct (negb _); [done|]. destruct (resolve _ _) as [ip|]; [|done]. exists ip. split; [done|].
    revert H. cbv zeta. destruct (bm_failedIPs m !! _) as [exp|]; [by destruct (now <? exp)|done]. }
  exists ip. split; [done|]. unfold verdict in Hv. case_decide as Hdc.
  - destruct (bm_cidrs m) as [cidrs|]; [|done]. destruct (Len cidrs =? 0); [done|]. right. by exists cidrs.
  - cbn in Hv. apply bool_decide_eq_true in Hv. case_decide as Hc; [done|]. by left.
Qed.

(** C31: [ShouldBypass] of a manager that was given the arbiter's key approves an address only
    after a list with the arbiter's signature was loaded, from the network or from the disk,
    and then only an address in that list's networks or one whose remembered name has
    the top-level domain of that list's country, whatever setters, refreshes, cache loads,
    decisions and recorded failures came before. (LAN addresses and the hosts of WildCat mode
    leave the tunnel without asking it: see ClientSocks.) *)
Theorem bypass_needs_signed_list urls pubHex pub cacheFile m0 disk l dns lookup now addr :
  country_law -> pubHex <> [] -> Hex.decode pubHex = Some pub -> NewBypassManager urls pubHex cacheFile = Ok m0 ->
  let m := (steps l (m0, disk)).1 in
  de_result (ShouldBypass dns lookup now addr m).1 = true ->
  exists ip p rnd4 rnd6, resolve lookup (host_of addr) = inl ip /\ signed_by pub p
    /\ (Contains (ParseCIDRs rnd4 rnd6 (sl_CIDRs p)) ip = true
        \/ tldCountry (Dns.Get now (Net.IP_String ip) dns) = sl_Country p /\ sl_Country p <> []).
Proof.
  intros Hl Hne Hp Hm0 m H. assert (from_signed pub m) as [_ Hm].
  { apply steps_signed; [done|]. unfold NewBypassManager in Hm0. case_decide as Hh; [done|].
    rewrite Hp in Hm0. destruct (_ =? 32)%nat; [|done]. injection Hm0 as <-. split; [done|]. by left. }
  destruct (should_true _ _ _ _ _ H) as (ip & Hr & Hv).
  destruct Hm as [[Hn Hc]|(p & rnd4 & rnd6 & Hs & Ec & Eco)].
  - destruct Hv as [[? _]|(cidrs & Hcs & _)]; congruence.
  - exists ip, p, rnd4, rnd6. split; [done|]. split; [done|]. destruct Hv as [[? Ht]|(cidrs & Hcs & Hin)]; [right|left]; [|by simplify_eq].
    rewrite <- Eco. by split.
Qed.

(** *** Cooldown after a failed bypass *)

Definition op_at (lo hi : Z) (o : op) : Prop :=
  match o with OShould _ _ now _ | OFail now _ => lo <= now < hi | _ => True end.

Definition cooling (until : Z) (ip : gostring) (m : BypassManager) : Prop :=
  exists exp, bm_failedIPs m !! ip = Some exp /\ until <= exp.

Lemma refresh_failed rnd4 rnd6 now http wok urls m disk :
  bm_failedIPs (refresh_from rnd4 rnd6 now http wok urls m disk).1.2 = bm_failedIPs m.
Proof.
  induction urls as [|u urls IH]; [done|]. cbn [refresh_from]. destruct (fetchCIDR _ _ _) as [data|]; [|done].
  by destruct (verifyCIDR _ _ _ _ _).
Qed.

Lemma step_cooling lo until ip o x : until <= lo + failure_ttl -> op_at lo until o -> cooling until ip x.1 -> cooling until ip (step o x).1.
Proof.
  intros Hu Ho (exp & Hf & He). destruct x as [m disk]. cbn [fst] in Hf. destruct o; cbn [step op_at fst] in *; try (by exists exp).
  - exists exp. split; [|done]. unfold refresh. case_decide; [done|].
    pose proof (refresh_failed rnd4 rnd6 now http wok (bm_exitURLs m) m disk) as H'. destruct (refresh_from _ _ _ _ _ _ _ _) as [[b m'] d'].
    cbn in *. by rewrite H'.
  - exists exp. split; [|done]. unfold loadCached. by repeat case_match.
  - exists exp. split; [|done]. unfold ShouldBypass. repeat case_match; cbn [snd set_failed bm_failedIPs]; try done.
    destruct (decide (Net.IP_String l = ip)) as [<-|Hne]; [|by rewrite lookup_delete_ne]. simplify_eq. lia.
  - unfold RecordBypassFailure. cbv zeta. destruct (Net.ParseIP _); [|by exists exp]. unfold cooling. cbn [set_failed bm_failedIPs].
    destruct (decide (host_of addr = ip)) as [->|Hne].
    + exists (now + failure_ttl). rewrite lookup_insert_eq. split; [done|lia].
    + exists exp. by rewrite lookup_insert_ne.
Qed.
Lemma steps_cooling lo until ip l x : until <= lo + failure_ttl -> Forall (op_at lo until) l -> cooling until ip x.1 -> cooling until ip (steps l x).1.
Proof. intros Hu Hl. revert x. induction Hl as [|o l Ho Hl IH]; intros x Hx; [done|]. cbn. by eapply IH, step_cooling. Qed.

(** After a failed bypass of a numeric address in the form the program prints it, every
    decision on that address within the next 30 minutes sends it through the tunnel, however
    the address is spelled in the later request and whatever else happens in between. *)
Theorem failed_bypass_stays_in_tunnel m disk addr addr' ip t t' l dns lookup :
  Net.ParseIP (host_of addr) = Some ip -> Net.IP_String ip = host_of addr ->
  resolve lookup (host_of addr') = inl ip -> t <= t' < t + failure_ttl -> Forall (op_at t (t + failure_ttl)) l ->
  de_result (ShouldBypass dns lookup t' addr' (steps l (RecordBypassFailure t addr m, disk)).1).1 = false.
Proof.
  intros Hp Hc Hr Ht Hl. assert (cooling (t + failure_ttl) (Net.IP_String ip) (steps l (RecordBypassFailure t addr m, disk)).1) as (exp & Hf & He).
  { apply steps_cooling with t; [lia|done|]. unfold RecordBypassFailure. cbv zeta. rewrite Hp, Hc. exists (t + failure_ttl).
    cbn [fst set_failed bm_failedIPs]. by rewrite lookup_insert_eq. }
  unfold ShouldBypass. destruct (negb _); [done|]. rewrite Hr. cbv zeta. rewrite Hf. by rewrite (proj2 (Z.ltb_lt t' exp)) by lia.
Qed.

End lists.

(** Concrete instances for the witnesses: a codec that knows one list, and a key that
    accepts every signature of 64 bytes. *)
Definition toy_list : signedCIDRList := MkSigned (bs "RU") 0 [bs "10.1.0.0/16"; bs "2001:db8::/32"] (replicate 86 65).
#[local] Instance toy_codec : BypassCodec :=
  {| un_cidrs := fun d => if decide (d = [1]) then Some toy_list else None;
     canon_cidrs := fun _ _ _ => [2];
     un_country := fun d => if decide (d = [1]) then bs "RU" else [] |}.
#[local] Instance toy_ed : Ed25519 := {| ed25519_verify := fun _ _ _ => true |}.
Definition toy_key : gostring := replicate 64 55.
Definition toy_urls : list gostring := [bs "https://down"; bs "https://c1/"].
Definition toy_http (u : gostring) : http_answer :=
  if decide (u = bs "https://c1/api/bypass/cidr?ip=10.1.0.9") then Some (200, Some [1]) else None.
Definition toy_ops : list op :=
  [OToken (bs "tok"); OMyIP (bs "10.1.0.9"); ORefresh (fun i => i) (fun i => i) (3 * hour) toy_http true;
   OFail (3 * hour) (bs "10.1.0.7:80")].
Definition toy_manager : BypassManager := MkBypass [bs "https://down"; bs "https://c1"] (Some (replicate 32 119)) (bs "f") None [] true [] [] [] 0 ∅.

Lemma bypass_needs_signed_list_witness :
  let m := (steps toy_ops (toy_manager, None)).1 in
  de_result (ShouldBypass Dns.empty (fun _ => None) (4 * hour) (bs "10.1.0.7:443") m).1 = true
  /\ exists ip p rnd4 rnd6, resolve (fun _ => None) (host_of (bs "10.1.0.7:443")) = inl ip /\ signed_by (replicate 32 119) p
    /\ (Contains (ParseCIDRs rnd4 rnd6 (sl_CIDRs p)) ip = true
        \/ tldCountry (Dns.Get (4 * hour) (Net.IP_String ip) Dns.empty) = sl_Country p /\ sl_Country p <> []).
Proof.
  split; [vm_compute; reflexivity|].
  apply (bypass_needs_signed_list toy_urls toy_key (replicate 32 119) (bs "f") toy_manager None toy_ops Dns.empty (fun _ => None) (4 * hour)).
  - intros data p. cbn. by case_decide; [intros [= <-]|].
  - done.
  - vm_compute. reflexivity.
  - vm_compute. reflexivity.
  - vm_compute. reflexivity.
Defined.

Definition toy_later : list op :=
  [OToken (bs "tok"); OMyIP (bs "10.1.0.9"); ORefresh (fun i => i) (fun i => i) (6 * minute) toy_http true;
   OFail (7 * minute) (bs "10.1.0.7:80"); OShould Dns.empty (fun _ => None) (8 * minute) (bs "10.1.0.7:80")].

Lemma failed_bypass_stays_in_tunnel_witness :
  de_result (ShouldBypass Dns.empty (fun _ => Some [bs "10.1.0.7"]) (20 * minute) (bs "host.example:443")
    (steps toy_later (RecordBypassFailure (5 * minute) (bs "10.1.0.7:80") toy_manager, None)).1).1 = false.
Proof.
  apply (failed_bypass_stays_in_tunnel toy_manager None (bs "10.1.0.7:80") (bs "host.example:443") (Net.v4_prefix ++ [10; 1; 0; 7])
    (5 * minute) (20 * minute) toy_later Dns.empty (fun _ => Some [bs "10.1.0.7"]));
    [vm_compute; reflexivity|vm_compute; reflexivity|vm_compute; reflexivity|unfold failure_ttl, minute, second; lia|].
  repeat first [apply Forall_cons_2|apply Forall_nil_2]; cbn [op_at]; unfold failure_ttl, minute, second; lia.
Defined.

End Bypass.

(** ** Is the tunnel dead? (watchdog.go) *)
Module Monitor.

(** A zero time is [None]; [lastSentAt] of an entry that only received is zero. *)
Record connActivity := MkActivity { ca_firstSentAt : option Z; ca_lastSentAt : option Z; ca_lastGoodRecvAt : option Z }.
Record TunnelTrafficMonitor := MkMonitor { tm_conns : gmap gostring connActivity; tm_lastAnyRecvAt : option Z }.

Definition tunnelStuckTimeout : Z := 10 * second.
Definition connActivityTTL : Z := 2 * minute.

Definition RecordAnyResponse (now : Z) (m : TunnelTrafficMonitor) : TunnelTrafficMonitor := MkMonitor (tm_conns m) (Some now).
Definition entryLocked (connID : gostring) (m : TunnelTrafficMonitor) : connActivity :=
  default (MkActivity None None None) (tm_conns m !! connID).

(** The state with the process-wide byte counters. *)
Record totals := MkTotals { totalBytesSent : Z; totalBytesRecv : Z }.
Definition int64 (z : Z) : Z := (z + 2 ^ 63) mod 2 ^ 64 - 2 ^ 63.

Definition RecordTunnelSent (now : Z) (connID : gostring) (n : Z) (x : TunnelTrafficMonitor * totals) : TunnelTrafficMonitor * totals :=
  let '(m, t) := x in
  if decide (n = 0 \/ connID = []) then x
  else
    let c := entryLocked connID m in
    let first := match ca_firstSentAt c with Some f => Some f | None => Some now end in
    (MkMonitor (<[connID := MkActivity first (Some now) (ca_lastGoodRecvAt c)]> (tm_conns m)) (tm_lastAnyRecvAt m),
     MkTotals (int64 (totalBytesSent t + n)) (totalBytesRecv t)).
Definition RecordTunnelRecv (now : Z) (connID : gostring) (n : Z) (x : TunnelTrafficMonitor * totals) : TunnelTrafficMonitor * totals :=
  let '(m, t) := x in
  if decide (n = 0 \/ connID = []) then x
  else
    let c := entryLocked connID m in
    (MkMonitor (<[connID := MkActivity (ca_firstSentAt c) (ca_lastSentAt c) (Some now)]> (tm_conns m)) (tm_lastAnyRecvAt m),
     MkTotals (totalBytesSent t) (int64 (totalBytesRecv t + n))).
Definition Forget (connID : gostring) (m : TunnelTrafficMonitor) : TunnelTrafficMonitor :=
  if decide (connID = []) then m else MkMonitor (delete connID (tm_conns m)) (tm_lastAnyRecvAt m).
Definition Reset (m : TunnelTrafficMonitor) : TunnelTrafficMonitor := MkMonitor ∅ (tm_lastAnyRecvAt m).

(** [now.Sub(t) > d] for a possibly zero time: the zero time is more than any timeout ago. *)
Definition older (now d : Z) (t : option Z) : bool := match t with Some t => d <? now - t | None => true end.

(** The loop over the connections, in the order [l] the runtime visits them: the result and
    the stale entries dropped. *)
Fixpoint scan (now : Z) (l : list (gostring * connActivity)) (saw : bool) (dropped : list gostring) : bool * list gostring :=
  match l with
  | [] => (saw, dropped)
  | (id, c) :: l =>
      if older now connActivityTTL (ca_lastSentAt c) then scan now l saw (id :: dropped)
      else if older now tunnelStuckTimeout (ca_lastSentAt c) then scan now l saw dropped
      else
        match ca_lastGoodRecvAt c with
        | None => if older now tunnelStuckTimeout (ca_firstSentAt c) then scan now l true dropped else (false, dropped)
        | Some r => if now - r <=? tunnelStuckTimeout then (false, dropped) else scan now l true dropped
        end
  end.
Definition IsStuck (order : nat -> nat) (now : Z) (m : TunnelTrafficMonitor) : bool * TunnelTrafficMonitor :=
  if negb (older now tunnelStuckTimeout (tm_lastAnyRecvAt m)) then (false, m)
  else
    let '(stuck, dropped) := scan now (Rand.range_map order (tm_conns m)) false [] in
    (stuck, MkMonitor (foldr delete (tm_conns m) dropped) (tm_lastAnyRecvAt m)).

(** *** What the verdict means *)

Definition sent_recently (now : Z) (c : connActivity) : Prop := older now tunnelStuckTimeout (ca_lastSentAt c) = false.
Definition one_sided (now : Z) (c : connActivity) : Prop :=
  match ca_lastGoodRecvAt c with
  | Some r => tunnelStuckTimeout < now - r
  | None => older now tunnelStuckTimeout (ca_firstSentAt c) = true
  end.

Lemma older_ttl now c : older now connActivityTTL c = true -> older now tunnelStuckTimeout c = true.
Proof. destruct c as [t|]; [|done]. cbn. rewrite !Z.ltb_lt. unfold connActivityTTL, tunnelStuckTimeout, minute, second. lia. Qed.

Lemma scan_spec now l saw dropped :
  (scan now l saw dropped).1 = true <->
  (saw = true \/ exists id c, (id, c) ∈ l /\ sent_recently now c) /\ (forall id c, (id, c) ∈ l -> sent_recently now c -> one_sided now c).
Proof.
  revert saw dropped. induction l as [|[id c] l IH]; intros saw dropped; cbn [scan].
  { split; [|by intros [[?|(?&?&?%not_elem_of_nil&?)] _]]. cbn. intros ->. split; [by left|]. intros ?? H%not_elem_of_nil. done. }
  assert (forall saw', (sent_recently now c -> one_sided now c) -> ((saw' = true) <-> (saw = true \/ sent_recently now c)) ->
    ((saw' = true \/ exists id c, (id, c) ∈ l /\ sent_recently now c) /\ (forall id c, (id, c) ∈ l -> sent_recently now c -> one_sided now c)) <->
    ((saw = true \/ exists id' c', (id', c') ∈ (id, c) :: l /\ sent_recently now c') /\
     (forall id' c', (id', c') ∈ (id, c) :: l -> sent_recently now c' -> one_sided now c'))) as Hskip.
  { intros saw' Hc Hs. setoid_rewrite elem_of_cons. split; intros [H1 H2]; (split; [|]).
    - destruct H1 as [[?|?]%Hs|(id' & c' & ? & ?)]; [by left|right; exists id, c; auto|right; exists id', c'; auto].
    - intros id' c' [[= -> ->]|Hin]; [done|by eapply H2].
    - destruct H1 as [?|(id' & c' & [[= -> ->]|?] & ?)]; [left; apply Hs; auto|left; apply Hs; auto|right; by exists id', c'].
    - intros id' c' Hin. apply (H2 id' c'). auto. }
  assert (sent_recently now c -> ~ one_sided now c -> ~ ((saw = true \/ exists id' c', (id', c') ∈ (id, c) :: l /\ sent_recently now c') /\
     (forall id' c', (id', c') ∈ (id, c) :: l -> sent_recently now c' -> one_sided now c'))) as Hstop.
  { intros H1 H2 [_ H3]. apply H2, (H3 id c); [apply list_elem_of_here|done]. }
  destruct (older now connActivityTTL (ca_lastSentAt c)) eqn:E1.
  { rewrite IH. apply older_ttl in E1. apply Hskip; unfold sent_recently; rewrite E1; [done|]. by split; [left|intros [?|?]]. }
  destruct (older now tunnelStuckTimeout (ca_lastSentAt c)) eqn:E2.
  { rewrite IH. apply Hskip; unfold sent_recently; rewrite E2; [done|]. by split; [left|intros [?|?]]. }
  assert (sent_recently now c) as Hr by done. unfold one_sided in *. destruct (ca_lastGoodRecvAt c) as [r|].
  - destruct (Z.leb_spec (now - r) tunnelStuckTimeout); [|rewrite IH; apply Hskip; [done|]; by split; [right|]].
    split; [done|]. intros H'. exfalso. apply Hstop; [done|lia|done].
  - destruct (older now tunnelStuckTimeout (ca_firstSentAt c)) eqn:E3; [rewrite IH; apply Hskip; [done|]; by split; [right|]|].
    split; [done|]. intros H'. exfalso. by apply Hstop.
Qed.

(** The watchdog declares the tunnel dead exactly when no control node has answered within
    ten seconds, some connection sent data within ten seconds, and every connection that did is
    one-sided: the iteration order of the map, the early returns and the stale entries deleted
    on the way do not matter, so one healthy connection is always enough to keep the process. *)
Theorem stuck_means_all_one_sided (order : nat -> nat) (now : Z) (m : TunnelTrafficMonitor) :
  (IsStuck order now m).1 = true <->
  (forall t, tm_lastAnyRecvAt m = Some t -> tunnelStuckTimeout < now - t)
  /\ (exists id c, tm_conns m !! id = Some c /\ sent_recently now c)
  /\ (forall id c, tm_conns m !! id = Some c -> sent_recently now c -> one_sided now c).
Proof.
  unfold IsStuck. destruct (older now tunnelStuckTimeout (tm_lastAnyRecvAt m)) eqn:E; cbn [negb].
  - assert (forall t, tm_lastAnyRecvAt m = Some t -> tunnelStuckTimeout < now - t) as Ho.
    { intros t Ht. rewrite Ht in E. cbn in E. by apply Z.ltb_lt. }
    pose proof (scan_spec now (Rand.range_map order (tm_conns m)) false []) as Hs. destruct (scan _ _ _ _) as [b d]. cbn [fst] in *.
    rewrite Hs. setoid_rewrite Rand.elem_of_range_map. split.
    + intros [[?|H1] H2]; [done|]. by split_and!.
    + intros (_ & H1 & H2). split; [by right|done].
  - split; [done|]. intros (H & _). destruct (tm_lastAnyRecvAt m) as [t|]; [|done]. specialize (H t eq_refl). cbn in E. apply Z.ltb_ge in E. lia.
Qed.

End Monitor.
