(* ===== verification/ClientSocks.v ===== *)
(** * snc/core: the SOCKS5 server (socks5.go, udp_assoc.go)

    The handshake and the request of a SOCKS5 client, the route a CONNECT takes around or
    through the tunnel, and the UDP associations: the datagram header, the choice between a
    direct send and the tunnel, the fallback from the first to the second, the dialer pinned
    to a destination and its circuit breaker. What the peers send, the results of dials and
    of tunnel requests, name lookups, random draws and the clock are inputs. *)

From stdpp Require Import base list gmap strings fin_maps.
From Stdlib Require Import ZArith Lia.
From S2P Require Import Prelude GoLib GoFloat ClientDialer ClientCidr ClientRoute.

(** ** CONNECT (socks5.go) *)
Module Socks.
Import Bypass.

Definition socks5Version : Z := 0x05.
Definition authNone : Z := 0x00.
Definition authNoAccept : Z := 0xFF.
Definition cmdConnect : Z := 0x01.
Definition cmdUDPAssoc : Z := 0x03.
Definition atypIPv4 : Z := 0x01.
Definition atypDomain : Z := 0x03.
Definition atypIPv6 : Z := 0x04.
Definition repSuccess : Z := 0x00.
Definition repCmdNotSupp : Z := 0x07.
Definition repGenFail : Z := 0x01.
Definition socks5PerIPLimit : nat := 500.

(** *** The slots of a source address *)

(** A semaphore per source address: the slots taken. *)
Record connLimiter := MkLimiter { sems : gmap gostring nat; perIP : nat }.
Definition newConnLimiter (n : nat) : connLimiter := MkLimiter ∅ n.
(** [None]: the caller waits for a slot. *)
Definition acquire (ip : gostring) (l : connLimiter) : option connLimiter :=
  let taken := default 0%nat (sems l !! ip) in
  if (taken <? perIP l)%nat then Some (MkLimiter (<[ip := S taken]> (sems l)) (perIP l)) else None.
Definition release (ip : gostring) (l : connLimiter) : option connLimiter :=
  match sems l !! ip with
  | Some (S taken) => Some (MkLimiter (<[ip := taken]> (sems l)) (perIP l))
  | Some O => None
  | None => Some l
  end.
Definition remoteHost (addr : gostring) : gostring := host_of addr.

(** *** The request *)

(** [io.ReadFull] of [n] bytes of what the client sends. *)
Definition ReadFull (n : nat) (s : bytes) : option (bytes * bytes) :=
  if (n <=? length s)%nat then Some (take n s, drop n s) else None.

Definition sendSOCKS5Reply (rep : Z) : bytes := [socks5Version; rep; 0; atypIPv4; 0; 0; 0; 0; 0; 0].

(** What [handle] does with a connection before it hands it on: the bytes written, and the
    handler with its target, if one is reached. *)
Inductive dispatch := Closed | Connect (target : gostring) | UDPAssoc (target : gostring).

(** The address of a request: [None] when the client sends too little, [inl] for an address
    type that is not known. *)
Definition read_target (atyp : Z) (s : bytes) : option (unit + gostring * bytes) :=
  if atyp =? atypIPv4 then '(a, s) ← ReadFull 4 s; Some (inr (Net.IP_String a, s))
  else if atyp =? atypIPv6 then '(a, s) ← ReadFull 16 s; Some (inr (bs "[" ++ Net.IP_String a ++ bs "]", s))
  else if atyp =? atypDomain then
    '(l, s) ← ReadFull 1 s; '(d, s) ← ReadFull (Z.to_nat (default 0 (head l))) s; Some (inr (d, s))
  else Some (inl tt).

Definition handle_request (s : bytes) : bytes * dispatch :=
  match ReadFull 4 s with
  | Some ([ver; cmd; _; atyp], s) =>
      if negb (ver =? socks5Version) then ([], Closed)
      else
        match read_target atyp s with
        | None => ([], Closed)
        | Some (inl _) => (sendSOCKS5Reply repGenFail, Closed)
        | Some (inr (target, s)) =>
            match ReadFull 2 s with
            | None => ([], Closed)
            | Some (p, _) =>
                let target := target ++ bs ":" ++ Strconv.itoa (be_get p) in
                if cmd =? cmdConnect then ([], Connect target)
                else if cmd =? cmdUDPAssoc then ([], UDPAssoc target)
                else (sendSOCKS5Reply repCmdNotSupp, Closed)
            end
        end
  | _ => ([], Closed)
  end.

Definition handle (s : bytes) : bytes * dispatch :=
  match ReadFull 2 s with
  | Some ([ver; nmethods], s) =>
      if negb (ver =? socks5Version) then ([], Closed)
      else
        match ReadFull (Z.to_nat nmethods) s with
        | None => ([], Closed)
        | Some (methods, s) =>
            if existsb (fun m => m =? authNone) methods then
              let '(out, d) := handle_request s in ([socks5Version; authNone] ++ out, d)
            else ([socks5Version; authNoAccept], Closed)
        end
  | _ => ([], Closed)
  end.

(** *** The route *)

(** [IP.IsPrivate] *)
Definition IsPrivate (ip : bytes) : bool :=
  match Net.to4 ip with
  | Some [a; b; _; _] => (a =? 10) || ((a =? 172) && (Z.land b 0xf0 =? 16)) || ((a =? 192) && (b =? 168))
  | Some _ => false
  | None => (length ip =? 16)%nat && match ip with a :: _ => Z.land a 0xfe =? 0xfc | [] => false end
  end.
Definition isLANAddress (target : gostring) : bool :=
  match Net.ParseIP (host_of target) with
  | Some ip => Net.IsLoopback ip || Net.IsLinkLocalUnicast ip || IsPrivate ip
  | None => false
  end.

(** The server; [dialFn] says that a dial function replaces the pool. *)
Record SOCKS5Server := MkServer {
  ss_pool : option Pool.DialerPool;
  ss_bypass : option BypassManager;
  ss_limiter : bool;
  DisableUDP : bool;
  BlockQUIC : bool;
  WildcatDNS : bool;
  WildcatMode : bool;
  WildcatDirectHosts : list gostring;
  ss_dialFn : bool }.

(** The inputs of one CONNECT: the DNS cache and lookups, the clock, the results of the direct
    dial, of the dial function and of [Dial] on a dialer (which changes the dialer's counters),
    and the draws of the two picks. *)
Record connect_env := MkConnectEnv {
  ce_dns : Dns.dnsCache;
  ce_lookup : gostring -> option (list gostring);
  ce_now : Z;
  ce_direct : bool;
  ce_fn : bool;
  ce_dial : nat -> Pool.heap -> bool * Pool.heap;
  ce_pick : Pool.pick_env;
  ce_pick_now : Z;
  ce_pick_later : Z;
  ce_again : Pool.pick_env;
  ce_pin_now : Z;
  ce_fail_now : Z }.

Inductive via := Refused | Direct | ViaFn | ViaDialer (d : nat).
Record routed := MkRouted { ro_via : via; ro_server : SOCKS5Server; ro_heap : Pool.heap }.
Definition reply_of (v : via) : bytes := sendSOCKS5Reply (match v with Refused => repGenFail | _ => repSuccess end).

Definition set_bypass (b : option BypassManager) (s : SOCKS5Server) : SOCKS5Server :=
  MkServer (ss_pool s) b (ss_limiter s) (DisableUDP s) (BlockQUIC s) (WildcatDNS s) (WildcatMode s) (WildcatDirectHosts s) (ss_dialFn s).
Definition set_pool (p : Pool.DialerPool) (s : SOCKS5Server) : SOCKS5Server :=
  MkServer (Some p) (ss_bypass s) (ss_limiter s) (DisableUDP s) (BlockQUIC s) (WildcatDNS s) (WildcatMode s) (WildcatDirectHosts s) (ss_dialFn s).

Section connect.
Context {U : Unicode}.

Definition isWildcatDirectHost (e : connect_env) (target : gostring) (s : SOCKS5Server) : bool :=
  let host := host_of target in
  let matches h := existsb (fun d => bool_decide (Strings.ToLower (Strings.TrimSuffix h (bs ".")) = d)) (WildcatDirectHosts s) in
  if (length (WildcatDirectHosts s) =? 0)%nat then false
  else match Net.ParseIP host with
       | None => matches host
       | Some _ => let fqdn := Dns.Get (ce_now e) host (ce_dns e) in if decide (fqdn = []) then false else matches fqdn
       end.

(** [s.bypass.ShouldBypass] is not called in WildCat mode. *)
Definition general_bypass (e : connect_env) (target : gostring) (s : SOCKS5Server) : bool * SOCKS5Server :=
  match WildcatMode s, ss_bypass s with
  | false, Some b =>
      let '(d, b) := ShouldBypass (ce_dns e) (ce_lookup e) (ce_now e) target b in (de_result d, set_bypass (Some b) s)
  | _, _ => (false, s)
  end.

(** The dial through the tunnel: the pinned dialer first, then once another. The first
    component is false where [handleConnect] returns before it records a failed bypass. *)
Definition dial_tunnel (e : connect_env) (target : gostring) (s : SOCKS5Server) (h : Pool.heap) : bool * via * SOCKS5Server * Pool.heap :=
  if ss_dialFn s then (true, if ce_fn e then ViaFn else Refused, s, h)
  else
    match ss_pool s with
    | None => (false, Refused, s, h)
    | Some p =>
        let host := remoteHost target in
        let '(o, p, h) := Pool.PickForHost (ce_pick e) (ce_pick_now e) (ce_pick_later e) host p h in
        match o with
        | None => (false, Refused, set_pool p s, h)
        | Some d =>
            let '(ok, h) := ce_dial e d h in
            if ok : bool then (true, ViaDialer d, set_pool p s, h)
            else
              let '(o, h) := Pool.PickExcluding (ce_again e) d p h in
              match o with
              | None => (true, Refused, set_pool p s, h)
              | Some d2 =>
                  let '(ok, h) := ce_dial e d2 h in
                  if ok : bool then (true, ViaDialer d2, set_pool (Pool.SetHostAffinity (ce_pin_now e) host (Some d2) p) s, h)
                  else (true, Refused, set_pool p s, h)
              end
        end
    end.

Definition via_tunnel (e : connect_env) (target : gostring) (bypassFailed : bool) (s : SOCKS5Server) (h : Pool.heap) : routed :=
  let '(tried, v, s, h) := dial_tunnel e target s h in
  MkRouted v (if tried && bypassFailed then set_bypass (RecordBypassFailure (ce_fail_now e) target <$> ss_bypass s) s else s) h.

Definition handleConnect (e : connect_env) (target : gostring) (s : SOCKS5Server) (h : Pool.heap) : routed :=
  let '(generalBypass, s) := general_bypass e target s in
  let wildcatDirect := WildcatMode s && isWildcatDirectHost e target s in
  let lan := isLANAddress target in
  if negb (ss_dialFn s) && (if ss_bypass s is Some _ then true else false) && (generalBypass || wildcatDirect || lan) then
    if ce_direct e then MkRouted Direct s h
    else if lan then MkRouted Refused s h
    else via_tunnel e target true s h
  else via_tunnel e target false s h.

(** *** Properties of the route *)

Lemma contains_pooled d p : Pool.containsUnlocked d p = true -> Pool.in_pool d p.
Proof.
  unfold Pool.containsUnlocked. destruct (List.find _ _) as [x|] eqn:E; [|done]. intros _.
  apply find_some in E as [Hin Hd%bool_decide_eq_true]. apply list_elem_of_fmap. exists x. split; [done|]. by apply list_elem_of_In.
Qed.

Lemma pick_host_pooled e now later host p h d :
  (Pool.PickForHost e now later host p h).1.1 = Some d -> Pool.in_pool d p /\ Pool.slots (Pool.PickForHost e now later host p h).1.2 = Pool.slots p.
Proof.
  pose proof (Pool.pickLocked_member e None p h) as H. unfold Pool.PickForHost, Pool.Pick.
  destruct (Pool.pickLocked _ _ _ _) as [r h']. cbn [fst] in *.
  assert (r = Some d -> Pool.in_pool d p) as Hr by (intros ->; by eapply Pool.member_in_pool, H).
  assert (Pool.slots (match r with Some d => Pool.setHostAffinityLocked later host d p | None => p end) = Pool.slots p) as Hs by by destruct r.
  case_decide; [cbn; auto|]. destruct (Pool.affinity p !! host) as [a|]; [|cbn; auto].
  destruct (_ && _) eqn:E; [|cbn; auto]. cbn. intros [= <-]. split; [|done]. apply andb_true_iff in E as [_ E]. by apply contains_pooled.
Qed.

(** What a connection that has to take the tunnel may come to. A refusal needs its reason: the
    dial function failed, there is no pool, the pick gives no dialer, or the dialer picked failed
    and the second pick gave none or one that failed too. *)
Inductive tunnelled (e : connect_env) (target : gostring) (s : SOCKS5Server) (h : Pool.heap) : via -> Prop :=
| tn_fn : ss_dialFn s = true -> ce_fn e = true -> tunnelled e target s h ViaFn
| tn_fn_failed : ss_dialFn s = true -> ce_fn e = false -> tunnelled e target s h Refused
| tn_no_pool : ss_dialFn s = false -> ss_pool s = None -> tunnelled e target s h Refused
| tn_no_dialer p : ss_dialFn s = false -> ss_pool s = Some p ->
    (Pool.PickForHost (ce_pick e) (ce_pick_now e) (ce_pick_later e) (remoteHost target) p h).1.1 = None ->
    tunnelled e target s h Refused
| tn_dialled p d p' h1 v : ss_dialFn s = false -> ss_pool s = Some p -> Pool.in_pool d p ->
    Pool.PickForHost (ce_pick e) (ce_pick_now e) (ce_pick_later e) (remoteHost target) p h = (Some d, p', h1) ->
    (if (ce_dial e d h1).1 then v = ViaDialer d
     else let '(o, h3) := Pool.PickExcluding (ce_again e) d p' (ce_dial e d h1).2 in
          match o with
          | Some d2 => d2 <> d /\ Pool.in_pool d2 p /\ v = if (ce_dial e d2 h3).1 then ViaDialer d2 else Refused
          | None => v = Refused
          end) ->
    tunnelled e target s h v.

Lemma dial_tunnel_tunnelled e target s h tried v s' h' :
  dial_tunnel e target s h = (tried, v, s', h') -> tunnelled e target s h v.
Proof.
  unfold dial_tunnel. destruct (ss_dialFn s) eqn:Ef; [destruct (ce_fn e) eqn:Efn; intros [= <- <- <- <-]; by constructor|].
  destruct (ss_pool s) as [p|] eqn:Ep; [|intros [= <- <- <- <-]; by apply tn_no_pool].
  destruct (Pool.PickForHost _ _ _ _ _ _) as [[o p'] h1] eqn:Ek. destruct o as [d|].
  2: { intros [= <- <- <- <-]. apply (tn_no_dialer _ _ _ _ p); [done..|]. by rewrite Ek. }
  pose proof (pick_host_pooled (ce_pick e) (ce_pick_now e) (ce_pick_later e) (remoteHost target) p h d) as Hd. rewrite Ek in Hd.
  cbn [fst snd] in Hd. destruct (Hd eq_refl) as [Hin Hsl]. intros E. apply (tn_dialled _ _ _ _ p d p' h1); [done..|].
  destruct (ce_dial e d h1) as [[|] h2]; [by injection E as <- <- <- <-|]. cbn [fst snd].
  destruct (Pool.PickExcluding _ _ _ _) as [o h3] eqn:Ex. destruct o as [d2|]; [|by injection E as <- <- <- <-].
  pose proof (Pool.pickLocked_member (ce_again e) (Some d) p' h2 d2) as Hm. unfold Pool.PickExcluding in Ex. rewrite Ex in Hm.
  destruct (Pool.member_in_pool _ _ _ (Hm eq_refl)) as [Hi Hne]. split; [naive_solver|].
  split; [unfold Pool.in_pool in *; by rewrite <- Hsl|]. by destruct (ce_dial e d2 h3) as [[|] h4]; injection E as <- <- <- <-.
Qed.

Lemma general_bypass_frame e target s b s' : general_bypass e target s = (b, s') ->
  ss_dialFn s' = ss_dialFn s /\ WildcatMode s' = WildcatMode s /\ WildcatDirectHosts s' = WildcatDirectHosts s /\ ss_pool s' = ss_pool s
  /\ (ss_bypass s' = None <-> ss_bypass s = None)
  /\ (b = true -> WildcatMode s = false /\ exists m, ss_bypass s = Some m
        /\ de_result (ShouldBypass (ce_dns e) (ce_lookup e) (ce_now e) target m).1 = true).
Proof.
  unfold general_bypass. destruct (WildcatMode s) eqn:Ew; [intros [= <- <-]; by split_and!|].
  destruct (ss_bypass s) as [m|] eqn:Eb; [|intros [= <- <-]; by split_and!].
  destruct (ShouldBypass _ _ _ _ _) as [d m'] eqn:Es. intros [= <- <-]. split_and!; try done.
  intros Hd. split; [done|]. exists m. by rewrite Es.
Qed.

(** The destinations that are dialled around the tunnel. *)
Definition around (e : connect_env) (target : gostring) (s : SOCKS5Server) : Prop :=
  ss_dialFn s = false /\ exists m, ss_bypass s = Some m /\
    (isLANAddress target = true \/ WildcatMode s = true /\ isWildcatDirectHost e target s = true
     \/ WildcatMode s = false /\ de_result (ShouldBypass (ce_dns e) (ce_lookup e) (ce_now e) target m).1 = true).

Lemma tunnelled_frame e target s s' h v : ss_dialFn s' = ss_dialFn s -> ss_pool s' = ss_pool s ->
  tunnelled e target s' h v -> tunnelled e target s h v.
Proof.
  intros E1 E2 Ht. destruct Ht as [| | |p|p d p' h1 v]; rewrite ?E1, ?E2 in *;
    [by apply tn_fn | by apply tn_fn_failed | by apply tn_no_pool | by apply (tn_no_dialer _ _ _ _ p) | by apply (tn_dialled _ _ _ _ p d p' h1)].
Qed.

Lemma via_tunnel_tunnelled e target bf s s' h : ss_dialFn s' = ss_dialFn s -> ss_pool s' = ss_pool s ->
  tunnelled e target s h (ro_via (via_tunnel e target bf s' h)).
Proof.
  intros E1 E2. unfold via_tunnel. destruct (dial_tunnel e target s' h) as [[[tr v] s3] h3] eqn:Ed. cbn [ro_via].
  eapply tunnelled_frame; [exact E1|exact E2|by eapply dial_tunnel_tunnelled].
Qed.

(** The test of [handleConnect] is [around]. *)
Lemma around_test e target s b s1 : general_bypass e target s = (b, s1) ->
  negb (ss_dialFn s1) && (if ss_bypass s1 is Some _ then true else false)
    && (b || WildcatMode s1 && isWildcatDirectHost e target s1 || isLANAddress target) = true <-> around e target s.
Proof.
  intros Eg. destruct (general_bypass_frame _ _ _ _ _ Eg) as (Ef & Ew & El & Ep & Eb & Hb). rewrite Ef, Ew.
  assert (isWildcatDirectHost e target s1 = isWildcatDirectHost e target s) as -> by (unfold isWildcatDirectHost; by rewrite El).
  unfold around. rewrite !andb_true_iff, !orb_true_iff, negb_true_iff, andb_true_iff. destruct (ss_bypass s) as [m|] eqn:Em.
  - destruct (ss_bypass s1) as [m1|] eqn:Em1; [|by pose proof (proj1 Eb eq_refl)].
    assert (b = true <-> WildcatMode s = false /\ de_result (ShouldBypass (ce_dns e) (ce_lookup e) (ce_now e) target m).1 = true) as Hbt.
    { split; [intros Hbb; destruct (Hb Hbb) as (? & m' & [= <-] & ?); done|]. intros [Hw Hd]. unfold general_bypass in Eg.
      rewrite Hw, Em in Eg. destruct (ShouldBypass _ _ _ _ _) as [d m']. by injection Eg as <- _. }
    rewrite Hbt. split; [intros [[H1 _] H2]; split; [done|]; exists m; tauto|]. intros [H1 (m' & [= <-] & H2)]. tauto.
  - destruct (ss_bypass s1) as [m1|] eqn:Em1; [by pose proof (proj2 Eb eq_refl)|]. split; [intros [[_ H] _]; done|].
    by intros [_ (m & [=] & _)].
Qed.


(** When the dialer a host is pinned to fails to connect and another one succeeds, the
    connection goes through the other one and the host is pinned to it: until the pin expires,
    every later pick for the host returns it, whatever the random draws. *)
Theorem failed_dialer_is_replaced e target bf s p h d d2 :
  ss_dialFn s = false -> ss_pool s = Some p -> Pool.all_standby p -> host_of target <> [] ->
  (Pool.PickForHost (ce_pick e) (ce_pick_now e) (ce_pick_later e) (host_of target) p h).1.1 = Some d ->
  ro_via (via_tunnel e target bf s h) = ViaDialer d2 -> d2 <> d ->
  exists p', ss_pool (ro_server (via_tunnel e target bf s h)) = Some p' /\
    forall e' now later h', now - ce_pin_now e < Pool.hostAffinityTTL ->
      (Pool.PickForHost e' now later (host_of target) p' h').1.1 = Some d2.
Proof.
  intros Hfn Hpool Hall Hhost Hpick Hvia Hne. unfold via_tunnel, dial_tunnel in *. rewrite Hfn, Hpool in *. unfold remoteHost in *. cbv zeta in *.
  destruct (pick_host_pooled _ _ _ _ _ _ _ Hpick) as [_ Hsl].
  destruct (Pool.PickForHost _ _ _ _ _ _) as [[o p1] h1]. cbn [fst snd] in *. subst o.
  destruct (ce_dial e d h1) as [[|] h2]; [cbn in Hvia; congruence|].
  destruct (Pool.PickExcluding _ _ _ _) as [o2 h3] eqn:Ex. destruct o2 as [d3|]; [|done].
  destruct (ce_dial e d3 h3) as [[|] h4]; [|done]. cbn in Hvia. injection Hvia as ->.
  exists (Pool.setHostAffinityLocked (ce_pin_now e) (host_of target) d2 p1). split.
  { cbn [ro_server andb]. unfold Pool.SetHostAffinity. rewrite decide_False by done. by destruct bf. }
  intros e' now later h' Hnow. unfold Pool.PickForHost. rewrite decide_False by done.
  cbn [Pool.setHostAffinityLocked Pool.affinity]. rewrite lookup_insert_eq. cbn [Pool.ha_at Pool.ha_dialer].
  rewrite (proj2 (Z.ltb_lt _ _) Hnow). cbn [andb].
  assert (Pool.containsUnlocked d2 (Pool.setHostAffinityLocked (ce_pin_now e) (host_of target) d2 p1) = true) as ->; [|done].
  unfold Pool.PickExcluding in Ex. pose proof (Pool.pickLocked_member (ce_again e) (Some d) p1 h2 d2) as Hm. rewrite Ex in Hm.
  destruct (Pool.member_in_pool _ _ _ (Hm eq_refl)) as [Hin _].
  apply (Pool.contains_in_pool d2 (Pool.setHostAffinityLocked (ce_pin_now e) (host_of target) d2 p1)); [|done].
  unfold Pool.all_standby in *. cbn. by rewrite Hsl.
Qed.

End connect.

(** *** A client's request *)

Inductive address := AddrV4 (a : bytes) | AddrV6 (a : bytes) | AddrName (n : bytes).
Definition address_ok (x : address) : Prop :=
  match x with AddrV4 a => length a = 4%nat | AddrV6 a => length a = 16%nat | AddrName n => (length n < 256)%nat end.
Definition encode_address (x : address) : bytes :=
  match x with
  | AddrV4 a => atypIPv4 :: a
  | AddrV6 a => atypIPv6 :: a
  | AddrName n => atypDomain :: lenZ n :: n
  end.
Definition print_address (x : address) : gostring :=
  match x with AddrV4 a => Net.IP_String a | AddrV6 a => bs "[" ++ Net.IP_String a ++ bs "]" | AddrName n => n end.
Definition encode_request (methods : bytes) (cmd : Z) (x : address) (port : Z) : bytes :=
  [socks5Version; lenZ methods] ++ methods ++ [socks5Version; cmd; 0] ++ encode_address x ++ be_put 2 port.

Lemma ReadFull_app n a s : length a = n -> ReadFull n (a ++ s) = Some (a, s).
Proof.
  intros <-. unfold ReadFull. rewrite length_app, (proj2 (Nat.leb_le _ _)) by lia. by rewrite take_app_length, drop_app_length.
Qed.
Lemma ReadFull_short n s : (length s < n)%nat -> ReadFull n s = None.
Proof. intros H. unfold ReadFull. by rewrite (proj2 (Nat.leb_gt _ _)) by lia. Qed.

Lemma read_target_encode x s : address_ok x -> exists atyp rest, encode_address x = atyp :: rest
  /\ read_target atyp (rest ++ s) = Some (inr (print_address x, s)).
Proof.
  intros Hx. destruct x as [a|a|n]; cbn [encode_address]; eexists _, _; (split; [reflexivity|]); unfold read_target; cbn [Z.eqb Pos.eqb atypIPv4 atypIPv6 atypDomain].
  - by rewrite ReadFull_app by done.
  - by rewrite ReadFull_app by done.
  - cbn [app]. change (lenZ n :: n ++ s) with ([lenZ n] ++ (n ++ s)). rewrite ReadFull_app by done. cbn [mbind option_bind head default].
    by rewrite ReadFull_app by (cbn; lia).
Qed.

(** A well-formed SOCKS5 exchange that offers no-authentication is answered with that
    method and handed, for CONNECT and UDP ASSOCIATE, to the handler with the address and the
    port the client encoded; for any other command it gets the command-not-supported reply. *)
Theorem socks_request_roundtrip methods cmd x port extra :
  authNone ∈ methods -> (length methods < 256)%nat -> address_ok x -> 0 <= port < 65536 ->
  let target := print_address x ++ bs ":" ++ Strconv.itoa port in
  handle (encode_request methods cmd x port ++ extra) =
    if cmd =? cmdConnect then ([socks5Version; authNone], Connect target)
    else if cmd =? cmdUDPAssoc then ([socks5Version; authNone], UDPAssoc target)
    else ([socks5Version; authNone] ++ sendSOCKS5Reply repCmdNotSupp, Closed).
Proof.
  intros Hm Hl Hx Hp target. destruct (read_target_encode x (be_put 2 port ++ extra) Hx) as (atyp & rest & Er & Hr).
  assert (encode_request methods cmd x port ++ extra =
    [socks5Version; lenZ methods] ++ methods ++ [socks5Version; cmd; 0; atyp] ++ rest ++ be_put 2 port ++ extra) as ->.
  { unfold encode_request. rewrite Er, <- !app_assoc. reflexivity. }
  assert (existsb (fun m => m =? authNone) methods = true) as Ha.
  { apply existsb_exists. exists authNone. split; [by apply list_elem_of_In|done]. }
  unfold handle. rewrite ReadFull_app by done. cbv beta iota. rewrite (Z.eqb_refl socks5Version). cbn [negb].
  rewrite ReadFull_app by (rewrite Nat2Z.id; done). rewrite Ha.
  unfold handle_request. rewrite ReadFull_app by done. cbv beta iota. rewrite (Z.eqb_refl socks5Version). cbn [negb]. rewrite Hr.
  rewrite ReadFull_app by apply length_be_put. rewrite be_get_put, Z.mod_small by lia. fold target.
  by destruct (cmd =? cmdConnect), (cmd =? cmdUDPAssoc).
Qed.

(** Concrete servers for the witnesses. *)
Definition toy_server : SOCKS5Server :=
  MkServer (Some (Pool.NewDialerPool [7; 8]%nat)) None true false false false false [] false.
Definition toy_env : connect_env :=
  MkConnectEnv Dns.empty (fun _ => None) 0 false false (fun d h => (negb (d =? 8)%nat, h)) Pool.toy_pick 0 0 Pool.toy_pick 5 6.

Lemma failed_dialer_is_replaced_witness :
  exists p', ss_pool (ro_server (via_tunnel toy_env (bs "example.org:443") false toy_server Pool.toy_heap)) = Some p' /\
    forall e' now later h', now - 5 < Pool.hostAffinityTTL ->
      (Pool.PickForHost e' now later (host_of (bs "example.org:443")) p' h').1.1 = Some 7%nat.
Proof.
  apply (failed_dialer_is_replaced toy_env (bs "example.org:443") false toy_server (Pool.NewDialerPool [7; 8]%nat) Pool.toy_heap 8 7);
    [reflexivity|reflexivity|by repeat constructor|by vm_compute|vm_compute; reflexivity|vm_compute; reflexivity|lia].
Defined.

Lemma socks_request_roundtrip_witness :
  handle (encode_request [0; 2] cmdConnect (AddrV4 [10; 1; 0; 7]) 443 ++ [22; 3; 1])
    = ([5; 0], Connect (bs "10.1.0.7:443")).
Proof.
  rewrite (socks_request_roundtrip [0; 2] cmdConnect (AddrV4 [10; 1; 0; 7]) 443 [22; 3; 1]);
    [vm_compute; reflexivity|apply list_elem_of_here|cbn; lia|reflexivity|lia].
Defined.

End Socks.
