(* ===== verification/ClientUdp.v ===== *)
(** * snc/core: UDP associations of the SOCKS5 server (udp_assoc.go)

    The datagram header, the choice between a direct send and the tunnel, the fallback from
    the first to the second, the dialer pinned to a destination and its circuit breaker. The
    goroutines of a session (the relay loop, one sender and one drain per destination, the
    fallback probes) take turns on the session's lock: each critical section is one
    operation here, and a run is a list of them in any order. *)

From stdpp Require Import base list gmap strings fin_maps.
From Stdlib Require Import ZArith Lia.
From S2P Require Import Prelude GoLib GoFloat ClientDialer ClientCidr ClientRoute ClientSocks.

Module UdpAssoc.
Import Socks Bypass.

Definition socks5UDPFallbackSent : Z := 3.
Definition socks5UDPFallbackTimeout : Z := 3 * second.
Definition tunnelCBThreshold : Z := 5.
Definition tunnelCBCooldown : Z := 5 * second.
Definition tunnelWorkerQDepth : nat := 64.
Definition realtimePaceInterval : Z := 20 * millisecond.

(** net.UDPAddr without a zone. *)
Record UDPAddr := MkAddr { ua_ip : bytes; ua_port : Z }.
Definition addr_String (a : UDPAddr) : gostring := Net.UDPAddr_String (ua_ip a) (ua_port a).

(** ** The header of RFC 1928, section 7 *)

(** [lookup] is net.LookupHost; a name whose address does not parse gives a nil address. *)
Definition parseSOCKS5UDPHeader (lookup : gostring -> option (list gostring)) (pkt : bytes) : res (UDPAddr * bytes * Z) :=
  match pkt with
  | _ :: _ :: frag :: atyp :: rest =>
      '(ip, rest) ←
        (if atyp =? atypIPv4 then
           match ReadFull 4 rest with Some x => Ok x | None => Err "truncated IPv4" end
         else if atyp =? atypIPv6 then
           match ReadFull 16 rest with Some x => Ok x | None => Err "truncated IPv6" end
         else if atyp =? atypDomain then
           match rest with
           | [] => Err "truncated domain length"
           | dlen :: rest =>
               match ReadFull (Z.to_nat dlen) rest with
               | None => Err "truncated domain"
               | Some (host, rest) =>
                   match lookup host with
                   | Some (a :: _) => Ok (default [] (Net.ParseIP a), rest)
                   | _ => Err "resolve"
                   end
               end
           end
         else Err "unknown atyp");
      match ReadFull 2 rest with
      | None => Err "truncated port"
      | Some (p, payload) => Ok (MkAddr ip (be_get p), payload, frag)
      end
  | _ => Err "udp header too short"
  end.

(** [copy(hdr[4:20], src.IP.To16())]: what is missing stays zero. *)
Definition fill16 (ip : bytes) : bytes := take 16 (ip ++ replicate 16 0).
Definition buildSOCKS5UDPHeader (src : UDPAddr) (payload : bytes) : bytes :=
  match Net.to4 (ua_ip src) with
  | Some ip4 => [0; 0; 0; atypIPv4] ++ ip4 ++ be_put 2 (ua_port src) ++ payload
  | None => [0; 0; 0; atypIPv6] ++ fill16 (if (length (ua_ip src) =? 16)%nat then ua_ip src else []) ++ be_put 2 (ua_port src) ++ payload
  end.

(** ** State *)

(** Zero times are [None]; dialers are pointers into the heap. *)
Record dstStats := MkStats {
  sentCount : Z;
  recvCount : Z;
  firstSentAt : option Z;
  useTunnel : bool;
  tunnelErrStreak : Z;
  tunnelBlockedUntil : option Z;
  dialer : option nat }.
Definition newStats : dstStats := MkStats 0 0 None false 0 None None.

Record udpAssocSession := MkSession {
  tunnelOnly : bool;
  wildcatDNS : bool;
  blockQUIC : bool;
  realtimeDialer : option nat;
  stats : gmap gostring dstStats;
  clientUDPAddr : option UDPAddr;
  drainActive : gset gostring;
  tunnelWorkers : gset gostring }.

Definition newUDPAssocSession (bypass : bool) (wildcatDNS blockQUIC : bool) (realtime : option nat) : udpAssocSession :=
  MkSession (negb bypass) wildcatDNS blockQUIC realtime ∅ None ∅ ∅.

Definition set_stats (st : gmap gostring dstStats) (s : udpAssocSession) : udpAssocSession :=
  MkSession (tunnelOnly s) (wildcatDNS s) (blockQUIC s) (realtimeDialer s) st (clientUDPAddr s) (drainActive s) (tunnelWorkers s).
Definition set_client (a : UDPAddr) (s : udpAssocSession) : udpAssocSession :=
  MkSession (tunnelOnly s) (wildcatDNS s) (blockQUIC s) (realtimeDialer s) (stats s) (Some a) (drainActive s) (tunnelWorkers s).
Definition put (key : gostring) (st : dstStats) (s : udpAssocSession) : udpAssocSession := set_stats (<[key := st]> (stats s)) s.

(** ** What a session does *)
Inductive effect :=
  | SendDirect (dst : UDPAddr) (payload : bytes)
  | Enqueue (dst : UDPAddr) (payload : bytes)
  | StartWorker (dst : UDPAddr)
  | StartDrain (dst : UDPAddr)
  | StartCheck (key : gostring)
  | ToClient (client : UDPAddr) (pkt : bytes)
  | LearnDNS (pkt : bytes).

(** ** Outbound *)

(** [goSendViaTunnel]: nothing while the circuit is open. The queue send waits for room. *)
Definition goSendViaTunnel (now : Z) (dst : UDPAddr) (payload : bytes) (s : udpAssocSession) : udpAssocSession * list effect :=
  let key := addr_String dst in
  let blocked := match stats s !! key with
    | Some st => match tunnelBlockedUntil st with Some t => now <? t | None => false end
    | None => false
    end in
  if blocked then (s, [])
  else if decide (key ∈ tunnelWorkers s) then (s, [Enqueue dst payload])
  else (MkSession (tunnelOnly s) (wildcatDNS s) (blockQUIC s) (realtimeDialer s) (stats s) (clientUDPAddr s) (drainActive s)
          ({[key]} ∪ tunnelWorkers s), [StartWorker dst; Enqueue dst payload]).

Definition count_send (now : Z) (st : dstStats) : dstStats :=
  if useTunnel st then st
  else MkStats (sentCount st + 1) (recvCount st) (if sentCount st =? 0 then Some now else firstSentAt st) (useTunnel st)
         (tunnelErrStreak st) (tunnelBlockedUntil st) (dialer st).

(** [isBypass] is [s.bypass.ShouldBypass] on the destination, false without a manager. *)
Definition forwardOutbound (now : Z) (isBypass : gostring -> bool) (dst : UDPAddr) (payload : bytes) (s : udpAssocSession)
    : udpAssocSession * list effect :=
  match Net.to4 (ua_ip dst) with
  | None => (s, [])
  | Some _ =>
      if ua_port dst =? 53 then
        if wildcatDNS s && negb (tunnelOnly s) then (s, [SendDirect dst payload]) else goSendViaTunnel now dst payload s
      else
        let key := addr_String dst in
        let st := count_send now (default newStats (stats s !! key)) in
        let s := put key st s in
        let isBypassDst := isLANAddress key || isBypass key in
        if useTunnel st || tunnelOnly s || negb isBypassDst then goSendViaTunnel now dst payload s
        else (s, SendDirect dst payload :: (if sentCount st =? socks5UDPFallbackSent then [StartCheck key] else []))
  end.

(** [checkFallback], when it wakes up. *)
Definition checkFallback (key : gostring) (s : udpAssocSession) : udpAssocSession :=
  match stats s !! key with
  | None => s
  | Some st =>
      if useTunnel st || (0 <? recvCount st) then s
      else put key (MkStats (sentCount st) (recvCount st) (firstSentAt st) true (tunnelErrStreak st) (tunnelBlockedUntil st) (dialer st)) s
  end.

(** ** Inbound *)

Definition recordRecv (src : UDPAddr) (s : udpAssocSession) : udpAssocSession :=
  match stats s !! addr_String src with
  | None => s
  | Some st => put (addr_String src) (MkStats (sentCount st) (recvCount st + 1) (firstSentAt st) (useTunnel st) (tunnelErrStreak st)
                                        (tunnelBlockedUntil st) (dialer st)) s
  end.

(** One datagram of [relayLoop]. *)
Definition relay_datagram (now : Z) (lookup : gostring -> option (list gostring)) (isBypass : gostring -> bool) (src : UDPAddr)
    (data : bytes) (s : udpAssocSession) : udpAssocSession * list effect :=
  let inbound :=
    let s := recordRecv src s in
    let learned := if ua_port src =? 53 then [LearnDNS data] else [] in
    (s, learned ++ match clientUDPAddr s with Some c => [ToClient c (buildSOCKS5UDPHeader src data)] | None => [] end) in
  match parseSOCKS5UDPHeader lookup data with
  | Ok (dst, payload, frag) =>
      if frag =? 0 then
        if blockQUIC s && (ua_port dst =? 443) then (s, []) else forwardOutbound now isBypass dst payload (set_client src s)
      else inbound
  | _ => inbound
  end.

(** [deliverFrames]; the stop channel is not closed. *)
Definition deliverFrames (src : UDPAddr) (frames : list bytes) (s : udpAssocSession) : list effect :=
  match clientUDPAddr s with
  | None => []
  | Some c => mjoin ((fun f => (if ua_port src =? 53 then [LearnDNS f] else []) ++ [ToClient c (buildSOCKS5UDPHeader src f)]) <$> frames)
  end.

(** ** The pinned dialer *)

Definition set_pin (d : option nat) (st : dstStats) : dstStats :=
  MkStats (sentCount st) (recvCount st) (firstSentAt st) (useTunnel st) (tunnelErrStreak st) (tunnelBlockedUntil st) d.

(** The first critical section of [dialerFor]: the pin, unless it is the realtime dialer and
    its connection has [failed]. *)
Definition dialer_lookup (failed : bool) (key : gostring) (s : udpAssocSession) : option nat * udpAssocSession :=
  let st := default newStats (stats s !! key) in
  match dialer st with
  | Some d =>
      if bool_decide (Some d = realtimeDialer s) && failed then (None, put key (set_pin None st) s) else (Some d, put key st s)
  | None => (None, put key st s)
  end.
(** The second: the first of the racing callers wins. *)
Definition dialer_pin (picked : nat) (key : gostring) (s : udpAssocSession) : option nat * udpAssocSession :=
  let st := default newStats (stats s !! key) in
  match dialer st with
  | Some d => (Some d, s)
  | None => (Some picked, put key (set_pin (Some picked) st) s)
  end.
(** [picked] is the realtime dialer unless it has failed, else what the pool gives. *)
Definition choose (failed : bool) (pick : option nat) (s : udpAssocSession) : option nat :=
  match realtimeDialer s with Some d => if failed then pick else Some d | None => pick end.
Definition dialerFor (failed failed' : bool) (pick : option nat) (key : gostring) (s : udpAssocSession) : option nat * udpAssocSession :=
  match dialer_lookup failed key s with
  | (Some d, s) => (Some d, s)
  | (None, s) => match choose failed' pick s with Some d => dialer_pin d key s | None => (None, s) end
  end.

(** [sendViaTunnel]: [answer] is the result of PostUDPFrame on the dialer. *)
Definition startTunnelDrain (dst : UDPAddr) (s : udpAssocSession) : udpAssocSession * list effect :=
  let key := addr_String dst in
  if decide (key ∈ drainActive s) then (s, [])
  else (MkSession (tunnelOnly s) (wildcatDNS s) (blockQUIC s) (realtimeDialer s) (stats s) (clientUDPAddr s)
          ({[key]} ∪ drainActive s) (tunnelWorkers s), [StartDrain dst]).
Definition sendViaTunnel (failed failed' : bool) (pick : option nat) (answer : nat -> option (list bytes)) (dst : UDPAddr)
    (s : udpAssocSession) : bool * udpAssocSession * list effect :=
  match dialerFor failed failed' pick (addr_String dst) s with
  | (None, s) => (false, s, [])
  | (Some d, s) =>
      match answer d with
      | None => (false, s, [])
      | Some frames => let '(s', eff) := startTunnelDrain dst s in (true, s', deliverFrames dst frames s ++ eff)
      end
  end.

(** The pause before a send to the realtime dialer, and the breaker after one. *)
Definition pace (now : Z) (lastSend : option Z) (key : gostring) (s : udpAssocSession) : Z :=
  let isRealtime := match stats s !! key with
    | Some st => match dialer st with Some d => bool_decide (Some d = realtimeDialer s) | None => false end
    | None => false
    end in
  match lastSend with Some t => if isRealtime then Z.max 0 (realtimePaceInterval - (now - t)) else 0 | None => 0 end.
Definition worker_done (ok : bool) (now : Z) (key : gostring) (s : udpAssocSession) : udpAssocSession :=
  match stats s !! key with
  | None => s
  | Some st =>
      if ok then put key (MkStats (sentCount st) (recvCount st) (firstSentAt st) (useTunnel st) 0 (tunnelBlockedUntil st) (dialer st)) s
      else
        let streak := tunnelErrStreak st + 1 in
        if tunnelCBThreshold <=? streak
        then put key (MkStats (sentCount st) (recvCount st) (firstSentAt st) (useTunnel st) 0 (Some (now + tunnelCBCooldown)) None) s
        else put key (MkStats (sentCount st) (recvCount st) (firstSentAt st) (useTunnel st) streak (tunnelBlockedUntil st) (dialer st)) s
  end.

(** ** Runs *)

Inductive op :=
  | ORelay (now : Z) (lookup : gostring -> option (list gostring)) (isBypass : gostring -> bool) (src : UDPAddr) (data : bytes)
  | OCheck (key : gostring)
  | OLookup (failed : bool) (key : gostring)
  | OPin (picked : nat) (key : gostring)
  | ODone (ok : bool) (now : Z) (key : gostring)
  | ODrain (dst : UDPAddr).

Definition step (o : op) (s : udpAssocSession) : udpAssocSession * list effect :=
  match o with
  | ORelay now lookup isBypass src data => relay_datagram now lookup isBypass src data s
  | OCheck key => (checkFallback key s, [])
  | OLookup failed key => ((dialer_lookup failed key s).2, [])
  | OPin picked key => ((dialer_pin picked key s).2, [])
  | ODone ok now key => (worker_done ok now key s, [])
  | ODrain dst => startTunnelDrain dst s
  end.
Fixpoint steps (l : list op) (s : udpAssocSession) : udpAssocSession * list effect :=
  match l with
  | [] => (s, [])
  | o :: l => let '(s, e1) := step o s in let '(s, e2) := steps l s in (s, e1 ++ e2)
  end.

Definition stat (key : gostring) (s : udpAssocSession) : dstStats := default newStats (stats s !! key).

Lemma stat_put key key' st s : stat key (put key' st s) = if decide (key' = key) then st else stat key s.
Proof.
  unfold stat, put, set_stats. cbn. case_decide as H; [subst; by rewrite lookup_insert_eq|by rewrite lookup_insert_ne].
Qed.

(** What a datagram does to the counters of a destination. *)
Lemma goSend_stats now dst payload s : stats (goSendViaTunnel now dst payload s).1 = stats s.
Proof. unfold goSendViaTunnel. cbv zeta. by repeat case_match. Qed.

Lemma forward_stat now isB dst payload s key :
  stat key (forwardOutbound now isB dst payload s).1 = stat key s
  \/ stat key (forwardOutbound now isB dst payload s).1 = count_send now (stat key s).
Proof.
  unfold forwardOutbound. destruct (Net.to4 _); [|by left]. destruct (ua_port dst =? 53).
  { destruct (_ && _); [by left|]. left. unfold stat. by rewrite goSend_stats. }
  cbv zeta. set (k := addr_String dst). fold (stat k s).
  assert (forall s', stats s' = stats (put k (count_send now (stat k s)) s) -> stat key s' = stat key s \/ stat key s' = count_send now (stat key s)) as H.
  { intros s' E. assert (stat key s' = stat key (put k (count_send now (stat k s)) s)) as -> by (unfold stat; by rewrite E).
    rewrite stat_put. case_decide as Hk; [rewrite Hk; by right|by left]. }
  destruct (_ || _ || _); [|by apply H]. apply H. by rewrite goSend_stats.
Qed.

Lemma recv_stat src s key :
  stat key (recordRecv src s) = stat key s
  \/ exists st, st = stat key s /\ stat key (recordRecv src s)
       = MkStats (sentCount st) (recvCount st + 1) (firstSentAt st) (useTunnel st) (tunnelErrStreak st) (tunnelBlockedUntil st) (dialer st).
Proof.
  unfold recordRecv. destruct (stats s !! addr_String src) as [st|] eqn:E; [|by left]. rewrite stat_put. case_decide as H; [|by left].
  right. exists st. unfold stat. by rewrite <- H, E.
Qed.

(** The fields a datagram does not touch. *)
Record same_tunnel (a b : dstStats) : Prop := {
  st_use : useTunnel b = useTunnel a;
  st_streak : tunnelErrStreak b = tunnelErrStreak a;
  st_blocked : tunnelBlockedUntil b = tunnelBlockedUntil a;
  st_dialer : dialer b = dialer a;
  st_sent : sentCount a <= sentCount b }.
Lemma same_tunnel_refl a : same_tunnel a a.
Proof. by split. Qed.
Lemma count_send_same now a : same_tunnel a (count_send now a).
Proof. unfold count_send. destruct (useTunnel a) eqn:E; [by split|]. split; try done. cbn. lia. Qed.

Lemma relay_stat now lookup isB src data s key : same_tunnel (stat key s) (stat key (relay_datagram now lookup isB src data s).1).
Proof.
  unfold relay_datagram. cbv zeta.
  assert (same_tunnel (stat key s) (stat key (recordRecv src s))) as Hin.
  { destruct (recv_stat src s key) as [->|(st & -> & ->)]; [apply same_tunnel_refl|by split]. }
  destruct (parseSOCKS5UDPHeader lookup data) as [[[dst payload] frag]| |]; [|done|done]. destruct (frag =? 0); [|done].
  destruct (_ && _); [apply same_tunnel_refl|].
  destruct (forward_stat now isB dst payload (set_client src s) key) as [->| ->]; [apply same_tunnel_refl|apply count_send_same].
Qed.

Lemma step_realtime o s : realtimeDialer (step o s).1 = realtimeDialer s.
Proof.
  assert (forall now dst payload s, realtimeDialer (goSendViaTunnel now dst payload s).1 = realtimeDialer s) as Hg.
  { intros. unfold goSendViaTunnel. cbv zeta. by repeat case_match. }
  destruct o; cbn [step fst].
  - unfold relay_datagram, forwardOutbound, recordRecv. cbv zeta. repeat case_match; cbn [fst]; try done; by rewrite Hg.
  - unfold checkFallback. by repeat case_match.
  - unfold dialer_lookup. cbv zeta. by repeat case_match.
  - unfold dialer_pin. cbv zeta. by repeat case_match.
  - unfold worker_done. cbv zeta. by repeat case_match.
  - unfold startTunnelDrain. cbv zeta. by repeat case_match.
Qed.

(** ** The pin *)

(** No five sends in a row to the destination fail, counting from [n] failures. *)
Fixpoint unbroken (key : gostring) (n : Z) (l : list op) : bool :=
  match l with
  | [] => true
  | ODone ok _ key' :: l =>
      if decide (key' = key) then if ok then unbroken key 0 l else (n + 1 <? tunnelCBThreshold) && unbroken key (n + 1) l
      else unbroken key n l
  | _ :: l => unbroken key n l
  end.
(** No lookup finds the connection of the realtime dialer failed. *)
Definition no_failed_lookup (o : op) : Prop := match o with OLookup failed _ => failed = false | _ => True end.

Lemma step_pin key d n o l s :
  dialer (stat key s) = Some d -> tunnelErrStreak (stat key s) = n -> unbroken key n (o :: l) = true ->
  (Some d <> realtimeDialer s \/ no_failed_lookup o) ->
  dialer (stat key (step o s).1) = Some d /\ unbroken key (tunnelErrStreak (stat key (step o s).1)) l = true.
Proof.
  intros Hd Hn Hu Hr. destruct o as [now lookup isB src data|k|failed k|picked k|ok now k|dst]; cbn [step fst unbroken] in *.
  - destruct (relay_stat now lookup isB src data s key) as [_ -> _ -> _]. by subst n.
  - unfold checkFallback. destruct (stats s !! k) as [st|] eqn:E; [|by subst n]. destruct (_ || _); [by subst n|]. rewrite stat_put.
    case_decide as Hk; [|by subst n]. subst k. unfold stat in *. rewrite E in *. cbn in *. by subst n.
  - unfold dialer_lookup. cbv zeta. fold (stat k s). destruct (decide (k = key)) as [->|Hne].
    + rewrite Hd. assert (bool_decide (Some d = realtimeDialer s) && failed = false) as ->.
      { destruct Hr as [Hr|Hr]; [by rewrite bool_decide_eq_false_2|cbn in Hr; by rewrite Hr, andb_false_r]. }
      cbn [snd]. rewrite stat_put, decide_True by done. by subst n.
    + destruct (dialer (stat k s)); [destruct (_ && _)|]; cbn [snd]; rewrite stat_put, decide_False by done; by subst n.
  - unfold dialer_pin. cbv zeta. fold (stat k s). destruct (dialer (stat k s)) eqn:E; cbn [snd]; [by subst n|]. rewrite stat_put.
    case_decide as Hk; [subst k; congruence|by subst n].
  - unfold worker_done. destruct (stats s !! k) as [st|] eqn:E.
    2: { case_decide as Hk; [|by subst n]. subst k. unfold stat in Hd. by rewrite E in Hd. }
    assert (k = key -> st = stat key s) as Hst by (intros ->; unfold stat; by rewrite E). cbv zeta.
    case_decide as Hk.
    + rewrite (Hst Hk), Hn in *. destruct ok; [rewrite stat_put, decide_True by done; by rewrite Hd|].
      apply andb_true_iff in Hu as [Hlt%Z.ltb_lt Hu]. rewrite (proj2 (Z.leb_gt _ _)) by done. rewrite stat_put, decide_True by done. by rewrite Hd.
    + destruct ok; [|destruct (_ <=? _)]; rewrite stat_put, decide_False by done; by subst n.
  - unfold startTunnelDrain. cbv zeta. case_decide; cbn [fst]; by subst n.
Qed.

(** A UDP flow keeps its control: once a dialer is pinned to a destination, every send and
    drain uses it, whatever datagrams arrive, other destinations fail, fallbacks fire and
    concurrent callers try to pin another dialer, until five consecutive sends to that
    destination have failed or the realtime dialer it is pinned to is found dead. *)
Theorem udp_flow_keeps_control key d l s :
  dialer (stat key s) = Some d -> unbroken key (tunnelErrStreak (stat key s)) l = true ->
  Some d <> realtimeDialer s \/ Forall no_failed_lookup l ->
  let s' := (steps l s).1 in
  dialer (stat key s') = Some d
  /\ (forall failed failed' pick, Some d <> realtimeDialer s \/ failed = false -> (dialerFor failed failed' pick key s').1 = Some d).
Proof.
  intros Hd Hu Hr. assert (dialer (stat key (steps l s).1) = Some d /\ realtimeDialer (steps l s).1 = realtimeDialer s) as [Hp Hrt].
  { revert s Hd Hu Hr. induction l as [|o l IH]; intros s Hd Hu Hr; [done|]. cbn [steps].
    destruct (step_pin key d _ o l s Hd eq_refl Hu) as [Hd' Hu']; [destruct Hr as [?|Hr]; [by left|right; by inversion_clear Hr]|].
    pose proof (step_realtime o s) as Hrt. destruct (step o s) as [s1 e1]. cbn [fst] in *.
    destruct (IH s1 Hd' Hu') as [H1 H2]; [rewrite Hrt; destruct Hr as [?|Hr]; [by left|right; by inversion_clear Hr]|].
    destruct (steps l s1) as [s2 e2]. cbn [fst] in *. split; [done|congruence]. }
  cbv zeta. split; [done|]. intros failed failed' pick Hf. unfold dialerFor, dialer_lookup. cbv zeta. fold (stat key (steps l s).1).
  rewrite Hp, Hrt. assert (bool_decide (Some d = realtimeDialer s) && failed = false) as ->; [|done].
  destruct Hf as [Hf| ->]; [by rewrite bool_decide_eq_false_2|apply andb_false_r].
Qed.

(** ** The circuit breaker *)

(** Five failed sends in a row to a destination, with anything else happening on other
    destinations in between, open its circuit: the pinned dialer is released, and for five
    seconds no datagram for the destination is queued for the tunnel. *)
Theorem circuit_opens key dst s t1 t2 t3 t4 t5 now payload :
  addr_String dst = key -> key ∈ dom (stats s) -> tunnelErrStreak (stat key s) = 0 -> now < t5 + tunnelCBCooldown ->
  let s' := (steps [ODone false t1 key; ODone false t2 key; ODone false t3 key; ODone false t4 key; ODone false t5 key] s).1 in
  dialer (stat key s') = None /\ goSendViaTunnel now dst payload s' = (s', []).
Proof.
  intros Hk (st & Hst)%elem_of_dom Hz Hn. unfold stat in Hz. rewrite Hst in Hz. cbn [default from_option id] in Hz.
  assert (forall st s t, stats s !! key = Some st -> tunnelErrStreak st < 4 -> worker_done false t key s =
    put key (MkStats (sentCount st) (recvCount st) (firstSentAt st) (useTunnel st) (tunnelErrStreak st + 1) (tunnelBlockedUntil st) (dialer st)) s) as Hf.
  { intros st0 s0 t H Hlt. unfold worker_done. rewrite H. cbv zeta. by rewrite (proj2 (Z.leb_gt _ _)) by (unfold tunnelCBThreshold; lia). }
  assert (forall k x y, stats (put k x y) !! k = Some x) as Hput by (intros; apply lookup_insert_eq).
  cbv zeta. cbn [steps step]. rewrite (Hf st s t1 Hst) by lia. rewrite (Hf _ _ t2 (Hput _ _ _)) by (cbn; lia).
  rewrite (Hf _ _ t3 (Hput _ _ _)) by (cbn; lia). rewrite (Hf _ _ t4 (Hput _ _ _)) by (cbn; lia). cbn [fst].
  unfold worker_done. rewrite Hput. cbn [tunnelErrStreak]. rewrite Hz. cbv zeta.
  rewrite (proj2 (Z.leb_le _ _)) by (unfold tunnelCBThreshold; lia).
  split; [by rewrite stat_put, decide_True|]. unfold goSendViaTunnel. rewrite Hk, Hput. cbn [tunnelBlockedUntil]. by rewrite (proj2 (Z.ltb_lt _ _) Hn).
Qed.

(** ** Fallback from direct sends to the tunnel *)

Lemma step_use key o s : useTunnel (stat key s) = true -> useTunnel (stat key (step o s).1) = true.
Proof.
  intros Hu. destruct o as [now lookup isB src data|k|failed k|picked k|ok now k|dst]; cbn [step fst].
  - by destruct (relay_stat now lookup isB src data s key) as [-> _ _ _ _].
  - unfold checkFallback. destruct (stats s !! k) as [st|] eqn:E; [|done]. destruct (_ || _); [done|]. rewrite stat_put. by case_decide.
  - unfold dialer_lookup. cbv zeta. fold (stat k s). repeat case_match; cbn [snd]; rewrite stat_put; destruct (decide (k = key)) as [->|]; exact Hu.
  - unfold dialer_pin. cbv zeta. fold (stat k s). repeat case_match; cbn [snd]; [done|]. rewrite stat_put. case_decide; [subst; exact Hu|done].
  - unfold worker_done. destruct (stats s !! k) as [st|] eqn:E; [|done]. cbv zeta.
    assert (k = key -> useTunnel st = true) as Hst by (intros ->; unfold stat in Hu; by rewrite E in Hu).
    repeat case_match; rewrite stat_put; case_decide; auto.
  - unfold startTunnelDrain. cbv zeta. by case_decide.
Qed.
Lemma steps_use key l s : useTunnel (stat key s) = true -> useTunnel (stat key (steps l s).1) = true.
Proof.
  revert s. induction l as [|o l IH]; intros s Hu; [done|]. cbn [steps]. pose proof (step_use key o s Hu) as H'.
  destruct (step o s) as [s1 e1]. cbn [fst] in H'. specialize (IH s1 H'). by destruct (steps l s1).
Qed.

Definition direct_to (dst : UDPAddr) (e : effect) : Prop := match e with SendDirect d _ => addr_String d = addr_String dst | _ => False end.

Lemma goSend_effects now dst payload s e : e ∈ (goSendViaTunnel now dst payload s).2 -> e = StartWorker dst \/ e = Enqueue dst payload.
Proof. unfold goSendViaTunnel. cbv zeta. repeat case_match; cbn [snd]; set_solver. Qed.

(** When a probe finds that the direct sends to a destination other than DNS got no
    answer, the session never sends to it around the tunnel again, whatever else happens. *)
Theorem fallback_is_final dst now lookup isBypass src data payload l s :
  ua_port dst <> 53 -> addr_String dst ∈ dom (stats s) -> recvCount (stat (addr_String dst) s) = 0 ->
  parseSOCKS5UDPHeader lookup data = Ok (dst, payload, 0) ->
  Forall (fun e => ~ direct_to dst e)
    (step (ORelay now lookup isBypass src data) (steps l (checkFallback (addr_String dst) s)).1).2.
Proof.
  intros Hp Hdom Hr Hparse. assert (useTunnel (stat (addr_String dst) (checkFallback (addr_String dst) s)) = true) as Hu.
  { apply elem_of_dom in Hdom as [st Hst]. unfold stat in Hr. rewrite Hst in Hr. cbn in Hr. unfold checkFallback. rewrite Hst, Hr.
    destruct (useTunnel st) eqn:E; cbn [orb Z.ltb Z.compare]; [unfold stat; by rewrite Hst|]. by rewrite stat_put, decide_True. }
  apply (steps_use _ l) in Hu. revert Hu. generalize (steps l (checkFallback (addr_String dst) s)).1. intros s' Hu.
  cbn [step]. unfold relay_datagram. cbv zeta. rewrite Hparse. cbn [Z.eqb]. destruct (_ && _); [constructor|].
  unfold forwardOutbound. destruct (Net.to4 _); [|constructor]. rewrite (proj2 (Z.eqb_neq _ _) Hp). cbv zeta.
  fold (stat (addr_String dst) (set_client src s')). change (stat (addr_String dst) (set_client src s')) with (stat (addr_String dst) s').
  assert (useTunnel (count_send now (stat (addr_String dst) s')) = true) as -> by (unfold count_send; by rewrite Hu).
  cbn [orb]. apply Forall_forall. intros e He%goSend_effects Hd. by destruct He as [-> | ->].
Qed.

Ltac no_check := let H := fresh in intros H; cbn [snd app] in H; rewrite ?elem_of_cons, ?elem_of_nil in H; destruct_or? H; congruence || done.

Lemma step_probe key o s : 3 <= sentCount (stat key s) -> 3 <= sentCount (stat key (step o s).1) /\ StartCheck key ∉ (step o s).2.
Proof.
  intros H3. destruct o as [now lookup isB src data|k|failed k|picked k|ok now k|dst]; cbn [step fst snd].
  - split; [destruct (relay_stat now lookup isB src data s key) as [_ _ _ _ H]; lia|]. unfold relay_datagram. cbv zeta.
    assert (StartCheck key ∉ (if ua_port src =? 53 then [LearnDNS data] else []) ++
      match clientUDPAddr (recordRecv src s) with Some c => [ToClient c (buildSOCKS5UDPHeader src data)] | None => [] end) as Hin.
    { repeat case_match; no_check. }
    destruct (parseSOCKS5UDPHeader lookup data) as [[[dst payload] frag]| |]; [|done|done]. destruct (frag =? 0); [|done].
    destruct (_ && _); [apply not_elem_of_nil|]. unfold forwardOutbound. destruct (Net.to4 _); [|apply not_elem_of_nil].
    assert (forall s', StartCheck key ∉ (goSendViaTunnel now dst payload s').2) as Hg by (intros s' He%goSend_effects; naive_solver).
    destruct (ua_port dst =? 53); [destruct (_ && _); [no_check|apply Hg]|]. cbv zeta.
    fold (stat (addr_String dst) (set_client src s)). change (stat (addr_String dst) (set_client src s)) with (stat (addr_String dst) s).
    destruct (_ || _ || _) eqn:Eo; [apply Hg|]. cbn [snd].
    destruct (decide (addr_String dst = key)) as [Hk|Hne]; [rewrite Hk in *|destruct (sentCount _ =? _); no_check].
    destruct (count_send_same now (stat key s)) as [_ _ _ _ Hs].
    destruct (Z.eqb_spec (sentCount (count_send now (stat key s))) socks5UDPFallbackSent) as [E|]; [|no_check].
    unfold count_send in E, Eo. destruct (useTunnel (stat key s)) eqn:Eu; [by rewrite Eu in Eo|cbn in E; unfold socks5UDPFallbackSent in E; lia].
  - split; [|apply not_elem_of_nil]. unfold checkFallback. destruct (stats s !! k) as [st|] eqn:E; [|done]. destruct (_ || _); [done|].
    rewrite stat_put. case_decide as Hk; [|done]. subst k. unfold stat in H3. by rewrite E in H3.
  - split; [|apply not_elem_of_nil]. unfold dialer_lookup. cbv zeta. fold (stat k s). repeat case_match; cbn [snd]; rewrite stat_put; destruct (decide (k = key)) as [->|]; exact H3.
  - split; [|apply not_elem_of_nil]. unfold dialer_pin. cbv zeta. fold (stat k s). repeat case_match; cbn [snd]; [done|]. rewrite stat_put. case_decide; [subst; exact H3|done].
  - split; [|apply not_elem_of_nil]. unfold worker_done. destruct (stats s !! k) as [st|] eqn:E; [|done]. cbv zeta.
    assert (k = key -> 3 <= sentCount st) as Hst by (intros ->; unfold stat in H3; by rewrite E in H3).
    repeat case_match; rewrite stat_put; case_decide; auto.
  - unfold startTunnelDrain. cbv zeta. case_decide; cbn [fst snd]; (split; [done|no_check]).
Qed.

Lemma steps_probe key l s : 3 <= sentCount (stat key s) -> StartCheck key ∉ (steps l s).2.
Proof.
  revert s. induction l as [|o l IH]; intros s H3; [apply not_elem_of_nil|]. cbn [steps].
  destruct (step_probe key o s H3) as [H3' Hn]. destruct (step o s) as [s1 e1]. cbn [fst snd] in *. specialize (IH s1 H3').
  destruct (steps l s1) as [s2 e2]. cbn [snd] in *. rewrite elem_of_app. tauto.
Qed.

(** A datagram of a client at 127.0.0.1:9000 to 9.9.9.9:4000. *)
Definition toy_dst : UDPAddr := MkAddr [9; 9; 9; 9] 4000.
Definition toy_client : UDPAddr := MkAddr [127; 0; 0; 1] 9000.
Definition toy_send (isBypass : bool) : op :=
  ORelay 0 (fun _ => None) (fun _ => isBypass) toy_client ([0; 0; 0; atypIPv4] ++ [9; 9; 9; 9] ++ be_put 2 4000 ++ [1; 2; 3]).
Definition toy_session : udpAssocSession := newUDPAssocSession true false false None.

(** The fallback probe is started only by the third datagram to a destination. When the
    first three go through the tunnel, because the bypass list is not loaded yet or the
    destination is in its cooldown, and the destination is approved for bypass afterwards, the
    next datagrams are sent directly and no probe is ever started, whatever follows: a direct
    path that does not work is then never given up. *)
Theorem late_bypass_never_probed :
  let s := (steps [toy_send false; toy_send false; toy_send false] toy_session).1 in
  (step (toy_send true) s).2 = [SendDirect toy_dst [1; 2; 3]]
  /\ forall l, StartCheck (addr_String toy_dst) ∉ (steps l s).2.
Proof.
  cbv zeta. split; [vm_compute; reflexivity|]. intros l. apply steps_probe. vm_compute. congruence.
Qed.

(** ** The header *)

Definition port_ok (a : UDPAddr) : Prop := 0 <= ua_port a < 65536.

(** Wrapping and parsing are inverse: the datagram built for an address of 4 or 16 bytes
    parses, without a lookup, to that address (an IPv4-mapped one in its 4-byte form), to its
    port and to the payload, with fragment number zero. *)
Theorem udp_header_roundtrip lookup src payload :
  length (ua_ip src) = 4%nat \/ length (ua_ip src) = 16%nat -> port_ok src ->
  parseSOCKS5UDPHeader lookup (buildSOCKS5UDPHeader src payload)
  = Ok (MkAddr (match Net.to4 (ua_ip src) with Some ip4 => ip4 | None => ua_ip src end) (ua_port src), payload, 0).
Proof.
  intros Hl Hp. unfold buildSOCKS5UDPHeader, port_ok in *. destruct (Net.to4 (ua_ip src)) as [ip4|] eqn:E4.
  - pose proof (Cidr.to4_length _ _ E4) as L4. cbn [app parseSOCKS5UDPHeader]. cbn [Z.eqb Pos.eqb atypIPv4].
    rewrite ReadFull_app by done. cbn [mbind res_bind]. rewrite ReadFull_app by apply length_be_put.
    by rewrite be_get_put, Z.mod_small by lia.
  - destruct Hl as [Hl|Hl]; [by rewrite Cidr.to4_self in E4|]. rewrite Hl. cbn [Nat.eqb].
    assert (fill16 (ua_ip src) = ua_ip src) as -> by (unfold fill16; rewrite <- Hl; apply take_app_length).
    cbn [app parseSOCKS5UDPHeader]. cbn [Z.eqb Pos.eqb atypIPv4 atypIPv6].
    rewrite ReadFull_app by done. cbn [mbind res_bind]. rewrite ReadFull_app by apply length_be_put.
    by rewrite be_get_put, Z.mod_small by lia.
Qed.

(** The relay tells a client's datagram from a server's by its bytes alone. A datagram
    from any other sender that carries a request header is taken for the client's: the sender
    becomes the address that all later replies are delivered to, and the payload is sent on to
    the destination named in the header. *)
Theorem stranger_takes_over_session now lookup isBypass stranger dst payload s :
  length (ua_ip dst) = 4%nat -> port_ok dst -> ua_port dst <> 443 ->
  let s' := (relay_datagram now lookup isBypass stranger (buildSOCKS5UDPHeader dst payload) s).1 in
  clientUDPAddr s' = Some stranger
  /\ forall src frame, ua_port src <> 53 -> deliverFrames src [frame] s' = [ToClient stranger (buildSOCKS5UDPHeader src frame)].
Proof.
  intros Hl Hp Hq. assert (clientUDPAddr (relay_datagram now lookup isBypass stranger (buildSOCKS5UDPHeader dst payload) s).1 = Some stranger) as Hc.
  { assert (parseSOCKS5UDPHeader lookup (buildSOCKS5UDPHeader dst payload) = Ok (dst, payload, 0)) as Hparse.
    { unfold buildSOCKS5UDPHeader, port_ok in *. rewrite Cidr.to4_self by done. cbn [app parseSOCKS5UDPHeader]. cbn [Z.eqb Pos.eqb atypIPv4].
      rewrite ReadFull_app by done. cbn [mbind res_bind]. rewrite ReadFull_app by apply length_be_put.
      rewrite be_get_put, Z.mod_small by lia. by destruct dst. }
    unfold relay_datagram. cbv zeta. rewrite Hparse. cbn [Z.eqb]. rewrite (proj2 (Z.eqb_neq _ _) Hq), andb_false_r.
    assert (forall s0, clientUDPAddr (goSendViaTunnel now dst payload s0).1 = clientUDPAddr s0) as Hg.
    { intros. unfold goSendViaTunnel. cbv zeta. by repeat case_match. }
    unfold forwardOutbound. rewrite Cidr.to4_self by done. destruct (ua_port dst =? 53).
    - destruct (_ && _); [done|]. by rewrite Hg.
    - cbv zeta. destruct (_ || _ || _); [by rewrite Hg|done]. }
  cbv zeta. split; [done|]. intros src frame H53. unfold deliverFrames. rewrite Hc. cbn. by rewrite (proj2 (Z.eqb_neq _ _) H53).
Qed.

(** ** Witnesses *)

Lemma udp_flow_keeps_control_witness :
  let s := (steps [toy_send false; OLookup false (addr_String toy_dst); OPin 7 (addr_String toy_dst)] toy_session).1 in
  dialer (stat (addr_String toy_dst)
    (steps [ODone false 1 (addr_String toy_dst); OPin 8 (addr_String toy_dst); ODone false 2 (addr_String toy_dst); OLookup true (addr_String toy_dst)] s).1) = Some 7%nat.
Proof.
  cbv zeta. eapply (udp_flow_keeps_control (addr_String toy_dst) 7);
    [vm_compute; reflexivity|vm_compute; reflexivity|left; vm_compute; discriminate].
Defined.

Lemma circuit_opens_witness :
  let s := (steps [toy_send false; OPin 7 (addr_String toy_dst)] toy_session).1 in
  let fail t := ODone false t (addr_String toy_dst) in
  dialer (stat (addr_String toy_dst) (steps [fail 1; fail 2; fail 3; fail 4; fail 5] s).1) = None.
Proof.
  cbv zeta. eapply (circuit_opens (addr_String toy_dst) toy_dst _ 1 2 3 4 5 6 []);
    [reflexivity|apply elem_of_dom; vm_compute; by eexists|vm_compute; reflexivity|unfold tunnelCBCooldown, second; lia].
Defined.

Lemma fallback_is_final_witness :
  let s := (steps [toy_send true; toy_send true; toy_send true] toy_session).1 in
  Forall (fun e => ~ direct_to toy_dst e) (step (toy_send true) (steps [] (checkFallback (addr_String toy_dst) s)).1).2.
Proof.
  cbv zeta. apply (fallback_is_final toy_dst 0 (fun _ => None) (fun _ => true) toy_client _ [1; 2; 3] []);
    [by vm_compute|apply elem_of_dom; vm_compute; by eexists|vm_compute; reflexivity|vm_compute; reflexivity].
Defined.

Lemma udp_header_roundtrip_witness :
  parseSOCKS5UDPHeader (fun _ => None) (buildSOCKS5UDPHeader toy_dst [1; 2; 3]) = Ok (toy_dst, [1; 2; 3], 0).
Proof. rewrite (udp_header_roundtrip (fun _ => None) toy_dst [1; 2; 3]); [reflexivity|by left|unfold port_ok; cbn; lia]. Defined.

Lemma stranger_takes_over_session_witness :
  let stranger := MkAddr [8; 8; 4; 4] 3478 in
  clientUDPAddr (relay_datagram 0 (fun _ => None) (fun _ => false) stranger (buildSOCKS5UDPHeader toy_dst [1]) (set_client toy_client toy_session)).1
  = Some stranger.
Proof.
  cbv zeta. eapply (stranger_takes_over_session 0 (fun _ => None) (fun _ => false) (MkAddr [8; 8; 4; 4] 3478) toy_dst [1]);
    [reflexivity|unfold port_ok; cbn; lia|cbn; lia].
Defined.

End UdpAssoc.
