(* ===== verification/ClientRouter.v ===== *)
(** * snc/core: the router (src/snc/core/router.go)

    [Router] keeps the known controls and relays with their measurements, and builds the
    candidate paths the client dials through. Every method holds the mutex and is one
    step; one clock reading stands for all those of a call. Nodes are shared by pointer
    between the router and the probes it starts: [n_loc] is a node's identity, and a probe
    that returns changes the node it was started for, if the router still has it. UDP
    connections are numbers; scores are float64. *)

From stdpp Require Import base list gmap strings fin_maps sorting.
From Stdlib Require Import ZArith Lia.
From S2P Require Import Prelude GoLib GoFloat ClientDialer.

Module Routing.
Import Float.

Definition flapWindow : Z := 5 * minute.
Definition flapPenaltyPerEviction : Z := 200 * millisecond.
Definition flapPenaltyCap : Z := 2 * second.

Inductive controlTransport := transportTCP | transportUDP.
#[export] Instance controlTransport_eq_dec : EqDecision controlTransport.
Proof. solve_decision. Defined.

Record routerNode := MkNode {
  n_loc : nat;
  n_ID : gostring; n_Addr : gostring; n_OperatorID : gostring; n_CountryCode : gostring;
  n_RTT : Z; n_TrafficRTT : Z; n_Loss : float64; n_LoadFactor : float64;
  n_LastSeen : Z; n_IsAlive : bool; n_transport : controlTransport }.

Record RouterPathNode := MkHop { h_ID : gostring; h_Addr : gostring }.
Record RouterPath := MkPath {
  p_Relays : list RouterPathNode; p_ControlAddr : gostring; p_Score : float64; p_UDPRelay : option Z }.
Definition IsDirect (p : RouterPath) : bool := bool_decide (length (p_Relays p) = 0%nat).

Record Router := MkRouter {
  relays : list routerNode; controls : list routerNode; paths : list RouterPath; pathIdx : nat;
  myCountry : gostring; dataDead : gmap gostring Z; udpDataFailed : gmap gostring Z; selfNodeID : gostring;
  udpPeers : gmap gostring Z; udpClosed : list Z; flaps : gmap gostring (list Z); flapEventCount : Z;
  next_loc : nat }.

Definition NewRouter : Router := MkRouter [] [] [] 0 [] ∅ ∅ [] ∅ [] ∅ 0 0.

Definition set_nodes (rs cs : list routerNode) (loc : nat) (r : Router) : Router :=
  MkRouter rs cs (paths r) (pathIdx r) (myCountry r) (dataDead r) (udpDataFailed r) (selfNodeID r) (udpPeers r)
    (udpClosed r) (flaps r) (flapEventCount r) loc.
Definition set_paths (ps : list RouterPath) (i : nat) (r : Router) : Router :=
  MkRouter (relays r) (controls r) ps i (myCountry r) (dataDead r) (udpDataFailed r) (selfNodeID r) (udpPeers r)
    (udpClosed r) (flaps r) (flapEventCount r) (next_loc r).
Definition set_marks (dead failed : gmap gostring Z) (r : Router) : Router :=
  MkRouter (relays r) (controls r) (paths r) (pathIdx r) (myCountry r) dead failed (selfNodeID r) (udpPeers r)
    (udpClosed r) (flaps r) (flapEventCount r) (next_loc r).
Definition set_peers (peers : gmap gostring Z) (closed : list Z) (r : Router) : Router :=
  MkRouter (relays r) (controls r) (paths r) (pathIdx r) (myCountry r) (dataDead r) (udpDataFailed r) (selfNodeID r)
    peers closed (flaps r) (flapEventCount r) (next_loc r).
Definition set_flaps (fl : gmap gostring (list Z)) (count : Z) (r : Router) : Router :=
  MkRouter (relays r) (controls r) (paths r) (pathIdx r) (myCountry r) (dataDead r) (udpDataFailed r) (selfNodeID r)
    (udpPeers r) (udpClosed r) fl count (next_loc r).

(** ** Addresses *)

Definition normaliseAddr (addr : gostring) : gostring :=
  let addr := Strings.TrimPrefix (Strings.TrimPrefix addr (bs "https://")) (bs "http://") in
  let addr := match Net.index_byte 47 addr with Some i => take i addr | None => addr end in
  match Net.SplitHostPort addr with Ok _ => addr | _ => addr ++ bs ":443" end.

(** ** Setters *)

Definition SetSelfNodeID (id : gostring) (r : Router) : Router :=
  MkRouter (relays r) (controls r) (paths r) (pathIdx r) (myCountry r) (dataDead r) (udpDataFailed r) id (udpPeers r)
    (udpClosed r) (flaps r) (flapEventCount r) (next_loc r).
Definition SetMyCountry (cc : gostring) (r : Router) : Router :=
  MkRouter (relays r) (controls r) (paths r) (pathIdx r) cc (dataDead r) (udpDataFailed r) (selfNodeID r) (udpPeers r)
    (udpClosed r) (flaps r) (flapEventCount r) (next_loc r).
Definition MarkControlDataDead (addr : gostring) (until : Z) (r : Router) : Router :=
  set_marks (<[addr := until]> (dataDead r)) (udpDataFailed r) r.

(** [for _, n := range l { if p(n) { ...; return } }] *)
Fixpoint update_first (p : routerNode -> bool) (f : routerNode -> routerNode) (l : list routerNode) : list routerNode :=
  match l with
  | [] => []
  | n :: l => if p n then f n :: l else n :: update_first p f l
  end.
Definition on_controls (f : list routerNode -> list routerNode) (r : Router) : Router :=
  set_nodes (relays r) (f (controls r)) (next_loc r) r.
Definition has_addr (addr : gostring) (n : routerNode) : bool := bool_decide (n_Addr n = addr).

Definition seen (now : Z) (n : routerNode) : routerNode :=
  MkNode (n_loc n) (n_ID n) (n_Addr n) (n_OperatorID n) (n_CountryCode n) (n_RTT n) (n_TrafficRTT n) (n_Loss n)
    (n_LoadFactor n) now true (n_transport n).
Definition with_rtt (rtt : Z) (n : routerNode) : routerNode :=
  MkNode (n_loc n) (n_ID n) (n_Addr n) (n_OperatorID n) (n_CountryCode n) rtt (n_TrafficRTT n) (n_Loss n)
    (n_LoadFactor n) (n_LastSeen n) (n_IsAlive n) (n_transport n).
Definition with_traffic (rtt : Z) (n : routerNode) : routerNode :=
  MkNode (n_loc n) (n_ID n) (n_Addr n) (n_OperatorID n) (n_CountryCode n) (n_RTT n) rtt (n_Loss n)
    (n_LoadFactor n) (n_LastSeen n) (n_IsAlive n) (n_transport n).
Definition with_load (f : float64) (n : routerNode) : routerNode :=
  MkNode (n_loc n) (n_ID n) (n_Addr n) (n_OperatorID n) (n_CountryCode n) (n_RTT n) (n_TrafficRTT n) (n_Loss n)
    f (n_LastSeen n) (n_IsAlive n) (n_transport n).
Definition with_transport (t : controlTransport) (n : routerNode) : routerNode :=
  MkNode (n_loc n) (n_ID n) (n_Addr n) (n_OperatorID n) (n_CountryCode n) (n_RTT n) (n_TrafficRTT n) (n_Loss n)
    (n_LoadFactor n) (n_LastSeen n) (n_IsAlive n) t.
Definition lost (n : routerNode) : routerNode :=
  MkNode (n_loc n) (n_ID n) (n_Addr n) (n_OperatorID n) (n_CountryCode n) (n_RTT n) (n_TrafficRTT n) (n_Loss n)
    (n_LoadFactor n) (n_LastSeen n) false (n_transport n).

Definition MarkControlAlive (now : Z) (addr : gostring) (r : Router) : Router :=
  on_controls (update_first (has_addr (normaliseAddr addr)) (seen now)) r.

Definition UpdateControlRTT (addr : gostring) (rtt : Z) (r : Router) : Router :=
  on_controls (update_first (has_addr addr) (with_rtt rtt)) r.

Definition UpdateTrafficRTT (addr : gostring) (rtt : Z) (r : Router) : Router :=
  let norm := normaliseAddr addr in
  if existsb (has_addr norm) (controls r)
  then on_controls (update_first (has_addr norm) (with_traffic rtt)) r
  else set_nodes (update_first (has_addr norm) (with_traffic rtt) (relays r)) (controls r) (next_loc r) r.

(** The map is ranged over in any order, so of two keys that normalise alike either may
    win; [norm] is the map of normalised keys. *)
Definition SetLoadFactors (factors : list (gostring * float64)) (r : Router) : Router :=
  let norm : gmap gostring float64 :=
    fold_left (fun m kf => <[normaliseAddr kf.1 := kf.2]> m) factors ∅ in
  on_controls (map (fun n => match norm !! n_Addr n with
                             | Some f => if flt f0 f then with_load f n else n
                             | None => n
                             end)) r.

Definition find_addr (addr : gostring) (l : list routerNode) : option routerNode := List.find (has_addr addr) l.
Definition LoadFactorFor (addr : gostring) (r : Router) : float64 :=
  match find_addr (normaliseAddr addr) (controls r) with Some n => n_LoadFactor n | None => f0 end.

Definition MarkUDPDataFailed (now : Z) (addr : gostring) (r : Router) : Router :=
  let r := on_controls (update_first
    (fun c => has_addr addr c && bool_decide (n_transport c = transportUDP)) (with_transport transportTCP)) r in
  set_marks (dataDead r) (<[addr := now + 5 * minute]> (udpDataFailed r)) r.

(** ** UDP peers *)

Definition RegisterUDPPeer (key : gostring) (conn : Z) (r : Router) : Router :=
  set_peers (<[key := conn]> (udpPeers r))
    (match udpPeers r !! key with Some old => old :: udpClosed r | None => udpClosed r end) r.
Definition RemoveUDPPeer (key : gostring) (r : Router) : Router :=
  match udpPeers r !! key with
  | Some c => set_peers (delete key (udpPeers r)) (c :: udpClosed r) r
  | None => r
  end.
Definition CloseAllUDPPeers (r : Router) : Router :=
  set_peers ∅ (map snd (map_to_list (udpPeers r)) ++ udpClosed r) r.
Definition udpPeer (id addr : gostring) (r : Router) : option Z :=
  match udpPeers r !! id with Some c => Some c | None => udpPeers r !! addr end.
Definition HasUDPPeer (failed : Z -> bool) (nodeID : gostring) (r : Router) : bool :=
  match udpPeers r !! nodeID with Some c => negb (failed c) | None => false end.

(** ** The lists of nodes *)

Definition new_node (loc : nat) (id addr operator cc : gostring) (now : Z) : routerNode :=
  MkNode loc id (normaliseAddr addr) operator cc 0 0 f0 f0 now true transportTCP.

Fixpoint new_controls (loc : nat) (addrs : list gostring) (cc : gostring -> gostring) (now : Z) : list routerNode :=
  match addrs with
  | [] => []
  | a :: addrs => new_node loc a a a (cc a) now :: new_controls (S loc) addrs cc now
  end.
Definition SetControlsWithRegions (now : Z) (addrs : list gostring) (regions : gmap gostring gostring) (r : Router) : Router :=
  set_nodes (relays r) (new_controls (next_loc r) addrs (fun a => default [] (regions !! a)) now)
    (next_loc r + length addrs) r.
Definition SetControls (now : Z) (addrs : list gostring) (r : Router) : Router :=
  set_nodes (relays r) (new_controls (next_loc r) addrs (fun _ => []) now) (next_loc r + length addrs) r.
Definition SetControl (now : Z) (addr : gostring) (r : Router) : Router := SetControls now [addr] r.

Definition AddControl (now : Z) (addr : gostring) (r : Router) : Router :=
  if existsb (has_addr (normaliseAddr addr)) (controls r) then r
  else set_nodes (relays r) (controls r ++ [new_node (next_loc r) addr addr addr [] now]) (S (next_loc r)) r.

(** A relay of the control API or of the DHT: identifier, address, country. *)
Record RelayEntry := MkEntry { re_NodeID : gostring; re_Addr : gostring; re_CountryCode : gostring }.
Definition operator_of (addr : gostring) : gostring :=
  match Net.SplitHostPort addr with Ok (h, _) => h | _ => addr end.
Definition relay_node (loc : nat) (now : Z) (e : RelayEntry) : routerNode :=
  new_node loc (re_NodeID e) (re_Addr e) (operator_of (re_Addr e)) (re_CountryCode e) now.
Fixpoint new_relays (loc : nat) (now : Z) (l : list RelayEntry) : list routerNode :=
  match l with [] => [] | e :: l => relay_node loc now e :: new_relays (S loc) now l end.
Definition UpdateRelays (now : Z) (l : list RelayEntry) (r : Router) : Router :=
  set_nodes (new_relays (next_loc r) now l) (controls r) (next_loc r + length l) r.

Fixpoint merge_loop (now : Z) (self : gostring) (l : list RelayEntry) (loc : nat) (rs : list routerNode)
    : list routerNode * nat :=
  match l with
  | [] => (rs, loc)
  | e :: l =>
      if existsb (fun n => bool_decide (n_ID n = re_NodeID e)) rs then merge_loop now self l loc rs
      else if negb (bool_decide (self = [])) && bool_decide (re_NodeID e = self) then merge_loop now self l loc rs
      else merge_loop now self l (S loc) (rs ++ [relay_node loc now e])
  end.
Definition MergeDHTRelays (now : Z) (l : list RelayEntry) (r : Router) : Router :=
  let '(rs, loc) := merge_loop now (selfNodeID r) l (next_loc r) (relays r) in set_nodes rs (controls r) loc r.

Definition MarkRelayAlive (now : Z) (id : gostring) (r : Router) : Router :=
  set_nodes (update_first (fun n => bool_decide (n_ID n = id) || bool_decide (n_Addr n = id)) (seen now) (relays r))
    (controls r) (next_loc r) r.

(** ** Probes *)

(** The ping: [None] when it failed or reported no exit; else the time it took and the
    exit's latency in milliseconds. *)
Definition probeControlPing (answer : option (Z * float64)) : option Z :=
  match answer with
  | Some (elapsed, rttMs) =>
      Some (if flt f0 rttMs then int64 (elapsed + Dialer.to_Z (fmul rttMs (of_Z millisecond))) else elapsed)
  | None => None
  end.
Definition ProbeControlE2E (answer : option (Z * float64)) : option Z := probeControlPing answer.
Definition QuickHealthCheck (answer : option (Z * float64)) : bool :=
  match probeControlPing answer with Some _ => true | None => false end.

Definition quicSuppressed (now : Z) (addr : gostring) (r : Router) : bool :=
  match udpDataFailed r !! addr with Some t => now <? t | None => false end.

(** The probes of one control have returned ([quic] is [None] when it was suppressed). *)
Definition probe_result (now : Z) (tcp quic : option Z) (n : routerNode) : routerNode :=
  match tcp, quic with
  | Some t, Some q =>
      if t <=? q then with_transport transportTCP (with_rtt t (seen now n))
      else with_transport transportUDP (with_rtt q (seen now n))
  | Some t, None => with_transport transportTCP (with_rtt t (seen now n))
  | None, Some q => with_transport transportUDP (with_rtt q (seen now n))
  | None, None => with_transport transportTCP (lost n)
  end.
Definition at_loc (loc : nat) (f : routerNode -> routerNode) (l : list routerNode) : list routerNode :=
  map (fun n => if (n_loc n =? loc)%nat then f n else n) l.
Definition ProbeDataPlane_done (now : Z) (loc : nat) (tcp quic : option Z) (r : Router) : Router :=
  on_controls (at_loc loc (probe_result now tcp quic)) r.

(** MeasureRTTs: a TCP dial to one node has returned. *)
Definition MeasureRTTs_done (now : Z) (loc : nat) (rtt : option Z) (r : Router) : Router :=
  let f n := match rtt with Some t => seen now (with_rtt t n) | None => lost n end in
  set_nodes (at_loc loc f (relays r)) (at_loc loc f (controls r)) (next_loc r) r.

(** ** Flaps *)

Definition recent_flaps (now : Z) (l : list Z) : list Z := List.filter (fun t => negb (t <? now - flapWindow)) l.
Definition RecordControlFlap (now : Z) (addr : gostring) (r : Router) : Router :=
  set_flaps (<[addr := recent_flaps now (default [] (flaps r !! addr)) ++ [now]]> (flaps r))
    (Dialer.int32 (flapEventCount r + 1)) r.
Definition DrainFlapCount (r : Router) : Z * Router := (flapEventCount r, set_flaps (flaps r) 0 r).

(** In milliseconds. *)
Definition flapPenaltyOf (now : Z) (addr : gostring) (r : Router) : float64 :=
  let count := lenZ (recent_flaps now (default [] (flaps r !! addr))) in
  let penalty := fmul (of_Z count) (of_Z (Milliseconds flapPenaltyPerEviction)) in
  let cap := of_Z (Milliseconds flapPenaltyCap) in
  if flt cap penalty then cap else penalty.

Definition ControlRTT (now : Z) (addr : gostring) (r : Router) : Z :=
  let rtt := match find_addr addr (controls r) with Some n => n_RTT n | None => 0 end in
  int64 (rtt + Dialer.to_Z (fmul (flapPenaltyOf now addr r) (of_Z millisecond))).

Definition ControlTransport (addr : gostring) (r : Router) : controlTransport :=
  match find_addr addr (controls r) with Some n => n_transport n | None => transportTCP end.
Definition ControlTransportName (addr : gostring) (r : Router) : gostring :=
  if decide (ControlTransport addr r = transportUDP) then bs "udp" else bs "tcp".

(** ** Scores *)

Definition alive (now : Z) (r : Router) (n : routerNode) : bool :=
  n_IsAlive n && (now - n_LastSeen n <? 30 * second)
  && negb (match dataDead r !! n_Addr n with Some t => now <? t | None => false end).

Definition effectiveLoadFactor (f : float64) : float64 := if fle f f0 then f1 else f.

Definition blended_rtt (n : routerNode) : Z :=
  if (0 <? n_TrafficRTT n) && (0 <? n_RTT n)
  then Dialer.to_Z (fadd (fmul (fconst 3 10) (of_Z (n_RTT n))) (fmul (fconst 7 10) (of_Z (n_TrafficRTT n))))
  else if 0 <? n_TrafficRTT n then n_TrafficRTT n else n_RTT n.
Definition nodeScore (now : Z) (r : Router) (n : routerNode) : float64 :=
  fadd (fadd (fmul (of_Z (Milliseconds (blended_rtt n))) (effectiveLoadFactor (n_LoadFactor n)))
          (fmul (n_Loss n) (of_Z 100)))
    (flapPenaltyOf now (n_Addr n) r).

Definition instabilityPenalty (now : Z) (n : routerNode) : float64 :=
  let since := now - n_LastSeen n in
  if 15 * second <? since then of_Z 100 else if 5 * second <? since then of_Z 20 else f0.

Definition control_score (now : Z) (ctrl : option routerNode) : float64 :=
  match ctrl with
  | Some c => fadd (fadd (fmul (of_Z (Milliseconds (n_RTT c))) (effectiveLoadFactor (n_LoadFactor c)))
                      (fmul (n_Loss c) (of_Z 100))) (instabilityPenalty now c)
  | None => f0
  end.
Definition hop_score (now : Z) (live : list routerNode) (s : float64) (h : RouterPathNode) : float64 :=
  let s := match List.find (fun n => bool_decide (n_ID n = h_ID h)) live with
           | Some n => fadd s (fadd (fadd (of_Z (Milliseconds (n_RTT n))) (fmul (n_Loss n) (of_Z 100)))
                                 (instabilityPenalty now n))
           | None => s
           end in
  fadd s (of_Z 10).

(** The path with its score, and with the UDP connection to its first hop. *)
Definition scorePath (now : Z) (r : Router) (ctrls live : list routerNode) (p : RouterPath) : RouterPath :=
  let s := control_score now (find_addr (p_ControlAddr p) ctrls) in
  match p_Relays p with
  | [] => MkPath [] (p_ControlAddr p) s (p_UDPRelay p)
  | h :: hs =>
      let s := hop_score now live s h in
      let '(s, u) := match udpPeer (h_ID h) (h_Addr h) r with
                     | Some uc => (fsub s (of_Z 30), Some uc)
                     | None => (s, p_UDPRelay p)
                     end in
      MkPath (h :: hs) (p_ControlAddr p) (fold_left (hop_score now live) hs s) u
  end.

(** ** Sorting

    Both sorts insert before the first element that is not less. [sort.Slice] leaves
    equal elements in any order, for which [rnd] stands. *)
Fixpoint sort_insert {A} (less : A -> A -> bool) (x : A) (l : list A) : list A :=
  match l with
  | [] => [x]
  | y :: l => if less y x then y :: sort_insert less x l else x :: y :: l
  end.
Definition SliceStable {A} (less : A -> A -> bool) (l : list A) : list A := fold_right (sort_insert less) [] l.
Definition Slice {A} (rnd : nat -> nat) (less : A -> A -> bool) (l : list A) : list A :=
  SliceStable less (Rand.rand_Shuffle rnd l).

(** ** BuildPaths *)

Record build_env := MkBuild {
  be_now : Z;
  be_sort_out : nat -> nat; be_sort_pool : nat -> nat; be_sort_live : nat -> nat;   (* order of equal scores *)
  be_shuffle : nat -> nat }.

(** The pool bounds are variables of the package. *)
Section build.
Context (MinPoolControls MaxPoolControls : Z).

Definition by_score (now : Z) (r : Router) (x y : routerNode) : bool := flt (nodeScore now r x) (nodeScore now r y).

(** The alive controls to start from, and those set aside as out of country. *)
Definition split_controls (now : Z) (r : Router) : list routerNode * list routerNode :=
  let aliveControls := List.filter (alive now r) (controls r) in
  if decide (myCountry r = []) then (aliveControls, [])
  else
    let inside n := bool_decide (n_CountryCode n = myCountry r) in
    match List.filter inside aliveControls with
    | [] => (aliveControls, [])
    | inCountry => (inCountry, List.filter (fun n => negb (inside n)) aliveControls)
    end.

Definition pool_controls (e : build_env) (r : Router) : list routerNode :=
  let '(aliveControls, outOfCountry) := split_controls (be_now e) r in
  let less := by_score (be_now e) r in
  let aliveControls :=
    if (lenZ aliveControls <? MinPoolControls) && (0 <? lenZ outOfCountry)
    then aliveControls ++ take (Z.to_nat (MinPoolControls - lenZ aliveControls)) (Slice (be_sort_out e) less outOfCountry)
    else aliveControls in
  if MaxPoolControls <? lenZ aliveControls
  then take (Z.to_nat MaxPoolControls) (Slice (be_sort_pool e) less aliveControls)
  else aliveControls.

Definition live_relays (e : build_env) (r : Router) : list routerNode :=
  let all := List.filter (alive (be_now e) r) (relays r) in
  let same := List.filter (fun n => bool_decide (myCountry r = []) || bool_decide (n_CountryCode n = myCountry r)) all in
  let live := if negb (bool_decide (myCountry r = [])) && bool_decide (same = []) then all else same in
  take 20 (Slice (be_sort_live e) (by_score (be_now e) r) live).

Definition hop (n : routerNode) : RouterPathNode := MkHop (n_ID n) (n_Addr n).
Definition apart (a b : routerNode) : bool :=
  negb (bool_decide (n_ID a = n_ID b)) && negb (bool_decide (n_OperatorID a = n_OperatorID b)).

(** Every path of up to three hops through relays of distinct identity and operator. *)
Definition path_via (ctrl : routerNode) (hops : list routerNode) : RouterPath :=
  MkPath (map hop hops) (n_Addr ctrl) f0 None.
Definition paths_of (live : list routerNode) (ctrl : routerNode) : list RouterPath :=
  path_via ctrl [] ::
  flat_map (fun r1 =>
    path_via ctrl [r1] ::
    flat_map (fun r2 =>
      if apart r2 r1 then
        path_via ctrl [r1; r2] ::
        flat_map (fun r3 => if apart r3 r1 && apart r3 r2 then [path_via ctrl [r1; r2; r3]] else []) live
      else []) live) live.

Definition path_less (x y : RouterPath) : bool :=
  let iRelay := negb (IsDirect x) in
  let jRelay := negb (IsDirect y) in
  if Bool.eqb iRelay jRelay then flt (p_Score x) (p_Score y) else iRelay.

(** The first path of each control, and the others. *)
Fixpoint guarantee (known : list gostring) (l : list RouterPath) : list RouterPath * list RouterPath :=
  match l with
  | [] => ([], [])
  | p :: l =>
      if decide (p_ControlAddr p ∈ known)
      then let '(g, rest) := guarantee known l in (g, p :: rest)
      else let '(g, rest) := guarantee (p_ControlAddr p :: known) l in (p :: g, rest)
  end.
Definition cap_paths (nctrl : nat) (candidates : list RouterPath) : list RouterPath :=
  let capN := Nat.min (nctrl + 5) (length candidates) in
  if (capN <? length candidates)%nat then
    let '(g, rest) := guarantee [] candidates in g ++ take (capN - length g) rest
  else candidates.

Definition BuildPaths (e : build_env) (r : Router) : Router :=
  match (split_controls (be_now e) r).1 with
  | [] => set_paths [] (pathIdx r) r
  | _ =>
      let pool := pool_controls e r in
      let live := live_relays e r in
      let scored := map (scorePath (be_now e) r pool live) (flat_map (paths_of live) pool) in
      let candidates := cap_paths (length pool) (SliceStable path_less scored) in
      set_paths (Rand.rand_Shuffle (be_shuffle e) candidates) 0 r
  end.
End build.

(** ** Reading the paths *)

(** [r.paths[r.pathIdx]]; [None] when there is no path. *)
Definition Primary (r : Router) : res (option RouterPath) :=
  match paths r with
  | [] => Ok None
  | _ => match paths r !! pathIdx r with Some p => Ok (Some p) | None => Panic end
  end.
Definition Advance (r : Router) : bool * Router :=
  if (pathIdx r + 1 <? length (paths r))%nat then (true, set_paths (paths r) (pathIdx r + 1) r)
  else (false, set_paths (paths r) 0 r).
Definition Reset (r : Router) : Router := set_paths (paths r) 0 r.
Definition PickRandom (draw : nat) (r : Router) : option RouterPath :=
  match paths r with [] => None | _ => res_ok (Rand.rand_pick draw (paths r)) end.

Definition best_for (norm : gostring) (l : list RouterPath) : option float64 :=
  fold_left (fun best p =>
    if decide (p_ControlAddr p = norm)
    then match best with
         | Some b => if flt (p_Score p) b then Some (p_Score p) else best
         | None => Some (p_Score p)
         end
    else best) l None.
Definition PrimaryIsBetter (currentAddr : gostring) (factor : float64) (r : Router) : res (bool * option RouterPath) :=
  match paths r with
  | [] => Ok (false, None)
  | _ =>
      match paths r !! pathIdx r with
      | None => Panic
      | Some p =>
          let norm := normaliseAddr currentAddr in
          if decide (p_ControlAddr p = norm) then Ok (false, None)
          else match best_for norm (paths r) with
               | None => Ok (true, Some p)
               | Some best => Ok (fle (fmul (p_Score p) factor) best, Some p)
               end
      end
  end.

Definition Paths (r : Router) : list RouterPath := paths r.
Fixpoint first_of_each (known : list gostring) (l : list gostring) : list gostring :=
  match l with
  | [] => []
  | a :: l => if decide (a ∈ known) then first_of_each known l else a :: first_of_each (a :: known) l
  end.
Definition QualifyingControlAddrs (r : Router) : list gostring := first_of_each [] (map p_ControlAddr (paths r)).
Definition AllControlAddrs (r : Router) : list gostring := map n_Addr (controls r).
Definition UnreachableControls (now : Z) (r : Router) : list gostring :=
  map n_Addr (List.filter (fun c => negb (alive now r c)) (controls r)).

(** [rnd] is the order of addresses with equal RTTs. *)
Definition rtt_less (now : Z) (r : Router) (x y : gostring) : bool :=
  let ri := ControlRTT now x r in
  let rj := ControlRTT now y r in
  if ri =? 0 then false else if rj =? 0 then true else ri <? rj.
Definition BalanceByTransport (now : Z) (rnd : nat -> nat) (addrs : list gostring) (max : Z) (r : Router) : list gostring :=
  if (max <=? 0) || (lenZ addrs <=? max) then addrs
  else
    let is_quic a := bool_decide (ControlTransport a r = transportUDP) in
    let quic := List.filter is_quic addrs in
    let tcp := List.filter (fun a => negb (is_quic a)) addrs in
    let tcpN := Z.quot max 2 in
    let quicN := max - Z.quot max 2 in
    let '(tcpN, quicN) := if lenZ tcp <? tcpN then (lenZ tcp, quicN + (tcpN - lenZ tcp)) else (tcpN, quicN) in
    let '(tcpN, quicN) := if lenZ quic <? quicN then (tcpN + (quicN - lenZ quic), lenZ quic) else (tcpN, quicN) in
    let tcpN := if lenZ tcp <? tcpN then lenZ tcp else tcpN in
    Slice rnd (rtt_less now r) (take (Z.to_nat tcpN) tcp ++ take (Z.to_nat quicN) quic).

(** ** Properties *)

Lemma sort_insert_perm {A} (less : A -> A -> bool) x l : sort_insert less x l ≡ₚ x :: l.
Proof.
  induction l as [|y l IH]; [done|]. simpl. destruct (less y x); [|done]. rewrite IH. apply Permutation_swap.
Qed.
Lemma SliceStable_perm {A} (less : A -> A -> bool) l : SliceStable less l ≡ₚ l.
Proof. induction l as [|x l IH]; [done|]. simpl. by rewrite sort_insert_perm, IH. Qed.
Lemma Slice_perm {A} rnd (less : A -> A -> bool) l : Slice rnd less l ≡ₚ l.
Proof. unfold Slice. by rewrite SliceStable_perm, Rand.shuffle_perm. Qed.

(** When less is the order of numbers, what comes later is not less. *)
Definition by_key {A} (key : A -> float64) (x y : A) : bool := flt (key x) (key y).
Definition number {A} (key : A -> float64) (x : A) : Prop := key x <> SpecFloat.S754_nan.

Lemma sort_insert_sorted {A} (key : A -> float64) x l :
  number key x -> Forall (number key) l -> StronglySorted (fun a b => by_key key b a = false) l ->
  StronglySorted (fun a b => by_key key b a = false) (sort_insert (by_key key) x l).
Proof.
  intros Hx Hl HS. induction HS as [|y l HS IH Hy]; [by repeat constructor|].
  apply Forall_cons in Hl as [Hny Hl]. cbn [sort_insert]. destruct (by_key key y x) eqn:E.
  - constructor; [by apply IH|]. rewrite sort_insert_perm. constructor; [|done].
    destruct (by_key key x y) eqn:E2; [|done]. unfold by_key in *.
    pose proof (flt_trans _ _ _ E E2) as H. by rewrite flt_irrefl in H.
  - constructor; [by constructor|]. constructor; [done|]. eapply Forall_impl; [exact Hy|].
    intros z Hz. simpl in Hz. destruct (by_key key z x) eqn:E2; [|done]. unfold by_key in *.
    destruct (flt_or _ (key y) _ Hny E2); congruence.
Qed.

Lemma Slice_sorted {A} rnd (key : A -> float64) l :
  Forall (number key) l -> StronglySorted (fun a b => by_key key b a = false) (Slice rnd (by_key key) l).
Proof.
  intros Hl. unfold Slice. assert (Forall (number key) (Rand.rand_Shuffle rnd l)) as H by (by rewrite Rand.shuffle_perm).
  revert H. generalize (Rand.rand_Shuffle rnd l). clear l Hl. intros l Hl.
  induction Hl as [|x l Hx Hl IH]; [constructor|]. simpl. apply sort_insert_sorted; [done| |done].
  by rewrite SliceStable_perm.
Qed.

(** What a sort and a cut keep is not worse than what they leave. *)
Lemma cut_best {A} rnd (key : A -> float64) l k x y :
  Forall (number key) l -> x ∈ take k (Slice rnd (by_key key) l) -> y ∈ l -> y ∉ take k (Slice rnd (by_key key) l) ->
  by_key key y x = false.
Proof.
  intros Hl Hx Hy Hny. pose proof (Slice_sorted rnd key l Hl) as HS.
  rewrite <- (Slice_perm rnd (by_key key) l) in Hy. revert HS Hx Hy Hny.
  generalize (Slice rnd (by_key key) l). intros m HS Hx Hy Hny.
  rewrite <- (take_drop k m) in HS, Hy. apply elem_of_app in Hy as [?|Hy]; [done|].
  clear Hny Hl. induction (take k m) as [|z t IH]; [by apply not_elem_of_nil in Hx|].
  simpl in HS. apply StronglySorted_inv in HS as [HS Hz]. apply elem_of_cons in Hx as [->|Hx]; [|by apply IH].
  rewrite Forall_app in Hz. destruct Hz as [_ Hz]. by apply (proj1 (Forall_forall _ _) Hz).
Qed.

(** *** The pool of controls *)

Section pool.
Context (MinPool MaxPool : Z) (Hmin : 0 <= MinPool) (Hmax : MinPool <= MaxPool).

Definition alive_controls (now : Z) (r : Router) : list routerNode := List.filter (alive now r) (controls r).
Definition in_country (r : Router) (n : routerNode) : bool :=
  negb (bool_decide (myCountry r = [])) && bool_decide (n_CountryCode n = myCountry r).
Definition home_controls (now : Z) (r : Router) : list routerNode := List.filter (in_country r) (alive_controls now r).

Lemma split_controls_spec now r :
  split_controls now r =
  match home_controls now r with
  | [] => (alive_controls now r, [])
  | home => (home, List.filter (fun n => negb (in_country r n)) (alive_controls now r))
  end.
Proof.
  unfold split_controls, home_controls, in_country, alive_controls. destruct (decide (myCountry r = [])) as [E|E].
  - rewrite bool_decide_true by done. cbn [negb andb]. generalize (List.filter (alive now r) (controls r)). intros l.
    assert (forall m : list routerNode, List.filter (fun _ => false) m = []) as -> by by induction m. done.
  - rewrite bool_decide_false by done. cbn [negb andb]. done.
Qed.

Lemma split_controls_empty now r : (split_controls now r).1 = [] <-> alive_controls now r = [].
Proof.
  rewrite split_controls_spec. unfold home_controls. destruct (alive_controls now r) as [|c l]; [done|].
  by destruct (List.filter _ _).
Qed.

Lemma filter_length_split {A} (f : A -> bool) l :
  (length (List.filter f l) + length (List.filter (fun x => negb (f x)) l) = length l)%nat.
Proof. induction l as [|x l IH]; [done|]. simpl. destruct (f x); simpl; lia. Qed.

(** The two ways a pool comes about. *)
Inductive pool_case (e : build_env) (r : Router) : Prop :=
| pool_plain l :
    (home_controls (be_now e) r = [] /\ l = alive_controls (be_now e) r \/
     home_controls (be_now e) r <> [] /\ l = home_controls (be_now e) r /\
       (MinPool <= lenZ l \/ l = alive_controls (be_now e) r)) ->
    pool_controls MinPool MaxPool e r =
      (if MaxPool <? lenZ l then take (Z.to_nat MaxPool) (Slice (be_sort_pool e) (by_score (be_now e) r) l) else l) ->
    pool_case e r
| pool_supplemented home out :
    home <> [] -> home = home_controls (be_now e) r ->
    out = List.filter (fun n => negb (in_country r n)) (alive_controls (be_now e) r) ->
    lenZ home < MinPool ->
    pool_controls MinPool MaxPool e r =
      home ++ take (Z.to_nat (MinPool - lenZ home)) (Slice (be_sort_out e) (by_score (be_now e) r) out) ->
    pool_case e r.

Lemma pool_cases e r : pool_case e r.
Proof.
  unfold pool_controls. destruct (split_controls (be_now e) r) as [l out] eqn:Es.
  rewrite split_controls_spec in Es. destruct (home_controls (be_now e) r) as [|h hs] eqn:Eh.
  - injection Es as <- <-. apply (pool_plain _ _ (alive_controls (be_now e) r)); [rewrite Eh; auto|].
    unfold pool_controls. rewrite split_controls_spec, Eh. by rewrite andb_false_r.
  - injection Es as <- <-. destruct (Z.ltb_spec (lenZ (h :: hs)) MinPool) as [Hlt|Hge].
    + set (out := List.filter (fun n => negb (in_country r n)) (alive_controls (be_now e) r)) in *.
      destruct (Z.ltb_spec 0 (lenZ out)) as [Ho|Ho].
      * apply (pool_supplemented _ _ (h :: hs) out); [done|congruence|done|done|].
        unfold pool_controls. rewrite split_controls_spec, Eh. fold out.
        rewrite (proj2 (Z.ltb_lt _ _) Hlt), (proj2 (Z.ltb_lt _ _) Ho). cbn [andb].
        rewrite (proj2 (Z.ltb_ge _ _)); [done|].
        rewrite length_app, length_take. lia.
      * apply (pool_plain _ _ (h :: hs)).
        { right. rewrite Eh. split; [done|]. split; [done|]. right. unfold out in Ho.
          rewrite <- Eh. unfold home_controls. clear -Ho.
          induction (alive_controls (be_now e) r) as [|x m IH]; [done|]. simpl in *.
          destruct (in_country r x); simpl in *; [f_equal; apply IH; lia | lia]. }
        unfold pool_controls. rewrite split_controls_spec, Eh. fold out.
        rewrite (proj2 (Z.ltb_ge 0 (lenZ out)) Ho). by rewrite andb_false_r.
    + apply (pool_plain _ _ (h :: hs)); [rewrite Eh; auto 6|].
      unfold pool_controls. rewrite split_controls_spec, Eh.
      by rewrite (proj2 (Z.ltb_ge _ _) Hge).
Qed.

Lemma elem_filter {A} (f : A -> bool) l x : x ∈ List.filter f l <-> x ∈ l /\ f x = true.
Proof. rewrite !list_elem_of_In. apply filter_In. Qed.

Lemma elem_take_Slice {A} k rnd (less : A -> A -> bool) l x : x ∈ take k (Slice rnd less l) -> x ∈ l.
Proof. intros H%elem_of_take. destruct H as (i & H & _). rewrite <- (Slice_perm rnd less l). by eapply list_elem_of_lookup_2. Qed.

Lemma home_alive now r x : x ∈ home_controls now r <-> x ∈ alive_controls now r /\ in_country r x = true.
Proof. apply elem_filter. Qed.

Lemma length_Slice {A} rnd (less : A -> A -> bool) l : length (Slice rnd less l) = length l.
Proof. apply Permutation_length, Slice_perm. Qed.

(** What a capped list keeps. *)
Definition capped (e : build_env) (r : Router) (l : list routerNode) : list routerNode :=
  if MaxPool <? lenZ l then take (Z.to_nat MaxPool) (Slice (be_sort_pool e) (by_score (be_now e) r) l) else l.

Lemma capped_in e r l x : x ∈ capped e r l -> x ∈ l.
Proof. unfold capped. destruct (_ <? _); [apply elem_take_Slice | done]. Qed.
Lemma capped_length e r l : lenZ (capped e r l) = Z.min MaxPool (lenZ l).
Proof.
  unfold capped. destruct (Z.ltb_spec MaxPool (lenZ l)); [|lia]. rewrite length_take, length_Slice. lia.
Qed.
Lemma capped_best e r l x y :
  Forall (number (nodeScore (be_now e) r)) l -> x ∈ capped e r l -> y ∈ l -> y ∉ capped e r l ->
  flt (nodeScore (be_now e) r y) (nodeScore (be_now e) r x) = false.
Proof. intros Hn. unfold capped. destruct (_ <? _); [by apply cut_best | done]. Qed.

(** The number of controls a pool has. *)
Definition pool_size (now : Z) (r : Router) : Z :=
  let first := match home_controls now r with [] => lenZ (alive_controls now r) | h => lenZ h end in
  Z.min MaxPool (Z.max first (Z.min (lenZ (alive_controls now r)) MinPool)).

Lemma pool_alive e r n : n ∈ pool_controls MinPool MaxPool e r -> n ∈ alive_controls (be_now e) r.
Proof.
  destruct (pool_cases e r) as [l Hl E|home out _ -> -> _ E]; rewrite E; clear E.
  - intros H%capped_in. destruct Hl as [[_ ->]|(_ & -> & _)]; [done|]. by apply home_alive in H as [? _].
  - rewrite elem_of_app. intros [H|H%elem_take_Slice]; [by apply home_alive in H as [? _]|]. by apply elem_filter in H as [? _].
Qed.

Lemma pool_length e r : lenZ (pool_controls MinPool MaxPool e r) = pool_size (be_now e) r.
Proof.
  unfold pool_size. pose proof (filter_length_split (in_country r) (alive_controls (be_now e) r)) as Hs.
  fold (home_controls (be_now e) r) in Hs.
  destruct (pool_cases e r) as [l Hl E|home out Hh -> -> Hlt E]; rewrite E; clear E.
  - change (lenZ (capped e r l) = Z.min MaxPool (Z.max (match home_controls (be_now e) r with
      [] => lenZ (alive_controls (be_now e) r) | h => lenZ h end) (Z.min (lenZ (alive_controls (be_now e) r)) MinPool))).
    rewrite capped_length.
    destruct Hl as [[-> ->]|(Hh & -> & Hm)]; [lia|].
    destruct (home_controls (be_now e) r) as [|h hs] eqn:Eh; [done|]. destruct Hm as [Hm|Hm]; [lia|rewrite <- Hm; lia].
  - destruct (home_controls (be_now e) r) as [|h hs] eqn:Eh; [done|].
    rewrite length_app, length_take, length_Slice. lia.
Qed.

(** Which controls the client uses. With bounds [0 <= Min <= Max], the pool holds only alive
    controls, exactly [min Max (max first (min alive Min))] of them, where [first] counts the
    alive controls of the client's own country or, if there is none, all alive ones. If the
    country has an alive control then all of them are in the pool, unless they are more than
    Max, and a control of another country is in the pool only when they are fewer than Min.
    Among controls of the same side of the border (all of them, without a country) none left out
    has a better score than one taken, as long as the scores are numbers. *)
Theorem pool_policy e r :
  let pool := pool_controls MinPool MaxPool e r in
  let home := home_controls (be_now e) r in
  (forall n, n ∈ pool -> n ∈ controls r /\ alive (be_now e) r n = true) /\
  lenZ pool = pool_size (be_now e) r /\
  (home <> [] -> lenZ home <= MaxPool -> forall n, n ∈ home -> n ∈ pool) /\
  (home <> [] -> MinPool <= lenZ home -> forall n, n ∈ pool -> n ∈ home) /\
  (Forall (number (nodeScore (be_now e) r)) (alive_controls (be_now e) r) ->
   forall x y, x ∈ pool -> y ∈ alive_controls (be_now e) r -> y ∉ pool -> in_country r x = in_country r y ->
   flt (nodeScore (be_now e) r y) (nodeScore (be_now e) r x) = false).
Proof.
  intros pool home. split; [|split; [apply pool_length|]].
  { intros n Hn%pool_alive. exact (proj1 (elem_filter _ _ _) Hn). }
  unfold pool, home. clear pool home.
  destruct (pool_cases e r) as [l Hl E|home out Hh Eh -> Hlt E]; rewrite E; clear E.
  - fold (capped e r l). split; [|split].
    + intros Hne Hle n Hn. unfold capped. destruct Hl as [[E _]|(_ & -> & _)]; [by rewrite E in Hn|].
      by rewrite (proj2 (Z.ltb_ge _ _)).
    + intros Hne Hge n Hn%capped_in. destruct Hl as [[E _]|(_ & -> & _)]; done.
    + intros Hnum x y Hx Hy Hny Hc. apply (capped_best e r l); [|done| |done].
      * destruct Hl as [[_ ->]|(_ & -> & _)]; [done|].
        apply Forall_forall. intros z [Hz _]%home_alive. by apply (proj1 (Forall_forall _ _) Hnum).
      * destruct Hl as [[_ ->]|(_ & -> & _)]; [done|]. apply home_alive. split; [done|].
        rewrite <- Hc. apply capped_in in Hx. by apply home_alive in Hx as [_ ?].
  - rewrite <- Eh. split; [|split].
    + intros _ _ n Hn. apply elem_of_app. by left.
    + intros _ Hge. lia.
    + intros Hnum x y Hx Hy Hny Hc. rewrite elem_of_app in Hny.
      destruct (in_country r y) eqn:Ey; [destruct Hny; left; rewrite Eh; by apply home_alive|].
      apply elem_of_app in Hx as [Hx|Hx]; [rewrite Eh in Hx; apply home_alive in Hx as [_ Hx]; congruence|].
      eapply (cut_best _ (nodeScore (be_now e) r)); [|exact Hx| |tauto].
      * apply Forall_forall. intros z [Hz _]%elem_filter. by apply (proj1 (Forall_forall _ _) Hnum).
      * apply elem_filter. split; [done|]. by rewrite Ey.
Qed.

(** *** The paths *)

(** A path as it must be: through relays that are alive, of distinct identities and
    operators, at most three, to the address of a control of the pool. *)
Definition good_path (e : build_env) (r : Router) (p : RouterPath) : Prop :=
  exists ctrl hops, ctrl ∈ pool_controls MinPool MaxPool e r /\ p_ControlAddr p = n_Addr ctrl /\
    p_Relays p = map hop hops /\ (length hops <= 3)%nat /\
    Forall (fun n => n ∈ relays r /\ alive (be_now e) r n = true) hops /\
    NoDup (map n_ID hops) /\ NoDup (map n_OperatorID hops).

Lemma live_relays_alive e r n : n ∈ live_relays e r -> n ∈ relays r /\ alive (be_now e) r n = true.
Proof.
  unfold live_relays. intros H%elem_take_Slice.
  destruct (negb _ && _); [by apply elem_filter in H|]. apply elem_filter in H as [H _]. by apply elem_filter in H.
Qed.

Lemma apart_ne a b : apart a b = true -> n_ID a <> n_ID b /\ n_OperatorID a <> n_OperatorID b.
Proof.
  unfold apart. rewrite andb_true_iff, !negb_true_iff. intros [H1%bool_decide_eq_false H2%bool_decide_eq_false]. done.
Qed.

Lemma paths_of_hops live ctrl p : p ∈ paths_of live ctrl ->
  exists hops, p = path_via ctrl hops /\ (length hops <= 3)%nat /\ Forall (fun n => n ∈ live) hops /\
    NoDup (map n_ID hops) /\ NoDup (map n_OperatorID hops).
Proof.
  unfold paths_of. rewrite list_elem_of_In. intros [<-|H].
  { exists []. repeat split; simpl; try constructor; lia. }
  apply in_flat_map in H as (r1 & Hr1%list_elem_of_In & [<-|H]).
  { exists [r1]. repeat split; simpl; [lia|by constructor| |]; (apply NoDup_cons; split; [apply not_elem_of_nil|constructor]). }
  apply in_flat_map in H as (r2 & Hr2%list_elem_of_In & H). destruct (apart r2 r1) eqn:E21; [|done].
  apply apart_ne in E21 as [I21 O21]. destruct H as [<-|H].
  { exists [r1; r2]. repeat split; simpl; [lia|by repeat constructor| |];
      (apply NoDup_cons; split; [rewrite list_elem_of_singleton; done|]; apply NoDup_singleton). }
  apply in_flat_map in H as (r3 & Hr3%list_elem_of_In & H). destruct (apart r3 r1 && apart r3 r2) eqn:E3; [|done].
  apply andb_true_iff in E3 as [[I31 O31]%apart_ne [I32 O32]%apart_ne]. destruct H as [<-|[]].
  exists [r1; r2; r3]. repeat split; simpl; [lia|by repeat constructor| |];
    (apply NoDup_cons; split; [set_solver|]; apply NoDup_cons; split; [set_solver|]; apply NoDup_singleton).
Qed.

Lemma scorePath_keeps now r cs live p :
  p_Relays (scorePath now r cs live p) = p_Relays p /\ p_ControlAddr (scorePath now r cs live p) = p_ControlAddr p.
Proof. unfold scorePath. destruct (p_Relays p) as [|h hs] eqn:E; [done|]. by destruct (udpPeer _ _ _). Qed.

Lemma guarantee_perm known l : let '(g, rest) := guarantee known l in g ++ rest ≡ₚ l.
Proof.
  revert known. induction l as [|p l IH]; intros known; [apply Permutation_refl|]. simpl. destruct (decide _).
  - specialize (IH known). destruct (guarantee known l) as [g rest]. by rewrite <- Permutation_middle, IH.
  - specialize (IH (p_ControlAddr p :: known)). destruct (guarantee _ l) as [g rest]. simpl. by rewrite IH.
Qed.

Lemma guarantee_covers known l p : p ∈ l -> p_ControlAddr p ∉ known ->
  exists q, q ∈ (guarantee known l).1 /\ p_ControlAddr q = p_ControlAddr p.
Proof.
  revert known. induction l as [|x l IH]; intros known; [by intros ?%not_elem_of_nil|].
  intros Hp Hn. simpl. destruct (decide (p_ControlAddr x ∈ known)) as [Hk|Hk].
  - apply elem_of_cons in Hp as [->|Hp]; [by destruct Hn|]. destruct (IH known Hp Hn) as (q & Hq & E).
    destruct (guarantee known l) as [g rest]. eauto.
  - destruct (decide (p_ControlAddr p = p_ControlAddr x)) as [E|Hne].
    { exists x. destruct (guarantee _ l). split; [apply list_elem_of_here | done]. }
    apply elem_of_cons in Hp as [->|Hp]; [done|].
    destruct (IH (p_ControlAddr x :: known) Hp) as (q & Hq & E); [set_solver|].
    destruct (guarantee _ l) as [g rest]. exists q. split; [by apply list_elem_of_further | done].
Qed.

Lemma guarantee_length known l :
  NoDup (map p_ControlAddr (guarantee known l).1) /\ Forall (fun p => p_ControlAddr p ∉ known) (guarantee known l).1.
Proof.
  revert known. induction l as [|p l IH]; intros known; [repeat constructor|]. simpl. destruct (decide _) as [Hk|Hk].
  - specialize (IH known). by destruct (guarantee known l).
  - specialize (IH (p_ControlAddr p :: known)). destruct (guarantee _ l) as [g rest]. simpl in *. destruct IH as [H1 H2].
    split; [|constructor; [done|]].
    + apply NoDup_cons. split; [|done]. intros (q & E & Hq)%list_elem_of_fmap.
      apply (proj1 (Forall_forall _ _) H2 _ Hq). rewrite E. apply list_elem_of_here.
    + eapply Forall_impl; [exact H2|]. intros q Hq Hin. apply Hq. by apply list_elem_of_further.
Qed.

Definition candidates (e : build_env) (r : Router) : list RouterPath :=
  let pool := pool_controls MinPool MaxPool e r in
  SliceStable path_less (map (scorePath (be_now e) r pool (live_relays e r)) (flat_map (paths_of (live_relays e r)) pool)).

Lemma candidates_good e r p : p ∈ candidates e r -> good_path e r p.
Proof.
  unfold candidates. rewrite SliceStable_perm. intros (q & -> & Hq)%list_elem_of_fmap.
  apply list_elem_of_In, in_flat_map in Hq as (ctrl & Hc%list_elem_of_In & Hq%list_elem_of_In).
  apply paths_of_hops in Hq as (hops & -> & Hl & Ha & Hn1 & Hn2).
  destruct (scorePath_keeps (be_now e) r (pool_controls MinPool MaxPool e r) (live_relays e r) (path_via ctrl hops)) as [E1 E2].
  exists ctrl, hops. repeat split; try done. eapply Forall_impl; [exact Ha|]. intros n. apply live_relays_alive.
Qed.

Lemma candidates_cover e r ctrl : ctrl ∈ pool_controls MinPool MaxPool e r ->
  exists p, p ∈ candidates e r /\ p_ControlAddr p = n_Addr ctrl.
Proof.
  intros Hc. set (q := path_via ctrl []).
  exists (scorePath (be_now e) r (pool_controls MinPool MaxPool e r) (live_relays e r) q).
  split; [|by apply scorePath_keeps]. unfold candidates. rewrite SliceStable_perm.
  apply list_elem_of_fmap_2, list_elem_of_In, in_flat_map. exists ctrl. split; [by apply list_elem_of_In|]. by left.
Qed.

Lemma cap_incl n l p : p ∈ cap_paths n l -> p ∈ l.
Proof.
  unfold cap_paths. destruct (_ <? _)%nat; [|done]. pose proof (guarantee_perm [] l) as Hp.
  destruct (guarantee [] l) as [g rest]. rewrite <- Hp, !elem_of_app. intros [?|H]; [auto|].
  apply elem_of_take in H as (i & H & _). right. by eapply list_elem_of_lookup_2.
Qed.
Lemma cap_covers n l p : p ∈ l -> exists q, q ∈ cap_paths n l /\ p_ControlAddr q = p_ControlAddr p.
Proof.
  intros Hp. unfold cap_paths. destruct (_ <? _)%nat; [|eauto].
  destruct (guarantee_covers [] l p Hp (not_elem_of_nil _)) as (q & Hq & E).
  destruct (guarantee [] l) as [g rest]. exists q. split; [apply elem_of_app; by left | done].
Qed.

(** At most one guaranteed path per address of the pool. *)
Lemma cap_length n l (addrs : list gostring) :
  (forall p, p ∈ l -> p_ControlAddr p ∈ addrs) -> (length addrs <= n)%nat ->
  length (cap_paths n l) = Nat.min (n + 5) (length l).
Proof.
  intros Hin Hn. unfold cap_paths. destruct (Nat.ltb_spec (Nat.min (n + 5) (length l)) (length l)); [|lia].
  pose proof (guarantee_perm [] l) as Hp. destruct (guarantee_length [] l) as [Hnd _].
  destruct (guarantee [] l) as [g rest]. simpl in Hnd.
  assert (length g <= n)%nat.
  { rewrite <- (length_map p_ControlAddr). transitivity (length addrs); [|done].
    apply NoDup_incl_length; [by apply NoDup_ListNoDup|].
    intros a Ha. apply in_map_iff in Ha as (q & <- & Hq). apply list_elem_of_In, Hin.
    rewrite <- Hp. apply elem_of_app. left. by apply list_elem_of_In. }
  apply Permutation_length in Hp. rewrite length_app in Hp. rewrite length_app, length_take. lia.
Qed.

Lemma first_of_each_spec known l a : a ∈ first_of_each known l <-> a ∈ l /\ a ∉ known.
Proof.
  revert known. induction l as [|x l IH]; intros known; simpl.
  - split; [by intros ?%not_elem_of_nil | by intros [?%not_elem_of_nil _]].
  - destruct (decide (x ∈ known)).
    + rewrite IH, elem_of_cons. split; [tauto|]. intros [[->|?] ?]; [done|tauto].
    + rewrite !elem_of_cons, IH. split; [intros [->|[? ?]]; set_solver|].
      intros [[->|?] ?]; [by left|]. destruct (decide (a = x)); [by left|right; set_solver].
Qed.
Lemma first_of_each_NoDup known l : NoDup (first_of_each known l).
Proof.
  revert known. induction l as [|x l IH]; intros known; simpl; [constructor|].
  destruct (decide _); [done|]. apply NoDup_cons. split; [|done]. rewrite first_of_each_spec. set_solver.
Qed.

(** C33: What BuildPaths leaves. If no control is alive there is no path. Otherwise every path leads,
    through at most three alive relays of distinct identities and operators, to a control of the
    pool (see [pool_policy] for which these are); there are as many paths as candidates, but at
    most five more than controls in the pool; the current path is the first; and no control of
    the pool is crowded out: the addresses that qualify for the dialer pool are, each once,
    exactly those of the controls of the pool. *)
Theorem paths_cover_pool e r :
  let r' := BuildPaths MinPool MaxPool e r in
  let pool := pool_controls MinPool MaxPool e r in
  (alive_controls (be_now e) r = [] -> paths r' = []) /\
  (alive_controls (be_now e) r <> [] ->
   Forall (good_path e r) (paths r') /\
   length (paths r') = Nat.min (length pool + 5) (length (candidates e r)) /\ pathIdx r' = 0%nat /\
   NoDup (QualifyingControlAddrs r') /\
   forall a, a ∈ QualifyingControlAddrs r' <-> a ∈ map n_Addr pool).
Proof.
  intros r' pool. unfold r', BuildPaths. pose proof (split_controls_empty (be_now e) r) as Hs. split.
  { intros Ha. by rewrite (proj2 Hs Ha). }
  intros Ha. destruct (split_controls (be_now e) r).1 as [|c0 cs0] eqn:E0; [by destruct Ha; apply Hs|].
  cbv zeta. fold pool. change (SliceStable path_less _) with (candidates e r).
  set (l := cap_paths (length pool) (candidates e r)).
  assert (forall p, p ∈ l -> good_path e r p) as Hgood by (intros p Hp%cap_incl; by apply candidates_good).
  cbn [paths pathIdx set_paths]. split; [|split; [|split; [done|split]]].
  - rewrite Rand.shuffle_perm. by apply Forall_forall.
  - rewrite (Permutation_length (Rand.shuffle_perm _ _)). unfold l.
    apply (cap_length _ _ (map n_Addr pool)); [|by rewrite length_map].
    intros p (ctrl & hops & Hc & -> & _)%candidates_good. by apply list_elem_of_fmap_2.
  - apply first_of_each_NoDup.
  - intros a. unfold QualifyingControlAddrs. cbn [paths set_paths]. rewrite first_of_each_spec.
    rewrite !list_elem_of_fmap. split.
    + intros [(p & -> & Hp) _]. rewrite Rand.shuffle_perm in Hp. apply Hgood in Hp as (ctrl & _ & Hc & -> & _). eauto.
    + intros (ctrl & -> & Hc). split; [|apply not_elem_of_nil].
      destruct (candidates_cover e r ctrl Hc) as (p & Hp & Ep).
      destruct (cap_covers (length pool) _ _ Hp) as (q & Hq & Eq). exists q.
      split; [congruence|]. by rewrite Rand.shuffle_perm.
Qed.

(** *** The current path *)

Definition index_ok (r : Router) : Prop := paths r = [] \/ (pathIdx r < length (paths r))%nat.

(** Any method: the three that move the index, and the others, which leave it. *)
Inductive rstep : Router -> Router -> Prop :=
| rs_build e r : rstep r (BuildPaths MinPool MaxPool e r)
| rs_advance r : rstep r (Advance r).2
| rs_reset r : rstep r (Reset r)
| rs_other r r' : paths r' = paths r -> pathIdx r' = pathIdx r -> rstep r r'.

Lemma BuildPaths_index e r : paths (BuildPaths MinPool MaxPool e r) = [] \/ pathIdx (BuildPaths MinPool MaxPool e r) = 0%nat.
Proof. unfold BuildPaths. destruct (split_controls (be_now e) r).1; [by left | by right]. Qed.

Lemma rstep_index r r' : rstep r r' -> index_ok r -> index_ok r'.
Proof.
  unfold index_ok. intros [e r0|r0|r0|r0 r1 E1 E2] H.
  - destruct (BuildPaths_index e r0) as [Hi|Hi]; [by left|]. rewrite Hi.
    destruct (paths (BuildPaths _ _ e r0)) as [|p ps]; [by left | right; simpl; lia].
  - unfold Advance. destruct (Nat.ltb_spec (pathIdx r0 + 1) (length (paths r0))); simpl; [by right|].
    destruct (paths r0); [by left | right; simpl; lia].
  - simpl. destruct (paths r0); [by left | right; simpl; lia].
  - by rewrite E1, E2.
Qed.

Lemma rsteps_index r : rtc rstep NewRouter r -> index_ok r.
Proof.
  intros H. assert (forall x y, rtc rstep x y -> index_ok x -> index_ok y) as G.
  { induction 1; eauto using rstep_index. }
  apply (G _ _ H). by left.
Qed.

Lemma iter_advance r k : (k < length (paths r))%nat -> pathIdx r = 0%nat ->
  Nat.iter k (fun x => (Advance x).2) r = set_paths (paths r) k r.
Proof.
  induction k as [|k IH]; intros Hk Hi; [destruct r; simpl in *; by subst|].
  rewrite Nat.iter_succ, IH by (done || lia). unfold Advance. cbn [pathIdx paths set_paths].
  rewrite (proj2 (Nat.ltb_lt _ _)) by lia. cbn [snd]. unfold set_paths. simpl. f_equal. lia.
Qed.

(** Whatever methods were called, reading the current path never indexes past the paths: Primary
    and PrimaryIsBetter do not panic, and answer nothing only when there is no path. From the
    first path, Advance goes through every path in order: the [k]-th call returns true and moves
    to path [k] as long as there is one, and the call after the last returns false and goes back
    to the first. *)
Theorem primary_and_advance r :
  rtc rstep NewRouter r ->
  (Primary r = Ok None <-> paths r = []) /\
  (paths r <> [] -> exists p, Primary r = Ok (Some p) /\ p ∈ paths r) /\
  (forall a f, PrimaryIsBetter a f r <> Panic) /\
  (pathIdx r = 0%nat -> forall k, (k < length (paths r))%nat ->
     let rk := Nat.iter k (fun x => (Advance x).2) r in
     Primary rk = Ok (paths r !! k) /\ Advance rk = (bool_decide (S k < length (paths r))%nat,
        set_paths (paths r) (if bool_decide (S k < length (paths r))%nat then S k else 0) r)).
Proof.
  intros Hr%rsteps_index. assert (paths r <> [] -> exists p, paths r !! pathIdx r = Some p) as Hp.
  { intros Hne. destruct Hr as [?|Hr]; [done|]. by apply lookup_lt_is_Some_2. }
  split; [|split; [|split]].
  - unfold Primary. destruct (paths r) as [|p ps]; [done|]. destruct Hp as (q & ->); [done|]. by split.
  - intros Hne. destruct (Hp Hne) as (p & E). exists p. unfold Primary.
    destruct (paths r) eqn:El; [done|]. rewrite E. split; [done|]. by eapply list_elem_of_lookup_2.
  - intros a f. unfold PrimaryIsBetter. destruct (paths r); [done|]. destruct Hp as (q & ->); [done|].
    destruct (decide _); [done|]. by destruct (best_for _ _).
  - intros Hi k Hk. cbv zeta. rewrite iter_advance by done. unfold Primary, Advance. cbn [paths pathIdx set_paths].
    destruct (lookup_lt_is_Some_2 _ _ Hk) as (p & E). rewrite E.
    split; [by destruct (paths r)|]. rewrite Nat.add_1_r.
    destruct (Nat.ltb_spec (S k) (length (paths r))) as [Hs|Hs].
    + by rewrite bool_decide_true.
    + by rewrite bool_decide_false by lia.
Qed.
End pool.

(** *** Balance of transports *)

Definition is_quic (r : Router) (a : gostring) : bool := bool_decide (ControlTransport a r = transportUDP).

Lemma filter_take_all {A} (f : A -> bool) n l : Forall (fun x => f x = true) l -> List.filter f (take n l) = take n l.
Proof.
  revert n. induction l as [|x l IH]; intros [|n] H; try done. apply Forall_cons in H as [Hx H].
  simpl. rewrite Hx. f_equal. by apply IH.
Qed.

Lemma length_filter_perm {A} (f : A -> bool) l l' : l ≡ₚ l' -> length (List.filter f l) = length (List.filter f l').
Proof. induction 1; simpl; repeat match goal with |- context [f ?x] => destruct (f x) end; simpl; lia. Qed.

Lemma balance_counts t q max :
  0 < max < t + q -> 0 <= t -> 0 <= q ->
  let '(tn, qn) := if t <? Z.quot max 2 then (t, max - Z.quot max 2 + (Z.quot max 2 - t)) else (Z.quot max 2, max - Z.quot max 2) in
  let '(tn, qn) := if q <? qn then (tn + (qn - q), q) else (tn, qn) in
  let tn := if t <? tn then t else tn in
  tn + qn = max /\ 0 <= tn <= t /\ 0 <= qn <= q /\ Z.min t (max / 2) <= tn /\ Z.min q (max - max / 2) <= qn.
Proof.
  intros Hm Ht Hq. rewrite Z.quot_div_nonneg by lia.
  pose proof (Z.div_mod max 2 ltac:(lia)). pose proof (Z.mod_pos_bound max 2 ltac:(lia)).
  destruct (Z.ltb_spec t (max / 2)); cbv zeta beta;
    match goal with |- context [q <? ?x] => destruct (Z.ltb_spec q x) end;
    match goal with |- context [t <? ?x] => destruct (Z.ltb_spec t x) end; lia.
Qed.

(** Cutting the pool down to [max] addresses keeps both transports: of the addresses given it
    returns exactly [max], at least half of [max] (rounded down) of those over TCP and the other
    half of those over QUIC, or all there are; an unlimited or small enough list is returned as
    it is. *)
Theorem balance_keeps_both now rnd addrs max r :
  let out := BalanceByTransport now rnd addrs max r in
  let quic := List.filter (is_quic r) in
  let tcp := List.filter (fun a => negb (is_quic r a)) in
  (max <= 0 \/ lenZ addrs <= max -> out = addrs) /\
  (0 < max < lenZ addrs ->
   lenZ out = max /\ (forall a, a ∈ out -> a ∈ addrs) /\
   Z.min (lenZ (tcp addrs)) (max / 2) <= lenZ (tcp out) /\
   Z.min (lenZ (quic addrs)) (max - max / 2) <= lenZ (quic out)).
Proof.
  intros out quic tcp. unfold out, BalanceByTransport. split.
  { intros H. rewrite (proj2 (orb_true_iff _ _)); [done|]. rewrite !Z.leb_le. tauto. }
  intros H. rewrite (proj2 (Z.leb_gt max 0)), (proj2 (Z.leb_gt _ _)) by lia. cbn [orb].
  change (List.filter (fun a => negb (bool_decide (ControlTransport a r = transportUDP))) addrs) with (tcp addrs).
  change (List.filter (fun a => bool_decide (ControlTransport a r = transportUDP)) addrs) with (quic addrs).
  assert (lenZ (tcp addrs) + lenZ (quic addrs) = lenZ addrs) as Hs.
  { pose proof (filter_length_split (is_quic r) addrs). unfold tcp, quic. lia. }
  pose proof (balance_counts (lenZ (tcp addrs)) (lenZ (quic addrs)) max ltac:(lia) ltac:(lia) ltac:(lia)) as Hb.
  destruct (if lenZ (tcp addrs) <? Z.quot max 2 then _ else _) as [tn0 qn0].
  destruct (if lenZ (quic addrs) <? qn0 then _ else _) as [tn1 qn]. cbv zeta in *.
  set (tn := if lenZ (tcp addrs) <? tn1 then _ else _) in *. destruct Hb as (Hsum & Ht & Hq & Hmt & Hmq).
  assert (forall f, length (List.filter f (Slice rnd (rtt_less now r) (take (Z.to_nat tn) (tcp addrs) ++ take (Z.to_nat qn) (quic addrs))))
    = length (List.filter f (take (Z.to_nat tn) (tcp addrs) ++ take (Z.to_nat qn) (quic addrs)))) as Hf
    by (intros f; apply length_filter_perm, Slice_perm).
  assert (forall (f : gostring -> bool) l, Forall (fun x => f x = true) (List.filter f l)) as Hall.
  { intros f l. apply Forall_forall. intros x Hx. by apply elem_filter in Hx as [_ ?]. }
  split; [rewrite length_Slice, length_app, !length_take; lia|]. split; [|split].
  - intros a Ha. rewrite Slice_perm in Ha. apply elem_of_app in Ha as [Ha|Ha]; apply elem_of_take in Ha as (i & Ha & _);
      apply list_elem_of_lookup_2, elem_filter in Ha; by destruct Ha.
  - unfold tcp at 2. rewrite Hf, List.filter_app, length_app. rewrite filter_take_all by apply Hall. rewrite length_take. lia.
  - unfold quic at 2. rewrite Hf, List.filter_app, length_app. rewrite (filter_take_all _ (Z.to_nat qn)) by apply Hall.
    rewrite length_take. lia.
Qed.

(** *** Instances *)

Definition toy_node (loc : nat) (addr cc : gostring) (rtt : Z) : routerNode :=
  MkNode loc addr addr addr cc (rtt * millisecond) 0 f0 f0 0 true transportTCP.
Definition toy_router : Router :=
  MkRouter [toy_node 9 (bs "r:443") (bs "RU") 5]
    [toy_node 0 (bs "a:443") (bs "RU") 10; toy_node 1 (bs "b:443") (bs "DE") 500; toy_node 2 (bs "c:443") (bs "DE") 20]
    [] 0 (bs "RU") ∅ ∅ [] ∅ [] ∅ 0 10.
Definition toy_build (shuffle : nat -> nat) : build_env := MkBuild second (fun _ => 0%nat) (fun _ => 0%nat) (fun _ => 0%nat) shuffle.

Lemma pool_policy_witness :
  let pool := pool_controls 2 12 (toy_build id) toy_router in
  map n_Addr pool = [bs "a:443"; bs "c:443"] /\ lenZ pool = pool_size 2 12 second toy_router.
Proof. split; [by vm_compute|]. apply (pool_policy 2 12 ltac:(lia) ltac:(lia) (toy_build id) toy_router). Defined.

Lemma paths_cover_pool_witness :
  bs "a:443" ∈ QualifyingControlAddrs (BuildPaths 2 12 (toy_build id) toy_router) /\
  bs "b:443" ∉ QualifyingControlAddrs (BuildPaths 2 12 (toy_build id) toy_router).
Proof.
  destruct (paths_cover_pool 2 12 ltac:(lia) ltac:(lia) (toy_build id) toy_router) as [_ H].
  destruct H as (_ & _ & _ & _ & H); [by vm_compute|].
  split; [apply H | rewrite H]; by apply (bool_decide_unpack _); vm_compute.
Defined.

Lemma primary_and_advance_witness :
  exists p, Primary (BuildPaths 2 12 (toy_build id) (AddControl 0 (bs "x") NewRouter)) = Ok (Some p).
Proof.
  destruct (primary_and_advance 2 12 (BuildPaths 2 12 (toy_build id) (AddControl 0 (bs "x") NewRouter)))
    as (_ & H & _).
  - apply (rtc_l _ _ (AddControl 0 (bs "x") NewRouter)); [by apply rs_other | apply rtc_once, rs_build].
  - destruct H as (p & H & _); [by vm_compute|]. by exists p.
Defined.

(** *** What the comments promise and the code does not *)

(** The pool is not the one of the [Router]'s comment (no control of another country while one of
    the client's own is alive, no score over 1.5 times the best, at most five): beside an alive
    control of the client's country it takes one of another country whose score is more
    than 1.5 times as high, to reach its minimum. *)
Theorem documented_selection_not_followed :
  let pool := pool_controls 2 12 (toy_build id) toy_router in
  let home := toy_node 0 (bs "a:443") (bs "RU") 10 in
  let foreign := toy_node 2 (bs "c:443") (bs "DE") 20 in
  myCountry toy_router = bs "RU" /\ pool = [home; foreign]
  /\ flt (fmul (of_Z 3) (nodeScore second toy_router home)) (fmul (of_Z 2) (nodeScore second toy_router foreign)) = true.
Proof. split_and!; vm_compute; reflexivity. Qed.

(** Stream evictions do not enter the score of a path: however often a control flapped,
    its paths score the same. *)
Theorem flaps_not_in_path_score now r cs live fl n p :
  scorePath now (set_flaps fl n r) cs live p = scorePath now r cs live p.
Proof. done. Qed.

(** The current path after a rebuild need not be the best: with two direct paths the
    shuffle can leave the slower control in front. *)
Theorem primary_not_best :
  exists shuffle p q, let r := BuildPaths 2 12 (toy_build shuffle) (set_nodes [] (controls toy_router) 10 toy_router) in
  Primary r = Ok (Some p) /\ q ∈ paths r /\ flt (p_Score q) (p_Score p) = true.
Proof.
  exists (fun _ => 0%nat). eexists _, _. split; [vm_compute; reflexivity|]. split.
  - vm_compute. apply list_elem_of_further, list_elem_of_here.
  - by vm_compute.
Qed.

(** A bare IPv6 address becomes one that cannot be split into host and port. *)
Theorem normaliseAddr_ipv6_bare :
  normaliseAddr (bs "2001:db8::1") = bs "2001:db8::1:443" /\
  Net.SplitHostPort (normaliseAddr (bs "2001:db8::1")) = Err "too many colons in address".
Proof. by vm_compute. Qed.
End Routing.
