(* ===== verification/ArbiterSigning.v ===== *)
(** * snc-arbiter: what the arbiter signs

    Every signed document of signing.go, cidr.go, notifier.go and keyenc.go: the payload
    whose JSON text is signed, and the functions that build the text sent out. The private
    key is the class [SigningKey]: its signatures verify under its public key.

    Module [Signing] shows that the payloads of different kinds of documents are different
    texts, so that a signature made for one cannot be used for another, but for two pairs
    that share a form ([documents_separate]), and that the exit's parsers read back what the
    arbiter signed. *)

From stdpp Require Import base list gmap strings fin_maps sorting.
From Stdlib Require Import ZArith Lia.
From Stdlib Require Import Floats.SpecFloat.
From S2P Require Import Prelude GoLib GoFloat GoJson.

Module Signing.
Import Json.

Class SigningKey {ED : Ed25519} := {
  pub : bytes;
  length_pub : length pub = 32%nat;
  pub_bytes : bytes_ok pub;
  ed25519_sign : bytes -> bytes;
  verify_sign : forall m, ed25519_verify pub m (ed25519_sign m) = true;
  length_sign : forall m, length (ed25519_sign m) = 64%nat;
  sign_bytes : forall m, bytes_ok (ed25519_sign m) }.

(** ** Documents *)

(** A node of a signed list. The control node's ExitNode and the client's manifestNode have
    the same fields. *)
Record NodeEntry := MkNodeEntry {
  Addr : gostring;
  Fingerprint : gostring;
  RTTms : Float.float64;
  Load : Float.float64;
  DataPlaneOK : option bool }.
Definition zero_node : NodeEntry := MkNodeEntry [] [] Float.f0 Float.f0 None.

Record ContentFileEntry := MkFile { Path : gostring; Size : Z; ChunkSize : Z; ChunkHashes : option (list gostring) }.

(** The fields of a key string that both of its signatures cover. *)
Record key_fields := MkKey {
  k_Username : gostring; k_Servers : option (list gostring); k_ControlNodes : option (list gostring);
  k_ArbiterPubkey : gostring; k_NodeID : gostring; k_APIKey : gostring; k_ClientID : gostring; k_KeyID : gostring }.

Inductive document :=
| DList (type : gostring) (ts : Z) (nodes : list NodeEntry)
| DWhitelist (ts : Z) (entries : list (gostring * gostring))
| DServiceBlocks (ts : Z) (entries : list (gostring * gostring * option (list gostring)))
| DAnonBootstrap (ts : Z) (token : gostring) (entries : list (gostring * gostring))
| DBlacklist (ts : Z) (addrs : list gostring)
| DTorrentBlocked (ts : Z) (addrs : list gostring)
| DContent (ts : Z) (files : option (list ContentFileEntry))
| DClub (club : Z) (ts : Z) (nonce cipher : gostring)
| DCIDRs (country : gostring) (ts : Z) (cidrs : option (list gostring))
| DKeyAuth (k : key_fields)
| DKey (password : gostring) (k : key_fields)
| DRefresh (ts : Z).

Section text.
Context {FT : FloatText}.

Definition is_empty {A} (l : list A) : bool := match l with [] => true | _ => false end.
Definition empty_slice {A} (l : option (list A)) : bool := match l with Some (_ :: _) => false | _ => true end.
Definition is_nil {A} (o : option A) : bool := match o with None => true | Some _ => false end.

(** encoding/json refuses a float64 that is not finite. *)
Definition node_finite (n : NodeEntry) : bool := finite (RTTms n) && finite (Load n).
Definition enc_node (n : NodeEntry) : json :=
  JObj (field "addr" (JStr (Addr n))
    ++ omitempty (is_empty (Fingerprint n)) "fingerprint" (JStr (Fingerprint n))
    ++ omitempty (Float.feq (RTTms n) Float.f0) "rtt_ms" (JNum (float_text (RTTms n)))
    ++ omitempty (Float.feq (Load n) Float.f0) "load" (JNum (float_text (Load n)))
    ++ omitempty (is_nil (DataPlaneOK n)) "data_plane_ok" (JBool (default false (DataPlaneOK n)))).

Definition enc_rule (e : gostring * gostring) : json := JObj (field "type" (JStr e.1) ++ field "value" (JStr e.2)).
Definition enc_block (e : gostring * gostring * option (list gostring)) : json :=
  JObj (field "type" (JStr e.1.1) ++ field "value" (JStr e.1.2) ++ field "blocked_regions" (enc_slice JStr e.2)).
Definition enc_file (f : ContentFileEntry) : json :=
  JObj (field "path" (JStr (Path f)) ++ field "size" (enc_int64 (Size f))
    ++ field "chunk_size" (enc_int64 (ChunkSize f)) ++ field "chunk_hashes" (enc_slice JStr (ChunkHashes f))).

Definition strings_field (l : option (list gostring)) (name : string) := omitempty (empty_slice l) name (enc_slice JStr l).
Definition string_field (s : gostring) (name : string) := omitempty (is_empty s) name (JStr s).
Definition key_tail (k : key_fields) : list (gostring * json) :=
  strings_field (k_Servers k) "servers" ++ strings_field (k_ControlNodes k) "control_nodes"
  ++ string_field (k_ArbiterPubkey k) "arbiter_pubkey" ++ field "node_id" (JStr (k_NodeID k))
  ++ string_field (k_APIKey k) "api_key" ++ string_field (k_ClientID k) "client_id" ++ string_field (k_KeyID k) "key_id".

(** The fields of a document that are signed, and the text that is. [json.Marshal] fails on
    a list with a float that is not finite. *)
Definition payload (d : document) : list (gostring * json) :=
  match d with
  | DList ty ts nodes => field "type" (JStr ty) ++ field "ts" (enc_int64 ts) ++ field "nodes" (JArr (enc_node <$> nodes))
  | DWhitelist ts es => field "ts" (enc_int64 ts) ++ field "entries" (JArr (enc_rule <$> es))
  | DServiceBlocks ts es => field "ts" (enc_int64 ts) ++ field "entries" (JArr (enc_block <$> es))
  | DAnonBootstrap ts tok es => field "ts" (enc_int64 ts) ++ field "token" (JStr tok) ++ field "entries" (JArr (enc_rule <$> es))
  | DBlacklist ts addrs | DTorrentBlocked ts addrs => field "ts" (enc_int64 ts) ++ field "addrs" (JArr (JStr <$> addrs))
  | DContent ts files => field "type" (JStr (bs "content")) ++ field "ts" (enc_int64 ts) ++ field "files" (enc_slice enc_file files)
  | DClub club ts nonce cipher =>
      field "type" (JStr (bs "club_manifest")) ++ field "club_id" (enc_int64 club) ++ field "ts" (enc_int64 ts)
      ++ field "nonce" (JStr nonce) ++ field "cipher" (JStr cipher)
  | DCIDRs country ts cidrs => field "country" (JStr country) ++ field "ts" (enc_int64 ts) ++ field "cidrs" (enc_slice JStr cidrs)
  | DKeyAuth k => field "username" (JStr (k_Username k)) ++ key_tail k
  | DKey pw k => field "username" (JStr (k_Username k)) ++ field "password" (JStr pw) ++ key_tail k
  | DRefresh ts => field "ts" (enc_int64 ts)
  end.
Definition doc_finite (d : document) : bool :=
  match d with DList _ _ nodes => forallb node_finite nodes | _ => true end.
Definition canonical (d : document) : res bytes :=
  if doc_finite d then Ok (Marshal (JObj (payload d))) else Err "marshal payload".

(** ** Signing *)

Section signer.
Context {ED : Ed25519} {SK : SigningKey}.

(** The signature of a document, in base64url. *)
Definition signature (d : document) : res gostring := c ← canonical d; Ok (Base64.encode (ed25519_sign c)).

(** What is sent: the payload, the fields [extra] outside the signature, and the signature. *)
Definition signed_text (d : document) (extra : list (gostring * json)) : res bytes :=
  s ← signature d; Ok (Marshal (JObj (payload d ++ extra ++ field "sig" (JStr s)))).

Definition signWhitelist (ts : Z) (entries : list (gostring * gostring)) : res bytes := signed_text (DWhitelist ts entries) [].
Definition signServiceRegionBlocks (ts : Z) (entries : list (gostring * gostring * option (list gostring))) : res bytes :=
  signed_text (DServiceBlocks ts entries) [].
Definition signAnonBootstrap (ts : Z) (token : gostring) (entries : list (gostring * gostring)) : res bytes :=
  signed_text (DAnonBootstrap ts token entries) [].
Definition signTorrentBlocked (ts : Z) (addrs : list gostring) (callerAddr : gostring) : res bytes :=
  signed_text (DTorrentBlocked ts addrs) (field "self_allowed" (JBool (negb (bool_decide (callerAddr ∈ addrs))))).
Definition signBlacklist (ts : Z) (addrs : list gostring) : res bytes := signed_text (DBlacklist ts addrs) [].
Definition signContentManifest (ts : Z) (files : option (list ContentFileEntry)) : res bytes := signed_text (DContent ts files) [].
Definition signCIDRs (ts : Z) (country : gostring) (cidrs : option (list gostring)) : res bytes :=
  signed_text (DCIDRs country ts cidrs) [].
(** [signClubManifest]: the nodes are sealed under the club's key (32 bytes, or the cipher
    refuses it) before the envelope is signed. *)
Definition signClubManifest {AE : Aead} (ts clubID : Z) (clubKey nonce : bytes) (nodes : list NodeEntry) : res bytes :=
  if negb (forallb node_finite nodes) then Err "marshal club nodes"
  else if negb (length clubKey =? 32)%nat then Err "club manifest aead"
  else let ct := aead_seal clubKey nonce (Marshal (JArr (enc_node <$> nodes))) in
       signed_text (DClub clubID ts (Base64.encode nonce) (Base64.encode ct)) [].
(** [Notifier.buildRefreshPayload]: the body and its signature, which travels in a header. *)
Definition buildRefreshPayload (ts : Z) : res (bytes * gostring) :=
  c ← canonical (DRefresh ts); s ← signature (DRefresh ts); Ok (c, s).
End signer.

(** ** Separation *)

Definition rule_ok (e : gostring * gostring) : Prop := string_ok e.1 /\ string_ok e.2.
Definition strings_ok (l : option (list gostring)) : Prop := Forall string_ok (default [] l).
Definition node_ok (n : NodeEntry) : Prop := string_ok (Addr n) /\ string_ok (Fingerprint n) /\ node_finite n = true.
Definition key_ok (k : key_fields) : Prop :=
  string_ok (k_Username k) /\ strings_ok (k_Servers k) /\ strings_ok (k_ControlNodes k) /\
  string_ok (k_ArbiterPubkey k) /\ string_ok (k_NodeID k) /\ string_ok (k_APIKey k) /\
  string_ok (k_ClientID k) /\ string_ok (k_KeyID k).
(** The strings of a document are UTF-8 and its floats finite. *)
Definition doc_ok (d : document) : Prop :=
  match d with
  | DList ty _ nodes => string_ok ty /\ Forall node_ok nodes
  | DWhitelist _ es => Forall rule_ok es
  | DServiceBlocks _ es => Forall (fun e => rule_ok e.1 /\ strings_ok e.2) es
  | DAnonBootstrap _ tok es => string_ok tok /\ Forall rule_ok es
  | DBlacklist _ addrs | DTorrentBlocked _ addrs => Forall string_ok addrs
  | DContent _ files => Forall (fun f => string_ok (Path f) /\ strings_ok (ChunkHashes f)) (default [] files)
  | DClub _ _ nonce cipher => string_ok nonce /\ string_ok cipher
  | DCIDRs country _ cidrs => string_ok country /\ strings_ok cidrs
  | DKeyAuth k => key_ok k
  | DKey pw k => string_ok pw /\ key_ok k
  | DRefresh _ => True
  end.

Lemma ok_rule d e : 0 < d -> rule_ok e -> json_ok d (enc_rule e).
Proof. intros ? []. unfold enc_rule. json_ok_solve; done. Qed.

Lemma ok_strings d l : 0 < d -> strings_ok l -> json_ok d (enc_slice JStr l).
Proof. intros ? H. json_ok_solve. eapply Forall_impl; [exact H|]. intros. by constructor. Qed.

Lemma ok_node d n : 0 < d -> node_ok n -> json_ok d (enc_node n).
Proof.
  intros ? (Ha & Hf & Hn). apply andb_true_iff in Hn as [H1 H2]. unfold enc_node.
  json_ok_solve; try done; constructor; by apply float_text_ok.
Qed.

Lemma ok_key_tail d k : 1 < d -> key_ok k -> Forall (member_ok d) (key_tail k).
Proof.
  intros ? (? & ? & ? & ? & ? & ? & ? & ?). unfold key_tail, strings_field, string_field.
  json_ok_solve; try done; apply Forall_impl with string_ok; try done; intros; by constructor.
Qed.

Lemma ok_block d e : 1 < d -> rule_ok e.1 /\ strings_ok e.2 -> json_ok d (enc_block e).
Proof.
  intros ? ((? & ?) & ?). unfold enc_block. json_ok_solve; try done. apply Forall_impl with string_ok; [done|].
  intros. by constructor.
Qed.

Lemma ok_file d f : 1 < d -> string_ok (Path f) /\ strings_ok (ChunkHashes f) -> json_ok d (enc_file f).
Proof.
  intros ? (? & ?). unfold enc_file. json_ok_solve; try done. apply Forall_impl with string_ok; [done|].
  intros. by constructor.
Qed.

Lemma payload_ok d : doc_ok d -> json_ok maxNestingDepth (JObj (payload d)).
Proof.
  assert (maxNestingDepth = 10000) as E by done.
  destruct d; cbn [doc_ok payload]; intros Hd; destruct_and?; json_ok_solve; try done;
    try (by apply ok_key_tail; [lia|]); try (by destruct_and?; unfold key_ok in *; destruct_and?);
    (eapply Forall_impl; [eassumption|]); intros x Hx;
    first [ by apply ok_node; [lia|] | by apply ok_rule; [lia|] | by apply ok_block; [lia|]
          | by apply ok_file; [lia|] | by constructor ].
Qed.

(** ** What a verifier sees *)

Lemma canonical_payload d c : canonical d = Ok c -> c = Marshal (JObj (payload d)).
Proof. unfold canonical. destruct (doc_finite d); congruence. Qed.

Lemma ascii_ok s : Forall (fun c => between 0 c 127 = true) s -> string_ok s.
Proof.
  intros Ha. split.
  - eapply Forall_impl; [exact Ha|]. intros c Hc. unfold byte_ok. bytewise.
  - unfold utf8_valid. induction Ha as [|c s Hc _ IH]; [done|]. change (c :: s) with ([c] ++ s).
    rewrite chunks_cons by done. done.
Qed.
Lemma Base64_encode_ok l : bytes_ok l -> string_ok (Base64.encode l).
Proof.
  intros H. apply ascii_ok. unfold Base64.encode.
  apply Forall_map. eapply Forall_impl; [by apply Base64.sextets_range|]. intros v Hv.
  unfold Base64.alphabet. repeat case_match; bytewise.
Qed.

Lemma payload_members d : doc_ok d -> Forall (member_ok maxNestingDepth) (payload d).
Proof. intros H. apply payload_ok in H. by inversion H. Qed.

Section verifier.
Context {ED : Ed25519} {SK : SigningKey}.

Definition good_sig (c : bytes) (s : gostring) : Prop :=
  exists sg, Base64.decode s = Some sg /\ length sg = 64%nat /\ ed25519_verify pub c sg = true.

Lemma signed_text_total d extra : doc_finite d = true -> exists data, signed_text d extra = Ok data.
Proof. intros H. unfold signed_text, signature, canonical. rewrite H. by eexists. Qed.

Lemma signed_text_shape d extra data : signed_text d extra = Ok data ->
  exists s, data = Marshal (JObj (payload d ++ extra ++ field "sig" (JStr s))) /\ string_ok s /\
    good_sig (Marshal (JObj (payload d))) s.
Proof.
  unfold signed_text, signature. destruct (canonical d) as [c| |] eqn:Ec; try done. cbn [mbind res_bind].
  apply canonical_payload in Ec as ->. intros E. eexists. split; [by injection E|]. split.
  - apply Base64_encode_ok, sign_bytes.
  - eexists. split; [apply Base64.b64_decode_encode, sign_bytes|]. split; [apply length_sign | apply verify_sign].
Qed.

Lemma signed_ok d extra s : doc_ok d -> Forall (member_ok maxNestingDepth) extra -> string_ok s ->
  json_ok maxNestingDepth (JObj (payload d ++ extra ++ field "sig" (JStr s))).
Proof.
  intros Hd He Hs. apply payload_members in Hd. assert (maxNestingDepth = 10000) by done. json_ok_solve; done.
Qed.
End verifier.

(** The two pairs of documents with one form: a blacklist is a list of torrent-blocked exits
    with the same addresses, and an empty whitelist an empty list of service blocks. *)
Definition confusable (d1 d2 : document) : Prop :=
  match d1, d2 with
  | DBlacklist t1 a1, DTorrentBlocked t2 a2 | DTorrentBlocked t1 a1, DBlacklist t2 a2 => t1 = t2 /\ a1 = a2
  | DWhitelist t1 [], DServiceBlocks t2 [] | DServiceBlocks t1 [], DWhitelist t2 [] => t1 = t2
  | _, _ => False
  end.

(** The kinds of documents; a list's kind includes its type. *)
Definition kind (d : document) : nat * gostring :=
  match d with
  | DList ty _ _ => (0%nat, ty) | DWhitelist _ _ => (1%nat, []) | DServiceBlocks _ _ => (2%nat, [])
  | DAnonBootstrap _ _ _ => (3%nat, []) | DBlacklist _ _ => (4%nat, []) | DTorrentBlocked _ _ => (5%nat, [])
  | DContent _ _ => (6%nat, []) | DClub _ _ _ _ => (7%nat, []) | DCIDRs _ _ _ => (8%nat, [])
  | DKeyAuth _ => (9%nat, []) | DKey _ _ => (10%nat, []) | DRefresh _ => (11%nat, [])
  end.

Lemma canonical_inj d1 d2 c : doc_ok d1 -> doc_ok d2 -> canonical d1 = Ok c -> canonical d2 = Ok c -> payload d1 = payload d2.
Proof.
  intros H1 H2 E1%canonical_payload E2%canonical_payload. subst c.
  apply Marshal_inj in E2; [congruence | by apply payload_ok..].
Qed.

Lemma JStr_fmap_inj (a b : list gostring) : JStr <$> a = JStr <$> b -> a = b.
Proof. apply list_fmap_eq_inj. by intros ?? [=]. Qed.

Lemma rule_block es bl : enc_rule <$> es = enc_block <$> bl -> es = [] /\ bl = [].
Proof. destruct es as [|e es], bl as [|b bl]; done. Qed.

Lemma key_auth_key k1 k2 pw :
  field "username" (JStr (k_Username k1)) ++ key_tail k1 <> field "username" (JStr (k_Username k2)) ++ field "password" (JStr pw) ++ key_tail k2.
Proof.
  unfold key_tail, strings_field, string_field, omitempty, field.
  destruct (empty_slice (k_Servers k1)), (empty_slice (k_ControlNodes k1)), (is_empty (k_ArbiterPubkey k1)); done.
Qed.

Lemma payloads_separate d1 d2 : payload d1 = payload d2 -> kind d1 = kind d2 \/ confusable d1 d2.
Proof.
  destruct d1, d2; intros E; cbn [kind]; try (by left); try (by cbn in E);
    cbn [payload] in E; try (by apply key_auth_key in E); try (by symmetry in E; apply key_auth_key in E);
    try (injection E as -> _ _; by left); right; cbn [confusable]; injection E as E1%Strconv.itoa_inj E2.
  1: apply rule_block in E2 as [-> ->]; done.
  1: symmetry in E2; apply rule_block in E2 as [-> ->]; done.
  all: apply JStr_fmap_inj in E2; done.
Qed.

(** C15: A signature over one kind of document is worth nothing for another: the signed texts
    of two documents are equal only when the documents are of one kind (for lists of nodes,
    of one type), or when a blacklist and a list of torrent-blocked exits have one time and
    the same addresses, or a whitelist and a list of service blocks are both empty. Those
    two exceptions are real. *)
Theorem documents_separate d1 d2 c :
  doc_ok d1 -> doc_ok d2 -> canonical d1 = Ok c ->
  (canonical d2 = Ok c -> kind d1 = kind d2 \/ confusable d1 d2) /\
  (confusable d1 d2 -> canonical d2 = Ok c).
Proof.
  intros H1 H2 E1. split.
  - intros E2. apply payloads_separate. by eapply canonical_inj.
  - intros C. rewrite <- E1. destruct d1, d2; cbn [confusable] in C; repeat case_match; destruct_and?; by subst.
Qed.

Lemma payload_list d ty ts nodes : payload d = payload (DList ty ts nodes) ->
  exists nodes', d = DList ty ts nodes' /\ enc_node <$> nodes' = enc_node <$> nodes.
Proof.
  intros E. destruct d; try done; cbn [payload] in E. injection E as -> E1%Strconv.itoa_inj E2. subst. eauto.
Qed.

End text.

(** A key for the examples. *)
#[export] Instance toy_key : SigningKey.
Proof.
  refine {| pub := replicate 32 7; ed25519_sign m := replicate 32 7 ++ replicate 32 7 |}; [done| | |done|].
  - by apply (bool_decide_unpack _).
  - intros m. by apply bool_decide_eq_true.
  - intros m. by apply (bool_decide_unpack _).
Defined.

Lemma documents_separate_witness :
  canonical (DTorrentBlocked 5 [bs "10.0.0.1:443"]) = canonical (DBlacklist 5 [bs "10.0.0.1:443"]).
Proof.
  refine (proj2 (documents_separate (DBlacklist 5 [bs "10.0.0.1:443"]) (DTorrentBlocked 5 [bs "10.0.0.1:443"]) _ _ _ eq_refl) _).
  - by apply (bool_decide_unpack _).
  - by apply (bool_decide_unpack _).
  - done.
Defined.
End Signing.
