(* ===== verification/ArbiterPolicy.v ===== *)
(** * The exit reads what the arbiter signs

    The exit's parsers of the five signed lists (ExitPolicy) over the JSON of GoJson, and the
    arbiter's signing functions (ArbiterSigning), composed: every list the arbiter signs is
    accepted and read back as it was. A nil slice of a wire struct is an empty one here; the
    arbiter sends none. *)

From stdpp Require Import base list gmap strings fin_maps fin_sets.
From Stdlib Require Import ZArith Lia.
From S2P Require Import Prelude GoLib GoFloat GoJson ExitPolicy ArbiterSigning.

Module ExitReads.
Import Json Policy Signing.

Section reads.
Context {FT : FloatText} {U : Unicode} {ED : Ed25519} {SK : SigningKey}.

(** ** The exit's wire structs as JSON *)

Definition dec_entry : json -> wire_entry -> option wire_entry := dec_struct (fun kvs e =>
  let ns := names ["type"; "value"] in
  t ← pick ns "type" dec_str (we_type e) kvs; v ← pick ns "value" dec_str (we_value e) kvs; Some (MkWire t v)).
Definition zero_entry : wire_entry := MkWire [] [].
Definition dec_block : json -> wire_entry * list gostring -> option (wire_entry * list gostring) := dec_struct (fun kvs e =>
  let ns := names ["type"; "value"; "blocked_regions"] in
  t ← pick ns "type" dec_str (we_type e.1) kvs; v ← pick ns "value" dec_str (we_value e.1) kvs;
  r ← pick ns "blocked_regions" (dec_list dec_str []) e.2 kvs; Some (MkWire t v, r)).

Definition dec_blacklist : json -> blacklist_wire -> option blacklist_wire := dec_struct (fun kvs w =>
  let ns := names ["ts"; "addrs"; "sig"] in
  ts ← pick ns "ts" dec_int64 (bw_ts w) kvs; addrs ← pick ns "addrs" (dec_list dec_str []) (bw_addrs w) kvs;
  sig ← pick ns "sig" dec_str (bw_sig w) kvs; Some (MkBlWire ts addrs sig)).
Definition dec_torrent : json -> torrent_wire -> option torrent_wire := dec_struct (fun kvs w =>
  let ns := names ["ts"; "addrs"; "self_allowed"; "sig"] in
  ts ← pick ns "ts" dec_int64 (tw_ts w) kvs; addrs ← pick ns "addrs" (dec_list dec_str []) (tw_addrs w) kvs;
  self ← pick ns "self_allowed" dec_bool (tw_self_allowed w) kvs;
  sig ← pick ns "sig" dec_str (tw_sig w) kvs; Some (MkTorrentWire ts addrs self sig)).
Definition dec_rules : json -> rules_wire -> option rules_wire := dec_struct (fun kvs w =>
  let ns := names ["ts"; "entries"; "sig"] in
  ts ← pick ns "ts" dec_int64 (rw_ts w) kvs; es ← pick ns "entries" (dec_list dec_entry zero_entry) (rw_entries w) kvs;
  sig ← pick ns "sig" dec_str (rw_sig w) kvs; Some (MkRulesWire ts es sig)).
Definition dec_blocks : json -> blocks_wire -> option blocks_wire := dec_struct (fun kvs w =>
  let ns := names ["ts"; "entries"; "sig"] in
  ts ← pick ns "ts" dec_int64 (sw_ts w) kvs; es ← pick ns "entries" (dec_list dec_block (zero_entry, [])) (sw_entries w) kvs;
  sig ← pick ns "sig" dec_str (sw_sig w) kvs; Some (MkBlocksWire ts es sig)).
Definition dec_anon : json -> anon_wire -> option anon_wire := dec_struct (fun kvs w =>
  let ns := names ["ts"; "token"; "entries"; "sig"] in
  ts ← pick ns "ts" dec_int64 (aw_ts w) kvs; tok ← pick ns "token" dec_str (aw_token w) kvs;
  es ← pick ns "entries" (dec_list dec_entry zero_entry) (aw_entries w) kvs;
  sig ← pick ns "sig" dec_str (aw_sig w) kvs; Some (MkAnonWire ts tok es sig)).

Abbreviation text d := (Some (Marshal (JObj (payload d)))).
Abbreviation rule_pair := (fun e : wire_entry => (we_type e, we_value e)).

#[local] Instance json_policy : PolicyCodec := {|
  un_blacklist := Unmarshal dec_blacklist (MkBlWire 0 [] []);
  un_torrent := Unmarshal dec_torrent (MkTorrentWire 0 [] false []);
  un_rules := Unmarshal dec_rules (MkRulesWire 0 [] []);
  un_blocks := Unmarshal dec_blocks (MkBlocksWire 0 [] []);
  un_anon := Unmarshal dec_anon (MkAnonWire 0 [] [] []);
  canon_addrs ts addrs := text (DBlacklist ts addrs);
  canon_rules ts es := text (DWhitelist ts (rule_pair <$> es));
  canon_blocks ts es := text (DServiceBlocks ts ((fun '(e, rs) => (we_type e, we_value e, Some rs)) <$> es));
  canon_anon ts tok es := text (DAnonBootstrap ts tok (rule_pair <$> es)) |}.

(** ** Reading back *)

Definition pair_rule (e : gostring * gostring) : wire_entry := MkWire e.1 e.2.

(** Service blocks, whose regions are never nil. *)
Definition block (e : gostring * gostring * list gostring) : gostring * gostring * option (list gostring) := (e.1, Some e.2).
Definition wire_block (e : gostring * gostring * list gostring) : wire_entry * list gostring := (pair_rule e.1, e.2).

Lemma dec_entries_back es : dec_list dec_entry zero_entry (JArr (enc_rule <$> es)) [] = Some (pair_rule <$> es).
Proof. apply dec_list_fmap. by apply Forall_true. Qed.
Lemma dec_blocks_back es : dec_list dec_block (zero_entry, []) (JArr (enc_block <$> (block <$> es))) [] = Some (wire_block <$> es).
Proof.
  rewrite <- list_fmap_compose. apply dec_list_fmap, Forall_true. intros [[t v] rs]. unfold compose.
  change (dec_block (enc_block (block (t, v, rs))) (zero_entry, [])) with
    (r ← (r ← dec_list dec_str [] (JArr (JStr <$> rs)) []; Some r); Some (MkWire t v, r)).
  by rewrite dec_strings.
Qed.

Lemma good_check d s : good_sig (Marshal (JObj (payload d))) s -> check_sig (Some pub) (text d) s = Ok ().
Proof. intros (sg & Ed & El & Ev). unfold check_sig. by rewrite Ed, El, Ev. Qed.

(** [Unmarshal] of a signed text reaches the fields one by one. *)
Ltac open_text :=
  match goal with H : signed_text _ _ = Ok _ |- _ => apply signed_text_shape in H as (s & -> & Hs & Hc) end;
  rewrite Unmarshal_printed by (apply signed_ok; [done | json_ok_solve | done]);
  unfold dec_blacklist, dec_torrent, dec_rules, dec_blocks, dec_anon;
  cbn [dec_struct payload app]; rewrite <- !app_assoc, <- (app_nil_r (field "sig" _)).
Ltac read :=
  repeat pick_step ltac:(first [apply dec_int64_enc; assumption | apply dec_strings | apply dec_entries_back | apply dec_blocks_back | reflexivity])
    ltac:(reflexivity).
Ltac accept d Hc :=
  match goal with |- context [check_sig (Some pub) ?c ?s] =>
    replace (check_sig (Some pub) c s) with (Ok ()) by (symmetry; exact (good_check d _ Hc)) end; reflexivity.

Lemma read_blacklist ts addrs data : int64_ok ts -> Forall string_ok addrs -> signBlacklist ts addrs = Ok data ->
  blacklist_parse (Some pub) data = Ok (lowered_set addrs).
Proof.
  intros Ht Ha E. unfold signBlacklist in E. unfold blacklist_parse, un_blacklist, json_policy. open_text. read.
  accept (DBlacklist ts addrs) Hc.
Qed.

Lemma read_torrent ts addrs caller data : int64_ok ts -> Forall string_ok addrs -> signTorrentBlocked ts addrs caller = Ok data ->
  torrent_parse (Some pub) data = Ok (MkTorrent (lowered_set addrs) (negb (bool_decide (caller ∈ addrs)))).
Proof.
  intros Ht Ha E. unfold signTorrentBlocked in E. unfold torrent_parse, un_torrent, json_policy. open_text. read.
  accept (DTorrentBlocked ts addrs) Hc.
Qed.

Lemma rule_pair_pair (es : list (gostring * gostring)) : rule_pair <$> (pair_rule <$> es) = es.
Proof. rewrite <- list_fmap_compose. rewrite (list_fmap_ext _ id); [apply list_fmap_id|]. by intros ? []. Qed.

Lemma read_whitelist ts es data : int64_ok ts -> Forall rule_ok es -> signWhitelist ts es = Ok data ->
  whitelist_parse (Some pub) data = Ok (ts, omap parse_rule (pair_rule <$> es)).
Proof.
  intros Ht Ha E. unfold signWhitelist in E. unfold whitelist_parse, un_rules, json_policy. open_text. read.
  cbn [rw_ts rw_entries rw_sig]. unfold canon_rules. rewrite rule_pair_pair. accept (DWhitelist ts es) Hc.
Qed.

Lemma read_anon ts tok es data : int64_ok ts -> string_ok tok -> Forall rule_ok es -> signAnonBootstrap ts tok es = Ok data ->
  anon_parse (Some pub) data = Ok (ts, MkAnon tok (omap parse_rule (pair_rule <$> es))).
Proof.
  intros Ht Hk Ha E. unfold signAnonBootstrap in E. unfold anon_parse, un_anon, json_policy. open_text. read.
  cbn [aw_ts aw_token aw_entries aw_sig]. unfold canon_anon. rewrite rule_pair_pair. accept (DAnonBootstrap ts tok es) Hc.
Qed.

Lemma block_block (es : list (gostring * gostring * list gostring)) :
  (fun '(e, rs) => (we_type e, we_value e, Some rs)) <$> (wire_block <$> es) = block <$> es.
Proof. rewrite <- list_fmap_compose. apply list_fmap_ext. by intros ? [[]]. Qed.

Definition upper_block (e : gostring * gostring * list gostring) : option (rule * gset gostring) :=
  r ← parse_rule (pair_rule e.1); Some (r, list_to_set (Strings.ToUpper <$> e.2)).

Lemma read_blocks ts (es : list (gostring * gostring * list gostring)) data :
  int64_ok ts -> Forall (fun e => rule_ok e.1 /\ Forall string_ok e.2) es ->
  signServiceRegionBlocks ts (block <$> es) = Ok data ->
  blocks_parse (Some pub) data = Ok (ts, omap upper_block es).
Proof.
  intros Ht Ha E. unfold signServiceRegionBlocks in E. unfold blocks_parse, un_blocks, json_policy.
  assert (doc_ok (DServiceBlocks ts (block <$> es))) by (by apply Forall_fmap).
  open_text. read. cbn [sw_ts sw_entries sw_sig]. unfold canon_blocks. rewrite block_block.
  replace (omap _ (wire_block <$> es)) with (omap upper_block es).
  - accept (DServiceBlocks ts (block <$> es)) Hc.
  - clear. induction es as [|[[t v] rs] es IH]; [done|]. cbn [omap list_omap fmap list_fmap]. by rewrite IH.
Qed.

(** A blacklist is a list of torrent-blocked exits to the exit that is given it. *)
Lemma blacklist_as_torrents ts addrs data : int64_ok ts -> Forall string_ok addrs -> signBlacklist ts addrs = Ok data ->
  torrent_parse (Some pub) data = Ok (MkTorrent (lowered_set addrs) false).
Proof.
  intros Ht Ha E. unfold signBlacklist in E. unfold torrent_parse, un_torrent, json_policy. open_text. read.
  accept (DBlacklist ts addrs) Hc.
Qed.

(** The whole body is read when it is within the limit. *)
Lemma fetch_body_fits limit data : lenZ data <= limit -> fetch_body limit (Ok (200, data)) = Ok data.
Proof. intros H. unfold fetch_body. cbn [mbind res_bind Z.eqb Pos.eqb negb]. by rewrite LimitReader_fits. Qed.

(** C38: Whatever lists the arbiter's tables hold, the exit that is sent one of the five signed
    lists with status 200 accepts it and has in force exactly its content, whatever it had
    before, as long as the text fits what the exit reads of a reply (64 KiB for the blacklist
    and the torrent list, 1 MiB for the others; [long_blacklist_refused] is a longer one): the
    addresses in lower case, whether torrents may leave through this exit, and the rules that
    parse. A blacklist is accepted in place of a list of torrent-blocked exits too, and then
    forbids torrents on the exit that is given it. *)
Theorem exit_reads_signed_lists ts token addrs caller es (bl : list (gostring * gostring * list gostring)) :
  int64_ok ts -> string_ok token -> Forall string_ok addrs -> Forall rule_ok es ->
  Forall (fun e => rule_ok e.1 /\ Forall string_ok e.2) bl ->
  (exists d, signBlacklist ts addrs = Ok d /\ (lenZ d <= 65536 ->
     (forall old, blacklist_fetch (Some pub) (Ok (200, d)) old = (Ok (), lowered_set addrs)) /\
     forall old, torrent_fetch (Some pub) (Ok (200, d)) old = (Ok (), MkTorrent (lowered_set addrs) false))) /\
  (exists d, signTorrentBlocked ts addrs caller = Ok d /\ (lenZ d <= 65536 -> forall old,
     torrent_fetch (Some pub) (Ok (200, d)) old = (Ok (), MkTorrent (lowered_set addrs) (negb (bool_decide (caller ∈ addrs)))))) /\
  (exists d, signWhitelist ts es = Ok d /\ (lenZ d <= 1048576 -> forall old,
     whitelist_fetch (Some pub) (Ok (200, d)) old = (Ok (), omap parse_rule (pair_rule <$> es)))) /\
  (exists d, signAnonBootstrap ts token es = Ok d /\ (lenZ d <= 1048576 -> forall old,
     anon_fetch (Some pub) (Ok (200, d)) old = (Ok (), MkAnon token (omap parse_rule (pair_rule <$> es))))) /\
  (exists d, signServiceRegionBlocks ts (block <$> bl) = Ok d /\ (lenZ d <= 1048576 -> forall old,
     blocks_fetch (Some pub) (Ok (200, d)) old = (Ok (), omap upper_block bl))).
Proof.
  intros Ht Hk Ha He Hb.
  assert (forall d extra, doc_finite d = true -> exists data, signed_text d extra = Ok data) as Total by apply signed_text_total.
  unfold blacklist_fetch, torrent_fetch, whitelist_fetch, anon_fetch, blocks_fetch. split_and!.
  - destruct (Total (DBlacklist ts addrs) [] eq_refl) as [d E]. exists d.
    split; [done|]. intros Hd. rewrite !fetch_body_fits by exact Hd. cbn [mbind res_bind].
    by rewrite (read_blacklist ts addrs d), (blacklist_as_torrents ts addrs d).
  - edestruct Total as [d E]; [|exists d; split; [exact E|]]; [done|]. intros Hd old. rewrite fetch_body_fits by exact Hd.
    cbn [mbind res_bind]. by rewrite (read_torrent ts addrs caller d).
  - edestruct Total as [d E]; [|exists d; split; [exact E|]]; [done|]. intros Hd old. rewrite fetch_body_fits by exact Hd.
    cbn [mbind res_bind]. by rewrite (read_whitelist ts es d).
  - edestruct Total as [d E]; [|exists d; split; [exact E|]]; [done|]. intros Hd old. rewrite fetch_body_fits by exact Hd.
    cbn [mbind res_bind]. by rewrite (read_anon ts token es d).
  - edestruct Total as [d E]; [|exists d; split; [exact E|]]; [done|]. intros Hd old. rewrite fetch_body_fits by exact Hd.
    cbn [mbind res_bind]. by rewrite (read_blocks ts bl d).
Qed.

End reads.

Lemma exit_reads_signed_lists_witness :
  exists d, signBlacklist 1700000000 [bs "10.0.0.1:443"] = Ok d /\ (lenZ d <= 65536 ->
    (forall old, blacklist_fetch (PC := json_policy) (Some pub) (Ok (200, d)) old = (Ok (), lowered_set [bs "10.0.0.1:443"])) /\
    forall old, torrent_fetch (PC := json_policy) (Some pub) (Ok (200, d)) old = (Ok (), MkTorrent (lowered_set [bs "10.0.0.1:443"]) false)).
Proof.
  destruct (exit_reads_signed_lists 1700000000 (bs "t") [bs "10.0.0.1:443"] (bs "10.0.0.2:443")
    [(bs "domain", bs "navlink.net")] [(bs "cidr", bs "10.0.0.0/8", [bs "RU"])]) as [H _].
  - by apply (bool_decide_unpack _).
  - by apply (bool_decide_unpack _).
  - by apply (bool_decide_unpack _).
  - repeat constructor; by apply (bool_decide_unpack _).
  - repeat constructor; by apply (bool_decide_unpack _).
  - exact H.
Defined.

(** A signed blacklist of four thousand addresses, 72 KB long, is cut at 64 KiB by the exit and
    refused: the list the exit had stays in force. *)
Definition long_list : list gostring := replicate 4000 (bs "255.255.255.255").
Definition long_text : bytes := match signBlacklist 1700000000 long_list with Ok d => d | _ => [] end.
Theorem long_blacklist_refused (old : gset gostring) :
  signBlacklist 1700000000 long_list = Ok long_text /\ 65536 < lenZ long_text
  /\ blacklist_fetch (PC := json_policy) (Some pub) (Ok (200, long_text)) old = (Err "unmarshal", old).
Proof.
  split_and!.
  - unfold long_text, signBlacklist. by destruct (signed_text_total (DBlacklist 1700000000 long_list) [] eq_refl) as [d ->].
  - vm_compute. reflexivity.
  - unfold blacklist_fetch, fetch_body. cbn [mbind res_bind Z.eqb Pos.eqb negb].
    assert (blacklist_parse (PC := json_policy) (Some pub) (LimitReader blacklist_limit long_text) = Err "unmarshal") as ->;
      [vm_compute; reflexivity | done].
Qed.
End ExitReads.
