(* ===== verification/ArbiterManifest.v ===== *)
(** * snc-arbiter: lists of nodes

    signing.go (signList and signListWithConfig), the node lists and manifests served by
    handler.go and manifest_client_api.go, and how a list goes through JSON: [SignedList] is
    the arbiter's wire struct. Reads of the database, the shuffle, the clock and the session
    of the caller are inputs of the handlers. *)

From stdpp Require Import base list gmap strings fin_maps sorting.
From Stdlib Require Import ZArith Lia.
From Stdlib Require Import Floats.SpecFloat.
From S2P Require Import Prelude GoLib GoFloat GoJson ArbiterSigning.

Module Lists.
Import Json Signing.

(** ** Wire structs *)

Record NotificationEntry := MkNotif { n_ID : gostring; n_Message : gostring; n_CreatedAt : Z }.

(** A nil and an empty slice are the same for the fields that are omitted when empty. *)
Record SignedList := MkList {
  l_Type : gostring;
  l_TS : Z;
  l_Nodes : option (list NodeEntry);
  l_Sig : gostring;
  l_Regions : gmap gostring gostring;
  l_RelayEnabled : option bool;
  l_Notifications : list NotificationEntry;
  l_NodeSNIs : gmap gostring (option (list gostring));
  l_Excluded : list gostring;
  l_NodeWLWTPPorts : gmap gostring (option (list Z));
  l_SelfRegion : gostring;
  l_IPv6Enabled : option bool;
  l_NavlinkMirrors : list gostring;
  l_TorrentEnabled : option bool;
  l_TorrentMagnets : gmap gostring gostring;
  l_TorrentManifestMagnet : gostring }.
Definition zero_list : SignedList := MkList [] 0 None [] ∅ None [] ∅ [] ∅ [] None [] None ∅ [].

Abbreviation dec_ints := (dec_slice dec_int64 0).
Abbreviation dec_strs := (dec_slice dec_str []).
Abbreviation enc_strs := (enc_slice JStr).
Abbreviation enc_ints := (enc_slice enc_int64).

Section text.
Context {FT : FloatText}.

Definition enc_notif (n : NotificationEntry) : json :=
  JObj (field "id" (JStr (n_ID n)) ++ field "message" (JStr (n_Message n)) ++ field "created_at" (enc_int64 (n_CreatedAt n))).
Definition dec_notif : json -> NotificationEntry -> option NotificationEntry := dec_struct (fun kvs n =>
  let ns := names ["id"; "message"; "created_at"] in
  id ← pick ns "id" dec_str (n_ID n) kvs; msg ← pick ns "message" dec_str (n_Message n) kvs;
  at_ ← pick ns "created_at" dec_int64 (n_CreatedAt n) kvs; Some (MkNotif id msg at_)).
Definition zero_notif : NotificationEntry := MkNotif [] [] 0.

Definition dec_node : json -> NodeEntry -> option NodeEntry := dec_struct (fun kvs n =>
  let ns := names ["addr"; "fingerprint"; "rtt_ms"; "load"; "data_plane_ok"] in
  a ← pick ns "addr" dec_str (Addr n) kvs; f ← pick ns "fingerprint" dec_str (Fingerprint n) kvs;
  r ← pick ns "rtt_ms" dec_float (RTTms n) kvs; l ← pick ns "load" dec_float (Load n) kvs;
  d ← pick ns "data_plane_ok" dec_pbool (DataPlaneOK n) kvs; Some (MkNodeEntry a f r l d)).

Definition pbool_field (o : option bool) (name : string) := omitempty (is_nil o) name (JBool (default false o)).
Definition list_field {A} (enc : A -> json) (l : list A) (name : string) := omitempty (is_empty l) name (JArr (enc <$> l)).
Definition map_field {A} (enc : A -> json) (m : gmap gostring A) (name : string) :=
  omitempty (is_empty (map_to_list m)) name (enc_map enc m).

Definition enc_list (m : SignedList) : list (gostring * json) :=
  field "type" (JStr (l_Type m)) ++ field "ts" (enc_int64 (l_TS m)) ++ field "nodes" (enc_slice enc_node (l_Nodes m))
  ++ field "sig" (JStr (l_Sig m)) ++ map_field JStr (l_Regions m) "regions"
  ++ pbool_field (l_RelayEnabled m) "relay_enabled" ++ list_field enc_notif (l_Notifications m) "notifications"
  ++ map_field enc_strs (l_NodeSNIs m) "node_snis" ++ list_field JStr (l_Excluded m) "excluded"
  ++ map_field enc_ints (l_NodeWLWTPPorts m) "node_wlwtp_ports" ++ string_field (l_SelfRegion m) "self_region"
  ++ pbool_field (l_IPv6Enabled m) "ipv6_enabled" ++ list_field JStr (l_NavlinkMirrors m) "navlink_mirrors"
  ++ pbool_field (l_TorrentEnabled m) "torrent_enabled" ++ map_field JStr (l_TorrentMagnets m) "torrent_magnets"
  ++ string_field (l_TorrentManifestMagnet m) "torrent_manifest_magnet".

Definition list_names : list gostring := names
  ["type"; "ts"; "nodes"; "sig"; "regions"; "relay_enabled"; "notifications"; "node_snis"; "excluded"; "node_wlwtp_ports";
   "self_region"; "ipv6_enabled"; "navlink_mirrors"; "torrent_enabled"; "torrent_magnets"; "torrent_manifest_magnet"].
Definition dec_SignedList : json -> SignedList -> option SignedList := dec_struct (fun kvs m =>
  let ns := list_names in
  ty ← pick ns "type" dec_str (l_Type m) kvs; ts ← pick ns "ts" dec_int64 (l_TS m) kvs;
  nodes ← pick ns "nodes" (dec_slice dec_node zero_node) (l_Nodes m) kvs; sig ← pick ns "sig" dec_str (l_Sig m) kvs;
  regions ← pick ns "regions" (dec_map dec_str []) (l_Regions m) kvs;
  relay ← pick ns "relay_enabled" dec_pbool (l_RelayEnabled m) kvs;
  notifs ← pick ns "notifications" (dec_list dec_notif zero_notif) (l_Notifications m) kvs;
  snis ← pick ns "node_snis" (dec_map dec_strs None) (l_NodeSNIs m) kvs;
  excl ← pick ns "excluded" (dec_list dec_str []) (l_Excluded m) kvs;
  ports ← pick ns "node_wlwtp_ports" (dec_map dec_ints None) (l_NodeWLWTPPorts m) kvs;
  self ← pick ns "self_region" dec_str (l_SelfRegion m) kvs;
  ipv6 ← pick ns "ipv6_enabled" dec_pbool (l_IPv6Enabled m) kvs;
  mirrors ← pick ns "navlink_mirrors" (dec_list dec_str []) (l_NavlinkMirrors m) kvs;
  torrent ← pick ns "torrent_enabled" dec_pbool (l_TorrentEnabled m) kvs;
  magnets ← pick ns "torrent_magnets" (dec_map dec_str []) (l_TorrentMagnets m) kvs;
  magnet ← pick ns "torrent_manifest_magnet" dec_str (l_TorrentManifestMagnet m) kvs;
  Some (MkList ty ts nodes sig regions relay notifs snis excl ports self ipv6 mirrors torrent magnets magnet)).

(** ** Values that come back *)

Definition not_minus_zero (f : Float.float64) : Prop := f <> S754_zero true.
Definition entry_ok (n : NodeEntry) : Prop := node_ok n /\ not_minus_zero (RTTms n) /\ not_minus_zero (Load n).
Definition notif_ok (n : NotificationEntry) : Prop := string_ok (n_ID n) /\ string_ok (n_Message n) /\ int64_ok (n_CreatedAt n).
Definition map_ok {A} (P : A -> Prop) (m : gmap gostring A) : Prop := map_Forall (fun k a => string_ok k /\ P a) m.
Definition list_ok (m : SignedList) : Prop :=
  string_ok (l_Type m) /\ int64_ok (l_TS m) /\ Forall entry_ok (default [] (l_Nodes m)) /\ string_ok (l_Sig m) /\
  map_ok string_ok (l_Regions m) /\ Forall notif_ok (l_Notifications m) /\ map_ok strings_ok (l_NodeSNIs m) /\
  Forall string_ok (l_Excluded m) /\ map_ok (fun l => Forall int64_ok (default [] l)) (l_NodeWLWTPPorts m) /\
  string_ok (l_SelfRegion m) /\ Forall string_ok (l_NavlinkMirrors m) /\
  map_ok string_ok (l_TorrentMagnets m) /\ string_ok (l_TorrentManifestMagnet m).

Lemma is_empty_nil {A} (l : list A) : is_empty l = true -> l = [].
Proof. by destruct l. Qed.
Lemma is_nil_None {A} (o : option A) : is_nil o = true -> o = None.
Proof. by destruct o. Qed.
Lemma empty_map {A} (m : gmap gostring A) : is_empty (map_to_list m) = true -> m = ∅.
Proof. intros H%is_empty_nil. by apply map_to_list_empty_iff. Qed.
Lemma zero_float f : not_minus_zero f -> Float.feq f Float.f0 = true -> f = Float.f0.
Proof. unfold Float.feq, SFeqb. destruct f as [[]|[]| |[] m e]; cbn; done. Qed.

Lemma dec_pbool_back o old : is_nil o = false -> dec_pbool (JBool (default false o)) old = Some o.
Proof. by destruct o. Qed.

Lemma dec_node_back n : entry_ok n -> dec_node (enc_node n) zero_node = Some n.
Proof.
  intros ((_ & _ & [F1 F2]%andb_true_iff) & Z1 & Z2). unfold dec_node, enc_node. cbn [dec_struct].
  rewrite <- (app_nil_r (omitempty (is_nil _) _ _)).
  pick_step ltac:(reflexivity) idtac.
  pick_step ltac:(reflexivity) ltac:(by apply is_empty_nil).
  pick_step ltac:(by apply parse_float_text) ltac:(by apply zero_float).
  pick_step ltac:(by apply parse_float_text) ltac:(by apply zero_float).
  pick_step ltac:(by apply dec_pbool_back) ltac:(by apply is_nil_None).
  by destruct n.
Qed.

Lemma dec_notif_back n : notif_ok n -> dec_notif (enc_notif n) zero_notif = Some n.
Proof.
  intros (_ & _ & H). unfold dec_notif, enc_notif. cbn [dec_struct]. rewrite <- (app_nil_r (field "created_at" _)).
  do 3 pick_step ltac:(first [apply dec_int64_enc; assumption | reflexivity]) idtac. by destruct n.
Qed.

Lemma dec_nodes_back l : Forall entry_ok (default [] l) -> dec_slice dec_node zero_node (enc_slice enc_node l) None = Some l.
Proof. intros H. apply dec_slice_enc. eapply Forall_impl; [exact H|]. apply dec_node_back. Qed.

Lemma dec_notifs_back l : Forall notif_ok l -> dec_list dec_notif zero_notif (JArr (enc_notif <$> l)) [] = Some l.
Proof.
  intros H. rewrite (dec_list_fmap _ _ id); [by rewrite list_fmap_id|]. eapply Forall_impl; [exact H|]. apply dec_notif_back.
Qed.

Lemma dec_strs_back l : dec_strs (enc_strs l) None = Some l.
Proof. apply dec_slice_enc. by apply Forall_true. Qed.
Lemma dec_ints_back l : Forall int64_ok (default [] l) -> dec_ints (enc_ints l) None = Some l.
Proof. intros H. apply dec_slice_enc. eapply Forall_impl; [exact H|]. intros. by apply dec_int64_enc. Qed.

Lemma dec_smap_back (m : gmap gostring gostring) : dec_map dec_str [] (enc_map JStr m) ∅ = Some m.
Proof. by apply dec_map_enc. Qed.
Lemma dec_ssmap_back (m : gmap gostring (option (list gostring))) : dec_map dec_strs None (enc_map enc_strs m) ∅ = Some m.
Proof. apply dec_map_enc. intros k a _. apply dec_strs_back. Qed.
Lemma dec_simap_back (m : gmap gostring (option (list Z))) :
  map_ok (fun l => Forall int64_ok (default [] l)) m -> dec_map dec_ints None (enc_map enc_ints m) ∅ = Some m.
Proof. intros H. apply dec_map_enc. intros k a Hk. apply dec_ints_back. by apply (H k a). Qed.

End text.

Ltac reads_back := first
  [ apply dec_int64_enc; assumption | apply dec_nodes_back; assumption | apply dec_notifs_back; assumption
  | apply dec_strings | apply dec_smap_back | apply dec_ssmap_back | apply dec_simap_back; assumption
  | apply dec_pbool_back; assumption | reflexivity ].
Ltac was_empty := first [ apply is_empty_nil; assumption | apply is_nil_None; assumption | apply empty_map; assumption | reflexivity ].

Section lists.
Context {FT : FloatText}.

(** The arbiter reads back a list it printed. *)
Lemma dec_list_back m : list_ok m -> dec_SignedList (JObj (enc_list m)) zero_list = Some m.
Proof.
  intros (? & ? & ? & ? & ? & ? & ? & ? & ? & ? & ? & ? & ?). unfold dec_SignedList. cbn [dec_struct].
  rewrite <- (app_nil_r (enc_list m)). unfold enc_list, map_field, list_field, pbool_field, string_field. rewrite <- !app_assoc.
  do 16 pick_step reads_back was_empty. by destruct m.
Qed.

Lemma ok_notif d n : 0 < d -> notif_ok n -> json_ok d (enc_notif n).
Proof. intros ? (? & ? & ?). unfold enc_notif. json_ok_solve; done. Qed.

Lemma enc_list_ok m : list_ok m -> json_ok maxNestingDepth (JObj (enc_list m)).
Proof.
  assert (maxNestingDepth = 10000) as E by done.
  intros (? & ? & ? & ? & ? & ? & ? & ? & ? & ? & ? & ? & ?).
  unfold enc_list, map_field, list_field, pbool_field, string_field. json_ok_solve; try done.
  - eapply Forall_impl; [eassumption|]. intros n [Hn _]. by apply ok_node; [lia|].
  - intros k a [? ?]%H3. split; [done | by apply ok_str].
  - eapply Forall_impl; [eassumption|]. intros n Hn. by apply ok_notif; [lia|].
  - intros k a [? ?]%H5. split; [done|]. by apply ok_strings; [lia|].
  - eapply Forall_impl; [eassumption|]. intros. by apply ok_str.
  - intros k a [? ?]%H7. split; [done|]. json_ok_solve. eapply Forall_impl; [eassumption|]. intros. apply ok_int64.
  - eapply Forall_impl; [eassumption|]. intros. by apply ok_str.
  - intros k a [? ?]%H10. split; [done | by apply ok_str].
Qed.

Definition marshal_list (m : SignedList) : res bytes :=
  if forallb node_finite (default [] (l_Nodes m)) then Ok (Marshal (JObj (enc_list m))) else Err "json: unsupported value".
Definition unmarshal_list (data : bytes) : option SignedList := Unmarshal dec_SignedList zero_list data.

(** ** Signing *)

(** The columns of the nodes table that the lists use. *)
Record Node := MkNode {
  node_Type : gostring; node_Addr : gostring; node_Fingerprint : gostring; node_RTTms : Float.float64;
  node_Load : Float.float64; node_DataPlaneOK : option bool; node_RegionOverride : gostring;
  node_SNIList : gostring; node_Pinned : bool }.
Definition entry_of (n : Node) : NodeEntry :=
  MkNodeEntry (node_Addr n) (node_Fingerprint n) (node_RTTms n) (node_Load n) (node_DataPlaneOK n).

Definition region_map (f : gostring -> gostring) (entries : list NodeEntry) : gmap gostring gostring :=
  foldl (fun m e => if decide (f (Addr e) = []) then m else <[Addr e := f (Addr e)]> m) ∅ entries.

Definition base_list (ty : gostring) (ts : Z) (entries : list NodeEntry) (sig : gostring) (regions : gmap gostring gostring) : SignedList :=
  MkList ty ts (Some entries) sig regions None [] ∅ [] ∅ [] None [] None ∅ [].

Section signer.
Context {U : Unicode} {ED : Ed25519} {SK : SigningKey}.

Definition signList (ts : Z) (listType : gostring) (nodes : list Node) (regionFn : option (gostring -> gostring)) : res bytes :=
  let entries := entry_of <$> nodes in
  sig ← signature (DList listType ts entries);
  marshal_list (base_list listType ts entries sig (match regionFn with None => ∅ | Some f => region_map f entries end)).

Definition with_config (relay : bool) (selfRegion : gostring) (m : SignedList) : SignedList :=
  MkList (l_Type m) (l_TS m) (l_Nodes m) (l_Sig m) (l_Regions m) (Some relay) (l_Notifications m) (l_NodeSNIs m) (l_Excluded m)
    (l_NodeWLWTPPorts m) selfRegion (l_IPv6Enabled m) (l_NavlinkMirrors m) (l_TorrentEnabled m) (l_TorrentMagnets m)
    (l_TorrentManifestMagnet m).
Definition signListWithConfig (ts : Z) (listType : gostring) (nodes : list Node) (regionFn : option (gostring -> gostring))
    (relayEnabled : bool) (selfRegion : gostring) : res bytes :=
  data ← signList ts listType nodes regionFn;
  match unmarshal_list data with
  | None => Err "unmarshal"
  | Some m => marshal_list (with_config relayEnabled selfRegion m)
  end.

(** ** The handlers *)

Definition regionFnWithOverrides (regionOf : gostring -> gostring) (nodes : list Node) (addr : gostring) : gostring :=
  let overrides := foldl (fun m n => if decide (node_RegionOverride n = []) then m else <[node_Addr n := node_RegionOverride n]> m)
    (∅ : gmap gostring gostring) nodes in
  default (regionOf addr) (overrides !! addr).

(** [splitSNIList]. *)
Definition splitSNIList (s : gostring) : list gostring :=
  List.filter (fun v => negb (is_empty v)) (Strings.TrimSpace <$> Strings.split_by (Z.eqb 44) s).

Definition maxManifestNodes : Z := 12.
Definition sampleNodes (rnd : nat -> nat) (nodes : list Node) (n : Z) : list Node :=
  if lenZ nodes <=? n then nodes else take (Z.to_nat n) (Rand.rand_Shuffle rnd nodes).
Definition selectManifestNodes (rnd : nat -> nat) (nodes : list Node) (n : Z) : list Node :=
  let pinned := List.filter node_Pinned nodes in
  let rest := List.filter (fun x => negb (node_Pinned x)) nodes in
  let remaining := n - lenZ pinned in
  if remaining <=? 0 then pinned else pinned ++ sampleNodes rnd rest remaining.

Inductive reply := HttpError (code : Z) (msg : string) | HttpOK (body : bytes).
Definition of_signed (r : res bytes) : reply :=
  match r with Ok data => HttpOK data | _ => HttpError 500 "signing error" end.

(** The caller, by its node token; [found] is what nodeByToken gives for it. *)
Definition node_caller (token : gostring) (found : res (option Node)) (types : list gostring) : Node + string :=
  if decide (token = []) then inr "X-Node-Token required"
  else match found with
       | Ok (Some n) => if decide (node_Type n ∈ types) then inl n else inr "unauthorized"
       | _ => inr "unauthorized"
       end.

Definition apiExits (ts : Z) (token : gostring) (found : res (option Node)) (exits : res (list Node))
    (regionOf : gostring -> gostring) (relayOn : bool) : reply :=
  match node_caller token found [bs "control"; bs "exit"] with
  | inr msg => HttpError 401 msg
  | inl node =>
      match exits with
      | Ok exits =>
          let f := regionFnWithOverrides regionOf exits in
          of_signed (signListWithConfig ts (bs "exits") exits (Some f) relayOn (f (node_Addr node)))
      | _ => HttpError 500 "internal error"
      end
  end.
Definition apiNodes (ts : Z) (controls : res (list Node)) (regionOf : gostring -> gostring) : reply :=
  match controls with
  | Ok controls => of_signed (signList ts (bs "controls") controls (Some (regionFnWithOverrides regionOf controls)))
  | _ => HttpError 500 "internal error"
  end.

(** What a manifest is built from besides the nodes. [a_userNotifs] are those of the caller's
    session when it is valid and the query works. The last five are used by the endpoint that
    clients reach directly only. *)
Record advice := MkAdvice {
  a_notifCache : list NotificationEntry;
  a_userNotifs : option (list NotificationEntry);
  a_excluded : res (list gostring);
  a_ipv6On : bool;
  a_torrentOn : bool;
  a_magnets : gmap gostring gostring;
  a_manifestMagnet : gostring;
  a_wlwtpPorts : gmap gostring (list Z);
  a_mirrors : res (list gostring) }.

Definition notifs_of (a : advice) : list NotificationEntry := default (a_notifCache a) (a_userNotifs a).
Definition excluded_of (a : advice) : list gostring := match a_excluded a with Ok l => l | _ => [] end.
Definition mirrors_of (a : advice) : list gostring := match a_mirrors a with Ok l => l | _ => [] end.
Definition snis_of (selected : list Node) : gmap gostring (option (list gostring)) :=
  foldl (fun m n => let snis := splitSNIList (node_SNIList n) in
    if is_empty (node_SNIList n) || is_empty snis then m else <[node_Addr n := Some snis]> m) ∅ selected.
Definition ports_of (a : advice) (selected : list Node) : gmap gostring (option (list Z)) :=
  foldl (fun m n => match a_wlwtpPorts a !! node_Addr n with
    | Some (p :: ps) => <[node_Addr n := Some (p :: ps)]> m | _ => m end) ∅ selected.

(** The advisory fields each endpoint adds to the signed list; a field that would be empty
    keeps what the list has. *)
Definition keep {A} (l old : list A) : list A := if is_empty l then old else l.
Definition keep_map {A} (m old : gmap gostring A) : gmap gostring A := if is_empty (map_to_list m) then old else m.
Definition exit_advice (a : advice) (selected : list Node) (m : SignedList) : SignedList :=
  MkList (l_Type m) (l_TS m) (l_Nodes m) (l_Sig m) (l_Regions m) (l_RelayEnabled m) (keep (notifs_of a) (l_Notifications m))
    (keep_map (snis_of selected) (l_NodeSNIs m)) (keep (excluded_of a) (l_Excluded m)) (l_NodeWLWTPPorts m) (l_SelfRegion m)
    (Some (a_ipv6On a)) (l_NavlinkMirrors m) (l_TorrentEnabled m) (l_TorrentMagnets m) (l_TorrentManifestMagnet m).
Definition client_advice (a : advice) (selected : list Node) (m : SignedList) : SignedList :=
  MkList (l_Type m) (l_TS m) (l_Nodes m) (l_Sig m) (l_Regions m) (l_RelayEnabled m) (keep (notifs_of a) (l_Notifications m))
    (keep_map (snis_of selected) (l_NodeSNIs m)) (keep (excluded_of a) (l_Excluded m))
    (keep_map (ports_of a selected) (l_NodeWLWTPPorts m)) (l_SelfRegion m)
    (Some (a_ipv6On a)) (keep (mirrors_of a) (l_NavlinkMirrors m)) (Some (a_torrentOn a)) (a_magnets a) (a_manifestMagnet a).
(** The list is read back, extended and printed again; when one of the two fails it is sent
    as it was signed. *)
Definition extend (f : SignedList -> SignedList) (data : bytes) : bytes :=
  match unmarshal_list data with
  | Some m => match marshal_list (f m) with Ok out => out | _ => data end
  | None => data
  end.

Definition manifest_reply (ts : Z) (rnd : nat -> nat) (controls : res (list Node)) (regionOf : gostring -> gostring)
    (f : list Node -> SignedList -> SignedList) : reply :=
  match controls with
  | Ok controls =>
      let selected := selectManifestNodes rnd controls maxManifestNodes in
      match signList ts (bs "manifest") selected (Some (regionFnWithOverrides regionOf controls)) with
      | Ok data => HttpOK (extend (f selected) data)
      | _ => HttpError 500 "signing error"
      end
  | _ => HttpError 500 "internal error"
  end.
Definition apiManifest (ts : Z) (token : gostring) (found : res (option Node)) (rnd : nat -> nat)
    (controls : res (list Node)) (regionOf : gostring -> gostring) (a : advice) : reply :=
  match node_caller token found [bs "exit"] with
  | inr msg => HttpError 401 msg
  | inl _ => manifest_reply ts rnd controls regionOf (exit_advice a)
  end.
(** [apiManifestClientFetch], behind the shared key and the rate limiter. *)
Definition apiManifestClientFetch (ts : Z) (keyOK allowed : bool) (rnd : nat -> nat) (controls : res (list Node))
    (regionOf : gostring -> gostring) (a : advice) : reply :=
  if negb keyOK then HttpError 401 "unauthorized"
  else if negb allowed then HttpError 429 "too many requests"
  else manifest_reply ts rnd controls regionOf (client_advice a).

(** The torrent of the arbiter's manifest holds a list of this type. *)
Definition manifest_torrent (ts : Z) (controls : res (list Node)) (regionOf : gostring -> gostring) : res bytes :=
  controls ← controls; signList ts (bs "controls") controls (Some (regionFnWithOverrides regionOf controls)).
End signer.

End lists.
End Lists.
