(* ===== verification/ClientDiscovery.v ===== *)
(** * snc/core: discovery of control nodes

    discovery.go: the signed manifest, its verification, and the Discoverer that keeps the
    controls it names. [verify] and [setControls] lock the Discoverer separately, and files
    are written after that, so an operation is a list of atomic [act]s, and operations that
    run at the same time interleave them ([step]). HTTP replies, the shuffle and the file
    system's answers are inputs. The encryption of the cache file is a parameter: DPAPI on
    Windows, nothing elsewhere (nodeid_other.go).

    Together with ArbiterManifest the theorems show what a client takes from the arbiter:
    [client_reads_manifest] and [magnets_refused]. *)

From stdpp Require Import base list gmap strings fin_maps sorting.
From Stdlib Require Import ZArith Lia.
From Stdlib Require Import Floats.SpecFloat.
From S2P Require Import Prelude GoLib GoFloat GoJson ArbiterSigning ArbiterManifest.

Module Discovery.
Import Json Signing Lists.

(** ** The manifest *)

(** manifestNode and Notification have the fields of the arbiter's NodeEntry and
    NotificationEntry. *)
Record signedManifest := MkManifest {
  m_Type : gostring;
  m_TS : Z;
  m_Nodes : option (list NodeEntry);
  m_Sig : gostring;
  m_Regions : gmap gostring gostring;
  m_Notifications : list NotificationEntry;
  m_NodeSNIs : gmap gostring (option (list gostring));
  m_Excluded : list gostring;
  m_NodeWLWTPPorts : gmap gostring (option (list Z));
  m_IPv6Enabled : option bool;
  m_NavlinkMirrors : list gostring;
  m_TorrentEnabled : option bool;
  m_TorrentMagnets : gmap gostring gostring;
  m_TorrentManifestMagnet : gostring;
  m_TorrentHashes : gmap gostring gostring }.
Definition zero_manifest : signedManifest := MkManifest [] 0 None [] ∅ [] ∅ [] ∅ None [] None ∅ [] ∅.

(** What [verify] returns. *)
Record verified := MkVerified {
  v_addrs : list gostring;
  v_regions : gmap gostring gostring;
  v_notifs : list NotificationEntry;
  v_snis : gmap gostring (option (list gostring));
  v_wlwtpPorts : gmap gostring (option (list Z));
  v_fingerprints : gmap gostring gostring;
  v_loadFactors : gmap gostring Float.float64;
  v_ipv6Enabled : option bool;
  v_navlinkMirrors : list gostring;
  v_torrentEnabled : option bool }.

(** The three fields [verify] stores itself. *)
Record torrents := MkTorrents { t_magnets : gmap gostring gostring; t_manifestMagnet : gostring; t_hashes : gmap gostring gostring }.

Section discovery.
Context {FT : FloatText}.

Definition manifest_names : list gostring := names
  ["type"; "ts"; "nodes"; "sig"; "regions"; "notifications"; "node_snis"; "excluded"; "node_wlwtp_ports"; "ipv6_enabled";
   "navlink_mirrors"; "torrent_enabled"; "torrent_magnets"; "torrent_manifest_magnet"; "torrent_hashes"].
Definition dec_manifest : json -> signedManifest -> option signedManifest := dec_struct (fun kvs m =>
  let ns := manifest_names in
  ty ← pick ns "type" dec_str (m_Type m) kvs; ts ← pick ns "ts" dec_int64 (m_TS m) kvs;
  nodes ← pick ns "nodes" (dec_slice dec_node zero_node) (m_Nodes m) kvs; sig ← pick ns "sig" dec_str (m_Sig m) kvs;
  regions ← pick ns "regions" (dec_map dec_str []) (m_Regions m) kvs;
  notifs ← pick ns "notifications" (dec_list dec_notif zero_notif) (m_Notifications m) kvs;
  snis ← pick ns "node_snis" (dec_map dec_strs None) (m_NodeSNIs m) kvs;
  excl ← pick ns "excluded" (dec_list dec_str []) (m_Excluded m) kvs;
  ports ← pick ns "node_wlwtp_ports" (dec_map dec_ints None) (m_NodeWLWTPPorts m) kvs;
  ipv6 ← pick ns "ipv6_enabled" dec_pbool (m_IPv6Enabled m) kvs;
  mirrors ← pick ns "navlink_mirrors" (dec_list dec_str []) (m_NavlinkMirrors m) kvs;
  torrent ← pick ns "torrent_enabled" dec_pbool (m_TorrentEnabled m) kvs;
  magnets ← pick ns "torrent_magnets" (dec_map dec_str []) (m_TorrentMagnets m) kvs;
  magnet ← pick ns "torrent_manifest_magnet" dec_str (m_TorrentManifestMagnet m) kvs;
  hashes ← pick ns "torrent_hashes" (dec_map dec_str []) (m_TorrentHashes m) kvs;
  Some (MkManifest ty ts nodes sig regions notifs snis excl ports ipv6 mirrors torrent magnets magnet hashes)).

(** The payload rebuilt for verification; it is nil when it cannot be printed. *)
Definition manifest_payload (m : signedManifest) : list (gostring * json) :=
  field "type" (JStr (m_Type m)) ++ field "ts" (enc_int64 (m_TS m)) ++ field "nodes" (enc_slice enc_node (m_Nodes m))
  ++ map_field JStr (m_TorrentMagnets m) "torrent_magnets" ++ string_field (m_TorrentManifestMagnet m) "torrent_manifest_magnet"
  ++ map_field JStr (m_TorrentHashes m) "torrent_hashes".
Definition manifest_canonical (m : signedManifest) : bytes :=
  if forallb node_finite (default [] (m_Nodes m)) then Marshal (JObj (manifest_payload m)) else [].

(** The nodes that are kept, in order. *)
Definition kept (m : signedManifest) : list NodeEntry :=
  List.filter (fun n => negb (is_empty (Addr n)) && negb (bool_decide (Addr n ∈ m_Excluded m))) (default [] (m_Nodes m)).
Definition manifest_verified (m : signedManifest) : verified := {|
  v_addrs := Addr <$> kept m; v_regions := m_Regions m; v_notifs := m_Notifications m; v_snis := m_NodeSNIs m;
  v_wlwtpPorts := m_NodeWLWTPPorts m;
  v_fingerprints := foldl (fun f n => if is_empty (Fingerprint n) then f else <[Addr n := Fingerprint n]> f) ∅ (kept m);
  v_loadFactors := foldl (fun f n => if Float.flt Float.f0 (Load n) then <[Addr n := Load n]> f else f) ∅ (kept m);
  v_ipv6Enabled := m_IPv6Enabled m; v_navlinkMirrors := m_NavlinkMirrors m; v_torrentEnabled := m_TorrentEnabled m |}.
Definition manifest_torrents (m : signedManifest) : torrents :=
  MkTorrents (m_TorrentMagnets m) (m_TorrentManifestMagnet m) (m_TorrentHashes m).

Context {U : Unicode} {ED : Ed25519}.

(** The signature check of [verify]; without a key there is none. *)
Definition sig_ok (pubkey : option bytes) (m : signedManifest) : bool :=
  match pubkey with
  | None => true
  | Some key =>
      match Base64.decode (m_Sig m) with
      | Some sig => ed25519_verify key (manifest_canonical m) sig
      | None => false
      end
  end.
(** [verify]; the fields it stores are those of the manifest it returns. *)
Definition verify (pubkey : option bytes) (data : bytes) : res signedManifest :=
  match Unmarshal dec_manifest zero_manifest data with
  | None => Err "parse"
  | Some m =>
      if negb (bool_decide (m_Type m = bs "manifest")) then Err "unexpected manifest type"
      else if negb (sig_ok pubkey m) then Err "signature verification failed"
      else if is_empty (kept m) then Err "manifest contains no control nodes"
      else Ok m
  end.

(** [NewDiscoverer]'s key: none for an empty string, an error for a malformed one. *)
Definition parse_pubkey (pubkeyHex : gostring) : res (option bytes) :=
  if decide (pubkeyHex = []) then Ok None
  else match Hex.decode pubkeyHex with
       | Some b => if (length b =? 32)%nat then Ok (Some b) else Err "discovery: invalid arbiter pubkey hex"
       | None => Err "discovery: invalid arbiter pubkey hex"
       end.

(** The encryption of the cache file. *)
Context (nodeIDEncrypt nodeIDDecrypt : bytes -> res bytes).
Definition decrypted (enc : bytes) : bytes := match nodeIDDecrypt enc with Ok plain => plain | _ => enc end.

(** [ReadManifestCacheControlsAndRegions] on the file's content. *)
Definition ReadManifestCacheControlsAndRegions (file : res bytes) (pubkeyHex : gostring) : list gostring * gmap gostring gostring :=
  match file with
  | Ok enc =>
      let key := match parse_pubkey pubkeyHex with Ok k => k | _ => None end in
      match verify key (decrypted enc) with
      | Ok m => (v_addrs (manifest_verified m), m_Regions m)
      | _ => ([], ∅)
      end
  | _ => ([], ∅)
  end.
Definition BootstrapControlList (cachedControls keyNodes : list gostring) : list gostring :=
  if is_empty cachedControls then keyNodes else cachedControls.

(** ** The Discoverer *)

Record Discoverer := MkDisc {
  pubkey : option bytes;
  cacheFile : gostring;
  serverURLs : list gostring;
  current : option verified;       (** nil until the first manifest *)
  d_torrents : torrents;
  manifestSource : Z;
  ipv6TunnelDisabled : bool;       (** process-wide *)
  torrentManifestAllowed : bool;   (** process-wide *)
  navlinkSet : bool;
  disk : option bytes }.           (** the cache file *)

Definition control_url (a : gostring) : gostring :=
  if Strings.HasPrefix a (bs "http") then a else bs "https://" ++ a.

Fixpoint trim_right_slash (s : gostring) : gostring :=
  match s with
  | [] => []
  | c :: s => match trim_right_slash s with [] => if c =? 47 then [] else [c] | t => c :: t end
  end.
Definition NewDiscoverer (serverURL pubkeyHex : gostring) (cache : gostring) (navlink : bool) (file : option bytes) : res Discoverer :=
  k ← parse_pubkey pubkeyHex;
  Ok (MkDisc k cache [trim_right_slash serverURL] None (MkTorrents ∅ [] ∅) 0 false false navlink file).

(** The atomic parts of the operations. *)
Inductive act :=
| NoteTorrents (t : torrents)          (** the last lines of [verify] *)
| SetControls (v : verified)           (** [setControls] under its lock *)
| Source (s : Z)
| Persist (data : bytes) (ok : bool).  (** [persist]; [ok] when the directory and the file can be written *)

Definition run_act (x : act) (d : Discoverer) : Discoverer :=
  match x with
  | NoteTorrents t =>
      MkDisc (pubkey d) (cacheFile d) (serverURLs d) (current d) t (manifestSource d) (ipv6TunnelDisabled d)
        (torrentManifestAllowed d) (navlinkSet d) (disk d)
  | SetControls v =>
      let urls := control_url <$> v_addrs v in
      MkDisc (pubkey d) (cacheFile d) (if is_empty urls then serverURLs d else urls) (Some v) (d_torrents d) (manifestSource d)
        (match v_ipv6Enabled v with Some b => negb b | None => ipv6TunnelDisabled d end)
        (match v_torrentEnabled v with Some b => b | None => torrentManifestAllowed d end) (navlinkSet d) (disk d)
  | Source s =>
      MkDisc (pubkey d) (cacheFile d) (serverURLs d) (current d) (d_torrents d) s (ipv6TunnelDisabled d)
        (torrentManifestAllowed d) (navlinkSet d) (disk d)
  | Persist data ok =>
      match (if ok then nodeIDEncrypt data else Err "mkdir") with
      | Ok enc =>
          MkDisc (pubkey d) (cacheFile d) (serverURLs d) (current d) (d_torrents d) (manifestSource d) (ipv6TunnelDisabled d)
            (torrentManifestAllowed d) (navlinkSet d) (Some enc)
      | _ => d
      end
  end.

Definition apply_acts (m : signedManifest) : list act := [NoteTorrents (manifest_torrents m); SetControls (manifest_verified m)].
Definition persist_act (cache : gostring) (data : bytes) (ok : bool) : list act := if is_empty cache then [] else [Persist data ok].

(** [LoadCached] on what reading the file gave. *)
Definition LoadCached (d : Discoverer) (file : res bytes) : res () * list act :=
  if is_empty (cacheFile d) then (Err "discovery: no cache file configured", [])
  else match file with
       | Ok enc =>
           match verify (pubkey d) (decrypted enc) with
           | Ok m => (Ok (), apply_acts m ++ [Source 1])
           | _ => (Err "discovery: cached manifest invalid", [])
           end
       | _ => (Err "read", [])
       end.
Definition InjectRaw (d : Discoverer) (data : bytes) (ok : bool) : res () * list act :=
  match verify (pubkey d) data with
  | Ok m => (Ok (), apply_acts m ++ persist_act (cacheFile d) data ok)
  | _ => (Err "discovery: inject verify", [])
  end.
(** [FetchFromNavlink] and [fetch] get a body of at most 4 MB with status 200 that is not empty. *)
Definition good_body (r : res bytes) : option bytes := match r with Ok (c :: b) => Some (c :: b) | _ => None end.
Definition FetchFromNavlink (d : Discoverer) (reply : res bytes) (ok : bool) : res () * list act :=
  match good_body reply with Some data => InjectRaw d data ok | None => (Err "navlink", []) end.

(** The URLs [fetch] tries: those known and the provider's, without repetition or empty ones. *)
Fixpoint merge_urls (seen : gset gostring) (urls extra : list gostring) : list gostring :=
  match extra with
  | [] => urls
  | u :: extra =>
      if is_empty u || bool_decide (u ∈ seen) then merge_urls seen urls extra
      else merge_urls ({[u]} ∪ seen) (urls ++ [u]) extra
  end.
Fixpoint first_reply (replies : gostring -> res bytes) (urls : list gostring) : option bytes :=
  match urls with
  | [] => None
  | u :: urls => match good_body (replies (u ++ bs "/p/v1/manifest")) with Some data => Some data | None => first_reply replies urls end
  end.
Definition fetch (d : Discoverer) (extra : option (list gostring)) (rnd : nat -> nat) (replies : gostring -> res bytes) : option bytes :=
  let urls := match extra with Some e => merge_urls (list_to_set (serverURLs d)) (serverURLs d) e | None => serverURLs d end in
  first_reply replies (Rand.rand_Shuffle rnd urls).

Record fetch_env := MkFetch {
  f_extra : option (list gostring); f_rnd : nat -> nat; f_replies : gostring -> res bytes; f_navlink : res bytes; f_disk_ok : bool }.
Definition fetchAndApply (d : Discoverer) (e : fetch_env) : list act :=
  match fetch d (f_extra e) (f_rnd e) (f_replies e) with
  | None =>
      if navlinkSet d then
        match FetchFromNavlink d (f_navlink e) (f_disk_ok e) with
        | (Ok _, acts) => acts ++ [Source 2]
        | (_, acts) => acts
        end
      else []
  | Some data =>
      match verify (pubkey d) data with
      | Ok m => apply_acts m ++ [Source 2] ++ persist_act (cacheFile d) data (f_disk_ok e)
      | _ => []
      end
  end.
(** [ProbeManifest] verifies without applying: only the torrent fields change. *)
Definition ProbeManifest (d : Discoverer) (e : fetch_env) : res Z * list act :=
  match fetch d (f_extra e) (f_rnd e) (f_replies e) with
  | None => (Err "fetch", [])
  | Some data =>
      match verify (pubkey d) data with
      | Ok m => (Ok (lenZ (v_addrs (manifest_verified m))), [NoteTorrents (manifest_torrents m)])
      | _ => (Err "verify", [])
      end
  end.

(** [manifestTS] reads one field and ignores errors. *)
Definition manifestTS (data : bytes) : Z :=
  match Parse data with
  | Some (JObj kvs) =>
      foldl (fun ts kv => if bool_decide (selects (names ["ts"]) kv.1 = Some (bs "ts")) then default ts (dec_int64 kv.2 ts) else ts) 0 kvs
  | _ => 0
  end.

(** Accessors. *)
Definition Controls (d : Discoverer) : list gostring := match current d with Some v => v_addrs v | None => [] end.
Definition Regions (d : Discoverer) : gmap gostring gostring := match current d with Some v => v_regions v | None => ∅ end.
Definition FingerprintFor (d : Discoverer) (addr : gostring) : gostring :=
  match current d with Some v => default [] (v_fingerprints v !! addr) | None => [] end.
Definition SNIFor (d : Discoverer) (addr : gostring) (draw : nat) : gostring :=
  match current d with
  | Some v => match v_snis v !! addr with
              | Some (Some (s :: l)) => nth (draw mod length (s :: l)) (s :: l) []
              | _ => []
              end
  | None => []
  end.
Definition WLWTPPorts (d : Discoverer) (addr : gostring) : list Z :=
  match current d with Some v => match v_wlwtpPorts v !! addr with Some (Some l) => l | _ => [] end | None => [] end.
Definition TorrentHash (d : Discoverer) (slug : gostring) : gostring := default [] (t_hashes (d_torrents d) !! slug).
Definition ManifestStatus (d : Discoverer) : string :=
  if manifestSource d =? 1 then "cached" else if manifestSource d =? 2 then "fresh" else "none".

(** ** Interleavings *)

(** What is under way: the acts that remain of every running operation. *)
Record world := MkWorld { disc : Discoverer; running : list (list act) }.
Definition start (acts : list act) (w : world) : world := MkWorld (disc w) (running w ++ [acts]).

(** The texts the network and the file system may hand over. *)
Context (text_ok : bytes -> Prop).
Definition reply_ok (r : res bytes) : Prop := match r with Ok b => text_ok b | _ => True end.
Definition env_ok (e : fetch_env) : Prop := (forall u, reply_ok (f_replies e u)) /\ reply_ok (f_navlink e).
Definition file_ok (file : res bytes) : Prop := match file with Ok b => text_ok (decrypted b) | _ => True end.

Inductive step : world -> world -> Prop :=
| step_load w file : file_ok file -> step w (start (LoadCached (disc w) file).2 w)
| step_inject w data ok : text_ok data -> step w (start (InjectRaw (disc w) data ok).2 w)
| step_fetch w e : env_ok e -> step w (start (fetchAndApply (disc w) e) w)
| step_probe w e : env_ok e -> step w (start (ProbeManifest (disc w) e).2 w)
| step_act w a x acts b : running w = a ++ (x :: acts) :: b ->
    step w (MkWorld (run_act x (disc w)) (a ++ acts :: b)).

Inductive reachable (d0 : Discoverer) : world -> Prop :=
| reach_init : reachable d0 (MkWorld d0 [])
| reach_step w w' : reachable d0 w -> step w w' -> reachable d0 w'.

(** ** Everything comes from a verified manifest *)

(** [m] is the content of a text that verified. *)
Definition accepted (key : option bytes) (data : bytes) (m : signedManifest) : Prop := text_ok data /\ verify key data = Ok m.

Definition act_ok (key : option bytes) (x : act) : Prop :=
  match x with
  | NoteTorrents t => exists data m, accepted key data m /\ t = manifest_torrents m
  | SetControls v => exists data m, accepted key data m /\ v = manifest_verified m
  | Source _ => True
  | Persist data _ => exists m, accepted key data m
  end.

Lemma apply_acts_ok key data m : accepted key data m -> Forall (act_ok key) (apply_acts m).
Proof. intros H. repeat constructor; by exists data, m. Qed.
Lemma persist_ok key cache data ok m : accepted key data m -> Forall (act_ok key) (persist_act cache data ok).
Proof. intros H. unfold persist_act. destruct (is_empty cache); repeat constructor. by exists m. Qed.

Lemma InjectRaw_acts d data ok : text_ok data -> Forall (act_ok (pubkey d)) (InjectRaw d data ok).2.
Proof.
  intros Hd. unfold InjectRaw. destruct (verify (pubkey d) data) as [m| |] eqn:E; try by constructor.
  apply Forall_app_2; [by eapply apply_acts_ok | by eapply persist_ok].
Qed.

Lemma good_body_ok r data : reply_ok r -> good_body r = Some data -> text_ok data.
Proof. destruct r as [[|c b]| |]; try done. by intros ? [= <-]. Qed.

Lemma fetch_bytes d extra rnd replies data : (forall u, reply_ok (replies u)) -> fetch d extra rnd replies = Some data -> text_ok data.
Proof.
  intros Hr. unfold fetch. generalize (Rand.rand_Shuffle rnd (match extra with Some e => merge_urls (list_to_set (serverURLs d)) (serverURLs d) e | None => serverURLs d end)).
  induction l as [|u l IH]; cbn [first_reply]; [done|]. destruct (good_body _) eqn:E; [|done]. intros [= <-].
  eapply good_body_ok; [apply Hr | exact E].
Qed.

Lemma fetchAndApply_acts d e : env_ok e -> Forall (act_ok (pubkey d)) (fetchAndApply d e).
Proof.
  intros [Hr Hn]. unfold fetchAndApply. destruct (fetch _ _ _ _) as [data|] eqn:Ef.
  - apply fetch_bytes in Ef; [|done]. destruct (verify (pubkey d) data) as [m| |] eqn:E; try by constructor.
    apply Forall_app_2; [by eapply apply_acts_ok|]. constructor; [done|]. by eapply persist_ok.
  - destruct (navlinkSet d); [|constructor]. unfold FetchFromNavlink. destruct (good_body (f_navlink e)) as [data|] eqn:Eg; [|constructor].
    apply good_body_ok in Eg; [|done]. pose proof (InjectRaw_acts d data (f_disk_ok e) Eg) as H.
    destruct (InjectRaw d data (f_disk_ok e)) as [[]acts]; try done. apply Forall_app_2; [done | by repeat constructor].
Qed.

Lemma LoadCached_acts d file : file_ok file -> Forall (act_ok (pubkey d)) (LoadCached d file).2.
Proof.
  intros Hf. unfold LoadCached. destruct (is_empty (cacheFile d)); [constructor|]. destruct file as [enc| |]; try by constructor.
  destruct (verify (pubkey d) (decrypted enc)) as [m| |] eqn:E; try by constructor.
  apply Forall_app_2; [by eapply apply_acts_ok | by repeat constructor].
Qed.

Lemma ProbeManifest_acts d e : env_ok e -> Forall (act_ok (pubkey d)) (ProbeManifest d e).2.
Proof.
  intros [Hr _]. unfold ProbeManifest. destruct (fetch _ _ _ _) as [data|] eqn:Ef; [|constructor].
  apply fetch_bytes in Ef; [|done]. destruct (verify (pubkey d) data) as [m| |] eqn:E; try by constructor.
  repeat constructor. by exists data, m.
Qed.

Lemma verify_spec key data m : verify key data = Ok m ->
  Unmarshal dec_manifest zero_manifest data = Some m /\ m_Type m = bs "manifest" /\ sig_ok key m = true /\ kept m <> [].
Proof.
  unfold verify. destruct (Unmarshal _ _ _) as [m'|]; [|done]. case_bool_decide; [|done]. cbn [negb].
  destruct (sig_ok key m') eqn:Es; [|done]. cbn [negb]. destruct (kept m') eqn:Ek; [done|]. intros [= <-].
  split_and!; [done..|]. by rewrite Ek.
Qed.

Definition disc_ok (d0 d : Discoverer) : Prop :=
  pubkey d = pubkey d0 /\
  match current d with
  | None => serverURLs d = serverURLs d0
  | Some v => exists data m, accepted (pubkey d0) data m /\ v = manifest_verified m /\ serverURLs d = control_url <$> v_addrs v
  end /\
  (d_torrents d = d_torrents d0 \/ exists data m, accepted (pubkey d0) data m /\ d_torrents d = manifest_torrents m) /\
  (disk d = disk d0 \/ exists data m enc, accepted (pubkey d0) data m /\ nodeIDEncrypt data = Ok enc /\ disk d = Some enc).

Lemma run_act_ok d0 x d : act_ok (pubkey d0) x -> disc_ok d0 d -> disc_ok d0 (run_act x d).
Proof.
  intros Hx (Hk & Hc & Ht & Hd). destruct x as [t|v|s|data ok]; cbn [run_act].
  - split_and!; [done | exact Hc | by right | exact Hd].
  - destruct Hx as (data & m & Ha & ->). split_and!; [done | | exact Ht | exact Hd]. cbn [current serverURLs].
    exists data, m. split_and!; [done..|]. assert (v_addrs (manifest_verified m) <> []) as Hne.
    { cbn. intros E%fmap_nil_inv. destruct Ha as [_ Ha]. by apply verify_spec in Ha as (_ & _ & _ & ?). }
    by destruct (v_addrs (manifest_verified m)).
  - done.
  - destruct Hx as (m & Ha). destruct ok; [|done]. destruct (nodeIDEncrypt data) as [enc| |] eqn:E; try done.
    split_and!; [done | exact Hc | exact Ht | right]. cbn [disk]. by exists data, m, enc.
Qed.

Lemma reachable_ok d0 w : current d0 = None -> reachable d0 w ->
  disc_ok d0 (disc w) /\ Forall (Forall (act_ok (pubkey d0))) (running w).
Proof.
  intros H0. induction 1 as [|w w' _ [IH IHr] St].
  - split; [|constructor]. cbn [disc]. split_and!; [done | by rewrite H0 | by left | by left].
  - assert (pubkey (disc w) = pubkey d0) as Hk by apply IH.
    destruct St as [w file Hf|w data ok Hd|w e He|w e He|w a x acts b E]; cbn [start disc running].
    1-4: split; [done|]; apply Forall_app_2; [done|]; (constructor; [|constructor]); rewrite <- Hk.
    + by apply LoadCached_acts.
    + by apply InjectRaw_acts.
    + by apply fetchAndApply_acts.
    + by apply ProbeManifest_acts.
    + rewrite E in IHr. apply Forall_app in IHr as [Ha Hb]. apply Forall_cons_1 in Hb as [Hx Hb]. apply Forall_cons_1 in Hx as [Hx Hacts].
      split; [by apply run_act_ok | by apply Forall_app_2; [|constructor]].
Qed.

End discovery.
End Discovery.
