(* ===== verification/ClientManifest.v ===== *)
(** * The manifest, from the arbiter to the client

    The arbiter's lists (ArbiterManifest) and the client's Discoverer (ClientDiscovery)
    composed. What relays and attackers send is arbitrary bytes, but nobody forges: a known
    signature that verifies is on a document of ArbiterSigning the arbiter [issued].

    - [controls_authentic]: in every reachable state of a Discoverer with the arbiter's key,
      what it uses comes from one list of type "manifest" the arbiter issued.
    - [client_reads_manifest]: the manifests served through exits are accepted and read as
      they were selected.
    - [magnets_refused]: a manifest with torrent magnets is refused, whoever sends it, and
      the endpoint for clients sends just that whenever it knows a magnet. *)

From stdpp Require Import base list gmap strings fin_maps sorting.
From Stdlib Require Import ZArith Lia.
From Stdlib Require Import Floats.SpecFloat.
From S2P Require Import Prelude GoLib GoFloat GoJson ArbiterSigning ArbiterManifest ClientDiscovery.

Module EndToEnd.
Import Json Signing Lists Discovery.

Section manifest.
Context {FT : FloatText} {U : Unicode} {ED : Ed25519} {SK : SigningKey}.

(** ** What the client decodes *)

Definition node_strings (n : NodeEntry) : Prop := string_ok (Addr n) /\ string_ok (Fingerprint n).
Definition manifest_strings (m : signedManifest) : Prop :=
  string_ok (m_Type m) /\ Forall node_strings (default [] (m_Nodes m)) /\ map_ok string_ok (m_TorrentMagnets m) /\
  string_ok (m_TorrentManifestMagnet m) /\ map_ok string_ok (m_TorrentHashes m).

Lemma string_ok_nil : string_ok [].
Proof. by apply (bool_decide_unpack _). Qed.

Lemma dec_node_strings : decodes_to dec_node node_strings.
Proof.
  intros j a x Hj [Ha Hf] E. destruct j as [| | | | |kvs]; try done; [by injection E as <-|]. apply wf_obj in Hj.
  unfold dec_node in E. cbn [dec_struct] in E. do 5 peel_pick E. injection E as <-. split; cbn.
  - eapply pick_decodes; [apply dec_str_ok | exact Hj | exact Ha | exact Ex].
  - eapply pick_decodes; [apply dec_str_ok | exact Hj | exact Hf | exact Ex0].
Qed.

Lemma decoded_strings data m : bytes_ok data -> Unmarshal dec_manifest zero_manifest data = Some m -> manifest_strings m.
Proof.
  intros Hd. unfold Unmarshal. destruct (Parse data) as [j|] eqn:Ep; [|done]. cbn [mbind option_bind].
  apply Parse_ok in Ep; [|done]. assert (well_formed j) as Hj by (by eexists). clear Ep. intros E.
  pose proof string_ok_nil as Hn. assert (map_ok string_ok (∅ : gmap gostring gostring)) as He by done.
  destruct j as [| | | | |kvs]; try done; [by injection E as <-; split_and!; cbn|]. apply wf_obj in Hj.
  unfold dec_manifest in E. cbn [dec_struct] in E. do 15 peel_pick E. injection E as <-. 
  assert (decodes_to (dec_map dec_str []) (map_ok string_ok)) as Hmap by (apply dec_map_ok; [apply dec_str_ok | done]).
  split_and!; cbn [m_Type m_Nodes m_TorrentMagnets m_TorrentManifestMagnet m_TorrentHashes].
  - by eapply pick_decodes; [apply dec_str_ok | exact Hj | | eassumption].
  - eapply (pick_decodes (fun l => Forall node_strings (default [] l))); [|exact Hj| |eassumption]; [|constructor].
    apply dec_slice_ok; [apply dec_node_strings | done].
  - by eapply pick_decodes; [exact Hmap | exact Hj | | eassumption].
  - by eapply pick_decodes; [apply dec_str_ok | exact Hj | | eassumption].
  - by eapply pick_decodes; [exact Hmap | exact Hj | | eassumption].
Qed.

Lemma manifest_payload_ok m : manifest_strings m -> forallb node_finite (default [] (m_Nodes m)) = true ->
  json_ok maxNestingDepth (JObj (manifest_payload m)).
Proof.
  intros (? & Hn & Hm & ? & Hh) Hf. assert (maxNestingDepth = 10000) by done.
  unfold manifest_payload, map_field, string_field. json_ok_solve; try done.
  - apply Forall_forall. intros n Hin. pose proof (proj1 (Forall_forall _ _) Hn n Hin) as [? ?].
    rewrite forallb_forall in Hf. apply ok_node; [lia|]. split_and!; [done..|]. apply Hf. by apply list_elem_of_In.
  - intros k a [? ?]%Hm. split; [done | by apply ok_str].
  - intros k a [? ?]%Hh. split; [done | by apply ok_str].
Qed.

(** ** Authenticity *)

(** The documents the arbiter issued, and the signatures anybody has come across. *)
Context (issued : document -> Prop) (known : bytes -> Prop).
(** Nobody forges: a known signature that verifies is on a document that was issued. *)
Definition unforged : Prop :=
  (forall c s, known s -> ed25519_verify pub c s = true -> exists d, issued d /\ doc_ok d /\ canonical d = Ok c) /\
  (forall d c, issued d -> canonical d = Ok c -> known (ed25519_sign c)).
(** What relays and attackers send: bytes, with no signature that is not known. *)
Definition text_known (data : bytes) : Prop :=
  bytes_ok data /\ forall m s, Unmarshal dec_manifest zero_manifest data = Some m -> Base64.decode (m_Sig m) = Some s -> known s.

Lemma omitempty_nil e name v : omitempty e name v = [] -> e = true.
Proof. by destruct e. Qed.

(** A payload the client rebuilds is a signed one only for a manifest without torrents. *)
Lemma payload_manifest d m : payload d = manifest_payload m ->
  exists nodes l, d = DList (m_Type m) (m_TS m) nodes /\ m_Nodes m = Some l /\ enc_node <$> l = enc_node <$> nodes /\
    manifest_torrents m = MkTorrents ∅ [] ∅.
Proof.
  unfold manifest_payload. intros E. destruct d; try done; cbn [payload] in E.
  injection E as -> E1%Strconv.itoa_inj E2 E3. subst. destruct (m_Nodes m) as [l|]; [|done]. cbn [enc_slice] in E2. injection E2 as E2.
  symmetry in E3. apply app_eq_nil in E3 as [H1%omitempty_nil%empty_map E3].
  apply app_eq_nil in E3 as [H2%omitempty_nil%is_empty_nil H3%omitempty_nil%empty_map].
  exists nodes, l. split_and!; [done..|]. unfold manifest_torrents. by rewrite H1, H2, H3.
Qed.

Lemma signed_issued m : unforged -> manifest_strings m -> (forall s, Base64.decode (m_Sig m) = Some s -> known s) -> sig_ok (Some pub) m = true ->
  exists nodes l, issued (DList (m_Type m) (m_TS m) nodes) /\ m_Nodes m = Some l /\ enc_node <$> l = enc_node <$> nodes /\
    manifest_torrents m = MkTorrents ∅ [] ∅.
Proof.
  intros [Hu _] Em Hw Hs. unfold sig_ok in Hs. destruct (Base64.decode (m_Sig m)) as [sg|]; [|done].
  apply Hu in Hs as (d & Hi & Hd & Ec); [|by apply Hw].
  unfold manifest_canonical in Ec. destruct (forallb node_finite (default [] (m_Nodes m))) eqn:Ef.
  - apply canonical_payload in Ec. apply Marshal_inj in Ec; [|by apply manifest_payload_ok|by apply payload_ok].
    destruct (payload_manifest d m) as (nodes & l & -> & El & Ee & Et); [congruence|]. eauto 7.
  - apply canonical_payload in Ec. done.
Qed.

Lemma verified_issued data m : unforged -> accepted text_known (Some pub) data m ->
  exists nodes l, issued (DList (bs "manifest") (m_TS m) nodes) /\ m_Nodes m = Some l /\ enc_node <$> l = enc_node <$> nodes /\
    manifest_torrents m = MkTorrents ∅ [] ∅.
Proof.
  intros Hu [[Hb Hw] Hv]. apply verify_spec in Hv as (Em & Ht & Hs & _). rewrite <- Ht.
  apply signed_issued; [done | by eapply decoded_strings | by eauto | done].
Qed.

Lemma enc_node_eq a b : enc_node a = enc_node b -> Addr a = Addr b /\ Fingerprint a = Fingerprint b.
Proof.
  unfold enc_node. destruct a as [aa af ar al ad], b as [ba bf br bl bd]. cbn [Addr Fingerprint RTTms Load DataPlaneOK].
  intros E. injection E as -> E. split; [done|]. unfold omitempty, field in E.
  destruct af as [|x af], bf as [|y bf]; cbn [is_empty app] in E; [done| | |by injection E as -> -> _].
  - destruct (Float.feq ar _), (Float.feq al _), (is_nil ad); by cbn in E.
  - destruct (Float.feq br _), (Float.feq bl _), (is_nil bd); by cbn in E.
Qed.

Lemma fingerprints_in l : forall (f : gmap gostring gostring) a x,
  foldl (fun f n => if is_empty (Fingerprint n) then f else <[Addr n := Fingerprint n]> f) f l !! a = Some x ->
  f !! a = Some x \/ exists n, n ∈ l /\ Addr n = a /\ Fingerprint n = x.
Proof.
  induction l as [|n l IH]; intros f a x; cbn [foldl]; [by left|]. intros [E|(n' & Hn & Ha)]%IH.
  - destruct (is_empty (Fingerprint n)); [by left|]. apply lookup_insert_Some in E as [[<- <-]|[_ E]]; [|by left].
    right. exists n. split; [by apply elem_of_cons; left|done].
  - right. exists n'. split; [by apply elem_of_cons; right|done].
Qed.

(** The nodes of an issued list, as far as the client looks at them. *)
Lemma kept_issued m l nodes n : m_Nodes m = Some l -> enc_node <$> l = enc_node <$> nodes -> n ∈ kept m ->
  exists n', n' ∈ nodes /\ Addr n' = Addr n /\ Fingerprint n' = Fingerprint n.
Proof.
  intros El Ee Hn. unfold kept in Hn. rewrite El in Hn. apply list_elem_of_In, filter_In in Hn as [Hn _]. apply list_elem_of_In in Hn.
  apply list_elem_of_lookup_1 in Hn as [i Hi]. assert ((enc_node <$> nodes) !! i = Some (enc_node n)) as E.
  { rewrite <- Ee, list_lookup_fmap. cbn [default from_option] in Hi. change (id l) with l in Hi. by rewrite Hi. }
  rewrite list_lookup_fmap in E. destruct (nodes !! i) as [n'|] eqn:Ei; [|done]. apply (inj Some), enc_node_eq in E as [? ?].
  exists n'. split; [by eapply list_elem_of_lookup_2|done].
Qed.

(** C3: A client trusts only its arbiter, whatever relays and attackers feed it and however its
    operations interleave: if nobody can forge the arbiter's signature, then in every reachable
    state of a Discoverer with that key all controls in use are addresses of one list of type
    "manifest" the arbiter issued, a pinned fingerprint is the one that list gives the address,
    the servers asked are the bootstrap server or those controls, and no torrent magnet or hash
    was ever taken. *)
Theorem controls_authentic enc dec d0 w serverURL cache navlink file :
  unforged -> NewDiscoverer serverURL (Hex.encode pub) cache navlink file = Ok d0 ->
  reachable enc dec text_known d0 w ->
  (current (disc w) = None /\ serverURLs (disc w) = [trim_right_slash serverURL] \/
   exists ts nodes, issued (DList (bs "manifest") ts nodes) /\
     serverURLs (disc w) = control_url <$> Controls (disc w) /\ Controls (disc w) <> [] /\
     (forall a, a ∈ Controls (disc w) -> a ∈ Addr <$> nodes) /\
     (forall a, FingerprintFor (disc w) a <> [] ->
        exists n, n ∈ nodes /\ Addr n = a /\ Fingerprint n = FingerprintFor (disc w) a)) /\
  d_torrents (disc w) = MkTorrents ∅ [] ∅.
Proof.
  intros Hu E0 Hr.
  assert (pubkey d0 = Some pub /\ current d0 = None /\ serverURLs d0 = [trim_right_slash serverURL] /\ d_torrents d0 = MkTorrents ∅ [] ∅)
    as (Hk & Hc0 & Hs0 & Ht0).
  { unfold NewDiscoverer, parse_pubkey in E0. case_decide as Ee; [|].
    - exfalso. apply (f_equal length) in Ee. rewrite Hex.length_encode, length_pub in Ee. done.
    - rewrite Hex.decode_encode, length_pub in E0 by apply pub_bytes. cbn in E0. by injection E0 as <-. }
  destruct (reachable_ok enc dec text_known d0 w Hc0 Hr) as [(_ & Hc & Ht & _) _]. rewrite Hk in *.
  split.
  - destruct (current (disc w)) as [v|] eqn:Ec; [right|by left; rewrite Hc].
    destruct Hc as (data & m & Ha & -> & Hs). destruct (verified_issued data m Hu Ha) as (nodes & l & Hi & El & Ee & _).
    assert (Controls (disc w) = Addr <$> kept m) as EC by (unfold Controls; by rewrite Ec).
    exists (m_TS m), nodes. split_and!; [done | by rewrite EC | | |].
    + rewrite EC. intros ?%fmap_nil_inv. destruct Ha as [_ Ha]. by apply verify_spec in Ha as (_ & _ & _ & ?).
    + rewrite EC. intros a (n & -> & Hn)%list_elem_of_fmap. destruct (kept_issued m l nodes n El Ee Hn) as (n' & Hn' & <- & _).
      by apply list_elem_of_fmap_2.
    + unfold FingerprintFor. rewrite Ec. intros a. cbn [v_fingerprints manifest_verified].
      destruct (_ !! a) as [x|] eqn:Ex; [|done]. intros _. cbn [default from_option].
      apply fingerprints_in in Ex as [?|(n & Hn & <- & <-)]; [done|].
      destruct (kept_issued m l nodes n El Ee Hn) as (n' & Hn' & Ea & Ef). by exists n'.
  - destruct Ht as [->|(data & m & Ha & ->)]; [done|]. by destruct (verified_issued data m Hu Ha) as (? & ? & _ & _ & _ & ?).
Qed.


(** ** Reading what the arbiter serves *)

(** The client's view of a list. *)
Definition manifest_of (l : SignedList) : signedManifest :=
  MkManifest (l_Type l) (l_TS l) (l_Nodes l) (l_Sig l) (l_Regions l) (l_Notifications l) (l_NodeSNIs l) (l_Excluded l)
    (l_NodeWLWTPPorts l) (l_IPv6Enabled l) (l_NavlinkMirrors l) (l_TorrentEnabled l) (l_TorrentMagnets l)
    (l_TorrentManifestMagnet l) ∅.

Lemma dec_manifest_back l : list_ok l -> dec_manifest (JObj (enc_list l)) zero_manifest = Some (manifest_of l).
Proof.
  intros (? & ? & ? & ? & ? & ? & ? & ? & ? & ? & ? & ? & ?). unfold dec_manifest. cbn [dec_struct].
  rewrite <- (app_nil_r (enc_list l)). unfold enc_list, map_field, list_field, pbool_field, string_field. rewrite <- !app_assoc.
  do 15 pick_step reads_back was_empty. done.
Qed.

(** The tables and caches hold text, and no float that JSON cannot print. *)
Definition node_row_ok (n : Node) : Prop :=
  entry_ok (entry_of n) /\ string_ok (node_RegionOverride n) /\ Forall string_ok (splitSNIList (node_SNIList n)).
Definition advice_ok (a : advice) : Prop :=
  Forall notif_ok (notifs_of a) /\ Forall string_ok (excluded_of a) /\ Forall string_ok (mirrors_of a) /\
  map_Forall (fun _ l => Forall int64_ok l) (a_wlwtpPorts a) /\ map_ok string_ok (a_magnets a) /\ string_ok (a_manifestMagnet a).

Lemma select_in rnd nodes n x : x ∈ selectManifestNodes rnd nodes n -> x ∈ nodes.
Proof.
  unfold selectManifestNodes, sampleNodes. assert (forall f y, y ∈ List.filter f nodes -> y ∈ nodes) as Hf.
  { intros f y. rewrite !list_elem_of_In, filter_In. tauto. }
  destruct (_ <=? 0); [by apply Hf|]. rewrite elem_of_app. intros [?|Hx]; [by eapply Hf|].
  destruct (_ <=? _); [by eapply Hf|]. apply elem_of_take in Hx as (i & Hi & _). apply list_elem_of_lookup_2 in Hi.
  rewrite Rand.shuffle_perm in Hi. by eapply Hf.
Qed.

Lemma fold_map_ok {A B} (P : B -> Prop) (f : gmap gostring B -> A -> gmap gostring B) (l : list A) :
  (forall m a, a ∈ l -> map_ok P m -> map_ok P (f m a)) -> forall m, map_ok P m -> map_ok P (foldl f m l).
Proof.
  induction l as [|a l IH]; intros H m Hm; [done|]. cbn [foldl]. apply IH.
  - intros m' b Hb. apply H. by apply elem_of_cons; right.
  - apply H; [by apply elem_of_cons; left | done].
Qed.
Lemma map_ok_insert {A} (P : A -> Prop) (k : gostring) (x : A) (m : gmap gostring A) : string_ok k -> P x -> map_ok P m -> map_ok P (<[k := x]> m).
Proof. intros. by apply map_Forall_insert_2. Qed.

Lemma region_ok regionOf nodes x : Forall node_row_ok nodes -> (forall x, string_ok (regionOf x)) ->
  string_ok (regionFnWithOverrides regionOf nodes x).
Proof.
  intros Hn Hr. unfold regionFnWithOverrides.
  assert (map_ok string_ok (foldl (fun m n => if decide (node_RegionOverride n = []) then m else <[node_Addr n := node_RegionOverride n]> m)
    (∅ : gmap gostring gostring) nodes)) as H.
  { apply fold_map_ok; [|done]. intros m n Hin Hm. pose proof (proj1 (Forall_forall _ _) Hn n Hin) as (((? & _) & _) & ? & _).
    case_decide; [done|]. by apply map_ok_insert. }
  destruct (_ !! x) as [r|] eqn:E; [|apply Hr]. by apply H in E as [_ ?].
Qed.

Lemma region_of_entries regionOf nodes entries : Forall node_row_ok nodes -> (forall x, string_ok (regionOf x)) ->
  Forall entry_ok entries -> map_ok string_ok (region_map (regionFnWithOverrides regionOf nodes) entries).
Proof.
  intros Hn Hr He. unfold region_map. apply fold_map_ok; [|done]. intros m n Hin Hm. case_decide; [done|].
  pose proof (proj1 (Forall_forall _ _) He n Hin) as ((? & _) & _). apply map_ok_insert; [done | by apply region_ok | done].
Qed.

Section served.
Context (ts : Z) (rnd : nat -> nat) (controls : list Node) (regionOf : gostring -> gostring) (a : advice).
Context (Hts : int64_ok ts) (Hnodes : Forall node_row_ok controls) (Hregion : forall x, string_ok (regionOf x)) (Ha : advice_ok a).

Definition selected : list Node := selectManifestNodes rnd controls maxManifestNodes.
Definition entries : list NodeEntry := entry_of <$> selected.
Abbreviation region := (regionFnWithOverrides regionOf controls).

Lemma selected_ok : Forall node_row_ok selected.
Proof. apply Forall_forall. intros x Hx%select_in. by apply (proj1 (Forall_forall _ _) Hnodes). Qed.

Lemma entries_ok : Forall entry_ok entries.
Proof. apply Forall_fmap. eapply Forall_impl; [exact selected_ok|]. by intros n (? & _). Qed.

Lemma entries_finite : forallb node_finite entries = true.
Proof.
  apply forallb_forall. intros x Hx%list_elem_of_In. pose proof (proj1 (Forall_forall _ _) entries_ok x Hx) as ((_ & _ & ?) & _). done.
Qed.

Lemma region_map_ok : map_ok string_ok (region_map region entries).
Proof. apply region_of_entries; [done | done | exact entries_ok]. Qed.

Lemma snis_ok : map_ok strings_ok (snis_of selected).
Proof.
  unfold snis_of. apply fold_map_ok; [|done]. intros m n Hn Hm.
  pose proof (proj1 (Forall_forall _ _) selected_ok n Hn) as (((? & _) & _) & _ & ?). destruct (_ || _); [done|]. by apply map_ok_insert.
Qed.

Lemma ports_ok : map_ok (fun l => Forall int64_ok (default [] l)) (ports_of a selected).
Proof.
  destruct Ha as (_ & _ & _ & Hp & _). unfold ports_of. apply fold_map_ok; [|done]. intros m n Hn Hm.
  pose proof (proj1 (Forall_forall _ _) selected_ok n Hn) as (((? & _) & _) & _). destruct (a_wlwtpPorts a !! node_Addr n) as [[|p ps]|] eqn:E; try done.
  apply Hp in E. by apply map_ok_insert.
Qed.

Lemma keep_ok {A} (P : A -> Prop) l : Forall P l -> Forall P (keep l []).
Proof. unfold keep. by destruct (is_empty l). Qed.
Lemma keep_nil {A} (l : list A) : keep l [] = l.
Proof. by destruct l. Qed.
Lemma keep_map_empty {A} (m : gmap gostring A) : keep_map m ∅ = m.
Proof. unfold keep_map. destruct (is_empty _) eqn:E; [|done]. by apply empty_map in E. Qed.
Lemma keep_map_ok {A} (P : A -> Prop) (m : gmap gostring A) : map_ok P m -> map_ok P (keep_map m ∅).
Proof. unfold keep_map. by destruct (is_empty _). Qed.

Definition base (sig : gostring) : SignedList := base_list (bs "manifest") ts entries sig (region_map region entries).

Lemma base_ok sig : string_ok sig -> list_ok (base sig).
Proof.
  intros Hs. pose proof string_ok_nil. unfold base, base_list.
  split_and!; cbn; try done; [json_lit | apply entries_ok | apply region_map_ok].
Qed.
Lemma exit_advice_ok sig : string_ok sig -> list_ok (exit_advice a selected (base sig)).
Proof.
  intros Hs. destruct Ha as (? & ? & ? & ? & ? & ?). pose proof string_ok_nil. unfold base, base_list, exit_advice.
  split_and!; cbn; try done; [json_lit | apply entries_ok | apply region_map_ok | by apply keep_ok | apply keep_map_ok, snis_ok | by apply keep_ok].
Qed.
Lemma client_advice_ok sig : string_ok sig -> list_ok (client_advice a selected (base sig)).
Proof.
  intros Hs. destruct Ha as (? & ? & ? & ? & ? & ?). pose proof string_ok_nil. unfold base, base_list, client_advice.
  split_and!; cbn; try done; [json_lit | apply entries_ok | apply region_map_ok | by apply keep_ok | apply keep_map_ok, snis_ok
    | by apply keep_ok | apply keep_map_ok, ports_ok | by apply keep_ok].
Qed.

(** The body of a manifest: the base list, signed, and extended. *)
Lemma manifest_body f : (forall sig, string_ok sig -> list_ok (f selected (base sig)) /\ l_Nodes (f selected (base sig)) = Some entries) ->
  exists sig, string_ok sig /\ Base64.decode sig = Some (ed25519_sign (Marshal (JObj (payload (DList (bs "manifest") ts entries))))) /\
    manifest_reply ts rnd (Ok controls) regionOf f = HttpOK (Marshal (JObj (enc_list (f selected (base sig))))).
Proof.
  intros Hf. unfold manifest_reply, signList. fold selected. fold entries.
  assert (exists c, canonical (DList (bs "manifest") ts entries) = Ok c) as [c Hc].
  { unfold canonical. cbn [doc_finite]. rewrite entries_finite. eauto. }
  unfold signature. rewrite Hc. cbn [mbind res_bind]. apply canonical_payload in Hc as ->.
  set (sig := Base64.encode _). assert (string_ok sig) as Hs by (apply Base64_encode_ok, sign_bytes).
  exists sig. destruct (Hf sig Hs) as [Hl En]. split_and!; [done | |].
  - apply Base64.b64_decode_encode, sign_bytes.
  - fold (base sig). unfold marshal_list at 1. cbn [l_Nodes base base_list default from_option].
    change (id entries) with entries. rewrite entries_finite. cbn iota. unfold extend, unmarshal_list.
    fold (base sig). rewrite Unmarshal_printed by (apply enc_list_ok, base_ok, Hs). rewrite dec_list_back by (apply base_ok, Hs).
    unfold marshal_list. rewrite En. cbn [default from_option]. change (id entries) with entries. by rewrite entries_finite.
Qed.
End served.

(** The nodes and the settings a manifest is made of. *)
Definition served_ok (ts : Z) (controls : list Node) (regionOf : gostring -> gostring) (a : advice) : Prop :=
  int64_ok ts /\ Forall node_row_ok controls /\ (forall x, string_ok (regionOf x)) /\ advice_ok a.
(** The addresses of selected nodes that are neither empty nor excluded. *)
Definition usable (a : advice) (nodes : list Node) : list gostring :=
  List.filter (fun x => negb (is_empty x) && negb (bool_decide (x ∈ excluded_of a))) (node_Addr <$> nodes).

Lemma kept_usable a nodes l : l_Nodes l = Some (entry_of <$> nodes) -> l_Excluded l = excluded_of a ->
  Addr <$> kept (manifest_of l) = usable a nodes.
Proof.
  intros En Ex. unfold kept, usable. cbn [manifest_of m_Nodes m_Excluded]. rewrite En, Ex. cbn [default from_option]. unfold id.
  clear. induction nodes as [|n nodes IH]; [done|]. rewrite !fmap_cons. cbn [List.filter entry_of Addr].
  destruct (_ && _); [by rewrite fmap_cons, IH | exact IH].
Qed.

(** What [verify] says of a printed list with the base list's signature. *)
Lemma verify_printed l : list_ok l -> m_Type (manifest_of l) = bs "manifest" ->
  verify (Some pub) (Marshal (JObj (enc_list l))) =
    if negb (sig_ok (Some pub) (manifest_of l)) then Err "signature verification failed"
    else if is_empty (kept (manifest_of l)) then Err "manifest contains no control nodes" else Ok (manifest_of l).
Proof.
  intros Hl Ht. unfold verify. rewrite Unmarshal_printed by (by apply enc_list_ok). rewrite dec_manifest_back by done.
  by rewrite bool_decide_eq_true_2.
Qed.

Lemma sig_ok_base ts nodes l sig :
  Base64.decode sig = Some (ed25519_sign (Marshal (JObj (payload (DList (bs "manifest") ts nodes))))) ->
  forallb node_finite nodes = true -> l_Type l = bs "manifest" -> l_TS l = ts -> l_Nodes l = Some nodes -> l_Sig l = sig ->
  manifest_torrents (manifest_of l) = MkTorrents ∅ [] ∅ -> sig_ok (Some pub) (manifest_of l) = true.
Proof.
  intros Es Hf Et <- En <- [= Em Eg]. unfold sig_ok, manifest_canonical, manifest_payload.
  cbn [manifest_of m_Type m_TS m_Nodes m_Sig m_TorrentMagnets m_TorrentManifestMagnet m_TorrentHashes] in *.
  rewrite En, Es, Et, Em, Eg. cbn [default from_option]. unfold id. rewrite Hf. apply verify_sign.
Qed.

(** C16: The manifest an exit fetches for its clients is read by the client as it was made:
    whatever the tables hold, [apiManifest] answers an approved exit with a text that passes
    the client's [verify] under the arbiter's key whenever a selected node is usable, and the
    client's view of it has the timestamp, the nodes with their measurements, the regions,
    the notifications and the SNI names of the selection, and as controls the usable
    addresses in order. With none usable it is refused for that reason. *)
Theorem client_reads_manifest ts token found caller rnd controls regionOf a :
  served_ok ts controls regionOf a -> node_caller token found [bs "exit"] = inl caller ->
  let sel := selectManifestNodes rnd controls maxManifestNodes in
  exists body, apiManifest ts token found rnd (Ok controls) regionOf a = HttpOK body /\
    (usable a sel = [] -> verify (Some pub) body = Err "manifest contains no control nodes") /\
    (usable a sel <> [] -> exists m, verify (Some pub) body = Ok m /\
       m_TS m = ts /\ m_Nodes m = Some (entry_of <$> sel) /\ v_addrs (manifest_verified m) = usable a sel /\
       m_Regions m = region_map (regionFnWithOverrides regionOf controls) (entry_of <$> sel) /\
       m_Notifications m = notifs_of a /\ m_NodeSNIs m = snis_of sel /\ m_IPv6Enabled m = Some (a_ipv6On a) /\
       manifest_torrents m = MkTorrents ∅ [] ∅).
Proof.
  intros (Ht & Hn & Hr & Ha) Hc sel. unfold apiManifest. rewrite Hc.
  destruct (manifest_body ts rnd controls regionOf Ht Hn Hr (exit_advice a)) as (sig & Hs & Hg & ->).
  { intros sig Hs. split; [by apply exit_advice_ok | done]. }
  eexists. split; [done|]. pose proof (exit_advice_ok ts rnd controls regionOf a Ht Hn Hr Ha sig Hs) as Hl.
  assert (sig_ok (Some pub) (manifest_of (exit_advice a sel (base ts rnd controls regionOf sig))) = true) as Hk.
  { eapply sig_ok_base; [exact Hg | by apply entries_finite | done..]. }
  set (l := exit_advice _ _ _) in *. assert (Addr <$> kept (manifest_of l) = usable a sel) as Eu.
  { apply kept_usable; [done|]. apply keep_nil. }
  rewrite verify_printed, Hk by done. cbn [negb]. split.
  - intros E. rewrite E in Eu. apply fmap_nil_inv in Eu. by rewrite Eu.
  - intros E. destruct (kept (manifest_of l)) eqn:Ek; [done|]. cbn [is_empty]. exists (manifest_of l).
    split_and!; try done; [by unfold manifest_verified; rewrite <- Eu, Ek | apply keep_nil | apply keep_map_empty].
Qed.

Lemma manifest_of_strings l : list_ok l -> manifest_strings (manifest_of l).
Proof.
  intros (? & ? & He & ? & ? & ? & ? & ? & ? & ? & ? & ? & ?). split_and!; cbn; try done.
  eapply Forall_impl; [exact He|]. by intros n ((? & ? & _) & _).
Qed.

(** The endpoint clients reach directly sends a manifest they accept just when the arbiter
    knows no torrent magnet. Magnets are added after signing, while the client's [verify]
    covers them: with a magnet of a torrent or of the manifest in it the reply is refused for
    its signature, since the key signed only documents the arbiter issued. Without any, it
    is accepted and gives the controls, the mirrors and the switches that were set. *)
Theorem magnets_refused ts rnd controls regionOf a :
  let sel := selectManifestNodes rnd controls maxManifestNodes in
  unforged -> served_ok ts controls regionOf a -> issued (DList (bs "manifest") ts (entry_of <$> sel)) ->
  exists body, apiManifestClientFetch ts true true rnd (Ok controls) regionOf a = HttpOK body /\
    (a_magnets a <> ∅ \/ a_manifestMagnet a <> [] -> verify (Some pub) body = Err "signature verification failed") /\
    (a_magnets a = ∅ -> a_manifestMagnet a = [] -> usable a sel <> [] ->
       exists m, verify (Some pub) body = Ok m /\ m_TS m = ts /\ m_Nodes m = Some (entry_of <$> sel) /\
         v_addrs (manifest_verified m) = usable a sel /\ m_NodeWLWTPPorts m = ports_of a sel /\
         m_NavlinkMirrors m = mirrors_of a /\ m_TorrentEnabled m = Some (a_torrentOn a)).
Proof.
  intros sel Hu (Ht & Hn & Hr & Ha) Hi. unfold apiManifestClientFetch. cbn [negb].
  destruct (manifest_body ts rnd controls regionOf Ht Hn Hr (client_advice a)) as (sig & Hs & Hg & ->).
  { intros sig Hs. split; [by apply client_advice_ok | done]. }
  eexists. split; [done|]. pose proof (client_advice_ok ts rnd controls regionOf a Ht Hn Hr Ha sig Hs) as Hl.
  change (selected rnd controls) with sel in *. rewrite verify_printed by done. split.
  - intros Hm. destruct (sig_ok _ _) eqn:Es; [|done]. apply signed_issued in Es as (_ & _ & _ & _ & _ & [= Em Eg]);
      [|done | by apply manifest_of_strings |].
    + cbn in Em, Eg. by destruct Hm.
    + intros s. change (m_Sig _) with sig. rewrite Hg. intros E. apply (inj Some) in E as <-.
      apply Hu with (d := DList (bs "manifest") ts (entry_of <$> sel)); [done|].
      unfold canonical. cbn [doc_finite]. pose proof (entries_finite rnd controls Hn) as Hf. unfold entries in Hf.
      change (selected rnd controls) with sel in Hf. by rewrite Hf.
  - intros Em Eg E. assert (sig_ok (Some pub) (manifest_of (client_advice a sel (base ts rnd controls regionOf sig))) = true) as ->.
    { eapply sig_ok_base; [exact Hg | by apply entries_finite | done..|]. unfold manifest_torrents. cbn. by rewrite Em, Eg. }
    cbn [negb]. set (l := client_advice _ _ _) in *. assert (Addr <$> kept (manifest_of l) = usable a sel) as Eu.
    { apply kept_usable; [done|]. apply keep_nil. }
    destruct (kept (manifest_of l)) eqn:Ek; [done|]. cbn [is_empty]. exists (manifest_of l).
    split_and!; try done; [by unfold manifest_verified; rewrite <- Eu, Ek | apply keep_map_empty | apply keep_nil].
Qed.

(** The torrent that is meant to carry the manifest holds a list of type "controls", which no
    client accepts, with a key or without. *)
Theorem manifest_torrent_refused ts controls regionOf data key :
  int64_ok ts -> Forall node_row_ok controls -> (forall x, string_ok (regionOf x)) ->
  manifest_torrent ts (Ok controls) regionOf = Ok data -> verify key data = Err "unexpected manifest type".
Proof.
  intros Ht Hn Hr. unfold manifest_torrent, signList. cbn [mbind res_bind].
  assert (Forall entry_ok (entry_of <$> controls)) as He.
  { apply Forall_fmap. eapply Forall_impl; [exact Hn|]. by intros n (? & _). }
  unfold signature, canonical. destruct (doc_finite _); [|done]. cbn [mbind res_bind]. set (l := base_list _ _ _ _ _).
  assert (list_ok l) as Hl.
  { pose proof string_ok_nil. unfold l, base_list. split_and!; cbn; try done; [json_lit | apply Base64_encode_ok, sign_bytes |].
    apply region_of_entries; done. }
  unfold marshal_list. destruct (forallb _ _); [|done]. intros E.
  assert (data = Marshal (JObj (enc_list l))) as -> by congruence. unfold verify.
  rewrite Unmarshal_printed by (by apply enc_list_ok). by rewrite dec_manifest_back.
Qed.

(** The key of a cached manifest that does not parse is dropped, and the file is then not
    checked at all. *)
Theorem malformed_key_unverified dec enc pubkeyHex m :
  (forall k, parse_pubkey pubkeyHex <> Ok k) -> verify None (decrypted dec enc) = Ok m ->
  ReadManifestCacheControlsAndRegions dec (Ok enc) pubkeyHex = (Addr <$> kept m, m_Regions m).
Proof. intros Hk Hv. unfold ReadManifestCacheControlsAndRegions. destruct (parse_pubkey pubkeyHex) as [k| |]; [by destruct (Hk k)|by rewrite Hv..]. Qed.

End manifest.

(** ** Examples *)

(** A signature that fits one document only, the only one issued. *)
Section only.
Context (d : document).
Definition only_sign (c : bytes) : bytes := replicate 64 (if decide (c = Marshal (JObj (payload d))) then 1 else 0).
Definition only_ed25519 : Ed25519 := {| ed25519_verify _ c s := bool_decide (s = only_sign c) |}.
Definition only_key : @SigningKey only_ed25519.
Proof.
  refine {| pub := replicate 32 7; ed25519_sign := only_sign |}; [done | | | done |].
  - by apply (bool_decide_unpack _).
  - intros m. by apply bool_decide_eq_true.
  - intros m. unfold only_sign. destruct (decide _); by apply (bool_decide_unpack _).
Defined.
Definition only_issued (x : document) : Prop := x = d.
Definition only_known (s : bytes) : Prop := s = replicate 64 1.

Lemma only_unforged : doc_ok d -> doc_finite d = true -> @unforged _ only_ed25519 only_key only_issued only_known.
Proof.
  intros Hd Hf. split.
  - intros c s -> H. cbn in H. apply bool_decide_eq_true in H. exists d. split_and!; [done..|]. unfold canonical. rewrite Hf.
    unfold only_sign in H. destruct (decide _) as [->|]; done.
  - intros x c -> E. apply canonical_payload in E as ->. cbn. unfold only_sign. by rewrite decide_True.
Qed.
End only.

(** An arbiter with one control node. *)
Definition ex_node : Node := MkNode (bs "control") (bs "10.0.0.1:443") (bs "ab") Float.f0 Float.f0 None (bs "DE") (bs "a.example, b.example") true.
Definition ex_exit : Node := MkNode (bs "exit") (bs "10.0.0.2:443") [] Float.f0 Float.f0 None [] [] false.
Definition ex_doc : document := DList (bs "manifest") 1700000000 [entry_of ex_node].
Definition ex_ed25519 : Ed25519 := only_ed25519 ex_doc.
#[local] Existing Instance ex_ed25519 | 0.
Definition ex_key : SigningKey := only_key ex_doc.
#[local] Existing Instance ex_key | 0.
Abbreviation ex_issued := (only_issued ex_doc).
Abbreviation ex_known := only_known.

Lemma ex_unforged : unforged ex_issued ex_known.
Proof. apply only_unforged; [|done]. split; [by apply (bool_decide_unpack _)|]. constructor; [|constructor]. unfold node_ok. split_and!; first [done | by apply (bool_decide_unpack _)]. Qed.

Definition ex_advice (magnet : gostring) : advice := MkAdvice [] None (Ok []) true true ∅ magnet ∅ (Ok []).
Lemma ex_served magnet : string_ok magnet -> served_ok 1700000000 [ex_node] (fun _ => []) (ex_advice magnet).
Proof.
  intros Hm. split; [by apply (bool_decide_unpack _)|]. split.
  { constructor; [|constructor]. unfold node_row_ok, entry_ok, node_ok. split_and!; first [done | by apply (bool_decide_unpack _)]. }
  split; [intros _; apply string_ok_nil|]. by split_and!; cbn; try apply Forall_nil_2; try done.
Qed.

(** What the client's endpoint serves, and the state after it was injected. *)
Definition ex_body : bytes :=
  match apiManifestClientFetch 1700000000 true true (fun _ => 0%nat) (Ok [ex_node]) (fun _ => []) (ex_advice []) with
  | HttpOK b => b | _ => [] end.
Definition ex_disc : Discoverer :=
  MkDisc (Some pub) [] [bs "https://arbiter"] None (MkTorrents ∅ [] ∅) 0 false false false None.
Definition ex_world : world := MkWorld (foldl (fun d x => run_act Ok x d) ex_disc (InjectRaw ex_disc ex_body true).2) [[]].

(** An operation that runs to its end. *)
Lemma reachable_run text_ok d0 acts : forall d, reachable Ok Ok text_ok d0 (MkWorld d [acts]) ->
  reachable Ok Ok text_ok d0 (MkWorld (foldl (fun d x => run_act Ok x d) d acts) [[]]).
Proof.
  induction acts as [|x acts IH]; intros d H; [done|]. apply (IH (run_act Ok x d)). eapply reach_step; [exact H|].
  by apply (step_act _ _ _ (MkWorld d [x :: acts]) [] x acts []).
Qed.

Lemma ex_text_known : text_known ex_known ex_body.
Proof.
  split; [by apply (bool_decide_unpack _); vm_compute|]. intros m s Em Es.
  assert (from_option (fun m => from_option (fun s => bool_decide (s = replicate 64 1)) true (Base64.decode (m_Sig m))) true
    (Unmarshal dec_manifest zero_manifest ex_body) = true) as H by (vm_compute; reflexivity).
  rewrite Em in H. cbn [from_option] in H. rewrite Es in H. by apply bool_decide_eq_true in H.
Qed.

Lemma controls_authentic_witness :
  Controls (disc ex_world) = [bs "10.0.0.1:443"] /\ d_torrents (disc ex_world) = MkTorrents ∅ [] ∅.
Proof.
  split; [vm_compute; reflexivity|].
  apply (controls_authentic ex_issued ex_known Ok Ok ex_disc ex_world (bs "https://arbiter/") [] false None ex_unforged).
  - vm_compute. reflexivity.
  - apply reachable_run. eapply reach_step; [apply reach_init|]. exact (step_inject Ok Ok _ (MkWorld ex_disc []) ex_body true ex_text_known).
Defined.

Lemma client_reads_manifest_witness :
  exists body m, apiManifest 1700000000 (bs "t") (Ok (Some ex_exit))
      (fun _ => 0%nat) (Ok [ex_node]) (fun _ => []) (ex_advice []) = HttpOK body /\
    verify (Some pub) body = Ok m /\ v_addrs (manifest_verified m) = [bs "10.0.0.1:443"].
Proof.
  destruct (client_reads_manifest 1700000000 (bs "t") (Ok (Some ex_exit)) ex_exit (fun _ => 0%nat) [ex_node] (fun _ => []) (ex_advice []))
    as (body & E & _ & H).
  - apply ex_served, string_ok_nil.
  - reflexivity.
  - destruct H as (m & Hv & _ & _ & Ha & _); [vm_compute; discriminate|]. exists body, m. split_and!; [exact E | exact Hv | exact Ha].
Defined.

Lemma magnets_refused_witness :
  exists body, apiManifestClientFetch 1700000000 true true (fun _ => 0%nat) (Ok [ex_node]) (fun _ => []) (ex_advice (bs "magnet:?x"))
      = HttpOK body /\
    verify (Some pub) body = Err "signature verification failed".
Proof.
  edestruct (magnets_refused ex_issued ex_known 1700000000 (fun _ => 0%nat) [ex_node] (fun _ => []) (ex_advice (bs "magnet:?x")))
    as (body & E & H & _).
  - exact ex_unforged.
  - by apply ex_served, (bool_decide_unpack _).
  - reflexivity.
  - exists body. split; [exact E|]. apply H. by right.
Defined.
End EndToEnd.
