(* ===== verification/ClientKey.v ===== *)
(** * Key strings, club manifests and the top-up of controls

    What a client holds or fetches on its own authority, each time with the side of the
    arbiter that made it.

    - Module [Keys]: snc-arbiter/keyenc.go builds a key string, snc/core/key.go parses it.
    - Module [Club]: signClubManifest of snc-arbiter/signing.go, and the ClubDiscoverer of
      snc/core/club_discovery.go. *)

From stdpp Require Import base list gmap strings fin_maps sorting.
From Stdlib Require Import ZArith Lia.
From S2P Require Import Prelude GoLib GoFloat GoJson ArbiterSigning ArbiterManifest ClientDiscovery ClientManifest.

Module Keys.
Import Json Signing Lists.

(** KeyData of the client and keyPayload of the arbiter have the same fields. *)
Record KeyData := MkKeyData {
  kd_fields : key_fields;
  Password : gostring;
  AuthSig : gostring;
  Sig : gostring;
  IsAdmin : bool }.

Definition zero_fields : key_fields := MkKey [] None None [] [] [] [] [].
Definition zero_key : KeyData := MkKeyData zero_fields [] [] [] false.

(** A slice that is omitted when it is empty comes back as nil. *)
Definition some_or_nil {A} (l : option (list A)) : option (list A) := match l with Some [] => None | _ => l end.
Definition normal (k : key_fields) : key_fields :=
  MkKey (k_Username k) (some_or_nil (k_Servers k)) (some_or_nil (k_ControlNodes k)) (k_ArbiterPubkey k) (k_NodeID k)
    (k_APIKey k) (k_ClientID k) (k_KeyID k).

Definition bool_field (b : bool) (name : string) : list (gostring * json) := omitempty (negb b) name (JBool b).
Definition enc_key (kd : KeyData) : json :=
  JObj (field "username" (JStr (k_Username (kd_fields kd))) ++ field "password" (JStr (Password kd)) ++ key_tail (kd_fields kd)
    ++ string_field (AuthSig kd) "auth_sig" ++ string_field (Sig kd) "sig" ++ bool_field (IsAdmin kd) "is_admin").
Definition key_names : list gostring := names
  ["username"; "password"; "servers"; "control_nodes"; "arbiter_pubkey"; "node_id"; "api_key"; "client_id"; "key_id";
   "auth_sig"; "sig"; "is_admin"].
Definition dec_key : json -> KeyData -> option KeyData := dec_struct (fun kvs kd =>
  let ns := key_names in let k := kd_fields kd in
  user ← pick ns "username" dec_str (k_Username k) kvs; pw ← pick ns "password" dec_str (Password kd) kvs;
  srv ← pick ns "servers" dec_strs (k_Servers k) kvs; ctl ← pick ns "control_nodes" dec_strs (k_ControlNodes k) kvs;
  apk ← pick ns "arbiter_pubkey" dec_str (k_ArbiterPubkey k) kvs; nid ← pick ns "node_id" dec_str (k_NodeID k) kvs;
  api ← pick ns "api_key" dec_str (k_APIKey k) kvs; cid ← pick ns "client_id" dec_str (k_ClientID k) kvs;
  kid ← pick ns "key_id" dec_str (k_KeyID k) kvs; asig ← pick ns "auth_sig" dec_str (AuthSig kd) kvs;
  sig ← pick ns "sig" dec_str (Sig kd) kvs; adm ← pick ns "is_admin" dec_bool (IsAdmin kd) kvs;
  Some (MkKeyData (MkKey user srv ctl apk nid api cid kid) pw asig sig adm)).

Definition Nodes (kd : KeyData) : list gostring :=
  match k_ControlNodes (kd_fields kd) with
  | Some (n :: l) => n :: l
  | _ => default [] (k_Servers (kd_fields kd))
  end.
Definition IsLegacy (kd : KeyData) : bool := match k_ControlNodes (kd_fields kd) with Some (_ :: _) => false | _ => true end.

Section keys.
Context {AE : Aead} {BL : Blake2b} {ED : Ed25519}.

Definition appSecret : bytes := bs "SNCat-secret-key-phase1-devonly" ++ [0].
Definition keyMagicV1 : Z := 0x534E4301.
Definition keyMagicV2 : Z := 0x534E4302.
Definition nonceSize : nat := 24.
Definition deriveKey (salt : Z) : bytes := blake2b_256 (appSecret ++ [salt]).

(** ** The client *)

(** [keyCanonical]: its payload struct has the fields of the arbiter's. *)
Definition keyCanonical (kd : KeyData) : bytes :=
  Marshal (JObj (field "username" (JStr (k_Username (kd_fields kd))) ++ field "password" (JStr (Password kd))
    ++ key_tail (kd_fields kd))).

Definition verifyKeySignature (kd : KeyData) : res () :=
  if is_empty (k_ArbiterPubkey (kd_fields kd)) then Err "V2 key missing arbiter pubkey"
  else if is_empty (Sig kd) then Err "missing signature"
  else match Hex.decode (k_ArbiterPubkey (kd_fields kd)) with
  | Some pubBytes =>
      if negb (length pubBytes =? 32)%nat then Err "invalid arbiter pubkey"
      else match Base64.decode (Sig kd) with
      | Some sig =>
          if negb (length sig =? 64)%nat then Err "invalid signature encoding"
          else if ed25519_verify pubBytes (keyCanonical kd) sig then Ok () else Err "signature verification failed"
      | None => Err "invalid signature encoding"
      end
  | None => Err "invalid arbiter pubkey"
  end.

Definition ParseKeyString (ks : gostring) : res KeyData :=
  match Base64.decode ks with
  | None => Err "key: base64 decode"
  | Some raw =>
      if (length raw <? 4 + nonceSize + 16 + 1)%nat then Err "key: too short"
      else
        let magic := be_get (take 4 raw) in
        if negb ((magic =? keyMagicV1) || (magic =? keyMagicV2)) then Err "key: bad magic"
        else match aead_open (deriveKey 1) (take nonceSize (drop 4 raw)) (drop (4 + nonceSize) raw) with
        | None => Err "key: decrypt"
        | Some plaintext =>
            match Unmarshal dec_key zero_key plaintext with
            | None => Err "key: json"
            | Some kd =>
                if is_empty (k_Username (kd_fields kd)) then Err "key: missing username"
                else if magic =? keyMagicV2 then _ ← verifyKeySignature kd; Ok kd
                else Ok kd
            end
        end
  end.

(** [encodeKey], shared by both sides; [nonce] is what the random source gave. *)
Definition encodeKey (kd : KeyData) (magic : Z) (nonce : res bytes) : res gostring :=
  nonce ← nonce;
  Ok (Base64.encode (be_put 4 magic ++ nonce ++ aead_seal (deriveKey 1) nonce (Marshal (enc_key kd)))).
Definition EncodeKeyString (kd : KeyData) (nonce : res bytes) : res gostring := encodeKey kd keyMagicV1 nonce.

Section signer.
Context {SK : SigningKey}.
Definition EncodeSignedKeyString (kd : KeyData) (nonce : res bytes) : res gostring :=
  encodeKey (MkKeyData (kd_fields kd) (Password kd) (AuthSig kd) (Base64.encode (ed25519_sign (keyCanonical kd))) (IsAdmin kd))
    keyMagicV2 nonce.

(** ** The arbiter *)

(** [buildSignedKey]: the payload it leaves and the string it returns. *)
Definition buildSignedKey {FT : FloatText} (p : KeyData) (nonce : res bytes) : res (KeyData * gostring) :=
  authSig ← signature (DKeyAuth (kd_fields p));
  sig ← signature (DKey (Password p) (kd_fields p));
  let p := MkKeyData (kd_fields p) (Password p) authSig sig (IsAdmin p) in
  ks ← encodeKey p keyMagicV2 nonce;
  Ok (p, ks).

(** The check of AuthSig in handleKeyAuth and apiManifestTopup. *)
Definition check_auth_sig {FT : FloatText} (k : key_fields) (authSig : gostring) : bool :=
  match canonical (DKeyAuth k), Base64.decode authSig with
  | Ok c, Some sig => ed25519_verify pub c sig
  | _, _ => false
  end.
End signer.

(** ** Round trip *)

Definition data_ok (kd : KeyData) : Prop :=
  key_ok (kd_fields kd) /\ string_ok (Password kd) /\ string_ok (AuthSig kd) /\ string_ok (Sig kd).
Definition normal_data (kd : KeyData) : KeyData :=
  MkKeyData (normal (kd_fields kd)) (Password kd) (AuthSig kd) (Sig kd) (IsAdmin kd).

Lemma key_tail_normal k : key_tail (normal k) = key_tail k.
Proof.
  unfold key_tail, strings_field, normal. cbn [k_Servers k_ControlNodes k_ArbiterPubkey k_NodeID k_APIKey k_ClientID k_KeyID].
  by destruct (k_Servers k) as [[]|], (k_ControlNodes k) as [[]|].
Qed.
Lemma enc_key_normal kd : enc_key (normal_data kd) = enc_key kd.
Proof. unfold enc_key, normal_data. cbn [kd_fields Password AuthSig Sig IsAdmin]. by rewrite key_tail_normal. Qed.

Lemma empty_slice_None {A} (l : option (list A)) : empty_slice (some_or_nil l) = true -> some_or_nil l = None.
Proof. by destruct l as [[]|]. Qed.
Lemma not_true b : negb b = true -> b = false.
Proof. by destruct b. Qed.

Lemma dec_key_back kd : dec_key (enc_key kd) zero_key = Some (normal_data kd).
Proof.
  rewrite <- enc_key_normal. unfold dec_key, enc_key, normal_data, normal, key_tail, strings_field, string_field, bool_field.
  cbn [dec_struct kd_fields Password AuthSig Sig IsAdmin k_Username k_Servers k_ControlNodes k_ArbiterPubkey k_NodeID k_APIKey k_ClientID k_KeyID].
  rewrite <- (app_nil_r (omitempty (negb _) _ _)), <- !app_assoc.
  do 12 pick_step ltac:(first [apply dec_strs_back | reflexivity])
    ltac:(first [apply is_empty_nil; assumption | apply empty_slice_None; assumption | apply not_true; assumption]).
  done.
Qed.

Lemma enc_key_ok kd : data_ok kd -> json_ok maxNestingDepth (enc_key kd).
Proof.
  assert (maxNestingDepth = 10000) by done. intros ((? & ? & ? & ? & ? & ? & ? & ?) & ? & ? & ?).
  unfold enc_key, key_tail, strings_field, string_field, bool_field. json_ok_solve; try done.
  all: eapply Forall_impl; [eassumption|]; intros; by apply ok_str.
Qed.

Lemma deriveKey_bytes : bytes_ok (deriveKey 1).
Proof. apply blake2b_bytes. by apply (bool_decide_unpack _). Qed.

(** What the parser makes of an encoded key. *)
Lemma parse_encoded kd magic nonce ks : magic = keyMagicV1 \/ magic = keyMagicV2 -> data_ok kd -> bytes_ok nonce -> length nonce = nonceSize ->
  encodeKey kd magic (Ok nonce) = Ok ks ->
  ParseKeyString ks =
    if is_empty (k_Username (kd_fields kd)) then Err "key: missing username"
    else if magic =? keyMagicV2 then _ ← verifyKeySignature (normal_data kd); Ok (normal_data kd) else Ok (normal_data kd).
Proof.
  intros Hm Hk Hn Hl. unfold encodeKey. cbn [mbind res_bind]. pose proof (enc_key_ok kd Hk) as Ho.
  set (ct := aead_seal _ _ _). intros E. apply (f_equal (fun r => match r with Ok x => x | _ => [] end)) in E. subst ks.
  assert (bytes_ok ct) as Hct by (apply aead_seal_bytes; [apply deriveKey_bytes | done | by eapply Marshal_bytes]).
  unfold ParseKeyString. rewrite Base64.b64_decode_encode by (repeat apply Forall_app_2; [apply be_put_ok | done..]).
  destruct (Marshal_head _ _ Ho) as (c & t & EM & _).
  assert (length ct = length (Marshal (enc_key kd)) + 16)%nat as Lc by apply aead_length_seal.
  assert (0 < length (Marshal (enc_key kd)))%nat by (rewrite EM; cbn; lia).
  rewrite (proj2 (Nat.ltb_ge _ _)) by (rewrite !length_app, length_be_put, Hl, Lc; unfold nonceSize; lia).
  rewrite (take_app_length' _ _ 4) by (by rewrite length_be_put).
  assert (be_get (be_put 4 magic) = magic) as ->.
  { rewrite be_get_put. by destruct Hm as [->| ->]. }
  replace (negb _) with false by (by destruct Hm as [->| ->]).
  rewrite (drop_app_length' _ _ 4), (take_app_length' _ _ nonceSize) by (by rewrite ?length_be_put).
  rewrite app_assoc, (drop_app_length' _ _ (4 + nonceSize)) by (by rewrite length_app, length_be_put, Hl).
  unfold ct. rewrite aead_open_seal, Unmarshal_printed by done. rewrite dec_key_back.
  by destruct (is_empty _), (magic =? keyMagicV2).
Qed.

Section issued.
Context {FT : FloatText} {SK : SigningKey}.

Lemma keyCanonical_payload kd : keyCanonical kd = Marshal (JObj (payload (DKey (Password kd) (kd_fields kd)))).
Proof. reflexivity. Qed.
Lemma keyCanonical_normal kd : keyCanonical (normal_data kd) = keyCanonical kd.
Proof. unfold keyCanonical, normal_data. cbn [kd_fields Password]. by rewrite key_tail_normal. Qed.

(** A key signed by the key pair it names verifies. *)
Lemma verify_signed kd : k_ArbiterPubkey (kd_fields kd) = Hex.encode pub -> Sig kd = Base64.encode (ed25519_sign (keyCanonical kd)) ->
  verifyKeySignature (normal_data kd) = Ok ().
Proof.
  intros Hp Hs. unfold verifyKeySignature. rewrite keyCanonical_normal.
  change (k_ArbiterPubkey (kd_fields (normal_data kd))) with (k_ArbiterPubkey (kd_fields kd)).
  change (Sig (normal_data kd)) with (Sig kd).
  assert (Hex.decode (k_ArbiterPubkey (kd_fields kd)) = Some pub) as Ep by (rewrite Hp; apply Hex.decode_encode, pub_bytes).
  assert (Base64.decode (Sig kd) = Some (ed25519_sign (keyCanonical kd))) as Es by (rewrite Hs; apply Base64.b64_decode_encode, sign_bytes).
  destruct (is_empty (k_ArbiterPubkey (kd_fields kd))) eqn:E1.
  { apply is_empty_nil in E1. rewrite E1 in Ep. pose proof length_pub as L. injection Ep as Ep. by rewrite <- Ep in L. }
  destruct (is_empty (Sig kd)) eqn:E2.
  { apply is_empty_nil in E2. rewrite E2 in Es. pose proof (length_sign (keyCanonical kd)) as L. injection Es as Es. by rewrite <- Es in L. }
  rewrite Ep, Es, length_pub, length_sign. cbn [Nat.eqb negb]. by rewrite verify_sign.
Qed.

(** C24: A key string survives the way from the arbiter to the client: whatever the fields of
    a key with a user name, [buildSignedKey] gives a string that the client parses, with its
    signature verified, to the same fields (an empty list of servers comes back as nil), and
    the AuthSig in it is accepted by the arbiter for the fields the client then sends. *)
Theorem key_roundtrip p nonce :
  key_ok (kd_fields p) -> string_ok (Password p) -> k_Username (kd_fields p) <> [] ->
  k_ArbiterPubkey (kd_fields p) = Hex.encode pub -> bytes_ok nonce -> length nonce = nonceSize ->
  exists q ks, buildSignedKey p (Ok nonce) = Ok (q, ks) /\ ParseKeyString ks = Ok (normal_data q) /\
    kd_fields q = kd_fields p /\ Password q = Password p /\ IsAdmin q = IsAdmin p /\
    check_auth_sig (kd_fields (normal_data q)) (AuthSig q) = true.
Proof.
  intros Hk Hw Hu Hp Hn Hl. unfold buildSignedKey, signature, canonical. cbn [doc_finite mbind res_bind].
  set (q := MkKeyData _ _ _ _ _). assert (data_ok q) as Hq by (split_and!; [done..|apply Base64_encode_ok, sign_bytes|apply Base64_encode_ok, sign_bytes]).
  destruct (encodeKey q keyMagicV2 (Ok nonce)) as [ks| |] eqn:E; [|done..]. exists q, ks. cbn [mbind res_bind].
  split_and!; try done.
  - rewrite (parse_encoded q keyMagicV2 nonce ks) by (done || by right).
    destruct (is_empty _) eqn:Eu; [by apply is_empty_nil in Eu|]. rewrite Z.eqb_refl, verify_signed by done. done.
  - unfold check_auth_sig, canonical. cbn [doc_finite payload normal_data kd_fields]. rewrite key_tail_normal.
    change (k_Username (normal (kd_fields q))) with (k_Username (kd_fields q)). cbn [AuthSig q].
    rewrite Base64.b64_decode_encode by apply sign_bytes. apply verify_sign.
Qed.
End issued.

(** The signature in a key says nothing about who issued it: a string of the first version is
    accepted without one, and one of the second version is checked against the public key it
    brings itself, so that any key pair will do. *)
Theorem anyone_issues_keys {SK : SigningKey} kd nonce :
  data_ok kd -> k_Username (kd_fields kd) <> [] -> bytes_ok nonce -> length nonce = nonceSize ->
  (exists ks, EncodeKeyString kd (Ok nonce) = Ok ks /\ ParseKeyString ks = Ok (normal_data kd)) /\
  (k_ArbiterPubkey (kd_fields kd) = Hex.encode pub ->
   exists ks q, EncodeSignedKeyString kd (Ok nonce) = Ok ks /\ ParseKeyString ks = Ok q /\ Nodes q = Nodes (normal_data kd)).
Proof.
  intros Hk Hu Hn Hl. split; [|intros Hp]; eexists.
  - split; [reflexivity|]. rewrite (parse_encoded kd keyMagicV1 nonce) by (done || by left).
    destruct (is_empty _) eqn:E; [by apply is_empty_nil in E | done].
  - set (q := MkKeyData (kd_fields kd) (Password kd) (AuthSig kd) (Base64.encode (ed25519_sign (keyCanonical kd))) (IsAdmin kd)).
    exists (normal_data q). split; [reflexivity|]. split; [|done].
    assert (data_ok q) by (destruct Hk as (? & ? & ? & _); split_and!; [done..|apply Base64_encode_ok, sign_bytes]).
    rewrite (parse_encoded q keyMagicV2 nonce) by (done || by right).
    destruct (is_empty _) eqn:E; [by apply is_empty_nil in E|]. rewrite Z.eqb_refl, verify_signed by done. done.
Qed.
End keys.

Definition ex_key : KeyData :=
  MkKeyData (MkKey (bs "ann") (Some []) (Some [bs "10.0.0.1:443"]) (Hex.encode pub) (bs "n1") [] (bs "c1") (bs "k1")) (bs "pw") [] [] true.
Lemma key_roundtrip_witness :
  exists q ks, buildSignedKey ex_key (Ok (replicate 24 9)) = Ok (q, ks) /\ ParseKeyString ks = Ok (normal_data q) /\
    check_auth_sig (kd_fields (normal_data q)) (AuthSig q) = true.
Proof.
  destruct (key_roundtrip ex_key (replicate 24 9)) as (q & ks & E & P & _ & _ & _ & C).
  - unfold key_ok. split_and!; by apply (bool_decide_unpack _).
  - by apply (bool_decide_unpack _).
  - done.
  - done.
  - by apply (bool_decide_unpack _).
  - done.
  - exists q, ks. exact (conj E (conj P C)).
Defined.
End Keys.

Module Club.
Import Json Signing Lists EndToEnd.

Record signedClubManifest := MkClubManifest {
  cm_Type : gostring; cm_ClubID : Z; cm_TS : Z; cm_Nonce : gostring; cm_Cipher : gostring; cm_Sig : gostring }.
Definition zero_club : signedClubManifest := MkClubManifest [] 0 0 [] [] [].
Definition dec_club : json -> signedClubManifest -> option signedClubManifest := dec_struct (fun kvs m =>
  let ns := names ["type"; "club_id"; "ts"; "nonce"; "cipher"; "sig"] in
  ty ← pick ns "type" dec_str (cm_Type m) kvs; club ← pick ns "club_id" dec_int64 (cm_ClubID m) kvs;
  ts ← pick ns "ts" dec_int64 (cm_TS m) kvs; nonce ← pick ns "nonce" dec_str (cm_Nonce m) kvs;
  cipher ← pick ns "cipher" dec_str (cm_Cipher m) kvs; sig ← pick ns "sig" dec_str (cm_Sig m) kvs;
  Some (MkClubManifest ty club ts nonce cipher sig)).
Definition club_canonical (m : signedClubManifest) : bytes :=
  Marshal (JObj (field "type" (JStr (cm_Type m)) ++ field "club_id" (enc_int64 (cm_ClubID m)) ++ field "ts" (enc_int64 (cm_TS m))
    ++ field "nonce" (JStr (cm_Nonce m)) ++ field "cipher" (JStr (cm_Cipher m)))).

(** The answer to a key request. *)
Record club_key := MkClubKey { ck_Club : gostring; ck_Key : gostring; ck_Number : Z; ck_MembershipClub : gostring }.
Definition dec_club_key : json -> club_key -> option club_key := dec_struct (fun kvs m =>
  let ns := names ["club"; "key"; "membership_number"; "membership_club"] in
  club ← pick ns "club" dec_str (ck_Club m) kvs; key ← pick ns "key" dec_str (ck_Key m) kvs;
  number ← pick ns "membership_number" dec_int64 (ck_Number m) kvs;
  mclub ← pick ns "membership_club" dec_str (ck_MembershipClub m) kvs; Some (MkClubKey club key number mclub)).

Section club.
Context {FT : FloatText} {AE : Aead} {ED : Ed25519}.

(** An HTTP exchange: its status and body, or an error. *)
Abbreviation answer := (res (Z * bytes)).

Definition fetchKey (r : answer) : res (bytes * Z * gostring) :=
  match r with
  | Ok (status, body) =>
      if status =? 403 then Err "club-discovery: not a member"
      else if negb (status =? 200) then Err "HTTP"
      else match Decode dec_club_key (MkClubKey [] [] 0 []) (take 4096 body) with
      | None => Err "parse"
      | Some out =>
          match Base64.decode (ck_Key out) with
          | None => Err "decode key"
          | Some key => Ok (key, ck_Number out, if is_empty (ck_MembershipClub out) then ck_Club out else ck_MembershipClub out)
          end
      end
  | _ => Err "request"
  end.

Definition club_sig_ok (pubkey : option bytes) (m : signedClubManifest) : bool :=
  match pubkey with
  | None => true
  | Some k => match Base64.decode (cm_Sig m) with Some sig => ed25519_verify k (club_canonical m) sig | None => false end
  end.
(** [fetchAndDecrypt]; the cipher panics on a nonce that has not 24 bytes. *)
Definition fetchAndDecrypt (pubkey : option bytes) (key : bytes) (r : answer) : res (list NodeEntry) :=
  match r with
  | Ok (status, body) =>
      if negb (status =? 200) then Err "HTTP"
      else match Unmarshal dec_club zero_club (take (Z.to_nat (Z.shiftl 4 20)) body) with
      | None => Err "parse"
      | Some m =>
          if negb (bool_decide (cm_Type m = bs "club_manifest")) then Err "unexpected type"
          else if negb (club_sig_ok pubkey m) then Err "signature verification failed"
          else match Base64.decode (cm_Nonce m), Base64.decode (cm_Cipher m) with
          | None, _ => Err "decode nonce"
          | _, None => Err "decode cipher"
          | Some nonce, Some ct =>
              if negb (length key =? 32)%nat then Err "aead init"
              else if negb (length nonce =? 24)%nat then Panic
              else match aead_open key nonce ct with
              | None => Err "decrypt"
              | Some plain =>
                  match Unmarshal (dec_slice dec_node zero_node) None plain with
                  | None => Err "parse decrypted nodes"
                  | Some nodes => Ok (default [] nodes)
                  end
              end
          end
      end
  | _ => Err "request"
  end.

Record ClubDiscoverer := MkClubDisc {
  cd_pubkey : option bytes;
  cd_serverURL : gostring;
  cd_key : option bytes;
  cd_nodes : list NodeEntry;
  cd_membershipNumber : Z;
  cd_membershipClub : gostring }.
Definition SetServerURL (url : gostring) (d : ClubDiscoverer) : ClubDiscoverer :=
  MkClubDisc (cd_pubkey d) url (cd_key d) (cd_nodes d) (cd_membershipNumber d) (cd_membershipClub d).
Definition club_Controls (d : ClubDiscoverer) : list gostring := Addr <$> cd_nodes d.
Definition IsMember (d : ClubDiscoverer) : bool := match cd_key d with Some _ => true | None => false end.
Definition MembershipInfo (d : ClubDiscoverer) : option (gostring * Z) :=
  match cd_key d with Some _ => Some (cd_membershipClub d, cd_membershipNumber d) | None => None end.

(** What a poll calls back: membership gained, and the new addresses. *)
Record calls := MkCalls { onMembership : bool; onChange : option (list gostring) }.
Definition poll_manifest (key : bytes) (r : answer) (d : ClubDiscoverer) (joined : bool) : res (ClubDiscoverer * calls) :=
  match fetchAndDecrypt (cd_pubkey d) key r with
  | Ok nodes =>
      let changed := negb (length nodes =? length (cd_nodes d))%nat in
      Ok (MkClubDisc (cd_pubkey d) (cd_serverURL d) (cd_key d) nodes (cd_membershipNumber d) (cd_membershipClub d),
          MkCalls joined (if changed then Some (Addr <$> nodes) else None))
  | Err _ => Ok (d, MkCalls joined None)
  | Panic => Panic
  end.
Definition pollOnce (key_reply manifest_reply : answer) (d : ClubDiscoverer) : res (ClubDiscoverer * calls) :=
  if is_empty (cd_serverURL d) then Ok (d, MkCalls false None)
  else match cd_key d with
  | Some key => poll_manifest key manifest_reply d false
  | None =>
      match fetchKey key_reply with
      | Ok (key, number, club) =>
          poll_manifest key manifest_reply (MkClubDisc (cd_pubkey d) (cd_serverURL d) (Some key) (cd_nodes d) number club) true
      | _ => Ok (d, MkCalls false None)
      end
  end.

(** ** What a member reads *)

Section signer.
Context {SK : SigningKey}.

Lemma dec_club_back club ts nonce cipher sig : int64_ok club -> int64_ok ts ->
  dec_club (JObj (payload (DClub club ts nonce cipher) ++ [] ++ field "sig" (JStr sig))) zero_club =
    Some (MkClubManifest (bs "club_manifest") club ts nonce cipher sig).
Proof.
  intros Hc Ht. unfold dec_club. cbn [dec_struct payload app]. rewrite <- (app_nil_r (field "sig" _)), <- !app_assoc.
  do 6 pick_step ltac:(first [apply dec_int64_enc; assumption | reflexivity]) idtac. done.
Qed.

(** The body limit of the client. *)
Definition fits (data : bytes) : Prop := lenZ data <= Z.shiftl 4 20.
Lemma fits_take data : fits data -> take (Z.to_nat (Z.shiftl 4 20)) data = data.
Proof. intros H. apply take_ge. unfold fits in H. lia. Qed.

(** A member of a club reads the nodes the arbiter sealed for the club: whatever the
    nodes, the text of [signClubManifest] is accepted under the arbiter's key by a client that
    holds the club's key, as long as it is within the client's limit, and gives those nodes. *)
Theorem club_roundtrip ts clubID key nonce nodes :
  int64_ok ts -> int64_ok clubID -> bytes_ok key -> length key = 32%nat -> bytes_ok nonce -> length nonce = 24%nat ->
  Forall entry_ok nodes ->
  exists data, signClubManifest ts clubID key nonce nodes = Ok data /\
    (fits data -> fetchAndDecrypt (Some pub) key (Ok (200, data)) = Ok nodes).
Proof.
  intros Ht Hc Hk Lk Hn Ln He. assert (forallb node_finite nodes = true) as Hf.
  { apply forallb_forall. intros x Hx%list_elem_of_In. by destruct (proj1 (Forall_forall _ _) He x Hx) as ((_ & _ & ?) & _). }
  unfold signClubManifest. rewrite Hf, Lk. cbn [negb Nat.eqb]. set (ct := aead_seal key nonce _).
  assert (json_ok maxNestingDepth (JArr (enc_node <$> nodes))) as Ho.
  { assert (maxNestingDepth = 10000) by done. json_ok_solve. eapply Forall_impl; [exact He|]. intros n [? _]. by apply ok_node; [lia|]. }
  assert (bytes_ok ct) as Hct by (apply aead_seal_bytes; [done..|by eapply Marshal_bytes]).
  set (d := DClub clubID ts _ _). assert (doc_ok d) as Hd by (split; by apply Base64_encode_ok).
  destruct (signed_text_total d [] eq_refl) as [data E]. exists data. split; [exact E|]. intros Hfit.
  apply signed_text_shape in E as (s & -> & Hs & sg & Es & _ & Hv). unfold fetchAndDecrypt. cbn [Z.eqb negb]. change (200 =? 200) with true.
  cbn [negb]. rewrite fits_take by done. rewrite Unmarshal_printed by (apply signed_ok; [done | constructor | done]).
  unfold d at 1. rewrite dec_club_back by done. cbn [cm_Type cm_Nonce cm_Cipher]. rewrite bool_decide_eq_true_2 by done. cbn [negb].
  assert (club_sig_ok (Some pub) (MkClubManifest (bs "club_manifest") clubID ts (Base64.encode nonce) (Base64.encode ct) s) = true) as ->.
  { unfold club_sig_ok. cbn [cm_Sig]. by rewrite Es. }
  cbn [negb]. rewrite !Base64.b64_decode_encode by done. rewrite Lk, Ln. cbn [Nat.eqb negb]. unfold ct. rewrite aead_open_seal.
  rewrite Unmarshal_printed by done. change (JArr (enc_node <$> nodes)) with (enc_slice enc_node (Some nodes)).
  by rewrite dec_nodes_back.
Qed.

(** ** Authenticity *)

Definition club_strings (m : signedClubManifest) : Prop := string_ok (cm_Type m) /\ string_ok (cm_Nonce m) /\ string_ok (cm_Cipher m).
Lemma club_decoded data m : bytes_ok data -> Unmarshal dec_club zero_club data = Some m -> club_strings m.
Proof.
  intros Hd. unfold Unmarshal. destruct (Parse data) as [j|] eqn:Ep; [|done]. cbn [mbind option_bind].
  apply Parse_ok in Ep; [|done]. assert (well_formed j) as Hj by (by eexists). clear Ep. intros E.
  pose proof string_ok_nil as Hn. destruct j as [| | | | |kvs]; try done; [by injection E as <-|]. apply wf_obj in Hj.
  unfold dec_club in E. cbn [dec_struct] in E.
  do 6 peel_pick E.
  injection E as <-. split_and!; cbn [cm_Type cm_Nonce cm_Cipher];
    (eapply pick_decodes; [apply dec_str_ok | exact Hj | exact Hn | eassumption]).
Qed.

Lemma club_payload_doc d m : payload d = field "type" (JStr (cm_Type m)) ++ field "club_id" (enc_int64 (cm_ClubID m)) ++
    field "ts" (enc_int64 (cm_TS m)) ++ field "nonce" (JStr (cm_Nonce m)) ++ field "cipher" (JStr (cm_Cipher m)) ->
  d = DClub (cm_ClubID m) (cm_TS m) (cm_Nonce m) (cm_Cipher m).
Proof.
  intros E. destruct d; try done; cbn [payload] in E. injection E as _ E1%Strconv.itoa_inj E2%Strconv.itoa_inj -> ->. by subst.
Qed.

Context (issued : document -> Prop) (known : bytes -> Prop).

(** C25: If nobody can forge the arbiter's signature, then whatever a relay answers, the nodes
    a member takes from a club manifest are those in a ciphertext the arbiter issued for some
    club, opened with the key the member holds. *)
Theorem club_authentic key status body nodes :
  unforged issued known -> bytes_ok body ->
  (forall m s, Unmarshal dec_club zero_club (take (Z.to_nat (Z.shiftl 4 20)) body) = Some m -> Base64.decode (cm_Sig m) = Some s -> known s) ->
  fetchAndDecrypt (Some pub) key (Ok (status, body)) = Ok nodes ->
  exists club ts nonce cipher n ct plain l, issued (DClub club ts nonce cipher) /\
    Base64.decode nonce = Some n /\ Base64.decode cipher = Some ct /\ aead_open key n ct = Some plain /\
    Unmarshal (dec_slice dec_node zero_node) None plain = Some l /\ nodes = default [] l.
Proof.
  intros [Hu _] Hb Hk. unfold fetchAndDecrypt. destruct (negb (status =? 200)); [done|].
  destruct (Unmarshal dec_club zero_club _) as [m|] eqn:Em; [|done].
  assert (club_strings m) as (S1 & S2 & S3) by (eapply club_decoded; [|exact Em]; by apply Forall_take).
  destruct (negb (bool_decide _)); [done|]. unfold club_sig_ok. destruct (Base64.decode (cm_Sig m)) as [sg|] eqn:Es; [|done].
  destruct (ed25519_verify pub (club_canonical m) sg) eqn:Ev; [|done]. cbn [negb].
  destruct (Hu _ sg (Hk m sg eq_refl Es) Ev) as (d & Hi & Hd & Ec). apply canonical_payload in Ec.
  apply Marshal_inj in Ec; [| |by apply payload_ok].
  2: { assert (maxNestingDepth = 10000) by done. json_ok_solve; done. }
  apply (f_equal (fun j => match j with JObj l => l | _ => [] end)) in Ec. symmetry in Ec. apply club_payload_doc in Ec as ->.
  destruct (Base64.decode (cm_Nonce m)) as [n|] eqn:En; [|done]. destruct (Base64.decode (cm_Cipher m)) as [ct|] eqn:Et; [|done].
  destruct (negb _); [done|]. destruct (negb _); [done|]. destruct (aead_open key n ct) as [plain|] eqn:Ep; [|done].
  destruct (Unmarshal _ None plain) as [l|] eqn:El; [|done]. intros [= <-]. by eauto 15.
Qed.
End signer.

(** The callback for a changed list of controls looks at its length only: addresses that
    were replaced one for one are not announced. *)
Theorem replaced_controls_unannounced key r d nodes :
  cd_serverURL d <> [] -> cd_key d = Some key -> fetchAndDecrypt (cd_pubkey d) key r = Ok nodes ->
  length nodes = length (cd_nodes d) -> Addr <$> nodes <> club_Controls d ->
  exists d', pollOnce (Err "unused") r d = Ok (d', MkCalls false None) /\ club_Controls d' = Addr <$> nodes.
Proof.
  intros Hu Hk Hf Hl _. unfold pollOnce, poll_manifest. rewrite Hk, Hf. destruct (is_empty _) eqn:E; [by apply is_empty_nil in E|].
  rewrite Hl, Nat.eqb_refl. by eexists.
Qed.
End club.

Definition ex_club_node : NodeEntry := MkNodeEntry (bs "10.0.0.9:443") (bs "ab") Float.f0 Float.f0 (Some true).
Definition ex_club_data : bytes :=
  match signClubManifest 1700000000 3 (replicate 32 5) (replicate 24 9) [ex_club_node] with Ok d => d | _ => [] end.

Lemma club_roundtrip_witness :
  fetchAndDecrypt (Some pub) (replicate 32 5) (Ok (200, ex_club_data)) = Ok [ex_club_node].
Proof.
  unfold ex_club_data. destruct (club_roundtrip 1700000000 3 (replicate 32 5) (replicate 24 9) [ex_club_node]) as (data & E & H).
  - by apply (bool_decide_unpack _).
  - by apply (bool_decide_unpack _).
  - by apply (bool_decide_unpack _).
  - done.
  - by apply (bool_decide_unpack _).
  - done.
  - constructor; [|constructor]. unfold entry_ok, node_ok. split_and!; first [done | by apply (bool_decide_unpack _)].
  - assert (data = ex_club_data) as Ed by (unfold ex_club_data; by rewrite E). rewrite E. apply H. rewrite Ed. by vm_compute.
Defined.

(** The arbiter issued one club manifest. *)
Definition ex_club_doc : document :=
  DClub 3 1700000000 (Base64.encode (replicate 24 9))
    (Base64.encode (aead_seal (replicate 32 5) (replicate 24 9) (Marshal (JArr [enc_node ex_club_node])))).
Definition ex_club_body : bytes :=
  match signed_text (SK := only_key ex_club_doc) ex_club_doc [] with Ok d => d | _ => [] end.

Lemma club_authentic_witness :
  exists club ts nonce cipher, only_issued ex_club_doc (DClub club ts nonce cipher).
Proof.
  destruct (@club_authentic _ _ (only_ed25519 ex_club_doc) (only_key ex_club_doc) (only_issued ex_club_doc) only_known
    (replicate 32 5) 200 ex_club_body [ex_club_node]) as (club & ts & nonce & cipher & n & ct & plain & l & H & _).
  - apply only_unforged; [|done]. split; by apply (bool_decide_unpack _); vm_compute.
  - by apply (bool_decide_unpack _); vm_compute.
  - intros m s Em Es.
    assert (from_option (fun m => from_option (fun s => bool_decide (s = replicate 64 1)) true (Base64.decode (cm_Sig m))) true
      (Unmarshal dec_club zero_club (take (Z.to_nat (Z.shiftl 4 20)) ex_club_body)) = true) as H by (vm_compute; reflexivity).
    rewrite Em in H. cbn [from_option] in H. rewrite Es in H. by apply bool_decide_eq_true in H.
  - vm_compute. reflexivity.
  - exists club, ts, nonce, cipher. exact H.
Defined.
End Club.
