(* ===== verification/ClientTopup.v ===== *)
(** * Topping up a client's controls

    snc/core/manifest_topup.go asks, one at a time, for controls beyond those of the
    manifest; snc-arbiter/manifest_topup_api.go answers. The client's key authenticates each
    request, which carries the addresses the client has or has tried.

    - [topup_serves]: what a client with an issued key is answered.
    - [topup_ends]: a round of requests ends, whatever the arbiter's pools hold and however
      long the round takes, beside other rounds, as long as none of these starts five minutes
      or more after it ([overtaken_round_repeats] is one that does).

    The addresses tried are shared by all rounds: the mutex covers each of the prune, the
    building of the exclude list and the append, and the steps of other rounds come between. *)

From stdpp Require Import base list gmap strings fin_maps sorting.
From Stdlib Require Import ZArith Lia.
From S2P Require Import Prelude GoLib GoFloat GoJson ArbiterSigning ArbiterManifest ClientDiscovery ClientManifest ClientKey.

Module Topup.
Import Json Signing Lists Keys.

(** ** The request *)

Record topup_request := MkTopup { q_fields : key_fields; q_AuthSig : gostring; q_Exclude : option (list gostring) }.
Definition zero_request : topup_request := MkTopup zero_fields [] None.
Definition enc_request (q : topup_request) : json :=
  let k := q_fields q in
  JObj (field "username" (JStr (k_Username k)) ++ field "servers" (enc_strs (k_Servers k))
    ++ field "control_nodes" (enc_strs (k_ControlNodes k)) ++ field "arbiter_pubkey" (JStr (k_ArbiterPubkey k))
    ++ field "node_id" (JStr (k_NodeID k)) ++ field "api_key" (JStr (k_APIKey k)) ++ field "client_id" (JStr (k_ClientID k))
    ++ field "key_id" (JStr (k_KeyID k)) ++ field "auth_sig" (JStr (q_AuthSig q)) ++ field "exclude" (enc_strs (q_Exclude q))).
Definition request_names : list gostring := names
  ["username"; "servers"; "control_nodes"; "arbiter_pubkey"; "node_id"; "api_key"; "client_id"; "key_id"; "auth_sig"; "exclude"].
Definition dec_request : json -> topup_request -> option topup_request := dec_struct (fun kvs q =>
  let ns := request_names in let k := q_fields q in
  user ← pick ns "username" dec_str (k_Username k) kvs; srv ← pick ns "servers" dec_strs (k_Servers k) kvs;
  ctl ← pick ns "control_nodes" dec_strs (k_ControlNodes k) kvs; apk ← pick ns "arbiter_pubkey" dec_str (k_ArbiterPubkey k) kvs;
  nid ← pick ns "node_id" dec_str (k_NodeID k) kvs; api ← pick ns "api_key" dec_str (k_APIKey k) kvs;
  cid ← pick ns "client_id" dec_str (k_ClientID k) kvs; kid ← pick ns "key_id" dec_str (k_KeyID k) kvs;
  asig ← pick ns "auth_sig" dec_str (q_AuthSig q) kvs; excl ← pick ns "exclude" dec_strs (q_Exclude q) kvs;
  Some (MkTopup (MkKey user srv ctl apk nid api cid kid) asig excl)).

Section topup.
Context {FT : FloatText} {ED : Ed25519} {SK : SigningKey}.

(** ** The arbiter *)

(** The nodes of the clubs the user may use; [clubs] is [None] when the user or the clubs
    cannot be read, and each club comes with its access check and its nodes. *)
Definition club_nodes (c : res bool * res (list Node)) : list Node :=
  match c with (Ok true, Ok nodes) => nodes | _ => [] end.
Definition topup_pool (general : list Node) (clubs : option (list (res bool * res (list Node)))) : list Node :=
  general ++ concat (club_nodes <$> default [] clubs).

(** [json.Encoder] writes nothing when it fails. *)
Definition encode_entry (e : NodeEntry) : bytes := if node_finite e then Marshal (enc_node e) ++ [10] else [].

Definition apiManifestTopup (allowed : bool) (body : bytes) (general : res (list Node))
    (clubs : option (list (res bool * res (list Node)))) (draw : nat) : reply :=
  if negb allowed then HttpError 429 "too many requests"
  else match DecodeLimited 8192 dec_request zero_request body with
  | None => HttpError 400 "bad request"
  | Some q =>
      if is_empty (k_Username (q_fields q)) || is_empty (q_AuthSig q) then HttpError 400 "invalid request"
      else if negb (check_auth_sig (q_fields q) (q_AuthSig q)) then HttpError 401 "invalid key"
      else match general with
      | Ok general =>
          match List.filter (fun n => negb (bool_decide (node_Addr n ∈ default [] (q_Exclude q)))) (topup_pool general clubs) with
          | [] => HttpOK (Marshal (JObj (field "exhausted" (JBool true))) ++ [10])
          | c :: cs => HttpOK (encode_entry (entry_of (nth (draw mod S (length cs)) (c :: cs) c)))
          end
      | _ => HttpError 500 "internal error"
      end
  end.

(** ** The client *)

(** The reply embeds a manifestNode. *)
Record topup_reply := MkReply { r_node : NodeEntry; r_Exhausted : bool }.
Definition dec_reply : json -> topup_reply -> option topup_reply := dec_struct (fun kvs r =>
  let ns := names ["addr"; "fingerprint"; "rtt_ms"; "load"; "data_plane_ok"; "exhausted"] in let n := r_node r in
  a ← pick ns "addr" dec_str (Addr n) kvs; f ← pick ns "fingerprint" dec_str (Fingerprint n) kvs;
  rtt ← pick ns "rtt_ms" dec_float (RTTms n) kvs; l ← pick ns "load" dec_float (Load n) kvs;
  d ← pick ns "data_plane_ok" dec_pbool (DataPlaneOK n) kvs; e ← pick ns "exhausted" dec_bool (r_Exhausted r) kvs;
  Some (MkReply (MkNodeEntry a f rtt l d) e)).

(** [requestOne] on the answer to its request. *)
Definition requestOne (r : res reply) : res topup_reply :=
  match r with
  | Ok (HttpOK body) =>
      match Decode dec_reply (MkReply zero_node false) body with Some r => Ok r | None => Err "decode" end
  | Ok (HttpError code _) => if code =? 429 then Err "topup: rate limited" else Err "topup: status"
  | _ => Err "request"
  end.

Definition topupTarget : Z := 12.
Definition topupTriedWindow : Z := 5 * minute.

(** The addresses received, with the time. *)
Abbreviation tried_list := (list (gostring * Z)).
Definition pruneLocked (now : Z) (tried : tried_list) : tried_list :=
  List.filter (fun e => now - e.2 <? topupTriedWindow) tried.
Fixpoint distinct (seen : list gostring) (l : list gostring) : list gostring :=
  match l with
  | [] => []
  | a :: l => if decide (a ∈ seen) then distinct seen l else a :: distinct (a :: seen) l
  end.
Definition excludeSetLocked (tried : tried_list) (known : list gostring) : list gostring :=
  distinct [] (tried.*1 ++ known).

(** The steps of other rounds on the shared list: the prune they begin with and the addresses
    they received. *)
Inductive other_step := OPrune (now : Z) | OTried (addr : gostring) (at_ : Z).
Definition other (tried : tried_list) (o : other_step) : tried_list :=
  match o with OPrune now => pruneLocked now tried | OTried a at_ => tried ++ [(a, at_)] end.
Definition others (os : list other_step) (tried : tried_list) : tried_list := fold_left other os tried.

(** What one turn of the loop meets: the steps of other rounds before it builds its exclude list
    and between that and its append among it. *)
Record turn := MkTurn {
  t_cancelled : bool; t_liveCount : Z; t_known : list gostring; t_now : Z; t_probe : gostring -> bool;
  t_answer : bytes -> res reply; t_before : list other_step; t_during : list other_step }.
(** How a round ended, the addresses tried and those handed to addFn, in order. *)
Inductive ending := Cancelled | Enough | Failed | Exhausted.
Record round := MkRound { r_ending : ending; r_tried : tried_list; r_added : list gostring }.

(** The loop of [Run] over the turns it meets; [None] when they are used up. *)
Fixpoint run_loop (k : key_fields) (authSig : gostring) (turns : list turn) (tried : tried_list) (added : list gostring) : option round :=
  match turns with
  | [] => None
  | t :: turns =>
      if t_cancelled t then Some (MkRound Cancelled tried added)
      else if topupTarget <=? t_liveCount t then Some (MkRound Enough tried added)
      else
        let tried := others (t_before t) tried in
        let exclude := excludeSetLocked tried (t_known t) in
        let tried := others (t_during t) tried in
        match requestOne (t_answer t (Marshal (enc_request (MkTopup k authSig (Some exclude))))) with
        | Ok r =>
            if r_Exhausted r then Some (MkRound Exhausted tried added)
            else
              let a := Addr (r_node r) in
              run_loop k authSig turns (tried ++ [(a, t_now t)]) (if t_probe t a then added ++ [a] else added)
        | _ => Some (MkRound Failed tried added)
        end
  end.
Definition Run (now : Z) (k : key_fields) (authSig : gostring) (turns : list turn) (tried : tried_list) : option round :=
  run_loop k authSig turns (pruneLocked now tried) [].

(** ** What the client gets *)

Definition request_ok (q : topup_request) : Prop :=
  key_ok (q_fields q) /\ string_ok (q_AuthSig q) /\ strings_ok (q_Exclude q).

Lemma dec_request_back q : dec_request (enc_request q) zero_request = Some q.
Proof.
  unfold dec_request, enc_request. cbn [dec_struct]. rewrite <- (app_nil_r (field "exclude" _)).
  do 10 pick_step ltac:(first [apply dec_strs_back | reflexivity]) idtac. by destruct q as [[]].
Qed.
Lemma enc_request_ok q : request_ok q -> json_ok maxNestingDepth (enc_request q).
Proof.
  assert (maxNestingDepth = 10000) by done. intros ((? & ? & ? & ? & ? & ? & ? & ?) & ? & ?). unfold enc_request. json_ok_solve; try done.
  all: eapply Forall_impl; [eassumption|]; intros; by apply ok_str.
Qed.

Lemma dec_reply_node e : entry_ok e -> dec_reply (enc_node e) (MkReply zero_node false) = Some (MkReply e false).
Proof.
  intros ((_ & _ & [F1 F2]%andb_true_iff) & Z1 & Z2). unfold dec_reply, enc_node. cbn [dec_struct].
  rewrite <- (app_nil_r (omitempty (is_nil _) _ _)).
  do 6 pick_step ltac:(first [by apply parse_float_text | by apply dec_pbool_back | reflexivity])
    ltac:(first [by apply is_empty_nil | by apply zero_float | by apply is_nil_None]).
  by destruct e.
Qed.

(** The candidates for a request. *)
Definition candidates (exclude : list gostring) (pool : list Node) : list Node :=
  List.filter (fun n => negb (bool_decide (node_Addr n ∈ exclude))) pool.
Lemma topup_candidates_spec exclude pool n : n ∈ candidates exclude pool <-> n ∈ pool /\ node_Addr n ∉ exclude.
Proof. unfold candidates. by rewrite list_elem_of_In, filter_In, <- list_elem_of_In, negb_true_iff, bool_decide_eq_false. Qed.

Lemma nth_in {A} (c : A) cs i : nth (i mod S (length cs)) (c :: cs) c ∈ c :: cs.
Proof. apply list_elem_of_In, nth_In. cbn [length]. apply Nat.mod_upper_bound. lia. Qed.

(** The answers the client can get from the arbiter. *)
Lemma arbiter_answers q allowed general clubs draw : request_ok q ->
  (forall g, general = Ok g -> Forall (fun n => entry_ok (entry_of n)) (topup_pool g clubs)) ->
  match requestOne (Ok (apiManifestTopup allowed (Marshal (enc_request q)) general clubs draw)) with
  | Ok r => exists g, general = Ok g /\
      (r = MkReply zero_node true /\ candidates (default [] (q_Exclude q)) (topup_pool g clubs) = [] \/
       exists n, n ∈ candidates (default [] (q_Exclude q)) (topup_pool g clubs) /\ r = MkReply (entry_of n) false)
  | Err _ => allowed = false \/ 8192 < lenZ (Marshal (enc_request q)) \/ k_Username (q_fields q) = [] \/ q_AuthSig q = [] \/
      check_auth_sig (q_fields q) (q_AuthSig q) = false \/ (forall g, general <> Ok g)
  | Panic => False
  end.
Proof.
  intros Hq Hp. pose proof (enc_request_ok q Hq) as Ho. unfold apiManifestTopup. destruct allowed; [|by left]. cbn [negb].
  rewrite DecodeLimited_printed by done. destruct (Z.leb_spec (lenZ (Marshal (enc_request q))) 8192) as [_|Hl]; [|by right; left].
  rewrite dec_request_back. destruct (is_empty (k_Username (q_fields q))) eqn:E1; [right; right; left; by apply is_empty_nil|].
  destruct (is_empty (q_AuthSig q)) eqn:E2; [right; right; right; left; by apply is_empty_nil|]. cbn [orb].
  destruct (check_auth_sig (q_fields q) (q_AuthSig q)) eqn:E3; [|by do 4 right; left]. cbn [negb].
  destruct general as [g| |]; [|by do 5 right..]. specialize (Hp g eq_refl). fold (candidates (default [] (q_Exclude q)) (topup_pool g clubs)).
  destruct (candidates _ _) as [|c cs] eqn:Ec.
  - cbn [requestOne]. rewrite Decode_line by (assert (maxNestingDepth = 10000) by done; json_ok_solve).
    assert (dec_reply (JObj (field "exhausted" (JBool true))) (MkReply zero_node false) = Some (MkReply zero_node true)) as -> by reflexivity.
    exists g. split; [done|]. by left.
  - set (n := nth _ _ _). assert (n ∈ c :: cs) as Hn by apply nth_in. rewrite <- Ec in Hn.
    pose proof (proj1 (topup_candidates_spec _ _ _) Hn) as [Hin _]. pose proof (proj1 (Forall_forall _ _) Hp n Hin) as He.
    pose proof He as (Hk & _). unfold encode_entry. destruct (Hk) as (_ & _ & Hf). rewrite Hf. cbn [requestOne].
    rewrite Decode_line by (apply ok_node; [done|done]). rewrite dec_reply_node by done.
    exists g. split; [done|]. right. by exists n.
Qed.

(** A client with a key the arbiter signed is served: unless it is rate limited, its
    request is over the arbiter's limit or the database fails, it gets a node that is alive
    or of a club it may use, and that it did not exclude, read as the arbiter has it; and
    is told that the pool is exhausted exactly when there is none. *)
Theorem topup_serves q general clubs draw :
  request_ok q -> k_Username (q_fields q) <> [] -> q_AuthSig q <> [] -> check_auth_sig (q_fields q) (q_AuthSig q) = true ->
  lenZ (Marshal (enc_request q)) <= 8192 -> Forall (fun n => entry_ok (entry_of n)) (topup_pool general clubs) ->
  let answer := requestOne (Ok (apiManifestTopup true (Marshal (enc_request q)) (Ok general) clubs draw)) in
  let cands := candidates (default [] (q_Exclude q)) (topup_pool general clubs) in
  (cands = [] /\ answer = Ok (MkReply zero_node true)) \/
  (exists n, n ∈ topup_pool general clubs /\ node_Addr n ∉ default [] (q_Exclude q) /\ answer = Ok (MkReply (entry_of n) false)).
Proof.
  intros Hq Hu Ha Hs Hl Hp answer cands.
  assert (forall g, Ok general = Ok g -> Forall (fun n => entry_ok (entry_of n)) (topup_pool g clubs)) as Hp' by (by intros g [= <-]).
  pose proof (arbiter_answers q true (Ok general) clubs draw Hq Hp') as H. fold answer in H. destruct answer as [r| |]; [|exfalso|done].
  - destruct H as (g & Eg & [[-> E]|(n & Hn & ->)]); injection Eg as <-; [by left|right].
    apply topup_candidates_spec in Hn as [? ?]. by exists n.
  - destruct H as [?|[?|[?|[?|[?|H]]]]]; [done|lia|congruence..|by apply (H general)].
Qed.

(** ** The round ends *)

(** A turn whose answers come from the arbiter, or not at all; [P] are the addresses of all
    nodes it ever offers. *)
Definition arbiter_turn (P : list gostring) (t : turn) : Prop :=
  Forall string_ok (t_known t) /\
  forall body, (exists e, t_answer t body = Err e) \/
    exists allowed general clubs draw, t_answer t body = Ok (apiManifestTopup allowed body general clubs draw) /\
      forall g, general = Ok g -> Forall (fun n => entry_ok (entry_of n) /\ node_Addr n ∈ P) (topup_pool g clubs).

Lemma distinct_spec l : forall seen a, a ∈ distinct seen l <-> a ∈ l /\ a ∉ seen.
Proof.
  induction l as [|x l IH]; intros seen a; cbn [distinct]; [split; [by intros ?%not_elem_of_nil | by intros [?%not_elem_of_nil _]]|].
  destruct (decide (x ∈ seen)).
  - rewrite IH, elem_of_cons. split; [tauto|]. intros [[->|?] ?]; [done|tauto].
  - rewrite !elem_of_cons, IH. split; [intros [->|[? ?]]; set_solver|].
    intros [[->|?] ?]; [by left|]. destruct (decide (a = x)); [by left|right; set_solver].
Qed.
Lemma exclude_spec tried known a : a ∈ excludeSetLocked tried known <-> a ∈ tried.*1 \/ a ∈ known.
Proof. unfold excludeSetLocked. rewrite distinct_spec, elem_of_app. set_solver. Qed.

(** The addresses of [P] that the round has still to be given. *)
Definition untried (P mine : list gostring) : list gostring := List.filter (fun a => negb (bool_decide (a ∈ mine))) P.
Lemma untried_shrinks P mine a : a ∈ P -> a ∉ mine -> (length (untried P (a :: mine)) < length (untried P mine))%nat.
Proof.
  intros Ha Hn. unfold untried.
  assert (forall x, (negb (bool_decide (x ∈ a :: mine)) = true -> negb (bool_decide (x ∈ mine)) = true)) as Himp.
  { intros x. rewrite !negb_true_iff, !bool_decide_eq_false, elem_of_cons. tauto. }
  induction P as [|x P IH]; [by apply not_elem_of_nil in Ha|]. cbn [List.filter].
  assert (length (List.filter (fun a0 => negb (bool_decide (a0 ∈ a :: mine))) P)
    <= length (List.filter (fun a0 => negb (bool_decide (a0 ∈ mine))) P))%nat as Hle.
  { clear IH Ha. induction P as [|y P IH]; [done|]. cbn [List.filter]. specialize (Himp y).
    destruct (negb (bool_decide (y ∈ a :: mine))); [rewrite Himp by done; cbn; lia|]. destruct (negb _); cbn; lia. }
  apply elem_of_cons in Ha as [<-|Ha].
  - rewrite (bool_decide_eq_true_2 (a ∈ a :: mine)), (bool_decide_eq_false_2 (a ∈ mine)) by set_solver. cbn. lia.
  - specialize (IH Ha). specialize (Himp x). destruct (negb (bool_decide (x ∈ a :: mine))); [rewrite Himp by done; cbn; lia|].
    destruct (negb _); cbn; lia.
Qed.

(** Other rounds that prune no later than [T] leave the entries that are young then, and add
    well-formed addresses. *)
Definition other_ok (T : Z) (o : other_step) : Prop :=
  match o with OPrune now => now <= T | OTried a _ => string_ok a end.
Definition young (T : Z) (e : gostring * Z) : Prop := T - e.2 < topupTriedWindow.

Lemma prune_spec now tried e : e ∈ pruneLocked now tried <-> e ∈ tried /\ young now e.
Proof. unfold pruneLocked, young. by rewrite list_elem_of_In, filter_In, <- list_elem_of_In, Z.ltb_lt. Qed.

Lemma others_keep T os tried e : Forall (other_ok T) os -> young T e -> e ∈ tried -> e ∈ others os tried.
Proof.
  intros Hos He. revert tried. induction Hos as [|o os Ho Hos IH]; intros tried Hin; [done|]. apply IH.
  destruct o as [now|a at_]; cbn [other]; [|apply elem_of_app; by left].
  apply prune_spec. split; [done|]. unfold young in *. cbn in Ho. lia.
Qed.

Lemma others_strings T os tried : Forall (other_ok T) os -> Forall string_ok tried.*1 -> Forall string_ok (others os tried).*1.
Proof.
  intros Hos. revert tried. induction Hos as [|o os Ho Hos IH]; intros tried Hin; [done|]. apply IH.
  destruct o as [now|a at_]; cbn [other].
  - rewrite Forall_fmap, Forall_forall in *. intros x [Hx _]%prune_spec. by apply Hin.
  - rewrite fmap_app. apply Forall_app_2; [done|]. by constructor.
Qed.

(** An answer that is neither an error nor the end brings an address that is new. *)
Lemma new_address P k authSig t tried r : key_ok k -> string_ok authSig -> Forall string_ok tried.*1 -> arbiter_turn P t ->
  requestOne (t_answer t (Marshal (enc_request (MkTopup k authSig (Some (excludeSetLocked tried (t_known t))))))) = Ok r ->
  r_Exhausted r = true \/
  (Addr (r_node r) ∈ P /\ Addr (r_node r) ∉ tried.*1 /\ Addr (r_node r) ∉ t_known t /\ string_ok (Addr (r_node r))).
Proof.
  intros Hk Ha Ht [Hs Hb]. set (q := MkTopup k authSig _). destruct (Hb (Marshal (enc_request q))) as [[e ->]|(al & g & cl & dr & -> & Hg)]; [done|].
  assert (request_ok q) as Hq.
  { split_and!; [done..|]. apply Forall_forall. intros a Hin. change (a ∈ excludeSetLocked tried (t_known t)) in Hin.
    apply exclude_spec in Hin as [Hin|Hin]; [by apply (proj1 (Forall_forall _ _) Ht) | by apply (proj1 (Forall_forall _ _) Hs)]. }
  intros E. pose proof (arbiter_answers q al g cl dr Hq) as H. rewrite E in H.
  destruct H as (g' & -> & [[-> _]|(n & Hn & ->)]); [|by left|right].
  - intros g0 Eg. eapply Forall_impl; [by apply Hg|]. by intros n [? _].
  - apply topup_candidates_spec in Hn as [Hin Hex]. pose proof (proj1 (Forall_forall _ _) (Hg g' eq_refl) n Hin) as [((Hst & _) & _) HP].
    change (node_Addr n ∉ excludeSetLocked tried (t_known t)) in Hex. rewrite exclude_spec in Hex.
    split_and!; [exact HP | tauto | tauto | exact Hst].
Qed.

(** The round was given its addresses at [now] or later, and every prune of the others is at
    [T] or before. *)
Definition turn_in_time (now T : Z) (t : turn) : Prop :=
  now <= t_now t /\ Forall (other_ok T) (t_before t) /\ Forall (other_ok T) (t_during t).

(** [mine]: the addresses the round was given, all still in the shared list; [old]: entries
    that were there before and are young at [T]. *)
Record loop_inv (T : Z) (old : tried_list) (tried : tried_list) (mine added : list gostring) : Prop := {
  li_strings : Forall string_ok tried.*1;
  li_mine : forall a, a ∈ mine -> exists at_, (a, at_) ∈ tried /\ young T (a, at_);
  li_old : forall e, e ∈ old -> young T e -> e ∈ tried;
  li_added : forall a, a ∈ added -> a ∈ mine;
  li_nodup : NoDup added }.

Lemma loop_inv_others T old tried mine added os : Forall (other_ok T) os ->
  loop_inv T old tried mine added -> loop_inv T old (others os tried) mine added.
Proof.
  intros Hos [H1 H2 H3 H4 H5]. split; [by eapply others_strings | | |done|done].
  - intros a (at_ & Hin & Hy)%H2. exists at_. split; [by eapply others_keep|done].
  - intros e He Hy. eapply others_keep; [done|done|by apply H3].
Qed.

Lemma loop_inv_tried T old tried mine added a at_ (ok : bool) : string_ok a -> a ∉ mine -> young T (a, at_) ->
  loop_inv T old tried mine added -> loop_inv T old (tried ++ [(a, at_)]) (a :: mine) (if ok then added ++ [a] else added).
Proof.
  intros Hs Hn Hy [H1 H2 H3 H4 H5]. split.
  - rewrite fmap_app. apply Forall_app_2; [done|]. by constructor.
  - intros x [->|Hx]%elem_of_cons; [exists at_; split; [|done]; apply elem_of_app; right; by apply list_elem_of_singleton|].
    destruct (H2 x Hx) as (t & Hin & Ht). exists t. split; [|done]. apply elem_of_app. by left.
  - intros e He Ht. apply elem_of_app. left. by apply H3.
  - intros x Hx. apply elem_of_cons. destruct ok; [|right; by apply H4].
    apply elem_of_app in Hx as [Hx| ->%list_elem_of_singleton]; [right; by apply H4 | by left].
  - destruct ok; [|done]. apply NoDup_app. split_and!; [done| |apply NoDup_singleton].
    intros x Hx ->%list_elem_of_singleton. by apply Hn, H4.
Qed.

Lemma loop_ends P now T old k authSig turns : T < now + topupTriedWindow ->
  key_ok k -> string_ok authSig -> Forall (arbiter_turn P) turns -> Forall (turn_in_time now T) turns ->
  forall tried mine added, loop_inv T old tried mine added -> (length (untried P mine) < length turns)%nat ->
  exists r, run_loop k authSig turns tried added = Some r /\ NoDup (r_added r) /\
    (forall a, a ∈ r_added r -> a ∈ added \/ a ∈ P /\ forall at_, (a, at_) ∈ old -> ~ young T (a, at_)).
Proof.
  intros HT Hk Ha Hts. induction Hts as [|t turns Ht _ IH]; intros Hti tried mine added Hi Hlen; [cbn in Hlen; lia|]. cbn [run_loop].
  apply Forall_cons in Hti as [(Hnow & Hb & Hd) Hti].
  assert (forall e tried', exists r, Some (MkRound e tried' added) = Some r /\ NoDup (r_added r) /\
    (forall a, a ∈ r_added r -> a ∈ added \/ a ∈ P /\ forall at_, (a, at_) ∈ old -> ~ young T (a, at_))) as End.
  { intros e tried'. eexists. split_and!; [done|by destruct Hi|by left]. }
  destruct (t_cancelled t); [apply End|]. destruct (topupTarget <=? t_liveCount t); [apply End|]. cbv zeta.
  apply (loop_inv_others _ _ _ _ _ _ Hb) in Hi. set (tried1 := others (t_before t) tried) in *.
  destruct (requestOne _) as [r| |] eqn:Er; [|apply End..]. apply (new_address P) in Er; [|try done; by destruct Hi..].
  destruct (r_Exhausted r); [apply End|]. destruct Er as [?|(HP & Hnt & _ & Hst)]; [done|].
  set (a := Addr (r_node r)) in *. assert (a ∉ mine) as Hna.
  { intros (at_ & Hin & _)%(li_mine _ _ _ _ _ Hi). apply Hnt, list_elem_of_fmap. by exists (a, at_). }
  pose proof (untried_shrinks P mine a HP Hna) as Hsh. cbn in Hlen.
  pose proof (loop_inv_others _ _ _ _ _ _ Hd Hi) as Hi2.
  apply (loop_inv_tried _ _ _ _ _ a (t_now t) (t_probe t a)) in Hi2; [|done|done|unfold young; cbn; lia].
  destruct (IH Hti _ (a :: mine) _ Hi2) as (r' & -> & Hnd & Hr); [lia|]. exists r'. split_and!; [done|done|].
  assert (forall at_, (a, at_) ∈ old -> ~ young T (a, at_)) as Hold.
  { intros at_ Hin Hy. apply Hnt, list_elem_of_fmap. exists (a, at_). split; [done|]. by apply (li_old _ _ _ _ _ Hi). }
  intros x Hx. destruct (Hr x Hx) as [Hx'|?]; [|by right].
  destruct (t_probe t a); [|by left]. apply elem_of_app in Hx' as [?| ->%list_elem_of_singleton]; [by left|by right].
Qed.

(** C28: A round of top-ups ends: whatever key it is made with, whatever the arbiter's pools,
    clubs, limiter and draws and the network do from turn to turn, however long it takes,
    whatever the probes say, and whatever other rounds do with the shared list of tried
    addresses between its steps, as long as none of them begins (and prunes the list) five
    minutes or more after this one did, the loop stops within one turn more than there are
    addresses on offer. It hands over only addresses on offer, each once, and none that was
    in the list before and is still within its five minutes when the last of the others begins. *)
Theorem topup_ends P now T k authSig turns tried :
  now <= T < now + topupTriedWindow ->
  key_ok k -> string_ok authSig -> Forall string_ok tried.*1 -> Forall (arbiter_turn P) turns ->
  Forall (turn_in_time now T) turns -> (length P < length turns)%nat ->
  exists r, Run now k authSig turns tried = Some r /\ NoDup (r_added r) /\
    (forall a, a ∈ r_added r -> a ∈ P /\ forall at_, (a, at_) ∈ tried -> topupTriedWindow <= T - at_).
Proof.
  intros HT Hk Ha Ht Hts Hti Hl. unfold Run.
  assert (length (untried P []) <= length P)%nat as Hu by apply List.filter_length_le.
  destruct (loop_ends P now T tried k authSig turns ltac:(lia) Hk Ha Hts Hti (pruneLocked now tried) [] []) as (r & E & Hd & Hr).
  - split; [|by intros a ?%not_elem_of_nil| |by intros a ?%not_elem_of_nil|apply NoDup_nil_2].
    + rewrite Forall_fmap, Forall_forall in *. intros x [Hx _]%prune_spec. by apply Ht.
    + intros e He Hy. apply prune_spec. split; [done|]. unfold young in *. lia.
  - lia.
  - exists r. split_and!; [done|done|]. intros a Hin. destruct (Hr a Hin) as [?%not_elem_of_nil|[? Hold]]; [done|]. split; [done|].
    intros at_ Hat. specialize (Hold at_ Hat). unfold young in Hold. cbn in Hold. lia.
Qed.
End topup.

(** *** Instances *)

Definition ex_auth : gostring := Base64.encode (ed25519_sign []).
Definition ex_request : topup_request := MkTopup (normal (kd_fields Keys.ex_key)) ex_auth (Some [bs "10.0.0.7:443"]).
Lemma ex_fields_ok : key_ok (normal (kd_fields Keys.ex_key)).
Proof. unfold key_ok. split_and!; by apply (bool_decide_unpack _). Qed.
Lemma ex_auth_ok : string_ok ex_auth.
Proof. by apply (bool_decide_unpack _). Qed.
Lemma ex_entry_ok : entry_ok (entry_of EndToEnd.ex_node).
Proof. unfold entry_ok, node_ok. split_and!; first [done | by apply (bool_decide_unpack _)]. Qed.

Lemma topup_serves_witness :
  exists n, requestOne (Ok (apiManifestTopup true (Marshal (enc_request ex_request)) (Ok [EndToEnd.ex_node]) None 5)) = Ok (MkReply n false).
Proof.
  destruct (topup_serves ex_request [EndToEnd.ex_node] None 5) as [[E _]|(n & _ & _ & E)].
  - split_and!; [exact ex_fields_ok | exact ex_auth_ok | by apply (bool_decide_unpack _)].
  - done.
  - done.
  - reflexivity.
  - by vm_compute.
  - constructor; [exact ex_entry_ok | constructor].
  - discriminate E.
  - eexists. exact E.
Defined.

Definition ex_turn (now : Z) (before : list other_step) : turn :=
  MkTurn false 3 [bs "10.0.0.7:443"] now (fun _ => false)
    (fun body => Ok (apiManifestTopup true body (Ok [EndToEnd.ex_node]) None 5)) before [].
Lemma ex_turn_arbiter now before : arbiter_turn [bs "10.0.0.1:443"] (ex_turn now before).
Proof.
  split; [constructor; [by apply (bool_decide_unpack _) | constructor]|]. intros body. right.
  exists true, (Ok [EndToEnd.ex_node]), None, 5%nat. split; [done|]. intros g [= <-].
  constructor; [|constructor]. split; [exact ex_entry_ok | by apply (bool_decide_unpack _)].
Qed.
Definition ex_turns : list turn := [ex_turn second []; ex_turn (2 * second) [OPrune minute; OTried (bs "10.0.0.9:443") minute]].
Lemma topup_ends_witness :
  exists r, Run 0 (normal (kd_fields Keys.ex_key)) ex_auth ex_turns [] = Some r /\ NoDup (r_added r).
Proof.
  destruct (topup_ends [bs "10.0.0.1:443"] 0 minute (normal (kd_fields Keys.ex_key)) ex_auth ex_turns []) as (r & E & N & _).
  - unfold topupTriedWindow, minute, second. lia.
  - exact ex_fields_ok.
  - exact ex_auth_ok.
  - constructor.
  - apply Forall_forall. intros t [->|[->|?%not_elem_of_nil]%elem_of_cons]%elem_of_cons; [apply ex_turn_arbiter..|done].
  - apply Forall_cons_2; [split_and!; [cbn; unfold second; lia | constructor..]|]. apply Forall_cons_2; [|constructor].
    split_and!; [cbn; unfold second; lia | | constructor]. apply Forall_cons_2; [cbn; lia|]. apply Forall_cons_2; [|constructor].
    by apply (bool_decide_unpack _).
  - cbn. lia.
  - exists r. exact (conj E N).
Defined.

(** A round that is overtaken: other rounds begin five minutes after each address this one was
    given, and prune it, so the only address on offer, which does not answer the probe, is
    handed out a third time, although two turns should be enough; the comment calls
    concurrent rounds harmless. *)
Theorem overtaken_round_repeats :
  let turns := [ex_turn second []; ex_turn (301 * second) [OPrune (301 * second)]; ex_turn (601 * second) [OPrune (601 * second)]] in
  Forall (arbiter_turn [bs "10.0.0.1:443"]) turns
  /\ Run 0 (normal (kd_fields Keys.ex_key)) ex_auth turns [] = None.
Proof.
  split; [|vm_compute; reflexivity]. apply Forall_cons_2; [apply ex_turn_arbiter|].
  apply Forall_cons_2; [apply ex_turn_arbiter|]. apply Forall_cons_2; [apply ex_turn_arbiter | constructor].
Qed.
End Topup.
