(* ===== verification/ClientMirror.v ===== *)
(** * Mirrored content

    The arbiter signs a manifest of the files in a directory (snc-arbiter/content_manifest.go);
    clients pass it on over the DHT, fetch the chunks of its files from each other or from a
    control, and keep the files (snc/core/mirror.go, mirror_transport.go).

    - Module [Wire]: the frames two clients exchange.
    - Module [Mirror]: the arbiter's manifest and the client's MirrorManager. A run of [sync]
      is one step whose environment says what every fetch and file operation did and whether
      a newer manifest had arrived in the meantime. The pool of peer connections is not
      modelled: what a peer answers is an input. *)

From stdpp Require Import base list gmap strings fin_maps sorting.
From Stdlib Require Import ZArith Lia.
From S2P Require Import Prelude GoLib GoFloat GoJson ArbiterSigning ArbiterManifest ClientDiscovery ClientManifest.

Class Sha256 := {
  sha256 : bytes -> bytes;
  sha256_length : forall m, length (sha256 m) = 32%nat;
  sha256_bytes : forall m, bytes_ok (sha256 m) }.

Module Wire.

Definition mirrorMagic : Z := 0x534E434D.
Definition mirrorTypeChunkReq : Z := 1.
Definition mirrorTypeChunkResp : Z := 2.
Definition mirrorTypeChunkMiss : Z := 3.
Definition mirrorRetries : nat := 3.
Definition mirrorMaxFrame : Z := 32 * 1024.

Definition mirrorEncodeRequest (reqID : Z) (hash : bytes) : bytes :=
  be_put 4 mirrorMagic ++ be_put 4 reqID ++ [mirrorTypeChunkReq] ++ hash.
Definition mirrorDecodeRequest (data : bytes) : res (option bytes) :=
  if lenZ data <? 4 + 4 + 1 + 32 then Ok None else h ← go_slice data 9 (9 + 32); Ok (Some h).
Definition mirrorEncodeFound (reqID : Z) (data : bytes) : bytes :=
  be_put 4 mirrorMagic ++ be_put 4 reqID ++ [mirrorTypeChunkResp] ++ be_put 4 (u32 (lenZ data)) ++ data.
Definition mirrorDecodeFound (data : bytes) : res (option bytes) :=
  if lenZ data <? 4 + 4 + 1 + 4 then Ok None
  else
    n ← go_uint 4 data 9;
    if (n <? 0) || (lenZ data <? 13 + n) then Ok None else b ← go_slice data 13 (13 + n); Ok (Some b).
Definition mirrorEncodeMiss (reqID : Z) : bytes := be_put 4 mirrorMagic ++ be_put 4 reqID ++ [mirrorTypeChunkMiss].

(** What [readLoop] does with a datagram, of which it reads [mirrorMaxFrame] bytes at most. *)
Inductive action := Drop | Serve (reqID : Z) (hash : bytes) | Deliver (reqID : Z) (resp : option bytes).
Definition handle_frame (datagram : bytes) : res action :=
  let data := take (Z.to_nat mirrorMaxFrame) datagram in
  if lenZ data <? 9 then Ok Drop
  else
    magic ← go_uint 4 data 0;
    if negb (magic =? mirrorMagic) then Ok Drop
    else
      reqID ← go_uint 4 data 4; typ ← go_index data 8;
      if typ =? mirrorTypeChunkReq then h ← mirrorDecodeRequest data; Ok (match h with Some h => Serve reqID h | None => Drop end)
      else if typ =? mirrorTypeChunkResp then
        b ← mirrorDecodeFound data; Ok (match b with Some b => Deliver reqID (Some b) | None => Drop end)
      else if typ =? mirrorTypeChunkMiss then Ok (Deliver reqID None)
      else Ok Drop.

(** [serveChunkRequest]: the frame sent back. *)
Definition serveChunkRequest (getChunk : option (gostring -> option bytes)) (reqID : Z) (hash : bytes) : bytes :=
  match getChunk with
  | None => mirrorEncodeMiss reqID
  | Some get => match get (Hex.encode hash) with Some data => mirrorEncodeFound reqID data | None => mirrorEncodeMiss reqID end
  end.

(** How an attempt of [RequestChunk] ends: the write fails, the first reply delivered for its
    request, the timer, or the connection is closed. *)
Inductive attempt := WriteFails | Reply (resp : option bytes) | TimedOut | Closed.
Fixpoint attempts (fuel : nat) (next : nat -> attempt) (i : nat) : res (option bytes) :=
  match fuel with
  | O => Err "mirror-transport: retries exhausted"
  | S fuel =>
      match next i with
      | WriteFails => Err "mirror-transport write"
      | Reply resp => Ok resp
      | TimedOut => attempts fuel next (S i)
      | Closed => Err "mirror-transport: closed"
      end
  end.
Definition RequestChunk (hash : gostring) (next : nat -> attempt) : res (option bytes) :=
  match Hex.decode hash with
  | Some h => if (length h =? 32)%nat then attempts mirrorRetries next 0 else Err "mirror-transport: bad hash"
  | None => Err "mirror-transport: bad hash"
  end.

(** ** Two ends of a connection *)

Lemma head_frame reqID typ rest : 0 <= reqID < 2 ^ 32 ->
  let f := be_put 4 mirrorMagic ++ be_put 4 reqID ++ [typ] ++ rest in
  lenZ f <= mirrorMaxFrame ->
  handle_frame f =
    if typ =? mirrorTypeChunkReq then h ← mirrorDecodeRequest f; Ok (match h with Some h => Serve reqID h | None => Drop end)
    else if typ =? mirrorTypeChunkResp then
      b ← mirrorDecodeFound f; Ok (match b with Some b => Deliver reqID (Some b) | None => Drop end)
    else if typ =? mirrorTypeChunkMiss then Ok (Deliver reqID None)
    else Ok Drop.
Proof.
  intros Hr f Hl. unfold handle_frame. rewrite take_ge by lia.
  assert (9 <= lenZ f) as H9 by (unfold f; rewrite !length_app, !length_be_put; cbn [length]; lia).
  rewrite (proj2 (Z.ltb_ge _ _)) by lia.
  assert (go_uint 4 f 0 = Ok mirrorMagic) as -> by (apply (go_uint_at 4 [] (be_put 4 reqID ++ [typ] ++ rest)); done).
  cbn [mbind res_bind]. rewrite Z.eqb_refl. cbn [negb].
  assert (go_uint 4 f 4 = Ok reqID) as -> by (apply (go_uint_at 4 (be_put 4 mirrorMagic) ([typ] ++ rest)); [done|by rewrite length_be_put|done]).
  cbn [mbind res_bind]. assert (go_index f 8 = Ok typ) as ->.
  { unfold go_index. by rewrite decide_True by lia. }
  done.
Qed.

(** A peer answers a request with the chunk it has, or that it has none; a chunk arrives
    whole when its frame fits the reader's buffer. *)
Lemma exchange reqID hash getChunk : 0 <= reqID < 2 ^ 32 -> length hash = 32%nat ->
  handle_frame (mirrorEncodeRequest reqID hash) = Ok (Serve reqID hash) /\
  match getChunk (Hex.encode hash) with
  | Some data => lenZ data <= mirrorMaxFrame - 13 ->
      handle_frame (serveChunkRequest (Some getChunk) reqID hash) = Ok (Deliver reqID (Some data))
  | None => handle_frame (serveChunkRequest (Some getChunk) reqID hash) = Ok (Deliver reqID None)
  end.
Proof.
  intros Hr Hh. split.
  - unfold mirrorEncodeRequest. rewrite head_frame; [|done|rewrite !length_app, !length_be_put, Hh; done].
    change (mirrorTypeChunkReq =? mirrorTypeChunkReq) with true. cbn iota. unfold mirrorDecodeRequest.
    rewrite (proj2 (Z.ltb_ge _ _)) by (rewrite !length_app, !length_be_put, Hh; done).
    by rewrite (go_slice_at (be_put 4 mirrorMagic ++ be_put 4 reqID ++ [mirrorTypeChunkReq]) hash []);
      [| rewrite app_nil_r; split_buf | solve_len | rewrite Hh].
  - unfold serveChunkRequest. destruct (getChunk (Hex.encode hash)) as [data|]; [intros Hd|].
    + unfold mirrorEncodeFound, mirrorMaxFrame in *.
      assert (u32 (lenZ data) = lenZ data) as -> by (unfold u32; rewrite Z.mod_small; lia).
      rewrite head_frame; [|done|unfold mirrorMaxFrame; rewrite !length_app, !length_be_put; cbn [length]; lia].
      change (mirrorTypeChunkResp =? mirrorTypeChunkReq) with false. change (mirrorTypeChunkResp =? mirrorTypeChunkResp) with true. cbn iota.
      unfold mirrorDecodeFound. rewrite (proj2 (Z.ltb_ge _ _)) by solve_len.
      assert (go_uint 4 (be_put 4 mirrorMagic ++ be_put 4 reqID ++ [mirrorTypeChunkResp] ++ be_put 4 (lenZ data) ++ data) 9 = Ok (lenZ data)) as ->.
      { apply (go_uint_at 4 (be_put 4 mirrorMagic ++ be_put 4 reqID ++ [mirrorTypeChunkResp]) data); [split_buf | solve_len | solve_len]. }
      cbn [mbind res_bind]. rewrite (proj2 (Z.ltb_ge (lenZ data) 0)), (proj2 (Z.ltb_ge _ (13 + _))) by solve_len. cbn [orb].
      by rewrite (go_slice_at (be_put 4 mirrorMagic ++ be_put 4 reqID ++ [mirrorTypeChunkResp] ++ be_put 4 (lenZ data)) data []);
        [| rewrite app_nil_r; split_buf | solve_len |].
    + unfold mirrorEncodeMiss. pose proof (head_frame reqID mirrorTypeChunkMiss [] Hr) as H. rewrite app_nil_r in H.
      rewrite H by (rewrite !length_app, !length_be_put; done). done.
Qed.
End Wire.

Module Mirror.
Import Json Signing Lists Filepath EndToEnd.

Definition zero_file : ContentFileEntry := MkFile [] 0 0 None.
Definition dec_file : json -> ContentFileEntry -> option ContentFileEntry := dec_struct (fun kvs f =>
  let ns := names ["path"; "size"; "chunk_size"; "chunk_hashes"] in
  p ← pick ns "path" dec_str (Path f) kvs; s ← pick ns "size" dec_int64 (Size f) kvs;
  c ← pick ns "chunk_size" dec_int64 (ChunkSize f) kvs; h ← pick ns "chunk_hashes" dec_strs (ChunkHashes f) kvs;
  Some (MkFile p s c h)).

Record signedContentManifest := MkContent { c_Type : gostring; c_TS : Z; c_Files : option (list ContentFileEntry); c_Sig : gostring }.
Definition zero_content : signedContentManifest := MkContent [] 0 None [].
Definition dec_content : json -> signedContentManifest -> option signedContentManifest := dec_struct (fun kvs m =>
  let ns := names ["type"; "ts"; "files"; "sig"] in
  ty ← pick ns "type" dec_str (c_Type m) kvs; ts ← pick ns "ts" dec_int64 (c_TS m) kvs;
  files ← pick ns "files" (dec_slice dec_file zero_file) (c_Files m) kvs; sig ← pick ns "sig" dec_str (c_Sig m) kvs;
  Some (MkContent ty ts files sig)).
Definition content_canonical (m : signedContentManifest) : bytes :=
  Marshal (JObj (field "type" (JStr (c_Type m)) ++ field "ts" (enc_int64 (c_TS m)) ++ field "files" (enc_slice enc_file (c_Files m)))).

Section mirror.
Context {U : Unicode} {FT : FloatText} {ED : Ed25519} {SK : SigningKey} {SH : Sha256}.

(** ** The arbiter *)

Definition contentChunkSize : nat := Pos.to_nat 16384.

(** The chunks of a file: full ones, and a shorter last one. *)
Fixpoint split_chunks (fuel : nat) (data : bytes) : list bytes :=
  match fuel with
  | O => []
  | S fuel => match data with [] => [] | _ => take contentChunkSize data :: split_chunks fuel (drop contentChunkSize data) end
  end.
Definition chunks_of (data : bytes) : list bytes := split_chunks (length data) data.
Definition chunk_hash (c : bytes) : gostring := Hex.encode (sha256 c).
Definition slice_of {A} (l : list A) : option (list A) := match l with [] => None | _ => Some l end.
Definition content_entry (path : gostring) (data : bytes) : ContentFileEntry :=
  MkFile path (lenZ data) (Z.of_nat contentChunkSize) (slice_of (chunk_hash <$> chunks_of data)).

Record chunkLocation := MkLoc { absPath : gostring; offset : Z; size : Z }.
Fixpoint index_chunks (path : gostring) (off : Z) (cs : list bytes) (idx : gmap gostring chunkLocation) : gmap gostring chunkLocation :=
  match cs with
  | [] => idx
  | c :: cs => index_chunks path (off + lenZ c) cs (<[chunk_hash c := MkLoc path off (lenZ c)]> idx)
  end.

Definition file_le (a b : ContentFileEntry) : Prop := Strings.le (Path a) (Path b) = true.
#[export] Instance file_le_dec a b : Decision (file_le a b).
Proof. unfold file_le. apply _. Defined.

(** [buildContentFileList]: the regular files in the order of the walk, each with what
    reading it gave; the first error ends it. *)
Fixpoint walk_files (walk : list (gostring * res bytes)) (idx : gmap gostring chunkLocation) :
    res (list ContentFileEntry * gmap gostring chunkLocation) :=
  match walk with
  | [] => Ok ([], idx)
  | (path, data) :: walk =>
      data ← data;
      '(files, idx) ← walk_files walk (index_chunks path 0 (chunks_of data) idx);
      Ok (content_entry path data :: files, idx)
  end.
Definition buildContentFileList (walk : list (gostring * res bytes)) : res (list ContentFileEntry * gmap gostring chunkLocation) :=
  '(files, idx) ← walk_files walk ∅; Ok (merge_sort file_le files, idx).

(** [dirFingerprint]: path, size and modification time of every file. *)
Definition str_le (a b : gostring) : Prop := Strings.le a b = true.
#[export] Instance str_le_dec a b : Decision (str_le a b).
Proof. unfold str_le. apply _. Defined.
Definition dirFingerprint (infos : res (list (gostring * Z * Z))) : res gostring :=
  infos ← infos;
  Ok (Net.join [10] (merge_sort str_le ((fun '(path, size, mtime) => path ++ [58] ++ Strconv.itoa size ++ [58] ++ Strconv.itoa mtime) <$> infos))).

Record contentManifestCache := MkCache { raw : option bytes; dirState : gostring; chunkIndex : gmap gostring chunkLocation }.
(** What the content directory shows a request: the sizes and times, and the files. *)
Record content_dir := MkDir { cd_infos : res (list (gostring * Z * Z)); cd_walk : list (gostring * res bytes); cd_now : gostring -> option bytes }.

Definition ensureFresh (now : Z) (dir : content_dir) (c : contentManifestCache) : res contentManifestCache :=
  state ← dirFingerprint (cd_infos dir);
  if match raw c with Some _ => bool_decide (state = dirState c) | None => false end then Ok c
  else
    '(files, index) ← buildContentFileList (cd_walk dir);
    raw ← signContentManifest now (slice_of files);
    Ok (MkCache (Some raw) state index).

(** The two endpoints. [dir] is [None] when mirroring is disabled; a chunk is read from the
    file as it is now, and a file that became shorter gives fewer bytes. *)
Definition content_request (token : gostring) (found : res (option Node)) (dir : option content_dir) (now : Z) (c : contentManifestCache)
    (k : content_dir -> contentManifestCache -> reply) : reply * contentManifestCache :=
  match node_caller token found [bs "control"; bs "exit"] with
  | inr msg => (HttpError 401 msg, c)
  | inl _ =>
      match dir with
      | None => (HttpError 404 "content mirroring disabled", c)
      | Some dir => match ensureFresh now dir c with Ok c => (k dir c, c) | _ => (HttpError 500 "internal error", c) end
      end
  end.
Definition apiContentManifest token found dir now c : reply * contentManifestCache :=
  content_request token found dir now c (fun _ c => HttpOK (default [] (raw c))).
Definition apiContentChunk token found dir now (hash : gostring) c : reply * contentManifestCache :=
  content_request token found dir now c (fun dir c =>
    match chunkIndex c !! Strings.ToLower hash with
    | None => HttpError 404 "chunk not found"
    | Some l =>
        match cd_now dir (absPath l) with
        | None => HttpError 500 "internal error"
        | Some data => HttpOK (take (Z.to_nat (size l)) (drop (Z.to_nat (offset l)) data))
        end
    end).

(** ** The client *)

(** [verify]. *)
Definition content_verify (pubkey : option bytes) (data : bytes) : res signedContentManifest :=
  match Unmarshal dec_content zero_content data with
  | None => Err "parse"
  | Some m =>
      if negb (bool_decide (c_Type m = bs "content")) then Err "unexpected manifest type"
      else match pubkey with
      | None => Ok m
      | Some key =>
          match Base64.decode (c_Sig m) with
          | Some sig => if ed25519_verify key (content_canonical m) sig then Ok m else Err "signature verification failed"
          | None => Err "signature verification failed"
          end
      end
  end.

Definition chunkHashMatches (data : bytes) (hash : gostring) : bool := bool_decide (Hex.encode (sha256 data) = Strings.ToLower hash).

(** [fetchChunk]: what the complete peers answer, in turn, and then the relay. *)
Fixpoint from_peers (hash : gostring) (peers : list (res (option bytes))) : option bytes :=
  match peers with
  | [] => None
  | Ok (Some data) :: peers => if chunkHashMatches data hash then Some data else from_peers hash peers
  | _ :: peers => from_peers hash peers
  end.
Definition fetchChunk (hash : gostring) (peers : list (res (option bytes))) (relay : option (res bytes)) : res bytes :=
  match from_peers hash peers with
  | Some data => Ok data
  | None =>
      match relay with
      | None => Err "no P2P peers and no relay fallback configured"
      | Some (Ok data) => if chunkHashMatches data hash then Ok data else Err "relay fallback returned chunk with wrong hash"
      | Some _ => Err "relay fallback"
      end
  end.

(** The disk, by absolute path. *)
Abbreviation files := (gmap (list gostring) bytes).
Definition part (p : list gostring) : list gostring := removelast p ++ [default [] (last p) ++ bs ".part"].

(** What happens while one chunk and one file are synced. *)
Record chunk_env := MkChunkEnv { ce_superseded : bool; ce_peers : list (res (option bytes)); ce_relay : option (res bytes); ce_write : bool }.
Record file_env := MkFileEnv { fe_mkdir : bool; fe_create : bool; fe_chunk : nat -> chunk_env; fe_close : bool; fe_rename : bool }.

Fixpoint download (hashes : list gostring) (e : nat -> chunk_env) (i : nat) (acc : bytes) : res bytes :=
  match hashes with
  | [] => Ok acc
  | h :: hashes =>
      if ce_superseded (e i) then Err "superseded"
      else data ← fetchChunk h (ce_peers (e i)) (ce_relay (e i));
           if ce_write (e i) then download hashes e (S i) (acc ++ data) else Err "write chunk"
  end.
(** The temporary file is gone in the end, renamed or removed. *)
Definition syncFile (dir : list gostring) (f : ContentFileEntry) (e : file_env) (d : files) : bool * files :=
  let abs := Join dir (Path f) in
  if negb (fe_mkdir e) || negb (fe_create e) then (false, d)
  else
    let d := delete (part abs) d in
    match download (default [] (ChunkHashes f)) (fe_chunk e) 0 [] with
    | Ok data => if fe_close e && fe_rename e then (true, <[abs := data]> d) else (false, d)
    | _ => (false, d)
    end.

Definition sameChunks (a b : option (list gostring)) : bool := bool_decide (default [] a = default [] b).
Definition statePath (dir : list gostring) : list gostring := Join dir (bs ".manifest.json").
Definition by_path (fs : list ContentFileEntry) : gmap gostring ContentFileEntry := foldl (fun m f => <[Path f := f]> m) ∅ fs.
Definition loadPrevFileList (dir : list gostring) (d : files) : gmap gostring ContentFileEntry :=
  match d !! statePath dir with
  | Some data => match Unmarshal dec_content zero_content data with Some sm => by_path (default [] (c_Files sm)) | None => ∅ end
  | None => ∅
  end.

(** The environment of a run of [sync]: whether it was superseded before each file and at the
    end, how each file fared, which deletions worked, and what the state file is left with. *)
Record sync_env := MkSyncEnv {
  se_superseded : nat -> bool;
  se_file : nat -> file_env;
  se_end : bool;
  se_remove : gostring -> bool;
  se_state : option (option bytes) }.   (** [None] when it is written; else what it has then *)

Definition delete_missing (dir : list gostring) (prev wanted : gmap gostring ContentFileEntry) (remove_ok : gostring -> bool) (d : files) : files :=
  foldl (fun d kv => match wanted !! kv.1 with
    | Some _ => d
    | None => if remove_ok kv.1 then delete (Join dir kv.1) d else d end) d (map_to_list prev).

(** The loop over the files: [None] when it was superseded. *)
Fixpoint sync_files (dir : list gostring) (prev : gmap gostring ContentFileEntry) (e : sync_env) (fs : list ContentFileEntry) (i : nat)
    (ok : bool) (d : files) : option bool * files :=
  match fs with
  | [] => (Some ok, d)
  | f :: fs =>
      if se_superseded e i then (None, d)
      else if match prev !! Path f with Some p => sameChunks (ChunkHashes p) (ChunkHashes f) | None => false end
      then sync_files dir prev e fs (S i) ok d
      else let '(good, d) := syncFile dir f (se_file e i) d in sync_files dir prev e fs (S i) (ok && good) d
  end.

Record chunkLoc := MkChunkLoc { cl_path : list gostring; cl_offset : Z; cl_size : Z }.
Fixpoint index_file (abs : list gostring) (f : ContentFileEntry) (off : Z) (hashes : list gostring) (idx : gmap gostring chunkLoc) :
    gmap gostring chunkLoc :=
  match hashes with
  | [] => idx
  | h :: hashes =>
      let remaining := int64 (Size f - off) in
      let size := if remaining <? ChunkSize f then remaining else ChunkSize f in
      index_file abs f (int64 (off + size)) hashes (<[h := MkChunkLoc abs off size]> idx)
  end.
Definition buildChunkIndex (dir : list gostring) (fs : list ContentFileEntry) : gmap gostring chunkLoc :=
  foldl (fun idx f => index_file (Join dir (Path f)) f 0 (default [] (ChunkHashes f)) idx) ∅ fs.

(** [sync] to its end: the disk, and the index when the version is announced as complete. *)
Definition sync (dir : list gostring) (raw : bytes) (sm : signedContentManifest) (e : sync_env) (d : files) :
    option (gmap gostring chunkLoc) * files :=
  let prev := loadPrevFileList dir d in
  let fs := default [] (c_Files sm) in
  let d := delete_missing dir prev (by_path fs) (se_remove e) d in
  match sync_files dir prev e fs 0 true d with
  | (None, d) => (None, d)
  | (Some ok, d) =>
      if se_end e then (None, d)
      else
        let d := match se_state e with
          | None => <[statePath dir := raw]> d
          | Some None => d
          | Some (Some b) => <[statePath dir := b]> d
          end in
        (if ok then Some (buildChunkIndex dir fs) else None, d)
  end.

(** [ServeChunk]: a negative offset is an error of Seek, a negative size panics. *)
Definition ServeChunk (idx : gmap gostring chunkLoc) (hash : gostring) (d : files) : res (option bytes) :=
  match idx !! hash with
  | None => Ok None
  | Some l =>
      match d !! cl_path l with
      | None => Ok None
      | Some data =>
          if cl_offset l <? 0 then Ok None
          else if cl_size l <? 0 then Panic
          else if cl_size l =? 0 then Ok (Some [])
          else if lenZ data <? cl_offset l + cl_size l then Ok None
          else Ok (Some (take (Z.to_nat (cl_size l)) (drop (Z.to_nat (cl_offset l)) data)))
      end
  end.

(** The manager. *)
Record MirrorManager := MkMirror { mm_pubkey : option bytes; mm_ts : Z; mm_gen : Z; mm_chunkIdx : gmap gostring chunkLoc }.
Definition LoadCached (dir : list gostring) (d : files) (m : MirrorManager) : MirrorManager :=
  match d !! statePath dir with
  | Some data =>
      match Unmarshal dec_content zero_content data with
      | Some sm => MkMirror (mm_pubkey m) (c_TS sm) (mm_gen m) (mm_chunkIdx m)
      | None => m
      end
  | None => m
  end.
(** [OnContentManifest]: the manifest to pass on and to sync, if it is accepted. *)
Definition OnContentManifest (raw : bytes) (m : MirrorManager) : option signedContentManifest * MirrorManager :=
  match content_verify (mm_pubkey m) raw with
  | Ok sm => if c_TS sm <=? mm_ts m then (None, m) else (Some sm, MkMirror (mm_pubkey m) (c_TS sm) (mm_gen m + 1) (mm_chunkIdx m))
  | _ => (None, m)
  end.

(** ** A run that announces completeness *)

Definition hashes (f : ContentFileEntry) : list gostring := default [] (ChunkHashes f).
(** The file on disk is made of chunks with the manifest's hashes. *)
Definition matches (dir : list gostring) (d : files) (f : ContentFileEntry) : Prop :=
  exists cs, d !! Join dir (Path f) = Some (concat cs) /\ Forall2 (fun c h => chunkHashMatches c h = true) cs (hashes f).
(** A path that names a file of its own: no dots, no temporary file, not the state file. *)
Definition clean_path (p : gostring) : Prop :=
  Forall clean_element (elements p) /\ (forall x, last (elements p) <> Some (x ++ bs ".part")) /\ p <> bs ".manifest.json".
Definition clean_manifest (fs : list ContentFileEntry) : Prop := NoDup (Path <$> fs) /\ Forall (fun f => clean_path (Path f)) fs.

Lemma from_peers_hash h ps data : from_peers h ps = Some data -> chunkHashMatches data h = true.
Proof.
  induction ps as [|[[x|]| |] ps IH]; cbn [from_peers]; try done. destruct (chunkHashMatches x h) eqn:E; [|done]. by intros [= <-].
Qed.
Lemma fetchChunk_hash h ps relay data : fetchChunk h ps relay = Ok data -> chunkHashMatches data h = true.
Proof.
  unfold fetchChunk. destruct (from_peers h ps) eqn:E; [intros [= <-]; by eapply from_peers_hash|].
  destruct relay as [[x| |]|]; try done. destruct (chunkHashMatches x h) eqn:Ex; [|done]. by intros [= <-].
Qed.

Lemma download_hashes hs e : forall i acc data, download hs e i acc = Ok data ->
  exists cs, data = acc ++ concat cs /\ Forall2 (fun c h => chunkHashMatches c h = true) cs hs.
Proof.
  induction hs as [|h hs IH]; intros i acc data; cbn [download].
  - intros [= <-]. exists []. rewrite app_nil_r. by split; [|constructor].
  - destruct (ce_superseded (e i)); [done|]. destruct (fetchChunk h _ _) as [c| |] eqn:Ef; try done. cbn [mbind res_bind].
    destruct (ce_write (e i)); [|done]. intros (cs & -> & H)%IH. exists (c :: cs). split; [cbn; by rewrite <- app_assoc|].
    constructor; [by eapply fetchChunk_hash | done].
Qed.

Lemma syncFile_spec dir f e d good d' : syncFile dir f e d = (good, d') ->
  (good = true -> matches dir d' f) /\
  forall p, p <> Join dir (Path f) -> p <> part (Join dir (Path f)) -> d' !! p = d !! p.
Proof.
  unfold syncFile. destruct (negb (fe_mkdir e) || negb (fe_create e)); [by intros [= <- <-]|].
  assert (forall p, p <> part (Join dir (Path f)) -> delete (part (Join dir (Path f))) d !! p = d !! p) as Hd.
  { intros p Hp. by rewrite lookup_delete_ne by congruence. }
  destruct (download _ _ _ _) as [data| |] eqn:E; [|intros [= <- <-]; split; [done|by auto]..].
  destruct (fe_close e && fe_rename e); [|intros [= <- <-]; split; [done|by auto]]. intros [= <- <-]. split.
  - intros _. apply download_hashes in E as (cs & -> & H). exists cs. split; [apply lookup_insert_eq | done].
  - intros p H1 H2. rewrite lookup_insert_ne by congruence. by apply Hd.
Qed.

Lemma Join_inj dir p q : clean_path p -> clean_path q -> Join dir p = Join dir q -> p = q.
Proof. intros (Hp & _) (Hq & _). rewrite !Join_clean by done. intros E%(inj (app dir)). by apply (inj elements). Qed.

Lemma part_apart dir p q : clean_path p -> clean_path q -> Join dir p <> part (Join dir q).
Proof.
  intros (Hp & Hl & _) (Hq & _). rewrite !Join_clean by done. unfold part. intros E. apply (f_equal last) in E.
  rewrite last_snoc, last_app in E. pose proof (elements_ne p). destruct (last (elements p)) as [x|] eqn:Ex.
  - injection E as ->. by eapply Hl.
  - by apply last_None in Ex.
Qed.
Lemma state_apart dir p : clean_path p -> Join dir p <> statePath dir.
Proof.
  intros (Hp & _ & Hn). unfold statePath. rewrite Join_clean by done. rewrite (Join_clean dir (bs ".manifest.json")).
  - intros E%(inj (app dir))%(inj elements). done.
  - change (elements (bs ".manifest.json")) with [bs ".manifest.json"]. constructor; [|constructor]. by split_and!.
Qed.

(** A file of the manifest that the loop takes for unchanged. *)
Definition unchanged (prev : gmap gostring ContentFileEntry) (f : ContentFileEntry) : bool :=
  match prev !! Path f with Some p => sameChunks (ChunkHashes p) (ChunkHashes f) | None => false end.

Lemma sync_files_spec dir prev e : forall fs i ok d r d', clean_manifest fs -> sync_files dir prev e fs i ok d = (r, d') ->
  (forall p, (forall f, f ∈ fs -> p <> Join dir (Path f) /\ p <> part (Join dir (Path f))) -> d' !! p = d !! p) /\
  (r = Some true -> (forall f, f ∈ fs -> unchanged prev f = true -> matches dir d f) -> ok = true /\ Forall (matches dir d') fs).
Proof.
  induction fs as [|f fs IH]; intros i ok d r d' [Hnd Hc]; cbn [sync_files].
  { intros [= <- <-]. split; [done|]. intros [= ->] _. by split. }
  rewrite fmap_cons in Hnd. apply NoDup_cons in Hnd as [Hnf Hnd]. apply Forall_cons_1 in Hc as [Hcf Hc].
  assert (clean_manifest fs) as Hcl by done. fold (unchanged prev f).
  assert (forall g, g ∈ fs -> Join dir (Path f) <> Join dir (Path g) /\ Join dir (Path f) <> part (Join dir (Path g)) /\
    Join dir (Path g) <> part (Join dir (Path f))) as Hap.
  { intros g Hg. pose proof (proj1 (Forall_forall _ _) Hc g Hg) as Hcg. split_and!.
    - intros E%Join_inj; [|done..]. apply Hnf. rewrite E. by apply list_elem_of_fmap_2.
    - by apply part_apart.
    - by apply part_apart. }
  destruct (se_superseded e i); [by intros [= <- <-]|]. destruct (unchanged prev f) eqn:Eu.
  - intros E. destruct (IH _ _ _ _ _ Hcl E) as [H1 H2]. split; [intros p Hp; apply H1; set_solver|].
    intros Hr Hm. destruct (H2 Hr) as [-> Hf]; [intros g Hg; apply Hm; set_solver|]. split; [done|]. constructor; [|done].
    destruct (Hm f (list_elem_of_here _ _) Eu) as (cs & Ec & H). exists cs. split; [|done]. rewrite H1; [done|]. intros g Hg. by destruct (Hap g Hg) as (? & ? & _).
  - destruct (syncFile dir f (se_file e i) d) as [good d1] eqn:Es. intros E. apply syncFile_spec in Es as [Hgood Hother].
    destruct (IH _ _ _ _ _ Hcl E) as [H1 H2]. split.
    + intros p Hp. rewrite H1 by (intros g Hg; apply Hp; set_solver). apply Hother; apply (Hp f); set_solver.
    + intros Hr Hm. destruct (H2 Hr) as [Hok Hf].
      { intros g Hg Hu. destruct (Hm g (list_elem_of_further _ _ _ Hg) Hu) as (cs & Ec & H). exists cs. split; [|done].
        rewrite Hother; [done| |]; destruct (Hap g Hg) as (? & ? & ?); congruence. }
      apply andb_true_iff in Hok as [-> ->]. split; [done|]. constructor; [|done].
      destruct (Hgood eq_refl) as (cs & Ec & H). exists cs. split; [|done]. rewrite H1; [done|]. intros g Hg. by destruct (Hap g Hg) as (? & ? & _).
Qed.

Lemma by_path_spec fs (p : gostring) f : by_path fs !! p = Some f -> Path f = p /\ f ∈ fs.
Proof.
  unfold by_path. assert (forall m : gmap gostring ContentFileEntry, foldl (fun m f => <[Path f := f]> m) m fs !! p = Some f ->
    m !! p = Some f \/ (Path f = p /\ f ∈ fs)) as H.
  { induction fs as [|g fs IH]; intros m; cbn [foldl]; [by left|]. intros [E|[? ?]]%IH; [|right; set_solver].
    apply lookup_insert_Some in E as [[<- <-]|[_ E]]; [right; set_solver | by left]. }
  intros [?|?]%H; done.
Qed.
Lemma by_path_Some fs f : NoDup (Path <$> fs) -> f ∈ fs -> by_path fs !! Path f = Some f.
Proof.
  unfold by_path. assert (forall m : gmap gostring ContentFileEntry, NoDup (Path <$> fs) ->
    (forall p, p ∉ Path <$> fs -> foldl (fun m f => <[Path f := f]> m) m fs !! p = m !! p) /\
    (f ∈ fs -> foldl (fun m f => <[Path f := f]> m) m fs !! Path f = Some f)) as H; [|intros Hn; apply (H ∅ Hn)].
  induction fs as [|g fs IH]; intros m Hn; cbn [foldl]; [by split; [|intros ?%not_elem_of_nil]|].
  rewrite fmap_cons in Hn |- *. apply NoDup_cons in Hn as [Hg Hn]. destruct (IH (<[Path g := g]> m) Hn) as [H1 H2]. split.
  - intros p Hp. rewrite H1 by set_solver. apply lookup_insert_ne. set_solver.
  - intros [->|?]%elem_of_cons; [|by apply H2]. rewrite H1 by done. apply lookup_insert_eq.
Qed.

Lemma delete_missing_spec (dir : list gostring) (prev wanted : gmap gostring ContentFileEntry) (rm : gostring -> bool) (d : files) : (forall p f, prev !! p = Some f -> clean_path p) ->
  (forall q, (forall p, is_Some (prev !! p) -> wanted !! p = None -> q <> Join dir p) -> delete_missing dir prev wanted rm d !! q = d !! q) /\
  (forall p, is_Some (prev !! p) -> wanted !! p = None -> rm p = true -> delete_missing dir prev wanted rm d !! Join dir p = None).
Proof.
  intros Hc. unfold delete_missing. set (step := fun (d : files) (kv : gostring * ContentFileEntry) => _).
  assert (forall l, (forall kv, kv ∈ l -> prev !! kv.1 = Some kv.2) -> forall d,
    (forall q, (forall p, is_Some (prev !! p) -> wanted !! p = None -> q <> Join dir p) -> foldl step d l !! q = d !! q) /\
    (forall p, d !! Join dir p = None -> foldl step d l !! Join dir p = None) /\
    (forall p, p ∈ l.*1 -> wanted !! p = None -> rm p = true -> foldl step d l !! Join dir p = None)) as H.
  { induction l as [|[k f] l IH]; intros Hl d0; cbn [foldl]; [split_and!; [done|done|by intros p ?%not_elem_of_nil]|].
    assert (prev !! k = Some f) as Hk by (apply (Hl (k, f)); set_solver).
    destruct (IH ltac:(intros kv Hkv; apply Hl; set_solver) (step d0 (k, f))) as (H1 & H2 & H3). split_and!.
    - intros q Hq. rewrite H1 by done. unfold step. cbn [fst]. destruct (wanted !! k) eqn:Ew; [done|]. destruct (rm k); [|done].
      apply lookup_delete_ne. intros E. apply (Hq k); [by eexists | done | done].
    - intros p Hp. apply H2. unfold step. cbn [fst]. destruct (wanted !! k); [done|]. destruct (rm k); [|done].
      destruct (decide (Join dir k = Join dir p)) as [->|]; [apply lookup_delete_eq | by rewrite lookup_delete_ne].
    - intros p Hp Hw Hr. rewrite fmap_cons in Hp. apply elem_of_cons in Hp as [->|Hp]; [|by apply H3].
      cbn [fst] in *. apply H2. unfold step. cbn [fst]. rewrite Hw, Hr. apply lookup_delete_eq. }
  destruct (H (map_to_list prev) ltac:(by intros [k f] Hkv%elem_of_map_to_list) d) as (H1 & _ & H3). split; [exact H1|].
  intros p [f Hf]. apply H3. apply list_elem_of_fmap. exists (p, f). split; [done|]. by apply elem_of_map_to_list.
Qed.

(** The state file lists what is on disk. *)
Definition state_true (dir : list gostring) (d : files) : Prop :=
  forall p f, loadPrevFileList dir d !! p = Some f -> clean_path p /\ matches dir d f.

Lemma prev_path (dir : list gostring) (d : files) (p : gostring) (f : ContentFileEntry) : loadPrevFileList dir d !! p = Some f -> Path f = p.
Proof.
  unfold loadPrevFileList. destruct (d !! _); [|done]. destruct (Unmarshal _ _ _); [|done]. by intros [? _]%by_path_spec.
Qed.

(** A run that announces its version as complete has, for every file of the manifest, chunks
    with its hashes on disk, and what the manifest no longer lists is gone as far as it
    could be removed; provided the state file told the truth before. *)
Lemma complete_sync (dir : list gostring) (raw : bytes) (sm : signedContentManifest) (e : sync_env) (d d' : files) (idx : gmap gostring chunkLoc) : clean_manifest (default [] (c_Files sm)) -> state_true dir d ->
  sync dir raw sm e d = (Some idx, d') ->
  Forall (matches dir d') (default [] (c_Files sm)) /\
  (forall p, is_Some (loadPrevFileList dir d !! p) -> p ∉ Path <$> default [] (c_Files sm) -> se_remove e p = true ->
     d' !! Join dir p = None).
Proof.
  intros Hcl Hst. unfold sync. set (fs := default [] (c_Files sm)) in *. set (prev := loadPrevFileList dir d) in *.
  set (d1 := delete_missing dir prev (by_path fs) (se_remove e) d). pose proof Hcl as [Hnd Hc].
  assert (forall p f, prev !! p = Some f -> clean_path p) as Hpc by (intros p f Hp; by apply Hst in Hp as [? _]).
  destruct (delete_missing_spec dir prev (by_path fs) (se_remove e) d Hpc) as [D1 D2]. fold d1 in D1, D2.
  destruct (sync_files dir prev e fs 0 true d1) as [r d2] eqn:E. destruct (sync_files_spec dir prev e fs 0 true d1 r d2 Hcl E) as [S1 S2].
  destruct r as [ok|]; [|done]. destruct (se_end e); [done|]. destruct ok; [|done]. intros [= _ <-].
  set (d3 := match se_state e with None => _ | Some _ => _ end).
  assert (forall q, q <> statePath dir -> d3 !! q = d2 !! q) as H3.
  { intros q Hq. unfold d3. destruct (se_state e) as [[b|]|]; [by apply lookup_insert_ne | done | by apply lookup_insert_ne]. }
  assert (forall f, f ∈ fs -> clean_path (Path f)) as Hcf by (by apply Forall_forall).
  split.
  - destruct (S2 eq_refl) as [_ Hm].
    + intros f Hf Hu. unfold unchanged in Hu. destruct (prev !! Path f) as [g|] eqn:Eg; [|done].
      destruct (Hst _ _ Eg) as [_ (cs & Ec & Hh)]. exists cs. apply prev_path in Eg as Ep. rewrite Ep in Ec. split.
      * rewrite <- Ec. apply D1. intros p [h Hp] Hw Ej. apply Join_inj in Ej; [|by apply Hcf|by eapply Hpc].
        subst p. by rewrite (by_path_Some fs f Hnd Hf) in Hw.
      * unfold sameChunks in Hu. apply bool_decide_eq_true in Hu. unfold hashes in *. by rewrite <- Hu.
    + apply Forall_forall. intros f Hf. destruct (proj1 (Forall_forall _ _) Hm f Hf) as (cs & Ec & Hh). exists cs. split; [|done].
      rewrite H3; [done|]. apply state_apart. by apply Hcf.
  - intros p [g Hp] Hnw Hrm. assert (clean_path p) as Hcp by (by eapply Hpc). rewrite H3 by (by apply state_apart). rewrite S1.
    + apply D2; [by eexists | | done]. destruct (by_path fs !! p) as [f|] eqn:Eb; [|done]. apply by_path_spec in Eb as [<- Hf].
      destruct Hnw. by apply list_elem_of_fmap_2.
    + intros f Hf. split; [|by apply part_apart; auto]. intros Ej%Join_inj; [|done|by apply Hcf]. subst p. destruct Hnw. by apply list_elem_of_fmap_2.
Qed.

(** ** From the arbiter's directory to the client's *)

Lemma concat_chunks data : concat (chunks_of data) = data.
Proof.
  unfold chunks_of. assert (forall n l, (length l <= n)%nat -> concat (split_chunks n l) = l) as H; [|by apply H].
  assert (0 < contentChunkSize)%nat by (unfold contentChunkSize; lia).
  induction n as [|n IH]; intros l Hl; [by destruct l; [|cbn in Hl; lia]|]. cbn [split_chunks]. destruct l as [|c l]; [done|].
  cbn [concat]. rewrite IH; [apply take_drop|]. rewrite length_drop. cbn [length] in *. lia.
Qed.

Lemma hex_encode_digits (x : bytes) : bytes_ok x -> Forall (fun c => 48 <= c < 58 \/ 97 <= c < 103) (Hex.encode x).
Proof.
  intros Hx. induction Hx as [|b x Hb _ IH]; [constructor|]. unfold byte_ok in Hb. cbn. unfold Hex.digit.
  repeat (apply Forall_cons_2; [case_match; Z.div_mod_to_equations; lia|]). exact IH.
Qed.
Lemma lower_hex x : bytes_ok x -> Strings.ToLower (Hex.encode x) = Hex.encode x.
Proof.
  intros H%hex_encode_digits.
  unfold Strings.ToLower, Strings.is_ascii.
  replace (forallb _ _) with true.
  - induction H as [|c l Hc _ IH]; [done|]. cbn [map]. rewrite IH. unfold Strings.lower_byte. f_equal.
    destruct ((65 <=? c) && (c <=? 90)) eqn:E; [lia|done].
  - symmetry. apply forallb_forall. intros c Hc%list_elem_of_In. pose proof (proj1 (Forall_forall _ _) H c Hc). apply Z.ltb_lt. cbv beta in *. lia.
Qed.

Definition no_collision (data : bytes) : Prop := forall c x, c ∈ chunks_of data -> sha256 x = sha256 c -> x = c.

Lemma entry_matches dir d path data : no_collision data -> matches dir d (content_entry path data) -> d !! Join dir path = Some data.
Proof.
  intros Hn (cs & E & H). change (Path (content_entry path data)) with path in E. rewrite E. clear E. unfold hashes, content_entry in H. cbn [ChunkHashes] in H.
  replace (default [] (slice_of (chunk_hash <$> chunks_of data))) with (chunk_hash <$> chunks_of data) in H by (by destruct (chunks_of data)).
  f_equal. transitivity (concat (chunks_of data)); [|apply concat_chunks]. f_equal. unfold no_collision in Hn.
  revert H Hn. generalize (chunks_of data) as l. clear. intros l H Hn. remember (chunk_hash <$> l) as hs eqn:E. revert l Hn E.
  induction H as [|c h cs hs Hc _ IH]; intros l Hn E; destruct l as [|x l]; try done. rewrite fmap_cons in E. injection E as -> ->.
  f_equal; [|apply IH; [|done]; intros; apply Hn; [set_solver|done]].
  apply Hn; [set_solver|]. unfold chunkHashMatches, chunk_hash in Hc. apply bool_decide_eq_true in Hc. rewrite lower_hex in Hc by apply sha256_bytes.
  apply (f_equal Hex.decode) in Hc. rewrite !Hex.decode_encode in Hc by apply sha256_bytes. by injection Hc.
Qed.

(** A walk over a directory: different clean paths, without collisions, sizes that fit. *)
Definition good_walk (walk : list (gostring * res bytes)) : Prop :=
  NoDup walk.*1 /\ Forall (fun pr => clean_path pr.1 /\ forall data, pr.2 = Ok data -> no_collision data /\ lenZ data < 2 ^ 63) walk.

Lemma walk_files_spec walk : forall idx fs idx', walk_files walk idx = Ok (fs, idx') ->
  Forall2 (fun pr f => exists data, pr.2 = Ok data /\ f = content_entry pr.1 data) walk fs.
Proof.
  induction walk as [|[p r] walk IH]; intros idx fs idx'; cbn [walk_files]; [intros [= <- <-]; constructor|].
  destruct r as [data| |]; try done. cbn [mbind res_bind]. destruct (walk_files walk _) as [[fs1 idx1]| |] eqn:E; try done. cbn [mbind res_bind].
  intros [= <- <-]. constructor; [by exists data | by eapply IH].
Qed.
Lemma build_spec walk fs idx : buildContentFileList walk = Ok (fs, idx) -> good_walk walk ->
  clean_manifest fs /\ Path <$> fs ≡ₚ walk.*1 /\ (forall p data, (p, Ok data) ∈ walk -> content_entry p data ∈ fs) /\
  forall f, f ∈ fs -> exists data, (Path f, Ok data) ∈ walk /\ f = content_entry (Path f) data.
Proof.
  unfold buildContentFileList. destruct (walk_files walk ∅) as [[l i]| |] eqn:E; try done. cbn [mbind res_bind]. intros E'.
  assert (fs = merge_sort file_le l) as -> by congruence. clear E'. apply walk_files_spec in E. intros [Hn Hw].
  assert (Path <$> l = walk.*1) as Hp.
  { clear -E. induction E as [|[p r] f walk l (data & _ & ->) _ IH]; [done|]. rewrite !fmap_cons. by rewrite IH. }
  split; [split|split_and!].
  - rewrite (merge_sort_Permutation file_le l). by rewrite Hp.
  - rewrite (merge_sort_Permutation file_le l). assert (Forall clean_path (Path <$> l)) as Hcp.
    { rewrite Hp. apply Forall_fmap. eapply Forall_impl; [exact Hw|]. by intros pr [? _]. }
    exact (proj1 (Forall_fmap Path clean_path l) Hcp).
  - rewrite (merge_sort_Permutation file_le l). by rewrite Hp.
  - intros p data Hin. rewrite (merge_sort_Permutation file_le l). apply list_elem_of_lookup_1 in Hin as [k Hk].
    destruct (Forall2_lookup_l _ _ _ _ _ E Hk) as (f & Hf & data' & [= <-] & ->). by eapply list_elem_of_lookup_2.
  - intros f Hf. rewrite (merge_sort_Permutation file_le l) in Hf. apply list_elem_of_lookup_1 in Hf as [k Hk].
    destruct (Forall2_lookup_r _ _ _ _ _ E Hk) as ([p r] & Hr & data & Ed & ->). cbn in Ed. subst r. exists data. split; [|done].
    by eapply list_elem_of_lookup_2.
Qed.

(** ** Serving *)

(** A part of [data] with the hash [h]. *)
Definition slice_hash (data : bytes) (off size : Z) (h : gostring) : Prop :=
  0 <= off /\ 0 <= size /\ off + size <= lenZ data /\ chunk_hash (take (Z.to_nat size) (drop (Z.to_nat off) data)) = h.

Lemma slice_at (pre c post : bytes) (h : gostring) : chunk_hash c = h -> slice_hash (pre ++ c ++ post) (lenZ pre) (lenZ c) h.
Proof.
  intros <-. unfold slice_hash. rewrite !length_app, !Nat2Z.id. split_and!; [lia..|]. by rewrite drop_app_length, take_app_length.
Qed.

(** The arbiter's index: every chunk of a file that did not change is found. *)
Definition locates (now : gostring -> option bytes) (idx : gmap gostring chunkLocation) : Prop :=
  forall h l, idx !! h = Some l -> exists data, now (absPath l) = Some data /\ slice_hash data (offset l) (size l) h.

Lemma index_chunks_spec (now : gostring -> option bytes) (path : gostring) : forall (cs : list bytes) (pre : bytes) (idx : gmap gostring chunkLocation),
  now path = Some (pre ++ concat cs) -> locates now idx ->
  locates now (index_chunks path (lenZ pre) cs idx) /\
  forall h, is_Some (idx !! h) \/ h ∈ chunk_hash <$> cs -> is_Some (index_chunks path (lenZ pre) cs idx !! h).
Proof.
  induction cs as [|c cs IH]; intros pre idx Hn Hl; cbn [index_chunks]; [split; [done|]; by intros h [?|?%not_elem_of_nil]|].
  cbn [concat] in Hn. replace (lenZ pre + lenZ c) with (lenZ (pre ++ c)) by (rewrite length_app; lia).
  destruct (IH (pre ++ c) (<[chunk_hash c := MkLoc path (lenZ pre) (lenZ c)]> idx)) as [H1 H2].
  - by rewrite <- app_assoc.
  - intros h l [[<- <-]|[_ E]]%lookup_insert_Some; [|by apply Hl]. exists (pre ++ c ++ concat cs). split; [done | by apply slice_at].
  - split; [exact H1|]. intros h Hh. apply H2. destruct Hh as [Hh|Hh].
    + left. destruct (decide (chunk_hash c = h)) as [<-|]; [by rewrite lookup_insert_eq; eexists | by rewrite lookup_insert_ne].
    + rewrite fmap_cons in Hh. apply elem_of_cons in Hh as [->|Hh]; [left; rewrite lookup_insert_eq; by eexists | by right].
Qed.

(** The files did not change between the walk and now. *)
Definition still (walk : list (gostring * res bytes)) (now : gostring -> option bytes) : Prop :=
  forall p data, (p, Ok data) ∈ walk -> now p = Some data.

Lemma walk_index (now : gostring -> option bytes) : forall (walk : list (gostring * res bytes)) (idx : gmap gostring chunkLocation) fs idx',
  walk_files walk idx = Ok (fs, idx') -> still walk now -> locates now idx ->
  locates now idx' /\ forall h, is_Some (idx !! h) \/ (exists p data, (p, Ok data) ∈ walk /\ h ∈ chunk_hash <$> chunks_of data) -> is_Some (idx' !! h).
Proof.
  induction walk as [|[p r] walk IH]; intros idx fs idx' E Hs Hl; cbn [walk_files] in E.
  { injection E as _ <-. split; [done|]. by intros h [?|(? & ? & ?%not_elem_of_nil & _)]. }
  destruct r as [data| |]; try done. cbn [mbind res_bind] in E. destruct (walk_files walk _) as [[fs1 idx1]| |] eqn:Ew; try done.
  cbn [mbind res_bind] in E. assert (idx1 = idx') as -> by congruence.
  destruct (index_chunks_spec now p (chunks_of data) [] idx) as [H1 H2]; [rewrite concat_chunks; apply Hs; set_solver | done|].
  destruct (IH _ _ _ Ew) as [H3 H4]; [intros q x Hq; apply Hs; set_solver | exact H1|]. split; [exact H3|].
  intros h [Hh|(q & x & Hq & Hh)]; apply H4; [left; apply H2; by left|]. apply elem_of_cons in Hq as [[= -> ->]|Hq]; [left; apply H2; by right|].
  right. by eauto.
Qed.

(** The client's index. *)
Definition serves (d : files) (idx : gmap gostring chunkLoc) : Prop :=
  forall h l, idx !! h = Some l -> exists data, d !! cl_path l = Some data /\ slice_hash data (cl_offset l) (cl_size l) h.

Lemma index_file_spec (d : files) (abs : list gostring) (path : gostring) (data : bytes) : d !! abs = Some data -> lenZ data < 2 ^ 63 ->
  forall (n : nat) (r pre : bytes) (idx : gmap gostring chunkLoc), data = pre ++ r -> serves d idx ->
  let idx' := index_file abs (content_entry path data) (lenZ pre) (chunk_hash <$> split_chunks n r) idx in
  serves d idx' /\ forall h, is_Some (idx !! h) \/ h ∈ chunk_hash <$> split_chunks n r -> is_Some (idx' !! h).
Proof.
  intros Hd Hs. induction n as [|n IH]; intros r pre idx Er Hl; cbn [split_chunks].
  { split; [done|]. by intros h [?|?%not_elem_of_nil]. }
  destruct r as [|b r0]; [split; [done|]; by intros h [?|?%not_elem_of_nil]|]. set (r := b :: r0) in *. rewrite fmap_cons.
  set (c := take contentChunkSize r). set (r' := drop contentChunkSize r). assert (r = c ++ r') as Ec by (symmetry; apply take_drop).
  assert (lenZ c = Z.min (Z.of_nat contentChunkSize) (lenZ r)) as Hc by (unfold c; rewrite length_take; lia).
  assert (lenZ data = lenZ pre + lenZ r) as Hlen by (rewrite Er, length_app; lia).
  cbn [index_file content_entry Size ChunkSize].
  assert (int64 (lenZ data - lenZ pre) = lenZ r) as -> by (rewrite int64_id; lia).
  replace (if lenZ r <? Z.of_nat contentChunkSize then lenZ r else Z.of_nat contentChunkSize) with (lenZ c)
    by (rewrite Hc; destruct (Z.ltb_spec (lenZ r) (Z.of_nat contentChunkSize)); lia).
  assert (int64 (lenZ pre + lenZ c) = lenZ (pre ++ c)) as -> by (rewrite length_app, int64_id; lia).
  destruct (IH r' (pre ++ c) (<[chunk_hash c := MkChunkLoc abs (lenZ pre) (lenZ c)]> idx)) as [H1 H2].
  - by rewrite <- app_assoc, <- Ec.
  - intros h l [[<- <-]|[_ E]]%lookup_insert_Some; [|by apply Hl]. exists data. split; [done|]. rewrite Er, Ec. by apply slice_at.
  - split; [exact H1|]. intros h Hh. apply H2. destruct Hh as [Hh|Hh].
    + left. destruct (decide (chunk_hash c = h)) as [<-|]; [by rewrite lookup_insert_eq; eexists | by rewrite lookup_insert_ne].
    + apply elem_of_cons in Hh as [->|Hh]; [left; rewrite lookup_insert_eq; by eexists | by right].
Qed.

(** An entry of the arbiter's list whose file the client has. *)
Definition held (dir : list gostring) (d : files) (f : ContentFileEntry) : Prop :=
  exists data, f = content_entry (Path f) data /\ d !! Join dir (Path f) = Some data /\ lenZ data < 2 ^ 63.

Lemma entry_hashes (path : gostring) (data : bytes) : hashes (content_entry path data) = chunk_hash <$> chunks_of data.
Proof. unfold hashes, content_entry. cbn [ChunkHashes]. by destruct (chunks_of data). Qed.

Lemma build_index_spec (dir : list gostring) (d : files) (fs : list ContentFileEntry) : Forall (held dir d) fs ->
  serves d (buildChunkIndex dir fs) /\ forall f h, f ∈ fs -> h ∈ hashes f -> is_Some (buildChunkIndex dir fs !! h).
Proof.
  unfold buildChunkIndex. set (step := fun (idx : gmap gostring chunkLoc) (f : ContentFileEntry) => _).
  assert (forall idx, Forall (held dir d) fs -> serves d idx -> serves d (foldl step idx fs) /\
    forall h, is_Some (idx !! h) \/ (exists f, f ∈ fs /\ h ∈ hashes f) -> is_Some (foldl step idx fs !! h)) as H.
  { induction fs as [|f fs IH]; intros idx Hh Hl; cbn [foldl].
    { split; [done|]. by intros h [?|(? & ?%not_elem_of_nil & _)]. }
    apply Forall_cons_1 in Hh as [(data & Ef & Hd & Hs) Hh].
    destruct (index_file_spec d (Join dir (Path f)) (Path f) data Hd Hs (length data) data [] idx eq_refl Hl) as [H1 H2].
    fold (chunks_of data) in H1, H2. rewrite <- (entry_hashes (Path f)), <- Ef in H1, H2. unfold hashes in H1, H2.
    change (lenZ []) with 0 in H1, H2. fold (step idx f) in H1, H2. destruct (IH _ Hh H1) as [H3 H4]. split; [exact H3|].
    intros h [Hi|(g & Hg & Hi)]; apply H4; [left; apply H2; by left|]. apply elem_of_cons in Hg as [->|Hg]; [left; apply H2; by right|].
    right. by eauto. }
  intros Hh. destruct (H ∅ Hh) as [H1 H2]; [by intros h l; rewrite lookup_empty|]. split; [exact H1|]. intros f h Hf Hi. apply H2. right. by eauto.
Qed.

(** A peer that announced completeness answers a request for a chunk it lists with bytes of
    that hash. *)
Lemma ServeChunk_hash (idx : gmap gostring chunkLoc) (d : files) (h : gostring) : serves d idx -> is_Some (idx !! h) ->
  exists c, ServeChunk idx h d = Ok (Some c) /\ chunk_hash c = h.
Proof.
  intros Hs [l Hl]. destruct (Hs h l Hl) as (data & Hd & H1 & H2 & H3 & H4). unfold ServeChunk. rewrite Hl, Hd.
  rewrite (proj2 (Z.ltb_ge _ _)), (proj2 (Z.ltb_ge (cl_size l) _)) by lia. destruct (Z.eqb_spec (cl_size l) 0) as [E|E].
  - exists []. by rewrite E in H4.
  - rewrite (proj2 (Z.ltb_ge _ _)) by lia. by eexists.
Qed.

(** ** Authenticity *)

Definition file_strings (f : ContentFileEntry) : Prop := string_ok (Path f) /\ strings_ok (ChunkHashes f).
Lemma dec_file_strings : decodes_to dec_file file_strings.
Proof.
  intros j a x Hj [Ha Hh] E. destruct j as [| | | | |kvs]; try done; [by injection E as <-|]. apply wf_obj in Hj.
  unfold dec_file in E. cbn [dec_struct] in E. do 4 peel_pick E. injection E as <-. split; cbn [Path ChunkHashes].
  - eapply pick_decodes; [apply dec_str_ok | exact Hj | exact Ha | eassumption].
  - eapply (pick_decodes strings_ok); [|exact Hj | exact Hh | eassumption]. apply dec_slice_ok; [apply dec_str_ok | apply string_ok_nil].
Qed.
Lemma content_decoded data m : bytes_ok data -> Unmarshal dec_content zero_content data = Some m ->
  string_ok (c_Type m) /\ Forall file_strings (default [] (c_Files m)).
Proof.
  intros Hd. unfold Unmarshal. destruct (Parse data) as [j|] eqn:Ep; [|done]. cbn [mbind option_bind].
  apply Parse_ok in Ep; [|done]. assert (well_formed j) as Hj by (by eexists). clear Ep. intros E.
  pose proof string_ok_nil as Hn. destruct j as [| | | | |kvs]; try done; [injection E as <-; by split; [|constructor]|]. apply wf_obj in Hj.
  unfold dec_content in E. cbn [dec_struct] in E. do 4 peel_pick E. injection E as <-. split; cbn [c_Type c_Files].
  - eapply pick_decodes; [apply dec_str_ok | exact Hj | exact Hn | eassumption].
  - eapply (pick_decodes (fun l => Forall file_strings (default [] l))); [|exact Hj | | exact Ex1]; [|by constructor].
    apply dec_slice_ok; [apply dec_file_strings|]. by split; [|constructor].
Qed.

Lemma enc_slice_inj {A} (enc : A -> json) (a b : option (list A)) :
  (forall x y, enc x = enc y -> x = y) -> enc_slice enc a = enc_slice enc b -> a = b.
Proof.
  intros Hi. destruct a as [l|], b as [k|]; try done. cbn [enc_slice]. intros E. f_equal.
  assert (enc <$> l = enc <$> k) as H by congruence. clear E. revert k H.
  induction l as [|x l IH]; intros [|y k]; rewrite ?fmap_nil, ?fmap_cons; try done. intros E.
  f_equal; [apply Hi | apply IH]; congruence.
Qed.
(** The value of a member of an object, by its position. *)
Definition member (k : nat) (j : json) : json := match j with JObj kvs => default JNull (snd <$> kvs !! k) | _ => JNull end.
Lemma enc_file_inj (f g : ContentFileEntry) : enc_file f = enc_file g -> f = g.
Proof.
  destruct f as [p s c h], g as [p' s' c' h']. unfold enc_file. cbn [Path Size ChunkSize ChunkHashes]. intros E.
  pose proof (f_equal (member 0) E) as E1. pose proof (f_equal (member 1) E) as E2.
  pose proof (f_equal (member 2) E) as E3. pose proof (f_equal (member 3) E) as E4. clear E.
  change (JStr p = JStr p') in E1. change (enc_int64 s = enc_int64 s') in E2. change (enc_int64 c = enc_int64 c') in E3.
  change (enc_slice JStr h = enc_slice JStr h') in E4.
  apply enc_slice_inj in E4 as ->; [|by intros ? ? [= ->]]. injection E1 as ->.
  injection E2 as ->%Strconv.itoa_inj. by injection E3 as ->%Strconv.itoa_inj.
Qed.

Section signed.
Context (issued : document -> Prop) (known : bytes -> Prop).

Lemma content_issued raw m : unforged issued known -> bytes_ok raw ->
  (forall s, Base64.decode (c_Sig m) = Some s -> known s) -> content_verify (Some pub) raw = Ok m ->
  issued (DContent (c_TS m) (c_Files m)).
Proof.
  intros [Hu _] Hb Hk. unfold content_verify. destruct (Unmarshal dec_content zero_content raw) as [x|] eqn:Em; [|done].
  destruct (content_decoded _ _ Hb Em) as [Ht Hf]. destruct (negb _); [done|].
  destruct (Base64.decode (c_Sig x)) as [sg|] eqn:Es; [|done]. destruct (ed25519_verify pub _ sg) eqn:Ev; [|done].
  intros E. assert (x = m) as -> by congruence. clear E. destruct (Hu _ sg (Hk _ Es) Ev) as (d & Hi & Hd & Ec).
  apply canonical_payload in Ec. apply Marshal_inj in Ec; [| |by apply payload_ok].
  2: { assert (maxNestingDepth = 10000) by done. json_ok_solve; try done. eapply Forall_impl; [exact Hf|]. intros f ?. by apply ok_file; [lia|]. }
  assert (payload d = field "type" (JStr (c_Type m)) ++ field "ts" (enc_int64 (c_TS m)) ++ field "files" (enc_slice enc_file (c_Files m))) as E by congruence.
  clear Ec. destruct d; try done.
  pose proof (f_equal (fun l => member 1 (JObj l)) E) as E1. change (enc_int64 ts = enc_int64 (c_TS m)) in E1.
  pose proof (f_equal (fun l => member 2 (JObj l)) E) as E2. change (enc_slice enc_file files = enc_slice enc_file (c_Files m)) in E2.
  apply enc_slice_inj in E2 as <-; [|apply enc_file_inj]. by injection E1 as <-%Strconv.itoa_inj.
Qed.

(** What a version the arbiter signed was built from. *)
Context (published : Z -> list (gostring * res bytes) -> Prop).
Definition from_walks : Prop := forall ts fs, issued (DContent ts fs) ->
  exists walk l idx, published ts walk /\ good_walk walk /\ buildContentFileList walk = Ok (l, idx) /\ fs = slice_of l.

Lemma default_slice {A} (l : list A) : default [] (slice_of l) = l.
Proof. by destruct l. Qed.

(** A directory that holds a version: its files are the arbiter's and every chunk is served. *)
Definition mirrors (dir : list gostring) (d : files) (idx : gmap gostring chunkLoc) (walk : list (gostring * res bytes)) : Prop :=
  forall p data, (p, Ok data) ∈ walk ->
    d !! Join dir p = Some data /\ forall c, c ∈ chunks_of data -> ServeChunk idx (chunk_hash c) d = Ok (Some c).

Lemma sync_index (dir : list gostring) (raw : bytes) (sm : signedContentManifest) (e : sync_env) (d d' : files) (idx : gmap gostring chunkLoc) :
  sync dir raw sm e d = (Some idx, d') -> idx = buildChunkIndex dir (default [] (c_Files sm)).
Proof.
  unfold sync. destruct (sync_files _ _ _ _ _ _ _) as [[ok|] d2]; [|done]. destruct (se_end e); [done|]. destruct ok; [|done]. congruence.
Qed.

Lemma chunk_hash_inj (data c x : bytes) : no_collision data -> c ∈ chunks_of data -> chunk_hash x = chunk_hash c -> x = c.
Proof.
  intros Hn Hc E. apply Hn; [done|]. unfold chunk_hash in E. apply (f_equal Hex.decode) in E.
  rewrite !Hex.decode_encode in E by apply sha256_bytes. congruence.
Qed.

Lemma synced_mirrors (dir : list gostring) (walk : list (gostring * res bytes)) (l : list ContentFileEntry) (ix : gmap gostring chunkLocation) (d : files) : good_walk walk ->
  buildContentFileList walk = Ok (l, ix) -> Forall (matches dir d) l -> mirrors dir d (buildChunkIndex dir l) walk.
Proof.
  intros Hg Hb Hm. destruct (build_spec _ _ _ Hb Hg) as (_ & _ & Hin & Hout). pose proof Hg as [_ Hw].
  assert (forall p data, (p, Ok data) ∈ walk -> no_collision data /\ lenZ data < 2 ^ 63) as Hnc.
  { intros p data Hp. destruct (proj1 (Forall_forall _ _) Hw _ Hp) as [_ H]. by apply H. }
  assert (forall p data, (p, Ok data) ∈ walk -> d !! Join dir p = Some data) as Hd.
  { intros p data Hp. apply entry_matches; [by eapply Hnc|]. apply (proj1 (Forall_forall _ _) Hm). by apply Hin. }
  assert (Forall (held dir d) l) as Hheld.
  { apply Forall_forall. intros f Hf. destruct (Hout f Hf) as (data & Hp & Ef). exists data. split_and!; [done | by apply Hd | by eapply Hnc]. }
  destruct (build_index_spec dir d l Hheld) as [Hs Hdom]. intros p data Hp. split; [by apply Hd|]. intros c Hc.
  destruct (ServeChunk_hash (buildChunkIndex dir l) d (chunk_hash c) Hs) as (x & Ex & Eh).
  - eapply Hdom; [by apply Hin|]. rewrite entry_hashes. by apply list_elem_of_fmap_2.
  - rewrite Ex. do 2 f_equal. by eapply chunk_hash_inj; [eapply Hnc | |].
Qed.

Lemma persisted (dir : list gostring) (raw : bytes) (sm : signedContentManifest) (e : sync_env) (d d' : files) (idx : gmap gostring chunkLoc) :
  clean_manifest (default [] (c_Files sm)) -> Unmarshal dec_content zero_content raw = Some sm -> se_state e = None ->
  sync dir raw sm e d = (Some idx, d') -> Forall (matches dir d') (default [] (c_Files sm)) -> state_true dir d'.
Proof.
  intros [_ Hc] Hu Hs E Hm p f. assert (d' !! statePath dir = Some raw) as Hp.
  { revert E. unfold sync. destruct (sync_files _ _ _ _ _ _ _) as [[ok|] d2]; [|done]. destruct (se_end e); [done|]. rewrite Hs.
    destruct ok; [|done]. intros [= _ <-]. apply lookup_insert_eq. }
  unfold loadPrevFileList. rewrite Hp, Hu. intros [<- Hf]%by_path_spec.
  split; [exact (proj1 (Forall_forall _ _) Hc f Hf) | exact (proj1 (Forall_forall _ _) Hm f Hf)].
Qed.

Lemma verify_decodes (key : option bytes) (raw : bytes) (m : signedContentManifest) :
  content_verify key raw = Ok m -> Unmarshal dec_content zero_content raw = Some m.
Proof.
  unfold content_verify. destruct (Unmarshal dec_content zero_content raw) as [x|]; [|done]. destruct (negb _); [done|].
  destruct key as [k|]; [|congruence]. destruct (Base64.decode (c_Sig x)); [|done]. destruct (ed25519_verify _ _ _); [congruence|done].
Qed.

(** A manifest from outside that the manager accepts, whose signature is no forgery. *)
Record accepts (raw : bytes) (sm : signedContentManifest) (m m' : MirrorManager) : Prop := {
  ac_bytes : bytes_ok raw;
  ac_known : forall s, Base64.decode (c_Sig sm) = Some s -> known s;
  ac_key : mm_pubkey m = Some pub;
  ac_taken : OnContentManifest raw m = (Some sm, m') }.

(** The directories on which all went well so far: one without a state file, and one after a run,
    alone on such a directory, that was announced as complete and wrote its state file. *)
Inductive mirrored (dir : list gostring) : files -> Prop :=
| md_fresh d : d !! statePath dir = None -> mirrored dir d
| md_run raw sm m m' e d idx d' : mirrored dir d -> accepts raw sm m m' -> se_state e = None ->
    sync dir raw sm e d = (Some idx, d') -> mirrored dir d'.

Lemma accepted_walk (raw : bytes) (sm : signedContentManifest) (m m' : MirrorManager) :
  unforged issued known -> from_walks -> accepts raw sm m m' ->
  mm_ts m < c_TS sm /\ content_verify (Some pub) raw = Ok sm /\ exists walk l ix, published (c_TS sm) walk /\ good_walk walk /\
    buildContentFileList walk = Ok (l, ix) /\ default [] (c_Files sm) = l /\ clean_manifest l /\ Path <$> l ≡ₚ walk.*1.
Proof.
  intros Hu Hf [Hb Hk Hp E]. unfold OnContentManifest in E. rewrite Hp in E. destruct (content_verify (Some pub) raw) as [x| |] eqn:Ev; try done.
  destruct (Z.leb_spec (c_TS x) (mm_ts m)) as [_|Hts]; [done|]. assert (x = sm) as -> by congruence. split_and!; [done..|].
  destruct (Hf _ _ (content_issued _ _ Hu Hb Hk Ev)) as (walk & l & ix & Hpub & Hg & Hbuild & Efs).
  destruct (build_spec _ _ _ Hbuild Hg) as (Hcl & Hperm & _). exists walk, l, ix. split_and!; try done. by rewrite Efs, default_slice.
Qed.

Lemma mirrored_true (dir : list gostring) (d : files) :
  unforged issued known -> from_walks -> mirrored dir d -> state_true dir d.
Proof.
  intros Hu Hf. induction 1 as [d Hd|raw sm m m' e d idx d' _ IH Ha He Hs].
  - intros p f. unfold loadPrevFileList. by rewrite Hd.
  - destruct (accepted_walk _ _ _ _ Hu Hf Ha) as (_ & Hv & walk & l & ix & _ & _ & _ & El & Hcl & _). rewrite <- El in Hcl.
    destruct (complete_sync _ _ _ _ _ _ _ Hcl IH Hs) as [Hm _]. eapply persisted; [done | by eapply verify_decodes | done | done | done].
Qed.

End signed.

(** ** Delivery *)

Lemma walk_doc_ok (now : Z) (walk : list (gostring * res bytes)) (l : list ContentFileEntry) (ix : gmap gostring chunkLocation) :
  buildContentFileList walk = Ok (l, ix) -> good_walk walk -> Forall string_ok walk.*1 -> doc_ok (DContent now (slice_of l)).
Proof.
  intros Hb Hg Hs. destruct (build_spec _ _ _ Hb Hg) as (_ & _ & _ & Hout). cbn [doc_ok]. rewrite default_slice.
  apply Forall_forall. intros f Hf. destruct (Hout f Hf) as (data & Hw & ->). cbn [Path]. split.
  - apply (proj1 (Forall_forall _ _) Hs). apply list_elem_of_fmap. by exists (Path f, Ok data).
  - unfold strings_ok. fold (hashes (content_entry (Path f) data)). rewrite entry_hashes. apply Forall_fmap, Forall_true. intros c.
    apply ascii_ok. eapply Forall_impl; [apply hex_encode_digits, sha256_bytes|]. intros x Hx. cbv beta in Hx. bytewise.
Qed.

Lemma dec_content_back (ts : Z) (fs : option (list ContentFileEntry)) (sig : gostring) : int64_ok ts ->
  Forall (fun f => int64_ok (Size f) /\ int64_ok (ChunkSize f)) (default [] fs) ->
  dec_content (JObj (payload (DContent ts fs) ++ [] ++ field "sig" (JStr sig))) zero_content = Some (MkContent (bs "content") ts fs sig).
Proof.
  intros Ht Hf. unfold dec_content. cbn [dec_struct payload app]. rewrite <- (app_nil_r (field "sig" _)), <- !app_assoc.
  assert (dec_slice dec_file zero_file (enc_slice enc_file fs) None = Some fs) as Hfs.
  { apply dec_slice_enc. eapply Forall_impl; [exact Hf|]. intros [p sz cs h] [H1 H2]. unfold dec_file, enc_file. cbn [dec_struct Path Size ChunkSize ChunkHashes] in *.
    rewrite <- (app_nil_r (field "chunk_hashes" _)).
    do 4 pick_step ltac:(first [apply dec_int64_enc; assumption | apply dec_strs_back | reflexivity]) idtac. done. }
  do 4 pick_step ltac:(first [apply dec_int64_enc; assumption | exact Hfs | reflexivity]) idtac. done.
Qed.

(** A run that nothing disturbs: file operations work, no newer version arrives, and the relay
    answers with [answer]. The peers may answer anything. *)
Definition undisturbed (answer : gostring -> res bytes) (e : sync_env) (l : list ContentFileEntry) : Prop :=
  se_end e = false /\ forall i f, l !! i = Some f -> se_superseded e i = false /\
    let fe := se_file e i in fe_mkdir fe = true /\ fe_create fe = true /\ fe_close fe = true /\ fe_rename fe = true /\
    forall j h, hashes f !! j = Some h ->
      let ce := fe_chunk fe j in ce_superseded ce = false /\ ce_write ce = true /\ ce_relay ce = Some (answer h).

Lemma fetchChunk_answer (h : gostring) (peers : list (res (option bytes))) (data : bytes) : chunkHashMatches data h = true ->
  exists x, fetchChunk h peers (Some (Ok data)) = Ok x.
Proof. intros E. unfold fetchChunk. destruct (from_peers h peers); [by eexists|]. rewrite E. by eexists. Qed.

Lemma download_ends (answer : gostring -> res bytes) (e : nat -> chunk_env) : forall (hs : list gostring) (i : nat) (acc : bytes),
  (forall h, h ∈ hs -> exists data, answer h = Ok data /\ chunkHashMatches data h = true) ->
  (forall j h, hs !! j = Some h -> ce_superseded (e (i + j)%nat) = false /\ ce_write (e (i + j)%nat) = true /\ ce_relay (e (i + j)%nat) = Some (answer h)) ->
  exists data, download hs e i acc = Ok data.
Proof.
  induction hs as [|h hs IH]; intros i acc Ha He; cbn [download]; [by eexists|].
  destruct (He 0%nat h eq_refl) as (H1 & H2 & H3). rewrite Nat.add_0_r in H1, H2, H3. rewrite H1, H2, H3.
  destruct (Ha h (list_elem_of_here _ _)) as (data & -> & Hd). destruct (fetchChunk_answer h (ce_peers (e i)) data Hd) as [x ->]. cbn [mbind res_bind].
  apply IH; [intros g Hg; apply Ha; set_solver|]. intros j g Hj. replace (S i + j)%nat with (i + S j)%nat by lia. by apply He.
Qed.

Lemma syncs_file (answer : gostring -> res bytes) (dir : list gostring) (f : ContentFileEntry) (e : sync_env) (l : list ContentFileEntry) (i : nat) (d : files) :
  undisturbed answer e l -> l !! i = Some f -> (forall h, h ∈ hashes f -> exists data, answer h = Ok data /\ chunkHashMatches data h = true) ->
  (syncFile dir f (se_file e i) d).1 = true.
Proof.
  intros [_ Hu] Hf Ha. destruct (Hu i f Hf) as (_ & H1 & H2 & H3 & H4 & Hc). unfold syncFile. rewrite H1, H2, H3, H4. cbn [negb orb andb].
  fold (hashes f). by destruct (download_ends answer (fe_chunk (se_file e i)) (hashes f) 0 [] Ha Hc) as [data ->].
Qed.

Lemma sync_files_ends (answer : gostring -> res bytes) (dir : list gostring) (prev : gmap gostring ContentFileEntry) (e : sync_env) (l : list ContentFileEntry) :
  undisturbed answer e l -> (forall f h, f ∈ l -> h ∈ hashes f -> exists data, answer h = Ok data /\ chunkHashMatches data h = true) ->
  forall (fs pre : list ContentFileEntry) (d : files), l = pre ++ fs -> exists d', sync_files dir prev e fs (length pre) true d = (Some true, d').
Proof.
  intros Hu Ha. induction fs as [|f fs IH]; intros pre d El; cbn [sync_files]; [by eexists|].
  assert (l !! length pre = Some f) as Hf by (rewrite El; by apply list_lookup_middle).
  pose proof Hu as [_ Hu']. destruct (Hu' _ _ Hf) as (-> & _).
  assert (S (length pre) = length (pre ++ [f])) as -> by (rewrite length_app; cbn; lia).
  assert (l = (pre ++ [f]) ++ fs) as El' by (by rewrite <- app_assoc).
  fold (unchanged prev f). destruct (unchanged prev f); [by apply IH|].
  pose proof (syncs_file answer dir f e l (length pre) d Hu Hf ltac:(intros h Hh; eapply Ha; [|exact Hh]; by eapply list_elem_of_lookup_2)) as Hg.
  destruct (syncFile dir f (se_file e (length pre)) d) as [good d1]. cbn [fst] in Hg. subst good. by apply IH.
Qed.

(** What a chunk request brings, as the relay passes it on. *)
Definition of_reply (r : reply) : res bytes := match r with HttpOK b => Ok b | HttpError _ _ => Err "status" end.

Lemma chunk_answered (token : gostring) (found : res (option Node)) (n : Node) (cdir : content_dir) (now : Z) (state : gostring) (text : bytes)
    (l : list ContentFileEntry) (ix : gmap gostring chunkLocation) (f : ContentFileEntry) (h : gostring) :
  node_caller token found [bs "control"; bs "exit"] = inl n -> dirFingerprint (cd_infos cdir) = Ok state ->
  good_walk (cd_walk cdir) -> still (cd_walk cdir) (cd_now cdir) -> buildContentFileList (cd_walk cdir) = Ok (l, ix) -> f ∈ l -> h ∈ hashes f ->
  exists data, of_reply (apiContentChunk token found (Some cdir) now h (MkCache (Some text) state ix)).1 = Ok data /\ chunkHashMatches data h = true.
Proof.
  intros Hn Hst Hg Hs Hb Hf Hh. unfold apiContentChunk, content_request, ensureFresh. rewrite Hn, Hst. cbn [mbind res_bind raw dirState].
  rewrite bool_decide_eq_true_2 by done. cbn [fst chunkIndex]. pose proof (build_spec _ _ _ Hb Hg) as (_ & _ & _ & Hout).
  destruct (Hout f Hf) as (data & Hw & Ef). rewrite Ef, entry_hashes in Hh. pose proof Hh as (c & -> & Hc)%list_elem_of_fmap.
  unfold buildContentFileList in Hb. destruct (walk_files (cd_walk cdir) ∅) as [[l' ix']| |] eqn:Ew; try done. cbn [mbind res_bind] in Hb.
  assert (ix' = ix) as -> by congruence. destruct (walk_index (cd_now cdir) _ _ _ _ Ew Hs) as [Hl Hd]; [by intros ? ?; rewrite lookup_empty|].
  unfold chunk_hash at 1. rewrite lower_hex by apply sha256_bytes. fold (chunk_hash c).
  destruct (Hd (chunk_hash c)) as [loc Hloc]; [right; by eauto|]. rewrite Hloc. destruct (Hl _ _ Hloc) as (x & -> & _ & _ & _ & Hx).
  eexists. split; [reflexivity|]. unfold chunkHashMatches. apply bool_decide_eq_true. unfold chunk_hash at 1. rewrite lower_hex by apply sha256_bytes.
  exact Hx.
Qed.

Lemma sync_ends (answer : gostring -> res bytes) (dir : list gostring) (text : bytes) (sm : signedContentManifest) (l : list ContentFileEntry)
    (e : sync_env) (d : files) : default [] (c_Files sm) = l -> undisturbed answer e l ->
  (forall f h, f ∈ l -> h ∈ hashes f -> exists data, answer h = Ok data /\ chunkHashMatches data h = true) ->
  exists d', sync dir text sm e d = (Some (buildChunkIndex dir l), d').
Proof.
  intros El Hu Ha. unfold sync. rewrite El.
  destruct (sync_files_ends answer dir (loadPrevFileList dir d) e l Hu Ha l []
    (delete_missing dir (loadPrevFileList dir d) (by_path l) (se_remove e) d) eq_refl) as [d2 E].
  cbn [length] in E. rewrite E. destruct Hu as [-> _]. by eexists.
Qed.


(** A run that failed on a file still leaves its manifest as the state file, so that the next
    version with the same chunks passes over the file and is announced as complete. *)
Theorem incomplete_mirror_announced (dir : list gostring) (raw1 raw2 : bytes) (sm1 sm2 : signedContentManifest) (f : ContentFileEntry) (e1 e2 : sync_env) :
  Unmarshal dec_content zero_content raw1 = Some sm1 -> c_Files sm1 = Some [f] -> c_Files sm2 = Some [f] ->
  se_superseded e1 0%nat = false -> se_end e1 = false -> se_state e1 = None -> fe_mkdir (se_file e1 0%nat) = false ->
  se_superseded e2 0%nat = false -> se_end e2 = false ->
  exists d1, sync dir raw1 sm1 e1 ∅ = (None, d1) /\ exists idx d2, sync dir raw2 sm2 e2 d1 = (Some idx, d2) /\
    (Join dir (Path f) <> statePath dir -> d2 !! Join dir (Path f) = None).
Proof.
  intros Hu E1 E2 S1 N1 W1 M1 S2 N2.
  assert (sync dir raw1 sm1 e1 ∅ = (None, {[statePath dir := raw1]})) as Hs.
  { unfold sync. rewrite E1. change (default [] (Some [f])) with [f]. unfold loadPrevFileList. rewrite lookup_empty. cbn [sync_files]. rewrite S1. unfold delete_missing.
    rewrite map_to_list_empty. cbn [foldl]. rewrite lookup_empty. unfold syncFile. rewrite M1. cbn [negb orb andb]. by rewrite N1, W1. }
  eexists. split; [exact Hs|].
  assert (by_path [f] = {[Path f := f]}) as Hby by done.
  assert (loadPrevFileList dir {[statePath dir := raw1]} = {[Path f := f]}) as Hp.
  { unfold loadPrevFileList. by rewrite lookup_singleton_eq, Hu, E1. }
  unfold sync. rewrite E2, Hp. change (default [] (Some [f])) with [f]. rewrite Hby. unfold delete_missing. rewrite map_to_list_singleton. cbn [foldl fst].
  rewrite lookup_singleton_eq. cbn [sync_files]. rewrite S2, lookup_singleton_eq. unfold sameChunks. rewrite bool_decide_eq_true_2 by done. rewrite N2.
  eexists _, _. split; [reflexivity|]. intros Hne. destruct (se_state e2) as [[b|]|];
    rewrite ?lookup_insert_ne by congruence; by apply lookup_singleton_ne.
Qed.
End mirror.

(** ** Examples *)

(** A directory with one file, and a hash that tells its only chunk from everything else. *)
Definition ex_chunk : bytes := bs "hello".
#[local] Instance ex_sha256 : Sha256.
Proof.
  refine {| sha256 m := replicate 32 (if decide (m = ex_chunk) then 1 else 0) |}; [done|].
  intros m. destruct (decide _); by apply (bool_decide_unpack _).
Defined.
Definition ex_walk : list (gostring * res bytes) := [(bs "a.txt", Ok ex_chunk)].
Definition ex_list : list ContentFileEntry := [content_entry (bs "a.txt") ex_chunk].
Definition ex_version : document := DContent 1700000000 (slice_of ex_list).
#[local] Existing Instance only_ed25519 | 0.
Definition ex_manifest : bytes := match signed_text (SK := only_key ex_version) ex_version [] with Ok d => d | _ => [] end.
Definition ex_mirror : MirrorManager := MkMirror (Some (replicate 32 7)) 0 0 ∅.
Definition ex_run : sync_env :=
  MkSyncEnv (fun _ => false) (fun _ => MkFileEnv true true (fun _ => MkChunkEnv false [Ok (Some (bs "forged")); Err "gone"] (Some (Ok ex_chunk)) true) true true)
    false (fun _ => true) None.
Definition ex_home : list gostring := [bs "data"].

Lemma ex_good_walk : good_walk ex_walk.
Proof.
  split; [by apply (bool_decide_unpack _)|]. constructor; [|constructor]. split.
  - split_and!; [|intros x|done].
    + change (elements (bs "a.txt")) with [bs "a.txt"]. constructor; [by split_and!|constructor].
    + change (last (elements (bs "a.txt"))) with (Some (bs "a.txt")). intros [= E]. apply (f_equal reverse) in E. rewrite reverse_app in E. done.
  - intros data [= <-]. split; [|by vm_compute]. intros c x Hc. change (chunks_of ex_chunk) with [ex_chunk] in Hc.
    apply list_elem_of_singleton in Hc as ->. cbn [sha256 ex_sha256]. rewrite (decide_True _ _ (eq_refl ex_chunk)). by destruct (decide (x = ex_chunk)).
Qed.
(** An equation between closed terms, decided by evaluation. *)
Ltac evaluates := match goal with |- _ = ?r => vm_cast_no_check (eq_refl r) end.

Definition ex_index : gmap gostring chunkLocation := match buildContentFileList ex_walk with Ok (_, idx) => idx | _ => ∅ end.
Lemma ex_built : buildContentFileList ex_walk = Ok (ex_list, ex_index).
Proof. evaluates. Qed.
Lemma ex_version_unforged : @unforged _ (only_ed25519 ex_version) (only_key ex_version) (only_issued ex_version) only_known.
Proof.
  apply only_unforged; [|done]. eapply walk_doc_ok; [exact ex_built | exact ex_good_walk |]. by apply (bool_decide_unpack _).
Qed.
Definition ex_received : signedContentManifest := MkContent (bs "content") 1700000000 (slice_of ex_list) (Base64.encode (replicate 64 1)).
Definition ex_after : gmap (list gostring) bytes := {[statePath ex_home := ex_manifest; Join ex_home (bs "a.txt") := ex_chunk]}.

Lemma ex_from_walks : from_walks (only_issued ex_version) (fun _ w => w = ex_walk).
Proof.
  intros ts fs E. unfold only_issued, ex_version in E. assert (fs = slice_of ex_list) as -> by congruence.
  exists ex_walk, ex_list, ex_index. split_and!; [done | exact ex_good_walk | exact ex_built | done].
Qed.


(** A run that is superseded after it has replaced a file leaves the old state file: when the next
    version has the old file again, it is passed over, and the version is announced as complete
    with the other content on disk. *)
Definition other_chunk : bytes := bs "other".
Definition between : signedContentManifest :=
  MkContent (bs "content") 1700000001 (Some [content_entry (bs "a.txt") other_chunk; content_entry (bs "b.txt") ex_chunk]) [].
Definition back_again : signedContentManifest := MkContent (bs "content") 1700000002 (slice_of ex_list) [].
Definition superseded_run : sync_env :=
  MkSyncEnv (fun i => (i =? 1)%nat) (fun _ => MkFileEnv true true (fun _ => MkChunkEnv false [] (Some (Ok other_chunk)) true) true true)
    false (fun _ => true) None.
Theorem superseded_run_spoils :
  let r1 := sync ex_home [] between superseded_run ex_after in
  let r2 := sync ex_home [] back_again ex_run r1.2 in
  r1.1 = None /\ (if r2.1 is Some _ then true else false) = true
  /\ r2.2 !! Join ex_home (bs "a.txt") = Some other_chunk /\ ex_walk = [(bs "a.txt", Ok ex_chunk)].
Proof. cbv zeta. split_and!; evaluates. Qed.

(** The same directory from the arbiter's first request on. *)
Definition ex_content_dir : content_dir :=
  MkDir (Ok [(bs "a.txt", 5, 1690000000000000000)]) ex_walk (fun p => if decide (p = bs "a.txt") then Some ex_chunk else None).
Definition ex_control : Node := MkNode (bs "control") (bs "10.0.0.1:443") [] Float.f0 Float.f0 None [] [] false.

End Mirror.
