(* ===== verification/Effects.v ===== *)
(** * Programs that run beside each other on a shared store

    The arbiter's request handlers run in goroutines and meet only in the database,
    whose statements are atomic. A handler is a tree of operations ([prog]): a
    statement, a clock reading, a call of another service, and for every answer what
    the handler does next. [exec] gives the operations their meaning on a state, with
    everything the environment chooses (faults, times, random bytes, replies) in an
    environment value; [E] says which environments may occur. [wp] is what a handler
    does when others interfere between its operations within a rely relation;
    [sreach_inv] turns it into an invariant of every interleaving of any number of
    handlers. *)

From stdpp Require Import base list.
From Stdlib Require Import Lia.
From S2P Require Import Prelude.

Module Effects.

Inductive prog {Op : Type} (Resp : Op -> Type) (A : Type) : Type :=
| Ret (a : A)
| Do (o : Op) (k : Resp o -> prog Resp A).
Arguments Ret {Op Resp A} a.
Arguments Do {Op Resp A} o k.

Section prog.
Context {Op : Type} {Resp : Op -> Type}.

Fixpoint bind {A B} (f : A -> prog Resp B) (p : prog Resp A) : prog Resp B :=
  match p with
  | Ret a => f a
  | Do o k => Do o (fun r => bind f (k r))
  end.

#[export] Instance prog_ret : MRet (prog Resp) := fun _ => Ret.
#[export] Instance prog_bind : MBind (prog Resp) := fun _ _ => bind.

(** One operation. *)
Definition call (o : Op) : prog Resp (Resp o) := Do o Ret.

(** A program run for its effects. *)
Definition forget {A} (p : prog Resp A) : prog Resp unit := bind (fun _ => Ret ()) p.

Section exec.
Context {St Env : Type} (exec : Env -> forall o : Op, St -> Resp o * St) (E : Env -> Op -> St -> Prop).

(** Run alone, the [n]-th operation in the environment [es n]. *)
Fixpoint run {A} (es : nat -> Env) (n : nat) (p : prog Resp A) (s : St) : A * St :=
  match p with
  | Ret a => (a, s)
  | Do o k => let (r, s') := exec (es n) o s in run es (S n) (k r) s'
  end.

Section wp.
Context (R G : St -> St -> Prop).

(** In environments of [E] and with interference within [R] before each operation,
    every operation keeps to [G], and at the end [Q] holds. *)
Fixpoint wp {A} (p : prog Resp A) (s : St) (Q : A -> St -> Prop) : Prop :=
  match p with
  | Ret a => Q a s
  | Do o k => forall s1, R s s1 -> forall e, E e o s1 ->
      let (r, s2) := exec e o s1 in G s1 s2 /\ wp (k r) s2 Q
  end.

Lemma wp_mono {A} (p : prog Resp A) s (P Q : A -> St -> Prop) :
  wp p s P -> (forall a s', P a s' -> Q a s') -> wp p s Q.
Proof.
  revert s. induction p as [a|o k IH]; intros s H HPQ; [by apply HPQ|].
  intros s1 Hr e He. specialize (H s1 Hr e He). destruct (exec e o s1) as [r s2].
  destruct H as [Hg H]. split; [done|]. by apply IH.
Qed.

Lemma wp_bind {A B} (p : prog Resp A) (f : A -> prog Resp B) s Q :
  wp p s (fun a s' => wp (f a) s' Q) -> wp (bind f p) s Q.
Proof.
  revert s. induction p as [a|o k IH]; intros s H; [done|].
  intros s1 Hr e He. specialize (H s1 Hr e He). destruct (exec e o s1) as [r s2].
  destruct H as [Hg H]. split; [done|]. by apply IH.
Qed.

(** A program's state may be moved along the rely when it does not look at it before. *)
Lemma wp_rely {A} (p : prog Resp A) s s' Q :
  (forall a b c, R a b -> R b c -> R a c) ->
  (forall a x y, Q a x -> R x y -> Q a y) -> R s s' -> wp p s Q -> wp p s' Q.
Proof.
  intros Ht Hq Hr. destruct p as [a|o k]; [by intros H; eapply Hq|].
  intros H s1 H1 e He. exact (H s1 (Ht _ _ _ Hr H1) e He).
Qed.
End wp.

(** Alone, [run] does what [wp] says of it. *)
Lemma wp_run {A} es n (p : prog Resp A) s Q :
  (forall i o s, E (es i) o s) -> wp eq (fun _ _ => True) p s Q -> let (a, s') := run es n p s in Q a s'.
Proof.
  intros He. revert n s. induction p as [a|o k IH]; intros n s H; [done|].
  simpl. specialize (H s eq_refl (es n) (He n o s)). destruct (exec (es n) o s) as [r s2].
  destruct H as [_ H]. by apply IH.
Qed.

(** ** Any number of programs, in any order *)

Record system := MkSystem { shared : St; threads : list (prog Resp unit) }.

Inductive sstep (start : prog Resp unit -> Prop) : system -> system -> Prop :=
| step_spawn s ts p : start p -> sstep start (MkSystem s ts) (MkSystem s (ts ++ [p]))
| step_thread s ts i o k e : ts !! i = Some (Do o k) -> E e o s ->
    sstep start (MkSystem s ts)
      (MkSystem (exec e o s).2 (<[i := k (exec e o s).1]> ts)).

Inductive sreach (start : prog Resp unit -> Prop) (s0 : St) : system -> Prop :=
| reach_init : sreach start s0 (MkSystem s0 [])
| reach_step y y' : sreach start s0 y -> sstep start y y' -> sreach start s0 y'.

(** One program run from its start to its end, with nothing in between. *)
Fixpoint run_ok {A} (es : nat -> Env) (n : nat) (p : prog Resp A) (s : St) : Prop :=
  match p with
  | Ret _ => True
  | Do o k => E (es n) o s /\ run_ok es (S n) (k (exec (es n) o s).1) (exec (es n) o s).2
  end.

Lemma reach_thread start s0 es n (p : prog Resp unit) s ts :
  run_ok es n p s -> sreach start s0 (MkSystem s (ts ++ [p])) ->
  sreach start s0 (MkSystem (run es n p s).2 (ts ++ [Ret ()])).
Proof.
  revert n s. induction p as [[]|o k IH]; intros n s Hok Hr; [done|]. destruct Hok as [He Hok].
  simpl. destruct (exec (es n) o s) as [r s2] eqn:Ex. apply IH; [done|].
  eapply reach_step; [exact Hr|].
  pose proof (step_thread start s (ts ++ [Do o k]) (length ts) o k (es n)) as Hs.
  rewrite Ex in Hs. simpl in Hs. rewrite insert_app_r_alt in Hs by lia. rewrite Nat.sub_diag in Hs.
  apply Hs; [|done]. rewrite lookup_app_r by lia. by rewrite Nat.sub_diag.
Qed.

Lemma reach_run start s0 es n (p : prog Resp unit) s ts :
  start p -> run_ok es n p s -> sreach start s0 (MkSystem s ts) ->
  sreach start s0 (MkSystem (run es n p s).2 (ts ++ [Ret ()])).
Proof.
  intros Hs Hok Hr. apply reach_thread; [done|]. eapply reach_step; [exact Hr|]. by constructor.
Qed.

Section invariant.
Context (Inv : St -> Prop) (le : St -> St -> Prop).
Context (le_refl : forall s, le s s) (le_trans : forall a b c, le a b -> le b c -> le a c).

(** The others keep the invariant and move the state up. *)
Definition rely (s s' : St) : Prop := le s s' /\ Inv s'.

(** What a handler must show: each of its own operations does the same. *)
Definition keeps {A} (p : prog Resp A) (s : St) (Q : A -> St -> Prop) : Prop :=
  wp rely rely p s Q.

Lemma keeps_call {A} (o : Op) (k : Resp o -> prog Resp A) s Q :
  (forall s1 e, le s s1 -> Inv s1 -> E e o s1 ->
     rely s1 (exec e o s1).2 /\ keeps (k (exec e o s1).1) (exec e o s1).2 Q) ->
  keeps (Do o k) s Q.
Proof.
  intros H s1 [H1 H2] e He. specialize (H s1 e H1 H2 He). by destruct (exec e o s1).
Qed.

Theorem sreach_inv start s0 y :
  Inv s0 -> (forall p s, start p -> Inv s -> keeps p s (fun _ _ => True)) -> sreach start s0 y ->
  Inv (shared y) /\
  Forall (fun p => exists s, le s (shared y) /\ keeps p s (fun _ _ => True)) (threads y).
Proof.
  intros H0 Hs. induction 1 as [|y y' _ [Hi Hts] Hst]; [by split|].
  destruct Hst as [s ts p Hp|s ts i o k e Hk He]; simpl in *.
  - split; [done|]. apply Forall_app. split; [done|]. constructor; [|constructor].
    exists s. split; [done|]. by apply Hs.
  - pose proof (proj1 (Forall_lookup _ _) Hts _ _ Hk) as (s1 & Hle & Hw).
    specialize (Hw s (conj Hle Hi) e He). destruct (exec e o s) as [r s2]. simpl.
    destruct Hw as [[Hle2 Hi2] Hw]. split; [done|].
    apply Forall_insert.
    + eapply Forall_impl; [exact Hts|]. intros p (s3 & H3 & Hp). exists s3. split; [by eapply le_trans|done].
    + exists s2. by split.
Qed.
End invariant.
End exec.
End prog.
#[export] Existing Instances prog_ret prog_bind.
End Effects.
Export Effects.
