(* ===== verification/ArbiterStore.v ===== *)
(** * snc-arbiter: the database and the services its handlers call
    (src/snc-arbiter/db.go, db_keys.go, db_clubs.go)

    The tables of users, sessions, keys, nodes, traffic and clubs, and the methods of [DB] on
    users, sessions, keys and settings as programs ([Effects]): each SQL statement is one atomic operation, and between two
    statements other requests run. The engine may fail a statement, or apply it and
    lose the reply; it chooses the order of rows nobody ordered. The other operations
    are the clock, sleeping, crypto/rand, and the two commands of the account service
    Camerlengo that sessions depend on. The world carries three records that no code
    reads: the passwords Camerlengo accepted, the times it was asked about a session,
    and the tokens that ever had a session. *)

From stdpp Require Import base list gmap strings fin_maps.
From Stdlib Require Import ZArith Lia.
From S2P Require Import Prelude GoLib GoFloat Effects.

Module Store.

(** ** Tables *)

(** users: id, username (unique), role, client_id, user_enabled, and the two log
    upload switches. *)
Record user_row := MkUserRow {
  u_id : Z; u_username : gostring; u_role : gostring; u_client_id : gostring;
  u_enabled : bool; u_log_upload : bool; u_log_admin_off : bool }.

(** sessions, keyed by token; times are Unix seconds. *)
Record session_row := MkSessionRow {
  s_token : gostring; s_username : gostring; s_client_id : gostring;
  s_device_id : gostring; s_device_name : gostring;
  s_enc_password : bytes; s_cam_session : gostring; s_validated_at : Z; s_last_attempt : Z }.

(** keys, keyed by key_id; [None] is NULL. *)
Record key_row := MkKeyRow {
  k_key_id : gostring; k_username : gostring; k_device_id : option gostring; k_device_name : option gostring;
  k_enabled : bool; k_issued_at : Z; k_bound_at : Z; k_last_seen : Z; k_paid_until : option Z; k_plan_pia : Z;
  k_reminder_sent : Z; k_duration : Z; k_unlimited : bool; k_source : gostring;
  k_warn_count : Z; k_last_warned : Z }.

(** nodes: what a heartbeat reports, what administrators set for the manifest, and the
    hosting data; the time of submission is left out. *)
Record node_report := MkReport {
  rp_fingerprint : gostring; rp_rtt_ms : Float.float64; rp_bandwidth : Float.float64;
  rp_data_plane_ok : option bool; rp_capabilities : gostring }.
Record node_policy := MkPolicy {
  po_region_override : gostring; po_sni_list : gostring; po_pinned : bool; po_club_id : option Z; po_load : Float.float64 }.
Record node_hosting := MkHosting {
  ho_pubkey : gostring; ho_description : gostring; ho_location : gostring; ho_provider : gostring;
  ho_node_uid : gostring; ho_slug : option gostring; ho_instance : option gostring;
  ho_ssh_host : gostring; ho_ssh_user : gostring; ho_deploy_status : gostring; ho_deploy_log : gostring }.
Record node_row := MkNodeRow {
  nd_id : Z; nd_owner : Z; nd_type : gostring; nd_addr : gostring;
  nd_token : option gostring; nd_status : gostring; nd_approved_at : option Z; nd_heartbeat : option Z;
  nd_report : node_report; nd_policy : node_policy; nd_hosting : node_hosting }.

(** node_traffic with the counters of a sample, and node_counter_state by node. A row that was
    deleted stays in the list with [tr_kept] off, as the history of what was recorded; queries see
    the rows kept. *)
Record traffic_row := MkTraffic { tr_node : Z; tr_ts : Z; tr_raw : Z; tr_cum : Z; tr_type : gostring; tr_kept : bool }.
Record counter_state := MkCounter { co_offset : Z; co_last_raw : Z }.

(** clubs, and the append-only club_membership_events in the order of their ids; the times
    of creation are left out. *)
Record club_row := MkClubRow {
  cl_id : Z; cl_slug : gostring; cl_name : gostring; cl_cat : Z; cl_elite : Z; cl_subsumes : option Z; cl_key : gostring }.
Inductive event_kind := EvInvite | EvRecommendation | EvGranted | EvRevoked.
Record event_row := MkEvent {
  ev_club : Z; ev_target : Z; ev_kind : event_kind; ev_actor : option Z; ev_number : option Z }.

(** A table of addresses (blacklist_entries, torrent_blocked_entries, excluded_nodes) or
    rules: the rows in the order of their ids, and the next id. *)
Record list_table (A : Type) := MkList { lt_rows : list (Z * A); lt_next : Z }.
Arguments MkList {A} _ _.
Arguments lt_rows {A} _.
Arguments lt_next {A} _.

(** The tables that sessions do not depend on. *)
Record rest := MkRest {
  r_nodes : list node_row;
  r_next_node : Z;
  r_traffic : list traffic_row;
  r_counters : gmap Z counter_state;
  r_rotations : list (Z * Z * gostring * gostring * gostring);
  r_blacklist : list_table (gostring * gostring);
  r_torrents : list_table (gostring * gostring);
  r_clubs : list club_row;
  r_events : list event_row }.
Definition no_rest : rest := MkRest [] 1 [] ∅ [] (MkList [] 1) (MkList [] 1) [] [].

Record tables := MkTables {
  t_users : gmap gostring user_row;
  t_next_id : Z;
  t_sessions : gmap gostring session_row;
  t_keys : gmap gostring key_row;
  t_settings : gmap gostring gostring;
  t_rest : rest }.

Definition no_rows : tables := MkTables ∅ 1 ∅ ∅ ∅ no_rest.
Definition set_rest (f : rest -> rest) (t : tables) : tables :=
  MkTables (t_users t) (t_next_id t) (t_sessions t) (t_keys t) (t_settings t) (f (t_rest t)).

(** ** Operations *)

(** The answer of Camerlengo's user:verify. *)
Record verifyReply := MkReply { Status : gostring; ErrCode : gostring; Reason : gostring; ReplySession : gostring }.

Inductive Op : Type :=
| Sql (A : Type) (q : (nat -> nat) -> tables -> res A * tables)
| TimeNow
| Sleep (d : Z)
| RandRead (n : nat)
| CamVerify (user password : gostring)
| CamSessionUser (session : gostring).

Definition Resp (o : Op) : Type :=
  match o with
  | Sql A _ => res A
  | TimeNow => Z
  | Sleep _ => unit
  | RandRead _ => res bytes
  | CamVerify _ _ => res verifyReply
  | CamSessionUser _ => res gostring
  end.

Abbreviation M := (prog Resp).

(** What happens to a statement, and everything else the environment decides. *)
Inductive fault := Done | Failed | ReplyLost.
Record Env := MkEnv {
  e_delay : Z;                  (* time that passes before the operation *)
  e_sql : fault;
  e_order : nat -> nat;         (* order of unordered rows *)
  e_rand : option bytes;
  e_verify : option verifyReply;
  e_user : option gostring }.

Record world := MkWorld {
  db : tables;
  clock : Z;
  accepted : list (gostring * gostring);
  asked : list Z;
  born : gset gostring }.

Definition with_db (t : tables) (w : world) : world := MkWorld t (clock w) (accepted w) (asked w) (dom (t_sessions t) ∪ born w).
Definition tick (d : Z) (w : world) : world := MkWorld (db w) (clock w + Z.max 0 d) (accepted w) (asked w) (born w).

(** Camerlengo lets a password in when it names a session and no error. *)
Definition lets_in (r : verifyReply) : bool :=
  bool_decide (Status r <> bs "error") && bool_decide (ReplySession r <> []).

Definition exec (e : Env) (o : Op) (w0 : world) : Resp o * world :=
  let w := tick (e_delay e) w0 in
  match o return Resp o * world with
  | Sql A q =>
      let (r, t) := q (e_order e) (db w) in
      match e_sql e with
      | Done => (r, with_db t w)
      | Failed => (Err "sql", w)
      | ReplyLost => (Err "sql", with_db t w)
      end
  | TimeNow => (clock w, w)
  | Sleep d => ((), tick d w)
  | RandRead n => match e_rand e with Some b => (Ok (resize n 0 (map u8 b)), w) | None => (Err "rand", w) end
  | CamVerify user password =>
      match e_verify e with
      | Some r => (Ok r, if lets_in r then MkWorld (db w) (clock w) ((user, password) :: accepted w) (asked w) (born w) else w)
      | None => (Err "user:verify", w)
      end
  | CamSessionUser _ =>
      (match e_user e with Some u => Ok u | None => Err "user:getSessionUser" end,
       MkWorld (db w) (clock w) (accepted w) (clock w :: asked w) (born w))
  end.

(** A statement that cannot violate a constraint. *)
Definition sql {A} (q : (nat -> nat) -> tables -> A * tables) : M (res A) :=
  call (Sql A (fun o t => let (a, t') := q o t in (Ok a, t'))).
Definition select {A} (q : (nat -> nat) -> tables -> A) : M (res A) := sql (fun o t => (q o t, t)).
Definition update (f : tables -> tables) : M (res unit) := sql (fun _ t => ((), f t)).

(** [time.Now()] *)
Definition now : M Z := call TimeNow.

(** ** Sessions (db.go) *)

Record Session := MkSession {
  Token : gostring; Username : gostring; ClientID : gostring; DeviceID : gostring; DeviceName : gostring;
  EncPassword : bytes; CamSession : gostring; ValidatedAt : Z; LastAttempt : Z }.

Definition scan_session (r : session_row) : Session :=
  MkSession (s_token r) (s_username r) (s_client_id r) (s_device_id r) (s_device_name r) (s_enc_password r)
    (s_cam_session r) (time_Unix (s_validated_at r)) (time_Unix (s_last_attempt r)).

Definition set_sessions (f : gmap gostring session_row -> gmap gostring session_row) (t : tables) : tables :=
  MkTables (t_users t) (t_next_id t) (f (t_sessions t)) (t_keys t) (t_settings t) (t_rest t).

(** INSERT without a conflict clause: a second row for a token is an error. *)
Definition createSession (token username clientID deviceID deviceName : gostring) (encPwd : bytes)
    (camSession : gostring) (at_ : Z) : M (res unit) :=
  call (Sql unit (fun _ t =>
    match t_sessions t !! token with
    | Some _ => (Err "unique", t)
    | None => (Ok (), set_sessions (insert token
        (MkSessionRow token username clientID deviceID deviceName encPwd camSession
           (time_seconds at_) (time_seconds at_))) t)
    end)).

Definition getSession (token : gostring) : M (res (option Session)) :=
  select (A := option Session) (fun _ t => scan_session <$> t_sessions t !! token).

(** ORDER BY validated_at DESC LIMIT 1: among equal times, the engine's first. *)
Definition later_row (best : option session_row) (r : session_row) : option session_row :=
  match best with
  | Some b => if s_validated_at b <? s_validated_at r then Some r else Some b
  | None => Some r
  end.
Definition recent_row (username : gostring) (o : nat -> nat) (t : tables) : option session_row :=
  fold_left later_row
    (List.filter (fun r => bool_decide (s_username r = username) && bool_decide (s_cam_session r <> []))
       (map snd (Rand.range_map o (t_sessions t)))) None.
Definition getRecentSessionByUsername (username : gostring) : M (res (option Session)) :=
  select (A := option Session) (fun o t => scan_session <$> recent_row username o t).

Definition updateCamSession (token camSession : gostring) (at_ : Z) : M (res unit) :=
  update (set_sessions (alter (fun r =>
    MkSessionRow (s_token r) (s_username r) (s_client_id r) (s_device_id r) (s_device_name r) (s_enc_password r)
      camSession (time_seconds at_) (time_seconds at_)) token)).

Definition touchLastAttempt (token : gostring) (at_ : Z) : M (res unit) :=
  update (set_sessions (alter (fun r =>
    MkSessionRow (s_token r) (s_username r) (s_client_id r) (s_device_id r) (s_device_name r) (s_enc_password r)
      (s_cam_session r) (s_validated_at r) (time_seconds at_)) token)).

Definition touchSession (token : gostring) (at_ : Z) : M (res unit) :=
  update (set_sessions (alter (fun r =>
    MkSessionRow (s_token r) (s_username r) (s_client_id r) (s_device_id r) (s_device_name r) (s_enc_password r)
      (s_cam_session r) (time_seconds at_) (s_last_attempt r)) token)).

Definition deleteSession (token : gostring) : M (res unit) := update (set_sessions (delete token)).

Definition listSessions : M (res (list Session)) :=
  select (fun o t => map (fun kr => scan_session kr.2) (Rand.range_map o (t_sessions t))).

(** ** Users (db.go) *)

Record User := MkUser { ID : Z; UserName : gostring; Role : gostring; UserClientID : gostring }.
Definition scan_user (u : user_row) : User := MkUser (u_id u) (u_username u) (u_role u) (u_client_id u).

Definition set_users (f : gmap gostring user_row -> gmap gostring user_row) (t : tables) : tables :=
  MkTables (f (t_users t)) (t_next_id t) (t_sessions t) (t_keys t) (t_settings t) (t_rest t).

Definition findUser (username : gostring) : M (res (option User)) :=
  select (A := option User) (fun _ t => scan_user <$> t_users t !! username).

(** INSERT INTO users ... ON CONFLICT(username) DO NOTHING; the other columns get
    their defaults. *)
Definition insert_user (username role clientID : gostring) (t : tables) : tables :=
  match t_users t !! username with
  | Some _ => t
  | None => MkTables (<[username := MkUserRow (t_next_id t) username role clientID true true false]> (t_users t))
              (t_next_id t + 1) (t_sessions t) (t_keys t) (t_settings t) (t_rest t)
  end.

Definition set_client_id (cid : gostring) (id : Z) : tables -> tables :=
  set_users (fmap (fun u => if u_id u =? id
    then MkUserRow (u_id u) (u_username u) (u_role u) cid (u_enabled u) (u_log_upload u) (u_log_admin_off u) else u)).

Definition genClientID : M (res gostring) :=
  b ← call (RandRead 12); Ret (b ← b; Ok (bs "clt_" ++ Hex.encode b)).

Definition getOrCreateUser (username : gostring) : M (res User) :=
  u ← findUser username;
  match u with
  | Ok (Some u) =>
      if decide (UserClientID u = []) then
        cid ← genClientID;
        match cid with
        | Ok cid => update (set_client_id cid (ID u)) ≫= fun _ =>
                    Ret (Ok (MkUser (ID u) (UserName u) (Role u) cid))
        | _ => Ret (Ok u)
        end
      else Ret (Ok u)
  | Ok None =>
      count ← select (fun _ t => Z.of_nat (size (t_users t)));
      let count := match count with Ok n => n | _ => 0 end in
      let role := if count =? 0 then bs "admin" else bs "user" in
      cid ← genClientID;
      match cid with
      | Ok cid =>
          r ← update (insert_user username role cid);
          match r with
          | Ok _ =>
              u ← findUser username;
              Ret (match u with
                   | Ok (Some u) => Ok u
                   | Ok None => Err "read back created user: no rows"
                   | Err e => Err e
                   | Panic => Panic
                   end)
          | Err e => Ret (Err e)
          | Panic => Ret Panic
          end
      | Err e => Ret (Err e)
      | Panic => Ret Panic
      end
  | Err e => Ret (Err e)
  | Panic => Ret Panic
  end.

Definition genToken : M (res gostring) :=
  b ← call (RandRead 32); Ret (b ← b; Ok (Base64.encode b)).

Definition IsUserEnabled (username : gostring) : M (res bool) :=
  r ← select (A := option bool) (fun _ t => u_enabled <$> t_users t !! username);
  Ret (r ← r; Ok (default true r)).

Definition SetUserEnabled (username : gostring) (enabled : bool) : M (res unit) :=
  update (set_users (alter (fun u =>
    MkUserRow (u_id u) (u_username u) (u_role u) (u_client_id u) enabled (u_log_upload u) (u_log_admin_off u)) username)).

(** ** Log upload switches (db.go) *)

Definition logUploadGlobalSetting : gostring := bs "log_upload_global_enabled".

(** The value, and whether there is one. *)
Definition getSetting (key : gostring) : M (res (option gostring)) :=
  select (A := option gostring) (fun _ t => t_settings t !! key).
Definition setSetting (key value : gostring) : M (res unit) :=
  update (fun t => MkTables (t_users t) (t_next_id t) (t_sessions t) (t_keys t) (<[key := value]> (t_settings t)) (t_rest t)).

Definition globalLogUploadEnabled : M bool :=
  r ← getSetting logUploadGlobalSetting;
  Ret (match r with Ok (Some v) => bool_decide (v <> bs "0") | _ => true end).
Definition setGlobalLogUploadEnabled (enabled : bool) : M (res unit) :=
  setSetting logUploadGlobalSetting (if enabled then bs "1" else bs "0").

Definition userLogUploadPrefs (username : gostring) : M (bool * bool) :=
  if decide (username = []) then Ret (true, false)
  else
    r ← select (A := option (bool * bool)) (fun _ t => (fun u => (u_log_upload u, u_log_admin_off u)) <$> t_users t !! username);
    Ret (match r with Ok (Some p) => p | _ => (true, false) end).
Definition setUserLogUploadEnabled (username : gostring) (enabled : bool) : M (res unit) :=
  update (set_users (alter (fun u =>
    MkUserRow (u_id u) (u_username u) (u_role u) (u_client_id u) (u_enabled u) enabled (u_log_admin_off u)) username)).
Definition setUserLogUploadAdminDisabled (username : gostring) (disabled : bool) : M (res unit) :=
  update (set_users (alter (fun u =>
    MkUserRow (u_id u) (u_username u) (u_role u) (u_client_id u) (u_enabled u) (u_log_upload u) disabled) username)).

Definition logUploadAllowed (username : gostring) : M bool :=
  g ← globalLogUploadEnabled;
  if negb g then Ret false
  else if decide (username = []) then Ret true
  else p ← userLogUploadPrefs username; Ret (p.1 && negb p.2).

(** ** Keys (db_keys.go) *)

Record KeyRow := MkKey {
  KeyID : gostring; KeyUsername : gostring; KeyDeviceID : gostring; KeyDeviceName : gostring; Enabled : bool;
  IssuedAt : Z; BoundAt : Z; LastSeen : Z; PaidUntil : option Z; PlanPia : Z; ReminderSent : Z;
  PreferredDurationDays : Z; UnlimitedDevices : bool }.

Definition scan_key (k : key_row) : KeyRow :=
  MkKey (k_key_id k) (k_username k) (default [] (k_device_id k)) (default [] (k_device_name k)) (k_enabled k)
    (time_Unix (k_issued_at k)) (time_Unix (k_bound_at k)) (time_Unix (k_last_seen k))
    (time_Unix <$> k_paid_until k) (k_plan_pia k) (k_reminder_sent k) (k_duration k) (k_unlimited k).

Definition set_keys (f : gmap gostring key_row -> gmap gostring key_row) (t : tables) : tables :=
  MkTables (t_users t) (t_next_id t) (t_sessions t) (f (t_keys t)) (t_settings t) (t_rest t).

(** ON CONFLICT(key_id) DO NOTHING; the other columns get their defaults. *)
Definition RegisterKey (keyID username source : gostring) : M (res unit) :=
  t ← now;
  update (set_keys (fun ks =>
    match ks !! keyID with
    | Some _ => ks
    | None => <[keyID := MkKeyRow keyID username None None true (time_seconds t) 0 0 None 0 0 30 false source 0 0]> ks
    end)).

Definition set_device (dev name : option gostring) (bound : Z) (k : key_row) : key_row :=
  MkKeyRow (k_key_id k) (k_username k) dev name (k_enabled k) (k_issued_at k) bound (k_last_seen k)
    (k_paid_until k) (k_plan_pia k) (k_reminder_sent k) (k_duration k) (k_unlimited k) (k_source k)
    (k_warn_count k) (k_last_warned k).

(** WHERE key_id=? AND device_id IS NULL *)
Definition UpsertKeyDevice (keyID deviceID deviceName : gostring) : M (res unit) :=
  t ← now;
  update (set_keys (alter (fun k =>
    match k_device_id k with
    | None => set_device (Some deviceID) (Some deviceName) (time_seconds t) k
    | Some _ => k
    end) keyID)).

Definition GetKey (keyID : gostring) : M (res (option KeyRow)) :=
  select (A := option KeyRow) (fun _ t => scan_key <$> t_keys t !! keyID).

Definition TouchKeyLastSeen (keyID : gostring) : M (res unit) :=
  t ← now;
  update (set_keys (alter (fun k =>
    MkKeyRow (k_key_id k) (k_username k) (k_device_id k) (k_device_name k) (k_enabled k) (k_issued_at k)
      (k_bound_at k) (time_seconds t) (k_paid_until k) (k_plan_pia k) (k_reminder_sent k) (k_duration k)
      (k_unlimited k) (k_source k) (k_warn_count k) (k_last_warned k)) keyID)).

Definition UnbindKey (keyID : gostring) : M (res unit) :=
  update (set_keys (alter (set_device None None 0) keyID)).

Definition set_enabled (enabled : bool) (k : key_row) : key_row :=
  MkKeyRow (k_key_id k) (k_username k) (k_device_id k) (k_device_name k) enabled (k_issued_at k)
    (k_bound_at k) (k_last_seen k) (k_paid_until k) (k_plan_pia k) (k_reminder_sent k) (k_duration k)
    (k_unlimited k) (k_source k) (k_warn_count k) (k_last_warned k).
Definition SetKeyEnabled (keyID : gostring) (enabled : bool) : M (res unit) :=
  update (set_keys (alter (set_enabled enabled) keyID)).

Definition SetKeyUnlimitedDevices (keyID : gostring) (unlimited : bool) : M (res unit) :=
  update (set_keys (alter (fun k =>
    MkKeyRow (k_key_id k) (k_username k) (k_device_id k) (k_device_name k) (k_enabled k) (k_issued_at k)
      (k_bound_at k) (k_last_seen k) (k_paid_until k) (k_plan_pia k) (k_reminder_sent k) (k_duration k)
      unlimited (k_source k) (k_warn_count k) (k_last_warned k)) keyID)).

Definition set_paid (paid : option Z) (pia : Z) (k : key_row) : key_row :=
  MkKeyRow (k_key_id k) (k_username k) (k_device_id k) (k_device_name k) (k_enabled k) (k_issued_at k)
    (k_bound_at k) (k_last_seen k) paid pia 0 (k_duration k)
    (k_unlimited k) (k_source k) (k_warn_count k) (k_last_warned k).
Definition SetKeyPaidUntil (keyID : gostring) (paidUntil planPia : Z) : M (res unit) :=
  update (set_keys (alter (set_paid (Some (time_seconds paidUntil)) planPia) keyID)).
Definition ClearKeyPaidUntil (keyID : gostring) : M (res unit) :=
  update (set_keys (alter (set_paid None 0) keyID)).

(** Keys that are enabled and whose paid_until has passed. *)
Definition expired_at (secs : Z) (k : key_row) : bool :=
  k_enabled k && match k_paid_until k with Some p => p <? secs | None => false end.
Definition DisableExpiredKeys : M (res (list (gostring * gostring))) :=
  t ← now;
  expired ← select (fun o tb =>
    map (fun kr => (kr.1, k_username kr.2))
      (List.filter (fun kr => expired_at (time_seconds t) kr.2) (Rand.range_map o (t_keys tb))));
  match expired with
  | Ok l =>
      foldr (fun k rest => update (set_keys (alter (set_enabled false) k.1)) ≫= fun _ => rest) (Ret (Ok l)) l
  | r => Ret r
  end.
End Store.
