(* ===== verification/ArbiterSessions.v ===== *)
(** * snc-arbiter: sessions and logins
    (src/snc-arbiter/sessions.go, auth.go, and the login endpoints of handler.go and
    proxy_auth.go)

    [SessionManager] issues the opaque tokens clients present to exits, keeps the
    Camerlengo session and the encrypted password behind each, and re-validates them
    in the background. Every method is a program on the store ([ArbiterStore]), so a
    request can be interrupted by others between any two of its statements. The AEAD,
    BLAKE2b, Ed25519 and JSON are parameters. *)

From stdpp Require Import base list gmap strings fin_maps.
From Stdlib Require Import ZArith Lia.
From S2P Require Import Prelude GoLib Effects ArbiterStore.

Module Sessions.
Import Store.

Definition sessionValidateTTL : Z := 15 * minute.
Definition sessionRetryCooldown : Z := 1 * minute.
Definition sessionStaleTTL : Z := 3 * hour.
Definition sessionRefreshPause : Z := 10 * second.
Definition loginMaxRetryDuration : Z := 5 * minute.
Definition maxRetryDelay : Z := 30 * second.

(** ** Camerlengo logins (auth.go)

    The loop is given thirteen attempts: the waits between them (5, 10, 20 and then
    30 seconds) pass the five minutes with the twelfth. [Panic] marks a loop that
    was given too few. *)
Definition loginAttempts : nat := 13.

Fixpoint login_loop (fuel : nat) (first : bool) (deadline retryDelay : Z) (username password : gostring)
    : M (res gostring) :=
  match fuel with
  | O => Ret Panic
  | S fuel =>
      retryDelay ← (if first then Ret retryDelay
                    else call (Sleep retryDelay) ≫= fun _ => Ret (Z.min (retryDelay * 2) maxRetryDelay));
      result ← call (CamVerify username password);
      match result with
      | Ok r =>
          if decide (Status r = bs "error") then Ret (Err "rejected")
          else if decide (ReplySession r <> []) then Ret (Ok (ReplySession r))
          else
            t ← now;
            if deadline <? t then Ret (Err "login: empty session in response")
            else login_loop fuel false deadline retryDelay username password
      | _ =>
          t ← now;
          if deadline <? t then Ret (Err "POST user:verify")
          else login_loop fuel false deadline retryDelay username password
      end
  end.

Definition login (username password : gostring) : M (res gostring) :=
  t ← now;
  login_loop loginAttempts true (t + loginMaxRetryDuration) (5 * second) username password.

Definition querySession (token : gostring) : M (res gostring) := call (CamSessionUser token).

Section sessions.
Context {AE : Aead} {BL : Blake2b} {ED : Ed25519}.

(** ** Stored passwords *)

Definition deriveEncKey (seed : bytes) : bytes := blake2b_256 (seed ++ bs "snc-arbiter-pwd-enc-v1").

(** The seed of the arbiter's signing key, and its public key. *)
Context (seed pub : bytes).
Definition encKey : bytes := deriveEncKey seed.

Definition encrypt (data : bytes) : M (res bytes) :=
  nonce ← call (RandRead 12);
  Ret (nonce ← nonce; Ok (nonce ++ aead_seal encKey nonce data)).

Definition decrypt (enc : bytes) : res bytes :=
  if lenZ enc <? 12 + 16 then Err "ciphertext too short"
  else match aead_open encKey (take 12 enc) (drop 12 enc) with Some p => Ok p | None => Err "open" end.

(** ** Logins *)

Record LoginOpts := MkOpts { o_KeyID : gostring; o_DeviceID : gostring; o_DeviceName : gostring }.

(** The checks of [Login] and [LoginWithKey] for a key: errors of the store let the
    login through, an account or key that is known to be disabled does not. *)
Definition device_checks (username : gostring) (opts : option LoginOpts) : M (res unit) :=
  match opts with
  | Some o =>
      if decide (o_KeyID o = []) then Ret (Ok ())
      else
        ok ← IsUserEnabled username;
        match ok with
        | Ok false => Ret (Err "account disabled")
        | _ =>
            key ← GetKey (o_KeyID o);
            match key with
            | Ok (Some k) =>
                if negb (Enabled k) then Ret (Err "key disabled")
                else
                  _ ← (if negb (UnlimitedDevices k) && bool_decide (KeyDeviceID k = [])
                          && bool_decide (o_DeviceID o <> [])
                       then UpsertKeyDevice (o_KeyID o) (o_DeviceID o) (o_DeviceName o)
                       else Ret (Ok ()));
                  _ ← TouchKeyLastSeen (o_KeyID o);
                  Ret (Ok ())
            | _ => Ret (Ok ())
            end
        end
  | None => Ret (Ok ())
  end.

Definition opt_device (opts : option LoginOpts) : gostring * gostring :=
  match opts with Some o => (o_DeviceID o, o_DeviceName o) | None => ([], []) end.

(** The end of every login: the user's record, the password encrypted (if there is
    one), a fresh token, and the row. *)
Definition issue (username : gostring) (dev : gostring * gostring) (password : option gostring)
    (camSession : gostring) : M (res gostring) :=
  u ← getOrCreateUser username;
  match u with
  | Ok u =>
      enc ← match password with Some p => encrypt p | None => Ret (Ok []) end;
      match enc with
      | Ok encPwd =>
          token ← genToken;
          match token with
          | Ok token =>
              t ← now;
              r ← createSession token username (UserClientID u) dev.1 dev.2 encPwd camSession t;
              Ret (_ ← r; Ok token)
          | r => Ret r
          end
      | Err e => Ret (Err e)
      | Panic => Ret Panic
      end
  | Err e => Ret (Err e)
  | Panic => Ret Panic
  end.

(** When Camerlengo refuses or fails: the Camerlengo session of a recent login with
    the same password. *)
Definition fallback (username password : gostring) (refusal : res gostring) : M (res gostring) :=
  recent ← getRecentSessionByUsername username;
  match recent with
  | Ok (Some s) =>
      t ← now;
      if sessionStaleTTL <=? t - ValidatedAt s then Ret refusal
      else match decrypt (EncPassword s) with
           | Ok pwd => if decide (pwd = password) then Ret (Ok (CamSession s)) else Ret refusal
           | _ => Ret refusal
           end
  | _ => Ret refusal
  end.

Definition Login (username password : gostring) (opts : option LoginOpts) : M (res gostring) :=
  cam ← login username password;
  cam ← match cam with Ok c => Ret (Ok c) | r => fallback username password r end;
  match cam with
  | Ok camSession =>
      r ← device_checks username opts;
      match r with
      | Ok _ => issue username (opt_device opts) (Some password) camSession
      | Err e => Ret (Err e)
      | Panic => Ret Panic
      end
  | r => Ret r
  end.

Definition LoginWithKey (username : gostring) (opts : option LoginOpts) : M (res gostring) :=
  r ← device_checks username opts;
  match r with
  | Ok _ => issue username (opt_device opts) None []
  | Err e => Ret (Err e)
  | Panic => Ret Panic
  end.

Definition LoginAsProxy (username password : gostring) : M (res gostring) :=
  cam ← login username password;
  match cam with
  | Ok camSession =>
      ok ← IsUserEnabled username;
      match ok with
      | Ok false => Ret (Err "account disabled")
      | _ => issue username ([], bs "BlackBadger proxy") (Some password) camSession
      end
  | r => Ret r
  end.

(** ** Validation *)

Record verdict := MkVerdict { v_username : gostring; v_clientID : gostring; v_deviceID : gostring; v_denied : bool }.

Definition Validate (token : gostring) : M verdict :=
  if decide (token = []) then Ret (MkVerdict [] [] [] true)
  else
    s ← getSession token;
    match s with
    | Ok None => Ret (MkVerdict [] [] [] true)
    | Ok (Some s) =>
        ok ← IsUserEnabled (Username s);
        match ok with
        | Ok false => Ret (MkVerdict [] [] [] true)
        | _ =>
            t ← now;
            _ ← touchSession token t;
            Ret (MkVerdict (Username s) (ClientID s) (DeviceID s) false)
        end
    | _ => Ret (MkVerdict [] [] [] false)
    end.

(** ** The refresher *)

Definition refreshOne (s : Session) (at_ : Z) : M unit :=
  if at_ - ValidatedAt s <? sessionValidateTTL then Ret ()
  else if sessionStaleTTL <? at_ - ValidatedAt s then _ ← deleteSession (Token s); Ret ()
  else if decide (CamSession s = []) then Ret ()
  else if at_ - LastAttempt s <? sessionRetryCooldown then Ret ()
  else
    _ ← touchLastAttempt (Token s) at_;
    _ ← call (Sleep sessionRefreshPause);
    u ← querySession (CamSession s);
    match u with
    | Ok username =>
        if decide (username <> []) then _ ← updateCamSession (Token s) (CamSession s) at_; Ret ()
        else match decrypt (EncPassword s) with
             | Ok pwd =>
                 newCam ← login (Username s) pwd;
                 match newCam with
                 | Ok c => _ ← updateCamSession (Token s) c at_; Ret ()
                 | _ => Ret ()
                 end
             | _ => Ret ()
             end
    | _ => Ret ()
    end.

Fixpoint refresh_each (at_ : Z) (l : list Session) : M unit :=
  match l with
  | [] => Ret ()
  | s :: l => _ ← refreshOne s at_; refresh_each at_ l
  end.

Definition refreshAll : M unit :=
  l ← listSessions;
  match l with
  | Ok l => t ← now; refresh_each t l
  | _ => Ret ()
  end.

(** ** Endpoints *)

(** The body of authenticateKey; the signed part of it comes first. *)
Record keyPayloadAuthCanonical := MkCanon {
  c_username : gostring; c_servers : list gostring; c_control_nodes : list gostring; c_arbiter_pubkey : gostring;
  c_node_id : gostring; c_api_key : gostring; c_client_id : gostring; c_key_id : gostring }.
Record keyRequest := MkKeyRequest {
  q_canon : keyPayloadAuthCanonical; q_auth_sig : gostring; q_device_id : gostring; q_device_name : gostring }.

(** encoding/json: the command of a body, its string members, an authenticateKey
    body, the canonical form that is signed, and the two members of a proxy login. *)
Class ArbiterCodec := {
  command_of : bytes -> gostring;
  string_member : bytes -> gostring -> gostring;
  key_request : bytes -> option keyRequest;
  marshal_canon : keyPayloadAuthCanonical -> res bytes;
  proxy_request : bytes -> option (gostring * gostring) }.
Context {AC : ArbiterCodec}.

Inductive reply := Granted (token : gostring) | Refused (why : string) | Status_ (code : Z).

Definition auth_sig_ok (c : keyPayloadAuthCanonical) (sig : gostring) : bool :=
  match marshal_canon c, Base64.decode sig with
  | Ok canon, Some sigBytes => ed25519_verify pub canon sigBytes
  | _, _ => false
  end.

Definition handleKeyAuth (body : bytes) : M reply :=
  match key_request body with
  | Some q =>
      if decide (c_username (q_canon q) = [] \/ q_auth_sig q = []) then Ret (Refused "invalid request")
      else match marshal_canon (q_canon q) with
      | Ok _ =>
          if negb (auth_sig_ok (q_canon q) (q_auth_sig q)) then Ret (Refused "invalid key")
          else
            let keyID := c_key_id (q_canon q) in
            expired ← (if decide (keyID = []) then Ret false
                       else
                         k ← GetKey keyID;
                         match k with
                         | Ok (Some k) =>
                             match PaidUntil k with
                             | Some p => t ← now; Ret (p <? t)
                             | None => Ret false
                             end
                         | _ => Ret false
                         end);
            if (expired : bool) then Ret (Refused "key expired")
            else
              token ← LoginWithKey (c_username (q_canon q))
                        (Some (MkOpts keyID (q_device_id q) (q_device_name q)));
              Ret (match token with Ok t => Granted t | _ => Refused "login failed" end)
      | _ => Ret (Refused "internal error")
      end
  | None => Ret (Refused "invalid request")
  end.

(** The body is cut at one megabyte; a body that cannot be read is [None]. *)
Definition handleClientRequest (body : option bytes) : M reply :=
  match body with
  | None => Ret (Status_ 400)
  | Some body =>
      let body := take (Z.to_nat (Z.shiftl 1 20)) body in
      if decide (command_of body = bs "verifyPassword") then
        token ← Login (string_member body (bs "user")) (string_member body (bs "password"))
                  (Some (MkOpts (string_member body (bs "key_id")) (string_member body (bs "device_id"))
                           (string_member body (bs "device_name"))));
        Ret (match token with Ok t => Granted t | _ => Refused "invalid credentials" end)
      else if decide (command_of body = bs "authenticateKey") then handleKeyAuth body
      else Ret (Status_ 400)
  end.

Definition apiProxyValidate (callerToken : gostring) (body : bytes) : M reply :=
  if decide (callerToken = []) then Ret (Status_ 401)
  else
    v ← Validate callerToken;
    if decide (v_username v = []) then Ret (Status_ 503)
    else match proxy_request body with
         | Some (u, p) =>
             if decide (u = [] \/ p = []) then Ret (Status_ 400)
             else
               token ← LoginAsProxy u p;
               Ret (match token with Ok t => Granted t | _ => Status_ 401 end)
         | None => Ret (Status_ 400)
         end.
End sessions.
End Sessions.
