(* ===== verification/ArbiterLogin.v ===== *)
(** * snc-arbiter: who gets a session, in every interleaving

    The requests of [ArbiterSessions], the refresher and the administrators' changes
    run beside each other, their SQL statements in any order, statements failing or
    losing their replies, Camerlengo answering anything. The invariant [inv] says that
    every session row belongs to a user on record, carries that user's billing
    identifier, and is vouched for: by a password Camerlengo accepted for that user, or
    by a key of that user the arbiter signed. *)

From stdpp Require Import base list gmap strings fin_maps.
From Stdlib Require Import ZArith Lia.
From S2P Require Import Prelude GoLib Effects ArbiterStore ArbiterSessions.

Module Logins.
Import Store Sessions.

(** No token is issued twice: a statement that puts a session under a token puts it
    under one that never had a session (tokens are 32 random bytes). *)
Definition fresh_tokens (e : Env) (o : Op) (w : world) : Prop :=
  forall tok, is_Some (t_sessions (db (exec e o w).2) !! tok) -> t_sessions (db w) !! tok = None ->
  tok ∉ born w.

Section invariant.
Context {AE : Aead} {BL : Blake2b} {ED : Ed25519} {AC : ArbiterCodec}.
Context (seed pub : bytes).

(** Some key of this user carries the arbiter's signature. *)
Definition key_signed (username : gostring) : Prop :=
  exists c sig, c_username c = username /\ auth_sig_ok pub c sig = true.

Definition vouched (acc : list (gostring * gostring)) (s : session_row) : Prop :=
  if decide (s_cam_session s = []) then key_signed (s_username s)
  else exists pwd, decrypt seed (s_enc_password s) = Ok pwd /\ (s_username s, pwd) ∈ acc.

Record inv (w : world) : Prop := {
  inv_users : forall n u, t_users (db w) !! n = Some u -> u_username u = n /\ u_client_id u <> [];
  inv_born : forall tok s, t_sessions (db w) !! tok = Some s -> tok ∈ born w /\ tok <> [] /\ s_token s = tok;
  inv_owner : forall tok s, t_sessions (db w) !! tok = Some s ->
    exists u, t_users (db w) !! s_username s = Some u /\ u_client_id u = s_client_id s;
  inv_vouched : forall tok s, t_sessions (db w) !! tok = Some s -> vouched (accepted w) s }.

(** What no request undoes. *)
Definition same_holder (s s' : session_row) : Prop :=
  s_username s' = s_username s /\ s_enc_password s' = s_enc_password s /\ s_client_id s' = s_client_id s
  /\ (s_cam_session s = [] <-> s_cam_session s' = []).
Record le (w w' : world) : Prop := {
  le_accepted : accepted w ⊆ accepted w';
  le_born : born w ⊆ born w';
  le_users : forall n u, t_users (db w) !! n = Some u ->
    exists u', t_users (db w') !! n = Some u' /\ u_client_id u' = u_client_id u;
  le_sessions : forall tok s', t_sessions (db w') !! tok = Some s' -> tok ∈ born w ->
    exists s, t_sessions (db w) !! tok = Some s /\ same_holder s s' }.

Lemma same_holder_refl s : same_holder s s.
Proof. by repeat split. Qed.
Lemma same_holder_trans a b c : same_holder a b -> same_holder b c -> same_holder a c.
Proof. unfold same_holder. intros (? & ? & ? & ?) (? & ? & ? & ?). repeat split; try congruence; tauto. Qed.

Lemma wle_refl w : le w w.
Proof. split; eauto using same_holder_refl. Qed.

Lemma wle_trans a b c : le a b -> le b c -> le a c.
Proof.
  intros [A1 A2 A3 A4] [B1 B2 B3 B4]. split; [set_solver | set_solver | |].
  - intros n u H. destruct (A3 _ _ H) as (u' & H' & E'). destruct (B3 _ _ H') as (u'' & H'' & E'').
    exists u''. split; [done | congruence].
  - intros tok s H Hb. destruct (B4 _ _ H (A2 _ Hb)) as (s' & H' & E').
    destruct (A4 _ _ H' Hb) as (s'' & H'' & E''). exists s''. eauto using same_holder_trans.
Qed.

Lemma vouched_mono acc acc' s : acc ⊆ acc' -> vouched acc s -> vouched acc' s.
Proof. unfold vouched. intros H. destruct (decide _); [done|]. intros (p & Hp & Hin). eauto. Qed.

(** ** Triples

    From a state, with any interference, [p] keeps the invariant and ends with [P]. *)
Definition triple {A} (p : M A) (w : world) (P : A -> world -> Prop) : Prop :=
  keeps exec fresh_tokens inv le p w (fun a w' => le w w' /\ inv w' /\ P a w').

Lemma triple_ret {A} (a : A) w (P : A -> world -> Prop) : inv w -> P a w -> triple (Ret a) w P.
Proof. intros H HP. split; [apply wle_refl | by split]. Qed.

Lemma triple_bind {A B} (p : M A) (f : A -> M B) w P Q :
  triple p w P -> (forall a w', le w w' -> inv w' -> P a w' -> triple (f a) w' Q) ->
  triple (p ≫= f) w Q.
Proof.
  intros Hp Hf. apply wp_bind. eapply wp_mono; [exact Hp|]. intros a w' (Hl & Hi & HP).
  eapply wp_mono; [exact (Hf a w' Hl Hi HP)|]. intros b w'' (Hl' & H'). split; [by eapply wle_trans|done].
Qed.

Lemma triple_mono {A} (p : M A) w (P Q : A -> world -> Prop) :
  triple p w P -> (forall a w', le w w' -> inv w' -> P a w' -> Q a w') -> triple p w Q.
Proof. intros Hp H. eapply wp_mono; [exact Hp|]. intros a w' (Hl & Hi & HP). eauto. Qed.

Lemma triple_call (o : Op) w (P : Resp o -> world -> Prop) :
  (forall w1 e, le w w1 -> inv w1 -> fresh_tokens e o w1 ->
     rely inv le w1 (exec e o w1).2 /\ P (exec e o w1).1 (exec e o w1).2) ->
  triple (call o) w P.
Proof.
  intros H. apply keeps_call. intros w1 e Hl Hi He. destruct (H w1 e Hl Hi He) as [Hr HP].
  split; [done|]. destruct Hr as [Hr1 Hr2]. split; [by eapply wle_trans | done].
Qed.

(** Operations that leave the records alone. *)
Lemma same_rely w w' :
  db w' = db w -> accepted w' = accepted w -> born w' = born w -> inv w -> rely inv le w w'.
Proof.
  destruct w, w'. simpl. intros -> -> -> Hi. split; [split; simpl; eauto using same_holder_refl|].
  destruct Hi. split; simpl in *; eauto.
Qed.

Lemma triple_now w : triple now w (fun _ _ => True).
Proof. apply triple_call. intros w1 e _ Hi _. split; [by apply same_rely | done]. Qed.

Lemma triple_sleep d w : triple (call (Sleep d)) w (fun _ _ => True).
Proof. apply triple_call. intros w1 e _ Hi _. split; [by apply same_rely | done]. Qed.

Lemma triple_rand n w : triple (call (RandRead n)) w
  (fun r _ => forall b, r = Ok b -> length b = n /\ bytes_ok b).
Proof.
  apply triple_call. intros w1 e _ Hi _. simpl. destruct (e_rand e) as [b|]; simpl;
    (split; [by apply same_rely|]); [|done].
  intros ? [= <-]. split; [apply length_resize|].
  apply Forall_resize; [unfold byte_ok; lia|]. apply Forall_map, Forall_true. intros z. apply Z.mod_pos_bound. lia.
Qed.

Lemma triple_verify user pwd w : triple (call (CamVerify user pwd)) w
  (fun r w' => forall v, r = Ok v -> lets_in v = true -> (user, pwd) ∈ accepted w').
Proof.
  apply triple_call. intros w1 e _ Hi _. simpl. destruct (e_verify e) as [v|]; simpl;
    [|by split; [apply same_rely|]].
  destruct (lets_in v) eqn:Ev; simpl; [|split; [by apply same_rely | congruence]].
  split; [|intros; apply list_elem_of_here].
  destruct Hi as [I1 I2 I3 I4]. split; split; simpl; eauto using same_holder_refl.
  - set_solver.
  - intros tok s Hs. eapply vouched_mono; [|by eapply I4]. set_solver.
Qed.

Lemma triple_query tok w : triple (querySession tok) w (fun _ _ => True).
Proof. apply triple_call. intros w1 e _ Hi _. split; [by apply same_rely | done]. Qed.

Lemma triple_select {A} (q : (nat -> nat) -> tables -> A) w :
  triple (select q) w (fun r w' => forall a, r = Ok a -> exists o, a = q o (db w')).
Proof.
  apply triple_call. intros w1 e _ Hi _. simpl.
  assert (rely inv le w1 (with_db (db w1) (tick (e_delay e) w1))) as Hr.
  { destruct Hi as [I1 I2 I3 I4]. split; split; simpl; eauto using same_holder_refl.
    - set_solver.
    - intros tok s Hs. destruct (I2 _ _ Hs) as (? & ? & ?). split; [set_solver | done]. }
  destruct (e_sql e); simpl; (split; [try exact Hr; by apply same_rely|]); [|done..].
  intros a [= <-]. by exists (e_order e).
Qed.

(** ** Statements that change rows

    What a statement may do to the tables: users keep their billing identifier, a
    session keeps its holder or is new under a token that never had one. *)
Definition lawful (w : world) (t : tables) : Prop :=
  (forall n u, t_users (db w) !! n = Some u ->
     exists u', t_users t !! n = Some u' /\ u_client_id u' = u_client_id u) /\
  (forall n u, t_users t !! n = Some u -> u_username u = n /\ u_client_id u <> []) /\
  (forall tok s, t_sessions t !! tok = Some s ->
     (exists s0, t_sessions (db w) !! tok = Some s0 /\ same_holder s0 s /\ s_token s = s_token s0)
     \/ (t_sessions (db w) !! tok = None /\ tok <> [] /\ s_token s = tok /\ vouched (accepted w) s
         /\ exists u, t_users (db w) !! s_username s = Some u /\ u_client_id u = s_client_id s)).

Lemma same_holder_vouched acc s s' : same_holder s s' -> vouched acc s -> vouched acc s'.
Proof.
  unfold vouched, same_holder. intros (-> & -> & _ & Hc).
  destruct (decide (s_cam_session s = [])), (decide (s_cam_session s' = [])); tauto.
Qed.

Lemma lawful_rely w t d :
  inv w -> lawful w t ->
  (forall tok, is_Some (t_sessions t !! tok) -> t_sessions (db w) !! tok = None -> tok ∉ born w) ->
  rely inv le w (with_db t (tick d w)).
Proof.
  intros [I1 I2 I3 I4] (L1 & L2 & L3) Hf. split; split; simpl; eauto.
  - set_solver.
  - intros tok s Hs Hb. destruct (L3 _ _ Hs) as [(s0 & H0 & Hh & _)|(Hn & _)]; [eauto|].
    exfalso. exact (Hf tok (ex_intro _ _ Hs) Hn Hb).
  - intros tok s Hs. split; [apply elem_of_union_l; by eapply elem_of_dom_2|].
    destruct (L3 _ _ Hs) as [(s0 & H0 & Hh & ->)|(Hn & ? & ? & _)]; [|done].
    destruct (I2 _ _ H0) as (_ & ? & ?). done.
  - intros tok s Hs. destruct (L3 _ _ Hs) as [(s0 & H0 & (Eu & _ & Ec & _) & _)|(_ & _ & _ & _ & u & Hu & Ec)].
    + destruct (I3 _ _ H0) as (u & Hu & E). destruct (L1 _ _ Hu) as (u' & Hu' & E').
      exists u'. rewrite Eu, Ec. split; [done|congruence].
    + destruct (L1 _ _ Hu) as (u' & Hu' & E'). exists u'. split; [done|congruence].
  - intros tok s Hs. destruct (L3 _ _ Hs) as [(s0 & H0 & Hh & _)|(_ & _ & _ & Hv & _)]; [|done].
    eapply same_holder_vouched; eauto.
Qed.

Lemma triple_sql {A} (q : (nat -> nat) -> tables -> res A * tables) w :
  (forall w1 o, le w w1 -> inv w1 -> lawful w1 (q o (db w1)).2) ->
  triple (call (Sql A q)) w (fun _ _ => True).
Proof.
  intros Hq. apply triple_call. intros w1 e Hl Hi Hf. split; [|done].
  unfold fresh_tokens in Hf. cbn [exec] in *. specialize (Hq w1 (e_order e) Hl Hi).
  change (db (tick (e_delay e) w1)) with (db w1) in *.
  destruct (q (e_order e) (db w1)) as [r t]. destruct (e_sql e); cbn [fst snd] in *;
    [by apply lawful_rely | by apply same_rely | by apply lawful_rely].
Qed.

Lemma triple_update f w :
  (forall w1, le w w1 -> inv w1 -> lawful w1 (f (db w1))) -> triple (update f) w (fun _ _ => True).
Proof. intros H. apply triple_sql. intros w1 o. apply H. Qed.

(** A statement after which the program stops or goes on, whatever the answer. *)
Lemma triple_then {A B} (p : M A) (f : A -> M B) w Q :
  triple p w (fun _ _ => True) -> (forall a w', le w w' -> inv w' -> triple (f a) w' Q) ->
  triple (p ≫= f) w Q.
Proof. intros Hp Hf. eapply triple_bind; [exact Hp|]. eauto. Qed.

(** The rows of the other tables do not matter. *)
Lemma lawful_other w t :
  inv w -> t_users t = t_users (db w) -> t_sessions t = t_sessions (db w) -> lawful w t.
Proof.
  intros [I1 _ _ _] Eu Es. unfold lawful. rewrite Eu, Es.
  split; [eauto|]. split; [eauto|]. intros tok r Hr. left. eauto using same_holder_refl.
Qed.

Lemma lawful_alter_user w n f :
  inv w -> (forall u, u_username (f u) = u_username u /\ u_client_id (f u) = u_client_id u) ->
  lawful w (set_users (alter f n) (db w)).
Proof.
  intros [I1 _ _ _] Hf. unfold lawful. simpl. split; [|split].
  - intros m u Hu. destruct (decide (n = m)) as [<-|Hn].
    + rewrite lookup_alter_eq, Hu. simpl. eexists. split; [done|]. apply Hf.
    + rewrite lookup_alter_ne by done. eauto.
  - intros m u. destruct (decide (n = m)) as [<-|Hn].
    + rewrite lookup_alter_eq. intros (u0 & Hu & ->)%fmap_Some. destruct (Hf u0) as [-> ->]. by apply I1.
    + rewrite lookup_alter_ne by done. apply I1.
  - intros tok r Hr. left. eauto using same_holder_refl.
Qed.

Lemma lawful_insert_user w n role cid :
  inv w -> cid <> [] -> lawful w (insert_user n role cid (db w)).
Proof.
  intros Hi Hc. unfold insert_user. destruct (t_users (db w) !! n) eqn:En; [by apply lawful_other|].
  destruct Hi as [I1 _ _ _]. unfold lawful. simpl. split; [|split].
  - intros m u Hu. rewrite lookup_insert_ne by congruence. eauto.
  - intros m u. destruct (decide (n = m)) as [<-|Hn].
    + rewrite lookup_insert_eq. by intros [= <-].
    + rewrite lookup_insert_ne by done. apply I1.
  - intros tok r Hr. left. eauto using same_holder_refl.
Qed.

Lemma lawful_alter_session w tok f :
  inv w -> (forall r, t_sessions (db w) !! tok = Some r -> same_holder r (f r) /\ s_token (f r) = s_token r) ->
  lawful w (set_sessions (alter f tok) (db w)).
Proof.
  intros [I1 _ _ _] Hf. unfold lawful. simpl. split; [eauto|]. split; [done|].
  intros tok' r. destruct (decide (tok = tok')) as [<-|Hn].
  - rewrite lookup_alter_eq. intros (r0 & Hr & ->)%fmap_Some. left. exists r0. split; [done|]. by apply Hf.
  - rewrite lookup_alter_ne by done. intros Hr. left. eauto using same_holder_refl.
Qed.

Lemma lawful_delete_session w tok : inv w -> lawful w (set_sessions (delete tok) (db w)).
Proof.
  intros [I1 _ _ _]. unfold lawful. simpl. split; [eauto|]. split; [done|].
  intros tok' r [Hn Hr]%lookup_delete_Some. left. eauto using same_holder_refl.
Qed.

(** ** The methods of the store *)

Lemma triple_touch tok t w : triple (touchSession tok t) w (fun _ _ => True).
Proof.
  apply triple_update. intros w1 _ Hi. apply lawful_alter_session; [done|]. intros r _. by repeat split.
Qed.

Lemma triple_touchAttempt tok t w : triple (touchLastAttempt tok t) w (fun _ _ => True).
Proof.
  apply triple_update. intros w1 _ Hi. apply lawful_alter_session; [done|]. intros r _. by repeat split.
Qed.

Lemma triple_delete tok w : triple (deleteSession tok) w (fun _ _ => True).
Proof. apply triple_update. intros w1 _ Hi. by apply lawful_delete_session. Qed.

(** A Camerlengo session may replace another one only. *)
Lemma triple_updateCam tok cam t w :
  tok ∈ born w -> cam <> [] -> (forall r, t_sessions (db w) !! tok = Some r -> s_cam_session r <> []) ->
  triple (updateCamSession tok cam t) w (fun _ _ => True).
Proof.
  intros Hb Hc Hw. apply triple_update. intros w1 Hl Hi. apply lawful_alter_session; [done|].
  intros r Hr. destruct (le_sessions _ _ Hl _ _ Hr Hb) as (r0 & Hr0 & (_ & _ & _ & Hiff)).
  specialize (Hw _ Hr0). repeat split; simpl; tauto.
Qed.

Lemma triple_keys f w : triple (update (set_keys f)) w (fun _ _ => True).
Proof. apply triple_update. intros w1 _ Hi. by apply lawful_other. Qed.

Lemma triple_genClientID w : triple genClientID w (fun r _ => forall c, r = Ok c -> c <> []).
Proof.
  eapply triple_bind; [apply triple_rand|]. intros [b| |] w' _ Hi Hb; (apply triple_ret; [done|]); [|done..].
  by intros c [= <-].
Qed.

Lemma triple_genToken w : triple genToken w (fun r _ => forall c, r = Ok c -> c <> []).
Proof.
  eapply triple_bind; [apply triple_rand|]. intros [b| |] w' _ Hi Hb; (apply triple_ret; [done|]); [|done..].
  intros c [= <-]. apply Base64.encode_nonempty. destruct (Hb _ eq_refl) as [Hl _]. by destruct b.
Qed.

Lemma triple_enabled n w : triple (IsUserEnabled n) w (fun _ _ => True).
Proof. eapply triple_bind; [apply triple_select|]. intros r w' _ Hi _. by apply triple_ret. Qed.

(** The billing identifier a user has on record. *)
Definition on_record (n cid : gostring) (w : world) : Prop :=
  exists u, t_users (db w) !! n = Some u /\ u_client_id u = cid.

Lemma on_record_le n cid w w' : le w w' -> on_record n cid w -> on_record n cid w'.
Proof. intros Hl (u & Hu & E). destruct (le_users _ _ Hl _ _ Hu) as (u' & Hu' & E'). exists u'. split; [done|congruence]. Qed.

Lemma triple_findUser n w : triple (findUser n) w
  (fun r w' => forall x, r = Ok (Some x) -> on_record n (UserClientID x) w' /\ UserClientID x <> []).
Proof.
  eapply triple_mono; [apply triple_select|]. intros r w' _ Hi H x ->.
  destruct (H _ eq_refl) as (o & E). symmetry in E. apply fmap_Some in E as (u & Hu & ->).
  split; [by exists u|]. by apply (inv_users _ Hi n u).
Qed.

Lemma triple_getOrCreateUser n w : inv w -> triple (getOrCreateUser n) w
  (fun r w' => forall x, r = Ok x -> on_record n (UserClientID x) w').
Proof.
  intros _. eapply triple_bind; [apply triple_findUser|]. intros [[u|]|e|] w1 _ Hi Hu;
    [|..|by apply triple_ret|by apply triple_ret].
  { destruct (Hu _ eq_refl) as [Hr Hn]. rewrite decide_False by done. apply triple_ret; [done|].
    by intros x [= <-]. }
  eapply triple_bind; [apply triple_select|]. intros cnt w2 _ Hi2 _.
  eapply triple_bind; [apply triple_genClientID|]. intros [c|e|] w3 _ Hi3 Hc;
    [|by apply triple_ret|by apply triple_ret].
  eapply triple_then.
  { apply triple_update. intros w4 _ Hi4. apply lawful_insert_user; [done|]. by apply Hc. }
  intros [[]|e|] w5 _ Hi5; [|by apply triple_ret|by apply triple_ret].
  eapply triple_bind; [apply triple_findUser|]. intros r w6 _ Hi6 H6. apply triple_ret; [done|].
  destruct r as [[x|]|e|]; try done. intros y [= <-]. by apply H6.
Qed.
(** ** The session manager *)

Definition accepted_as (n pwd : gostring) (r : res gostring) (w : world) : Prop :=
  forall c, r = Ok c -> c <> [] /\ (n, pwd) ∈ accepted w.

Lemma triple_login_loop fuel first dl rd n pwd w :
  inv w -> triple (login_loop fuel first dl rd n pwd) w (accepted_as n pwd).
Proof.
  revert first rd w. induction fuel as [|fuel IH]; intros first rd w Hi; [by apply triple_ret|].
  cbn [login_loop]. eapply triple_then.
  { destruct first; [by apply triple_ret|].
    eapply triple_then; [apply triple_sleep|]. intros _ w' _ Hi'. by apply triple_ret. }
  intros rd' w1 _ Hi1. eapply triple_bind; [apply triple_verify|]. intros v w2 _ Hi2 Hv.
  assert (forall err, triple (t ← now; if dl <? t then Ret (Err err) else login_loop fuel false dl rd' n pwd) w2
    (accepted_as n pwd)) as Hagain.
  { intros err. eapply triple_then; [apply triple_now|]. intros t w3 _ Hi3.
    destruct (dl <? t); [by apply triple_ret | by apply IH]. }
  destruct v as [v|e|]; [|apply Hagain..].
  destruct (decide (Status v = bs "error")); [by apply triple_ret|].
  destruct (decide (ReplySession v <> [])); [|apply Hagain].
  apply triple_ret; [done|]. intros c [= <-]. split; [done|]. apply (Hv v eq_refl).
  unfold lets_in. by rewrite !bool_decide_true.
Qed.

Lemma triple_login n pwd w : triple (login n pwd) w (accepted_as n pwd).
Proof. eapply triple_then; [apply triple_now|]. intros t w1 _ Hi. by apply triple_login_loop. Qed.

Lemma triple_encrypt data w : triple (encrypt seed data) w
  (fun r _ => forall enc, r = Ok enc -> decrypt seed enc = Ok data).
Proof.
  eapply triple_bind; [apply triple_rand|]. intros [b|e|] w' _ Hi Hb; (apply triple_ret; [done|]); [|done..].
  intros enc [= <-]. destruct (Hb _ eq_refl) as [Hl _]. unfold decrypt.
  rewrite length_app, aead_length_seal, Hl. rewrite (proj2 (Z.ltb_ge _ _)) by lia.
  by rewrite <- Hl, take_app_length, drop_app_length, aead_open_seal.
Qed.

Lemma triple_createSession tok n cid dev name enc cam t w :
  tok <> [] -> on_record n cid w ->
  vouched (accepted w) (MkSessionRow tok n cid dev name enc cam (time_seconds t) (time_seconds t)) ->
  triple (createSession tok n cid dev name enc cam t) w (fun _ _ => True).
Proof.
  intros Ht Hr Hv. apply triple_sql. intros w1 _ Hl Hi.
  destruct (t_sessions (db w1) !! tok) eqn:E; [by apply lawful_other|].
  destruct (Hi) as [I1 _ _ _]. unfold lawful. simpl. split; [eauto|]. split; [done|].
  intros tok' r. destruct (decide (tok = tok')) as [<-|Hn].
  - rewrite lookup_insert_eq. intros [= <-]. right. repeat split; try done.
    + eapply vouched_mono; [exact (le_accepted _ _ Hl) | exact Hv].
    + eapply on_record_le; eauto.
  - rewrite lookup_insert_ne by done. intros H. left. eauto using same_holder_refl.
Qed.

(** What a login needs before it issues a session. *)
Definition entitled (n : gostring) (password : option gostring) (cam : gostring) (w : world) : Prop :=
  match password with
  | Some p => cam <> [] /\ (n, p) ∈ accepted w
  | None => cam = [] /\ key_signed n
  end.

Lemma entitled_le n pw cam w w' : le w w' -> entitled n pw cam w -> entitled n pw cam w'.
Proof. intros Hl. destruct pw; simpl; [|done]. intros [? H]. split; [done|]. by apply (le_accepted _ _ Hl). Qed.

Lemma triple_issue n dev pw cam w :
  inv w -> entitled n pw cam w -> triple (issue seed n dev pw cam) w (fun _ _ => True).
Proof.
  intros Hi He. eapply triple_bind; [by apply triple_getOrCreateUser|].
  intros [u|e|] w1 Hl1 Hi1 Hu; [|by apply triple_ret|by apply triple_ret].
  eapply triple_bind with (P := fun r _ => forall enc, r = Ok enc ->
    match pw with Some p => decrypt seed enc = Ok p | None => True end).
  { destruct pw as [p|]; [apply triple_encrypt | by apply triple_ret]. }
  intros [enc|e|] w2 Hl2 Hi2 Hd; [|by apply triple_ret|by apply triple_ret].
  eapply triple_bind; [apply triple_genToken|].
  intros [tok|e|] w3 Hl3 Hi3 Ht; [|by apply triple_ret|by apply triple_ret].
  eapply triple_then; [apply triple_now|]. intros t w4 Hl4 Hi4.
  eapply triple_then; [apply triple_createSession|].
  - by apply Ht.
  - eapply on_record_le; [|by apply Hu]. eauto using wle_trans.
  - assert (le w w4) as Hl by eauto using wle_trans.
    apply (entitled_le _ _ _ _ _ Hl) in He. specialize (Hd _ eq_refl). unfold vouched. simpl.
    destruct pw as [p|]; simpl in He; destruct He as [Hc Ha].
    + rewrite decide_False by done. eauto.
    + rewrite decide_True by done. done.
  - intros [[]|e|] w5 _ Hi5; by apply triple_ret.
Qed.

Lemma triple_device_checks n opts w : inv w -> triple (device_checks n opts) w (fun _ _ => True).
Proof.
  intros Hi. unfold device_checks. destruct opts as [o|]; [|by apply triple_ret].
  destruct (decide (o_KeyID o = [])); [by apply triple_ret|].
  eapply triple_then; [apply triple_enabled|]. intros ok w1 _ Hi1.
  assert (forall w', inv w' -> triple (TouchKeyLastSeen (o_KeyID o) ≫= fun _ => Ret (Ok ())) w' (fun _ _ => True)) as Ht.
  { intros w' Hi'. eapply triple_then; [|intros; by apply triple_ret].
    eapply triple_then; [apply triple_now|]. intros; apply triple_keys. }
  assert (triple (key ← GetKey (o_KeyID o);
     match key with
     | Ok (Some k) => if negb (Enabled k) then Ret (Err "key disabled")
         else _ ← (if negb (UnlimitedDevices k) && bool_decide (KeyDeviceID k = []) && bool_decide (o_DeviceID o <> [])
                   then UpsertKeyDevice (o_KeyID o) (o_DeviceID o) (o_DeviceName o) else Ret (Ok ()));
              _ ← TouchKeyLastSeen (o_KeyID o); Ret (Ok ())
     | _ => Ret (Ok ()) end) w1 (fun _ _ => True)) as Hk.
  { eapply triple_bind; [apply triple_select|]. intros [[k|]|e|] w2 _ Hi2 _; try by apply triple_ret.
    destruct (negb (Enabled k)); [by apply triple_ret|]. eapply triple_then; [|intros; by apply Ht].
    destruct (_ && _); [|by apply triple_ret].
    eapply triple_then; [apply triple_now|]. intros; apply triple_keys. }
  destruct ok as [[]|e|]; try exact Hk. by apply triple_ret.
Qed.

Lemma recent_row_in n o t r : recent_row n o t = Some r ->
  s_username r = n /\ s_cam_session r <> [] /\ exists tok, t_sessions t !! tok = Some r.
Proof.
  unfold recent_row. set (l := List.filter _ _). intros H.
  assert (r ∈ l) as Hr.
  { assert (forall b, fold_left later_row l b = Some r -> r ∈ l \/ b = Some r) as G;
      [|destruct (G None H); [done|discriminate]].
    clear H. induction l as [|x l IH]; intros b; [by right|]. simpl. intros H. destruct (IH _ H) as [Hin|E].
    - left. by apply list_elem_of_further.
    - destruct b as [b|]; simpl in E; [destruct (_ <? _)|]; injection E as <-;
        [left; apply list_elem_of_here | by right | left; apply list_elem_of_here]. }
  apply list_elem_of_In, filter_In in Hr as [Hin Hb].
  apply andb_true_iff in Hb as [Hb1%bool_decide_eq_true Hb2%bool_decide_eq_true].
  split; [done|]. split; [done|]. apply in_map_iff in Hin as ((tok & r') & E & Hin). simpl in E. subst r'.
  exists tok. apply list_elem_of_In in Hin. unfold Rand.range_map in Hin. rewrite Rand.shuffle_perm in Hin.
  by apply elem_of_map_to_list.
Qed.

Lemma triple_fallback n pwd refusal w :
  (forall c, refusal <> Ok c) -> triple (fallback seed n pwd refusal) w (accepted_as n pwd).
Proof.
  intros Hr. assert (forall w', accepted_as n pwd refusal w') as Hr' by (intros w' c E; by destruct (Hr c)).
  eapply triple_bind; [apply triple_select|]. intros [[s|]|e|] w1 _ Hi1 Hs; try by apply triple_ret.
  destruct (Hs _ eq_refl) as (o & E). symmetry in E. apply fmap_Some in E as (r & Er & ->).
  apply recent_row_in in Er as (<- & Hc & tok & Htok).
  eapply triple_then; [apply triple_now|]. intros t w2 Hl2 Hi2.
  destruct (_ <=? _); [by apply triple_ret|]. simpl.
  destruct (decrypt seed (s_enc_password r)) as [p|e|] eqn:Ed; [|by apply triple_ret..].
  destruct (decide (p = pwd)) as [->|]; [|by apply triple_ret].
  apply triple_ret; [done|]. intros c [= <-]. split; [done|].
  pose proof (inv_vouched _ Hi1 _ _ Htok) as Hv. unfold vouched in Hv. rewrite decide_False in Hv by done.
  destruct Hv as (p & Ep & Hin). apply (le_accepted _ _ Hl2). congruence.
Qed.
Lemma triple_Login n pwd opts w : triple (Login seed n pwd opts) w (fun _ _ => True).
Proof.
  eapply triple_bind; [apply triple_login|]. intros cam w1 _ Hi1 Hc.
  eapply triple_bind with (P := accepted_as n pwd).
  { destruct cam as [c|e|]; [by apply triple_ret | apply triple_fallback; done..]. }
  intros [c|e|] w2 _ Hi2 Hc2; [|by apply triple_ret..].
  eapply triple_then; [by apply triple_device_checks|]. intros [[]|e|] w3 Hl3 Hi3; [|by apply triple_ret..].
  apply triple_issue; [done|]. destruct (Hc2 _ eq_refl) as [Hn Hin]. split; [done|]. by apply (le_accepted _ _ Hl3).
Qed.

Lemma triple_LoginWithKey n opts w :
  inv w -> key_signed n -> triple (LoginWithKey seed n opts) w (fun _ _ => True).
Proof.
  intros Hi Hk. eapply triple_then; [by apply triple_device_checks|].
  intros [[]|e|] w1 _ Hi1; [|by apply triple_ret..]. by apply triple_issue.
Qed.

Lemma triple_LoginAsProxy n pwd w : triple (LoginAsProxy seed n pwd) w (fun _ _ => True).
Proof.
  eapply triple_bind; [apply triple_login|]. intros [c|e|] w1 _ Hi1 Hc; [|by apply triple_ret..].
  destruct (Hc _ eq_refl) as [Hn Hin].
  eapply triple_then; [apply triple_enabled|]. intros ok w2 Hl2 Hi2.
  assert (entitled n (Some pwd) c w2) as He by (split; [done|]; by apply (le_accepted _ _ Hl2)).
  destruct ok as [[]|e|]; [|by apply triple_ret|..]; by apply triple_issue.
Qed.

Lemma triple_Validate tok w : inv w -> triple (Validate tok) w (fun _ _ => True).
Proof.
  intros Hi. unfold Validate. destruct (decide (tok = [])); [by apply triple_ret|].
  eapply triple_bind; [apply triple_select|]. intros [[s|]|e|] w1 _ Hi1 _; try by apply triple_ret.
  eapply triple_then; [apply triple_enabled|]. intros ok w2 _ Hi2.
  assert (triple (t ← now; _ ← touchSession tok t; Ret (MkVerdict (Username s) (ClientID s) (DeviceID s) false)) w2
    (fun _ _ => True)) as Ht.
  { eapply triple_then; [apply triple_now|]. intros t w3 _ Hi3.
    eapply triple_then; [apply triple_touch|]. intros; by apply triple_ret. }
  destruct ok as [[]|e|]; [exact Ht | by apply triple_ret | exact Ht | exact Ht].
Qed.

(** A row read earlier: its token had a session then, and the row under it, if there
    is one, has a Camerlengo session exactly when the copy has. *)
Definition known (s : Session) (w : world) : Prop :=
  Token s ∈ born w /\
  forall r, t_sessions (db w) !! Token s = Some r -> (s_cam_session r = [] <-> CamSession s = []).

Lemma known_le s w w' : le w w' -> known s w -> known s w'.
Proof.
  intros Hl [Hb Hr]. split; [by apply (le_born _ _ Hl)|]. intros r H.
  destruct (le_sessions _ _ Hl _ _ H Hb) as (r0 & H0 & (_ & _ & _ & Hiff)). rewrite <- Hiff. by apply Hr.
Qed.

Lemma triple_refreshOne s t w : inv w -> known s w -> triple (refreshOne seed s t) w (fun _ _ => True).
Proof.
  intros Hi Hk. unfold refreshOne.
  destruct (_ <? _); [by apply triple_ret|].
  destruct (_ <? _).
  { eapply triple_then; [apply triple_delete|]. intros; by apply triple_ret. }
  destruct (decide (CamSession s = [])) as [|Hc]; [by apply triple_ret|].
  destruct (_ <? _); [by apply triple_ret|].
  assert (forall c w', le w w' -> c <> [] -> triple (_ ← updateCamSession (Token s) c t; Ret ()) w' (fun _ _ => True)) as Hu.
  { intros c w' Hl Hn. destruct (known_le _ _ _ Hl Hk) as [Hb Hr].
    eapply triple_then; [apply triple_updateCam; [done|done|]|intros; by apply triple_ret].
    intros r H. destruct (Hr _ H). tauto. }
  eapply triple_then; [apply triple_touchAttempt|]. intros _ w1 Hl1 Hi1.
  eapply triple_then; [apply triple_sleep|]. intros _ w2 Hl2 Hi2.
  eapply triple_then; [apply triple_query|]. intros [u|e|] w3 Hl3 Hi3; [|by apply triple_ret..].
  assert (le w w3) as Hl by eauto using wle_trans.
  destruct (decide (u <> [])); [by apply Hu|].
  destruct (decrypt seed (EncPassword s)) as [pwd|e|]; [|by apply triple_ret..].
  eapply triple_bind; [apply triple_login|]. intros [c|e|] w4 Hl4 Hi4 Hcam; [|by apply triple_ret..].
  apply Hu; [by eapply wle_trans|]. by apply (Hcam c).
Qed.

Lemma triple_refresh_each t l w : inv w -> Forall (fun s => known s w) l -> triple (refresh_each seed t l) w (fun _ _ => True).
Proof.
  revert w. induction l as [|s l IH]; intros w Hi Hl; [by apply triple_ret|].
  apply Forall_cons in Hl as [Hs Hl]. eapply triple_then; [by apply triple_refreshOne|].
  intros _ w' Hle Hi'. apply IH; [done|]. eapply Forall_impl; [exact Hl|]. eauto using known_le.
Qed.

Lemma triple_refreshAll w : triple (refreshAll seed) w (fun _ _ => True).
Proof.
  eapply triple_bind; [apply triple_select|]. intros [l|e|] w1 _ Hi1 Hl; [|by apply triple_ret..].
  destruct (Hl _ eq_refl) as (o & ->).
  eapply triple_then; [apply triple_now|]. intros t w2 Hl2 Hi2. apply triple_refresh_each; [done|].
  apply Forall_map, Forall_forall. intros [tok r] Hin. eapply known_le; [exact Hl2|].
  unfold Rand.range_map in Hin. rewrite Rand.shuffle_perm in Hin. apply elem_of_map_to_list in Hin.
  destruct (inv_born _ Hi1 _ _ Hin) as (Hb & _ & Et). split; simpl; rewrite Et; [done|].
  intros r' Hr'. by simplify_eq.
Qed.

Lemma triple_handleKeyAuth body w : inv w -> triple (handleKeyAuth seed pub body) w (fun _ _ => True).
Proof.
  intros Hi. unfold handleKeyAuth. destruct (key_request body) as [q|]; [|by apply triple_ret].
  destruct (decide _); [by apply triple_ret|].
  destruct (marshal_canon (q_canon q)) as [m|e|]; [|by apply triple_ret..].
  destruct (auth_sig_ok pub (q_canon q) (q_auth_sig q)) eqn:Es; cbn [negb]; [|by apply triple_ret].
  eapply triple_then.
  { destruct (decide _); [by apply triple_ret|]. eapply triple_bind; [apply triple_select|].
    intros [[k|]|e|] w1 _ Hi1 _; try by apply triple_ret. destruct (PaidUntil k); [|by apply triple_ret].
    eapply triple_then; [apply triple_now|]. intros; by apply triple_ret. }
  intros [] w1 _ Hi1; [by apply triple_ret|].
  eapply triple_then; [apply triple_LoginWithKey; [done|]; by exists (q_canon q), (q_auth_sig q)|].
  intros; by apply triple_ret.
Qed.

Lemma triple_handleClientRequest body w :
  inv w -> triple (handleClientRequest seed pub body) w (fun _ _ => True).
Proof.
  intros Hi. unfold handleClientRequest. destruct body as [body|]; [|by apply triple_ret].
  cbv zeta. destruct (decide _).
  { eapply triple_then; [apply triple_Login|]. intros; by apply triple_ret. }
  destruct (decide _); [by apply triple_handleKeyAuth | by apply triple_ret].
Qed.

Lemma triple_apiProxyValidate tok body w : inv w -> triple (apiProxyValidate seed tok body) w (fun _ _ => True).
Proof.
  intros Hi. unfold apiProxyValidate. destruct (decide _); [by apply triple_ret|].
  eapply triple_then; [by apply triple_Validate|]. intros v w1 _ Hi1.
  destruct (decide _); [by apply triple_ret|]. destruct (proxy_request body) as [[u p]|]; [|by apply triple_ret].
  destruct (decide _); [by apply triple_ret|].
  eapply triple_then; [apply triple_LoginAsProxy|]. intros; by apply triple_ret.
Qed.

(** ** Everything that runs *)

Inductive request : M unit -> Prop :=
| req_client body : request (forget (handleClientRequest seed pub body))
| req_proxy tok body : request (forget (apiProxyValidate seed tok body))
| req_web username password : request (forget (Login seed username password None))
| req_validate tok : request (forget (Validate tok))
| req_refresh : request (refreshAll seed)
| req_user username : request (forget (getOrCreateUser username))
| req_enable_user username enabled : request (forget (SetUserEnabled username enabled))
| req_log_user username enabled : request (forget (setUserLogUploadEnabled username enabled))
| req_log_admin username disabled : request (forget (setUserLogUploadAdminDisabled username disabled))
| req_log_global enabled : request (forget (setGlobalLogUploadEnabled enabled))
| req_log_allowed username : request (forget (logUploadAllowed username))
| req_register keyID username source : request (forget (RegisterKey keyID username source))
| req_enable_key keyID enabled : request (forget (SetKeyEnabled keyID enabled))
| req_unlimited keyID unlimited : request (forget (SetKeyUnlimitedDevices keyID unlimited))
| req_unbind keyID : request (forget (UnbindKey keyID))
| req_paid keyID until pia : request (forget (SetKeyPaidUntil keyID until pia))
| req_perpetual keyID : request (forget (ClearKeyPaidUntil keyID))
| req_expire : request (forget DisableExpiredKeys).

Lemma triple_forget {A} (p : M A) w : triple p w (fun _ _ => True) -> triple (forget p) w (fun _ _ => True).
Proof. intros H. eapply triple_then; [exact H|]. intros; by apply triple_ret. Qed.

Lemma triple_user_column n f w :
  (forall u, u_username (f u) = u_username u /\ u_client_id (f u) = u_client_id u) ->
  triple (update (set_users (alter f n))) w (fun _ _ => True).
Proof. intros Hf. apply triple_update. intros w1 _ Hi. by apply lawful_alter_user. Qed.

Lemma triple_DisableExpiredKeys w : triple DisableExpiredKeys w (fun _ _ => True).
Proof.
  eapply triple_then; [apply triple_now|]. intros t w1 _ Hi1.
  eapply triple_bind; [apply triple_select|]. intros [l|e|] w2 _ Hi2 _; [|by apply triple_ret..].
  generalize (Ok l) at 1. intros r. revert w2 Hi2. induction l as [|k l IH]; intros w2 Hi2; [by apply triple_ret|].
  cbn [foldr]. eapply triple_then; [apply triple_keys|]. intros _ w3 _ Hi3. by apply IH.
Qed.

Lemma triple_logUploadAllowed n w : inv w -> triple (logUploadAllowed n) w (fun _ _ => True).
Proof.
  intros _. eapply triple_then.
  { eapply triple_bind; [apply triple_select|]. intros r w1 _ Hi1 _. by apply triple_ret. }
  intros [] w1 _ Hi1; cbn [negb]; [|by apply triple_ret].
  destruct (decide (n = [])) as [|Hn]; [by apply triple_ret|].
  eapply triple_then; [|intros; by apply triple_ret]. unfold userLogUploadPrefs. rewrite decide_False by done.
  eapply triple_bind; [apply triple_select|]. intros r w2 _ Hi2 _. by apply triple_ret.
Qed.

Lemma request_keeps p w : request p -> inv w -> triple p w (fun _ _ => True).
Proof.
  intros Hp Hi. destruct Hp; try apply triple_forget.
  - by apply triple_handleClientRequest.
  - by apply triple_apiProxyValidate.
  - apply triple_Login.
  - by apply triple_Validate.
  - apply triple_refreshAll.
  - eapply triple_mono; [by apply triple_getOrCreateUser|done].
  - by apply triple_user_column.
  - by apply triple_user_column.
  - by apply triple_user_column.
  - apply triple_update. intros w1 _ Hi1. by apply lawful_other.
  - by apply triple_logUploadAllowed.
  - eapply triple_then; [apply triple_now|]. intros. apply triple_keys.
  - apply triple_keys.
  - apply triple_keys.
  - apply triple_keys.
  - apply triple_keys.
  - apply triple_keys.
  - apply triple_DisableExpiredKeys.
Qed.

(** The arbiter at its first start, at time [t]. *)
Definition first_start (t : Z) : world := MkWorld no_rows t [] [] ∅.

Lemma first_start_inv t : inv (first_start t).
Proof. by split. Qed.

Lemma reachable_inv t y : sreach exec fresh_tokens request (first_start t) y -> inv (shared y).
Proof.
  intros H. eapply (sreach_inv exec fresh_tokens inv le wle_refl wle_trans) in H; [apply H|apply first_start_inv|].
  intros p w Hp Hi. eapply wp_mono; [by apply request_keeps|]. done.
Qed.

(** C2: Every session the arbiter holds, after any interleaving of logins (by password, by key,
    for a proxy), validations, refresher passes and administrators' changes, with statements
    failing or losing their replies and Camerlengo answering anything, provided no token is
    issued twice, is under its own non-empty token, belongs to a user on record and carries that
    user's billing identifier; and it is vouched for: if it has a Camerlengo session, its stored
    password decrypts to one Camerlengo accepted for that user, and if not, some key with that
    user's name carries the arbiter's signature. *)
Theorem sessions_vouched t y tok s :
  sreach exec fresh_tokens request (first_start t) y ->
  t_sessions (db (shared y)) !! tok = Some s ->
  s_token s = tok /\ tok <> [] /\
  (exists u, t_users (db (shared y)) !! s_username s = Some u /\ u_client_id u = s_client_id s /\ s_client_id s <> []) /\
  (s_cam_session s = [] -> exists c sig, c_username c = s_username s /\ auth_sig_ok pub c sig = true) /\
  (s_cam_session s <> [] ->
     exists pwd, decrypt seed (s_enc_password s) = Ok pwd /\ (s_username s, pwd) ∈ accepted (shared y)).
Proof.
  intros Hr Hs. apply reachable_inv in Hr. destruct (inv_born _ Hr _ _ Hs) as (_ & Hn & Ht).
  destruct (inv_owner _ Hr _ _ Hs) as (u & Hu & Ec). pose proof (inv_vouched _ Hr _ _ Hs) as Hv. unfold vouched in Hv.
  split; [done|]. split; [done|]. split; [|by destruct (decide (s_cam_session s = []))].
  exists u. split; [done|]. split; [done|]. rewrite <- Ec. by apply (inv_users _ Hr _ _ Hu).
Qed.
End invariant.

(** A run during which no session has been issued before its last statement. *)
Fixpoint first_issue {A} (es : nat -> Env) (n : nat) (p : M A) (w : world) : bool :=
  match p with
  | Ret _ => true
  | Do o k => bool_decide (born w = ∅) && first_issue es (S n) (k (exec (es n) o w).1) (exec (es n) o w).2
  end.

Lemma first_issue_ok {A} es n (p : M A) w :
  first_issue es n p w = true -> run_ok exec fresh_tokens es n p w.
Proof.
  revert n w. induction p as [a|o k IH]; intros n w H; [done|]. cbn [first_issue] in H.
  apply andb_true_iff in H as [Hb%bool_decide_eq_true H]. split; [|by apply IH].
  intros tok _ _. rewrite Hb. set_solver.
Qed.

(** An environment in which everything works. *)
Definition good_env : Env :=
  MkEnv 0 Done id (Some [7; 8; 9]) (Some (MkReply (bs "ok") [] [] (bs "cam1"))) (Some (bs "ann")).
#[local] Instance toy_codec : ArbiterCodec :=
  {| command_of b := take 14 b; string_member b k := bs "x"; key_request _ := None;
     marshal_canon c := Ok (c_username c); proxy_request _ := None |}.

Definition after_login : world :=
  (run exec (fun _ => good_env) 0 (forget (Login [] (bs "ann") (bs "pw") None)) (first_start 0)).2.
Definition issued_token : gostring := Base64.encode (resize 32 0 [7; 8; 9]).

Lemma after_login_reachable :
  sreach exec fresh_tokens (request [] []) (first_start 0) (MkSystem after_login [Ret ()]).
Proof.
  apply (reach_run exec fresh_tokens _ _ (fun _ => good_env) 0 _ _ []); [constructor | | constructor].
  apply first_issue_ok. by vm_compute.
Qed.

Lemma sessions_vouched_witness :
  exists s, t_sessions (db after_login) !! issued_token = Some s /\
  exists pwd, decrypt [] (s_enc_password s) = Ok pwd /\ (bs "ann", pwd) ∈ accepted after_login.
Proof.
  destruct (t_sessions (db after_login) !! issued_token) as [s|] eqn:E; [|by vm_compute in E].
  exists s. split; [done|].
  destruct (sessions_vouched [] [] 0 _ issued_token s after_login_reachable E) as (_ & _ & _ & _ & H).
  revert E H. vm_compute (t_sessions _ !! _). intros [= <-] H. apply H. by vm_compute.
Defined.
End Logins.
