(* ===== verification/ArbiterExpiry.v ===== *)
(** * snc-arbiter: how long logins take and sessions last

    Logins return: the retry loop of auth.go ends whatever Camerlengo answers and
    however other requests are interleaved, as long as the clock does not go back.
    [Validate] denies for cause only, and a pass of the refresher ends exactly the
    sessions that were not validated for three hours. The last section holds what
    these rules do not prevent. *)

From stdpp Require Import base list gmap strings fin_maps.
From Stdlib Require Import ZArith Lia.
From S2P Require Import Prelude GoLib Effects ArbiterStore ArbiterSessions.

Module Expiry.
Import Store Sessions.

(** ** Logins end *)

(** Any environment, and interference that does not turn the clock back. *)
Definition anytime {A} (p : M A) (w : world) (Q : A -> world -> Prop) : Prop :=
  wp exec (fun _ _ _ => True) (fun w w' => clock w <= clock w') (fun _ _ => True) p w Q.

Lemma anytime_call {A} (o : Op) (k : Resp o -> M A) w Q :
  (forall w1 e, clock w <= clock w1 -> anytime (k (exec e o w1).1) (exec e o w1).2 Q) ->
  anytime (Do o k) w Q.
Proof. intros H w1 Hc e _. specialize (H w1 e Hc). by destruct (exec e o w1). Qed.

Lemma exec_clock e o w : clock w <= clock (exec e o w).2.
Proof.
  destruct o; simpl; try lia.
  - destruct (q (e_order e) (db w)), (e_sql e); simpl; lia.
  - destruct (e_rand e); simpl; lia.
  - destruct (e_verify e) as [v|]; simpl; [destruct (lets_in v); simpl|]; lia.
Qed.

(** The waits of the next [n] attempts, the first of them [rd]. *)
Fixpoint waits (n : nat) (rd : Z) : Z :=
  match n with O => 0 | S n => rd + waits n (Z.min (rd * 2) maxRetryDelay) end.

Definition returns (r : res gostring) (_ : world) : Prop := r <> Panic.

Section retry.
Context (n pwd : gostring) (dl : Z).

(** After the wait: the attempt, and the loop again unless the deadline has passed. *)
Lemma attempt_ends fuel rd w :
  dl < clock w + waits fuel rd ->
  (forall w', clock w' <= dl -> dl < clock w' + waits fuel rd ->
     anytime (login_loop fuel false dl rd n pwd) w' returns) ->
  anytime (login_loop (S fuel) true dl rd n pwd) w returns.
Proof.
  intros Hd IH. apply anytime_call. intros w1 e H1. pose proof (exec_clock e (CamVerify n pwd) w1) as Hc.
  destruct (exec e (CamVerify n pwd) w1) as [r w2]. cbn [fst snd] in *.
  assert (forall err, anytime (t ← now; if dl <? t then Ret (Err err) else login_loop fuel false dl rd n pwd) w2 returns)
    as Hagain.
  { intros err. apply anytime_call. intros w3 e3 H3. simpl.
    destruct (Z.ltb_spec dl (clock w3 + Z.max 0 (e_delay e3))); [done|]. apply IH; simpl; lia. }
  destruct r as [v|err|]; [|apply Hagain..].
  cbn [bind]. destruct (decide (Status v = bs "error")); [done|].
  destruct (decide (ReplySession v <> [])); [done | apply Hagain].
Qed.

Lemma login_loop_ends fuel rd w :
  0 <= rd -> clock w <= dl -> dl < clock w + waits fuel rd ->
  anytime (login_loop fuel false dl rd n pwd) w returns.
Proof.
  revert rd w. induction fuel as [|fuel IH]; intros rd w Hrd Hc Hd; [simpl in Hd; lia|].
  apply anytime_call. intros w1 e H1. set (w2 := (exec e (Sleep rd) w1).2).
  assert (clock w + rd <= clock w2) by (simpl; lia).
  apply (attempt_ends fuel (Z.min (rd * 2) maxRetryDelay) w2); [cbn [waits] in Hd; lia|].
  intros w' Hc' Hd'. apply IH; [unfold maxRetryDelay, second; lia | done | done].
Qed.
End retry.

(** C26: A login at Camerlengo returns. Whatever Camerlengo answers, however long each call
    takes, and whatever other requests do in between, the retry loop ends with a session or an
    error after at most thirteen attempts, because the doubling waits between them pass the
    five-minute deadline; the only assumption is that the clock is not turned back. *)
Theorem login_terminates username password w :
  anytime (login username password) w (fun r _ => r <> Panic).
Proof.
  apply anytime_call. intros w1 e _. cbn [exec fst snd]. set (w2 := tick (e_delay e) w1).
  apply attempt_ends; [vm_compute (waits 12 (5 * second)); vm_compute (loginMaxRetryDuration); lia|].
  intros w' Hc Hd. apply login_loop_ends; [unfold second; lia | done | done].
Qed.

(** ** One request at a time *)

(** Statements work, nobody interferes. *)
Definition works (e : Env) (_ : Op) (_ : world) : Prop := e_sql e = Done.
Definition alone {A} (p : M A) (w : world) (Q : A -> world -> Prop) : Prop :=
  wp exec works eq (fun _ _ => True) p w Q.

Lemma alone_call {A} (o : Op) (k : Resp o -> M A) w Q :
  (forall e, e_sql e = Done -> alone (k (exec e o w).1) (exec e o w).2 Q) -> alone (Do o k) w Q.
Proof. intros H w1 <- e He. specialize (H e He). by destruct (exec e o w). Qed.

Lemma alone_bind {A B} (p : M A) (f : A -> M B) w P Q :
  alone p w P -> (forall a w', P a w' -> alone (f a) w' Q) -> alone (p ≫= f) w Q.
Proof. intros Hp Hf. apply wp_bind. eapply wp_mono; [exact Hp|]. exact Hf. Qed.

Lemma alone_mono {A} (p : M A) w (P Q : A -> world -> Prop) :
  alone p w P -> (forall a w', P a w' -> Q a w') -> alone p w Q.
Proof. apply wp_mono. Qed.

(** What is left of the state when a login at Camerlengo has returned: the tables. *)
Definition tables_kept (w : world) (r : res gostring) (w' : world) : Prop :=
  db w' = db w /\ clock w <= clock w' /\ forall c, r = Ok c -> c <> [].

Lemma tables_kept_trans w w1 r w2 :
  db w1 = db w -> clock w <= clock w1 -> tables_kept w1 r w2 -> tables_kept w r w2.
Proof. intros Hd Hc (H1 & H2 & H3). repeat split; [congruence | lia | done]. Qed.

Lemma alone_attempt fuel dl rd n pwd w :
  (forall w, alone (login_loop fuel false dl rd n pwd) w (tables_kept w)) ->
  alone (login_loop (S fuel) true dl rd n pwd) w (tables_kept w).
Proof.
  intros IH. apply alone_call. intros e He. pose proof (exec_clock e (CamVerify n pwd) w) as Hc.
  assert (db (exec e (CamVerify n pwd) w).2 = db w) as Hd.
  { simpl. destruct (e_verify e) as [v|]; [destruct (lets_in v)|]; done. }
  destruct (exec e (CamVerify n pwd) w) as [r w1]. cbn [fst snd] in *.
  assert (forall err, alone (t ← now; if dl <? t then Ret (Err err) else login_loop fuel false dl rd n pwd) w1
    (tables_kept w)) as Hagain.
  { intros err. apply alone_call. intros e2 _. cbn [exec fst snd bind].
    destruct (_ <? _); [repeat split; simpl; [done|lia|done]|].
    eapply wp_mono; [apply IH|]. intros a w'. apply tables_kept_trans; simpl; [done|lia]. }
  destruct r as [v|err|]; [|apply Hagain..]. cbn [bind].
  destruct (decide (Status v = bs "error")); [by repeat split|].
  destruct (decide (ReplySession v <> [])); [|apply Hagain].
  repeat split; [done|lia|]. by intros c [= <-].
Qed.

Lemma alone_login_loop fuel first dl rd n pwd w :
  alone (login_loop fuel first dl rd n pwd) w (tables_kept w).
Proof.
  revert first rd w. induction fuel as [|fuel IH]; intros first rd w; [repeat split; [lia|done]|].
  destruct first; [by apply alone_attempt|].
  apply alone_call. intros e He. eapply wp_mono; [apply (alone_attempt fuel dl (Z.min (rd * 2) maxRetryDelay)); auto|].
  intros a w'. apply tables_kept_trans; simpl; [done|lia].
Qed.

Lemma alone_now w : alone now w (fun t w' => db w' = db w /\ clock w <= t /\ clock w' = t /\ asked w' = asked w).
Proof. apply alone_call. intros e _. repeat split; simpl; lia. Qed.

Lemma alone_login n pwd w : alone (login n pwd) w (tables_kept w).
Proof.
  unfold login. eapply (alone_bind now); [apply alone_now|]. intros t w1 (Hd & Hc & Ht & _).
  cbv beta. eapply alone_mono; [apply alone_login_loop|]. intros a w'. apply tables_kept_trans; [done|lia].
Qed.
(** ** Validation *)

(** The arbiter's reasons to deny a token. *)
Definition deniable (t : tables) (tok : gostring) : Prop :=
  tok = [] \/ t_sessions t !! tok = None \/
  exists s u, t_sessions t !! tok = Some s /\ t_users t !! s_username s = Some u /\ u_enabled u = false.

Definition touched (at_ : Z) (r : session_row) : session_row :=
  MkSessionRow (s_token r) (s_username r) (s_client_id r) (s_device_id r) (s_device_name r) (s_enc_password r)
    (s_cam_session r) (time_seconds at_) (s_last_attempt r).

Lemma alter_touched t tok s at_ :
  t_sessions t !! tok = Some s ->
  alter (touched at_) tok (t_sessions t) = <[tok := touched at_ s]> (t_sessions t).
Proof.
  intros H. apply map_eq. intros k. destruct (decide (tok = k)) as [<-|Hn].
  - by rewrite lookup_alter_eq, lookup_insert_eq, H.
  - by rewrite lookup_alter_ne, lookup_insert_ne.
Qed.

(** Validate denies for cause only: whatever statements fail, a denied token is empty, has
    no session, or belongs to a suspended user. When the statements work the verdict is exact:
    such a token is denied, and any other gets its session's user, billing identifier and
    device, the session being marked as validated at a moment of the call and nothing else in
    the tables changing. *)
Theorem Validate_verdict tok w es n :
  let (v, w') := run exec es n (Validate tok) w in
  (v_denied v = true -> deniable (db w) tok) /\
  ((forall i, e_sql (es i) = Done) ->
   (deniable (db w) tok -> v = MkVerdict [] [] [] true /\ db w' = db w) /\
   (~ deniable (db w) tok -> exists s t, t_sessions (db w) !! tok = Some s /\
      v = MkVerdict (s_username s) (s_client_id s) (s_device_id s) false /\
      clock w <= t <= clock w' /\
      db w' = set_sessions (fun m => <[tok := touched t s]> m) (db w))).
Proof.
  unfold Validate, deniable. destruct (decide (tok = [])) as [->|Ht]; [simpl; tauto|].
  cbn. destruct (t_sessions (db w) !! tok) as [s|] eqn:Es; cbn.
  2:{ destruct (e_sql (es n)) eqn:E; cbn; (split; [by auto|]); intros Hw; split; auto; try tauto;
        specialize (Hw n); congruence. }
  destruct (e_sql (es n)) eqn:E0; cbn.
  2,3: split; [done|]; intros Hw; specialize (Hw n); congruence.
  destruct (t_users (db w) !! s_username s) as [u|] eqn:Eu; cbn;
    [destruct (u_enabled u) eqn:Een|];
    (destruct (e_sql (es (S n))) eqn:E1; cbn;
      [|destruct (e_sql (es (S (S (S n))))) eqn:E3; cbn;
         (split; [done|]); intros Hw; specialize (Hw (S n)); congruence..]).
  2: { split; [eauto 10|]. intros Hw. split; [done|]. intros Hd. exfalso. apply Hd. eauto 10. }
  all: destruct (e_sql (es (S (S (S n))))) eqn:E3; cbn; (split; [done|]); intros Hw;
    specialize (Hw (S (S (S n)))); try congruence; split;
    [intros [?|[?|(s' & u' & H1 & H2 & H3)]]; [done|done|congruence]|].
  all: intros _; eexists s, _; split; [done|]; split; [done|];
    (split; [|unfold set_sessions; cbn; f_equal; by apply alter_touched]); cbn; lia.
Qed.

(** ** A pass of the refresher *)

(** What becomes of a session in a pass that reads the clock at [t]: removed after
    three hours without validation, otherwise kept with its holder, and left alone
    within fifteen minutes. *)
Definition holder (r : session_row) : gostring * gostring * gostring * gostring * gostring * bytes :=
  (s_token r, s_username r, s_client_id r, s_device_id r, s_device_name r, s_enc_password r).
Definition kept (t : Z) (r r' : session_row) : Prop :=
  holder r' = holder r /\ (s_cam_session r = [] <-> s_cam_session r' = []) /\
  (s_cam_session r = [] \/ t - time_Unix (s_validated_at r) < sessionValidateTTL -> r' = r).
Definition outcome (t : Z) (o o' : option session_row) : Prop :=
  match o with
  | None => o' = None
  | Some r => if sessionStaleTTL <? t - time_Unix (s_validated_at r) then o' = None
              else exists r', o' = Some r' /\ kept t r r'
  end.

Lemma kept_refl t r : kept t r r.
Proof. by repeat split. Qed.

Section pass.
Context {AE : Aead} {BL : Blake2b} (seed : bytes).

(** Only the row of token [tok] may change, as [P] says. *)
Definition only (tok : gostring) (w : world) (P : option session_row -> option session_row -> Prop)
    (w' : world) : Prop :=
  t_users (db w') = t_users (db w) /\ clock w <= clock w' /\
  (forall k, k <> tok -> t_sessions (db w') !! k = t_sessions (db w) !! k) /\
  P (t_sessions (db w) !! tok) (t_sessions (db w') !! tok).

Lemma alone_sessions {A} f (k : res unit -> M A) w Q :
  (forall d, alone (k (Ok ())) (with_db (set_sessions f (db w)) (tick d w)) Q) ->
  alone (bind k (update (set_sessions f))) w Q.
Proof. intros H. apply alone_call. intros e He. cbn. rewrite He. apply H. Qed.

Lemma alone_updateCam s c t w r Q :
  t_sessions (db w) !! Token s = Some r ->
  (forall w', only (Token s) w (fun _ o' => o' = Some
     (MkSessionRow (s_token r) (s_username r) (s_client_id r) (s_device_id r) (s_device_name r) (s_enc_password r)
        c (time_seconds t) (time_seconds t))) w' -> Q () w') ->
  alone (_ ← updateCamSession (Token s) c t; Ret ()) w Q.
Proof.
  intros Hr HQ. apply alone_sessions. intros d. apply HQ. unfold only. cbn. repeat split; [lia| |].
  - intros k Hk. by rewrite lookup_alter_ne.
  - by rewrite lookup_alter_eq, Hr.
Qed.
Definition marked (t : Z) (r : session_row) : session_row :=
  MkSessionRow (s_token r) (s_username r) (s_client_id r) (s_device_id r) (s_device_name r) (s_enc_password r)
    (s_cam_session r) (s_validated_at r) (time_seconds t).

(** Up to the answer about the Camerlengo session. *)
Lemma alone_ask {A} s t r (k : res gostring -> M A) w Q :
  t_sessions (db w) !! Token s = Some r ->
  (forall u w', only (Token s) w (fun _ o' => o' = Some (marked t r)) w' -> alone (k u) w' Q) ->
  alone (_ ← touchLastAttempt (Token s) t; _ ← call (Sleep sessionRefreshPause); u ← querySession (CamSession s); k u) w Q.
Proof.
  intros Hr HQ. apply alone_sessions. intros d. apply alone_call. intros e1 _. apply alone_call. intros e2 _.
  apply HQ. unfold only. cbn. repeat split; [lia| |].
  - intros k' Hk. by rewrite lookup_alter_ne.
  - by rewrite lookup_alter_eq, Hr.
Qed.

Lemma only_trans tok w w1 w2 P Q :
  only tok w P w1 -> only tok w1 (fun _ => Q) w2 -> only tok w (fun _ => Q) w2.
Proof.
  intros (U1 & C1 & O1 & _) (U2 & C2 & O2 & H). repeat split; [congruence|lia| |done].
  intros k Hk. by rewrite O2, O1.
Qed.

Lemma only_kept tok w t r r' w' :
  t_sessions (db w) !! tok = Some r -> (sessionStaleTTL <? t - time_Unix (s_validated_at r)) = false ->
  kept t r r' -> only tok w (fun _ o' => o' = Some r') w' -> only tok w (outcome t) w'.
Proof.
  intros Hr Hs Hk (U & C & O & H). repeat split; try done. rewrite Hr. simpl. rewrite Hs. eauto.
Qed.

Lemma alone_refreshOne r t w :
  t_sessions (db w) !! s_token r = Some r ->
  alone (refreshOne seed (scan_session r) t) w (fun _ w' => only (s_token r) w (outcome t) w').
Proof.
  intros Hr. set (s := scan_session r). unfold refreshOne.
  assert (sessionStaleTTL <? t - time_Unix (s_validated_at r) = false ->
    only (s_token r) w (outcome t) w) as Hsame.
  { intros Hs. split; [done|]. split; [lia|]. split; [done|]. rewrite Hr. simpl. rewrite Hs. eauto using kept_refl. }
  destruct (Z.ltb_spec (t - ValidatedAt s) sessionValidateTTL) as [|Hold].
  { apply Hsame. apply Z.ltb_ge. change (ValidatedAt s) with (time_Unix (s_validated_at r)) in *.
    unfold sessionValidateTTL, sessionStaleTTL, hour, minute, second in *. lia. }
  change (ValidatedAt s) with (time_Unix (s_validated_at r)) in *.
  destruct (sessionStaleTTL <? t - time_Unix (s_validated_at r)) eqn:Hs.
  { apply alone_sessions. intros d. unfold only. cbn. repeat split; [lia| |].
    - intros k Hk. by rewrite lookup_delete_ne.
    - rewrite Hr, lookup_delete_eq. simpl. by rewrite Hs. }
  destruct (decide (CamSession s = [])) as [|Hc]; [by apply Hsame|].
  destruct (t - LastAttempt s <? sessionRetryCooldown); [by apply Hsame|].
  assert (forall r', holder r' = holder r -> s_cam_session r' <> [] -> kept t r r') as Hkept.
  { intros r' Hh Hc'. split; [done|]. split; [tauto|]. intros [?|?]; [done|lia]. }
  apply (alone_ask s t r); [done|]. intros u w1 H1.
  assert (t_sessions (db w1) !! s_token r = Some (marked t r)) as Hr1 by apply H1.
  assert (only (s_token r) w (outcome t) w1) as Hask by (apply (only_kept _ _ _ r (marked t r)); [done|done|apply Hkept; [reflexivity|exact Hc]|exact H1]).
  assert (forall c w2, db w2 = db w1 -> clock w1 <= clock w2 -> c <> [] ->
    alone (_ ← updateCamSession (Token s) c t; Ret ()) w2 (fun _ w' => only (s_token r) w (outcome t) w')) as Hupd.
  { intros c w2 Hd Hck Hn. apply (alone_updateCam s c t w2 (marked t r)); [by rewrite Hd|]. intros w3 H3.
    destruct H3 as (U & C & O & H3). rewrite Hd in *.
    eapply (only_kept _ _ _ r); [done|done| |eapply only_trans; [exact H1|repeat split; [done|lia|done|exact H3]]].
    apply Hkept; [reflexivity | exact Hn]. }
  assert (forall w2, db w2 = db w1 -> clock w1 <= clock w2 -> only (s_token r) w (outcome t) w2) as Hret.
  { intros w2 Hd Hck. destruct Hask as (U & C & O & H). unfold only. rewrite Hd. repeat split; [done|lia|done|done]. }
  destruct u as [u|e|]; [|exact Hask..].
  destruct (decide (u <> [])); [apply Hupd; [done|lia|done]|].
  destruct (decrypt seed (EncPassword s)) as [pwd|e|]; [|exact Hask..].
  eapply alone_bind; [apply alone_login|]. intros [c|e|] w2 (Hd & Hck & Hn).
  - apply Hupd; [done|done|by apply Hn].
  - apply (Hret w2 Hd Hck).
  - apply (Hret w2 Hd Hck).
Qed.

(** The row a listed session stands for. *)
Lemma alone_refresh_each t rows w :
  NoDup (map s_token rows) -> Forall (fun r => t_sessions (db w) !! s_token r = Some r) rows ->
  alone (refresh_each seed t (map scan_session rows)) w (fun _ w' =>
    t_users (db w') = t_users (db w) /\
    forall tok, (tok ∉ map s_token rows -> t_sessions (db w') !! tok = t_sessions (db w) !! tok) /\
      (tok ∈ map s_token rows -> outcome t (t_sessions (db w) !! tok) (t_sessions (db w') !! tok))).
Proof.
  revert w. induction rows as [|r rows IH]; intros w Hnd Hrows.
  { split; [done|]. intros tok. split; [done|]. by intros ?%not_elem_of_nil. }
  cbn [map] in *. apply NoDup_cons in Hnd as [Hni Hnd]. apply Forall_cons in Hrows as [Hr Hrows].
  cbn [refresh_each]. eapply alone_bind; [by apply alone_refreshOne|].
  intros _ w1 (U1 & C1 & O1 & H1). eapply alone_mono; [apply IH; [done|]|].
  - apply Forall_forall. intros r' Hin. rewrite O1; [by apply (proj1 (Forall_forall _ _) Hrows)|].
    intros E. apply Hni. rewrite <- E. by apply list_elem_of_fmap_2.
  - intros _ w2 (U2 & H2). split; [congruence|]. intros tok. destruct (H2 tok) as [H2a H2b].
    rewrite elem_of_cons.
    destruct (decide (tok = s_token r)) as [->|Hn].
    + split; [tauto|]. intros _. by rewrite H2a.
    + rewrite (O1 tok Hn) in *. split; [|tauto]. intros H. apply H2a. tauto.
Qed.

Lemma perm_tokens (o : nat -> nat) (m : gmap gostring session_row) :
  (forall tok r, m !! tok = Some r -> s_token r = tok) ->
  map s_token (map snd (Rand.range_map o m)) = map fst (Rand.range_map o m).
Proof.
  intros Hk. rewrite map_map. apply map_ext_in. intros [tok r] Hin. apply list_elem_of_In in Hin.
  unfold Rand.range_map in Hin. rewrite Rand.shuffle_perm in Hin. apply elem_of_map_to_list in Hin. by apply Hk.
Qed.
Lemma range_map_NoDup {A} (o : nat -> nat) (m : gmap gostring A) : NoDup (map fst (Rand.range_map o m)).
Proof. unfold Rand.range_map. rewrite Rand.shuffle_perm. apply NoDup_fst_map_to_list. Qed.

Lemma alone_select {A} (q : (nat -> nat) -> tables -> A) w :
  alone (select q) w (fun r w' => exists o, r = Ok (q o (db w)) /\ db w' = db w /\ clock w <= clock w').
Proof.
  apply alone_call. intros e He. cbn [exec]. rewrite He. exists (e_order e).
  split; [done|]. split; [done|]. simpl. lia.
Qed.

(** A refresher pass during which no other request runs and the statements work decides
    every session by the clock it read at its start: it removes exactly the sessions not
    validated for more than three hours, leaves alone those validated within fifteen minutes and
    those of key logins, and keeps for all others the token, user, billing identifier, device
    and stored password, replacing a Camerlengo session only by another, whatever Camerlengo
    answers. *)
Theorem refresh_pass w :
  (forall tok r, t_sessions (db w) !! tok = Some r -> s_token r = tok) ->
  wp exec works eq (fun _ _ => True) (refreshAll seed) w (fun _ w' =>
    t_users (db w') = t_users (db w) /\
    exists t, clock w <= t /\
    forall tok, outcome t (t_sessions (db w) !! tok) (t_sessions (db w') !! tok)).
Proof.
  intros Hk. unfold refreshAll. eapply (alone_bind listSessions); [apply alone_select|].
  intros l w1 (o & -> & Hd1 & Hc1). eapply (alone_bind now); [apply alone_now|].
  intros t w2 (Hd2 & Hc2 & _). assert (db w2 = db w) as Hd by congruence.
  set (rows := Rand.range_map o (t_sessions (db w))).
  replace (map (fun kr => scan_session kr.2) rows) with (map scan_session (map snd rows)) by apply map_map.
  eapply alone_mono; [apply alone_refresh_each|].
  - unfold rows; rewrite perm_tokens by done. apply range_map_NoDup.
  - apply Forall_map, Forall_forall. intros [tok r] Hin. unfold rows, Rand.range_map in Hin.
    rewrite Rand.shuffle_perm in Hin. apply elem_of_map_to_list in Hin. simpl. by rewrite (Hk _ _ Hin), Hd.
  - intros _ w' (U & H). rewrite Hd in U. split; [done|]. exists t. split; [lia|]. intros tok.
    destruct (H tok) as [Hout Hin]. rewrite Hd in Hout, Hin.
    destruct (decide (tok ∈ map s_token (map snd rows))) as [Hl|Hl]; [by apply Hin|].
    rewrite (Hout Hl). destruct (t_sessions (db w) !! tok) as [r|] eqn:Er; [|done].
    destruct Hl. rewrite <- (Hk _ _ Er). apply list_elem_of_fmap_2.
    apply list_elem_of_fmap. exists (tok, r). split; [done|].
    unfold rows, Rand.range_map. rewrite Rand.shuffle_perm. by apply elem_of_map_to_list.
Qed.
End pass.

(** ** What the rules do not prevent *)

(** Every statement works but the one that is operation [k]. *)
Definition only_fault (k : nat) (es : nat -> Env) : Prop := forall i, i <> k -> e_sql (es i) = Done.

Definition env0 : Env := MkEnv 0 Done id (Some [1; 2; 3]) None (Some []).
Definition admin_row : user_row := MkUserRow 1 (bs "root") (bs "admin") (bs "clt_1") true true false.

(** A session of [n] under [tok], validated at second [v]. *)
Definition sample (tok n : gostring) (enc : bytes) (cam : gostring) (v : Z) : session_row :=
  MkSessionRow tok n (bs "clt_1") [] [] enc cam v v.
Definition sample_world (rows : list session_row) (at_ : Z) : world :=
  let m := list_to_map (map (fun r => (s_token r, r)) rows) in
  MkWorld (MkTables {[bs "root" := admin_row]} 2 m ∅ ∅ no_rest) at_ [] [] (dom m).

Definition two_sessions : world :=
  sample_world [sample (bs "t1") (bs "root") [] [] 0; sample (bs "t2") (bs "root") [] [] 14000] (14400 * second).

Lemma two_sessions_keyed tok r : t_sessions (db two_sessions) !! tok = Some r -> s_token r = tok.
Proof.
  unfold two_sessions, sample_world. cbn [db t_sessions]. intros H%elem_of_list_to_map_2.
  simpl in H. apply list_elem_of_In in H as [E|[E|[]]]; by injection E as <- <-.
Qed.

Lemma refresh_pass_witness :
  wp exec works eq (fun _ _ => True) (refreshAll []) two_sessions (fun _ w' =>
    t_users (db w') = t_users (db two_sessions) /\
    exists t, clock two_sessions <= t /\
    forall tok, outcome t (t_sessions (db two_sessions) !! tok) (t_sessions (db w') !! tok)).
Proof. exact (refresh_pass [] two_sessions two_sessions_keyed). Defined.

(** The first login of any user makes them an administrator when the statement that counts
    the users fails: getOrCreateUser ignores the error, the count stays zero, and zero means the
    very first user, however many users there are. *)
Theorem count_fault_makes_admin n w :
  t_users (db w) !! n = None ->
  exists es, only_fault 1 es /\
  let (r, w') := run exec es 0 (getOrCreateUser n) w in
  exists u, r = Ok u /\ Role u = bs "admin" /\
  (u_role <$> t_users (db w') !! n) = Some (bs "admin") /\ size (t_users (db w')) = S (size (t_users (db w))).
Proof.
  intros Hn. exists (fun i => match i with 1%nat => MkEnv 0 Failed id None None None | _ => env0 end). split.
  { by intros [|[|i]] Hi. }
  cbn. rewrite Hn. cbn. unfold insert_user. rewrite Hn. cbn. rewrite lookup_insert_eq. cbn.
  eexists. split; [done|]. split; [done|]. split; [done|]. by rewrite map_size_insert_None.
Qed.

Lemma count_fault_makes_admin_witness :
  exists es, let (r, w') := run exec es 0 (getOrCreateUser (bs "eve")) (sample_world [] 0) in
  exists u, r = Ok u /\ Role u = bs "admin".
Proof.
  destruct (count_fault_makes_admin (bs "eve") (sample_world [] 0)) as (es & _ & H); [by vm_compute|].
  exists es. destruct (run exec es 0 _ _) as [r w']. destruct H as (u & H1 & H2 & _). by exists u.
Defined.

(** Camerlengo refuses; [d] passes before the first operation. *)
Definition refused_env (d k : Z) : Env :=
  MkEnv d Done id (Some [k]) (Some (MkReply (bs "error") (bs "203") (bs "Invalid username or password") [])) None.
Definition at_start (d k : Z) (i : nat) : Env := match i with O => refused_env d k | _ => refused_env 0 k end.
Definition enc_pw : bytes := repeat 0 12 ++ aead_seal (encKey []) (repeat 0 12) (bs "old").

(** A password Camerlengo refuses keeps working for longer than the three hours the fallback is
    meant for: each login that falls back on a recent session stores a new session as validated
    now, so a refused password last accepted at time zero is accepted at two hours, at four, and
    at six. *)
Theorem refused_password_renews :
  let w0 := sample_world [sample (bs "t1") (bs "root") enc_pw (bs "cam") 0] 0 in
  let (r1, w1) := run exec (at_start (2 * hour) 1) 0 (Login [] (bs "root") (bs "old") None) w0 in
  let (r2, w2) := run exec (at_start (2 * hour) 2) 0 (Login [] (bs "root") (bs "old") None) w1 in
  let (r3, w3) := run exec (at_start (2 * hour) 3) 0 (Login [] (bs "root") (bs "old") None) w2 in
  Forall (fun r => match r with Ok _ => True | _ => False end) [r1; r2; r3] /\
  clock w3 = 6 * hour /\ accepted w3 = [].
Proof. vm_compute. repeat constructor. Qed.

(** Run the first [n] operations. *)
Fixpoint advance {A} (e : Env) (n : nat) (p : M A) (w : world) : M A * world :=
  match n, p with
  | S n, Do o k => let (r, w') := exec e o w in advance e n (k r) w'
  | _, _ => (p, w)
  end.

(** A session that is in use can be removed: the refresher decides by the rows it listed at the
    start of its pass, so a session idle for three hours that a client validates successfully
    after the listing is deleted all the same, although it was validated a moment ago. *)
Theorem stale_listing_removes_live :
  let w0 := sample_world [sample (bs "t1") (bs "root") [] [] 0] (4 * hour) in
  let (rest, w1) := advance env0 2 (refreshAll []) w0 in
  let (v, w2) := run exec (fun _ => env0) 0 (Validate (bs "t1")) w1 in
  let (_, w3) := run exec (fun _ => env0) 0 rest w2 in
  v_denied v = false /\ (s_validated_at <$> t_sessions (db w2) !! bs "t1") = Some (time_seconds (4 * hour)) /\
  t_sessions (db w3) !! bs "t1" = None.
Proof. vm_compute. done. Qed.
End Expiry.
