(* ===== verification/ArbiterFrame.v ===== *)
(** * snc-arbiter: what the statements of a request may change

    A request is [within] a relation on the tables when each of its statements is, whatever
    it has read before. The requests of [ArbiterLogin] are within every relation that only
    looks at the nodes, the clubs and the other tables of [Store.rest]: logins, validations
    and the refresher leave those alone. [within_reach] turns a bound on the statements into
    one on every interleaving. *)

From stdpp Require Import base list gmap strings fin_maps.
From Stdlib Require Import ZArith Lia.
From S2P Require Import Prelude GoLib Effects ArbiterStore ArbiterSessions ArbiterLogin.

Module Frame.
Import Store Sessions Logins.

Section within.
Context (P : tables -> tables -> Prop).

Fixpoint within {A} (p : M A) : Prop :=
  match p with
  | Ret _ => True
  | Do o k => match o with Sql _ q => forall ord t, P t (q ord t).2 | _ => True end /\ forall r, within (k r)
  end.

Lemma within_bind {A B} (p : M A) (f : A -> M B) : within p -> (forall a, within (f a)) -> within (p ≫= f).
Proof. induction p as [a|o k IH]; intros Hp Hf; [apply Hf|]. destruct Hp as [Ho Hk]. split; [done|]. intros r. by apply IH. Qed.

Lemma within_forget {A} (p : M A) : within p -> within (forget p).
Proof. intros H. by apply (within_bind p (fun _ => Ret ())). Qed.

Lemma within_sql {A} (q : (nat -> nat) -> tables -> A * tables) : (forall ord t, P t (q ord t).2) -> within (sql q).
Proof. intros H. split; [|done]. intros ord t. specialize (H ord t). by destruct (q ord t). Qed.

Lemma within_update f : (forall t, P t (f t)) -> within (update f).
Proof. intros H. apply within_sql. intros _ t. apply H. Qed.

(** Every interleaving of requests within a preorder stays within it. *)
Theorem within_reach E start w y : Reflexive P -> Transitive P ->
  (forall p, start p -> within p) -> sreach exec E start w y -> P (db w) (db (shared y)).
Proof.
  intros Hr Ht Hs Hy.
  enough (P (db w) (db (shared y)) /\ Forall within (threads y)) by tauto.
  induction Hy as [|y y' _ [IH1 IH2] Hst]; [done|]. destruct Hst as [s ts p Hp|s ts i o k e Hk _]; simpl in *.
  - split; [done|]. apply Forall_app. split; [done|]. constructor; [by apply Hs|constructor].
  - destruct (proj1 (Forall_lookup _ _) IH2 _ _ Hk) as [Ho Hw]. split; [|apply Forall_insert; [done|apply Hw]].
    transitivity (db s); [done|]. destruct o as [A q|  | | | |]; unfold exec; [|repeat case_match; done..].
    specialize (Ho (e_order e) (db (tick (e_delay e) s))). destruct (q (e_order e) _) as [r t]. by destruct (e_sql e).
Qed.
End within.

(** The statement, or the parts, of a program. *)
Ltac within_step :=
  match goal with
  | |- forall _, _ => intros
  | |- within _ (Ret _) => exact I
  | |- within _ (call _) => split; [exact I|intros; exact I]
  | |- within _ (forget _) => apply within_forget
  | |- within _ (mbind _ _) => apply within_bind
  | |- within _ (bind _ _) => apply within_bind
  | |- within _ (match ?x with _ => _ end) => destruct x
  | |- within _ _ => solve [auto with within]
  end.
Ltac within_steps := repeat within_step.
Create HintDb within.

(** ** The requests around sessions *)

(** Users stay on record, with their ids. *)
Definition users_kept (t t' : tables) : Prop :=
  forall n u, t_users t !! n = Some u -> exists u', t_users t' !! n = Some u' /\ u_id u' = u_id u.
#[export] Instance users_kept_refl : Reflexive users_kept.
Proof. intros t n u Hu. eauto. Qed.
#[export] Instance users_kept_trans : Transitive users_kept.
Proof. intros a b c H1 H2 n u Hu. destruct (H1 _ _ Hu) as (u' & Hu' & E). destruct (H2 _ _ Hu') as (u'' & ? & ?). eexists. split; [done|congruence]. Qed.
Lemma users_kept_same t t' : t_users t' = t_users t -> users_kept t t'.
Proof. intros E n u Hu. rewrite E. eauto. Qed.
Lemma users_kept_alter f n t : (forall u, u_id (f u) = u_id u) -> users_kept t (set_users (alter f n) t).
Proof.
  intros Hf m u Hu. cbn. destruct (decide (n = m)) as [<-|Hn].
  - rewrite lookup_alter_eq, Hu. eexists. split; [done|apply Hf].
  - rewrite lookup_alter_ne by done. eauto.
Qed.
Lemma users_kept_insert n role cid t : users_kept t (insert_user n role cid t).
Proof.
  unfold insert_user. destruct (t_users t !! n) eqn:En; [reflexivity|]. intros m u Hu. cbn.
  rewrite lookup_insert_ne by congruence. eauto.
Qed.
Lemma users_kept_client_id cid id t : users_kept t (set_client_id cid id t).
Proof. intros n u Hu. cbn. rewrite lookup_fmap, Hu. eexists. split; [done|]. by case_match. Qed.

Section logins.
Context {AE : Aead} {BL : Blake2b} {ED : Ed25519} {AC : ArbiterCodec}.
Context (P : tables -> tables -> Prop) (frame : forall t t', t_rest t' = t_rest t -> users_kept t t' -> P t t').
Lemma frame_same t t' : t_rest t' = t_rest t -> t_users t' = t_users t -> P t t'.
Proof using frame. intros. apply frame; [done|]. by apply users_kept_same. Qed.

Lemma within_select {A} (q : (nat -> nat) -> tables -> A) : within P (select q).
Proof using frame. apply within_sql. intros; by apply frame_same. Qed.
Lemma within_set_sessions f : within P (update (set_sessions f)).
Proof using frame. apply within_update. intros; by apply frame_same. Qed.
Lemma within_alter_user f n : (forall u, u_id (f u) = u_id u) -> within P (update (set_users (alter f n))).
Proof using frame. intros H. apply within_update. intros. apply frame; [done|]. by apply users_kept_alter. Qed.
Lemma within_client_id cid id : within P (update (set_client_id cid id)).
Proof using frame. apply within_update. intros. apply frame; [done|]. apply users_kept_client_id. Qed.
Lemma within_set_keys f : within P (update (set_keys f)).
Proof using frame. apply within_update. intros; by apply frame_same. Qed.
Lemma within_now : within P now.
Proof. split; [exact I|intros; exact I]. Qed.
#[local] Hint Resolve within_select within_set_sessions within_client_id within_set_keys within_now : within.

Lemma within_getOrCreateUser n : within P (getOrCreateUser n).
Proof using frame.
  unfold getOrCreateUser, findUser, genClientID. within_steps.
  apply within_update. intros t. apply frame; [unfold insert_user; by case_match|apply users_kept_insert].
Qed.
#[local] Hint Resolve within_getOrCreateUser : within.

Lemma within_login n pwd : within P (login n pwd).
Proof using frame.
  unfold login. within_step; [within_steps|]. intros t. generalize loginAttempts, true, (t + loginMaxRetryDuration), (5 * second).
  intros fuel. induction fuel as [|fuel IH]; intros first dl rd; [done|]. cbn [login_loop]. within_steps; apply IH.
Qed.
#[local] Hint Resolve within_login : within.

Lemma within_device_checks n opts : within P (device_checks n opts).
Proof using frame. unfold device_checks, IsUserEnabled, GetKey, UpsertKeyDevice, TouchKeyLastSeen. within_steps. Qed.
#[local] Hint Resolve within_device_checks : within.

Lemma within_createSession tok n cid dev name enc cam t : within P (createSession tok n cid dev name enc cam t).
Proof using frame. split; [|done]. intros ord tb. apply frame_same; by case_match. Qed.
#[local] Hint Resolve within_createSession : within.

Lemma within_issue seed n dev pwd cam : within P (issue seed n dev pwd cam).
Proof using frame. unfold issue, encrypt, genToken. within_steps. Qed.
#[local] Hint Resolve within_issue : within.

Lemma within_Validate tok : within P (Validate tok).
Proof using frame. unfold Validate, getSession, IsUserEnabled, touchSession. within_steps. Qed.
#[local] Hint Resolve within_Validate : within.

Lemma within_Login seed n pwd opts : within P (Login seed n pwd opts).
Proof using frame. unfold Login, fallback, getRecentSessionByUsername. within_steps. Qed.
#[local] Hint Resolve within_Login : within.

Lemma within_LoginWithKey seed n opts : within P (LoginWithKey seed n opts).
Proof using frame. unfold LoginWithKey. within_steps. Qed.
#[local] Hint Resolve within_LoginWithKey : within.

Lemma within_refreshAll seed : within P (refreshAll seed).
Proof using frame.
  unfold refreshAll, listSessions. within_steps. match goal with l : list Session |- _ => induction l as [|s l IH] end; [done|].
  cbn [refresh_each]. within_step; [|intros; exact IH].
  unfold refreshOne, deleteSession, touchLastAttempt, querySession, updateCamSession. within_steps.
Qed.
#[local] Hint Resolve within_refreshAll : within.

(** Logins, validations, the refresher and the changes of users and keys leave the other tables alone. *)
Lemma request_within seed pub p : request seed pub p -> within P p.
Proof using frame.
  intros Hp. destruct Hp; within_steps.
  - unfold handleClientRequest, handleKeyAuth, GetKey. within_steps.
  - unfold apiProxyValidate, LoginAsProxy, IsUserEnabled. within_steps.
  - by apply within_alter_user.
  - by apply within_alter_user.
  - by apply within_alter_user.
  - apply within_update. intros; by apply frame_same.
  - unfold logUploadAllowed, globalLogUploadEnabled, getSetting, userLogUploadPrefs. within_steps.
  - unfold RegisterKey. within_steps.
  - apply within_set_keys.
  - apply within_set_keys.
  - apply within_set_keys.
  - apply within_set_keys.
  - apply within_set_keys.
  - unfold DisableExpiredKeys. within_step; [within_steps|]. intros t. within_step; [within_steps|].
    intros [l|e|]; [|done..]. generalize (Ok l) at 1. intros r. induction l as [|k l IH]; [done|]. cbn [foldr]. within_steps.
Qed.
End logins.

(** ** Specifications under interference

    [I] is an invariant of the tables, [grows] a preorder along which every request moves them.
    [spec p w Q]: with any interference that keeps to both, [p] keeps to both and ends with [Q]. *)
Section spec.
Context (E : Env -> Op -> world -> Prop) (I : tables -> Prop) (grows : tables -> tables -> Prop).
Context `{!Reflexive grows} `{!Transitive grows}.

Definition Iw (w : world) : Prop := I (db w).
Definition grows_w (w w' : world) : Prop := grows (db w) (db w').
Definition spec {A} (p : M A) (w : world) (Q : A -> world -> Prop) : Prop :=
  keeps exec E Iw grows_w p w (fun a w' => grows_w w w' /\ Iw w' /\ Q a w').

Lemma spec_ret {A} (a : A) w (Q : A -> world -> Prop) : I (db w) -> Q a w -> spec (Ret a) w Q.
Proof using Type*. intros H HQ. split; [unfold grows_w; reflexivity|by split]. Qed.

Lemma spec_mono {A} (p : M A) w (P Q : A -> world -> Prop) :
  spec p w P -> (forall a w', grows (db w) (db w') -> I (db w') -> P a w' -> Q a w') -> spec p w Q.
Proof. intros Hp H. eapply wp_mono; [exact Hp|]. intros a w' (Hl & Hi & HP). split; [done|]. split; [done|]. by apply H. Qed.

Lemma spec_bind {A B} (p : M A) (f : A -> M B) w P Q :
  spec p w P -> (forall a w', grows (db w) (db w') -> I (db w') -> P a w' -> spec (f a) w' Q) -> spec (p ≫= f) w Q.
Proof using Type*.
  intros Hp Hf. apply wp_bind. eapply wp_mono; [exact Hp|]. intros a w' (Hl & Hi & HP).
  eapply wp_mono; [exact (Hf a w' Hl Hi HP)|]. intros b w'' (Hl' & H'). split; [|done]. unfold grows_w in *. by etransitivity.
Qed.

(** A statement sees tables grown since, and its own step keeps to the invariant. *)
Lemma spec_stmt {A} (q : (nat -> nat) -> tables -> res A * tables) w (Q : res A -> world -> Prop) :
  (forall t o, grows (db w) t -> I t -> grows t (q o t).2 /\ I (q o t).2 /\ (forall w', db w' = (q o t).2 -> Q (q o t).1 w')) ->
  (forall w', Q (Err "sql") w') -> spec (call (Sql A q)) w Q.
Proof using Type*.
  intros H Hf. apply keeps_call. intros w1 e Hl Hi _. specialize (H (db w1) (e_order e) Hl Hi) as (Hg & HI & HQ).
  unfold rely, grows_w, Iw, exec in *. cbn [db tick]. destruct (q (e_order e) (db w1)) as [r t]. cbn [fst snd] in *.
  destruct (e_sql e); cbn; (split; [split; [try done; reflexivity|done]|]); (split; [unfold grows_w; try done; by etransitivity|]); (split; [done|]); auto.
Qed.

Lemma spec_select {A} (q : (nat -> nat) -> tables -> A) w :
  spec (select q) w (fun r w' => forall a, r = Ok a -> exists o, a = q o (db w')).
Proof using Type*.
  apply spec_stmt; [|done]. intros t o _ Hi. cbn. split; [reflexivity|]. split; [done|]. intros w' E' a [= <-]. exists o. by rewrite E'.
Qed.

Lemma spec_rand n w : spec (call (RandRead n)) w (fun r _ => forall b, r = Ok b -> length b = n).
Proof using Type*.
  apply keeps_call. intros w1 e Hl Hi _. unfold rely, grows_w, Iw, exec in *. cbn.
  destruct (e_rand e); cbn; (split; [split; [reflexivity|done]|]); (split; [unfold grows_w; cbn; done|]); (split; [done|]); [|done].
  intros ? [= <-]. apply length_resize.
Qed.

(** Requests whose statements keep to both, whatever they read. *)
Lemma spec_within {A} (p : M A) w : I (db w) -> within (fun t t' => I t -> I t' /\ grows t t') p -> spec p w (fun _ _ => True).
Proof using Type*.
  revert w. induction p as [a|o k IH]; intros w Hi Hp; [by apply spec_ret|]. destruct Hp as [Ho Hk].
  apply (spec_bind (call o) k w (fun _ _ => True)); [|intros r w' _ Hi' _; by apply IH].
  destruct o as [B q| | | | |]; [|apply keeps_call; intros w1 e Hl Hi1 _; unfold rely, grows_w, Iw, spec, exec in *; cbn;
    repeat case_match; cbn; (split; [split; [reflexivity|done]|by split])..].
  apply spec_stmt; [|done]. intros t o _ Ht. destruct (Ho o t Ht). done.
Qed.

Lemma spec_forget {A} (p : M A) w Q : spec p w Q -> spec (forget p) w (fun _ _ => True).
Proof using Type*. intros H. eapply spec_bind; [exact H|]. intros; by apply spec_ret. Qed.

(** In every interleaving the invariant holds, and the tables have grown. *)
Theorem spec_reach start w y : I (db w) -> (forall p w, start p -> I (db w) -> spec p w (fun _ _ => True)) ->
  sreach exec E start w y -> I (db (shared y)).
Proof using Type*.
  intros H0 Hs Hy. refine (proj1 (sreach_inv exec E Iw grows_w _ _ start w y H0 _ Hy)).
  - intros s'. unfold grows_w. reflexivity.
  - intros a b c. unfold grows_w. by etransitivity.
  - intros p s' Hp Hi. eapply wp_mono; [by apply Hs|]. done.
Qed.
End spec.

(** A second invariant, which the statements of the program keep, may be assumed of the others. *)
Lemma spec_and E I J grows {A} (p : M A) w Q : J (db w) -> within (fun t t' => J t -> J t') p ->
  spec E I grows p w Q -> spec E (fun t => I t /\ J t) grows p w (fun a w' => Q a w' /\ J (db w')).
Proof.
  unfold spec, keeps. enough (forall w0, J (db w) -> within (fun t t' => J t -> J t') p ->
    wp exec E (rely (Iw I) (grows_w grows)) (rely (Iw I) (grows_w grows)) p w (fun a w' => grows_w grows w0 w' /\ Iw I w' /\ Q a w') ->
    wp exec E (rely (Iw (fun t => I t /\ J t)) (grows_w grows)) (rely (Iw (fun t => I t /\ J t)) (grows_w grows)) p w
      (fun a w' => grows_w grows w0 w' /\ Iw (fun t => I t /\ J t) w' /\ Q a w' /\ J (db w'))) as H by apply H.
  revert w. induction p as [a|o k IH]; intros w w0 Hj Hp H; [by destruct H as (? & ? & ?)|]. destruct Hp as [Ho Hk].
  intros w1 [Hg [Hi1 Hj1]] e He. specialize (H w1 (conj Hg Hi1) e He).
  assert (J (db (exec e o w1).2)) as Hj2.
  { destruct o as [B q| | | | |]; unfold exec; [|repeat case_match; done..].
    specialize (Ho (e_order e) (db (tick (e_delay e) w1)) Hj1). destruct (q (e_order e) _) as [r t]. by destruct (e_sql e). }
  destruct (exec e o w1) as [r w2]. destruct H as [[Hg2 Hi2] H]. split; [done|]. by apply IH.
Qed.

(** ** Concrete runs: requests one after the other, each alone *)
Definition play (es : nat -> Env) (ps : list (M unit)) (w : world) : world := fold_left (fun w p => (run exec es 0 p w).2) ps w.

Lemma run_ok_any {A} es n (p : M A) w : run_ok exec (fun _ _ _ => True) es n p w.
Proof. revert n w. induction p as [a|o k IH]; intros n w; [done|]. cbn. split; [done|]. apply IH. Qed.

Lemma play_reach start es ps w0 w ts : Forall start ps -> sreach exec (fun _ _ _ => True) start w0 (MkSystem w ts) ->
  sreach exec (fun _ _ _ => True) start w0 (MkSystem (play es ps w) (ts ++ repeat (Ret ()) (length ps))).
Proof.
  revert w ts. induction ps as [|p ps IH]; intros w ts Hs Hr; [by rewrite app_nil_r|]. apply Forall_cons_1 in Hs as [Hp Hs].
  cbn [play fold_left length repeat]. rewrite cons_middle, app_assoc. apply IH; [done|].
  apply reach_run; [done|apply run_ok_any|done].
Qed.

(** Requests side by side: the order in which they take their steps. *)
Definition step_at (e : Env) (y : system (Resp := Resp) (St := world)) (i : nat) : system :=
  match threads y !! i with
  | Some (Do o k) => let (r, w) := exec e o (shared y) in MkSystem w (<[i := k r]> (threads y))
  | _ => y
  end.
Definition schedule (e : Env) (order : list nat) (ps : list (M unit)) (w : world) : system :=
  fold_left (step_at e) order (MkSystem w ps).

Lemma schedule_reach start e order ps w : Forall start ps -> sreach exec (fun _ _ _ => True) start w (schedule e order ps w).
Proof.
  intros Hs. assert (sreach exec (fun _ _ _ => True) start w (MkSystem w ps)) as Hy.
  { induction ps as [|p ps IH] using rev_ind; [constructor|]. apply Forall_app in Hs as [Hs Hp]. apply Forall_cons_1 in Hp as [Hp _].
    eapply reach_step; [by apply IH|]. by constructor. }
  unfold schedule. revert Hy. generalize (MkSystem w ps). induction order as [|i order IH]; intros y Hy; [done|]. cbn [fold_left]. apply IH.
  unfold step_at. destruct (threads y !! i) as [[|o k]|] eqn:Ei; [done| |done]. destruct y as [s ts]. cbn in *.
  pose proof (step_thread exec (fun _ _ _ => True) start s ts i o k e Ei Logic.I) as Hst.
  destruct (exec e o s) as [r w']. by eapply reach_step.
Qed.
End Frame.
