(* ===== verification/ArbiterNodes.v ===== *)
(** * snc-arbiter: the nodes of the network
    (src/snc-arbiter/db.go, handler.go, admin_node_api.go, load_factor.go, stats_archive.go)

    The table of nodes with its life cycle (submission, approval, heartbeats, suspension,
    decommissioning), the endpoints that nodes and administrators call, the traffic counters
    and their archival, and the load factors. Each SQL statement is one atomic operation
    ([ArbiterStore]). The transaction of a heartbeat's sample is modelled for both databases that
    db.go opens: one operation on SQLite's single connection, two on Postgres' pool; that of
    [submitNodeSSH] is one operation. Bodies arrive decoded ([None] when decoding failed), ids as
    parsed from the path. *)

From stdpp Require Import base list gmap strings fin_maps sorting.
From Stdlib Require Import ZArith Lia.
From S2P Require Import Prelude GoLib GoFloat GoJson ArbiterSigning ArbiterManifest Effects ArbiterStore ArbiterSessions ArbiterLogin ArbiterFrame.

Module Nodes.
Import Store Sessions Frame.

(** ** The table *)

Definition set_nodes (f : list node_row -> list node_row) : tables -> tables := set_rest (fun r =>
  MkRest (f (r_nodes r)) (r_next_node r) (r_traffic r) (r_counters r) (r_rotations r) (r_blacklist r) (r_torrents r)
    (r_clubs r) (r_events r)).
Definition nodes_of (t : tables) : list node_row := r_nodes (t_rest t).

(** A statement that may violate a constraint. *)
Definition stmt {A} (q : (nat -> nat) -> tables -> res A * tables) : M (res A) := call (Sql A q).

(** UPDATE nodes SET ... WHERE: the rows changed are counted. *)
Definition update_where (p : node_row -> bool) (f : node_row -> node_row) : M (res Z) :=
  sql (fun _ t => (Z.of_nat (length (List.filter p (nodes_of t))), set_nodes (map (fun n => if p n then f n else n)) t)).
Definition by_id (id : Z) (n : node_row) : bool := nd_id n =? id.
Definition has_token (token : gostring) (n : node_row) : bool := bool_decide (nd_token n = Some token).
Definition has_status (status : string) (n : node_row) : bool := bool_decide (nd_status n = bs status).

Definition with_status (status : gostring) (n : node_row) : node_row :=
  MkNodeRow (nd_id n) (nd_owner n) (nd_type n) (nd_addr n) (nd_token n) status (nd_approved_at n) (nd_heartbeat n)
    (nd_report n) (nd_policy n) (nd_hosting n).
Definition with_policy (f : node_policy -> node_policy) (n : node_row) : node_row :=
  MkNodeRow (nd_id n) (nd_owner n) (nd_type n) (nd_addr n) (nd_token n) (nd_status n) (nd_approved_at n) (nd_heartbeat n)
    (nd_report n) (f (nd_policy n)) (nd_hosting n).
Definition with_hosting (f : node_hosting -> node_hosting) (n : node_row) : node_row :=
  MkNodeRow (nd_id n) (nd_owner n) (nd_type n) (nd_addr n) (nd_token n) (nd_status n) (nd_approved_at n) (nd_heartbeat n)
    (nd_report n) (nd_policy n) (f (nd_hosting n)).
Definition with_heartbeat (at_ : Z) (r : node_report) (n : node_row) : node_row :=
  MkNodeRow (nd_id n) (nd_owner n) (nd_type n) (nd_addr n) (nd_token n) (nd_status n) (nd_approved_at n) (Some at_)
    r (nd_policy n) (nd_hosting n).

(** ** Submission *)

(** [uuid.New().String()] of 16 random bytes. *)
Definition uuid_string (b : bytes) : gostring :=
  let b := <[8%nat := Z.lor (Z.land (nth 8 b 0) 0x3f) 0x80]> (<[6%nat := Z.lor (Z.land (nth 6 b 0) 0x0f) 0x40]> b) in
  let part i n := Hex.encode (take n (drop i b)) in
  part 0%nat 4%nat ++ [45] ++ part 4%nat 2%nat ++ [45] ++ part 6%nat 2%nat ++ [45] ++ part 8%nat 2%nat ++ [45] ++ part 10%nat 6%nat.

Definition nullIfEmpty (s : gostring) : option gostring := if decide (s = []) then None else Some s.
Definition fresh_report (fingerprint : gostring) : node_report := MkReport fingerprint Float.f0 Float.f0 None [].
Definition fresh_policy : node_policy := MkPolicy [] [] false None Float.f0.

(** INSERT INTO nodes: the owner must exist (foreign key), and the pair of provider and
    instance be new when both are given. *)
Definition owner_exists (t : tables) (id : Z) : bool := existsb (fun kv => u_id kv.2 =? id) (map_to_list (t_users t)).
Definition same_instance (slug inst : option gostring) (n : node_row) : bool :=
  match slug, inst with
  | Some s, Some i => bool_decide (ho_slug (nd_hosting n) = Some s) && bool_decide (ho_instance (nd_hosting n) = Some i)
  | _, _ => false
  end.
Definition insert_node (owner : Z) (type addr fingerprint : gostring) (h : node_hosting) (t : tables) : res Z * tables :=
  if negb (owner_exists t owner) then (Err "foreign key", t)
  else if existsb (same_instance (ho_slug h) (ho_instance h)) (nodes_of t) then (Err "unique", t)
  else
    let r := t_rest t in
    let row := MkNodeRow (r_next_node r) owner type addr None (bs "pending") None None (fresh_report fingerprint) fresh_policy h in
    (Ok (r_next_node r), set_rest (fun r =>
       MkRest (r_nodes r ++ [row]) (r_next_node r + 1) (r_traffic r) (r_counters r) (r_rotations r) (r_blacklist r)
         (r_torrents r) (r_clubs r) (r_events r)) t).

Definition submitNode (ownerID : Z) (nodeType addr fingerprint pubkey description providerSlug providerInstanceID : gostring) : M (res Z) :=
  b ← call (RandRead 16);
  match b with
  | Ok b =>
      stmt (fun _ => insert_node ownerID nodeType addr fingerprint
        (MkHosting pubkey description [] [] (uuid_string b) (nullIfEmpty providerSlug) (nullIfEmpty providerInstanceID)
           [] (bs "root") [] []))
  | _ => Ret Panic
  end.

(** [submitNodeSSH], a transaction: a known box is reset to pending. LIMIT 1 without an order
    takes the row the engine finds first. *)
Definition reset_node (owner : Z) (addr sshHost sshUser description : gostring) (slug inst : option gostring) (n : node_row) : node_row :=
  let h := nd_hosting n in
  MkNodeRow (nd_id n) owner (nd_type n) addr None (bs "pending") None (nd_heartbeat n) (nd_report n) (nd_policy n)
    (MkHosting (ho_pubkey h) description (ho_location h) (ho_provider h) (ho_node_uid h) slug inst sshHost sshUser [] []).
Definition first_node (o : nat -> nat) (p : node_row -> bool) (l : list node_row) : option node_row :=
  List.find p (Rand.rand_Shuffle o l).
Definition submitNodeSSH (ownerID : Z) (nodeType sshHost sshUser description providerSlug providerInstanceID : gostring) : M (res Z) :=
  let sshUser := if decide (sshUser = []) then bs "root" else sshUser in
  let addr := sshHost ++ bs ":443" in
  let slug := nullIfEmpty providerSlug in let inst := nullIfEmpty providerInstanceID in
  b ← call (RandRead 16);
  stmt (fun o t =>
    let known n := match slug, inst with
      | Some _, Some _ => same_instance slug inst n
      | _, _ => bool_decide (nd_type n = nodeType) && bool_decide (nd_addr n = addr)
      end in
    match first_node o known (nodes_of t) with
    | Some n =>
        if negb (owner_exists t ownerID) then (Err "foreign key", t)
        else (Ok (nd_id n), set_nodes (map (fun x => if by_id (nd_id n) x then reset_node ownerID addr sshHost sshUser description slug inst x else x)) t)
    | None =>
        match b with
        | Ok b => insert_node ownerID nodeType addr [] (MkHosting [] description [] [] (uuid_string b) slug inst sshHost sshUser [] []) t
        | _ => (Panic, t)
        end
    end).

(** ** Approval and status *)

(** The token is made before the statement, which changes a pending node only; UNIQUE(token). *)
Definition approveNode (nodeID : Z) : M (res gostring) :=
  token ← genToken;
  match token with
  | Ok token =>
      t ← now;
      r ← stmt (fun _ tb =>
        let hit n := by_id nodeID n && has_status "pending" n in
        if existsb hit (nodes_of tb) && existsb (fun n => has_token token n && negb (hit n)) (nodes_of tb) then (Err "unique", tb)
        else (Ok (), set_nodes (map (fun n => if hit n then
          MkNodeRow (nd_id n) (nd_owner n) (nd_type n) (nd_addr n) (Some token) (bs "approved") (Some (time_seconds t))
            (Some (time_seconds t)) (nd_report n) (nd_policy n) (nd_hosting n) else n)) tb));
      Ret (match r with Ok _ => Ok token | Err e => Err e | Panic => Panic end)
  | r => Ret r
  end.

Definition setNodeStatus (nodeID : Z) (status : gostring) : M (res Z) := update_where (by_id nodeID) (with_status status).
Definition deleteNode (nodeID : Z) : M (res unit) := update (set_nodes (List.filter (fun n => negb (by_id nodeID n)))).

Definition setNodeRegionOverride (nodeID : Z) (region : gostring) : M (res Z) :=
  update_where (by_id nodeID) (with_policy (fun p => MkPolicy region (po_sni_list p) (po_pinned p) (po_club_id p) (po_load p))).
Definition setNodeSNIList (nodeID : Z) (sniList : gostring) : M (res Z) :=
  update_where (by_id nodeID) (with_policy (fun p => MkPolicy (po_region_override p) sniList (po_pinned p) (po_club_id p) (po_load p))).
Definition setNodePinned (nodeID : Z) (pinned : bool) : M (res Z) :=
  update_where (by_id nodeID) (with_policy (fun p => MkPolicy (po_region_override p) (po_sni_list p) pinned (po_club_id p) (po_load p))).
Definition setNodeClub (nodeID clubID : Z) : M (res Z) :=
  update_where (by_id nodeID) (with_policy (fun p =>
    MkPolicy (po_region_override p) (po_sni_list p) (po_pinned p) (if clubID <=? 0 then None else Some clubID) (po_load p))).
Definition setNodeLoad (nodeID : Z) (load : Float.float64) : M (res Z) :=
  update_where (by_id nodeID) (with_policy (fun p => MkPolicy (po_region_override p) (po_sni_list p) (po_pinned p) (po_club_id p) load)).

Definition setDeployStatus (nodeID : Z) (status : gostring) : M (res Z) :=
  update_where (by_id nodeID) (with_hosting (fun h => MkHosting (ho_pubkey h) (ho_description h) (ho_location h) (ho_provider h)
    (ho_node_uid h) (ho_slug h) (ho_instance h) (ho_ssh_host h) (ho_ssh_user h) status (ho_deploy_log h))).
Definition appendNodeDeployLog (nodeID : Z) (text : gostring) : M (res Z) :=
  update_where (by_id nodeID) (with_hosting (fun h => MkHosting (ho_pubkey h) (ho_description h) (ho_location h) (ho_provider h)
    (ho_node_uid h) (ho_slug h) (ho_instance h) (ho_ssh_host h) (ho_ssh_user h) (ho_deploy_status h) (ho_deploy_log h ++ text))).

(** ** Reading *)

(** JOIN users: a node whose owner is gone is not listed. *)
Definition joined (t : tables) (l : list node_row) : list node_row := List.filter (fun n => owner_exists t (nd_owner n)) l.
Definition query_nodes (p : node_row -> bool) (sort : list node_row -> list node_row) : M (res (list node_row)) :=
  select (fun o t => sort (Rand.rand_Shuffle o (List.filter p (joined t (nodes_of t))))).

Definition rtt_le (a b : node_row) : Prop := Float.fle (rp_rtt_ms (nd_report a)) (rp_rtt_ms (nd_report b)) = true.
#[export] Instance rtt_le_dec a b : Decision (rtt_le a b).
Proof. unfold rtt_le. apply _. Defined.
Definition addr_le (a b : node_row) : Prop := Strings.le (nd_addr a) (nd_addr b) = true.
#[export] Instance addr_le_dec a b : Decision (addr_le a b).
Proof. unfold addr_le. apply _. Defined.
Definition id_le (a b : node_row) : Prop := nd_id a <= nd_id b.
#[export] Instance id_le_dec a b : Decision (id_le a b).
Proof. unfold id_le. apply _. Defined.
Definition type_addr_le (a b : node_row) : Prop :=
  nd_type a <> nd_type b /\ Strings.le (nd_type a) (nd_type b) = true \/ nd_type a = nd_type b /\ Strings.le (nd_addr a) (nd_addr b) = true.
#[export] Instance type_addr_le_dec a b : Decision (type_addr_le a b).
Proof. unfold type_addr_le. apply _. Defined.

Definition heartbeatTTL : Z := 90 * second.
Definition bootstrapTTL : Z := 1800 * second.
Definition beats_since (cutoff : Z) (n : node_row) : bool := match nd_heartbeat n with Some h => cutoff <=? h | None => false end.
Definition of_type (nodeType : gostring) (n : node_row) : bool := bool_decide (nd_type n = nodeType).

Definition liveNodesTTL (nodeType : gostring) (ttl : Z) : M (res (list node_row)) :=
  t ← now;
  query_nodes (fun n => of_type nodeType n && has_status "approved" n && beats_since (time_seconds (t - ttl)) n) (merge_sort rtt_le).
Definition liveNodes (nodeType : gostring) : M (res (list node_row)) := liveNodesTTL nodeType heartbeatTTL.
Definition bootstrapNodes (nodeType : gostring) : M (res (list node_row)) := liveNodesTTL nodeType bootstrapTTL.
Definition listApprovedNodes (nodeType : gostring) : M (res (list node_row)) :=
  query_nodes (fun n => of_type nodeType n && (has_status "approved" n || has_status "suspended" n)) (merge_sort addr_le).
Definition listAllNodes : M (res (list node_row)) := query_nodes (fun _ => true) (merge_sort id_le).
Definition ClubNodes (clubID : Z) (nodeType : gostring) : M (res (list node_row)) :=
  t ← now;
  query_nodes (fun n => of_type nodeType n && has_status "approved" n && beats_since (time_seconds (t - heartbeatTTL)) n
    && bool_decide (po_club_id (nd_policy n) = Some clubID)) (merge_sort rtt_le).
Definition ClubNodesAllStatuses (clubID : Z) : M (res (list node_row)) :=
  query_nodes (fun n => bool_decide (po_club_id (nd_policy n) = Some clubID)) (merge_sort type_addr_le).
(** A node by its token or id: the first row. *)
Definition first_of (r : res (list node_row)) : res (option node_row) := l ← r; Ok (head l).
Definition nodeByToken (token : gostring) : M (res (option node_row)) :=
  r ← query_nodes (fun n => has_token token n && has_status "approved" n) id; Ret (first_of r).
Definition nodeByID (id_ : Z) : M (res (option node_row)) := r ← query_nodes (by_id id_) id; Ret (first_of r).

(** The node as the manifests see it. *)
Definition manifest_node (n : node_row) : Lists.Node :=
  Lists.MkNode (nd_type n) (nd_addr n) (rp_fingerprint (nd_report n)) (rp_rtt_ms (nd_report n)) (po_load (nd_policy n))
    (rp_data_plane_ok (nd_report n)) (po_region_override (nd_policy n)) (po_sni_list (nd_policy n)) (po_pinned (nd_policy n)).
(** [IsOnline] at time [t]. *)
Definition IsOnline (t : Z) (n : node_row) : bool :=
  match nd_heartbeat n with Some h => t - time_Unix h <? heartbeatTTL | None => false end.
Definition firstAdminUserID : M Z :=
  r ← select (A := option Z) (fun _ t => fold_left (fun best kv =>
    if decide (u_role kv.2 = bs "admin") then Some (match best with Some b => Z.min b (u_id kv.2) | None => u_id kv.2 end) else best)
    (map_to_list (t_users t)) None);
  Ret (match r with Ok (Some id) => id | _ => 0 end).

(** ** Heartbeats and traffic *)

(** A counter that went back is banked. *)
Definition next_counter (c : option counter_state) (raw : Z) : counter_state :=
  match c with
  | None => MkCounter 0 raw
  | Some c => MkCounter (if raw <? co_last_raw c then int64 (co_offset c + co_last_raw c) else co_offset c) raw
  end.
Definition write_sample (nodeID ts raw : Z) (nodeType : gostring) (c : counter_state) (r : rest) : rest :=
  MkRest (r_nodes r) (r_next_node r) (r_traffic r ++ [MkTraffic nodeID ts raw (int64 (co_offset c + raw)) nodeType true])
    (<[nodeID := c]> (r_counters r)) (r_rotations r) (r_blacklist r) (r_torrents r) (r_clubs r) (r_events r).
Definition add_sample (nodeID ts raw : Z) (nodeType : gostring) (r : rest) : rest :=
  write_sample nodeID ts raw nodeType (next_counter (r_counters r !! nodeID) raw) r.
(** The transaction. On SQLite's one connection ([pooled = false]) nothing runs between its SELECT
    and its commit; on Postgres' pool, without FOR UPDATE, other statements do, and what is
    committed was computed from the counter as it was read. *)
Definition recordNodeTrafficSample (pooled : bool) (nodeID ts rawBytesTotal : Z) (nodeType : gostring) : M (res unit) :=
  if pooled then
    c ← select (A := option counter_state) (fun _ t => r_counters (t_rest t) !! nodeID);
    match c with
    | Ok c => update (set_rest (write_sample nodeID ts rawBytesTotal nodeType (next_counter c rawBytesTotal)))
    | Err e => Ret (Err e)
    | Panic => Ret Panic
    end
  else update (set_rest (add_sample nodeID ts rawBytesTotal nodeType)).

Record heartbeatReq := MkHeartbeat {
  hb_Token : gostring; hb_RTTms : Float.float64; hb_BWMbps : Float.float64; hb_BytesTotal : Z; hb_Fingerprint : gostring;
  hb_DataPlaneOK : option bool; hb_Capabilities : gmap gostring bool }.
Definition caps_json (caps : gmap gostring bool) : gostring :=
  if decide (caps = ∅) then [] else Json.Marshal (Json.enc_map Json.JBool caps).
Definition reported (q : heartbeatReq) (r : node_report) : node_report :=
  MkReport (if decide (hb_Fingerprint q = []) then rp_fingerprint r else hb_Fingerprint q) (hb_RTTms q) (hb_BWMbps q)
    (hb_DataPlaneOK q) (caps_json (hb_Capabilities q)).
Definition updateHeartbeat (pooled : bool) (q : heartbeatReq) : M (res Z) :=
  t ← now;
  rows ← update_where (fun n => has_token (hb_Token q) n && has_status "approved" n)
    (fun n => with_heartbeat (time_seconds t) (reported q (nd_report n)) n);
  match rows with
  | Ok rows =>
      if 0 <? rows then
        n ← select (A := option (Z * gostring)) (fun o tb =>
          (fun n => (nd_id n, nd_type n)) <$> first_node o (has_token (hb_Token q)) (nodes_of tb));
        match n with
        | Ok (Some (id, ty)) =>
            if 0 <? id then _ ← recordNodeTrafficSample pooled id (time_seconds t) (hb_BytesTotal q) ty; Ret (Ok rows) else Ret (Ok rows)
        | _ => Ret (Ok rows)
        end
      else Ret (Ok rows)
  | r => Ret r
  end.

(** MAX - MIN over the last hour. *)
Definition nodeHourlyBytes (nodeID : Z) : M Z :=
  t ← now;
  r ← select (A := list Z) (fun _ tb =>
    map tr_cum (List.filter (fun s => tr_kept s && (tr_node s =? nodeID) && (time_seconds (t - hour) <=? tr_ts s)) (r_traffic (t_rest tb))));
  Ret (match r with
       | Ok (x :: l) => let hi := fold_left Z.max l x in let lo := fold_left Z.min l x in if hi <=? lo then 0 else int64 (hi - lo)
       | _ => 0
       end).

(** ** Changes by administrators *)

Definition coalesce (new : gostring) (old : gostring) : gostring := if decide (new = []) then old else new.
Definition coalesce_null (new : gostring) (old : option gostring) : option gostring := if decide (new = []) then old else Some new.
Definition moved (addr description location provider slug inst : gostring) (n : node_row) : node_row :=
  let h := nd_hosting n in
  MkNodeRow (nd_id n) (nd_owner n) (nd_type n) addr (nd_token n) (nd_status n) (nd_approved_at n) (nd_heartbeat n) (nd_report n) (nd_policy n)
    (MkHosting (ho_pubkey h) description (coalesce location (ho_location h)) (coalesce provider (ho_provider h)) (ho_node_uid h)
       (coalesce_null slug (ho_slug h)) (coalesce_null inst (ho_instance h)) (ho_ssh_host h) (ho_ssh_user h) (ho_deploy_status h) (ho_deploy_log h)).
Definition add_rotation (ts nodeID : Z) (type old new : gostring) (r : rest) : rest :=
  MkRest (r_nodes r) (r_next_node r) (r_traffic r) (r_counters r) (r_rotations r ++ [(ts, nodeID, type, old, new)]) (r_blacklist r)
    (r_torrents r) (r_clubs r) (r_events r).
Definition recordAddrRotationIfChanged (nodeID : Z) (nodeType oldAddr newAddr : gostring) (ts : Z) : M (res unit) :=
  if decide (oldAddr = [] \/ newAddr = [] \/ oldAddr = newAddr) then Ret (Ok ())
  else update (set_rest (add_rotation ts nodeID nodeType oldAddr newAddr)).
Definition updateNode (nodeID : Z) (addr description location provider providerSlug providerInstanceID : gostring) : M (res unit) :=
  old ← select (A := option (gostring * gostring)) (fun _ t => (fun n => (nd_type n, nd_addr n)) <$> List.find (by_id nodeID) (nodes_of t));
  let '(nodeType, oldAddr) := match old with Ok (Some p) => p | _ => ([], []) end in
  let change := moved addr description location provider providerSlug providerInstanceID in
  r ← stmt (fun _ t =>
    let new := map change (List.filter (by_id nodeID) (nodes_of t)) in
    if existsb (fun n => existsb (fun x => negb (by_id nodeID x) && same_instance (ho_slug (nd_hosting n)) (ho_instance (nd_hosting n)) x) (nodes_of t)) new
    then (Err "unique", t)
    else (Ok (Z.of_nat (length new)), set_nodes (map (fun n => if by_id nodeID n then change n else n)) t));
  match r with
  | Ok rows =>
      if rows =? 0 then Ret (Err "node not found")
      else t ← now; _ ← recordAddrRotationIfChanged nodeID nodeType oldAddr addr (time_seconds t); Ret (Ok ())
  | Err e => Ret (Err e)
  | Panic => Ret Panic
  end.

Definition drop_addr (addr : gostring) (l : list_table (gostring * gostring)) : list_table (gostring * gostring) :=
  MkList (List.filter (fun e => negb (bool_decide (e.2.1 = addr))) (lt_rows l)) (lt_next l).
Definition deleteBlacklistEntryByAddr (addr : gostring) : M (res unit) := update (set_rest (fun r =>
  MkRest (r_nodes r) (r_next_node r) (r_traffic r) (r_counters r) (r_rotations r) (drop_addr addr (r_blacklist r)) (r_torrents r) (r_clubs r) (r_events r))).
Definition deleteTorrentBlockedEntryByAddr (addr : gostring) : M (res unit) := update (set_rest (fun r =>
  MkRest (r_nodes r) (r_next_node r) (r_traffic r) (r_counters r) (r_rotations r) (r_blacklist r) (drop_addr addr (r_torrents r)) (r_clubs r) (r_events r))).
Definition decommissionNode (nodeID : Z) : M (res unit) :=
  node ← nodeByID nodeID;
  match node with
  | Ok node =>
      n ← setNodeStatus nodeID (bs "decommissioned");
      match n with
      | Ok n =>
          if n =? 0 then Ret (Err "node not found")
          else match node with
          | Some nd => _ ← deleteBlacklistEntryByAddr (nd_addr nd); _ ← deleteTorrentBlockedEntryByAddr (nd_addr nd); Ret (Ok ())
          | None => Ret (Ok ())
          end
      | Err e => Ret (Err e)
      | Panic => Ret Panic
      end
  | Err e => Ret (Err e)
  | Panic => Ret Panic
  end.

(** ** Endpoints

    Waking the notifier and queueing deployments are not modelled. *)

Definition ok_json : bytes := Json.Marshal (Json.JObj (Json.field "ok" (Json.JBool true))).
Definition apiHeartbeat (pooled : bool) (req : option heartbeatReq) : M Lists.reply :=
  match req with
  | None => Ret (Lists.HttpError 400 "bad request")
  | Some q =>
      r ← updateHeartbeat pooled q;
      Ret (match r with
           | Ok rows => if rows =? 0 then Lists.HttpError 401 "unknown token or node not approved" else Lists.HttpOK ok_json
           | _ => Lists.HttpError 401 "unknown token or node not approved"
           end)
  end.

(** [apiNodeValidate]: the type and address of a peer that is approved and online. *)
Definition apiNodeValidate (callerToken : gostring) (token : option gostring) : M (option (option (gostring * gostring))) :=
  caller ← nodeByToken callerToken;
  match caller with
  | Ok (Some _) =>
      match token with
      | None => Ret None
      | Some token =>
          if decide (token = []) then Ret None
          else
            peer ← nodeByToken token;
            match peer with
            | Ok (Some p) => t ← now; Ret (Some (if IsOnline t p then Some (nd_type p, nd_addr p) else None))
            | _ => Ret (Some None)
            end
      end
  | _ => Ret None
  end.
Definition apiGeoIP (regionOf : gostring -> gostring) (token ip : gostring) : M Lists.reply :=
  n ← nodeByToken token;
  match n with
  | Ok (Some _) =>
      Ret (if decide (ip = []) then Lists.HttpError 400 "ip required"
           else Lists.HttpOK (Json.Marshal (Json.JObj (Json.field "region" (Json.JStr (regionOf ip)))) ++ [10]))
  | _ => Ret (Lists.HttpError 401 "unauthorized")
  end.

(** The session behind a request: the arbiter's own, or [camUser], whom Camerlengo names. *)
Definition user_or_nil (r : res User) : option User := match r with Ok u => Some u | _ => None end.
Definition currentUser (token camUser : gostring) : M (option User) :=
  if decide (token = []) then Ret None
  else
    s ← getSession token;
    match s with
    | Ok (Some s) => u ← getOrCreateUser (Username s); Ret (user_or_nil u)
    | _ => if decide (camUser = []) then Ret None else u ← getOrCreateUser camUser; Ret (user_or_nil u)
    end.
Definition checkAdminAPIToken (token : gostring) : M bool :=
  if decide (token = []) then Ret false
  else r ← getSetting (bs "admin_api_token");
       Ret (match r with Ok (Some stored) => negb (bool_decide (stored = [])) && bool_decide (stored = token) | _ => false end).
Inductive gate := ToLogin | Forbidden | Through (r : Lists.reply).
Definition requireAdmin (adminToken sessionToken camUser : gostring) (next : M Lists.reply) : M gate :=
  ok ← checkAdminAPIToken adminToken;
  if ok : bool then r ← next; Ret (Through r)
  else
    u ← currentUser sessionToken camUser;
    match u with
    | None => Ret ToLogin
    | Some u =>
        if decide (Role u = bs "admin") then
          t ← now; _ ← touchSession sessionToken t; r ← next; Ret (Through r)
        else Ret Forbidden
    end.

Definition adminNodeAction (id : option Z) (action : gostring) : M Lists.reply :=
  match id with
  | None => Ret (Lists.HttpError 400 "bad id")
  | Some id =>
      if decide (action = bs "suspend") then _ ← setNodeStatus id (bs "suspended"); Ret (Lists.HttpOK [])
      else if decide (action = bs "unsuspend") then _ ← setNodeStatus id (bs "approved"); Ret (Lists.HttpOK [])
      else if decide (action = bs "delete") then
        r ← deleteNode id; Ret (match r with Ok _ => Lists.HttpOK [] | _ => Lists.HttpError 500 "error" end)
      else Ret (Lists.HttpError 404 "not found")
  end.

Record registerReq := MkRegister {
  rg_Type : gostring; rg_SSHHost : gostring; rg_SSHUser : gostring; rg_Addr : gostring; rg_Fingerprint : gostring;
  rg_Pubkey : gostring; rg_Description : gostring; rg_Slug : gostring; rg_Instance : gostring }.
(** The owner is the session's user, or the first administrator. The reply is modelled by the
    id and the token. *)
Definition apiAdminNodeRegister (regionOf : gostring -> gostring) (sessionToken camUser : gostring) (req : option registerReq) :
    M (Lists.reply + Z * gostring) :=
  match req with
  | None => Ret (inl (Lists.HttpError 400 "bad request"))
  | Some q =>
      if negb (bool_decide (rg_Type q ∈ [bs "control"; bs "exit"; bs "navlink_mirror"])) then Ret (inl (Lists.HttpError 400 "type"))
      else
        u ← currentUser sessionToken camUser;
        ownerID ← match u with Some u => Ret (ID u) | None => firstAdminUserID end;
        let ssh := negb (bool_decide (rg_SSHHost q = [])) in
        if negb ssh && bool_decide (rg_Addr q = []) then Ret (inl (Lists.HttpError 400 "ssh_host or addr required"))
        else
          id ← (if ssh then submitNodeSSH ownerID (rg_Type q) (rg_SSHHost q) (rg_SSHUser q) (rg_Description q) (rg_Slug q) (rg_Instance q)
                else submitNode ownerID (rg_Type q) (rg_Addr q) (rg_Fingerprint q) (rg_Pubkey q) (rg_Description q) (rg_Slug q) (rg_Instance q));
          match id with
          | Ok id =>
              token ← approveNode id;
              match token with
              | Ok token =>
                  let region := regionOf (if ssh then rg_SSHHost q ++ bs ":443" else rg_Addr q) in
                  _ ← (if decide (region = []) then Ret (Ok 0) else setNodeRegionOverride id region);
                  Ret (inr (id, token))
              | _ => Ret (inl (Lists.HttpError 500 "approval failed"))
              end
          | _ => Ret (inl (Lists.HttpError 500 "database error"))
          end
  end.
Definition apiAdminNodeApprove (id : option Z) : M (Lists.reply + gostring) :=
  match id with
  | None => Ret (inl (Lists.HttpError 400 "bad node id"))
  | Some id =>
      token ← approveNode id;
      Ret (match token with Ok token => inr token | _ => inl (Lists.HttpError 404 "approval failed: node not found or not pending") end)
  end.
Record updateReq := MkUpdate {
  up_Addr : gostring; up_Description : gostring; up_Location : gostring; up_Provider : gostring; up_Slug : gostring; up_Instance : gostring }.
Definition done_or {A} (r : res A) : Lists.reply := match r with Ok _ => Lists.HttpOK (ok_json ++ [10]) | _ => Lists.HttpError 500 "database error" end.
Definition apiAdminNodeUpdate (id : option Z) (req : option updateReq) : M Lists.reply :=
  match id, req with
  | None, _ => Ret (Lists.HttpError 400 "bad node id")
  | _, None => Ret (Lists.HttpError 400 "bad request")
  | Some id, Some q =>
      if decide (up_Addr q = []) then Ret (Lists.HttpError 400 "addr required")
      else r ← updateNode id (up_Addr q) (up_Description q) (up_Location q) (up_Provider q) (up_Slug q) (up_Instance q); Ret (done_or r)
  end.
Definition with_node_id {A} (id : option Z) (f : Z -> M (res A)) : M Lists.reply :=
  match id with None => Ret (Lists.HttpError 400 "bad node id") | Some id => r ← f id; Ret (done_or r) end.
Definition apiAdminNodeDelete (id : option Z) : M Lists.reply := with_node_id id deleteNode.
Definition apiAdminNodeDecommission (id : option Z) : M Lists.reply := with_node_id id decommissionNode.
Definition adminNodeSetRegion (id : option Z) (region : option gostring) : M Lists.reply :=
  match id, region with
  | None, _ => Ret (Lists.HttpError 400 "bad id")
  | _, None => Ret (Lists.HttpError 400 "bad request")
  | Some id, Some region =>
      if negb (bool_decide (region ∈ bs <$> [""; "RU"; "EU"; "US"; "CN"; "IR"; "OTHER"]%string)) then Ret (Lists.HttpError 400 "unknown region")
      else r ← setNodeRegionOverride id region; Ret (match r with Ok _ => Lists.HttpOK ok_json | _ => Lists.HttpError 500 "db error" end)
  end.
Definition adminNodeSetPinned (id : option Z) (pinned : option bool) : M Lists.reply :=
  match id, pinned with
  | None, _ => Ret (Lists.HttpError 400 "bad id")
  | _, None => Ret (Lists.HttpError 400 "bad request")
  | Some id, Some pinned => r ← setNodePinned id pinned; Ret (match r with Ok _ => Lists.HttpOK ok_json | _ => Lists.HttpError 500 "db error" end)
  end.
Definition apiAdminNodeSetSNIList {U : Unicode} (id : option Z) (snis : option (list gostring)) : M Lists.reply :=
  match id, snis with
  | None, _ => Ret (Lists.HttpError 400 "bad node id")
  | _, None => Ret (Lists.HttpError 400 "bad request")
  | Some id, Some snis =>
      let clean := List.filter (fun v => negb (bool_decide (v = []))) (Strings.TrimSpace <$> snis) in
      r ← setNodeSNIList id (Net.join [44] clean); Ret (done_or r)
  end.
Definition adminClubsAssignNode (id : option Z) (clubID : option Z) : M Lists.reply :=
  match id with
  | None => Ret (Lists.HttpError 400 "bad node_id")
  | Some id => _ ← setNodeClub id (default 0 clubID); Ret (Lists.HttpOK [])
  end.

(** ** Load factors (load_factor.go) *)

Record loadFactorValues := MkLoadFactor {
  lf_Enabled : bool; lf_ControlMin : Float.float64; lf_ControlMax : Float.float64; lf_ExitMin : Float.float64; lf_ExitMax : Float.float64 }.
Record sample := MkSample { sm_id : Z; sm_bytes : Z }.

Definition load_factor (lo hi mean : Float.float64) (bytes : Z) : Float.float64 :=
  if Float.flt Float.f0 mean then
    let factor := Float.fdiv (Float.of_Z bytes) mean in
    if Float.flt factor lo then lo else if Float.flt hi factor then hi else factor
  else Float.f1.
Definition group_mean (samples : list sample) : Float.float64 :=
  Float.fdiv (Float.of_Z (fold_left (fun total s => int64 (total + sm_bytes s)) samples 0)) (Float.of_Z (Z.of_nat (length samples))).

Fixpoint each {A} (f : A -> M unit) (l : list A) : M unit :=
  match l with [] => Ret () | x :: l => _ ← f x; each f l end.
Fixpoint sample_nodes (region : gostring -> gostring) (nodes : list node_row) (groups : gmap gostring (list sample)) : M (gmap gostring (list sample)) :=
  match nodes with
  | [] => Ret groups
  | n :: nodes =>
      b ← nodeHourlyBytes (nd_id n);
      let r := region (nd_addr n) in
      sample_nodes region nodes (<[r := default [] (groups !! r) ++ [MkSample (nd_id n) b]]> groups)
  end.
(** One node type; [order] is the order in which the map of groups is walked. *)
Definition recompute_type (regionOf : gostring -> gostring) (cfg : loadFactorValues) (order : nat -> nat) (nodeType : gostring) : M unit :=
  nodes ← liveNodes nodeType;
  match nodes with
  | Ok [] => Ret ()
  | Ok nodes =>
      if negb (lf_Enabled cfg) then each (fun n => forget (setNodeLoad (nd_id n) Float.f0)) nodes
      else
        groups ← sample_nodes (Lists.regionFnWithOverrides regionOf (manifest_node <$> nodes)) nodes ∅;
        let '(lo, hi) := if decide (nodeType = bs "control") then (lf_ControlMin cfg, lf_ControlMax cfg) else (lf_ExitMin cfg, lf_ExitMax cfg) in
        each (fun g => each (fun s => forget (setNodeLoad (sm_id s) (load_factor lo hi (group_mean g.2) (sm_bytes s)))) g.2) (Rand.range_map order groups)
  | _ => Ret ()
  end.
Definition recomputeLoadFactors (regionOf : gostring -> gostring) (cfg : loadFactorValues) (o1 o2 : nat -> nat) : M unit :=
  _ ← recompute_type regionOf cfg o1 (bs "control"); recompute_type regionOf cfg o2 (bs "exit").

(** ** The archival of old samples (stats_archive.go)

    [archived id rows] is whether [appendStatsArchive] wrote the rows to the remote files. *)

Definition statsRetention : Z := 30 * 24 * hour.
Definition older (nodeID cutoff : Z) (s : traffic_row) : bool := (tr_node s =? nodeID) && (tr_ts s <? cutoff).
Definition ts_le (a b : traffic_row) : Prop := tr_ts a <= tr_ts b.
#[export] Instance ts_le_dec a b : Decision (ts_le a b).
Proof. unfold ts_le. apply _. Defined.
Definition nodeIDsWithStatsOlderThan (cutoff : Z) : M (res (list Z)) := select (fun o t =>
  Rand.rand_Shuffle o (remove_dups (map tr_node (List.filter (fun s => tr_kept s && (tr_ts s <? cutoff)) (r_traffic (t_rest t)))))).
Definition nodeStatsOlderThan (nodeID cutoff : Z) : M (res (list traffic_row)) := select (fun o t =>
  merge_sort ts_le (Rand.rand_Shuffle o (List.filter (fun s => tr_kept s && older nodeID cutoff s) (r_traffic (t_rest t))))).
Definition drop_row (s : traffic_row) : traffic_row := MkTraffic (tr_node s) (tr_ts s) (tr_raw s) (tr_cum s) (tr_type s) false.
Definition set_traffic (f : list traffic_row -> list traffic_row) : tables -> tables := set_rest (fun r =>
  MkRest (r_nodes r) (r_next_node r) (f (r_traffic r)) (r_counters r) (r_rotations r) (r_blacklist r) (r_torrents r)
    (r_clubs r) (r_events r)).
Definition deleteNodeStatsOlderThan (nodeID cutoff : Z) : M (res unit) :=
  update (set_traffic (map (fun s => if older nodeID cutoff s then drop_row s else s))).
Definition archiveOldNodeStats (archived : Z -> list traffic_row -> bool) : M unit :=
  t ← now;
  let cutoff := time_seconds (t - statsRetention) in
  ids ← nodeIDsWithStatsOlderThan cutoff;
  match ids with
  | Ok ids =>
      each (fun id =>
        rows ← nodeStatsOlderThan id cutoff;
        match rows with
        | Ok (s :: rows) => if archived id (s :: rows) then forget (deleteNodeStatsOlderThan id cutoff) else Ret ()
        | _ => Ret ()
        end) ids
  | _ => Ret ()
  end.

Lemma each_within P {A} (f : A -> M unit) l : (forall x, within P (f x)) -> within P (each f l).
Proof. intros H. induction l as [|x l IH]; [done|]. cbn [each]. by apply within_bind. Qed.

(** ** What nodes can change

    [T] are the tokens that heartbeats carry, [C] the settings of the load factors. *)
Section confined.
Context (T : gostring -> Prop) (C : loadFactorValues -> Prop).

(** What only administrators decide about a node: all but its report, its load, and the status
    and log of its deployment. *)
Definition identity (n : node_row) : node_row :=
  MkNodeRow (nd_id n) (nd_owner n) (nd_type n) (nd_addr n) (nd_token n) (nd_status n) (nd_approved_at n) None
    (fresh_report []) (let p := nd_policy n in MkPolicy (po_region_override p) (po_sni_list p) (po_pinned p) (po_club_id p) Float.f0)
    (let h := nd_hosting n in MkHosting (ho_pubkey h) (ho_description h) (ho_location h) (ho_provider h) (ho_node_uid h)
       (ho_slug h) (ho_instance h) (ho_ssh_host h) (ho_ssh_user h) [] []).
Definition clamped (lo hi f : Float.float64) : Prop := f = lo \/ f = hi \/ Float.flt f lo = false /\ Float.flt hi f = false.
Definition load_allowed (f : Float.float64) : Prop :=
  f = Float.f0 \/ f = Float.f1 \/
  exists cfg, C cfg /\ (clamped (lf_ControlMin cfg) (lf_ControlMax cfg) f \/ clamped (lf_ExitMin cfg) (lf_ExitMax cfg) f).
Record evolves (n n' : node_row) : Prop := {
  ev_identity : identity n' = identity n;
  ev_report : nd_heartbeat n' = nd_heartbeat n /\ nd_report n' = nd_report n
    \/ nd_status n = bs "approved" /\ exists tok, nd_token n = Some tok /\ T tok;
  ev_load : po_load (nd_policy n') = po_load (nd_policy n) \/ load_allowed (po_load (nd_policy n')) }.
Record confined (t t' : tables) : Prop := {
  cf_nodes : Forall2 evolves (nodes_of t) (nodes_of t');
  cf_clubs : r_clubs (t_rest t') = r_clubs (t_rest t);
  cf_events : r_events (t_rest t') = r_events (t_rest t);
  cf_users : users_kept t t' }.

Lemma identity_inv n n' : identity n' = identity n ->
  nd_id n' = nd_id n /\ nd_type n' = nd_type n /\ nd_addr n' = nd_addr n /\ nd_token n' = nd_token n /\ nd_status n' = nd_status n.
Proof. by intros [=]. Qed.

#[export] Instance evolves_refl : Reflexive evolves.
Proof. intros n. split; auto. Qed.
#[export] Instance evolves_trans : Transitive evolves.
Proof.
  intros a b c [I1 R1 L1] [I2 R2 L2]. destruct (identity_inv _ _ I1) as (_ & _ & _ & Et & Es). split.
  - congruence.
  - rewrite Et, Es in R2. destruct R1 as [[? ?]|?]; [|by right]. destruct R2 as [[? ?]|?]; [|by right]. left; split; congruence.
  - destruct L2 as [E|?]; [|by right]. destruct L1; [left|right]; congruence.
Qed.
#[export] Instance confined_refl : Reflexive confined.
Proof. split; [apply reflexivity|done..]. Qed.
#[export] Instance confined_trans : Transitive confined.
Proof. intros a b c [] []. split; [by etransitivity|congruence|congruence|by etransitivity]. Qed.

Lemma confined_frame t t' : t_rest t' = t_rest t -> users_kept t t' -> confined t t'.
Proof. intros E Hu. split; unfold nodes_of; rewrite ?E; [apply reflexivity|done..]. Qed.

Lemma confined_nodes f t : (forall n, evolves n (f n)) -> confined t (set_nodes (map f) t).
Proof. intros H. split; [|done|done|by apply users_kept_same]. unfold nodes_of. cbn. induction (r_nodes (t_rest t)); constructor; auto. Qed.

Lemma within_update_where p f : (forall n, p n = true -> evolves n (f n)) -> within confined (update_where p f).
Proof. intros H. apply within_sql. intros _ t. apply confined_nodes. intros n. case_match; [auto|reflexivity]. Qed.

Lemma within_query p sort : within confined (query_nodes p sort).
Proof. apply within_select, confined_frame. Qed.
Lemma within_read {A} (q : (nat -> nat) -> tables -> A) : within confined (select q).
Proof. apply within_select, confined_frame. Qed.
#[local] Hint Resolve within_query within_now within_read : within.

Lemma confined_rest f t : (forall r, r_nodes (f r) = r_nodes r /\ r_clubs (f r) = r_clubs r /\ r_events (f r) = r_events r) ->
  confined t (set_rest f t).
Proof.
  intros H. destruct (H (t_rest t)) as (E1 & E2 & E3). split; unfold nodes_of; cbn; rewrite ?E1; [apply reflexivity|done..|by apply users_kept_same].
Qed.
Lemma within_sample pooled id ts raw ty : within confined (recordNodeTrafficSample pooled id ts raw ty).
Proof. unfold recordNodeTrafficSample. within_steps; apply within_update; intros tb; by apply confined_rest. Qed.
#[local] Hint Resolve within_sample : within.

Lemma within_heartbeat pooled q : T (hb_Token q) -> within confined (updateHeartbeat pooled q).
Proof.
  intros Hq. unfold updateHeartbeat. within_step; [within_steps|]. intros t. within_step.
  - apply within_update_where. intros n [Ht Hs]%andb_true_iff. split; [done| |by left]. right.
    split; [by apply bool_decide_eq_true in Hs|]. exists (hb_Token q). by apply bool_decide_eq_true in Ht.
  - within_steps.
Qed.

Lemma load_factor_clamped lo hi mean bytes : load_factor lo hi mean bytes = Float.f1 \/ clamped lo hi (load_factor lo hi mean bytes).
Proof.
  unfold load_factor, clamped. destruct (Float.flt Float.f0 mean); [right|by left].
  destruct (Float.flt _ lo) eqn:E1; [auto|]. destruct (Float.flt hi _) eqn:E2; auto.
Qed.

Lemma within_setNodeLoad id f : load_allowed f -> within confined (setNodeLoad id f).
Proof. intros H. apply within_update_where. intros n _. split; [done|by left|by right]. Qed.

Lemma within_recompute region cfg o ty : C cfg -> within confined (recompute_type region cfg o ty).
Proof.
  intros Hc. unfold recompute_type, liveNodes, liveNodesTTL. within_step; [within_steps|]. intros [[|n l]|e|]; [done| |done..].
  within_step; [apply each_within; intros; within_steps; apply within_setNodeLoad; by left|]. within_step.
  - generalize (∅ : gmap gostring (list sample)), (Lists.regionFnWithOverrides region (manifest_node <$> n :: l)).
    intros g rg. revert g. induction (n :: l) as [|x k IH]; intros g; [done|].
    cbn [sample_nodes]. unfold nodeHourlyBytes. within_steps.
  - intros g. destruct (decide (ty = bs "control")); (apply each_within; intros; apply each_within; intros; within_steps;
      apply within_setNodeLoad; right;
      edestruct load_factor_clamped as [E|E]; [left; exact E|right; exists cfg; by auto]).
Qed.

Lemma within_archive archived : within confined (archiveOldNodeStats archived).
Proof.
  unfold archiveOldNodeStats, nodeIDsWithStatsOlderThan, nodeStatsOlderThan, deleteNodeStatsOlderThan. within_steps.
  apply each_within. intros id. within_steps. apply within_update. intros tb. by apply confined_rest.
Qed.
Lemma within_deploy id f : (forall n, evolves n (with_hosting f n)) -> within confined (update_where (by_id id) (with_hosting f)).
Proof. intros H. apply within_update_where. intros n _. apply H. Qed.

Section requests.
Context {AE : Aead} {BL : Blake2b} {ED : Ed25519} {AC : ArbiterCodec}.
Context (pooled : bool) (seed pub : bytes) (regionOf : gostring -> gostring).

(** What runs without an administrator's rights: the requests of clients and proxies, the
    refresher, nodes' heartbeats and questions, the lists for manifests, the load factors, the
    provisioner's notes on a deployment, and the archival. *)
Inductive node_request : M unit -> Prop :=
| nr_session p : Logins.request seed pub p -> node_request p
| nr_heartbeat req : (forall q, req = Some q -> T (hb_Token q)) -> node_request (forget (apiHeartbeat pooled req))
| nr_validate caller token : node_request (forget (apiNodeValidate caller token))
| nr_geoip token ip : node_request (forget (apiGeoIP regionOf token ip))
| nr_live ty ttl : node_request (forget (liveNodesTTL ty ttl))
| nr_approved ty : node_request (forget (listApprovedNodes ty))
| nr_club_nodes club ty : node_request (forget (ClubNodes club ty))
| nr_load cfg o1 o2 : C cfg -> node_request (recomputeLoadFactors regionOf cfg o1 o2)
| nr_deploy id status : node_request (forget (setDeployStatus id status))
| nr_deploy_log id text : node_request (forget (appendNodeDeployLog id text))
| nr_archive archived : node_request (archiveOldNodeStats archived).

Lemma node_request_within p : node_request p -> within confined p.
Proof.
  intros [p0 Hp|req Hq|c tk|tk ip|ty ttl|ty|cl ty|cfg o1 o2 Hc|id s|id s|ar].
  - by eapply request_within, Hp; apply confined_frame.
  - apply within_forget. destruct req as [q|]; [|done]. unfold apiHeartbeat. apply within_bind; [|done].
    by apply within_heartbeat, Hq.
  - unfold apiNodeValidate, nodeByToken. within_steps.
  - unfold apiGeoIP, nodeByToken. within_steps.
  - unfold liveNodesTTL. within_steps.
  - unfold listApprovedNodes. within_steps.
  - unfold ClubNodes. within_steps.
  - unfold recomputeLoadFactors. apply within_bind; intros; by apply within_recompute.
  - apply within_forget, within_deploy. intros n. split; auto.
  - apply within_forget, within_deploy. intros n. split; auto.
  - apply within_archive.
Qed.
End requests.
End confined.

(** ** The lifetime traffic of a node

    A node reports the bytes of its current process. [totals prev acc l] are the bytes it has
    carried in all after each report of [l], when the last report was [prev] and [acc] bytes
    were known: a report below the last one is the whole of a new process. *)
Fixpoint totals (prev acc : Z) (l : list Z) : list Z :=
  match l with
  | [] => []
  | x :: l => let acc := acc + (if x <? prev then x else x - prev) in acc :: totals x acc l
  end.
Definition samples_of (id : Z) (r : rest) : list traffic_row := List.filter (fun s => tr_node s =? id) (r_traffic r).
Definition reports (id : Z) (r : rest) : list Z := map tr_raw (samples_of id r).
(** The reports are not negative and their sum fits in 64 bits. *)
Definition countable (l : list Z) : Prop := Forall (Z.le 0) l /\ foldr Z.add 0 l < 2 ^ 63.

(** The rows of the table as it is. *)
Definition kept_samples (id : Z) (r : rest) : list traffic_row := List.filter tr_kept (samples_of id r).

Definition counter_at (id : Z) (r : rest) : Z * Z :=
  match r_counters r !! id with Some c => (co_last_raw c, co_offset c + co_last_raw c) | None => (0, 0) end.
Definition after_reports (l : list Z) : Z * Z := (List.last l 0, List.last (totals 0 0 l) 0).
Definition traffic_inv (t : tables) : Prop :=
  forall id, countable (reports id (t_rest t)) ->
    map tr_cum (samples_of id (t_rest t)) = totals 0 0 (reports id (t_rest t)) /\
    counter_at id (t_rest t) = after_reports (reports id (t_rest t)).

Lemma totals_snoc prev acc l x :
  totals prev acc (l ++ [x]) = totals prev acc l ++
    [List.last (totals prev acc l) acc + (if x <? List.last l prev then x else x - List.last l prev)].
Proof.
  revert prev acc. induction l as [|y l IH]; intros prev acc; [done|]. cbn [totals app]. rewrite IH. f_equal.
  assert (forall (a d : Z) k, List.last (a :: k) d = List.last k a) as E.
  { intros a d k. revert a d. induction k as [|b k IHk]; intros a d; [done|]. change (List.last (b :: k) d = List.last (b :: k) a). by rewrite !IHk. }
  by rewrite !E.
Qed.

Lemma totals_bounds prev acc l : Forall (Z.le 0) l -> 0 <= prev <= acc ->
  let a := List.last (totals prev acc l) acc in let p := List.last l prev in 0 <= p <= a /\ a <= acc + foldr Z.add 0 l.
Proof.
  revert prev acc. induction l as [|x l IH] using rev_ind; intros prev acc Hl Hp; cbn zeta; [cbn; lia|].
  apply Forall_app in Hl as [Hl Hx]. apply Forall_cons_1 in Hx as [Hx _]. specialize (IH _ _ Hl Hp). cbn zeta in IH.
  rewrite totals_snoc, !List.last_last, foldr_app. cbn [foldr].
  assert (forall a k, foldr Z.add a k = a + foldr Z.add 0 k) as ->.
  { intros a k. induction k as [|y k IHk]; cbn; lia. }
  destruct (Z.ltb_spec x (List.last l prev)); lia.
Qed.

Lemma totals_sorted prev acc l : Forall (Z.le 0) l -> 0 <= prev -> Sorted Z.le (totals prev acc l).
Proof.
  revert prev acc. induction l as [|x l IH]; intros prev acc Hl Hp; [constructor|]. apply Forall_cons_1 in Hl as [Hx Hl].
  cbn [totals]. constructor; [by apply IH|]. destruct l as [|y l]; constructor. apply Forall_cons_1 in Hl as [Hy _].
  destruct (Z.ltb_spec y x); lia.
Qed.

Lemma sum_snoc l x : foldr Z.add 0 (l ++ [x]) = foldr Z.add 0 l + x.
Proof. induction l as [|y l IH]; cbn; lia. Qed.

Lemma countable_snoc l x : countable (l ++ [x]) -> countable l /\ 0 <= x /\ foldr Z.add 0 l + x < 2 ^ 63.
Proof.
  intros [Hl Hs]. apply Forall_app in Hl as [Hl Hx]. apply Forall_cons_1 in Hx as [Hx _]. rewrite sum_snoc in Hs.
  split; [split; [done|lia]|lia].
Qed.

Lemma add_sample_inv id ts raw ty t : traffic_inv t -> traffic_inv (set_rest (add_sample id ts raw ty) t).
Proof.
  intros Hi id'. specialize (Hi id'). unfold reports, samples_of, counter_at in *. cbn [t_rest set_rest add_sample write_sample r_traffic r_counters] in *.
  rewrite List.filter_app. cbn [List.filter tr_node]. destruct (Z.eqb_spec id id') as [<-|Hn].
  2: { rewrite app_nil_r, lookup_insert_ne by done. exact Hi. }
  rewrite !map_app, lookup_insert_eq. cbn [map tr_raw tr_cum].
  intros (Hc & H0 & Hs)%countable_snoc. destruct (Hi Hc) as [-> Hat].
  destruct (totals_bounds 0 0 _ (proj1 Hc) ltac:(lia)) as [Hb1 Hb2].
  unfold after_reports in *. rewrite totals_snoc, !List.last_last.
  revert Hb1 Hb2 Hs Hat. generalize (map tr_raw (List.filter (fun s => tr_node s =? id) (r_traffic (t_rest t)))). intros l.
  generalize (List.last l 0), (List.last (totals 0 0 l) 0), (foldr Z.add 0 l). intros p a sm Hb1 Hb2 Hs Hat.
  destruct (r_counters (t_rest t) !! id) as [c|]; cbn in Hat |- *; injection Hat as E1 E2.
  - rewrite E1 in *. rewrite (int64_id (co_offset c + p)) by lia.
    destruct (Z.ltb_spec raw p); cbn; rewrite int64_id by lia; (split; [do 2 f_equal|f_equal]); lia.
  - subst. rewrite int64_id by lia. destruct (Z.ltb_spec raw 0); [lia|]. split; [do 2 f_equal|f_equal]; lia.
Qed.

(** *** Every request *)

Section traffic.
Context {AE : Aead} {BL : Blake2b} {ED : Ed25519} {AC : ArbiterCodec} {U : Unicode}.
Context (pooled : bool) (seed pub : bytes) (regionOf : gostring -> gostring).

(** The node endpoints of administrators; each runs behind [requireAdmin]. *)
Inductive admin_action : M unit -> Prop :=
| aa_action id action : admin_action (forget (adminNodeAction id action))
| aa_register s c req : admin_action (forget (apiAdminNodeRegister regionOf s c req))
| aa_approve id : admin_action (forget (apiAdminNodeApprove id))
| aa_update id req : admin_action (forget (apiAdminNodeUpdate id req))
| aa_delete id : admin_action (forget (apiAdminNodeDelete id))
| aa_decommission id : admin_action (forget (apiAdminNodeDecommission id))
| aa_region id region : admin_action (forget (adminNodeSetRegion id region))
| aa_pinned id pinned : admin_action (forget (adminNodeSetPinned id pinned))
| aa_sni id snis : admin_action (forget (apiAdminNodeSetSNIList id snis))
| aa_club id club : admin_action (forget (adminClubsAssignNode id club)).
Definition any_request (p : M unit) : Prop := node_request (fun _ => True) (fun _ => True) pooled seed pub regionOf p \/ admin_action p.

(** What an administrator's node action changes: none of these. *)
Section admin.
Context (P : tables -> tables -> Prop).
Context (untouched : forall t t', r_traffic (t_rest t') = r_traffic (t_rest t) -> r_counters (t_rest t') = r_counters (t_rest t) ->
  r_clubs (t_rest t') = r_clubs (t_rest t) -> r_events (t_rest t') = r_events (t_rest t) -> users_kept t t' -> P t t').

Lemma untouched_frame t t' : t_rest t' = t_rest t -> users_kept t t' -> P t t'.
Proof using untouched. intros E Hu. apply untouched; rewrite ?E; done. Qed.
Lemma untouched_rest f t : (forall r, r_traffic (f r) = r_traffic r /\ r_counters (f r) = r_counters r /\ r_clubs (f r) = r_clubs r
  /\ r_events (f r) = r_events r) -> P t (set_rest f t).
Proof using untouched. intros H. destruct (H (t_rest t)) as (? & ? & ? & ?). apply untouched; try done. by apply users_kept_same. Qed.
Lemma untouched_nodes f t : P t (set_nodes f t).
Proof using untouched. by apply untouched_rest. Qed.
Lemma admin_read {A} (q : (nat -> nat) -> tables -> A) : within P (select q).
Proof using untouched. apply within_select, untouched_frame. Qed.
Lemma admin_query p sort : within P (query_nodes p sort).
Proof using untouched. apply admin_read. Qed.
Lemma admin_update_where p f : within P (update_where p f).
Proof using untouched. apply within_sql. intros _ t. apply untouched_nodes. Qed.
Lemma admin_user n : within P (getOrCreateUser n).
Proof using untouched. apply within_getOrCreateUser, untouched_frame. Qed.
Lemma untouched_same t : P t t.
Proof using untouched. apply untouched_frame; [done|]. reflexivity. Qed.
#[local] Hint Resolve within_now admin_read admin_query admin_update_where admin_user untouched_nodes untouched_same : within.

Lemma admin_insert owner ty addr fp h t : P t (insert_node owner ty addr fp h t).2.
Proof using untouched. unfold insert_node. repeat case_match; cbn; auto with within. by apply untouched_rest. Qed.
Lemma admin_stmt {A} (q : (nat -> nat) -> tables -> res A * tables) : (forall o t, P t (q o t).2) -> within P (stmt q).
Proof. intros H. by split. Qed.
Lemma admin_submitNodeSSH o ty host u d sl inst : within P (submitNodeSSH o ty host u d sl inst).
Proof using untouched.
  unfold submitNodeSSH. within_steps. apply admin_stmt. intros ord t. repeat case_match; cbn [snd]; try apply admin_insert; auto with within.
Qed.
Lemma admin_submitNode o ty addr fp pk d sl inst : within P (submitNode o ty addr fp pk d sl inst).
Proof using untouched. unfold submitNode. within_steps. apply admin_stmt. intros ord t. apply admin_insert. Qed.
Lemma admin_approveNode id : within P (approveNode id).
Proof using untouched. unfold approveNode, genToken. within_steps. apply admin_stmt. intros ord t. case_match; cbn; auto with within. Qed.
#[local] Hint Resolve admin_submitNode admin_submitNodeSSH admin_approveNode : within.

Lemma admin_updateNode id a d l p sl inst : within P (updateNode id a d l p sl inst).
Proof using untouched.
  unfold updateNode, recordAddrRotationIfChanged. within_steps.
  - apply admin_stmt. intros ord t. case_match; cbn; auto with within.
  - apply within_update. intros t. by apply untouched_rest.
Qed.
Lemma admin_deleteNode id : within P (deleteNode id).
Proof using untouched. apply within_update. intros t. apply untouched_nodes. Qed.
Lemma admin_decommission id : within P (decommissionNode id).
Proof using untouched.
  unfold decommissionNode, nodeByID, setNodeStatus, deleteBlacklistEntryByAddr, deleteTorrentBlockedEntryByAddr.
  within_steps; apply within_update; intros t; by apply untouched_rest.
Qed.
#[local] Hint Resolve admin_updateNode admin_deleteNode admin_decommission : within.

Lemma admin_within p : admin_action p -> within P p.
Proof using untouched.
  intros []; unfold adminNodeAction, apiAdminNodeRegister, apiAdminNodeApprove, apiAdminNodeUpdate, apiAdminNodeDelete,
    apiAdminNodeDecommission, adminNodeSetRegion, adminNodeSetPinned, apiAdminNodeSetSNIList, adminClubsAssignNode, with_node_id,
    setNodeStatus, setNodeRegionOverride, setNodePinned, setNodeSNIList, setNodeClub, currentUser, getSession, firstAdminUserID; within_steps.
Qed.
End admin.

Definition keeps_traffic (t t' : tables) : Prop := traffic_inv t -> traffic_inv t'.
Lemma traffic_frame t t' : r_traffic (t_rest t') = r_traffic (t_rest t) -> r_counters (t_rest t') = r_counters (t_rest t) -> keeps_traffic t t'.
Proof. intros E1 E2 H id. specialize (H id). unfold reports, samples_of, counter_at in *. by rewrite E1, E2. Qed.
Lemma keeps_traffic_frame t t' : t_rest t' = t_rest t -> users_kept t t' -> keeps_traffic t t'.
Proof. intros E _. apply traffic_frame; by rewrite E. Qed.
Lemma traffic_read {A} (q : (nat -> nat) -> tables -> A) : within keeps_traffic (select q).
Proof. apply within_select, keeps_traffic_frame. Qed.
Lemma traffic_query p sort : within keeps_traffic (query_nodes p sort).
Proof. apply traffic_read. Qed.
Lemma traffic_update_where p f : within keeps_traffic (update_where p f).
Proof. apply within_sql. intros _ t. by apply traffic_frame. Qed.
Lemma traffic_sample id ts raw ty : within keeps_traffic (recordNodeTrafficSample false id ts raw ty).
Proof. apply within_update. intros t. unfold keeps_traffic. apply add_sample_inv. Qed.
#[local] Hint Resolve within_now traffic_read traffic_query traffic_update_where traffic_sample : within.

(** Deleting rows leaves the history as it is. *)
Lemma dropped_samples id (p : traffic_row -> bool) (l : list traffic_row) : map (fun s => (tr_raw s, tr_cum s)) (List.filter (fun s => tr_node s =? id) (map (fun s => if p s then drop_row s else s) l))
  = map (fun s => (tr_raw s, tr_cum s)) (List.filter (fun s => tr_node s =? id) l).
Proof. induction l as [|s l IH]; [done|]. cbn [map List.filter]. destruct (p s); cbn [tr_node drop_row]; destruct (tr_node s =? id); cbn; congruence. Qed.
Lemma drop_keeps_traffic (p : traffic_row -> bool) t : keeps_traffic t (set_traffic (map (fun s : traffic_row => if p s then drop_row s else s)) t).
Proof.
  intros H id. specialize (H id). pose proof (dropped_samples id p (r_traffic (t_rest t))) as E.
  assert (reports id (t_rest (set_traffic (map (fun s : traffic_row => if p s then drop_row s else s)) t)) = reports id (t_rest t)) as E1.
  { apply (f_equal (map fst)) in E. by rewrite !map_map in E. }
  assert (map tr_cum (samples_of id (t_rest (set_traffic (map (fun s : traffic_row => if p s then drop_row s else s)) t))) = map tr_cum (samples_of id (t_rest t))) as E2.
  { apply (f_equal (map snd)) in E. by rewrite !map_map in E. }
  by rewrite E1, E2.
Qed.
Lemma traffic_archive archived : within keeps_traffic (archiveOldNodeStats archived).
Proof.
  unfold archiveOldNodeStats, nodeIDsWithStatsOlderThan, nodeStatsOlderThan, deleteNodeStatsOlderThan. within_steps.
  apply each_within. intros id. within_steps. apply within_update. intros tb. apply drop_keeps_traffic.
Qed.

Lemma traffic_recompute cfg o ty : within keeps_traffic (recompute_type regionOf cfg o ty).
Proof.
  unfold recompute_type, liveNodes, liveNodesTTL. within_step; [within_steps|]. intros [l|e|]; [|done..].
  assert (forall rg l g, within keeps_traffic (sample_nodes rg l g)) as Hs.
  { intros rg k. induction k as [|n k IH]; intros g; [done|]. cbn [sample_nodes]. unfold nodeHourlyBytes. within_steps. }
  destruct l as [|n l]; [done|]. unfold setNodeLoad. within_steps; repeat (apply each_within; intros); within_steps.
Qed.

End traffic.

Section accounted.
Context {AE : Aead} {BL : Blake2b} {ED : Ed25519} {AC : ArbiterCodec} {U : Unicode}.
Context (seed pub : bytes) (regionOf : gostring -> gostring).
#[local] Hint Resolve within_now traffic_read traffic_query traffic_update_where traffic_sample : within.

Lemma any_within p : any_request false seed pub regionOf p -> within keeps_traffic p.
Proof.
  intros [Hp|Hp]; [|eapply admin_within; [|exact Hp]; intros; by apply traffic_frame].
  destruct Hp as [p Hp|[q|] _|c tk|tk ip|ty ttl|ty|cl ty|cfg o1 o2 _|id s|id s|ar].
  - by eapply request_within, Hp; apply keeps_traffic_frame.
  - unfold apiHeartbeat, updateHeartbeat. within_steps.
  - done.
  - unfold apiNodeValidate, nodeByToken. within_steps.
  - unfold apiGeoIP, nodeByToken. within_steps.
  - unfold liveNodesTTL. within_steps.
  - unfold listApprovedNodes. within_steps.
  - unfold ClubNodes. within_steps.
  - apply within_bind; intros; apply traffic_recompute.
  - unfold setDeployStatus. within_steps.
  - unfold appendNodeDeployLog. within_steps.
  - apply traffic_archive.
Qed.

Lemma sorted_kept (l : list traffic_row) : Sorted Z.le (map tr_cum l) -> Sorted Z.le (map tr_cum (List.filter tr_kept l)).
Proof.
  intros H. apply StronglySorted_Sorted. apply Sorted_StronglySorted in H; [|intros a b c; lia].
  induction l as [|s l IH]; [constructor|]. cbn [map] in H. apply StronglySorted_inv in H as [H1 H2]. cbn [List.filter].
  destruct (tr_kept s); [|by apply IH]. cbn [map]. constructor; [by apply IH|]. rewrite List.Forall_forall in H2 |- *. intros x Hx.
  apply H2. apply in_map_iff in Hx as (y & <- & Hy%List.filter_In). apply in_map. tauto.
Qed.

(** C21: On SQLite, however the requests of clients, nodes and administrators, the provisioner's
    notes and the archival of old samples interleave, with statements failing or losing their
    replies, the cumulative totals recorded for a node, those of deleted samples included, are what
    it carried in all: the running sums of its reports, a report below the one before it counted as
    a new process that began at zero; they never decrease, nor do those that are still in the table.
    Provided the reports are not negative and their sum fits in 64 bits. *)
Theorem traffic_accounted E w y id :
  sreach exec E (any_request false seed pub regionOf) w y -> r_traffic (t_rest (db w)) = [] -> r_counters (t_rest (db w)) = ∅ ->
  countable (reports id (t_rest (db (shared y)))) ->
  map tr_cum (samples_of id (t_rest (db (shared y)))) = totals 0 0 (reports id (t_rest (db (shared y)))) /\
  Sorted Z.le (map tr_cum (samples_of id (t_rest (db (shared y))))) /\
  Sorted Z.le (map tr_cum (kept_samples id (t_rest (db (shared y))))).
Proof.
  intros Hy E1 E2 Hc. assert (traffic_inv (db (shared y))) as Hi.
  { refine (within_reach keeps_traffic E (any_request false seed pub regionOf) w y _ _ any_within Hy _).
    - intros t H. exact H.
    - intros a b c H1 H2 H. by apply H2, H1.
    - intros i _. unfold counter_at, reports, samples_of. by rewrite E1, E2. }
  destruct (Hi id Hc) as [Ht _]. split; [done|]. assert (Sorted Z.le (map tr_cum (samples_of id (t_rest (db (shared y)))))) as Hs.
  { rewrite Ht. apply totals_sorted; [apply Hc|done]. }
  split; [done|]. by apply sorted_kept.
Qed.
End accounted.

#[local] Existing Instance Logins.toy_codec.

(** A table with two approved nodes, and a heartbeat of the first. *)
Definition node_at (id : Z) (token : string) : node_row :=
  MkNodeRow id 1 (bs "exit") (bs "192.0.2.1:443") (Some (bs token)) (bs "approved") (Some 0) (Some 0) (fresh_report []) fresh_policy
    (MkHosting [] [] [] [] [] None None [] [] [] []).
Definition two_nodes : world :=
  MkWorld (set_nodes (fun _ => [node_at 1 "t1"; node_at 2 "t2"]) no_rows) (60 * second) [] [] ∅.
Definition beat : heartbeatReq := MkHeartbeat (bs "t1") Float.f1 Float.f1 4096 (bs "fp") (Some true) ∅.
(** The node restarts between its two reports. *)
Definition beats (pooled : bool) : list (M unit) :=
  [forget (apiHeartbeat pooled (Some beat)); forget (apiHeartbeat pooled (Some (MkHeartbeat (bs "t1") Float.f1 Float.f1 1000 [] None ∅)))].
Lemma beats_requests pooled : Forall (any_request pooled [] [] id) (beats pooled).
Proof. constructor; [|constructor; [|constructor]]; left; by apply nr_heartbeat. Qed.
(** A month after them the samples are archived. *)
Definition month_later (n : nat) : Env :=
  let e := Logins.good_env in MkEnv (if decide (n = 0%nat) then statsRetention + minute else 0) (e_sql e) (e_order e) (e_rand e) (e_verify e) (e_user e).
Definition archive_all : list (M unit) := [archiveOldNodeStats (fun _ _ => true)].
Definition after_beats : system (Resp := Resp) (St := world) :=
  MkSystem (play month_later archive_all (play (fun _ => Logins.good_env) (beats false) two_nodes)) (repeat (Ret ()) 3).
Lemma after_beats_reachable : sreach exec (fun _ _ _ => True) (any_request false [] [] id) two_nodes after_beats.
Proof.
  apply (play_reach _ month_later archive_all two_nodes _ (repeat (Ret ()) 2)); [constructor; [left; apply nr_archive|constructor]|].
  apply (play_reach _ (fun _ => Logins.good_env) (beats false) two_nodes two_nodes []); [apply beats_requests|constructor].
Qed.
Lemma after_beats_reports : reports 1 (t_rest (db (shared after_beats))) = [4096; 1000].
Proof. by vm_compute. Qed.

Lemma traffic_accounted_witness :
  map tr_cum (samples_of 1 (t_rest (db (shared after_beats)))) = [4096; 5096] /\
  kept_samples 1 (t_rest (db (shared after_beats))) = [] /\
  Sorted Z.le (map tr_cum (samples_of 1 (t_rest (db (shared after_beats))))).
Proof.
  pose proof (traffic_accounted [] [] id _ _ _ 1 after_beats_reachable eq_refl eq_refl) as H.
  rewrite after_beats_reports in H. destruct H as (H1 & H2 & _); [split; [repeat constructor; by intros [=]|done]|].
  split; [exact H1|]. split; [by vm_compute|exact H2].
Defined.

(** On Postgres' pool two heartbeats of one node at the same moment, the last of a process and the
    first of the next, both read the counter before either writes it: the second total is below
    the first. *)
Definition two_beats : system (Resp := Resp) (St := world) :=
  schedule Logins.good_env (concat (replicate 8 [0%nat; 1%nat])) (beats true) two_nodes.
Theorem simultaneous_heartbeats_miscounted :
  sreach exec (fun _ _ _ => True) (any_request true [] [] id) two_nodes two_beats /\
  reports 1 (t_rest (db (shared two_beats))) = [4096; 1000] /\
  map tr_cum (samples_of 1 (t_rest (db (shared two_beats)))) = [4096; 1000] /\
  totals 0 0 [4096; 1000] = [4096; 5096].
Proof. split; [apply schedule_reach, beats_requests|]. by vm_compute. Qed.

(** ** Behaviour worth knowing *)

(** Approving a node that is not pending reports success, with a token that no node has; the
    administrator's endpoint answers with it instead of 404. *)
Theorem approve_not_pending_gives_dead_token :
  let w := two_nodes in
  (run exec (fun _ => Logins.good_env) 0 (apiAdminNodeApprove (Some 1)) w).1 = inr Logins.issued_token /\
  forallb (fun n => negb (has_token Logins.issued_token n)) (nodes_of (db (run exec (fun _ => Logins.good_env) 0 (apiAdminNodeApprove (Some 1)) w).2)) = true.
Proof. by vm_compute. Qed.

(** A node dedicated to a club is in the list that the general manifest is built from. *)
Definition club_only : world :=
  (run exec (fun _ => Logins.good_env) 0 (adminClubsAssignNode (Some 1) (Some 7)) (MkWorld (set_nodes (fun _ => [node_at 1 "t1"])
     (insert_user (bs "ann") (bs "admin") [] no_rows)) (60 * second) [] [] ∅)).2.
Theorem club_node_in_general_manifest :
  exists n, (run exec (fun _ => Logins.good_env) 0 (liveNodes (bs "exit")) club_only).1 = Ok [n] /\ po_club_id (nd_policy n) = Some 7.
Proof. eexists. by vm_compute. Qed.

(** Unsuspending makes an approved node of one that was never approved and has no token. *)
Definition never_approved : node_row :=
  MkNodeRow 1 1 (bs "exit") (bs "192.0.2.1:443") None (bs "pending") None None (fresh_report []) fresh_policy
    (MkHosting [] [] [] [] [] None None [] [] [] []).
Theorem unsuspend_approves_pending :
  nodes_of (db (run exec (fun _ => Logins.good_env) 0 (adminNodeAction (Some 1) (bs "unsuspend"))
    (MkWorld (set_nodes (fun _ => [never_approved]) no_rows) 0 [] [] ∅)).2) = [with_status (bs "approved") never_approved].
Proof. by vm_compute. Qed.
End Nodes.
