(* ===== verification/ArbiterClubs.v ===== *)
(** * snc-arbiter: clubs
    (src/snc-arbiter/db_clubs.go, club_manifest_api.go, admin_clubs.go, my_club.go)

    The clubs, the append-only log of invitations, recommendations, grants and revocations,
    from which membership is computed, and the endpoints: recommending, reading a club's key
    and its encrypted manifest, and the administrators' actions. Each statement is one
    operation ([ArbiterStore]). [countQualifyingRecommenders] asks about each recommender while
    the rows of its first query are open, which takes a second connection; a pool of one (the
    pool of SQLite) never gives it, and what is modelled is a pool that does.

    [nodes_speak_for_themselves] is about the rows of the nodes under everything that runs
    without an administrator's rights, the clubs' endpoints included. *)

From stdpp Require Import base list gmap strings fin_maps sorting.
From Stdlib Require Import ZArith Lia.
From S2P Require Import Prelude GoLib GoFloat GoJson ArbiterSigning ArbiterManifest Effects ArbiterStore ArbiterSessions.
From S2P Require Import ArbiterLogin ArbiterFrame ArbiterNodes ClientKey.

Module Clubs.
Import Store Sessions Frame Nodes.

(** [x, err := p; if err != nil { return err }] *)
Definition try {A B} (p : M (res A)) (f : A -> M (res B)) : M (res B) :=
  p ≫= fun r => match r with Ok a => f a | Err e => Ret (Err e) | Panic => Ret Panic end.
(** The same in a handler, which answers [code]. *)
Definition or_reply {A} (code : Z) (msg : string) (p : M (res A)) (f : A -> M Lists.reply) : M Lists.reply :=
  p ≫= fun r => match r with Ok a => f a | _ => Ret (Lists.HttpError code msg) end.
Declare Scope club_scope.
Notation "'let!' x := p 'in' q" := (try p (fun x => q)) (at level 200, x pattern, right associativity) : club_scope.
Notation "'let!' x := p 'else' c ',' m 'in' q" := (or_reply c m p (fun x => q)) (at level 200, x pattern, right associativity) : club_scope.
#[local] Open Scope club_scope.

(** ** The tables *)

Definition clubs_of (t : tables) : list club_row := r_clubs (t_rest t).
Definition events_of (t : tables) : list event_row := r_events (t_rest t).
Definition set_clubs (f : list club_row -> list club_row) : tables -> tables := set_rest (fun r =>
  MkRest (r_nodes r) (r_next_node r) (r_traffic r) (r_counters r) (r_rotations r) (r_blacklist r) (r_torrents r) (f (r_clubs r)) (r_events r)).
Definition add_event (e : event_row) : tables -> tables := set_rest (fun r =>
  MkRest (r_nodes r) (r_next_node r) (r_traffic r) (r_counters r) (r_rotations r) (r_blacklist r) (r_torrents r) (r_clubs r) (r_events r ++ [e])).
Definition club_by_id (id : Z) (t : tables) : option club_row := List.find (fun c => cl_id c =? id) (clubs_of t).
Definition club_by_slug (slug : gostring) (t : tables) : option club_row := List.find (fun c => bool_decide (cl_slug c = slug)) (clubs_of t).

(** ON CONFLICT(slug) DO NOTHING; ids count up. *)
Definition insert_club (slug name : gostring) (cat elite : Z) (subsumes : option Z) (t : tables) : tables :=
  match club_by_slug slug t with
  | Some _ => t
  | None => set_clubs (fun l => l ++ [MkClubRow (1 + fold_right Z.max 0 (map cl_id l)) slug name cat elite subsumes []]) t
  end.
(** One row, or sql.ErrNoRows. *)
Definition row {A} (q : tables -> option A) : M (res A) :=
  select (A := option A) (fun _ t => q t) ≫= fun r =>
  Ret (match r with Ok (Some a) => Ok a | Ok None => Err "no rows" | Err e => Err e | Panic => Panic end).

Definition cat_club : gostring := bs "cat_club".
Definition elite_cat_club : gostring := bs "elite_cat_club".
Definition seedDefaultClubs : M (res unit) :=
  let! _ := update (insert_club cat_club (bs "Cat Club") 3 2 None) in
  let! catClubID := row (fun t => cl_id <$> club_by_slug cat_club t) in
  update (insert_club elite_cat_club (bs "Elite Cat Club") 0 0 (Some catClubID)).

Definition ClubBySlug (slug : gostring) : M (res club_row) := row (club_by_slug slug).
Definition AllClubs : M (res (list club_row)) := select (fun _ t => clubs_of t).

Definition ClubManifestKey (clubID : Z) : M (res gostring) :=
  let! key := row (fun t => cl_key <$> club_by_id clubID t) in
  if decide (key <> []) then Ret (Ok key)
  else
    let! b := call (RandRead 32) in
    let key := Base64.encode b in
    let! _ := update (set_clubs (map (fun c => if (cl_id c =? clubID) && bool_decide (cl_key c = [])
      then MkClubRow (cl_id c) (cl_slug c) (cl_name c) (cl_cat c) (cl_elite c) (cl_subsumes c) key else c))) in
    row (fun t => cl_key <$> club_by_id clubID t).

(** ** Membership *)

Definition about (club user : Z) (e : event_row) : bool := (ev_club e =? club) && (ev_target e =? user).
Definition decides (club user : Z) (e : event_row) : bool :=
  about club user e && match ev_kind e with EvGranted | EvRevoked => true | _ => false end.
(** The latest grant or revocation of the pair is a grant. *)
Definition member (log : list event_row) (club user : Z) : bool :=
  match last (List.filter (decides club user) log) with
  | Some e => match ev_kind e with EvGranted => true | _ => false end
  | None => false
  end.
Definition IsClubMember (clubID targetUser : Z) : M (res bool) := select (fun _ t => member (events_of t) clubID targetUser).

Fixpoint any_member (clubs : list Z) (user : Z) : M (res bool) :=
  match clubs with
  | [] => Ret (Ok false)
  | id :: clubs => let! ok := IsClubMember id user in if ok : bool then Ret (Ok true) else any_member clubs user
  end.
Definition supersets (clubID : Z) (l : list club_row) : list Z :=
  map cl_id (List.filter (fun c => bool_decide (cl_subsumes c = Some clubID)) l).
Definition HasClubAccess (clubID targetUser : Z) : M (res bool) :=
  let! ok := IsClubMember clubID targetUser in
  if ok : bool then Ret (Ok true)
  else
    let! ids := select (fun o t => supersets clubID (Rand.rand_Shuffle o (clubs_of t))) in
    any_member ids targetUser.

Definition user_exists (t : tables) (id : Z) : bool := owner_exists t id.
Definition positive (n : Z) : option Z := if 0 <? n then Some n else None.
(** The club and the users must exist (foreign keys). *)
Definition insertClubEventWithNumber (clubID targetUser : Z) (kind : event_kind) (actorUser membershipNumber : Z) : M (res unit) :=
  let e := MkEvent clubID targetUser kind (positive actorUser) (positive membershipNumber) in
  stmt (fun _ t =>
    if match club_by_id clubID t with Some _ => true | None => false end && user_exists t targetUser
       && match ev_actor e with Some a => user_exists t a | None => true end
    then (Ok (), add_event e t) else (Err "foreign key", t)).
Definition insertClubEvent (clubID targetUser : Z) (kind : event_kind) (actorUser : Z) : M (res unit) :=
  insertClubEventWithNumber clubID targetUser kind actorUser 0.

Definition numbers (log : list event_row) (p : event_row -> bool) : list Z :=
  omap (fun e => if p e && match ev_kind e with EvGranted => true | _ => false end then ev_number e else None) log.
Definition assignMembershipNumber (clubID targetUser : Z) : M (res Z) :=
  let! existing := select (A := option Z) (fun _ t => head (numbers (events_of t) (about clubID targetUser))) in
  match existing with
  | Some n => Ret (Ok n)
  | None =>
      let! l := select (fun _ t => numbers (events_of t) (fun e => ev_club e =? clubID)) in
      Ret (Ok (match l with [] => 1 | x :: l => fold_left Z.max l x + 1 end))
  end.
Definition GrantClubMembership (clubID targetUser actorUser : Z) : M (res unit) :=
  let! num := assignMembershipNumber clubID targetUser in
  insertClubEventWithNumber clubID targetUser EvGranted actorUser num.
Definition RevokeClubMembership (clubID targetUser actorUser : Z) : M (res unit) := insertClubEvent clubID targetUser EvRevoked actorUser.
Definition InviteToClub (clubID targetUser actorUser : Z) : M (res unit) := insertClubEvent clubID targetUser EvInvite actorUser.

(** ** Recommendations *)

Definition recommenders (log : list event_row) (club user : Z) : list Z :=
  remove_dups (omap (fun e => match ev_kind e with EvRecommendation => if about club user e then ev_actor e else None | _ => None end) log).
Fixpoint count_members (club : Z) (actors : list Z) (n : Z) : M (res Z) :=
  match actors with
  | [] => Ret (Ok n)
  | a :: actors => let! ok := IsClubMember club a in count_members club actors (if ok : bool then n + 1 else n)
  end.
Definition countQualifyingRecommenders (clubID targetUser sourceClubID : Z) : M (res Z) :=
  let! actors := select (fun o t => Rand.rand_Shuffle o (recommenders (events_of t) clubID targetUser)) in
  count_members sourceClubID actors 0.

(** One of the two paths: enough recommenders of the source club. *)
Definition grant_if (threshold clubID targetUser source : Z) (otherwise : M (res unit)) : M (res unit) :=
  if 0 <? threshold then
    let! n := countQualifyingRecommenders clubID targetUser source in
    if threshold <=? n then GrantClubMembership clubID targetUser 0 else otherwise
  else otherwise.
Definition maybeAutoGrant (clubID targetUser : Z) : M (res unit) :=
  let! club := row (club_by_id clubID) in
  if (cl_cat club <=? 0) && (cl_elite club <=? 0) then Ret (Ok ())
  else
    let! already := IsClubMember clubID targetUser in
    if already : bool then Ret (Ok ())
    else
      let! catClub := ClubBySlug cat_club in
      let! eliteClub := ClubBySlug elite_cat_club in
      grant_if (cl_cat club) clubID targetUser (cl_id catClub)
        (grant_if (cl_elite club) clubID targetUser (cl_id eliteClub) (Ret (Ok ()))).
Definition RecommendClubMembership (clubID targetUser recommenderUser : Z) : M (res unit) :=
  let! _ := insertClubEvent clubID targetUser EvRecommendation recommenderUser in
  maybeAutoGrant clubID targetUser.

(** ** The administrators' views *)

Record PendingRecommendationCandidate := MkCandidate { pc_TargetUser : Z; pc_TargetUsername : gostring; pc_CatCount : Z; pc_EliteCount : Z }.
Definition name_le (a b : Z * gostring) : Prop := Strings.le a.2 b.2 = true.
#[export] Instance name_le_dec a b : Decision (name_le a b).
Proof. unfold name_le. apply _. Defined.
Definition users_named (t : tables) (p : Z -> bool) : list (Z * gostring) :=
  merge_sort name_le (map (fun kv => (u_id kv.2, u_username kv.2)) (List.filter (fun kv => p (u_id kv.2)) (map_to_list (t_users t)))).
Fixpoint candidates (clubID cat elite : Z) (l : list (Z * gostring)) : M (res (list PendingRecommendationCandidate)) :=
  match l with
  | [] => Ret (Ok [])
  | (id, name) :: l =>
      let! already := IsClubMember clubID id in
      if already : bool then candidates clubID cat elite l
      else
        let! c := countQualifyingRecommenders clubID id cat in
        let! e := countQualifyingRecommenders clubID id elite in
        let! rest := candidates clubID cat elite l in
        Ret (Ok (MkCandidate id name c e :: rest))
  end.
Definition PendingCandidates (clubID : Z) : M (res (list PendingRecommendationCandidate)) :=
  let! l := select (fun _ t => users_named t (fun id => existsb (fun e =>
    about clubID id e && match ev_kind e with EvRecommendation => true | _ => false end) (events_of t))) in
  let! catClub := ClubBySlug cat_club in
  let! eliteClub := ClubBySlug elite_cat_club in
  candidates clubID (cl_id catClub) (cl_id eliteClub) l.

Definition MembershipNumber (clubID targetUser : Z) : M (res (option Z)) :=
  let! member := IsClubMember clubID targetUser in
  if negb member then Ret (Ok None)
  else let! n := row (fun t => head (numbers (events_of t) (about clubID targetUser))) in Ret (Ok (Some n)).
Definition ClubMembers (clubID : Z) : M (res (list gostring)) :=
  select (fun _ t => map snd (users_named t (member (events_of t) clubID))).
(** The rows of one candidate, with the actor's name. *)
Definition name_of (t : tables) (id : Z) : option gostring := snd <$> head (users_named t (Z.eqb id)).
Definition ClubEventsForTarget (clubID targetUser : Z) : M (res (list (event_row * gostring * gostring))) :=
  select (fun _ t => match name_of t targetUser with
    | Some name => map (fun e => (e, default [] (a ← ev_actor e; name_of t a), name)) (List.filter (about clubID targetUser) (events_of t))
    | None => []
    end).

(** ** Endpoints (club_manifest_api.go, my_club.go)

    Query parameters and bodies arrive decoded; [None] is a body that does not decode. *)

Section endpoints.
Context {FT : Json.FloatText} {U : Unicode} {AE : Aead} {ED : Ed25519} {SK : Signing.SigningKey}.

(** A session's user, or 401. *)
Definition with_session (tok : gostring) (f : gostring -> M Lists.reply) : M Lists.reply :=
  if decide (tok = []) then Ret (Lists.HttpError 401 "X-Session required")
  else
    v ← Validate tok;
    if decide (v_username v = []) then Ret (Lists.HttpError 401 "unauthorized")
    else if v_denied v then Ret (Lists.HttpError 401 "unauthorized")
    else f (v_username v).

Definition apiClubManifest (token slug : gostring) : M Lists.reply :=
  if decide (token = []) then Ret (Lists.HttpError 401 "X-Node-Token required")
  else
    node ← nodeByToken token;
    match node with
    | Ok (Some node) =>
        if negb (bool_decide (nd_type node = bs "exit")) then Ret (Lists.HttpError 401 "unauthorized")
        else
          let! club := ClubBySlug slug else 400, "unknown club" in
          let! nodes := ClubNodes (cl_id club) (bs "control") else 500, "internal error" in
          let! key := ClubManifestKey (cl_id club) else 500, "internal error" in
          match Base64.decode key with
          | None => Ret (Lists.HttpError 500 "internal error")
          | Some keyBytes =>
              let! nonce := call (RandRead 24) else 500, "signing error" in
              ts ← now;
              Ret (Lists.of_signed (Signing.signClubManifest (time_seconds ts) (cl_id club) keyBytes nonce
                     (map (fun n => Lists.entry_of (manifest_node n)) nodes)))
          end
    | _ => Ret (Lists.HttpError 401 "unauthorized")
    end.

Definition apiWhoAmI (tok : gostring) : M Lists.reply :=
  with_session tok (fun username =>
    let! user := findUser username else 500, "internal error" in
    let isAdmin := match user with Some u => bool_decide (Role u = bs "admin") | None => false end in
    Ret (Lists.HttpOK (Json.Marshal (Json.JObj (Json.field "is_admin" (Json.JBool isAdmin))) ++ [10]))).

(** The number of the membership behind an access: the club's own, or of the first club that
    subsumes it. *)
Fixpoint subsuming_number (clubID user : Z) (clubs : list club_row) : M (option (Z * gostring)) :=
  match clubs with
  | [] => Ret None
  | c :: clubs =>
      if negb (bool_decide (cl_subsumes c = Some clubID)) then subsuming_number clubID user clubs
      else
        n ← MembershipNumber (cl_id c) user;
        match n with
        | Ok (Some n) => Ret (Some (n, cl_slug c))
        | _ => subsuming_number clubID user clubs
        end
  end.
(** The keys of a map are encoded in their order. *)
Definition club_key_body (slug key : gostring) (number : option (Z * gostring)) : bytes :=
  Json.Marshal (Json.JObj (Json.field "club" (Json.JStr slug) ++ Json.field "key" (Json.JStr key) ++
    match number with
    | Some (n, club) => Json.field "membership_club" (Json.JStr club) ++ Json.field "membership_number" (Json.enc_int64 n)
    | None => []
    end)) ++ [10].
(** [apiClubKey] once the session's user is known. *)
Definition club_key_for (slug username : gostring) : M Lists.reply :=
  let! club := ClubBySlug slug else 400, "unknown club" in
  let! user := getOrCreateUser username else 500, "internal error" in
  let! ok := HasClubAccess (cl_id club) (ID user) else 500, "internal error" in
  if negb ok then Ret (Lists.HttpError 403 "not a member")
  else
    let! key := ClubManifestKey (cl_id club) else 500, "internal error" in
    let! num := MembershipNumber (cl_id club) (ID user) else 500, "internal error" in
    match num with
    | Some n => Ret (Lists.HttpOK (club_key_body (cl_slug club) key (Some (n, cl_slug club))))
    | None =>
        let! clubs := AllClubs else 500, "internal error" in
        number ← subsuming_number (cl_id club) (ID user) clubs;
        Ret (Lists.HttpOK (club_key_body (cl_slug club) key number))
    end.
Definition apiClubKey (tok slug : gostring) : M Lists.reply := with_session tok (club_key_for slug).

Definition ok_line : Lists.reply := Lists.HttpOK (ok_json ++ [10]).
Definition apiClubRecommend (tok : gostring) (target : option gostring) : M Lists.reply :=
  with_session tok (fun username =>
    match target with
    | None => Ret (Lists.HttpError 400 "bad request")
    | Some target =>
        if decide (target = []) then Ret (Lists.HttpError 400 "target_username required")
        else if Strings.EqualFold target username then Ret (Lists.HttpError 400 "cannot recommend yourself")
        else
          let! recommender := getOrCreateUser username else 500, "internal error" in
          let! catClub := ClubBySlug cat_club else 500, "internal error" in
          let! ok := HasClubAccess (cl_id catClub) (ID recommender) else 500, "internal error" in
          if negb ok then Ret (Lists.HttpError 403 "not a member")
          else
            let! targetUser := findUser target else 500, "internal error" in
            match targetUser with
            | None => Ret (Lists.HttpError 404 "no account with that username")
            | Some targetUser =>
                let! _ := RecommendClubMembership (cl_id catClub) (ID targetUser) (ID recommender) else 500, "internal error" in
                Ret ok_line
            end
    end).

(** The web cabinet: the session is read from the store. *)
Definition webSession (token : gostring) : M (option Session) :=
  if decide (token = []) then Ret None
  else s ← getSession token; Ret (match s with Ok (Some s) => Some s | _ => None end).
Definition userCanRecommend (username : gostring) : M bool :=
  if decide (username = []) then Ret false
  else
    ok ← (let! user := getOrCreateUser username in let! catClub := ClubBySlug cat_club in HasClubAccess (cl_id catClub) (ID user));
    Ret (match ok with Ok ok => ok | _ => false end).
Definition apiMyClubStatus (token : gostring) : M Lists.reply :=
  sess ← webSession token;
  match sess with
  | None => Ret (Lists.HttpError 401 "not logged in")
  | Some sess =>
      can ← userCanRecommend (Username sess);
      Ret (Lists.HttpOK (Json.Marshal (Json.JObj (Json.field "can_recommend" (Json.JBool can))) ++ [10]))
  end.
Definition apiMyClubRecommend (token : gostring) (body : option gostring) : M Lists.reply :=
  sess ← webSession token;
  match sess with
  | None => Ret (Lists.HttpError 401 "not logged in")
  | Some sess =>
      can ← userCanRecommend (Username sess);
      if negb can then Ret (Lists.HttpError 403 "forbidden")
      else match body with
      | None => Ret (Lists.HttpError 400 "invalid request")
      | Some body =>
          let target := Strings.TrimSpace body in
          if decide (target = []) then Ret (Lists.HttpError 400 "Enter the username to recommend")
          else if Strings.EqualFold target (Username sess) then Ret (Lists.HttpError 400 "You can't recommend yourself")
          else
            let! recommender := getOrCreateUser (Username sess) else 500, "Internal error" in
            let! targetUser := findUser target else 500, "Internal error" in
            match targetUser with
            | None => Ret (Lists.HttpError 404 "No account with that username")
            | Some targetUser =>
                let! catClub := ClubBySlug cat_club else 500, "Internal error" in
                let! _ := RecommendClubMembership (cl_id catClub) (ID targetUser) (ID recommender) else 500, "Failed to record recommendation" in
                Ret ok_line
            end
      end
  end.

(** ** Administrators (admin_clubs.go) *)

Inductive club_action := AInvite | AGrant | ARevoke.
Definition run_action (a : club_action) : Z -> Z -> Z -> M (res unit) :=
  match a with AInvite => InviteToClub | AGrant => GrantClubMembership | ARevoke => RevokeClubMembership end.
(** Every outcome but a bad form redirects to the page. *)
Definition adminClubsAction (a : club_action) (clubID : option Z) (target sessionToken camUser : gostring) : M Lists.reply :=
  match clubID with
  | None => Ret (Lists.HttpError 400 "bad club_id")
  | Some clubID =>
      let target := Strings.TrimSpace target in
      if decide (target = []) then Ret (Lists.HttpOK [])
      else
        targetUser ← getOrCreateUser target;
        match targetUser with
        | Ok targetUser =>
            admin ← currentUser sessionToken camUser;
            _ ← run_action a clubID (ID targetUser) (match admin with Some u => ID u | None => 0 end);
            Ret (Lists.HttpOK [])
        | _ => Ret (Lists.HttpOK [])
        end
  end.

Record clubAdminView := MkView { cv_Club : club_row; cv_Members : list (gostring * Z); cv_Candidates : list PendingRecommendationCandidate; cv_Nodes : list node_row }.
Definition rows_or_nil {A} (r : res (list A)) : list A := match r with Ok l => l | _ => [] end.
Fixpoint member_rows (clubID : Z) (names : list gostring) : M (list (gostring * Z)) :=
  match names with
  | [] => Ret []
  | name :: names =>
      num ← (let! user := getOrCreateUser name in MembershipNumber clubID (ID user));
      rows ← member_rows clubID names;
      Ret (match num with Ok (Some n) => (name, n) :: rows | _ => rows end)
  end.
Fixpoint club_views (clubs : list club_row) : M (list clubAdminView) :=
  match clubs with
  | [] => Ret []
  | c :: clubs =>
      names ← ClubMembers (cl_id c);
      rows ← member_rows (cl_id c) (rows_or_nil names);
      cands ← PendingCandidates (cl_id c);
      nodes ← ClubNodesAllStatuses (cl_id c);
      views ← club_views clubs;
      Ret (MkView c rows (rows_or_nil cands) (rows_or_nil nodes) :: views)
  end.
(** The page's data: the clubs, and the nodes of the general pool. *)
Definition adminClubsPage : M (list clubAdminView * list node_row) :=
  clubs ← AllClubs;
  views ← club_views (rows_or_nil clubs);
  nodes ← listAllNodes;
  Ret (views, List.filter (fun n => match po_club_id (nd_policy n) with
    | Some _ => false
    | None => bool_decide (nd_type n = bs "control") || bool_decide (nd_type n = bs "exit")
    end) (rows_or_nil nodes)).
End endpoints.

(** ** Earned memberships

    The clubs as they are seeded; only their keys change. *)
Definition default_clubs : list club_row :=
  [MkClubRow 1 cat_club (bs "Cat Club") 3 2 None []; MkClubRow 2 elite_cat_club (bs "Elite Cat Club") 0 0 (Some 1) []].
Definition no_key (c : club_row) : club_row := MkClubRow (cl_id c) (cl_slug c) (cl_name c) (cl_cat c) (cl_elite c) (cl_subsumes c) [].
Definition configured (t : tables) : Prop := map no_key (clubs_of t) = default_clubs.

(** At some moment of the log. *)
Definition was_member (log : list event_row) (club user : Z) : Prop := exists k, member (take k log) club user = true.
Definition had_access (log : list event_row) (user : Z) : Prop := was_member log 1 user \/ was_member log 2 user.
Definition recommended (log : list event_row) (club user actor : Z) : Prop :=
  exists e, e ∈ log /\ ev_kind e = EvRecommendation /\ ev_club e = club /\ ev_target e = user /\ ev_actor e = Some actor.
(** Three members of the Cat Club, or two of the Elite Cat Club. *)
Definition enough (source : Z) (actors : list Z) : Prop :=
  source = 1 /\ (3 <= length actors)%nat \/ source = 2 /\ (2 <= length actors)%nat.
Definition earned_at (log : list event_row) (club user : Z) : Prop :=
  club = 1 /\ exists source actors, enough source actors /\ NoDup actors /\
    Forall (fun a => recommended log club user a /\ was_member log source a) actors.

Section earned.
(** The clubs and users that administrators were asked to bring together. *)
Context (A : Z -> gostring -> Prop).
Definition admitted (t : tables) (club user : Z) : Prop := exists name u, A club name /\ t_users t !! name = Some u /\ u_id u = user.
Definition event_ok (t : tables) (before : list event_row) (e : event_row) : Prop :=
  match ev_kind e with
  | EvGranted => admitted t (ev_club e) (ev_target e) \/ earned_at before (ev_club e) (ev_target e)
  | EvRecommendation => ev_club e = 1 /\ forall a, ev_actor e = Some a -> had_access before a
  | _ => True
  end.
Definition log_ok (t : tables) : Prop := forall i e, events_of t !! i = Some e -> event_ok t (take i (events_of t)) e.
Definition club_inv (t : tables) : Prop := configured t /\ log_ok t.
(** A key that a club has is the key it keeps. *)
Definition key_of (id : Z) (t : tables) : option gostring := cl_key <$> club_by_id id t.
Definition keys_kept (t t' : tables) : Prop := forall id k, key_of id t = Some k -> k <> [] -> key_of id t' = Some k.
Lemma keys_kept_same t t' : clubs_of t' = clubs_of t -> keys_kept t t'.
Proof. intros E id k Hk _. unfold key_of, club_by_id in *. by rewrite E. Qed.
Record grows (t t' : tables) : Prop := {
  gr_log : events_of t `prefix_of` events_of t'; gr_users : users_kept t t'; gr_keys : keys_kept t t' }.
#[export] Instance grows_refl : Reflexive grows.
Proof. split; [done|done|]. by apply keys_kept_same. Qed.
#[export] Instance grows_trans : Transitive grows.
Proof. intros a b c [? ? K1] [? ? K2]. split; [by etransitivity|by etransitivity|]. intros id k Hk Hn. by apply K2, Hn; apply K1. Qed.

Lemma was_member_mono log log' c u : log `prefix_of` log' -> was_member log c u -> was_member log' c u.
Proof.
  intros [l ->] [k Hk]. exists (min k (length log)). rewrite take_app_le by lia. rewrite <- take_take, (take_ge log) by lia. done.
Qed.
Lemma recommended_mono log log' c u a : log `prefix_of` log' -> recommended log c u a -> recommended log' c u a.
Proof. intros [l ->] (e & He & H). exists e. split; [set_solver|done]. Qed.
Lemma earned_mono log log' c u : log `prefix_of` log' -> earned_at log c u -> earned_at log' c u.
Proof.
  intros Hl (Ec & src & acts & He & Hn & Hf). split; [done|]. exists src, acts. split; [done|]. split; [done|].
  eapply Forall_impl; [exact Hf|]. intros a [H1 H2]. eauto using recommended_mono, was_member_mono.
Qed.
Lemma had_access_mono log log' u : log `prefix_of` log' -> had_access log u -> had_access log' u.
Proof. intros Hl [H|H]; [left|right]; eauto using was_member_mono. Qed.
Lemma admitted_mono t t' c u : users_kept t t' -> admitted t c u -> admitted t' c u.
Proof. intros Hu (n & r & Hn & Hr & E). destruct (Hu _ _ Hr) as (r' & ? & ?). exists n, r'. split; [done|]. split; [done|congruence]. Qed.
Lemma event_ok_mono t t' before before' e : users_kept t t' -> before `prefix_of` before' -> event_ok t before e -> event_ok t' before' e.
Proof.
  intros Hu Hb. unfold event_ok. destruct (ev_kind e); try done.
  - intros [H1 H2]. eauto using had_access_mono.
  - intros [H|H]; eauto using admitted_mono, earned_mono.
Qed.

Lemma configured_slug t slug c : configured t -> club_by_slug slug t = Some c -> no_key c ∈ default_clubs /\ cl_slug c = slug.
Proof.
  intros Hc [Hi Hs]%List.find_some. apply bool_decide_eq_true in Hs. split; [|done]. rewrite <- Hc.
  apply list_elem_of_fmap. exists c. split; [done|]. by apply list_elem_of_In.
Qed.
Lemma configured_id t id c : configured t -> club_by_id id t = Some c -> no_key c ∈ default_clubs /\ cl_id c = id.
Proof.
  intros Hc [Hi Hs]%List.find_some. apply Z.eqb_eq in Hs. split; [|done]. rewrite <- Hc.
  apply list_elem_of_fmap. exists c. split; [done|]. by apply list_elem_of_In.
Qed.

(** A statement that adds no event. *)
Definition quiet (t t' : tables) : Prop := club_inv t -> club_inv t' /\ grows t t'.
Lemma quiet_same t t' : (configured t -> configured t') -> events_of t' = events_of t -> users_kept t t' -> keys_kept t t' -> quiet t t'.
Proof.
  intros Hc He Hu Hk [H1 H2]. split; [split; [auto|]|split; [by rewrite He|done|done]].
  intros i e. rewrite He. intros Hi. by eapply event_ok_mono; [exact Hu| |by apply H2].
Qed.
Lemma quiet_frame t t' : t_rest t' = t_rest t -> users_kept t t' -> quiet t t'.
Proof. intros E Hu. apply quiet_same; unfold configured, clubs_of, events_of; rewrite ?E; try done. apply keys_kept_same. unfold clubs_of. by rewrite E. Qed.

(** A statement that adds one. *)
Lemma add_event_ok t e : club_inv t -> event_ok t (events_of t) e -> club_inv (add_event e t) /\ grows t (add_event e t).
Proof.
  intros [H1 H2] He. assert (events_of (add_event e t) = events_of t ++ [e]) as El by done. split; [split; [done|]|].
  - intros i x. rewrite El. intros [Hi|[Hl Hi]]%lookup_app_Some.
    + rewrite take_app_le by (apply lookup_lt_Some in Hi; lia). eapply event_ok_mono; [|reflexivity|by apply H2]. by apply users_kept_same.
    + apply list_lookup_singleton_Some in Hi as [Hi <-]. replace i with (length (events_of t)) by lia.
      rewrite take_app_length. eapply event_ok_mono; [|reflexivity|exact He]. by apply users_kept_same.
  - split; [by eexists|by apply users_kept_same|by apply keys_kept_same].
Qed.

(** ** The operations under interference *)
Context (E : Env -> Op -> world -> Prop).
Abbreviation sp := (spec E club_inv grows).
(** What holds of a success. *)
Definition if_ok {B} (Q : B -> world -> Prop) (r : res B) (w : world) : Prop := forall b, r = Ok b -> Q b w.

Lemma sp_try {B C} (p : M (res B)) (f : B -> M (res C)) w P Q :
  sp p w (if_ok P) -> (forall b w', grows (db w) (db w') -> club_inv (db w') -> P b w' -> sp (f b) w' (if_ok Q)) -> sp (try p f) w (if_ok Q).
Proof.
  intros Hp Hf. eapply (spec_bind E club_inv grows); [exact Hp|]. intros [b|e|] w' Hg Hi HP; [|by apply (spec_ret E club_inv grows); [done|]..].
  by apply Hf; [| |apply HP].
Qed.
Lemma sp_or_reply {B} code msg (p : M (res B)) f w P :
  sp p w (if_ok P) -> (forall b w', grows (db w) (db w') -> club_inv (db w') -> P b w' -> sp (f b) w' (fun _ _ => True)) ->
  sp (or_reply code msg p f) w (fun _ _ => True).
Proof.
  intros Hp Hf. eapply (spec_bind E club_inv grows); [exact Hp|]. intros [b|e|] w' Hg Hi HP; [|by apply (spec_ret E club_inv grows); [done|]..].
  by apply Hf; [| |apply HP].
Qed.
Lemma sp_ok {B} (b : B) w (Q : B -> world -> Prop) : club_inv (db w) -> Q b w -> sp (Ret (Ok b)) w (if_ok Q).
Proof. intros Hi HQ. apply (spec_ret E club_inv grows); [done|]. by intros ? [= <-]. Qed.
Lemma sp_quiet {B} (p : M B) w : club_inv (db w) -> within quiet p -> sp p w (fun _ _ => True).
Proof. intros. by apply (spec_within E club_inv grows). Qed.

Lemma sp_row {B} (q : tables -> option B) w : sp (row q) w (if_ok (fun b w' => q (db w') = Some b)).
Proof.
  eapply (spec_bind E club_inv grows); [apply (spec_select E club_inv grows)|]. intros [[b|]|e|] w' _ Hi H; (apply (spec_ret E club_inv grows); [done|]); try done.
  intros ? [= <-]. by destruct (H _ eq_refl) as (o & <-).
Qed.
Lemma sp_slug slug w : sp (ClubBySlug slug) w (if_ok (fun c _ => no_key c ∈ default_clubs /\ cl_slug c = slug)).
Proof.
  eapply (spec_mono E club_inv grows); [apply sp_row|]. intros r w' _ [Hc _] H c ->. by eapply configured_slug, H.
Qed.
Lemma sp_member c u w : sp (IsClubMember c u) w (if_ok (fun b w' => b = true -> was_member (events_of (db w')) c u)).
Proof.
  eapply (spec_mono E club_inv grows); [apply (spec_select E club_inv grows)|]. intros r w' _ _ H b -> ->. destruct (H _ eq_refl) as (o & Hm).
  exists (length (events_of (db w'))). by rewrite take_ge.
Qed.

Lemma sp_any_member l u w : club_inv (db w) -> sp (any_member l u) w (if_ok (fun b w' => b = true -> exists c, c ∈ l /\ was_member (events_of (db w')) c u)).
Proof.
  revert w. induction l as [|c l IH]; intros w Hi; [by apply sp_ok|]. cbn [any_member].
  eapply sp_try; [apply sp_member|]. intros [] w' Hg Hi' H.
  - apply sp_ok; [done|]. intros _. exists c. split; [set_solver|auto].
  - eapply (spec_mono E club_inv grows); [by apply IH|]. intros r w2 _ _ H2 b -> ->. destruct (H2 _ eq_refl eq_refl) as (c' & ? & ?). exists c'. split; [set_solver|done].
Qed.

(** Access to the Cat Club is membership in it or in the club that subsumes it. *)
Lemma sp_access u w : sp (HasClubAccess 1 u) w (if_ok (fun b w' => b = true -> had_access (events_of (db w')) u)).
Proof.
  eapply sp_try; [apply sp_member|]. intros [] w1 _ Hi1 H1; [apply sp_ok; [done|]; intros _; left; auto|].
  apply (sp_try _ _ w1 (fun ids _ => Forall (eq 2) ids)).
  - eapply (spec_mono E club_inv grows); [apply (spec_select E club_inv grows)|]. intros r w2 _ [Hc _] H ids ->. destruct (H _ eq_refl) as (o & ->).
    apply Forall_forall. unfold supersets. intros x (c & -> & Hin)%list_elem_of_fmap. apply list_elem_of_In, List.filter_In in Hin as [Hin Hs].
    apply bool_decide_eq_true in Hs. apply list_elem_of_In in Hin. rewrite (Rand.shuffle_perm o) in Hin.
    assert (no_key c ∈ default_clubs) as Hd by (rewrite <- Hc; apply list_elem_of_fmap; eauto).
    apply elem_of_cons in Hd as [[=]|[[=]|[]%elem_of_nil]%elem_of_cons]; congruence.
  - intros ids w2 _ Hi2 Hids. eapply (spec_mono E club_inv grows); [by apply sp_any_member|]. intros r w3 _ _ H b -> Hb.
    destruct (H _ eq_refl Hb) as (c & Hc & Hm). rewrite Forall_forall in Hids. rewrite <- (Hids _ Hc) in Hm. by right.
Qed.

(** The count stands for that many members among the actors. *)
Lemma sp_count c acts n w : club_inv (db w) -> NoDup acts ->
  sp (count_members c acts n) w (if_ok (fun m w' => exists ms, m = n + lenZ ms /\ NoDup ms /\ ms ⊆ acts /\
    Forall (was_member (events_of (db w')) c) ms)).
Proof.
  revert n w. induction acts as [|a acts IH]; intros n w Hi Hn.
  { apply sp_ok; [done|]. exists []. split; [cbn; lia|]. split; [constructor|]. split; [done|constructor]. }
  apply NoDup_cons in Hn as [Ha Hn]. cbn [count_members]. eapply sp_try; [apply sp_member|]. intros b w1 _ Hi1 Hb.
  eapply (spec_mono E club_inv grows); [by apply IH|]. intros r w2 Hg _ H m ->.
  destruct (H _ eq_refl) as (ms & -> & Hms & Hsub & Hf). destruct b.
  - exists (a :: ms). split; [cbn [length]; lia|]. split; [constructor; [set_solver|done]|]. split; [set_solver|].
    constructor; [|done]. eapply was_member_mono; [apply (gr_log _ _ Hg)|auto].
  - exists ms. split; [done|]. split; [done|]. split; [set_solver|done].
Qed.

Lemma recommenders_spec log c u a : a ∈ recommenders log c u -> recommended log c u a.
Proof.
  unfold recommenders. rewrite elem_of_remove_dups, list_elem_of_omap. intros (e & He & Ha).
  destruct (ev_kind e) eqn:Ek; try done. destruct (about c u e) eqn:Eb; [|done].
  apply andb_true_iff in Eb as [?%Z.eqb_eq ?%Z.eqb_eq]. by exists e.
Qed.

Lemma sp_qualifying c u src w :
  sp (countQualifyingRecommenders c u src) w (if_ok (fun n w' => exists ms, n = lenZ ms /\ NoDup ms /\
    Forall (fun a => recommended (events_of (db w')) c u a /\ was_member (events_of (db w')) src a) ms)).
Proof.
  apply (sp_try _ _ w (fun l w' => NoDup l /\ Forall (recommended (events_of (db w')) c u) l)).
  - eapply (spec_mono E club_inv grows); [apply (spec_select E club_inv grows)|]. intros r w' _ _ H l ->.
    destruct (H _ eq_refl) as (o & ->). rewrite !Rand.shuffle_perm. split; [apply NoDup_remove_dups|].
    apply Forall_forall. intros a. apply recommenders_spec.
  - intros l w1 _ Hi1 [Hn Hr]. eapply (spec_mono E club_inv grows); [by apply sp_count|].
    intros r w2 Hg _ H n ->. destruct (H _ eq_refl) as (ms & -> & Hms & Hsub & Hf). exists ms. split; [lia|]. split; [done|].
    apply Forall_forall. intros a Ha. rewrite Forall_forall in Hf, Hr. split; [|auto].
    eapply recommended_mono; [apply (gr_log _ _ Hg)|]. apply Hr. by apply Hsub.
Qed.

Lemma sp_insert c u k a n w :
  (forall t, grows (db w) t -> club_inv t -> event_ok t (events_of t) (MkEvent c u k (positive a) (positive n))) ->
  sp (insertClubEventWithNumber c u k a n) w (if_ok (fun _ _ => True)).
Proof.
  intros H. apply (spec_stmt E club_inv grows); [|done]. intros t o Hg Hi. cbn -[add_event]. case_match; cbn -[add_event]; [|done].
  destruct (add_event_ok t _ Hi (H t Hg Hi)). done.
Qed.

Lemma quiet_select {B} (q : (nat -> nat) -> tables -> B) : within quiet (select q).
Proof. apply within_select, quiet_frame. Qed.
Lemma quiet_row {B} (q : tables -> option B) : within quiet (row q).
Proof. apply within_bind; [apply quiet_select|done]. Qed.
Lemma quiet_try {B C} (p : M (res B)) (f : B -> M (res C)) : within quiet p -> (forall b, within quiet (f b)) -> within quiet (try p f).
Proof. intros. apply within_bind; [done|]. intros []; by auto. Qed.
Lemma quiet_or_reply {B} code msg (p : M (res B)) f : within quiet p -> (forall b, within quiet (f b)) -> within quiet (or_reply code msg p f).
Proof. intros. apply within_bind; [done|]. intros []; by auto. Qed.

(** A grant is kept when what justifies it has happened. *)
Lemma sp_grant c u a w : club_inv (db w) ->
  (admitted (db w) c u \/ earned_at (events_of (db w)) c u) -> sp (GrantClubMembership c u a) w (if_ok (fun _ _ => True)).
Proof.
  intros Hi H. apply (sp_try _ _ w (fun _ _ => True)).
  - eapply (spec_mono E club_inv grows); [apply sp_quiet; [done|]|by intros; intros ? ?].
    apply quiet_try; [apply quiet_select|]. intros []; [done|]. apply quiet_try; [apply quiet_select|done].
  - intros n w1 Hg1 _ _. apply sp_insert. intros t Hg2 _. unfold event_ok. cbn.
    destruct (transitivity Hg1 Hg2) as [Hl Hu _]. destruct H; eauto using admitted_mono, earned_mono.
Qed.

Lemma sp_grant_if th c u src otherwise w : club_inv (db w) -> c = 1 -> (src = 1 /\ th = 3 \/ src = 2 /\ th = 2) ->
  (forall w', grows (db w) (db w') -> club_inv (db w') -> sp otherwise w' (if_ok (fun _ _ => True))) ->
  sp (grant_if th c u src otherwise) w (if_ok (fun _ _ => True)).
Proof.
  intros Hi -> Hsrc Ho. unfold grant_if. case_match; [|by apply Ho].
  eapply sp_try; [apply sp_qualifying|]. intros n w1 Hg1 Hi1 (ms & -> & Hn & Hf).
  destruct (Z.leb_spec th (lenZ ms)) as [Hle|]; [|by apply Ho]. apply sp_grant; [done|]. right. split; [done|].
  exists src, ms. split; [|done]. unfold enough. destruct Hsrc as [[-> ->]|[-> ->]]; [left|right]; (split; [done|]); lia.
Qed.

Lemma sp_autogrant u w : sp (maybeAutoGrant 1 u) w (if_ok (fun _ _ => True)).
Proof.
  eapply sp_try; [apply sp_row|]. intros club w1 _ Hi1 Hclub. destruct (configured_id _ _ _ (proj1 Hi1) Hclub) as [Hin Hid].
  assert (cl_cat club = 3 /\ cl_elite club = 2) as [-> ->].
  { apply elem_of_cons in Hin as [[=]|[[=]|[]%elem_of_nil]%elem_of_cons]; [done|congruence]. }
  cbn [Z.leb andb]. eapply sp_try; [apply sp_member|]. intros [] w2 _ Hi2 _; [by apply sp_ok|].
  assert (forall slug c, no_key c ∈ default_clubs /\ cl_slug c = slug -> slug = cat_club /\ cl_id c = 1 \/ slug = elite_cat_club /\ cl_id c = 2) as Hids.
  { intros slug c [Hc <-]. apply elem_of_cons in Hc as [[=]|[[=]|[]%elem_of_nil]%elem_of_cons]; [by left|by right]. }
  eapply sp_try; [apply sp_slug|]. intros cat w3 _ Hi3 [[_ Hc]|[[=] _]]%Hids.
  eapply sp_try; [apply sp_slug|]. intros elite w4 _ Hi4 [[[=] _]|[_ He]]%Hids. rewrite Hc, He.
  apply sp_grant_if; [done..|by left|]. intros w5 _ Hi5. apply sp_grant_if; [done..|by right|]. intros w6 _ Hi6. by apply sp_ok.
Qed.

Lemma sp_recommend u a w : had_access (events_of (db w)) a -> sp (RecommendClubMembership 1 u a) w (if_ok (fun _ _ => True)).
Proof.
  intros Ha. eapply sp_try; [|intros; apply sp_autogrant]. apply sp_insert. intros t Hg _. split; [done|]. cbn. unfold positive.
  intros x Hx. case_match; [|done]. injection Hx as <-. eapply had_access_mono; [apply (gr_log _ _ Hg)|done].
Qed.

(** ** Users *)

Definition named (n : gostring) (id : Z) (t : tables) : Prop := exists u, t_users t !! n = Some u /\ u_id u = id.
Lemma named_mono n id t t' : users_kept t t' -> named n id t -> named n id t'.
Proof. intros H (u & Hu & <-). destruct (H _ _ Hu) as (u' & ? & ?). by exists u'. Qed.
Lemma sp_findUser n w : sp (findUser n) w (if_ok (fun o w' => forall x, o = Some x -> named n (ID x) (db w'))).
Proof.
  eapply (spec_mono E club_inv grows); [apply (spec_select E club_inv grows)|]. intros r w' _ _ H o -> x ->.
  destruct (H _ eq_refl) as (_ & Hx). symmetry in Hx. apply fmap_Some in Hx as (u & Hu & ->). by exists u.
Qed.
Lemma quiet_user n : within quiet (getOrCreateUser n).
Proof. apply within_getOrCreateUser, quiet_frame. Qed.

(** The user that is found or created is on record. *)
Lemma sp_user n w : club_inv (db w) -> sp (getOrCreateUser n) w (if_ok (fun x w' => named n (ID x) (db w'))).
Proof.
  intros Hi0. eapply (spec_bind E club_inv grows); [apply sp_findUser|]. intros [[u|]|e|] w1 _ Hi1 H1; [| |by apply (spec_ret E club_inv grows)..].
  - specialize (H1 _ eq_refl _ eq_refl). case_decide; [|by apply sp_ok].
    eapply (spec_bind E club_inv grows); [apply sp_quiet; [done|]; unfold genClientID; within_steps|].
    intros [cid|e|] w2 Hg2 Hi2 _; [|apply sp_ok; [done|]; by eapply named_mono, H1; apply (gr_users _ _ Hg2)..].
    eapply (spec_bind E club_inv grows); [apply sp_quiet; [done|]; apply within_client_id, quiet_frame|].
    intros _ w3 Hg3 Hi3 _. apply sp_ok; [done|]. cbn. eapply named_mono, H1. etransitivity; [apply (gr_users _ _ Hg2)|apply (gr_users _ _ Hg3)].
  - eapply (spec_bind E club_inv grows); [apply sp_quiet; [done|]; apply quiet_select|]. intros cnt w2 _ Hi2 _.
    eapply (spec_bind E club_inv grows); [apply sp_quiet; [done|]; unfold genClientID; within_steps|].
    intros [cid|e|] w3 _ Hi3 _; [|by apply (spec_ret E club_inv grows)..].
    eapply (spec_bind E club_inv grows).
    { apply sp_quiet; [done|]. apply within_update. intros t. apply quiet_frame; [unfold insert_user; by case_match|apply users_kept_insert]. }
    intros [b|e|] w4 _ Hi4 _; [|by apply (spec_ret E club_inv grows)..].
    eapply (spec_bind E club_inv grows); [apply sp_findUser|]. intros [[u|]|e|] w5 _ Hi5 H5; (apply (spec_ret E club_inv grows); [done|]); try done.
    intros x [= <-]. by apply (H5 _ eq_refl).
Qed.

(** ** The endpoints *)

Section endpoint_specs.
Context {FT : Json.FloatText} {U : Unicode} {AE : Aead} {BL : Blake2b} {ED : Ed25519} {SK : Signing.SigningKey} {AC : ArbiterCodec}.
Abbreviation done_ok := (fun _ _ => True).

Lemma sp_with_session tok f w : club_inv (db w) ->
  (forall n w', club_inv (db w') -> sp (f n) w' done_ok) -> sp (with_session tok f) w done_ok.
Proof.
  intros Hi Hf. unfold with_session. case_decide; [by apply (spec_ret E club_inv grows)|].
  eapply (spec_bind E club_inv grows); [apply sp_quiet; [done|]; apply within_Validate, quiet_frame|].
  intros v w1 _ Hi1 _. repeat case_match; try by apply (spec_ret E club_inv grows). by apply Hf.
Qed.

Lemma cat_id c : no_key c ∈ default_clubs /\ cl_slug c = cat_club -> cl_id c = 1.
Proof. intros [Hc Hs]. apply elem_of_cons in Hc as [[=]|[[= _ He]|[]%elem_of_nil]%elem_of_cons]; [done|]. rewrite Hs in He. discriminate He. Qed.

Lemma sp_apiClubRecommend tok target w : club_inv (db w) -> sp (apiClubRecommend tok target) w done_ok.
Proof.
  intros Hi. apply sp_with_session; [done|]. intros n w1 Hi1. destruct target as [target|]; [|by apply (spec_ret E club_inv grows)].
  repeat case_match; try by apply (spec_ret E club_inv grows).
  eapply sp_or_reply; [by apply sp_user|]. intros rec w2 _ Hi2 _. eapply sp_or_reply; [apply sp_slug|]. intros cat w3 _ Hi3 Hc.
  rewrite (cat_id _ Hc). eapply sp_or_reply; [apply sp_access|]. intros [] w4 _ Hi4 Ha; [|by apply (spec_ret E club_inv grows)].
  cbn [negb]. eapply sp_or_reply; [apply sp_findUser|]. intros [u|] w5 Hg5 Hi5 _; [|by apply (spec_ret E club_inv grows)].
  eapply sp_or_reply; [apply sp_recommend|intros; by apply (spec_ret E club_inv grows)].
  eapply had_access_mono; [apply (gr_log _ _ Hg5)|auto].
Qed.

Lemma sp_canRecommend n w : club_inv (db w) ->
  sp (userCanRecommend n) w (fun b w' => b = true -> exists id, named n id (db w') /\ had_access (events_of (db w')) id).
Proof.
  intros Hi. unfold userCanRecommend. case_decide; [by apply (spec_ret E club_inv grows)|].
  apply (spec_bind E club_inv grows _ _ w (if_ok (fun b w' => b = true -> exists id, named n id (db w') /\ had_access (events_of (db w')) id))).
  - eapply sp_try; [by apply sp_user|]. intros u w1 _ Hi1 Hn. eapply sp_try; [apply sp_slug|]. intros cat w2 Hg2 Hi2 Hc.
    rewrite (cat_id _ Hc). eapply (spec_mono E club_inv grows); [apply sp_access|]. intros r w3 Hg3 _ Hacc b -> Hb.
    exists (ID u). split; [|by apply (Hacc _ eq_refl)]. eapply named_mono, Hn. etransitivity; [apply (gr_users _ _ Hg2)|apply (gr_users _ _ Hg3)].
  - intros [b|e|] w1 _ Hi1 Hb; (apply (spec_ret E club_inv grows); [done|]); [|done..]. by apply Hb.
Qed.

Lemma quiet_webSession tok : within quiet (webSession tok).
Proof. unfold webSession, getSession. within_steps. apply quiet_select. Qed.

Lemma sp_apiMyClubRecommend tok body w : club_inv (db w) -> sp (apiMyClubRecommend tok body) w done_ok.
Proof.
  intros Hi. eapply (spec_bind E club_inv grows); [apply sp_quiet; [done|]; apply quiet_webSession|].
  intros [s0|] w1 _ Hi1 _; [|by apply (spec_ret E club_inv grows)].
  eapply (spec_bind E club_inv grows); [by apply sp_canRecommend|]. intros [] w2 _ Hi2 Ha; [|by apply (spec_ret E club_inv grows)].
  destruct (Ha eq_refl) as (id & (u0 & Hu0 & Eid) & Hacc).
  cbn [negb]. repeat case_match; try by apply (spec_ret E club_inv grows).
  eapply sp_or_reply; [by apply sp_user|]. intros rec w3 Hg3 Hi3 (u3 & Hu3 & E3).
  eapply sp_or_reply; [apply sp_findUser|]. intros [u|] w4 Hg4 Hi4 _; [|by apply (spec_ret E club_inv grows)].
  eapply sp_or_reply; [apply sp_slug|]. intros cat w5 Hg5 Hi5 Hc. rewrite (cat_id _ Hc).
  eapply sp_or_reply; [apply sp_recommend|intros; by apply (spec_ret E club_inv grows)].
  destruct (gr_users _ _ Hg3 _ _ Hu0) as (u4 & Hu4 & E4). assert (ID rec = id) as -> by congruence.
  eapply had_access_mono, Hacc. etransitivity; [apply (gr_log _ _ Hg3)|]. etransitivity; [apply (gr_log _ _ Hg4)|apply (gr_log _ _ Hg5)].
Qed.

Lemma quiet_currentUser s c : within quiet (currentUser s c).
Proof. unfold currentUser, getSession. within_steps; apply quiet_select || apply quiet_user. Qed.

Lemma sp_adminClubsAction a c target s cam w : club_inv (db w) ->
  (a = AGrant -> forall club, c = Some club -> A club (Strings.TrimSpace target)) -> sp (adminClubsAction a c target s cam) w done_ok.
Proof.
  intros Hi HA. destruct c as [c|]; [|by apply (spec_ret E club_inv grows)]. unfold adminClubsAction.
  case_decide; [by apply (spec_ret E club_inv grows)|]. eapply (spec_bind E club_inv grows); [by apply sp_user|].
  intros [u|e|] w1 _ Hi1 Hu; [|by apply (spec_ret E club_inv grows)..]. destruct (Hu _ eq_refl) as (r & Hr & Er).
  eapply (spec_bind E club_inv grows); [apply sp_quiet; [done|]; apply quiet_currentUser|]. intros adm w2 Hg2 Hi2 _.
  eapply (spec_bind E club_inv grows); [|intros; by apply (spec_ret E club_inv grows)].
  destruct a; [by apply sp_insert| |by apply sp_insert]. apply sp_grant; [done|]. left.
  eapply admitted_mono; [apply (gr_users _ _ Hg2)|]. exists (Strings.TrimSpace target), r. by auto.
Qed.

(** *** Requests that add no event *)

#[local] Hint Resolve quiet_select quiet_user quiet_row within_now : within.
Lemma quiet_query p sort : within quiet (query_nodes p sort).
Proof. apply quiet_select. Qed.
Lemma quiet_Validate tok : within quiet (Validate tok).
Proof. apply within_Validate, quiet_frame. Qed.
#[local] Hint Resolve quiet_query quiet_Validate quiet_webSession : within.

Lemma configured_set_key f t : (forall c, no_key (f c) = no_key c) -> configured t -> configured (set_clubs (map f) t).
Proof. unfold configured, clubs_of. cbn. intros Hf Hc. rewrite <- Hc, map_map. by apply map_ext. Qed.
(** Filling in a key where there is none. *)
Definition fill_key (id : Z) (key : gostring) (c : club_row) : club_row :=
  if (cl_id c =? id) && bool_decide (cl_key c = [])
  then MkClubRow (cl_id c) (cl_slug c) (cl_name c) (cl_cat c) (cl_elite c) (cl_subsumes c) key else c.
Lemma club_by_id_fill id id' key t :
  club_by_id id' (set_clubs (map (fill_key id key)) t) = fill_key id key <$> club_by_id id' t.
Proof.
  unfold club_by_id, clubs_of. cbn. induction (r_clubs (t_rest t)) as [|c l IH]; [done|]. cbn.
  assert (cl_id (fill_key id key c) = cl_id c) as -> by (unfold fill_key; by case_match). by case_match.
Qed.
Lemma keys_kept_fill id key t : keys_kept t (set_clubs (map (fill_key id key)) t).
Proof.
  intros id' k. unfold key_of. rewrite club_by_id_fill. destruct (club_by_id id' t) as [c|]; [|done]. cbn. intros [= <-] Hn.
  f_equal. unfold fill_key. case_match eqn:Ec; [|done]. apply andb_true_iff in Ec as [_ Ec%bool_decide_eq_true]. done.
Qed.
Lemma quiet_key id : within quiet (ClubManifestKey id).
Proof.
  unfold ClubManifestKey, try. within_steps. apply within_update. intros t. apply quiet_same; [|done|by apply users_kept_same|apply keys_kept_fill].
  apply configured_set_key. intros c. by case_match.
Qed.
Lemma quiet_MembershipNumber c u : within quiet (MembershipNumber c u).
Proof. unfold MembershipNumber, IsClubMember, try. within_steps. Qed.
Lemma quiet_HasClubAccess c u : within quiet (HasClubAccess c u).
Proof.
  unfold HasClubAccess, IsClubMember, try. within_steps.
  match goal with l : list Z |- _ => induction l as [|id l IH] end; [done|]. cbn [any_member]. unfold IsClubMember, try. within_steps.
Qed.
Lemma quiet_slug slug : within quiet (ClubBySlug slug).
Proof. apply quiet_row. Qed.
#[local] Hint Resolve quiet_key quiet_MembershipNumber quiet_HasClubAccess quiet_slug : within.

Lemma quiet_subsuming id u l : within quiet (subsuming_number id u l).
Proof. induction l as [|c l IH]; [done|]. cbn [subsuming_number]. within_steps. Qed.
#[local] Hint Resolve quiet_subsuming : within.
Lemma quiet_apiClubKey tok slug : within quiet (apiClubKey tok slug).
Proof. unfold apiClubKey, club_key_for, with_session, or_reply, AllClubs. within_steps. Qed.
Lemma quiet_apiClubManifest tok slug : within quiet (apiClubManifest tok slug).
Proof. unfold apiClubManifest, or_reply, nodeByToken, ClubNodes. within_steps. Qed.
Lemma quiet_apiWhoAmI tok : within quiet (apiWhoAmI tok).
Proof. unfold apiWhoAmI, with_session, or_reply, findUser. within_steps. Qed.
Lemma quiet_apiMyClubStatus tok : within quiet (apiMyClubStatus tok).
Proof. unfold apiMyClubStatus, userCanRecommend, try. within_steps. Qed.
Lemma quiet_count c u src : within quiet (countQualifyingRecommenders c u src).
Proof.
  unfold countQualifyingRecommenders, try. within_steps. generalize 0. match goal with l : list Z |- _ => induction l as [|x l IH] end; [done|].
  intros n. cbn [count_members]. unfold IsClubMember, try. within_steps.
Qed.
#[local] Hint Resolve quiet_count : within.
Lemma quiet_adminClubsPage : within quiet adminClubsPage.
Proof.
  assert (forall id names, within quiet (member_rows id names)) as Hm.
  { intros id names. induction names; [done|]. cbn [member_rows]. unfold try. within_steps. }
  assert (forall id, within quiet (PendingCandidates id)) as Hp.
  { intros id. unfold PendingCandidates, try. within_steps.
    match goal with l : list (Z * gostring) |- _ => induction l as [|[u n] l IH] end; [done|].
    cbn [candidates]. unfold IsClubMember, try. within_steps. }
  assert (forall l, within quiet (club_views l)) as Hv.
  { intros l. induction l; [done|]. cbn [club_views]. unfold ClubMembers, ClubNodesAllStatuses. within_steps. }
  unfold adminClubsPage, AllClubs, listAllNodes. within_steps.
Qed.
(** At a restart the clubs are there already. *)
Lemma quiet_seed : within quiet seedDefaultClubs.
Proof.
  assert (forall slug name a b s t, slug ∈ [cat_club; elite_cat_club] -> quiet t (insert_club slug name a b s t)) as Hins.
  { intros slug name a b s0 t Hs Hi. enough (insert_club slug name a b s0 t = t) as -> by by split.
    unfold insert_club. destruct (club_by_slug slug t) as [|] eqn:Ef; [done|exfalso].
    assert (exists c, c ∈ clubs_of t /\ cl_slug c = slug) as (c & Hc & Es).
    { assert (exists d, d ∈ map no_key (clubs_of t) /\ cl_slug d = slug) as (d & (c & -> & Hc)%list_elem_of_fmap & Es); [|by exists c].
      destruct Hi as [-> _]. apply elem_of_cons in Hs as [->|Hs%list_elem_of_singleton]; [|subst slug].
      - exists (MkClubRow 1 cat_club (bs "Cat Club") 3 2 None []). split; [apply list_elem_of_here|done].
      - exists (MkClubRow 2 elite_cat_club (bs "Elite Cat Club") 0 0 (Some 1) []). split; [apply list_elem_of_further, list_elem_of_here|done]. }
    pose proof (List.find_none _ _ Ef c (proj1 (list_elem_of_In _ _) Hc)) as Hn. by apply bool_decide_eq_false in Hn. }
  unfold seedDefaultClubs, try. within_steps; apply within_update; intros t; apply Hins; set_solver.
Qed.

(** *** Who gets a club's key *)

Definition access (log : list event_row) (club user : Z) : Prop :=
  member log club user = true \/ exists c, c ∈ default_clubs /\ cl_subsumes c = Some club /\ member log (cl_id c) user = true.
Definition reply_ok (Q : bytes -> world -> Prop) (r : Lists.reply) (w : world) : Prop := forall body, r = Lists.HttpOK body -> Q body w.
Lemma sp_reply {B} code msg (p : M (res B)) f w P Q :
  sp p w (if_ok P) -> (forall b w', grows (db w) (db w') -> club_inv (db w') -> P b w' -> sp (f b) w' (reply_ok Q)) ->
  sp (or_reply code msg p f) w (reply_ok Q).
Proof.
  intros Hp Hf. eapply (spec_bind E club_inv grows); [exact Hp|]. intros [b|e|] w' Hg Hi HP; [|by apply (spec_ret E club_inv grows)..].
  by apply Hf; [| |apply HP].
Qed.

Lemma sp_is_member c u w : sp (IsClubMember c u) w (if_ok (fun b w' => b = member (events_of (db w')) c u)).
Proof.
  eapply (spec_mono E club_inv grows); [apply (spec_select E club_inv grows)|]. intros r w' _ _ H b ->. by destruct (H _ eq_refl) as (o & ->).
Qed.
(** At some moment of the request the user has access. *)
Definition access_between (w w' : world) (c u : Z) : Prop := exists t, grows (db w) t /\ grows t (db w') /\ access (events_of t) c u.
Lemma sp_any_between c l u w : club_inv (db w) -> Forall (fun id => exists r, r ∈ default_clubs /\ cl_subsumes r = Some c /\ cl_id r = id) l ->
  sp (any_member l u) w (if_ok (fun b w' => b = true -> access_between w w' c u)).
Proof.
  revert w. induction l as [|id l IH]; intros w Hi Hl; [by apply sp_ok|]. apply Forall_cons_1 in Hl as [(r & Hr & Hs & Hid) Hl].
  cbn [any_member]. eapply sp_try; [apply sp_is_member|]. intros [] w1 Hg1 Hi1 Hm.
  - apply sp_ok; [done|]. intros _. exists (db w1). split; [done|]. split; [reflexivity|]. right. exists r. by rewrite Hid.
  - eapply (spec_mono E club_inv grows); [by apply IH|]. intros x w2 Hg2 _ H b -> Hb. destruct (H _ eq_refl Hb) as (t & H1 & H2 & H3).
    exists t. split; [by etransitivity|done].
Qed.
Lemma sp_access_between c u w : sp (HasClubAccess c u) w (if_ok (fun b w' => b = true -> access_between w w' c u)).
Proof.
  eapply sp_try; [apply sp_is_member|]. intros [] w1 Hg1 Hi1 Hm.
  { apply sp_ok; [done|]. intros _. exists (db w1). split; [done|]. split; [reflexivity|by left]. }
  apply (sp_try _ _ w1 (fun ids _ => Forall (fun id => exists r, r ∈ default_clubs /\ cl_subsumes r = Some c /\ cl_id r = id) ids)).
  - eapply (spec_mono E club_inv grows); [apply (spec_select E club_inv grows)|]. intros r w2 _ [Hc _] H ids ->. destruct (H _ eq_refl) as (o & ->).
    apply Forall_forall. intros x (k & -> & Hin)%list_elem_of_fmap. apply list_elem_of_In, List.filter_In in Hin as [Hin Hs].
    apply bool_decide_eq_true in Hs. apply list_elem_of_In in Hin. rewrite (Rand.shuffle_perm o) in Hin.
    exists (no_key k). split; [rewrite <- Hc; apply list_elem_of_fmap; eauto|done].
  - intros ids w2 Hg2 Hi2 Hids. eapply (spec_mono E club_inv grows); [by apply sp_any_between|]. intros x w3 _ _ H b -> Hb.
    destruct (H _ eq_refl Hb) as (t & H1 & H2 & H3). exists t. split; [by do 2 (etransitivity; [eassumption|])|done].
Qed.

Lemma configured_find id t : configured t -> no_key <$> club_by_id id t = List.find (fun c => cl_id c =? id) default_clubs.
Proof.
  unfold configured, club_by_id. intros <-. induction (clubs_of t) as [|c l IH]; [done|]. cbn. by case_match.
Qed.

(** The key a club is left with is the one that is returned. *)
Lemma sp_key id w : club_inv (db w) -> sp (ClubManifestKey id) w (if_ok (fun key w' => key <> [] /\ key_of id (db w') = Some key)).
Proof.
  intros Hi. eapply sp_try; [apply sp_row|]. intros key w1 _ Hi1 Hk. case_decide; [by apply sp_ok|].
  apply (sp_try _ _ w1 (fun b _ => length b = 32%nat)).
  { eapply (spec_mono E club_inv grows); [apply (spec_rand E club_inv grows)|]. intros r w' _ _ H' b ->. by apply H'. }
  intros b w2 _ Hi2 Hb. apply (sp_try _ _ w2 (fun _ w' => forall k, key_of id (db w') = Some k -> k <> [])).
  - apply (spec_stmt E club_inv grows); [|done]. intros t o _ Ht. cbn -[set_clubs].
    change (fun c => if (cl_id c =? id) && bool_decide (cl_key c = []) then _ else c) with (fill_key id (Base64.encode b)).
    assert (quiet t (set_clubs (map (fill_key id (Base64.encode b))) t)) as Hq.
    { apply quiet_same; [|done|by apply users_kept_same|apply keys_kept_fill]. apply configured_set_key. intros c. unfold fill_key. by case_match. }
    destruct (Hq Ht) as [Hq1 Hq2]. split; [done|]. split; [done|]. intros w' Ew _ _ k. unfold key_of. rewrite Ew, club_by_id_fill.
    destruct (club_by_id id t) as [c|] eqn:Ec; [|done]. apply List.find_some in Ec as [_ Ec]. cbn. unfold fill_key. rewrite Ec. cbn [andb].
    case_bool_decide; intros [= <-]; [cbn; apply Base64.encode_nonempty; by destruct b|done].
  - intros _ w3 _ Hi3 Hne. eapply (spec_mono E club_inv grows); [apply sp_row|]. intros r w4 Hg4 Hi4 H' k ->. specialize (H' _ eq_refl).
    split; [|done]. intros ->. destruct (key_of id (db w3)) as [k|] eqn:E3.
    + pose proof (gr_keys _ _ Hg4 id k E3 (Hne _ eq_refl)) as E4. specialize (Hne _ eq_refl).
      change (key_of id (db w4) = Some []) in H'. congruence.
    + change (key_of id (db w4) = Some []) in H'. unfold key_of in E3, H'. pose proof (configured_find id _ (proj1 Hi3)) as F3. pose proof (configured_find id _ (proj1 Hi4)) as F4.
      destruct (club_by_id id (db w3)); [done|]. destruct (club_by_id id (db w4)); [|done]. cbn in F3, F4. congruence.
Qed.

(** What justifies an answer to user [n]: an access at some moment of the request, in the log as
    it was then; and what it carries. *)
Definition key_answer (n slug : gostring) (w : world) (body : bytes) (w' : world) : Prop := exists log club u key number,
  events_of (db w) `prefix_of` log /\ log `prefix_of` events_of (db w') /\ named n u (db w') /\
  no_key club ∈ default_clubs /\ cl_slug club = slug /\ access log (cl_id club) u /\
  key <> [] /\ key_of (cl_id club) (db w') = Some key /\ body = club_key_body slug key number.

Lemma sp_key_for n slug w : club_inv (db w) -> sp (club_key_for slug n) w (reply_ok (key_answer n slug w)).
Proof.
  intros Hi1. eapply sp_reply; [apply sp_slug|]. intros club w2 Hg2 Hi2 [Hclub Hslug].
  eapply sp_reply; [by apply sp_user|]. intros u w3 Hg3 Hi3 Hu.
  eapply sp_reply; [apply sp_access_between|]. intros [] w4 Hg4 Hi4 Hacc; [|by apply (spec_ret E club_inv grows)]. cbn [negb].
  destruct (Hacc eq_refl) as (t2 & Hb1 & Hb2 & Hb3).
  eapply sp_reply; [by apply sp_key|]. intros key w5 Hg5 Hi5 [Hk1 Hk2].
  assert (forall number w', grows (db w5) (db w') -> reply_ok (key_answer n slug w) (Lists.HttpOK (club_key_body (cl_slug club) key number)) w') as Hend.
  { intros number w' Hg' body [= <-]. assert (grows t2 (db w')) as Ht by by do 2 (etransitivity; [eassumption|]).
    exists (events_of t2), club, (ID u), key, number.
    split; [by do 2 (etransitivity; [eapply gr_log; eassumption|]); apply (gr_log _ _ Hb1)|]. split; [apply (gr_log _ _ Ht)|].
    split; [eapply named_mono, Hu; etransitivity; [apply (gr_users _ _ Hb1)|apply (gr_users _ _ Ht)]|]. do 4 (split; [done|]).
    split; [by apply (gr_keys _ _ Hg')|]. by rewrite Hslug. }
  apply (sp_reply _ _ _ _ _ (fun _ _ => True)).
  { eapply (spec_mono E club_inv grows); [apply sp_quiet; [done|apply quiet_MembershipNumber]|by intros; intros ? ?]. }
  intros [m|] w6 Hg6 Hi6 _; [apply (spec_ret E club_inv grows); [done|]; by apply Hend|].
  apply (sp_reply _ _ _ _ _ (fun _ _ => True)).
  { eapply (spec_mono E club_inv grows); [apply sp_quiet; [done|apply quiet_select]|by intros; intros ? ?]. }
  intros clubs w7 Hg7 Hi7 _. eapply (spec_bind E club_inv grows); [apply sp_quiet; [done|apply quiet_subsuming]|].
  intros number w8 Hg8 Hi8 _. apply (spec_ret E club_inv grows); [done|]. apply Hend. by do 2 (etransitivity; [eassumption|]).
Qed.

(** Every session found under the token is [n]'s. *)
Definition owner (tok n : gostring) (t : tables) : Prop := forall s, t_sessions t !! tok = Some s -> s_username s = n.
Definition keeps_owner (tok n : gostring) (t t' : tables) : Prop := owner tok n t -> owner tok n t'.
Lemma owner_same tok n t t' : t_sessions t' = t_sessions t -> keeps_owner tok n t t'.
Proof. intros Es H s0. rewrite Es. apply H. Qed.
Lemma owner_select tok n {B} (q : (nat -> nat) -> tables -> B) : within (keeps_owner tok n) (select q).
Proof. apply within_sql. intros o t. by apply owner_same. Qed.
Lemma owner_row tok n {B} (q : tables -> option B) : within (keeps_owner tok n) (row q).
Proof. apply within_bind; [apply owner_select|done]. Qed.
Lemma owner_touch tok n tok' t : within (keeps_owner tok n) (touchSession tok' t).
Proof.
  apply within_update. intros tb H s0. cbn. destruct (decide (tok' = tok)) as [->|Hn].
  - rewrite lookup_alter_eq. intros (r & Hr & ->)%fmap_Some. cbn. by apply H.
  - rewrite lookup_alter_ne by done. apply H.
Qed.
#[local] Hint Resolve owner_select owner_row owner_touch : within.
Lemma owner_user tok n name : within (keeps_owner tok n) (getOrCreateUser name).
Proof.
  unfold getOrCreateUser, findUser, genClientID. within_steps.
  all: apply within_update; intros t; apply owner_same; try done. unfold insert_user. by case_match.
Qed.
#[local] Hint Resolve owner_user : within.
Lemma owner_key_for tok n slug name : within (keeps_owner tok n) (club_key_for slug name).
Proof.
  unfold club_key_for, or_reply, ClubBySlug, HasClubAccess, ClubManifestKey, MembershipNumber, AllClubs, IsClubMember, try. within_steps.
  - match goal with l : list Z |- _ => induction l as [|c l IH] end; [done|]. cbn [any_member]. unfold IsClubMember, try. within_steps.
  - apply within_update. intros t. by apply owner_same.
  - match goal with l : list club_row |- _ => induction l as [|c l IH] end; [done|]. cbn [subsuming_number].
    unfold MembershipNumber, IsClubMember, try. within_steps.
Qed.

Abbreviation owned tok n := (fun t => club_inv t /\ owner tok n t).
Lemma owned_run {B} (p : M B) tok n w : owned tok n (db w) -> within quiet p -> within (keeps_owner tok n) p ->
  spec E (owned tok n) grows p w (fun _ _ => True).
Proof.
  intros [Hi Ho] Hq Hk. eapply (spec_mono E (owned tok n) grows); [eapply spec_and; [exact Ho|exact Hk|by apply sp_quiet]|done].
Qed.
Lemma sp_Validate tok n w : owned tok n (db w) -> spec E (owned tok n) grows (Validate tok) w (fun v _ => v_username v <> [] -> v_username v = n).
Proof.
  intros Hi. unfold Validate. case_decide; [by apply (spec_ret E (owned tok n) grows)|].
  eapply (spec_bind E (owned tok n) grows); [apply (spec_select E (owned tok n) grows)|]. intros r w1 Hg1 Hi1 H1.
  destruct r as [[s|]|e|]; [|by apply (spec_ret E (owned tok n) grows)..].
  destruct (H1 _ eq_refl) as (_ & Hs). symmetry in Hs. apply fmap_Some in Hs as (r & Hr & ->).
  assert (Username (scan_session r) = n) as -> by (cbn; by apply (proj2 Hi1)).
  eapply (spec_bind E (owned tok n) grows); [apply owned_run; [done|unfold IsUserEnabled; within_steps..]|]. intros ok w2 Hg2 Hi2 _.
  destruct ok as [[]|e|]; try by apply (spec_ret E (owned tok n) grows).
  all: eapply (spec_bind E (owned tok n) grows); [apply owned_run; [done|apply within_now..]|]; intros t w3 Hg3 Hi3 _;
    (eapply (spec_bind E (owned tok n) grows); [apply owned_run; [done|apply within_set_sessions, quiet_frame|apply owner_touch]|]);
    intros _ w4 Hg4 Hi4 _; by apply (spec_ret E (owned tok n) grows).
Qed.

(** C18: Under any interference of the arbiter's other requests, with statements failing or losing
    their replies, as long as every session found under the token is user [n]'s, [apiClubKey]
    answers 200 only if at some moment of the request [n] was a member of the club that was named,
    or of one that subsumes it; and the answer then carries the key that the club has from then on,
    which is not empty. *)
Theorem club_key_guarded tok n slug w : club_inv (db w) -> owner tok n (db w) ->
  spec E (fun t => club_inv t /\ owner tok n t) grows (apiClubKey tok slug) w (reply_ok (key_answer n slug w)).
Proof.
  intros Hi Ho. unfold apiClubKey, with_session. case_decide; [by apply (spec_ret E (owned tok n) grows)|].
  eapply (spec_bind E (owned tok n) grows); [by apply sp_Validate|]. intros v w1 Hg1 [Hi1 Ho1] Hv.
  case_decide as Hne; [by apply (spec_ret E (owned tok n) grows)|]. destruct (v_denied v); [by apply (spec_ret E (owned tok n) grows)|].
  rewrite (Hv Hne). eapply (spec_mono E (owned tok n) grows).
  { eapply spec_and; [exact Ho1|apply owner_key_for|by apply sp_key_for]. }
  intros r w2 Hg2 _ [Hr _] body ->. destruct (Hr _ eq_refl) as (log & club & u & key & number & Hlog & Hrest).
  exists log, club, u, key, number. split; [|done]. etransitivity; [apply (gr_log _ _ Hg1)|done].
Qed.

Context (pooled : bool) (seed pub : bytes) (regionOf : gostring -> gostring).
(** Everything that runs. An administrator's grant names the club and the user. *)
Inductive club_request : M unit -> Prop :=
| cr_any p : any_request pooled seed pub regionOf p -> club_request p
| cr_key tok slug : club_request (forget (apiClubKey tok slug))
| cr_manifest tok slug : club_request (forget (apiClubManifest tok slug))
| cr_whoami tok : club_request (forget (apiWhoAmI tok))
| cr_status tok : club_request (forget (apiMyClubStatus tok))
| cr_page : club_request (forget adminClubsPage)
| cr_seed : club_request (forget seedDefaultClubs)
| cr_recommend tok target : club_request (forget (apiClubRecommend tok target))
| cr_my_recommend tok body : club_request (forget (apiMyClubRecommend tok body))
| cr_action a c target s cam : (a = AGrant -> forall club, c = Some club -> A club (Strings.TrimSpace target)) ->
    club_request (forget (adminClubsAction a c target s cam)).

Lemma quiet_any p : any_request pooled seed pub regionOf p -> within quiet p.
Proof.
  intros [Hp|Hp].
  - apply node_request_within in Hp. induction p as [|o k IH]; [done|]. destruct Hp as [Ho Hk]. split; [|auto].
    destruct o; try done. intros ord t. destruct (Ho ord t) as [_ Hc He Hu]. apply quiet_same; [|done|done|by apply keys_kept_same]. unfold configured, clubs_of. by rewrite Hc.
  - eapply admin_within; [|exact Hp]. intros t t' _ _ Hc He Hu. apply quiet_same; [|done|done|by apply keys_kept_same]. unfold configured, clubs_of. by rewrite Hc.
Qed.

Lemma request_spec p w : club_request p -> club_inv (db w) -> sp p w (fun _ _ => True).
Proof.
  intros Hp Hi. destruct Hp.
  - apply sp_quiet; [done|]. by apply quiet_any.
  - apply sp_quiet, within_forget, quiet_apiClubKey; done.
  - apply sp_quiet, within_forget, quiet_apiClubManifest; done.
  - apply sp_quiet, within_forget, quiet_apiWhoAmI; done.
  - apply sp_quiet, within_forget, quiet_apiMyClubStatus; done.
  - apply sp_quiet, within_forget, quiet_adminClubsPage; done.
  - apply sp_quiet, within_forget, quiet_seed; done.
  - eapply (spec_forget E club_inv grows). by apply sp_apiClubRecommend.
  - eapply (spec_forget E club_inv grows). by apply sp_apiMyClubRecommend.
  - eapply (spec_forget E club_inv grows). by apply sp_adminClubsAction.
Qed.

Lemma reachable_club_inv w y : sreach exec E club_request w y -> configured (db w) -> events_of (db w) = [] -> club_inv (db (shared y)).
Proof.
  intros Hy Hc He. eapply (spec_reach E club_inv grows); [|exact request_spec|exact Hy]. split; [done|]. intros i e. by rewrite He.
Qed.

Lemma was_member_granted log c u : was_member log c u -> exists i e, log !! i = Some e /\ ev_kind e = EvGranted.
Proof.
  intros [k Hk]. unfold member in Hk. destruct (last _) as [e|] eqn:El; [|done]. apply last_Some_elem_of, list_elem_of_In, List.filter_In in El as [Hin _].
  apply list_elem_of_In, list_elem_of_lookup in Hin as [i Hi]. apply lookup_take_Some in Hi as [Hi _]. exists i, e. split; [done|]. by destruct (ev_kind e).
Qed.
(** Without an administrator's grant there is no first member. *)
Lemma no_first_member t : log_ok t -> (forall c n, ~ A c n) -> forall i e, events_of t !! i = Some e -> ev_kind e <> EvGranted.
Proof.
  intros Hl HA i. induction (lt_wf i) as [i _ IH]. intros e Hi Ek. specialize (Hl i e Hi). unfold event_ok in Hl. rewrite Ek in Hl.
  destruct Hl as [(n & r & Hn & _)|(_ & src & acts & He & _ & Hf)]; [by apply (HA _ _ Hn)|].
  destruct acts as [|a acts]; [destruct He as [[_ He]|[_ He]]; cbn in He; lia|]. apply Forall_cons_1 in Hf as [[_ Hm] _].
  destruct (was_member_granted _ _ _ Hm) as (j & e' & Hj & Ej). apply lookup_take_Some in Hj as [Hj Hlt]. by eapply IH.
Qed.

(** C17: After any interleaving of everything the arbiter serves (logins, heartbeats, the node and
    club actions of administrators, recommendations from the app and the web, key and manifest
    requests), with statements failing or losing their replies, every grant in the log of club
    events is for a club and user that an administrator was asked to bring together, or it was
    earned: it is for the Cat Club, and before it three distinct users who had been members of the
    Cat Club, or two who had been members of the Elite Cat Club, had recommended that user. Every
    recommendation is by a user who had been a member of one of the two clubs before it. And if no
    administrator ever grants, nobody is ever granted membership. *)
Theorem memberships_earned w y i e :
  sreach exec E club_request w y -> configured (db w) -> events_of (db w) = [] ->
  events_of (db (shared y)) !! i = Some e ->
  (ev_kind e = EvGranted -> admitted (db (shared y)) (ev_club e) (ev_target e) \/
     earned_at (take i (events_of (db (shared y)))) (ev_club e) (ev_target e)) /\
  (ev_kind e = EvRecommendation -> forall a, ev_actor e = Some a -> had_access (take i (events_of (db (shared y)))) a) /\
  ((forall c n, ~ A c n) -> ev_kind e <> EvGranted).
Proof.
  intros Hy Hc He Hi. destruct (reachable_club_inv w y Hy Hc He) as [_ Hl]. pose proof (Hl i e Hi) as Hok. unfold event_ok in Hok.
  split; [by intros Ek; rewrite Ek in Hok|]. split; [|intros HA; by eapply no_first_member].
  intros Ek a Ha. rewrite Ek in Hok. by apply Hok.
Qed.
End endpoint_specs.
End earned.

(** ** What the nodes' rows are exposed to *)

Section nodes.
Context {FT : Json.FloatText} {U : Unicode} {AE : Aead} {BL : Blake2b} {ED : Ed25519} {SK : Signing.SigningKey} {AC : ArbiterCodec}.
(** The tokens that heartbeats carry, the settings of the load factors, and the database. *)
Context (T : gostring -> Prop) (C : loadFactorValues -> Prop) (pooled : bool).
Context (seed pub : bytes) (regionOf : gostring -> gostring).

(** What runs without an administrator's rights, the clubs' endpoints included. *)
Inductive unprivileged : M unit -> Prop :=
| un_node p : node_request T C pooled seed pub regionOf p -> unprivileged p
| un_key tok slug : unprivileged (forget (apiClubKey tok slug))
| un_manifest tok slug : unprivileged (forget (apiClubManifest tok slug))
| un_whoami tok : unprivileged (forget (apiWhoAmI tok))
| un_status tok : unprivileged (forget (apiMyClubStatus tok))
| un_recommend tok target : unprivileged (forget (apiClubRecommend tok target))
| un_my_recommend tok body : unprivileged (forget (apiMyClubRecommend tok body))
| un_seed : unprivileged (forget seedDefaultClubs).

Definition nodes_evolve (t t' : tables) : Prop := Forall2 (evolves T C) (nodes_of t) (nodes_of t').
Lemma nodes_same t t' : nodes_of t' = nodes_of t -> nodes_evolve t t'.
Proof. unfold nodes_evolve. intros ->. apply reflexivity. Qed.
Lemma nodes_frame t t' : t_rest t' = t_rest t -> users_kept t t' -> nodes_evolve t t'.
Proof. intros E _. apply nodes_same. unfold nodes_of. by rewrite E. Qed.
Lemma nodes_read {B} (q : (nat -> nat) -> tables -> B) : within nodes_evolve (select q).
Proof. apply within_select, nodes_frame. Qed.
Lemma nodes_row {B} (q : tables -> option B) : within nodes_evolve (row q).
Proof. apply within_bind; [apply nodes_read|done]. Qed.
Lemma nodes_query p sort : within nodes_evolve (query_nodes p sort).
Proof. apply nodes_read. Qed.
Lemma nodes_user n : within nodes_evolve (getOrCreateUser n).
Proof. apply within_getOrCreateUser, nodes_frame. Qed.
Lemma nodes_Validate tok : within nodes_evolve (Validate tok).
Proof. apply within_Validate, nodes_frame. Qed.
#[local] Hint Resolve within_now nodes_read nodes_row nodes_query nodes_user nodes_Validate : within.

Lemma nodes_key id : within nodes_evolve (ClubManifestKey id).
Proof. unfold ClubManifestKey, try. within_steps. apply within_update. intros t. by apply nodes_same. Qed.
Lemma nodes_access c u : within nodes_evolve (HasClubAccess c u).
Proof.
  unfold HasClubAccess, IsClubMember, try. within_steps.
  match goal with l : list Z |- _ => induction l as [|id l IH] end; [done|]. cbn [any_member]. unfold IsClubMember, try. within_steps.
Qed.
Lemma nodes_event c u k a n : within nodes_evolve (insertClubEventWithNumber c u k a n).
Proof. split; [|done]. intros ord t. case_match; by apply nodes_same. Qed.
#[local] Hint Resolve nodes_key nodes_access nodes_event : within.
Lemma nodes_grant_if n c u s p : within nodes_evolve p -> within nodes_evolve (grant_if n c u s p).
Proof.
  intros Hp. unfold grant_if, countQualifyingRecommenders, GrantClubMembership, assignMembershipNumber, try. within_steps.
  match goal with |- within _ (count_members _ ?l ?n) => generalize n; induction l as [|x l IH]; intros m end; [done|].
  cbn [count_members]. unfold IsClubMember, try. within_steps.
Qed.
Lemma nodes_recommend c u r : within nodes_evolve (RecommendClubMembership c u r).
Proof. unfold RecommendClubMembership, insertClubEvent, maybeAutoGrant, IsClubMember, ClubBySlug, try. within_steps. by do 2 apply nodes_grant_if. Qed.
Lemma nodes_subsuming id u l : within nodes_evolve (subsuming_number id u l).
Proof. induction l as [|c l IH]; [done|]. cbn [subsuming_number]. unfold MembershipNumber, IsClubMember, try. within_steps. Qed.
#[local] Hint Resolve nodes_recommend nodes_subsuming : within.

Lemma unprivileged_within p : unprivileged p -> within nodes_evolve p.
Proof.
  intros [p0 Hp|tok slug|tok slug|tok|tok|tok target|tok body|]; try apply within_forget;
    unfold apiClubKey, apiClubManifest, apiWhoAmI, apiMyClubStatus, apiClubRecommend, apiMyClubRecommend, seedDefaultClubs, with_session,
      userCanRecommend, club_key_for, MembershipNumber, IsClubMember, AllClubs, ClubBySlug, ClubNodes, nodeByToken, webSession, findUser, getSession, or_reply, try;
    [|within_steps..].
  - apply node_request_within in Hp. induction p0 as [|o k IH]; [done|]. destruct Hp as [Ho Hk].
    split; [|auto]. destruct o; try done. intros ord t. apply (cf_nodes _ _ _ _ (Ho ord t)).
  - apply within_update. intros t. apply nodes_same. unfold insert_club. by case_match.
  - apply within_update. intros t. apply nodes_same. unfold insert_club. by case_match.
Qed.

End nodes.

(** ** The client's side

    What [fetchKey] of snc/core makes of the answer. *)
Lemma member_reads_key {FT : Json.FloatText} slug b number :
  Json.string_ok slug -> bytes_ok b ->
  match number with Some (n, club) => Json.int64_ok n /\ Json.string_ok club /\ club <> [] | None => True end ->
  lenZ (club_key_body slug (Base64.encode b) number) <= 4096 ->
  Club.fetchKey (Ok (200, club_key_body slug (Base64.encode b) number)) =
    Ok (b, match number with Some (n, _) => n | None => 0 end, match number with Some (_, club) => club | None => slug end).
Proof.
  intros Hs Hb Hn Hlen. pose proof (Signing.Base64_encode_ok b Hb) as Hk. unfold Club.fetchKey. change (200 =? 403) with false. change (200 =? 200) with true. cbn [negb].
  rewrite take_ge by lia. unfold club_key_body in *. rewrite Json.Decode_line.
  2: { assert (Json.maxNestingDepth = 10000) by done. destruct number as [[n club]|]; json_ok_solve; tauto. }
  unfold Club.dec_club_key. cbn [Json.dec_struct]. destruct number as [[n club]|].
  - destruct Hn as (Hn & _ & Hc). rewrite <- (app_nil_r (Json.field "membership_number" _)).
    do 4 pick_step ltac:(first [by apply Json.dec_int64_enc|reflexivity]) ltac:(idtac).
    cbn [Club.ck_Key Club.ck_Number Club.ck_MembershipClub Club.ck_Club]. rewrite Base64.b64_decode_encode by done. by destruct club.
  - do 4 pick_step ltac:(reflexivity) ltac:(idtac). cbn [Club.ck_Key Club.ck_Number Club.ck_MembershipClub Club.ck_Club].
    by rewrite Base64.b64_decode_encode by done.
Qed.

(** ** A club from its first member to an earned one *)

#[local] Existing Instance Logins.toy_codec.
#[local] Existing Instances Json.toy_floats ascii_only toy_aead Signing.toy_key.
Definition user_table (names : list string) : tables :=
  MkTables (list_to_map (imap (fun i n => (bs n, MkUserRow (Z.of_nat i + 1) (bs n) (bs "user") (bs "clt") true true false)) names))
    (lenZ names + 1)
    (list_to_map (map (fun n => (bs n, MkSessionRow (bs n) (bs n) (bs "clt") [] [] [] [] 0 0)) names)) ∅ ∅ no_rest.
(** Users whose session tokens are their names, and the clubs. *)
Definition club_start : world :=
  play (fun _ => Logins.good_env) [forget seedDefaultClubs] (MkWorld (user_table ["ann"; "bob"; "cyd"; "dan"]) 0 [] [] ∅).
Definition grant_to (name : string) : M unit := forget (adminClubsAction AGrant (Some 1) (bs name) [] []).
Definition recommend_dan (by_ : string) : M unit := forget (apiClubRecommend (bs by_) (Some (bs "dan"))).
Definition club_history : list (M unit) := map grant_to ["ann"; "bob"; "cyd"] ++ map recommend_dan ["ann"; "bob"; "cyd"].
Definition club_end : system (Resp := Resp) (St := world) := MkSystem (play (fun _ => Logins.good_env) club_history club_start) (repeat (Ret ()) 6).
Definition first_three (club : Z) (name : gostring) : Prop := club = 1 /\ name ∈ map bs ["ann"; "bob"; "cyd"].

Lemma club_end_reachable : sreach exec (fun _ _ _ => True) (club_request first_three false [] [] id) club_start club_end.
Proof.
  apply (play_reach _ _ club_history _ _ []); [|constructor].
  unfold club_history. cbn [map app].
  repeat (apply List.Forall_cons; [|]); try apply List.Forall_nil; try apply cr_recommend;
    (apply cr_action; intros _ c [= <-]; split; [done|]; apply (bool_decide_unpack _); by vm_compute).
Qed.

Lemma memberships_earned_witness :
  exists e, events_of (db (shared club_end)) !! 6%nat = Some e /\ ev_kind e = EvGranted /\ ev_target e = 4 /\
    earned_at (take 6 (events_of (db (shared club_end)))) 1 4.
Proof.
  exists (MkEvent 1 4 EvGranted None (Some 4)).
  assert (events_of (db (shared club_end)) !! 6%nat = Some (MkEvent 1 4 EvGranted None (Some 4))) as Hi by by vm_compute.
  split; [exact Hi|]. split; [done|]. split; [done|].
  destruct (memberships_earned first_three (fun _ _ _ => True) false [] [] id club_start _ 6%nat _ club_end_reachable ltac:(by vm_compute) ltac:(by vm_compute) Hi)
    as (H & _). destruct (H eq_refl) as [(n & u & [_ Hn] & Hu & Eu)|He]; [exfalso|exact He].
  repeat (apply elem_of_cons in Hn as [->|Hn]; [revert Hu Eu; vm_compute; by intros [= <-] [=]|]). by apply elem_of_nil in Hn.
Defined.

Lemma club_end_inv : club_inv first_three (db (shared club_end)).
Proof. eapply reachable_club_inv; [exact club_end_reachable|by vm_compute..]. Qed.

(** Ann gets the key of the Cat Club. *)
Lemma club_end_owner : owner (bs "ann") (bs "ann") (db (shared club_end)).
Proof. intros s. vm_compute (t_sessions (db (shared club_end)) !! bs "ann"). by intros [= <-]. Qed.
Lemma club_key_guarded_witness :
  (exists body, (run exec (fun _ => Logins.good_env) 0 (apiClubKey (bs "ann") cat_club) (shared club_end)).1 = Lists.HttpOK body) /\
  spec (fun _ _ _ => True) (fun t => club_inv first_three t /\ owner (bs "ann") (bs "ann") t) grows (apiClubKey (bs "ann") cat_club) (shared club_end)
    (reply_ok (key_answer (bs "ann") cat_club (shared club_end))).
Proof.
  split; [eexists; by vm_compute|].
  exact (club_key_guarded first_three (fun _ _ _ => True) (bs "ann") (bs "ann") cat_club (shared club_end) club_end_inv club_end_owner).
Defined.

(** The first of two nodes reports, and a member recommends a user. *)
Definition with_nodes : world :=
  MkWorld (set_nodes (fun _ => [node_at 1 "t1"; node_at 2 "t2"]) (db (shared club_end))) (60 * second) [] [] ∅.
Definition node_history : list (M unit) :=
  [forget (apiHeartbeat true (Some beat)); recommend_dan "ann"; forget (setDeployStatus 2 (bs "running"))].
Definition after_history : world := play (fun _ => Logins.good_env) node_history with_nodes.
Lemma after_history_reachable :
  sreach exec (fun _ _ _ => True) (unprivileged (eq (bs "t1")) (fun _ => False) true [] [] id) with_nodes (MkSystem after_history (repeat (Ret ()) 3)).
Proof.
  apply (play_reach _ (fun _ => Logins.good_env) node_history with_nodes with_nodes []); [|constructor].
  constructor; [apply un_node, nr_heartbeat; by intros q [= <-]|]. constructor; [apply un_recommend|].
  constructor; [apply un_node, nr_deploy|constructor].
Qed.


(** ** Behaviour worth knowing *)

(** Two grants at the same time give two users the same number. *)
Definition two_grants : system (Resp := Resp) (St := world) :=
  schedule Logins.good_env (concat (replicate 8 [0%nat; 1%nat])) [grant_to "ann"; grant_to "bob"] club_start.
Theorem concurrent_grants_share_number :
  sreach exec (fun _ _ _ => True) (club_request first_three false [] [] id) club_start two_grants /\
  events_of (db (shared two_grants)) = [MkEvent 1 1 EvGranted None (Some 1); MkEvent 1 2 EvGranted None (Some 1)].
Proof.
  split; [|by vm_compute]. apply schedule_reach.
  repeat (apply List.Forall_cons; [|]); try apply List.Forall_nil;
    (apply cr_action; intros _ c [= <-]; split; [done|]; apply (bool_decide_unpack _); by vm_compute).
Qed.

(** After a revocation, one repeated recommendation is enough: the old ones still count. *)
Theorem revoked_member_regranted :
  last (events_of (db (play (fun _ => Logins.good_env)
    [forget (adminClubsAction ARevoke (Some 1) (bs "dan") [] []); recommend_dan "ann"] (shared club_end)))) = Some (MkEvent 1 4 EvGranted None (Some 4)).
Proof. by vm_compute. Qed.
End Clubs.
