(* ===== verification/ArbiterAccounts.v ===== *)
(** * snc-arbiter: sign-up, confirmation and password resets
    (src/snc-arbiter/signup.go, get_key.go, captcha.go, admin_keygen.go, db.go)

    The accounts themselves live in Camerlengo; the arbiter keeps which of them are confirmed
    and the tokens it has mailed, and may set any account's password (user:forceChangePassword).
    Handlers are programs ([Effects]) over the operations of [ArbiterStore] and the commands of
    Camerlengo they use: whether a command is done, and what it answers, are up to the
    environment, and an answer need not tell what was done. The world records, for nobody to
    read, the accounts that were created, those whose creation was answered without an error,
    the passwords that Camerlengo was asked to set, the mails that were sent, and every token
    that was ever stored.
    The verdicts of the captcha ([Captcha]) and of the rate limiters are inputs; bodies arrive
    decoded. *)

From stdpp Require Import base list gmap strings fin_maps.
From Stdlib Require Import ZArith Lia.
From S2P Require Import Prelude GoLib GoFloat GoJson ArbiterSigning ArbiterManifest Effects ArbiterStore ArbiterSessions.
From S2P Require Import ArbiterLogin ArbiterFrame ArbiterNodes ArbiterClubs ClientKey ClientMirror.

(** ** The arithmetic question of the public forms (captcha.go)

    [rand.Intn] draws [a] and [b]; times are those of [time.Now]. *)
Module Captcha.
Section captcha.
Context {U : Unicode} {SH : Sha256} {BL : Blake2b} (seed : bytes).

(** crypto/hmac over SHA-256, for a key of at most a block. *)
Definition hmac_sha256 (key msg : bytes) : bytes :=
  let k := resize 64 0 key in
  sha256 (map (Z.lxor 0x5c) k ++ sha256 (map (Z.lxor 0x36) k ++ msg)).

Definition captchaTTL : Z := 10 * minute.
Definition deriveCaptchaKey : bytes := blake2b_256 (seed ++ bs "snc-arbiter-captcha-hmac-v1").
Definition newCaptcha (a b now : Z) : gostring * gostring :=
  let a := a + 1 in
  let b := b + 1 in
  let payload := [u8 a; u8 b] ++ be_put 8 (u64 (time_seconds (now + captchaTTL))) in
  (Strconv.itoa a ++ bs " + " ++ Strconv.itoa b, Base64.encode (payload ++ hmac_sha256 deriveCaptchaKey payload)).
Definition verifyCaptcha (now : Z) (token answer : gostring) : bool :=
  match Base64.decode token with
  | None => false
  | Some raw =>
      if negb (lenZ raw =? 10 + 32) then false
      else
        let payload := take 10 raw in
        let sig := drop 10 raw in
        if negb (bool_decide (sig = hmac_sha256 deriveCaptchaKey payload)) then false
        else if int64 (be_get (drop 2 payload)) <? time_seconds now then false
        else match Atoi (Strings.TrimSpace answer) with
        | None => false
        | Some ans => ans =? nth 0 payload 0 + nth 1 payload 0
        end
  end.

Lemma int64_u64 z : int64 (u64 z) = int64 z.
Proof. unfold int64, u64. by rewrite Zplus_mod_idemp_l. Qed.
Lemma int64_twice z : int64 (int64 z) = int64 z.
Proof.
  unfold int64. replace ((z + 2 ^ 63) mod 2 ^ 64 - 2 ^ 63 + 2 ^ 63) with ((z + 2 ^ 63) mod 2 ^ 64) by lia.
  by rewrite Zmod_mod.
Qed.

(** A question of the arbiter's own is answered by the sum, in ten minutes, and by nothing else. *)
Lemma captcha_verdict a b asked now answer : 0 <= a < 8 -> 0 <= b < 8 ->
  verifyCaptcha now (newCaptcha a b asked).2 answer =
    (time_seconds now <=? time_seconds (asked + captchaTTL)) && bool_decide (Atoi (Strings.TrimSpace answer) = Some (a + b + 2)).
Proof.
  intros Ha Hb. unfold newCaptcha. cbn [snd]. set (payload := [u8 (a + 1); u8 (b + 1)] ++ _). set (sig := hmac_sha256 _ _).
  assert (length payload = 10%nat) as Hp by (unfold payload; by rewrite length_app, length_be_put).
  assert (length sig = 32%nat) as Hs by apply sha256_length.
  assert (bytes_ok (payload ++ sig)) as Hok.
  { apply Forall_app. split; [|apply sha256_bytes]. repeat constructor; try apply be_put_ok; unfold u8; apply Z.mod_pos_bound; lia. }
  unfold verifyCaptcha. rewrite Base64.b64_decode_encode by done.
  rewrite length_app, Hp, Hs. cbn [Z.of_nat Z.eqb negb Nat.add Z.add Pos.of_succ_nat Pos.succ Pos.add Pos.eqb].
  rewrite take_app_length', drop_app_length' by done. rewrite bool_decide_true by done. cbn [negb].
  unfold payload at 1. rewrite drop_app_length' by done. rewrite be_get_put.
  change (256 ^ Z.of_nat 8) with (2 ^ 64). fold (u64 (u64 (time_seconds (asked + captchaTTL)))).
  rewrite !int64_u64. unfold time_seconds at 1. rewrite int64_twice. fold (time_seconds (asked + captchaTTL)).
  rewrite Z.leb_antisym. destruct (_ <? _); [done|]. cbn [negb andb nth app payload].
  unfold u8. rewrite !Z.mod_small by lia. destruct (Atoi _) as [n|]; [|by rewrite bool_decide_false].
  destruct (n =? _) eqn:En; symmetry; [apply bool_decide_eq_true|apply bool_decide_eq_false]; [|intros [= ->]]; f_equal; lia.
Qed.
End captcha.
End Captcha.

Module Accounts.
Import Store Sessions Nodes.

(** ** Tables and operations *)

(** user_confirmations by username: whether confirmed, and created_at. email_tokens by token:
    username, type, expires_at. *)
Record atables := MkATables { at_conf : gmap gostring (bool * Z); at_tokens : gmap gostring (gostring * gostring * Z) }.

Inductive mail := ConfirmMail (token : gostring) | ResetMail (token : gostring) | KeyMail (key password : gostring) | ActivatedMail.

Inductive AOp : Type :=
| Core (o : Op)
| ASql (A : Type) (q : Z -> atables -> res A * atables)   (* given the time of the engine *)
| AddUser (user password : gostring)
| ForceChange (user password : gostring)
| SendMail (to_ : gostring) (m : mail).
Definition AResp (o : AOp) : Type :=
  match o with
  | Core o => Resp o
  | ASql A _ => res A
  | AddUser _ _ | ForceChange _ _ | SendMail _ _ => res verifyReply
  end.
Abbreviation AM := (prog AResp).

Record aworld := MkAWorld {
  a_core : world;
  a_t : atables;
  a_seen : gset (gostring * (gostring * gostring * Z));   (* tokens that were ever stored *)
  a_new : gset gostring;                                  (* accounts Camerlengo created for user:add *)
  a_acked : gset gostring;                                (* accounts whose user:add was answered without an error *)
  a_changes : list (gostring * gostring);                 (* passwords it was asked to set *)
  a_mails : list (gostring * mail) }.
Definition with_core (c : world) (w : aworld) : aworld := MkAWorld c (a_t w) (a_seen w) (a_new w) (a_acked w) (a_changes w) (a_mails w).
Definition with_t (t : atables) (w : aworld) : aworld :=
  MkAWorld (a_core w) t (list_to_set (map_to_list (at_tokens t)) ∪ a_seen w) (a_new w) (a_acked w) (a_changes w) (a_mails w).

(** How the client of auth.go reads the status of a reply. *)
Definition not_error (r : verifyReply) : bool := negb (bool_decide (Status r = bs "error")).

(** A command is done or not ([e_sql]), and answered or not ([e_verify]). *)
Definition command (e : Env) (effect : aworld -> aworld) (w : aworld) : res verifyReply * aworld :=
  (match e_verify e with Some r => Ok r | None => Err "camerlengo" end, match e_sql e with Failed => w | _ => effect w end).
Definition add_acked (e : Env) (user : gostring) (w : aworld) : aworld :=
  match e_verify e with
  | Some r => if not_error r then MkAWorld (a_core w) (a_t w) (a_seen w) (a_new w) ({[user]} ∪ a_acked w) (a_changes w) (a_mails w) else w
  | None => w
  end.
Definition add_change (user password : gostring) (w : aworld) : aworld :=
  MkAWorld (a_core w) (a_t w) (a_seen w) (a_new w) (a_acked w) ((user, password) :: a_changes w) (a_mails w).
Definition aexec (e : Env) (o : AOp) (w0 : aworld) : AResp o * aworld :=
  let w := with_core (tick (e_delay e) (a_core w0)) w0 in
  match o return AResp o * aworld with
  | Core o => let (r, c) := exec e o (a_core w0) in (r, with_core c w0)
  | ASql A q =>
      let (r, t) := q (clock (a_core w)) (a_t w) in
      match e_sql e with
      | Done => (r, with_t t w)
      | Failed => (Err "sql", w)
      | ReplyLost => (Err "sql", with_t t w)
      end
  | AddUser user _ =>
      command e (fun w => MkAWorld (a_core w) (a_t w) (a_seen w) ({[user]} ∪ a_new w) (a_acked w) (a_changes w) (a_mails w)) (add_acked e user w)
  | ForceChange user password => command e id (add_change user password w)
  | SendMail to_ m => command e (fun w => MkAWorld (a_core w) (a_t w) (a_seen w) (a_new w) (a_acked w) (a_changes w) ((to_, m) :: a_mails w)) w
  end.

(** A program of the other files among these operations. *)
Fixpoint lift {A} (p : M A) : AM A :=
  match p with Ret a => Ret a | Do o k => Do (Core o) (fun r => lift (k r)) end.
Definition anow : AM Z := call (Core TimeNow).
Definition asql {A} (q : Z -> atables -> A * atables) : AM (res A) := call (ASql A (fun t tb => let (a, tb') := q t tb in (Ok a, tb'))).
Definition aselect {A} (q : atables -> A) : AM (res A) := asql (fun _ tb => (q tb, tb)).
Definition aupdate (f : Z -> atables -> atables) : AM (res unit) := asql (fun t tb => ((), f t tb)).

(** The commands, as the client of auth.go reads their replies. *)
Definition addUser (email password : gostring) : AM (res unit) :=
  r ← call (AddUser email password);
  Ret (match r : res verifyReply with Ok r => if not_error r then Ok () else Err "rejected" | Err e => Err e | Panic => Panic end).
Definition forceChangePassword (email password : gostring) : AM (res unit) :=
  r ← call (ForceChange email password);
  Ret (match r : res verifyReply with Ok r => if not_error r then Ok () else Err "rejected" | Err e => Err e | Panic => Panic end).
Definition sendEmail (to_ : gostring) (m : mail) : AM (res unit) :=
  r ← call (SendMail to_ m);
  Ret (match r : res verifyReply with
       | Ok r => if negb (bool_decide (Status r = bs "ok")) && negb (bool_decide (Reason r = [])) then Err "sendEmail" else Ok ()
       | Err e => Err e
       | Panic => Panic
       end).

Definition map_ok {A B} (f : A -> B) (r : res A) : res B := match r with Ok a => Ok (f a) | Err e => Err e | Panic => Panic end.

(** ** Confirmations and tokens (db.go) *)

Definition set_conf (f : gmap gostring (bool * Z) -> gmap gostring (bool * Z)) (t : atables) : atables := MkATables (f (at_conf t)) (at_tokens t).
Definition set_tokens (f : gmap gostring (gostring * gostring * Z) -> gmap gostring (gostring * gostring * Z)) (t : atables) : atables :=
  MkATables (at_conf t) (f (at_tokens t)).

Definition setUserConfirmed (username : gostring) : AM (res unit) :=
  aupdate (fun t => set_conf (fun m => <[username := (true, match m !! username with Some r => r.2 | None => time_seconds t end)]> m)).
Definition resetPendingConfirmation (username : gostring) : AM (res unit) :=
  t ← anow; aupdate (fun _ => set_conf (insert username (false, time_seconds t))).
Definition isUserConfirmationPending (username : gostring) : AM (res bool) :=
  r ← aselect (A := option (bool * Z)) (fun t => at_conf t !! username);
  Ret (map_ok (fun row : option (bool * Z) => match row with Some row => negb row.1 | None => false end) r).
Definition isUserConfirmed (username : gostring) : AM (res bool) :=
  r ← aselect (A := option (bool * Z)) (fun t => at_conf t !! username);
  Ret (map_ok (fun row : option (bool * Z) => match row with Some row => row.1 | None => false end) r).
Definition pendingSignupWithin (username : gostring) (window : Z) : AM (res bool) :=
  r ← aselect (A := option (bool * Z)) (fun t => at_conf t !! username);
  match r : res (option (bool * Z)) with
  | Ok (Some (confirmed, createdAt)) =>
      if confirmed then Ret (Ok false) else t ← anow; Ret (Ok (time_seconds t - createdAt <=? window / second))
  | Ok None => Ret (Ok false)
  | Err e => Ret (Err e)
  | Panic => Ret Panic
  end.

Definition createEmailToken (token username tokenType : gostring) (expiresAt : Z) : AM (res unit) :=
  call (ASql unit (fun _ t => match at_tokens t !! token with
    | Some _ => (Err "unique", t)
    | None => (Ok (), set_tokens (insert token (username, tokenType, time_seconds expiresAt)) t)
    end)).
Definition deleteToken (token : gostring) : AM (res unit) := aupdate (fun _ => set_tokens (delete token)).
(** The user name, or nothing for a token that is unknown, of another type, or expired. *)
Definition consumeEmailToken (token tokenType : gostring) : AM (res gostring) :=
  r ← aselect (A := option (gostring * gostring * Z)) (fun t => at_tokens t !! token);
  match r : res (option (gostring * gostring * Z)) with
  | Ok (Some (username, type, expiresAt)) =>
      if negb (bool_decide (type = tokenType)) then Ret (Ok [])
      else
        t ← anow;
        if expiresAt <? time_seconds t then _ ← deleteToken token; Ret (Ok [])
        else d ← deleteToken token; Ret (match d : res unit with Ok _ => Ok username | Err e => Err e | Panic => Panic end)
  | Ok None => Ret (Ok [])
  | Err e => Ret (Err e)
  | Panic => Ret Panic
  end.
Definition deleteEmailTokensByUser (username tokenType : gostring) : AM (res unit) :=
  aupdate (fun _ => set_tokens (filter (fun kv => kv.2.1.1 <> username \/ kv.2.1.2 <> tokenType))).

(** ** Keys for accounts (admin_keygen.go, get_key.go) *)

Section handlers.
Context {FT : Json.FloatText} {U : Unicode} {AE : Aead} {BL : Blake2b} {ED : Ed25519} {SK : Signing.SigningKey}.
Context (seed : bytes) (regionOf : gostring -> gostring).

Definition maxKeyControls : nat := 10.
(** The two shuffles draw from [rnd1] and [rnd2]. *)
Definition pickBootstrapControls (rnd1 rnd2 : nat -> nat) (nodes : list node_row) (region : gostring) : list gostring :=
  let addrs := map nd_addr nodes in
  if decide (region = []) then take maxKeyControls (Rand.rand_Shuffle rnd1 addrs)
  else
    let regional := Rand.rand_Shuffle rnd1 (List.filter (fun a => bool_decide (regionOf a = region)) addrs) in
    let others := Rand.rand_Shuffle rnd2 (List.filter (fun a => negb (bool_decide (regionOf a = region))) addrs) in
    let result := take maxKeyControls regional in
    result ++ take (maxKeyControls - length result) others.

Record issuedKey := MkIssued { ik_KeyStr : gostring; ik_KeyID : gostring; ik_ClientID : gostring }.
(** A failed registration is only logged. *)
Definition issueKeyOpts (rnd1 rnd2 : nat -> nat) (username region : gostring) (fullKey : bool) (source : gostring) : M (res issuedKey) :=
  u ← getOrCreateUser username;
  match u with
  | Ok u =>
      controls ← bootstrapNodes (bs "control");
      match controls with
      | Ok (c :: l) =>
          let nodes := if fullKey then map nd_addr (c :: l) else pickBootstrapControls rnd1 rnd2 (c :: l) region in
          b ← call (RandRead 16);
          match b with
          | Ok b =>
              let keyID := uuid_string b in
              nonce ← call (RandRead 24);
              let p := Keys.MkKeyData (Signing.MkKey username None (Some nodes) (Hex.encode Signing.pub) [] [] (UserClientID u) keyID)
                         [] [] [] (bool_decide (Role u = bs "admin")) in
              match Keys.buildSignedKey p nonce with
              | Ok (_, ks) => _ ← RegisterKey keyID username source; Ret (Ok (MkIssued ks keyID (UserClientID u)))
              | _ => Ret (Err "build key")
              end
          | _ => Ret Panic
          end
      | _ => Ret (Err "no live control nodes")
      end
  | _ => Ret (Err "get user")
  end.
(** Draws are inputs; the mail is sent by a goroutine of its own, after the answer. *)
Definition issueFreeKey (rnd1 rnd2 : nat -> nat) (remote username source password : gostring) : AM (res issuedKey) :=
  issued ← lift (issueKeyOpts rnd1 rnd2 username (regionOf remote) false source);
  match issued with
  | Ok k => _ ← sendEmail username (KeyMail (ik_KeyStr k) password); Ret (Ok k)
  | r => Ret r
  end.

Definition charset : gostring := bs "ABCDEFGHJKMNPQRSTUVWXYZabcdefghjkmnpqrstuvwxyz23456789".
(** Errors of the generator leave the buffer zero. *)
Definition randomThrowawayPassword : AM gostring :=
  b ← call (Core (RandRead 20));
  Ret (map (fun x => nth (Z.to_nat (x mod lenZ charset)) charset 0) (match b with Ok b => b | _ => replicate 20 0 end)).
Definition genEmailToken : AM (res gostring) := b ← call (Core (RandRead 32)); Ret (map_ok Hex.encode b).

Fixpoint contains (c : Z) (s : gostring) : bool := match s with [] => false | x :: s => (x =? c) || contains c s end.
Definition isEmailLike (s : gostring) : bool := contains 64 s && contains 46 s.
Definition normalized (email : gostring) : gostring := Strings.ToLower (Strings.TrimSpace email).

(** ** Sign-up and confirmation *)

Definition sendConfirmEmail (email : gostring) : AM (res unit) :=
  token ← genEmailToken;
  match token with
  | Ok token =>
      t ← anow;
      r ← createEmailToken token email (bs "confirm") (t + 24 * hour);
      match r with
      | Ok _ => sendEmail email (ConfirmMail token)
      | r => Ret r
      end
  | _ => Ret (Err "internal error")
  end.

(** Replies: 200 with what its body says, or an error with its code; texts meant for people are cut short. *)
Inductive answer := OK | Exists (exists_ pending : bool) | Key (k : issuedKey) | Session_ (token : gostring) | Fail (code : Z) (msg : string).

Definition apiAccountStart (captcha : bool) (email : option gostring) : AM answer :=
  match email with
  | None => Ret (Fail 400 "invalid request")
  | Some email =>
      if negb captcha then Ret (Fail 400 "captcha")
      else
        let email := normalized email in
        if negb (isEmailLike email) then Ret (Fail 400 "invalid email")
        else
          pw ← randomThrowawayPassword;
          r ← addUser email pw;
          match r with
          | Ok _ =>
              _ ← resetPendingConfirmation email;
              r ← sendConfirmEmail email;
              Ret (match r with Ok _ => Exists false true | _ => Fail 502 "could not send" end)
          | _ => pending ← isUserConfirmationPending email; Ret (Exists true (match pending with Ok b => b | _ => false end))
          end
  end.

Definition setPasswordWindow : Z := 10 * minute.
Definition apiAccountSetPassword (req : option (gostring * gostring)) : AM answer :=
  match req with
  | None => Ret (Fail 400 "invalid request")
  | Some (email, password) =>
      let email := normalized email in
      if negb (isEmailLike email) then Ret (Fail 400 "invalid email")
      else if lenZ password <? 8 then Ret (Fail 400 "Password must be at least 8 characters.")
      else
        fresh ← pendingSignupWithin email setPasswordWindow;
        match fresh with
        | Ok true => r ← forceChangePassword email password; Ret (match r with Ok _ => OK | _ => Fail 500 "Failed to set password." end)
        | _ => Ret (Fail 403 "The password can only be set right after sign-up.")
        end
  end.

Definition apiConfirmEmail (rnd1 rnd2 : nat -> nat) (remote : gostring) (token : option gostring) : AM answer :=
  match token with
  | None => Ret (Fail 400 "invalid request")
  | Some token =>
      if decide (token = []) then Ret (Fail 400 "invalid request")
      else
        username ← consumeEmailToken token (bs "confirm");
        match username with
        | Ok username =>
            if decide (username = []) then Ret (Fail 400 "expired")
            else
              fresh ← pendingSignupWithin username setPasswordWindow;
              password ← (match fresh with
                | Ok true => pw ← randomThrowawayPassword; r ← forceChangePassword username pw; Ret (match r with Ok _ => pw | _ => [] end)
                | _ => Ret []
                end);
              _ ← setUserConfirmed username;
              _ ← lift (getOrCreateUser username);
              issued ← issueFreeKey rnd1 rnd2 remote username (bs "email_confirm") password;
              Ret (match issued with Ok k => Key k | _ => Fail 500 "key generation failed" end)
        | _ => Ret (Fail 400 "expired")
        end
  end.

Definition apiResendConfirmation (captcha limited : bool) (email : option gostring) : AM answer :=
  match email with
  | None => Ret (Fail 400 "invalid request")
  | Some email =>
      let email := normalized email in
      if negb captcha then Ret (Fail 400 "captcha")
      else if decide (email = []) then Ret (Fail 400 "email required")
      else if limited then Ret (Fail 429 "rate_limited")
      else
        confirmed ← isUserConfirmed email;
        match confirmed with
        | Ok true => Ret OK
        | _ =>
            _ ← deleteEmailTokensByUser email (bs "confirm");
            r ← sendConfirmEmail email;
            Ret (match r with Ok _ => OK | _ => Fail 502 "send_failed" end)
        end
  end.

(** ** Password resets *)

Definition apiForgotPassword (captcha limited : bool) (email : option gostring) : AM answer :=
  match email with
  | None => Ret (Fail 400 "invalid request")
  | Some email =>
      let email := normalized email in
      if negb captcha then Ret (Fail 400 "captcha")
      else if bool_decide (email = []) || negb (contains 64 email) then Ret OK
      else if limited then Ret OK
      else
        _ ← deleteEmailTokensByUser email (bs "reset");
        token ← genEmailToken;
        match token with
        | Ok token =>
            t ← anow;
            r ← createEmailToken token email (bs "reset") (t + hour);
            match r with
            | Ok _ => _ ← sendEmail email (ResetMail token); Ret OK
            | _ => Ret OK
            end
        | _ => Ret OK
        end
  end.

Definition apiResetPassword (req : option (gostring * gostring)) : AM answer :=
  match req with
  | None => Ret (Fail 400 "invalid request")
  | Some (token, password) =>
      if decide (token = []) then Ret (Fail 400 "token required")
      else if lenZ password <? 8 then Ret (Fail 400 "Password must be at least 8 characters.")
      else
        username ← consumeEmailToken token (bs "reset");
        match username with
        | Ok username =>
            if decide (username = []) then Ret (Fail 400 "expired")
            else r ← forceChangePassword username password; Ret (match r with Ok _ => OK | _ => Fail 500 "Failed to reset password." end)
        | _ => Ret (Fail 400 "expired")
        end
  end.

(** ** Logging in, keys, and the administrator's confirmation *)

Definition apiAccountLogin (busy limited : bool) (req : option (gostring * gostring)) : AM answer :=
  if busy then Ret (Fail 429 "Service is busy")
  else if limited then Ret (Fail 429 "Too many login attempts.")
  else match req with
  | None => Ret (Fail 400 "invalid request")
  | Some (email, password) =>
      let email := normalized email in
      if negb (isEmailLike email) || bool_decide (password = []) then Ret (Fail 400 "email and password are required")
      else
        r ← lift (login email password);
        match r with
        | Ok _ =>
            pending ← isUserConfirmationPending email;
            match pending with
            | Ok true => Ret (Fail 403 "Please confirm your email address first")
            | _ =>
                _ ← setUserConfirmed email;
                token ← lift (Login seed email password None);
                Ret (match token with Ok token => Session_ token | _ => Fail 500 "Login failed." end)
            end
        | _ => Ret (Fail 401 "Invalid email or password")
        end
  end.
Definition apiKeyFree (rnd1 rnd2 : nat -> nat) (remote token : gostring) (limited : bool) : AM answer :=
  sess ← lift (Clubs.webSession token);
  match sess with
  | None => Ret (Fail 401 "not logged in")
  | Some sess =>
      if limited then Ret (Fail 429 "Too many key requests.")
      else
        issued ← issueFreeKey rnd1 rnd2 remote (Username sess) (bs "get_key_page") [];
        Ret (match issued with Ok k => Key k | _ => Fail 500 "key generation failed" end)
  end.
Definition adminGenerateKey (rnd1 rnd2 : nat -> nat) (adminToken token camUser : gostring) (req : option (gostring * gostring * bool)) : M answer :=
  isAdminToken ← checkAdminAPIToken adminToken;
  allowed ← (if isAdminToken : bool then Ret true
             else u ← currentUser token camUser; Ret (match u with Some u => bool_decide (Role u = bs "admin") | None => false end));
  if negb allowed then Ret (Fail 401 "unauthorized")
  else match req with
  | Some (username, region, fullKey) =>
      if decide (username = []) then Ret (Fail 400 "username required")
      else
        issued ← issueKeyOpts rnd1 rnd2 username (Strings.ToUpper (Strings.TrimSpace region)) fullKey
          (if fullKey : bool then bs "admin_api_full" else bs "admin_api");
        Ret (match issued with
             | Ok k => Key k
             | Err e => Fail (if String.eqb e "no live control nodes" then 503 else 500) e
             | Panic => Fail 500 "panic"
             end)
  | None => Ret (Fail 400 "username required")
  end.
Definition apiAdminConfirmEmail (username : gostring) : AM answer :=
  if decide (username = []) then Ret (Fail 400 "bad path")
  else
    r ← setUserConfirmed username;
    match r with
    | Ok _ =>
        u ← lift (getOrCreateUser username);
        match u with
        | Ok _ => _ ← sendEmail username ActivatedMail; Ret OK
        | _ => Ret (Fail 500 "internal error")
        end
    | _ => Ret (Fail 500 "internal error")
    end.
End handlers.

(** ** The control nodes of a key *)
Lemma filter_split {A} (f : A -> bool) l : List.filter f l ++ List.filter (fun x => negb (f x)) l ≡ₚ l.
Proof.
  induction l as [|x l IH]; [done|]. cbn [List.filter]. destruct (f x); cbn [negb app]; [by constructor|].
  rewrite <- Permutation_middle. by constructor.
Qed.
Lemma Forall_shuffled {A} (P : A -> Prop) rnd (f : A -> bool) l n :
  (forall x, f x = true -> P x) -> Forall P (take n (Rand.rand_Shuffle rnd (List.filter f l))).
Proof. intros H. apply Forall_take. rewrite Rand.shuffle_perm. apply List.Forall_forall. intros x Hx. apply List.filter_In in Hx as [_ Hx]. auto. Qed.

(** As many of the live nodes as a key takes, each at most once, and one of another region only
    when all those of the region are in. *)
Theorem bootstrap_picked regionOf rnd1 rnd2 nodes region :
  let picked := pickBootstrapControls regionOf rnd1 rnd2 nodes region in
  let regional := List.filter (fun a => bool_decide (regionOf a = region)) (map nd_addr nodes) in
  length picked = min maxKeyControls (length nodes) /\ picked ⊆+ map nd_addr nodes /\
  (region <> [] -> exists near far, picked = near ++ far /\ Forall (fun a => regionOf a = region) near /\
     Forall (fun a => regionOf a <> region) far /\ (far <> [] -> near ≡ₚ regional)).
Proof.
  intros picked regional. unfold picked, pickBootstrapControls. destruct (decide (region = [])) as [E|E].
  - rewrite length_take, (Permutation_length (Rand.shuffle_perm _ _)), length_map. split; [done|]. split; [|done].
    etransitivity; [apply submseteq_take|]. by rewrite Rand.shuffle_perm.
  - pose proof (filter_split (fun a => bool_decide (regionOf a = region)) (map nd_addr nodes)) as Hsp.
    pose proof (Permutation_length Hsp) as Hlen. rewrite length_app, length_map in Hlen.
    fold regional in Hlen, Hsp |- *. set (others := List.filter (fun a => negb _) _) in *.
    pose proof (Permutation_length (Rand.shuffle_perm rnd1 regional)) as L1.
    pose proof (Permutation_length (Rand.shuffle_perm rnd2 others)) as L2.
    split; [rewrite length_app, !length_take, L1, L2; lia|]. split.
    + rewrite <- Hsp. apply submseteq_app; (etransitivity; [apply submseteq_take|]); by rewrite Rand.shuffle_perm.
    + intros _. eexists _, _. split; [done|]. split; [|split].
      * apply Forall_shuffled. intros x. by rewrite bool_decide_eq_true.
      * apply Forall_shuffled. intros x. by rewrite negb_true_iff, bool_decide_eq_false.
      * intros Hf. rewrite length_take, L1 in Hf. rewrite take_ge; [by rewrite Rand.shuffle_perm|]. rewrite L1.
        destruct (Nat.le_gt_cases (length regional) maxKeyControls); [done|].
        rewrite Nat.min_l, Nat.sub_diag in Hf by lia. done.
Qed.

(** ** Whose password may be set

    [resets tok pw], [sets email pw] and [confirms tok] are what the requests presented. *)
Section passwords.
Context {FT : Json.FloatText} {U : Unicode} {AE : Aead} {BL : Blake2b} {ED : Ed25519} {SK : Signing.SigningKey}.
Context (seed : bytes) (regionOf : gostring -> gostring).
Context (resets sets : gostring -> gostring -> Prop) (confirms : gostring -> Prop).

(** The requests of this file, and any of the others. *)
Inductive arequest : AM unit -> Prop :=
| areq_start captcha email : arequest (forget (apiAccountStart captcha email))
| areq_set req : (forall email pw, req = Some (email, pw) -> sets email pw) -> arequest (forget (apiAccountSetPassword req))
| areq_confirm rnd1 rnd2 remote token : (forall tok, token = Some tok -> confirms tok) ->
    arequest (forget (apiConfirmEmail regionOf rnd1 rnd2 remote token))
| areq_resend captcha limited email : arequest (forget (apiResendConfirmation captcha limited email))
| areq_forgot captcha limited email : arequest (forget (apiForgotPassword captcha limited email))
| areq_reset req : (forall tok pw, req = Some (tok, pw) -> resets tok pw) -> arequest (forget (apiResetPassword req))
| areq_login busy limited req : arequest (forget (apiAccountLogin seed busy limited req))
| areq_free rnd1 rnd2 remote token limited : arequest (forget (apiKeyFree regionOf rnd1 rnd2 remote token limited))
| areq_admin username : arequest (forget (apiAdminConfirmEmail username))
| areq_core (p : M unit) : arequest (lift p).

(** Nothing is asked of the environment. *)
Definition anything (e : Env) (o : AOp) (w : aworld) : Prop := True.

Definition token_of (w : aworld) (tok user type : gostring) : Prop := exists expires, (tok, (user, type, expires)) ∈ a_seen w.
(** A password is asked for who was mailed the token of the request, or for an account whose
    creation here was answered without an error. *)
Definition allowed (w : aworld) (user pw : gostring) : Prop :=
  8 <= lenZ pw /\
  ((exists tok, resets tok pw /\ token_of w tok user (bs "reset")) \/
   user ∈ a_acked w /\ ((exists email, sets email pw /\ user = normalized email) \/
                     (exists tok, confirms tok /\ token_of w tok user (bs "confirm")))).
Definition mail_ok (w : aworld) (to_ : gostring) (m : mail) : Prop :=
  match m with
  | ConfirmMail tok => token_of w tok to_ (bs "confirm")
  | ResetMail tok => token_of w tok to_ (bs "reset")
  | KeyMail _ pw => pw = [] \/ (to_, pw) ∈ a_changes w
  | ActivatedMail => True
  end.

Record ainv (w : aworld) : Prop := MkAInv {
  ai_conf : forall u c, at_conf (a_t w) !! u = Some (false, c) -> u ∈ a_acked w;
  ai_seen : forall tok r, at_tokens (a_t w) !! tok = Some r -> (tok, r) ∈ a_seen w;
  ai_changes : forall u pw, (u, pw) ∈ a_changes w -> allowed w u pw;
  ai_mails : forall to_ m, (to_, m) ∈ a_mails w -> mail_ok w to_ m }.
Definition ale (w w' : aworld) : Prop :=
  a_seen w ⊆ a_seen w' /\ a_acked w ⊆ a_acked w' /\ forall c, c ∈ a_changes w -> c ∈ a_changes w'.
#[local] Instance ale_refl : Reflexive ale.
Proof. done. Qed.
#[local] Instance ale_trans : Transitive ale.
Proof. intros a b c (? & ? & ?) (? & ? & ?). repeat split; [by etransitivity..|auto]. Qed.

Lemma token_of_up w w' tok u ty : ale w w' -> token_of w tok u ty -> token_of w' tok u ty.
Proof. intros (H & _) [x Hx]. exists x. by apply H. Qed.
Lemma allowed_up w w' u pw : ale w w' -> allowed w u pw -> allowed w' u pw.
Proof.
  intros Hl (Hn & H). split; [done|]. destruct H as [(tok & ? & ?)|(Hu & H)]; [left; eauto using token_of_up|].
  right. split; [by apply Hl|]. destruct H as [?|(tok & ? & ?)]; eauto 6 using token_of_up.
Qed.
Lemma mail_ok_up w w' t m : ale w w' -> mail_ok w t m -> mail_ok w' t m.
Proof. intros Hl. destruct m; cbn; [by apply token_of_up..| |done]. intros [?|?]; [by left|]. right. by apply Hl. Qed.

Definition aspec {A} (p : AM A) (w : aworld) (Q : A -> aworld -> Prop) : Prop :=
  keeps aexec anything ainv ale p w (fun a w' => ale w w' /\ ainv w' /\ Q a w').

Lemma aspec_ret {A} (a : A) w (Q : A -> aworld -> Prop) : ainv w -> Q a w -> aspec (Ret a) w Q.
Proof. intros H HQ. split; [reflexivity|by split]. Qed.
Lemma aspec_mono {A} (p : AM A) w (P Q : A -> aworld -> Prop) :
  aspec p w P -> (forall a w', ale w w' -> ainv w' -> P a w' -> Q a w') -> aspec p w Q.
Proof. intros Hp H. eapply wp_mono; [exact Hp|]. intros a w' (Hl & Hi & HP). split; [done|]. split; [done|]. by apply H. Qed.
Lemma aspec_bind {A B} (p : AM A) (f : A -> AM B) w P Q :
  aspec p w P -> (forall a w', ale w w' -> ainv w' -> P a w' -> aspec (f a) w' Q) -> aspec (p ≫= f) w Q.
Proof.
  intros Hp Hf. apply wp_bind. eapply wp_mono; [exact Hp|]. intros a w' (Hl & Hi & HP).
  eapply wp_mono; [exact (Hf a w' Hl Hi HP)|]. intros b w'' (Hl' & H'). split; [|done]. by etransitivity.
Qed.
(** One operation, on a world that the others have moved. *)
Lemma aspec_call (o : AOp) w (Q : AResp o -> aworld -> Prop) :
  (forall w1 e, ale w w1 -> ainv w1 -> anything e o w1 ->
     ale w1 (aexec e o w1).2 /\ ainv (aexec e o w1).2 /\ Q (aexec e o w1).1 (aexec e o w1).2) ->
  aspec (call o) w Q.
Proof.
  intros H. apply keeps_call. intros w1 e Hl Hi He. destruct (H w1 e Hl Hi He) as (? & ? & ?).
  split; [by split|]. split; [by etransitivity|]. by split.
Qed.

(** Worlds that differ in the tables of the other files. *)
Lemma ainv_core c w : ainv w -> ainv (with_core c w).
Proof. by intros [? ? ? ?]. Qed.
Lemma aspec_core (o : Op) w : aspec (call (Core o)) w (fun _ _ => True).
Proof.
  apply aspec_call. intros w1 e _ Hi _. cbn. destruct (exec e o (a_core w1)) as [r c]. cbn.
  split; [done|]. split; [by apply ainv_core|done].
Qed.
Lemma aspec_lift {A} (p : M A) w : ainv w -> aspec (lift p) w (fun _ _ => True).
Proof.
  revert w. induction p as [a|o k IH]; intros w Hi; [by apply aspec_ret|]. cbn.
  apply (aspec_bind (call (Core o)) (fun r => lift (k r)) w (fun _ _ => True)); [apply aspec_core|]. intros r w' _ Hi' _. by apply IH.
Qed.

(** Statements: the rows they leave unconfirmed were so before, or are of accounts created here. *)
Definition conf_kept (w : aworld) (t t' : atables) : Prop :=
  forall u c, at_conf t' !! u = Some (false, c) -> u ∈ a_acked w \/ exists c', at_conf t !! u = Some (false, c').
Lemma with_t_up t w : ale w (with_t t w).
Proof. split; [cbn; set_solver|done]. Qed.
Lemma ainv_with_t t w : conf_kept w (a_t w) t -> ainv w -> ainv (with_t t w).
Proof.
  intros Hc [H1 H2 H3 H4]. split.
  - intros u c Hu. destruct (Hc u c Hu) as [?|[c' Hu']]; [done|by eapply H1].
  - intros tok r Hr. cbn. apply elem_of_union_l, elem_of_list_to_set. by apply elem_of_map_to_list.
  - intros u pw H. eapply allowed_up; [apply with_t_up|auto].
  - intros u m H. eapply mail_ok_up; [apply with_t_up|auto].
Qed.
Lemma aspec_stmt {A} (q : Z -> atables -> res A * atables) w (Q : res A -> aworld -> Prop) :
  (forall clk t w1, ale w w1 -> conf_kept w1 t (q clk t).2) ->
  (forall clk t w', ale w w' -> ainv w' -> a_t w' = (q clk t).2 -> Q (q clk t).1 w') -> (forall w', Q (Err "sql") w') ->
  aspec (call (ASql A q)) w Q.
Proof.
  intros Hk HQ Hf. apply aspec_call. intros w1 e Hl Hi _. cbn.
  set (w2 := with_core (tick (e_delay e) (a_core w1)) w1).
  assert (ainv w2) as Hi2 by by apply ainv_core. specialize (Hk (clock (tick (e_delay e) (a_core w1))) (a_t w1) w2 Hl).
  specialize (HQ (clock (tick (e_delay e) (a_core w1))) (a_t w1)).
  destruct (q _ (a_t w1)) as [r t]. cbn in *.
  assert (ainv (with_t t w2)) by by apply ainv_with_t.
  assert (ale w (with_t t w2)) by (etransitivity; [exact Hl|apply (with_t_up t w2)]).
  destruct (e_sql e); cbn; (split; [try apply (with_t_up t w2); done|]); (split; [done|auto]).
Qed.
Lemma aspec_select {A} (q : atables -> A) w : aspec (aselect q) w (fun r w' => forall a, r = Ok a -> a = q (a_t w')).
Proof. apply aspec_stmt; [| |done]; cbn; [intros clk t w1 _ u c H; eauto|]. intros clk t w' _ _ E a [= <-]. by rewrite E. Qed.
Lemma aspec_update f w : (forall clk t w1, ale w w1 -> conf_kept w1 t (f clk t)) -> aspec (aupdate f) w (fun _ _ => True).
Proof. intros H. by apply aspec_stmt. Qed.
Lemma aspec_set_tokens f w : aspec (aupdate (fun _ => set_tokens f)) w (fun _ _ => True).
Proof. apply aspec_update. intros clk t w1 _ u c H. eauto. Qed.

Lemma aspec_setUserConfirmed u w : aspec (setUserConfirmed u) w (fun _ _ => True).
Proof.
  apply aspec_update. intros clk t w1 _ v c. cbn. destruct (decide (u = v)) as [<-|Hn].
  - by rewrite lookup_insert_eq.
  - rewrite lookup_insert_ne by done. eauto.
Qed.
Lemma aspec_resetPending u w : u ∈ a_acked w -> aspec (resetPendingConfirmation u) w (fun _ _ => True).
Proof.
  intros Hu. eapply aspec_bind; [apply aspec_core|]. intros t w' Hl _ _. apply aspec_update. intros clk tb w1 Hl1 v c. cbn.
  destruct (decide (u = v)) as [<-|Hn]; [left; apply Hl1, Hl, Hu|]. rewrite lookup_insert_ne by done. eauto.
Qed.
Lemma aspec_pendingSignup u win w : aspec (pendingSignupWithin u win) w (fun r w' => r = Ok true -> u ∈ a_acked w').
Proof.
  eapply aspec_bind; [apply aspec_select|]. intros [[[b c]|]|e|] w' Hl Hi Hr; [|by apply aspec_ret..].
  specialize (Hr _ eq_refl). destruct b; [by apply aspec_ret|]. eapply aspec_bind; [apply aspec_core|].
  intros t w2 Hl2 Hi2 _. apply aspec_ret; [done|]. intros _. apply Hl2. by eapply ai_conf.
Qed.
Lemma aspec_createToken tok u ty x w : aspec (createEmailToken tok u ty x) w (fun r w' => r = Ok () -> token_of w' tok u ty).
Proof.
  apply aspec_stmt; [| |done].
  - intros clk t w1 _ v c. destruct (at_tokens t !! tok); cbn; eauto.
  - intros clk t w' _ Hi. destruct (at_tokens t !! tok); cbn; [done|]. intros E _. eexists. apply (ai_seen _ Hi). rewrite E. cbn.
    by rewrite lookup_insert_eq.
Qed.
Lemma aspec_consume tok ty w :
  aspec (consumeEmailToken tok ty) w (fun r w' => forall u, r = Ok u -> u = [] \/ token_of w' tok u ty).
Proof.
  eapply aspec_bind; [apply aspec_select|].
  intros [[[[u ty'] x]|]|e|] w' Hl Hi Hr; [|apply aspec_ret; [done|]; intros ? [= <-]; by left|by apply aspec_ret..].
  specialize (Hr _ eq_refl). case_bool_decide as Ety; [subst ty'; cbn [negb]|apply aspec_ret; [done|]; intros ? [= <-]; by left].
  assert (token_of w' tok u ty) as Ht by (exists x; by apply (ai_seen _ Hi)).
  eapply aspec_bind; [apply aspec_core|]. intros t w2 Hl2 Hi2 _.
  destruct (x <? _); (eapply aspec_bind; [apply aspec_set_tokens|]); intros d w3 Hl3 Hi3 _; (apply aspec_ret; [done|]); intros v Hv.
  - simplify_eq. by left.
  - destruct d; simplify_eq. right. eapply token_of_up; [etransitivity; [exact Hl2|exact Hl3]|done].
Qed.

(** Commands: what is done keeps to the invariant. *)
Lemma ainv_up w w' : ainv w -> ale w w' -> a_t w' = a_t w ->
  (forall u pw, (u, pw) ∈ a_changes w' -> (u, pw) ∈ a_changes w \/ allowed w' u pw) ->
  (forall u m, (u, m) ∈ a_mails w' -> (u, m) ∈ a_mails w \/ mail_ok w' u m) -> ainv w'.
Proof.
  intros [H1 H2 H3 H4] Hl Et Hc Hm. split.
  - rewrite Et. intros u c Hu. apply Hl. eauto.
  - rewrite Et. intros tok r Hr. apply Hl. eauto.
  - intros u pw H. destruct (Hc u pw H); [eapply allowed_up; eauto|done].
  - intros u m H. destruct (Hm u m H); [eapply mail_ok_up; eauto|done].
Qed.
Lemma aspec_reply (p : AM (res verifyReply)) (P : aworld -> Prop) w : 
  aspec p w (fun r w' => forall v, r = Ok v -> Status v <> bs "error" -> P w') ->
  aspec (r ← p; Ret (match r : res verifyReply with Ok r => if not_error r then Ok () else Err "rejected" | Err e => Err e | Panic => Panic end))
    w (fun r w' => r = Ok () -> P w').
Proof.
  intros Hp. eapply aspec_bind; [exact Hp|]. intros [r|e|] w' Hl Hi Hr; (apply aspec_ret; [done|]); [|done..].
  unfold not_error. case_bool_decide; [done|]. intros _. by eapply Hr.
Qed.
Lemma add_acked_up e u w : ale w (add_acked e u w) /\ (ainv w -> ainv (add_acked e u w)) /\
  (forall r, e_verify e = Some r -> Status r <> bs "error" -> u ∈ a_acked (add_acked e u w)).
Proof.
  unfold add_acked. destruct (e_verify e) as [r|]; [|by split_and!]. unfold not_error. case_bool_decide; cbn [negb]; [split_and!; [done..|by intros ? [= <-]]|].
  assert (ale w (MkAWorld (a_core w) (a_t w) (a_seen w) (a_new w) ({[u]} ∪ a_acked w) (a_changes w) (a_mails w))) as Hl
    by (split; [done|]; split; [cbn; set_solver|done]).
  split; [exact Hl|]. split; [|intros; cbn; set_solver]. intros Hi. eapply ainv_up; [exact Hi|exact Hl|done|auto..].
Qed.
Lemma aspec_addUser u pw w : aspec (addUser u pw) w (fun r w' => r = Ok () -> u ∈ a_acked w').
Proof.
  apply (aspec_reply _ (fun w' => u ∈ a_acked w')), aspec_call. intros w1 e Hl Hi _.
  destruct (add_acked_up e u (with_core (tick (e_delay e) (a_core w1)) w1)) as (Hup & Hk & Hin).
  specialize (Hk (ainv_core _ _ Hi)). cbn [aexec]. set (w2 := add_acked _ _ _) in *. clearbody w2. unfold command. cbn [fst snd].
  assert (forall v, match e_verify e with Some r => Ok r | None => Err "camerlengo" end = Ok v -> Status v <> bs "error" -> u ∈ a_acked w2) as HP.
  { intros v. destruct (e_verify e) as [r|]; [|done]. intros [= <-]. by apply Hin. }
  destruct (e_sql e); (split; [exact Hup|]); (split; [|exact HP]); [|exact Hk|]; (eapply ainv_up; [exact Hk|done|done|auto..]).
Qed.
Lemma aspec_force u pw w : allowed w u pw -> aspec (forceChangePassword u pw) w (fun r w' => r = Ok () -> (u, pw) ∈ a_changes w').
Proof.
  intros Ha. apply (aspec_reply _ (fun w' => (u, pw) ∈ a_changes w')), aspec_call. intros w1 e Hl Hi _. cbn [aexec]. unfold command.
  assert (match e_sql e with Failed => add_change u pw (with_core (tick (e_delay e) (a_core w1)) w1)
    | _ => id (add_change u pw (with_core (tick (e_delay e) (a_core w1)) w1)) end
    = add_change u pw (with_core (tick (e_delay e) (a_core w1)) w1)) as -> by by destruct (e_sql e).
  set (w2 := with_core _ w1). assert (ainv w2) as Hi2 by by apply ainv_core.
  assert (ale w2 (add_change u pw w2)) as Hup by (split; [done|]; split; [done|]; intros; cbn; apply elem_of_cons; by right).
  split; [exact Hup|]. split; [|intros; cbn; apply elem_of_cons; by left]. cbn [snd].
  eapply ainv_up; [exact Hi2|exact Hup|done| |auto].
  intros v q Hv. cbn in Hv. apply elem_of_cons in Hv as [[= -> ->]|Hv]; [right|by left].
  eapply allowed_up; [|exact Ha]. etransitivity; [exact Hl|exact Hup].
Qed.
Lemma aspec_mail u m w : mail_ok w u m -> aspec (sendEmail u m) w (fun _ _ => True).
Proof.
  intros Ha. apply (aspec_bind (call (SendMail u m)) _ w (fun _ _ => True)); [|intros r w' _ Hi _; by apply aspec_ret].
  apply aspec_call. intros w1 e Hl Hi _. cbn. assert (mail_ok w1 u m) as Hm by by eapply mail_ok_up.
  destruct (e_sql e); (split; [done|]); (split; [|done]); (eapply ainv_up; [exact Hi|done|done|auto|]); cbn; [|auto|].
  all: intros v n Hv; apply elem_of_cons in Hv as [[= -> ->]|Hv]; [by right|by left].
Qed.

Lemma aspec_throwaway w : aspec randomThrowawayPassword w (fun pw _ => lenZ pw = 20).
Proof.
  eapply aspec_bind with (P := fun r _ => forall b, r = Ok b -> length b = 20%nat).
  - apply aspec_call. intros w1 e _ Hi _. cbn. destruct (e_rand e) as [b|]; (split; [done|]); (split; [by apply ainv_core|]); [|done].
    intros b' [= <-]. apply (length_resize (map u8 b) 20 0).
  - intros r w' _ Hi Hr. apply aspec_ret; [done|]. unfold lenZ. rewrite length_map. destruct r as [b| |]; [rewrite (Hr b eq_refl)|..]; done.
Qed.

(** ** The handlers *)

(** Where nothing is claimed of the result. *)
Ltac aspec_end := first [by apply aspec_ret | by apply aspec_lift].
Lemma aspec_token w : aspec genEmailToken w (fun _ _ => True).
Proof. eapply aspec_bind; [apply aspec_core|]. intros. by apply aspec_ret. Qed.

Lemma aspec_isPending u w : aspec (isUserConfirmationPending u) w (fun _ _ => True).
Proof. eapply aspec_bind; [apply aspec_select|]. intros. by apply aspec_ret. Qed.
Lemma aspec_isConfirmed u w : aspec (isUserConfirmed u) w (fun _ _ => True).
Proof. eapply aspec_bind; [apply aspec_select|]. intros. by apply aspec_ret. Qed.

Lemma aspec_sendConfirm email w : ainv w -> aspec (sendConfirmEmail email) w (fun _ _ => True).
Proof.
  intros Hi0. eapply aspec_bind; [apply aspec_token|]. intros [tok|e|] w1 _ H1 _; [|aspec_end..].
  eapply aspec_bind; [apply aspec_core|]. intros t w2 _ H2 _. eapply aspec_bind; [apply aspec_createToken|].
  intros [[]|e|] w3 _ H3 Ht; [|aspec_end..]. apply aspec_mail. exact (Ht eq_refl).
Qed.
Lemma aspec_issueFreeKey rnd1 rnd2 remote u src pw w : ainv w -> pw = [] \/ (u, pw) ∈ a_changes w ->
  aspec (issueFreeKey regionOf rnd1 rnd2 remote u src pw) w (fun _ _ => True).
Proof.
  intros Hi Hpw. eapply aspec_bind; [by apply aspec_lift|]. intros [k|e|] w1 Hl H1 _; [|aspec_end..].
  eapply aspec_bind; [apply aspec_mail|intros; aspec_end]. destruct Hpw as [?|?]; [by left|]. right. by apply Hl.
Qed.

Lemma aspec_start captcha email w : ainv w -> aspec (apiAccountStart captcha email) w (fun _ _ => True).
Proof.
  intros Hi. unfold apiAccountStart. destruct email as [email|]; [|aspec_end]. destruct captcha; [|aspec_end]. cbn [negb].
  destruct (isEmailLike (normalized email)); [cbn [negb]|aspec_end].
  eapply aspec_bind; [apply aspec_throwaway|]. intros pw w1 _ _ _. eapply aspec_bind; [apply aspec_addUser|].
  assert (forall w, ainv w -> aspec (pending ← isUserConfirmationPending (normalized email);
    Ret (Exists true (match pending with Ok b => b | _ => false end))) w (fun _ _ => True)) as Hpend.
  { intros v Hv. eapply aspec_bind; [apply aspec_isPending|intros; aspec_end]. }
  intros [[]|e|] w2 _ H2 Hn; [|by apply Hpend..].
  eapply aspec_bind; [apply aspec_resetPending, Hn; done|]. intros r w3 _ H3 _.
  eapply aspec_bind; [by apply aspec_sendConfirm|]. intros; aspec_end.
Qed.
Lemma aspec_setPassword req w : (forall email pw, req = Some (email, pw) -> sets email pw) -> ainv w ->
  aspec (apiAccountSetPassword req) w (fun _ _ => True).
Proof.
  intros Hs Hi. unfold apiAccountSetPassword. destruct req as [[email pw]|]; [|aspec_end]. specialize (Hs _ _ eq_refl).
  destruct (isEmailLike (normalized email)); [cbn [negb]|aspec_end]. destruct (lenZ pw <? 8) eqn:Hpw; [aspec_end|]. apply Z.ltb_ge in Hpw.
  eapply aspec_bind; [apply aspec_pendingSignup|]. intros [[]|e|] w1 _ H1 Hn; [|aspec_end..]. specialize (Hn eq_refl).
  eapply aspec_bind; [apply aspec_force|intros; aspec_end]. split; [done|]. right. eauto.
Qed.
Lemma aspec_resetPassword req w : (forall tok pw, req = Some (tok, pw) -> resets tok pw) -> ainv w ->
  aspec (apiResetPassword req) w (fun _ _ => True).
Proof.
  intros Hs Hi. unfold apiResetPassword. destruct req as [[tok pw]|]; [|aspec_end]. specialize (Hs _ _ eq_refl).
  destruct (decide (tok = [])); [aspec_end|]. destruct (lenZ pw <? 8) eqn:Hpw; [aspec_end|]. apply Z.ltb_ge in Hpw.
  eapply aspec_bind; [apply aspec_consume|]. intros [u|e|] w1 _ H1 Hu; [|aspec_end..].
  destruct (decide (u = [])); [aspec_end|]. destruct (Hu u eq_refl) as [?|Ht]; [done|].
  eapply aspec_bind; [apply aspec_force|intros; aspec_end]. split; [done|]. left. eauto.
Qed.
Lemma aspec_confirm rnd1 rnd2 remote token w : (forall tok, token = Some tok -> confirms tok) -> ainv w ->
  aspec (apiConfirmEmail regionOf rnd1 rnd2 remote token) w (fun _ _ => True).
Proof.
  intros Hs Hi. unfold apiConfirmEmail. destruct token as [tok|]; [|aspec_end]. specialize (Hs _ eq_refl).
  destruct (decide (tok = [])); [aspec_end|]. eapply aspec_bind; [apply aspec_consume|].
  intros [u|e|] w1 _ H1 Hu; [|aspec_end..]. destruct (decide (u = [])); [aspec_end|]. destruct (Hu u eq_refl) as [?|Ht]; [done|].
  eapply aspec_bind; [apply aspec_pendingSignup|]. intros fresh w2 Hl2 H2 Hn.
  eapply aspec_bind with (P := fun pw w' => pw = [] \/ (u, pw) ∈ a_changes w').
  - destruct fresh as [[]|e|]; [|apply aspec_ret; auto..]. eapply aspec_bind; [apply aspec_throwaway|]. intros pw w3 Hl3 H3 Hpw.
    eapply aspec_bind; [apply aspec_force|intros [[]|e|] w4 _ H4 Hc; (apply aspec_ret; [done|]); auto].
    split; [cbv beta in Hpw; lia|]. right. split; [apply Hl3; auto|]. right. exists tok. split; [done|].
    eapply token_of_up; [etransitivity; [exact Hl2|exact Hl3]|done].
  - intros pw w3 _ H3 Hpw. eapply aspec_bind; [apply aspec_setUserConfirmed|]. intros r w4 Hl4 H4 _.
    eapply aspec_bind; [by apply aspec_lift|]. intros u' w5 Hl5 H5 _.
    eapply aspec_bind; [apply aspec_issueFreeKey; [done|]|intros; aspec_end].
    destruct Hpw as [?|?]; [by left|]. right. by apply Hl5, Hl4.
Qed.
Lemma aspec_resend captcha limited email w : ainv w -> aspec (apiResendConfirmation captcha limited email) w (fun _ _ => True).
Proof.
  intros Hi. unfold apiResendConfirmation. destruct email as [email|]; [|aspec_end]. destruct captcha; [cbn [negb]|aspec_end].
  destruct (decide _); [aspec_end|]. destruct limited; [aspec_end|].
  eapply aspec_bind; [apply aspec_isConfirmed|]. intros r w1 _ H1 _.
  assert (aspec (_ ← deleteEmailTokensByUser (normalized email) (bs "confirm"); r ← sendConfirmEmail (normalized email);
    Ret (match r with Ok _ => OK | _ => Fail 502 "send_failed" end)) w1 (fun _ _ => True)) as Hsend.
  { eapply aspec_bind; [apply aspec_set_tokens|]. intros d w2 _ H2 _. eapply aspec_bind; [by apply aspec_sendConfirm|]. intros; aspec_end. }
  destruct r as [[]|e|]; [aspec_end|exact Hsend..].
Qed.
Lemma aspec_forgot captcha limited email w : ainv w -> aspec (apiForgotPassword captcha limited email) w (fun _ _ => True).
Proof.
  intros Hi. unfold apiForgotPassword. destruct email as [email|]; [|aspec_end]. destruct captcha; [cbn [negb]|aspec_end].
  destruct (_ || _); [aspec_end|]. destruct limited; [aspec_end|].
  eapply aspec_bind; [apply aspec_set_tokens|]. intros d w1 _ H1 _. eapply aspec_bind; [apply aspec_token|].
  intros [tok|e|] w2 _ H2 _; [|aspec_end..]. eapply aspec_bind; [apply aspec_core|]. intros t w3 _ H3 _.
  eapply aspec_bind; [apply aspec_createToken|]. intros [[]|e|] w4 _ H4 Ht; [|aspec_end..].
  eapply aspec_bind; [apply aspec_mail; exact (Ht eq_refl)|]. intros; aspec_end.
Qed.
Lemma aspec_accountLogin busy limited req w : ainv w -> aspec (apiAccountLogin seed busy limited req) w (fun _ _ => True).
Proof.
  intros Hi. unfold apiAccountLogin. destruct busy; [aspec_end|]. destruct limited; [aspec_end|]. destruct req as [[email pw]|]; [|aspec_end].
  destruct (_ || _); [aspec_end|]. eapply aspec_bind; [by apply aspec_lift|]. intros [t|e|] w1 _ H1 _; [|aspec_end..].
  eapply aspec_bind; [apply aspec_isPending|]. intros pend w2 _ H2 _.
  assert (aspec (_ ← setUserConfirmed (normalized email); token ← lift (Login seed (normalized email) pw None);
    Ret (match token with Ok token => Session_ token | _ => Fail 500 "Login failed." end)) w2 (fun _ _ => True)) as Hl.
  { eapply aspec_bind; [apply aspec_setUserConfirmed|]. intros d w3 _ H3 _. eapply aspec_bind; [by apply aspec_lift|]. intros; aspec_end. }
  destruct pend as [[]|e|]; [aspec_end|exact Hl..].
Qed.
Lemma aspec_keyFree rnd1 rnd2 remote token limited w : ainv w -> aspec (apiKeyFree regionOf rnd1 rnd2 remote token limited) w (fun _ _ => True).
Proof.
  intros Hi. eapply aspec_bind; [by apply aspec_lift|]. intros [s|] w1 _ H1 _; [|aspec_end]. destruct limited; [aspec_end|].
  eapply aspec_bind; [apply aspec_issueFreeKey; [done|by left]|]. intros; aspec_end.
Qed.
Lemma aspec_adminConfirm u w : ainv w -> aspec (apiAdminConfirmEmail u) w (fun _ _ => True).
Proof.
  intros Hi. unfold apiAdminConfirmEmail. destruct (decide _); [aspec_end|].
  eapply aspec_bind; [apply aspec_setUserConfirmed|]. intros [[]|e|] w1 _ H1 _; [|aspec_end..].
  eapply aspec_bind; [by apply aspec_lift|]. intros [v|e|] w2 _ H2 _; [|aspec_end..].
  eapply aspec_bind; [by apply aspec_mail|]. intros; aspec_end.
Qed.

Lemma aspec_forget {A} (p : AM A) w : aspec p w (fun _ _ => True) -> aspec (forget p) w (fun _ _ => True).
Proof. intros H. eapply aspec_bind; [exact H|]. intros; aspec_end. Qed.
Lemma arequest_spec p w : arequest p -> ainv w -> aspec p w (fun _ _ => True).
Proof.
  intros Hp Hi. destruct Hp; [apply aspec_forget..|by apply aspec_lift].
  - by apply aspec_start.
  - by apply aspec_setPassword.
  - by apply aspec_confirm.
  - by apply aspec_resend.
  - by apply aspec_forgot.
  - by apply aspec_resetPassword.
  - by apply aspec_accountLogin.
  - by apply aspec_keyFree.
  - by apply aspec_adminConfirm.
Qed.
Lemma accounts_inv w0 y : ainv w0 -> sreach aexec anything arequest w0 y -> ainv (shared y).
Proof.
  intros H0 Hy. refine (proj1 (sreach_inv aexec anything ainv ale ale_refl ale_trans arequest w0 y H0 _ Hy)).
  intros p w Hp Hi. eapply wp_mono; [by apply arequest_spec|]. done.
Qed.

(** No account on record, whatever the other tables hold. *)
Definition first_accounts (c : world) : aworld := MkAWorld c (MkATables ∅ ∅) ∅ ∅ ∅ [] [].
Lemma first_accounts_inv c : ainv (first_accounts c).
Proof. split; cbn; set_solver. Qed.

(** C19: In every interleaving of sign-ups, confirmations, resends, password resets, logins, key
    requests and any other requests of the arbiter, with statements and commands failing or
    losing their replies, and whatever Camerlengo does and answers: every password the arbiter
    asks it to set has at least eight characters, and it was asked for by a request that
    presented a reset token stored for that user, or it is for an account whose creation by
    the arbiter was answered without an error, and was asked for under that user's address
    or follows a confirmation token stored for that user. (Such an answer does not mean that
    the account is new: [empty_reply_taken_for_new_account].) Tokens are mailed only to the
    user they are stored for, and a mail that names a password names one that was asked for. *)
Theorem passwords_guarded c y :
  sreach aexec anything arequest (first_accounts c) y ->
  (forall user pw, (user, pw) ∈ a_changes (shared y) -> allowed (shared y) user pw) /\
  (forall to_ m, (to_, m) ∈ a_mails (shared y) -> mail_ok (shared y) to_ m).
Proof. intros Hy. destruct (accounts_inv _ y (first_accounts_inv c) Hy). by split. Qed.
End passwords.

(** ** Runs *)

#[local] Existing Instances Json.toy_floats ascii_only toy_aead Signing.toy_key.
(** One request after the other, each in its environment. *)
Definition aplay (ps : list ((nat -> Env) * AM unit)) (w : aworld) : aworld := fold_left (fun w p => (run aexec p.1 0 p.2 w).2) ps w.
Lemma run_ok_when (E : Env -> AOp -> aworld -> Prop) es n (p : AM unit) w : (forall i o w, E (es i) o w) -> run_ok aexec E es n p w.
Proof. intros He. revert n w. induction p as [a|o k IH]; intros n w; [done|]. split; [apply He|apply IH]. Qed.
Lemma aplay_reach E start ps w0 w ts : Forall (fun p => start p.2 /\ forall i o w, E (p.1 i) o w) ps -> sreach aexec E start w0 (MkSystem w ts) ->
  sreach aexec E start w0 (MkSystem (aplay ps w) (ts ++ repeat (Ret ()) (length ps))).
Proof.
  revert w ts. induction ps as [|p ps IH]; intros w ts Hs Hr; [by rewrite app_nil_r|]. apply Forall_cons_1 in Hs as [[Hp He] Hs].
  cbn [aplay fold_left length repeat]. rewrite cons_middle, app_assoc. apply IH; [done|].
  apply reach_run; [done|by apply run_ok_when|done].
Qed.

(** Everything is done; [after] nanoseconds pass before each operation. *)
Definition ok_env (after : Z) : Env := MkEnv after Done id (Some (replicate 32 7)) (Some (MkReply (bs "ok") [] [] (bs "s"))) None.
Definition alice : gostring := bs "alice@example.com".
Definition the_token : gostring := Hex.encode (replicate 32 7).
Definition sign_up : (nat -> Env) * AM unit := (fun _ => ok_env 0, forget (apiAccountStart true (Some (bs "Alice@Example.com ")))).
Definition forgot_alice : (nat -> Env) * AM unit := (fun _ => ok_env 0, forget (apiForgotPassword true false (Some alice))).
Definition reset_alice (pw : string) : (nat -> Env) * AM unit := (fun _ => ok_env 0, forget (apiResetPassword (Some (the_token, bs pw)))).
Definition no_world : world := MkWorld no_rows 0 [] [] ∅.
(** Alice, who never signed up here, resets the password of her account. *)
Definition reset_run : system (Resp := AResp) (St := aworld) :=
  MkSystem (aplay [forgot_alice; reset_alice "a new one"] (first_accounts no_world)) (repeat (Ret ()) 2).
Definition one_reset (tok pw : gostring) : Prop := tok = the_token /\ pw = bs "a new one".
Lemma reset_run_reachable :
  sreach aexec anything (arequest [] id one_reset (fun _ _ => False) (fun _ => False)) (first_accounts no_world) reset_run.
Proof.
  apply (aplay_reach _ _ [forgot_alice; reset_alice "a new one"] _ _ []); [|constructor].
  repeat (apply List.Forall_cons; [split; [|done]|]); [| |apply List.Forall_nil].
  - apply areq_forgot.
  - apply areq_reset. by intros tok pw [= <- <-].
Qed.
Lemma passwords_guarded_witness :
  (alice, bs "a new one") ∈ a_changes (shared reset_run) /\ token_of (shared reset_run) the_token alice (bs "reset").
Proof.
  assert ((alice, bs "a new one") ∈ a_changes (shared reset_run)) as Hc by (apply (bool_decide_unpack _); by vm_compute).
  split; [exact Hc|].
  destruct (passwords_guarded [] id one_reset (fun _ _ => False) (fun _ => False) no_world reset_run reset_run_reachable) as [H _].
  destruct (H _ _ Hc) as (_ & [(tok & [-> _] & Ht)|(_ & [(? & [] & _)|(? & [] & _)])]). exact Ht.
Defined.

(** ** Behaviour worth knowing *)

(** Camerlengo may answer with an empty object while it restarts; user:add takes that for a new
    account. Anyone can then set the password of an account that exists: a password is set
    although no account was created. *)
Definition restart_env (n : nat) : Env :=
  if bool_decide (n = 1%nat) then MkEnv 0 Failed id None (Some (MkReply [] [] [] [])) None else ok_env 0.
Definition set_alice (pw : string) : (nat -> Env) * AM unit := (fun _ => ok_env 0, forget (apiAccountSetPassword (Some (alice, bs pw)))).
Definition hijacked : aworld := aplay [(restart_env, sign_up.2); set_alice "mallory's"] (first_accounts no_world).
Theorem empty_reply_taken_for_new_account :
  sreach aexec (fun _ _ _ => True) (arequest [] id (fun _ _ => False) (fun _ _ => True) (fun _ => False)) (first_accounts no_world)
    (MkSystem hijacked (repeat (Ret ()) 2)) /\
  a_changes hijacked = [(alice, bs "mallory's")] /\ a_new hijacked = ∅.
Proof.
  split; [|by vm_compute]. apply (aplay_reach _ _ [(restart_env, sign_up.2); set_alice "mallory's"] _ _ []); [|constructor].
  repeat (apply List.Forall_cons; [split; [|done]|]); [apply areq_start|by apply areq_set|apply List.Forall_nil].
Qed.

(** A token is read and deleted by two statements: of two requests at the same time, both are served. *)
Definition astep_at (e : Env) (y : system (Resp := AResp) (St := aworld)) (i : nat) : system :=
  match threads y !! i with
  | Some (Do o k) => let (r, w) := aexec e o (shared y) in MkSystem w (<[i := k r]> (threads y))
  | _ => y
  end.
Definition two_resets : system (Resp := AResp) (St := aworld) :=
  fold_left (astep_at (ok_env 0)) [0; 1; 0; 1; 0; 1; 0; 1]%nat
    (MkSystem (aplay [forgot_alice] (first_accounts no_world)) [(reset_alice "the first one").2; (reset_alice "the other one").2]).
Theorem token_consumed_twice :
  a_changes (shared two_resets) = [(alice, bs "the other one"); (alice, bs "the first one")] /\ threads two_resets = [Ret (); Ret ()].
Proof. by vm_compute. Qed.

(** A stranger signs Alice up and sets a password; eleven minutes later she follows her link. Her
    account is confirmed, no password is generated, and the stranger's is still the one in place. *)
Definition confirm_alice (after : Z) : (nat -> Env) * AM unit :=
  (fun n => ok_env (if bool_decide (n = 0%nat) then after else 0), forget (apiConfirmEmail id (fun _ => 0%nat) (fun _ => 0%nat) [] (Some the_token))).
Definition signed_up_by (after : Z) : aworld := aplay [sign_up; set_alice "mallory's"; confirm_alice after] (first_accounts no_world).
Theorem late_confirmation_keeps_password :
  a_changes (signed_up_by (11 * minute)) = [(alice, bs "mallory's")] /\
  at_conf (a_t (signed_up_by (11 * minute))) !! alice = Some (true, 0) /\
  map fst (a_changes (signed_up_by (9 * minute))) = [alice; alice].
Proof. by vm_compute. Qed.
End Accounts.
